(* ===== verification/_CoqProject ===== *)
-Q . S2P
Prelude.v
BTree.v
Worklist.v
Text.v
CodecModel.v
CodecGraph.v
CodecSpec.v
CodecIntern.v
CodecSerialize.v
CodecOrder.v
CodecValidate.v
Codec.v
CodecTyped.v
Ssa.v
SeqCopy.v
VmSemantics.v
VmReference.v
SeqCopyLoop.v
SeqCopyRefine.v
SeqCopyBlock.v
SeqCopyTheorems.v
SsaClosure.v
SsaClosureSpec.v
SsaClosureAttached.v
SsaClosureTheorems.v
Program.v
AppProgram.v
AppProgramTheorems.v
Emission.v
EmissionTheorems.v
Retention.v
RetentionTheorems.v
BackendRoots.v
BackendRootsTheorems.v
Unicode.v
UnicodeTheorems.v
ProbeCache.v
ProbeCacheTheorems.v
Json.v
AppRequest.v
AppRequestTheorems.v
AppKeys.v
AppKeysTheorems.v
AppSamples.v
AppStore.v
AppCache.v
AppCacheTheorems.v
AppReuse.v
AppReuseTheorems.v
AppAnnotate.v
AppAnnotateTheorems.v
AppClosure.v
AppClosureTheorems.v
AppInterface.v
AppInterfaceTheorems.v
AppSelect.v
AppSelectTheorems.v
AppArtifact.v
AppRespond.v
AppBuild.v
AppRespondTheorems.v
AppBuildTheorems.v
AppFlowTheorems.v
AppFlowSamples.v
RunnerText.v
Runner.v
RunnerTheorems.v
RunnerBindingTheorems.v
RunnerSamples.v
ProbeSources.v
ProbeSourcesTheorems.v
ProbePrograms.v
ProbeProgramsTheorems.v
Provider.v
ProviderTheorems.v
BuildScript.v
BuildScriptTheorems.v
ProbeDriver.v
ProbeDriverTheorems.v
ProbeSamples.v
