(* ===== verification/Prelude.v ===== *)
(** * mncs-compiler: verification of the Rust toolchain

    The repository holds a self-hosted compiler and the Rust tools that build,
    run and cache what it produces.  This library verifies the Rust tools, all
    under [src/tools].

    ** The program

    - [vm-artifact-codec/src/lib.rs] writes SSA metadata as a graph of shared
      nodes and reads it back.
    - [vm_emit.rs] turns an elaborated program into a sealed VM artifact: it
      prunes the program to what an application calls, has the language crates
      compile it, closes the SSA over the application's roots, lowers sequence
      copies, and assembles the artifact, whose metadata goes through the codec.
    - [stage0-probe/src/application.rs] answers build requests: it admits the
      request, looks for an earlier build in three caches, runs the frontend,
      selects tests, computes closures and interfaces, emits through
      [vm_emit.rs], assesses the artifact and publishes the build.
    - [stage0-probe/src/main.rs] is the probe: it loads modules and the library
      modules they use, identifies its toolchain, caches frontend programs and
      backend artifacts, admits the artifacts to sessions and answers probe
      requests; [cache_retention.rs] keeps its cache directory within a budget.
      [provider.rs] is its second transport, one compilation with modules found
      below given roots; [build.rs] writes the receipt the provider reports.
    - [native_app_vm_runner.rs] runs an artifact in the VM behind a provider
      that may touch the files of one call.
    - [generate_unicode_classifier.rs] generates the lexer's character tables.

    ** The library

    Definitions files translate one part each and are followed by files of
    theorems; [*Samples] files and [VmReference] hold the concrete instances
    that theorems are applied at.

    - Foundations.  This file: integers, [Outcome] (Rust's [Result] with a third
      case for a panic), lists and options.  [BTree]: [Ord], [BTreeSet] and
      [BTreeMap] as ascending lists.  [Worklist]: the drain loop that all the
      closures share, its fuel bound and its result as a reachable set.
      [Text]: [str] methods.  [Json]: [serde_json::Value].
    - Codec: [CodecModel] (Builder, Compound, the serializer), [CodecGraph]
      (canonical_order, validate, the At deserializer); [CodecSpec] is the
      specification -- the canonical graph as a function of the value -- and
      [CodecIntern], [CodecSerialize], [CodecOrder] and [CodecValidate] prove the
      stages; [Codec] has the contract and [CodecTyped] the reading of a type.
    - Emitter: [Ssa] and [Program] are the language crates' types; [SeqCopy] the
      three sequence-copy passes, with [VmSemantics] as the interface to the VM
      and [SeqCopyLoop], [SeqCopyRefine], [SeqCopyBlock], [SeqCopyTheorems] as a
      refinement from instruction to block; [SsaClosure] (with [SsaClosureSpec], [SsaClosureAttached],
      [SsaClosureTheorems]) is application_ssa_closure; [AppProgram] the
      backend input; [Emission] the rest of vm_emit.rs, which calls all of them
      and the codec; [AppArtifact] the JSON of an artifact.
    - Application builder, in the order a request goes through it: [AppRequest]
      (admission), [AppKeys] (identities and cache keys), [AppStore] (files and
      system calls), [AppCache] (entries), [AppReuse] (comparison and rewriting
      of earlier builds), [AppClosure] (closure identities), [AppInterface]
      (callable interfaces), [AppSelect] (tests), [AppRespond] (responses),
      [AppAnnotate] (the report on the work done) and [AppBuild], which is
      compile_application and calls all of them.
    - Probe, in the order of [main]: [ProbeSources] (the compiler's modules, the
      library modules reached from the requested ones, the closure),
      [ProbeCache] (keys, metadata, admission of entries), [Retention] (the
      cache directory), [BackendRoots] (projection onto roots),
      [ProbePrograms] (the toolchain's identity, reading and writing entries,
      loading, elaborating and compiling the modules) and [ProbeDriver] (the
      sessions, the two request loops, [main]).  [Provider] and [BuildScript]
      are the files of these names.  [ProbeProgramsTheorems] and
      [ProbeDriverTheorems] compose them.
    - Runner: [RunnerText] (UTF-8 decoding, paths) and [Runner].
    - [Unicode]: the classifier generator and the functions it prints.

    ** State and effects

    A function that can fail returns an [Outcome]; the early return of a
    response is [Err response].  The serializer threads its [Builder].  The
    builder's state is [AppBuild.BuildState]: the disk with every store another
    process could have seen ([AppStore]), the frontend's summary cache and the
    counter of temporary names; system calls fail as the parameters
    [en_fails] and [en_partial] of the environment say.  A publication that
    fails before it names its temporary file still counts a name, which only
    changes later temporary names.  The probe's cache directory is the list of
    its entries with their contents ([Retention]); a phase of the probe is a
    [ProbePrograms.Probe], which leaves a directory even when it panics, and
    its calls fail as [pe_fails] says.  Files are read through the same
    parameters: a failing read is a miss of a cache, a failing listing ends a
    pruning.  The driver's loops thread the builder's state, the sessions, which
    an execution may change, and the programs that are not released yet.
    The runner's state is the files by path
    components; a call of the VM session is the tree [Runner.VmRun] of the
    effects it performs, so the model covers the calls that return.

    What is not in this repository -- the language frontend, the SSA compiler,
    the VM, serde, SHA-256 -- are the members of classes ([ModelCrate],
    [ProgramCrate], [Toolchain], [JsonCrate], [BuildCrate], [RunnerCrate] and
    others); where a theorem needs a documented behaviour of such a member, it
    is a law of the class or a hypothesis, and the samples have an instance.

    ** What is proved

    - Codec: [encode] computes the specification's graph; decoding it gives the
      value back within the decoder's limits, also at a type with derived
      implementations, and is an error beyond them; [validate]
      accepts exactly the canonical well-formed graphs; reading never panics, on
      any graph and at any type.
    - Lowerings: running the instructions each pass emits refines running the
      copy they replace, per instruction and block, with the same runtime error.
    - Closures: the kept functions, record types, obligations, programs and
      projections are exactly those reachable from the roots, closing never runs
      out of fuel and is idempotent.
    - Artifact: its metadata is readable, its callables are exact and the
      selected exports resolve.
    - Builds: every response is an object under the contract of the request
      with a status of the protocol; only a verified build is published; a
      published build is found again by a later process that can read its entry;
      a reused build has the
      closure, interfaces and language version of the current program; the
      status is verified exactly when every callable, interface and obligation
      is; no request, cache content or failing system call makes a build panic.
    - Identities: equal identities mean equal closures, interfaces and requests.
    - Caches: what is read is what was published, under the key it was published
      for; pruning evicts exactly the oldest entries and keeps the budget.
    - Probe: from a cache that compilers of different toolchains share, a run
      without a backend gets exactly the programs that its own front end gives
      for the current sources, and every run leaves such a cache; every artifact
      that is executed was verified; a retained session answers an execution
      after exactly the earlier executions for its module; released programs
      cannot be observed in the answers; exactly the library modules that are reached are loaded.
    - Provider: a module resolves exactly when the roots have one text for it,
      and conflicts exactly when they have two; the reported inputs are exactly
      the files that were read, one row for each path as it is shown; the producer's
      identity is the digest of a receipt that names every input.
    - Runner: the accepted bindings are exactly the unambiguous ones of the
      artifact; a batch changes no file that was there; a digest tells apart
      exactly the operands with different data.
    - Unicode: the printed search decides exactly the property it was generated
      from, and regeneration is stable.

    ** Bounds and fuel

    The loader of library modules carries fuel because the files decide what it
    reads next; one more than the requests and the imports of the modules they
    reach is proved enough.  The worklists carry the fuel [Worklist.enough], one
    step per queued name, proved sufficient in each closure's totality theorem.
    The decoder's fuel is its depth limit, which [validate] enforces, as
    [EXTERNAL_DEPTH] is the nesting bound of the runner.  The generated search
    makes its twelve iterations.  Widths and overflow are written where they
    happen: node ids and expanded sizes in the codec, saturating sums in the
    cache, the constants of the lowerings.

    ** Not modelled

    The lock file of the cache and the exclusion it gives between processes, so
    a run is a sequence of its own operations; the standard error, traces and
    timings, which no result depends on, and failing writes to the standard
    output; the JSON readers and writers of serde; test code, and the compiler
    sources in the language itself. *)

From stdpp Require Export base gmap strings list sorting fin_maps.
From Stdlib Require Export ZArith.

(** ** Machine-width integers

    [u8], [u32] and [u64] values are [N] or [Z] inside the ranges below; each
    operation of the source that can leave the range writes out what Rust does
    there (a checked operation, a saturating one, or a panic). *)
Definition U8_MAX : Z := 255.
Definition U32_MAX : Z := 4294967295.
Definition U64_MAX : Z := 18446744073709551615.

(** [u32::saturating_add]. *)
Definition u32_saturating_add (a b : Z) : Z := Z.min (a + b) U32_MAX.

(** [u64::saturating_add] and [u64::saturating_sub]. *)
Definition u64_saturating_add (a b : Z) : Z := Z.min (a + b) U64_MAX.
Definition u64_saturating_sub (a b : Z) : Z := Z.max (a - b) 0.

(** ** Outcomes of fallible code

    [Ok] and [Err] are Rust's [Result]; [Panic] is an unwinding panic
    (a failed assertion, an index out of range, an [expect] on [None]). *)
Inductive Outcome (E A : Type) : Type :=
  | Ok (a : A)
  | Err (e : E)
  | Panic (message : string).
Arguments Ok {E A} a.
Arguments Err {E A} e.
Arguments Panic {E A} message.

#[export] Instance outcome_ret {E} : MRet (Outcome E) := fun A a => Ok a.
#[export] Instance outcome_bind {E} : MBind (Outcome E) := fun A B f m =>
  match m with
  | Ok a => f a
  | Err e => Err e
  | Panic message => Panic message
  end.
#[export] Instance outcome_fmap {E} : FMap (Outcome E) := fun A B f m =>
  match m with
  | Ok a => Ok (f a)
  | Err e => Err e
  | Panic message => Panic message
  end.

(** [Option::ok_or], [Option::expect] and an index expression [v[i]]. *)
Definition ok_or {E A} (e : E) (o : option A) : Outcome E A :=
  match o with Some a => Ok a | None => Err e end.
Definition expect {E A} (message : string) (o : option A) : Outcome E A :=
  match o with Some a => Ok a | None => Panic message end.
Definition index {E A} (l : list A) (i : nat) : Outcome E A :=
  expect "index out of bounds" (l !! i).

Definition is_ok {E A} (o : Outcome E A) : bool :=
  match o with Ok _ => true | _ => false end.

(** A left fold whose body may fail: a [for] loop with [?] in it. *)
Section FoldOutcome.
Context {E A S : Type} (f : S -> A -> Outcome E S).
Fixpoint fold_outcome (s : S) (l : list A) : Outcome E S :=
  match l with
  | [] => Ok s
  | x :: rest => s' ← f s x; fold_outcome s' rest
  end.
End FoldOutcome.

(** [iter().map(..).collect::<Result<Vec<_>, _>>()]. *)
Section MapOutcome.
Context {E A B : Type} (f : A -> Outcome E B).
Fixpoint map_outcome (l : list A) : Outcome E (list B) :=
  match l with
  | [] => Ok []
  | x :: rest => y ← f x; ys ← map_outcome rest; Ok (y :: ys)
  end.
End MapOutcome.

(** ** Tactics *)

(** Splits a successful [Outcome] bind into its successful parts. *)
Ltac outcome_inv :=
  repeat match goal with
  | H : Ok _ = Ok _ |- _ => injection H as H; try subst
  | H : Err _ = Ok _ |- _ => discriminate H
  | H : Panic _ = Ok _ |- _ => discriminate H
  | H : Ok _ = Err _ |- _ => discriminate H
  | H : Panic _ = Err _ |- _ => discriminate H
  | H : mret _ = Ok _ |- _ => unfold mret, outcome_ret in H
  | H : mbind _ ?m = Ok _ |- _ =>
      let E := fresh "E" in
      destruct m eqn:E; cbn [mbind outcome_bind] in H; try discriminate H
  | H : ok_or _ ?o = Ok _ |- _ =>
      let E := fresh "E" in
      destruct o eqn:E; cbn [ok_or] in H; try discriminate H
  | H : expect _ ?o = Ok _ |- _ =>
      let E := fresh "E" in
      destruct o eqn:E; cbn [expect] in H; try discriminate H
  | H : index _ _ = Ok _ |- _ => unfold index in H
  end.

(** Case analysis on the condition of the first [if] in the goal. *)
Ltac case_if :=
  match goal with
  | |- context [if ?b then _ else _] => let E := fresh "E" in destruct b eqn:E
  end.

(** ** Generic lemmas *)

Lemma outcome_bind_ok {E A B} (m : Outcome E A) (f : A -> Outcome E B) b :
  (m ≫= f) = Ok b <-> exists a, m = Ok a /\ f a = Ok b.
Proof.
  destruct m; cbn; split; intros H; eauto; try discriminate;
    destruct H as (? & ? & ?); congruence.
Qed.

Lemma index_ok {E A} (l : list A) i x :
  @index E A l i = Ok x <-> l !! i = Some x.
Proof. unfold index, expect. destruct (l !! i); split; congruence. Qed.

Lemma elem_of_filterb {A} (p : A -> bool) (l : list A) x : x ∈ List.filter p l <-> x ∈ l /\ p x = true.
Proof. by rewrite !list_elem_of_In, filter_In. Qed.

Lemma fold_outcome_app {E A S} (f : S -> A -> Outcome E S) s l1 l2 :
  fold_outcome f s (l1 ++ l2) =
  (s' ← fold_outcome f s l1; fold_outcome f s' l2).
Proof.
  revert s. induction l1 as [|x l1 IH]; intros s; cbn; [done|].
  destruct (f s x); cbn; auto.
Qed.

(** An invariant kept by every successful step of a fold. *)
Lemma fold_outcome_inv {E A S} (f : S -> A -> Outcome E S) (I : S -> Prop) l :
  (forall s x s', x ∈ l -> I s -> f s x = Ok s' -> I s') ->
  forall s s', I s -> fold_outcome f s l = Ok s' -> I s'.
Proof.
  induction l as [|x l IH]; cbn; intros Hf s s' Hs H.
  - by injection H as <-.
  - apply outcome_bind_ok in H as (s1 & H1 & H2).
    eapply IH; [|eapply Hf; eauto; by left|exact H2].
    intros; eapply Hf; eauto. by right.
Qed.

(** Where such a loop fails. *)
Lemma fold_outcome_err {E A S} (f : S -> A -> Outcome E S) s l e :
  fold_outcome f s l = Err e -> exists l1 x l2 s', l = l1 ++ x :: l2 /\ fold_outcome f s l1 = Ok s' /\ f s' x = Err e.
Proof.
  revert s. induction l as [|x l IH]; intros s; cbn; [done|].
  destruct (f s x) as [s1|e'|m] eqn:Hx; cbn; [|intros [= <-]|done].
  - intros (l1 & y & l2 & s' & -> & Hl & Hy)%IH. exists (x :: l1), y, l2, s'. split; [done|].
    split; [|done]. cbn. by rewrite Hx.
  - by exists [], x, l, s.
Qed.

Lemma fold_outcome_no_panic {E A S} (f : S -> A -> Outcome E S) (l : list A) :
  (forall s x message, f s x <> Panic message) ->
  forall s message, fold_outcome f s l <> Panic message.
Proof.
  intros Hf. induction l as [|x l IH]; intros s message; cbn; [done|].
  destruct (f s x) as [s1|e|msg] eqn:Es; cbn; [apply IH|done|by destruct (Hf s x msg)].
Qed.

(** [for (i, x) in l.iter().enumerate()], one element at a time. *)
Lemma enumerate_ind {A} (l : list A) (P : nat -> list (nat * A) -> Prop) :
  P (length l) [] ->
  (forall n x rest, l !! n = Some x -> P (S n) rest -> P n ((n, x) :: rest)) ->
  P 0 (imap (fun i x => (i, x)) l).
Proof.
  intros Hend Hstep.
  assert (Hgen : forall r n, drop n l = r -> n + length r = length l ->
    P n (imap (fun i x => (n + i, x)) r)); [|by apply (Hgen l 0)].
  induction r as [|x r IH]; intros n Hd Hlen.
  - cbn in Hlen. by replace n with (length l) by lia.
  - cbn [imap]. rewrite Nat.add_0_r. apply Hstep.
    + rewrite <- (take_drop n l), Hd, lookup_app_r by (rewrite length_take; lia).
      rewrite length_take, Nat.min_l by (cbn in Hlen; lia). by rewrite Nat.sub_diag.
    + replace (imap _ r) with (imap (fun i y => (S n + i, y)) r).
      * apply IH; [by rewrite <- Nat.add_1_r, <- drop_drop, Hd|cbn in Hlen; lia].
      * apply imap_ext. intros i y _. cbn. f_equal. lia.
Qed.

(** An invariant of such a loop, and a loop whose steps all succeed. *)
Lemma fold_outcome_imap_inv {E A S} (f : S -> nat * A -> Outcome E S) (I : nat -> S -> Prop) (l : list A) :
  (forall n s x s', l !! n = Some x -> I n s -> f s (n, x) = Ok s' -> I (Datatypes.S n) s') ->
  forall s s', I 0 s -> fold_outcome f s (imap (fun i x => (i, x)) l) = Ok s' -> I (length l) s'.
Proof.
  intros Hf s s'. revert s.
  apply (enumerate_ind l (fun n rest => forall s, I n s -> fold_outcome f s rest = Ok s' -> I (length l) s')).
  - intros s HI [= <-]. done.
  - intros n x rest Hn IH s HI Hs. cbn in Hs. apply outcome_bind_ok in Hs as (s1 & H1 & Hs). eauto.
Qed.

Lemma fold_outcome_imap_total {E A S} (f : S -> nat * A -> Outcome E S) (I : nat -> S -> Prop) (l : list A) :
  (forall n s x, l !! n = Some x -> I n s -> exists s', f s (n, x) = Ok s' /\ I (Datatypes.S n) s') ->
  forall s, I 0 s -> exists s', fold_outcome f s (imap (fun i x => (i, x)) l) = Ok s'.
Proof.
  intros Hf.
  apply (enumerate_ind l (fun n rest => forall s, I n s -> exists s', fold_outcome f s rest = Ok s')).
  - intros s _. by eexists.
  - intros n x rest Hn IH s HI. cbn. destruct (Hf n s x Hn HI) as (s1 & -> & HI1). cbn. eauto.
Qed.

(** A [for] loop that adds to a set: what it adds is what its steps add. *)
Lemma elem_of_fold_adds {A B} (step : list B -> A -> list B) (P : A -> B -> Prop) (l : list A) :
  (forall acc x y, x ∈ l -> y ∈ step acc x <-> P x y \/ y ∈ acc) ->
  forall acc y, y ∈ fold_left step l acc <-> (exists x, x ∈ l /\ P x y) \/ y ∈ acc.
Proof.
  induction l as [|x l IH]; intros Hs acc y; cbn.
  - split; [by right|intros [(x & ?%elem_of_nil & _)|?]; done].
  - rewrite IH by (intros; apply Hs; by right). rewrite Hs by (by left).
    setoid_rewrite elem_of_cons. naive_solver.
Qed.

(** ** [Vec::retain] *)

(** Kept in order. *)
Lemma filter_sublist {A} (p : A -> bool) (l : list A) : List.filter p l `sublist_of` l.
Proof. induction l as [|x l IH]; cbn; [done|]. destruct (p x); by constructor. Qed.

Lemma NoDup_map_unique {A B} (f : A -> B) (l : list A) x y :
  NoDup (map f l) -> x ∈ l -> y ∈ l -> f x = f y -> x = y.
Proof.
  intros Hnd [i Hi]%list_elem_of_lookup [j Hj]%list_elem_of_lookup Hf.
  assert (i = j) as ->; [|congruence]. eapply (NoDup_lookup (map f l) i j (f x)); [done|..].
  - by rewrite list_lookup_fmap, Hi.
  - by rewrite list_lookup_fmap, Hj, Hf.
Qed.

Lemma filter_all {A} (p : A -> bool) (l : list A) : (forall x, x ∈ l -> p x = true) -> List.filter p l = l.
Proof.
  induction l as [|x l IH]; intros Hp; [done|]. cbn. rewrite Hp by (by left). f_equal. apply IH.
  intros y Hy. apply Hp. by right.
Qed.

Lemma filter_filter {A} (p : A -> bool) (l : list A) : List.filter p (List.filter p l) = List.filter p l.
Proof. apply filter_all. intros x Hx%list_elem_of_In. by apply filter_In in Hx as [_ ?]. Qed.

(** ** [collect::<Result<Vec<_>, _>>] *)

Lemma map_outcome_ok {E A B} (f : A -> Outcome E B) l l' :
  map_outcome f l = Ok l' <-> Forall2 (fun x y => f x = Ok y) l l'.
Proof.
  revert l'. induction l as [|x l IH]; intros l'; cbn.
  - split; [intros [= <-]; constructor|inversion 1; done].
  - split.
    + intros H. outcome_inv. constructor; [done|]. by apply IH.
    + inversion 1 as [|? y ? ys Hy Hys]; subst. rewrite Hy. cbn.
      apply IH in Hys. by rewrite Hys.
Qed.

Lemma map_outcome_no_panic {E A B} (f : A -> Outcome E B) l :
  (forall x message, f x <> Panic message) -> forall message, map_outcome f l <> Panic message.
Proof.
  intros Hf. induction l as [|x l IH]; intros message; cbn; [done|].
  destruct (f x) as [y|e|m] eqn:Ex; cbn; [|done|by destruct (Hf x m)].
  destruct (map_outcome f l) as [ys|e|m]; cbn; [done|done|by destruct (IH m)].
Qed.

Lemma elem_of_map_outcome {E A B} (f : A -> Outcome E B) l k y :
  map_outcome f l = Ok k -> y ∈ k <-> exists x, x ∈ l /\ f x = Ok y.
Proof.
  intros Hm%map_outcome_ok. induction Hm as [|x z l k Hx _ IH].
  - split; [by intros ?%elem_of_nil|by intros (? & ?%elem_of_nil & _)].
  - setoid_rewrite elem_of_cons. rewrite IH. split.
    + intros [->|(x' & ? & ?)]; eauto.
    + intros (x' & [->|?] & Hy); [left; congruence|right; eauto].
Qed.

Create HintDb outcome.
#[export] Hint Rewrite @outcome_bind_ok @index_ok @map_outcome_ok : outcome.

(** ** Stable sorting

    [slice::sort_by] is a stable sort; its result is determined by the input
    and the comparison, and insertion sort computes it.  [insert_by] places [x]
    before the first element that is not below it, so equal elements keep their
    order. *)
Section SortBy.
Context {A : Type} (le : A -> A -> bool).

Fixpoint insert_by (x : A) (l : list A) : list A :=
  match l with
  | [] => [x]
  | y :: rest => if le x y then x :: l else y :: insert_by x rest
  end.

Definition sort_by (l : list A) : list A := fold_right insert_by [] l.

Lemma insert_by_perm x l : insert_by x l ≡ₚ x :: l.
Proof.
  induction l as [|y l IH]; cbn; [done|]. destruct (le x y); [done|].
  rewrite IH. apply Permutation_swap.
Qed.

Lemma sort_by_perm l : sort_by l ≡ₚ l.
Proof. induction l as [|x l IH]; cbn; [done|]. by rewrite insert_by_perm, IH. Qed.

Lemma length_sort_by l : length (sort_by l) = length l.
Proof. apply Permutation_length, sort_by_perm. Qed.

Context (R : relation A) (le_R : forall x y, le x y = true -> R x y)
  (le_total : forall x y, le x y = false -> R y x) `{!Transitive R}.

Lemma insert_by_sorted x l : StronglySorted R l -> StronglySorted R (insert_by x l).
Proof.
  induction 1 as [|y l Hl IH Hy]; cbn; [repeat constructor|].
  destruct (le x y) eqn:E.
  - repeat constructor; try done; [by apply le_R|].
    eapply Forall_impl; [exact Hy|]. intros z Hz. etrans; [by apply le_R|done].
  - constructor; [done|]. rewrite insert_by_perm. constructor; [by apply le_total|done].
Qed.

Lemma sort_by_sorted l : StronglySorted R (sort_by l).
Proof. induction l; cbn; [constructor|by apply insert_by_sorted]. Qed.
End SortBy.

(** Sorting keeps relative positions under an order-preserving map. *)
Lemma insert_by_map {A B} (f : A -> B) (leA : A -> A -> bool) (leB : B -> B -> bool) x l :
  (forall y, y ∈ l -> leA x y = leB (f x) (f y)) ->
  map f (insert_by leA x l) = insert_by leB (f x) (map f l).
Proof.
  induction l as [|y l IH]; cbn; intros H; [done|].
  rewrite <- H by (by left). destruct (leA x y); cbn; [done|].
  f_equal. apply IH. intros z Hz. apply H. by right.
Qed.

Lemma sort_by_map {A B} (f : A -> B) (leA : A -> A -> bool) (leB : B -> B -> bool) l :
  (forall x y, x ∈ l -> y ∈ l -> leA x y = leB (f x) (f y)) ->
  map f (sort_by leA l) = sort_by leB (map f l).
Proof.
  induction l as [|x l IH]; intros H; [done|].
  change (map f (insert_by leA x (sort_by leA l))
          = insert_by leB (f x) (sort_by leB (map f l))).
  rewrite <- IH by (intros; apply H; by right).
  apply insert_by_map. intros y Hy. apply H; [by left|].
  right. by rewrite sort_by_perm in Hy.
Qed.
