(* ===== verification/BTree.v ===== *)
(** Rust's [Ord] and the ordered collections of [std::collections].

    [RustOrd] is the [Ord] trait with its laws; the instances are the derived
    orders the program relies on (bytewise on [String], lexicographic on tuples
    and vectors, [None] below [Some]).  [BTreeSet] and [BTreeMap] are strictly
    ascending lists, so that iterating them gives Rust's iteration order. *)

From S2P Require Export Prelude.

Class RustOrd (A : Type) := {
  ord_cmp : A -> A -> comparison;
  ord_cmp_eq : forall a b, ord_cmp a b = Eq <-> a = b;
  ord_cmp_antisym : forall a b, ord_cmp b a = CompOpp (ord_cmp a b);
  ord_cmp_trans : forall a b c,
    ord_cmp a b = Lt -> ord_cmp b c = Lt -> ord_cmp a c = Lt
}.

Definition ord_lt {A} `{RustOrd A} (a b : A) : Prop := ord_cmp a b = Lt.
Definition ord_ltb {A} `{RustOrd A} (a b : A) : bool :=
  match ord_cmp a b with Lt => true | _ => false end.
Definition ord_leb {A} `{RustOrd A} (a b : A) : bool :=
  match ord_cmp a b with Gt => false | _ => true end.

Section OrdLaws.
Context {A : Type} `{RustOrd A}.

Lemma ord_cmp_refl (a : A) : ord_cmp a a = Eq.
Proof. by apply ord_cmp_eq. Qed.

Lemma ord_lt_irrefl (a : A) : ~ ord_lt a a.
Proof. unfold ord_lt. by rewrite ord_cmp_refl. Qed.

Lemma ord_lt_trans (a b c : A) : ord_lt a b -> ord_lt b c -> ord_lt a c.
Proof. apply ord_cmp_trans. Qed.

Lemma ord_gt_lt (a b : A) : ord_cmp a b = Gt <-> ord_lt b a.
Proof. unfold ord_lt. rewrite (ord_cmp_antisym a b). by destruct (ord_cmp a b). Qed.

Lemma ord_lt_asym (a b : A) : ord_lt a b -> ~ ord_lt b a.
Proof. intros H1 H2. exact (ord_lt_irrefl a (ord_lt_trans _ _ _ H1 H2)). Qed.

Lemma ord_ltb_lt (a b : A) : ord_ltb a b = true <-> ord_lt a b.
Proof. unfold ord_ltb, ord_lt. by destruct (ord_cmp a b). Qed.

Lemma ord_leb_not_lt (a b : A) : ord_leb a b = true <-> ~ ord_lt b a.
Proof.
  unfold ord_leb. destruct (ord_cmp a b) eqn:E; split; try done.
  - intros _ HL. apply ord_cmp_eq in E as ->. by eapply ord_lt_irrefl.
  - intros _. by apply ord_lt_asym.
  - intros Hn. exfalso. by apply Hn, ord_gt_lt.
Qed.

Lemma ord_total (a b : A) : ord_lt a b \/ a = b \/ ord_lt b a.
Proof.
  destruct (ord_cmp a b) eqn:E; [right; left|left|right; right].
  - by apply ord_cmp_eq.
  - done.
  - by apply ord_gt_lt.
Qed.

#[export] Instance ord_eq_dec : EqDecision A | 50.
Proof.
  intros a b. destruct (ord_cmp a b) eqn:E.
  - left. by apply ord_cmp_eq.
  - right. intros ->. by rewrite ord_cmp_refl in E.
  - right. intros ->. by rewrite ord_cmp_refl in E.
Defined.
End OrdLaws.

(** ** The orders the program uses *)

#[export] Program Instance N_ord : RustOrd N := {| ord_cmp := N.compare |}.
Next Obligation. apply N.compare_eq_iff. Qed.
Next Obligation. intros. apply N.compare_antisym. Qed.
Next Obligation. intros a b c. rewrite !N.compare_lt_iff. lia. Qed.

#[export] Program Instance Z_ord : RustOrd Z := {| ord_cmp := Z.compare |}.
Next Obligation. apply Z.compare_eq_iff. Qed.
Next Obligation. intros. apply Z.compare_antisym. Qed.
Next Obligation. intros a b c. rewrite !Z.compare_lt_iff. lia. Qed.

Lemma string_compare_refl (s : string) : String.compare s s = Eq.
Proof.
  induction s as [|a s IH]; cbn; [done|].
  unfold Ascii.compare. by rewrite N.compare_refl.
Qed.

Lemma string_compare_trans (a b c : string) :
  String.compare a b = Lt -> String.compare b c = Lt -> String.compare a c = Lt.
Proof.
  revert b c. induction a as [|x a IH]; intros [|y b] [|z c]; cbn; try done.
  unfold Ascii.compare.
  destruct (N.compare_spec (Ascii.N_of_ascii x) (Ascii.N_of_ascii y)) as [E1|E1|E1];
    destruct (N.compare_spec (Ascii.N_of_ascii y) (Ascii.N_of_ascii z)) as [E2|E2|E2];
    intros H1 H2; try done;
    destruct (N.compare_spec (Ascii.N_of_ascii x) (Ascii.N_of_ascii z)); try done; try lia.
  eauto.
Qed.

#[export] Program Instance string_ord : RustOrd string :=
  {| ord_cmp := String.compare |}.
Next Obligation.
  intros a b; split; [apply String.compare_eq_iff|intros ->; apply string_compare_refl].
Qed.
Next Obligation. intros. apply String.compare_antisym. Qed.
Next Obligation. apply string_compare_trans. Qed.

Definition prod_cmp {A B} `{RustOrd A, RustOrd B} (p q : A * B) : comparison :=
  match ord_cmp p.1 q.1 with Eq => ord_cmp p.2 q.2 | Lt => Lt | Gt => Gt end.

#[export] Program Instance prod_ord {A B} `{RustOrd A, RustOrd B} : RustOrd (A * B) :=
  {| ord_cmp := prod_cmp |}.
Next Obligation.
  intros A B ?? [a b] [a' b']; unfold prod_cmp; cbn. destruct (ord_cmp a a') eqn:E; split; try done.
  - intros E2. apply ord_cmp_eq in E, E2. by subst.
  - intros [= -> ->]. by apply ord_cmp_eq.
  - intros [= -> ->]. by rewrite ord_cmp_refl in E.
  - intros [= -> ->]. by rewrite ord_cmp_refl in E.
Qed.
Next Obligation.
  intros A B ?? [a b] [a' b']; unfold prod_cmp; cbn. rewrite (ord_cmp_antisym a a').
  destruct (ord_cmp a a'); cbn; try done. apply ord_cmp_antisym.
Qed.
Next Obligation.
  intros A B ?? [a1 b1] [a2 b2] [a3 b3]; unfold prod_cmp; cbn.
  destruct (ord_cmp a1 a2) eqn:E1; destruct (ord_cmp a2 a3) eqn:E2; try done; intros H1 H2.
  - apply ord_cmp_eq in E1, E2. subst. rewrite ord_cmp_refl. by eapply ord_cmp_trans.
  - apply ord_cmp_eq in E1. subst. by rewrite E2.
  - apply ord_cmp_eq in E2. subst. by rewrite E1.
  - by rewrite (ord_cmp_trans _ _ _ E1 E2).
Qed.

Definition option_cmp {A} `{RustOrd A} (p q : option A) : comparison :=
  match p, q with
  | None, None => Eq
  | None, Some _ => Lt
  | Some _, None => Gt
  | Some a, Some b => ord_cmp a b
  end.

#[export] Program Instance option_ord {A} `{RustOrd A} : RustOrd (option A) :=
  {| ord_cmp := option_cmp |}.
Next Obligation.
  intros A ? [a|] [b|]; split; try done.
  - intros E. apply ord_cmp_eq in E. by subst.
  - intros [= ->]. apply ord_cmp_refl.
Qed.
Next Obligation. intros A ? [a|] [b|]; try done. apply ord_cmp_antisym. Qed.
Next Obligation. intros A ? [a|] [b|] [c|]; try done. apply ord_cmp_trans. Qed.

Fixpoint list_cmp {A} `{RustOrd A} (l m : list A) : comparison :=
  match l, m with
  | [], [] => Eq
  | [], _ :: _ => Lt
  | _ :: _, [] => Gt
  | a :: l', b :: m' => match ord_cmp a b with Eq => list_cmp l' m' | c => c end
  end.

#[export] Program Instance list_ord {A} `{RustOrd A} : RustOrd (list A) :=
  {| ord_cmp := list_cmp |}.
Next Obligation.
  intros A ? l. induction l as [|a l IH]; intros [|b m]; cbn; try done.
  destruct (ord_cmp a b) eqn:E; split; try done.
  - intros E2. apply ord_cmp_eq in E as ->. by apply IH in E2 as ->.
  - intros [= -> ->]. by apply IH.
  - intros [= -> ->]. by rewrite ord_cmp_refl in E.
  - intros [= -> ->]. by rewrite ord_cmp_refl in E.
Qed.
Next Obligation.
  intros A ? l. induction l as [|a l IH]; intros [|b m]; cbn; try done.
  rewrite (ord_cmp_antisym a b). by destruct (ord_cmp a b); cbn.
Qed.
Next Obligation.
  intros A ? l. induction l as [|a l IH]; intros [|b m] [|c n]; cbn; try done.
  destruct (ord_cmp a b) eqn:E1; destruct (ord_cmp b c) eqn:E2; try done; intros H1 H2.
  - apply ord_cmp_eq in E1, E2. subst. rewrite ord_cmp_refl. eauto.
  - apply ord_cmp_eq in E1. subst. by rewrite E2.
  - apply ord_cmp_eq in E2. subst. by rewrite E1.
  - by rewrite (ord_cmp_trans _ _ _ E1 E2).
Qed.

(** ** [BTreeSet] *)

Section BTreeSet.
Context {A : Type} `{RustOrd A}.

(** [BTreeSet::insert]: the flag tells whether the element was new. *)
Fixpoint bs_insert (x : A) (s : list A) : bool * list A :=
  match s with
  | [] => (true, [x])
  | y :: rest =>
      match ord_cmp x y with
      | Lt => (true, x :: s)
      | Eq => (false, s)
      | Gt => let '(fresh, rest') := bs_insert x rest in (fresh, y :: rest')
      end
  end.

Definition bs_add (x : A) (s : list A) : list A := (bs_insert x s).2.

(** [BTreeSet::extend] and [collect]. *)
Definition bs_extend (s : list A) (l : list A) : list A :=
  fold_left (fun s x => bs_add x s) l s.
Definition bs_of_list (l : list A) : list A := bs_extend [] l.

(** [BTreeSet::remove]. *)
Definition bs_remove (x : A) (s : list A) : list A := filter (fun y => y <> x) s.

Definition bs_mem (x : A) (s : list A) : bool := bool_decide (x ∈ s).

Lemma bs_add_cons x y s :
  bs_add x (y :: s) =
  match ord_cmp x y with Lt => x :: y :: s | Eq => y :: s | Gt => y :: bs_add x s end.
Proof.
  unfold bs_add; cbn. destruct (ord_cmp x y); [done|done|].
  by destruct (bs_insert x s).
Qed.

Lemma elem_of_bs_add x y s : y ∈ bs_add x s <-> y = x \/ y ∈ s.
Proof.
  induction s as [|z s IH]; [cbn; set_solver|]. rewrite bs_add_cons.
  destruct (ord_cmp x z) eqn:E; [|set_solver|].
  - apply ord_cmp_eq in E as ->. set_solver.
  - rewrite !elem_of_cons, IH. tauto.
Qed.

Lemma length_bs_add x s : length (bs_add x s) <= S (length s).
Proof.
  induction s as [|y s IH]; [done|]. rewrite bs_add_cons. destruct (ord_cmp x y); cbn; lia.
Qed.

Lemma elem_of_bs_extend y l s : y ∈ bs_extend s l <-> y ∈ l \/ y ∈ s.
Proof.
  unfold bs_extend. revert s. induction l as [|x l IH]; intros s; cbn.
  - set_solver.
  - rewrite IH, elem_of_bs_add. set_solver.
Qed.

Lemma elem_of_bs_of_list y l : y ∈ bs_of_list l <-> y ∈ l.
Proof. unfold bs_of_list. rewrite elem_of_bs_extend. set_solver. Qed.

Lemma elem_of_bs_remove x y s : y ∈ bs_remove x s <-> y <> x /\ y ∈ s.
Proof. unfold bs_remove. by rewrite list_elem_of_filter. Qed.

Lemma bs_mem_spec x s : bs_mem x s = true <-> x ∈ s.
Proof. unfold bs_mem. by rewrite bool_decide_eq_true. Qed.

(** The representation invariant: strictly ascending. *)
Definition ascending (s : list A) : Prop := StronglySorted ord_lt s.

Lemma ascending_cons x s :
  ascending (x :: s) <-> Forall (ord_lt x) s /\ ascending s.
Proof.
  unfold ascending. split; [inversion 1; done|intros [? ?]; by constructor].
Qed.

Lemma bs_add_ascending x s : ascending s -> ascending (bs_add x s).
Proof.
  induction s as [|y s IH]; intros Hs; [cbn; by repeat constructor|].
  rewrite bs_add_cons. apply ascending_cons in Hs as [Hy Hs].
  destruct (ord_cmp x y) eqn:E; apply ascending_cons.
  - done.
  - split; [|by apply ascending_cons]. constructor; [done|].
    eapply Forall_impl; [exact Hy|]. intros z. by apply ord_lt_trans.
  - split; [|auto]. apply Forall_forall. intros z Hz.
    apply elem_of_bs_add in Hz as [->|Hz]; [by apply ord_gt_lt|].
    by eapply Forall_forall in Hy.
Qed.

Lemma bs_extend_ascending s l : ascending s -> ascending (bs_extend s l).
Proof.
  unfold bs_extend. revert s. induction l as [|x l IH]; intros s Hs; cbn; [done|].
  by apply IH, bs_add_ascending.
Qed.

Lemma bs_of_list_ascending l : ascending (bs_of_list l).
Proof. apply bs_extend_ascending. constructor. Qed.

Lemma ascending_NoDup s : ascending s -> NoDup s.
Proof.
  induction s as [|x s IH]; intros Hs; [constructor|].
  apply ascending_cons in Hs as [Hx Hs]. constructor; [|auto].
  intros Hin. eapply Forall_forall in Hx; [|exact Hin]. by apply ord_lt_irrefl in Hx.
Qed.

(** An ascending list is determined by its elements. *)
Lemma ascending_ext s t :
  ascending s -> ascending t -> (forall x, x ∈ s <-> x ∈ t) -> s = t.
Proof.
  revert t. induction s as [|x s IH]; intros [|y t] Hs Ht Hst.
  - done.
  - exfalso. specialize (Hst y). set_solver.
  - exfalso. specialize (Hst x). set_solver.
  - apply ascending_cons in Hs as [Hx Hs], Ht as [Hy Ht].
    assert (x = y) as <-.
    { assert (x ∈ y :: t) as Hin by (apply Hst; left).
      assert (y ∈ x :: s) as Hin' by (apply Hst; left).
      apply elem_of_cons in Hin as [?|Hin]; [done|].
      apply elem_of_cons in Hin' as [?|Hin']; [done|].
      eapply Forall_forall in Hx; [|exact Hin']. eapply Forall_forall in Hy; [|exact Hin].
      exfalso. by eapply ord_lt_asym. }
    f_equal. apply IH; [done|done|]. intros z. specialize (Hst z).
    rewrite !elem_of_cons in Hst. split; intros Hz.
    + destruct Hst as [[->|?] _]; [by right| |done].
      eapply Forall_forall in Hx; [|exact Hz]. by apply ord_lt_irrefl in Hx.
    + destruct Hst as [_ [->|?]]; [by right| |done].
      eapply Forall_forall in Hy; [|exact Hz]. by apply ord_lt_irrefl in Hy.
Qed.

Lemma bs_of_list_ext l m : (forall x, x ∈ l <-> x ∈ m) -> bs_of_list l = bs_of_list m.
Proof.
  intros Hlm. apply ascending_ext; try apply bs_of_list_ascending.
  intros x. rewrite !elem_of_bs_of_list. apply Hlm.
Qed.

Lemma bs_insert_fresh x s : ascending s -> ((bs_insert x s).1 = true <-> x ∉ s).
Proof.
  induction s as [|y s IH]; cbn; intros Hs; [set_solver|].
  apply ascending_cons in Hs as [Hy Hs].
  destruct (ord_cmp x y) eqn:E; cbn.
  - apply ord_cmp_eq in E as ->. set_solver.
  - split; [|done]. intros _ Hin. apply elem_of_cons in Hin as [->|Hin].
    + by rewrite ord_cmp_refl in E.
    + eapply Forall_forall in Hy; [|exact Hin]. by eapply ord_lt_asym.
  - destruct (bs_insert x s) as [fresh s'] eqn:Es; cbn in *.
    rewrite elem_of_cons, IH by done. split; [|tauto].
    intros Hn [->|?]; [|tauto]. by rewrite ord_cmp_refl in E.
Qed.
End BTreeSet.

(** ** [BTreeMap] *)

Section BTreeMap.
Context {K V : Type} `{RustOrd K}.

(** [BTreeMap::insert]: the displaced value and the new map. *)
Fixpoint bm_insert (k : K) (v : V) (m : list (K * V)) : option V * list (K * V) :=
  match m with
  | [] => (None, [(k, v)])
  | (k', v') :: rest =>
      match ord_cmp k k' with
      | Lt => (None, (k, v) :: m)
      | Eq => (Some v', (k, v) :: rest)
      | Gt => let '(old, rest') := bm_insert k v rest in (old, (k', v') :: rest')
      end
  end.

Definition bm_put (k : K) (v : V) (m : list (K * V)) : list (K * V) :=
  (bm_insert k v m).2.

Fixpoint bm_get (k : K) (m : list (K * V)) : option V :=
  match m with
  | [] => None
  | (k', v) :: rest => if decide (k = k') then Some v else bm_get k rest
  end.

(** [entry(k).or_insert(v)]. *)
Definition bm_or_insert (k : K) (v : V) (m : list (K * V)) : list (K * V) :=
  match bm_get k m with Some _ => m | None => bm_put k v m end.

(** [entry(k).or_default()] followed by an update of the slot. *)
Definition bm_update (k : K) (dflt : V) (f : V -> V) (m : list (K * V)) : list (K * V) :=
  bm_put k (f (default dflt (bm_get k m))) m.

Definition bm_of_list (l : list (K * V)) : list (K * V) :=
  fold_left (fun m kv => bm_put kv.1 kv.2 m) l [].

Definition bm_keys (m : list (K * V)) : list K := m.*1.
Definition bm_values (m : list (K * V)) : list V := m.*2.

Definition bm_ascending (m : list (K * V)) : Prop := ascending (bm_keys m).

Lemma bm_put_cons k v k1 v1 m :
  bm_put k v ((k1, v1) :: m) =
  match ord_cmp k k1 with
  | Lt => (k, v) :: (k1, v1) :: m
  | Eq => (k, v) :: m
  | Gt => (k1, v1) :: bm_put k v m
  end.
Proof.
  unfold bm_put; cbn. destruct (ord_cmp k k1); [done|done|].
  by destruct (bm_insert k v m).
Qed.

Lemma bm_get_put k k' v m :
  bm_get k' (bm_put k v m) = if decide (k' = k) then Some v else bm_get k' m.
Proof.
  induction m as [|[k1 v1] m IH]; [done|].
  rewrite bm_put_cons. destruct (ord_cmp k k1) eqn:E; cbn.
  - apply ord_cmp_eq in E as ->. by repeat case_decide.
  - done.
  - rewrite IH. repeat case_decide; try done. subst.
    by rewrite ord_cmp_refl in E.
Qed.

Lemma bm_keys_put k v m x : x ∈ bm_keys (bm_put k v m) <-> x = k \/ x ∈ bm_keys m.
Proof.
  unfold bm_keys. induction m as [|[k1 v1] m IH]; [cbn; set_solver|].
  rewrite bm_put_cons. destruct (ord_cmp k k1) eqn:E; cbn.
  - apply ord_cmp_eq in E as ->. set_solver.
  - set_solver.
  - rewrite !elem_of_cons, IH. tauto.
Qed.

Lemma bm_put_ascending k v m : bm_ascending m -> bm_ascending (bm_put k v m).
Proof.
  unfold bm_ascending. induction m as [|[k1 v1] m IH]; intros Hs.
  - cbn. repeat constructor.
  - pose proof Hs as Hs0. cbn in Hs. apply ascending_cons in Hs as [H1 Hs].
    rewrite bm_put_cons. destruct (ord_cmp k k1) eqn:E.
    + apply ord_cmp_eq in E as ->. by apply ascending_cons.
    + apply ascending_cons. split; [|done]. constructor; [done|].
      eapply Forall_impl; [exact H1|]. intros z. by apply ord_lt_trans.
    + apply ascending_cons. split; [|auto]. apply Forall_forall. intros z Hz.
      apply bm_keys_put in Hz as [->|Hz]; [by apply ord_gt_lt|].
      by eapply Forall_forall in H1.
Qed.

Lemma bm_insert_old k v m : bm_ascending m -> (bm_insert k v m).1 = bm_get k m.
Proof.
  unfold bm_ascending. induction m as [|[k1 v1] m IH]; cbn; intros Hs; [done|].
  apply ascending_cons in Hs as [H1 Hs].
  destruct (ord_cmp k k1) eqn:E; cbn.
  - apply ord_cmp_eq in E as ->. by rewrite decide_True.
  - rewrite decide_False by (intros ->; by rewrite ord_cmp_refl in E).
    destruct (bm_get k m) eqn:Eg; [|done]. exfalso.
    assert (k ∈ bm_keys m) as Hin.
    { clear -Eg. induction m as [|[k2 v2] m IH]; cbn in *; [done|].
      case_decide; [subst; left|right; auto]. }
    eapply Forall_forall in H1; [|exact Hin]. by eapply ord_lt_asym.
  - destruct (bm_insert k v m) as [old m'] eqn:Em; cbn in *.
    rewrite decide_False by (intros ->; by rewrite ord_cmp_refl in E). by rewrite IH.
Qed.

Lemma bm_get_keys k m : is_Some (bm_get k m) <-> k ∈ bm_keys m.
Proof.
  induction m as [|[k1 v1] m IH]; cbn; [split; [intros [? [=]]|set_solver]|].
  case_decide; subst.
  - split; [left|by eauto].
  - rewrite IH. set_solver.
Qed.

Lemma bm_get_elem k v m : bm_get k m = Some v -> (k, v) ∈ m.
Proof.
  induction m as [|[k1 v1] m IH]; cbn; [done|].
  case_decide; [intros [= ->]; subst; left|right; auto].
Qed.

Lemma bm_elem_get k v m : bm_ascending m -> (k, v) ∈ m -> bm_get k m = Some v.
Proof.
  unfold bm_ascending. induction m as [|[k1 v1] m IH]; cbn; intros Hs Hin; [set_solver|].
  apply ascending_cons in Hs as [H1 Hs].
  apply elem_of_cons in Hin as [[= -> ->]|Hin]; [by rewrite decide_True|].
  rewrite decide_False; [auto|]. intros ->.
  assert (k1 ∈ bm_keys m) as Hk by (apply list_elem_of_fmap; by exists (k1, v)).
  eapply Forall_forall in H1; [|exact Hk]. by apply ord_lt_irrefl in H1.
Qed.

Lemma bm_of_list_ascending (l : list (K * V)) : bm_ascending (bm_of_list l).
Proof.
  unfold bm_of_list. assert (bm_ascending (@nil (K * V))) as Ha by constructor.
  revert Ha. generalize (@nil (K * V)). induction l as [|x l IH]; intros m Ha; cbn; [done|].
  by apply IH, bm_put_ascending.
Qed.
End BTreeMap.

Lemma bm_insert_put {K V} `{RustOrd K} (k : K) (v : V) m : (bm_insert k v m).2 = bm_put k v m.
Proof. done. Qed.

Lemma bm_keys_NoDup {K V} `{RustOrd K} (m : list (K * V)) : bm_ascending m -> NoDup (bm_keys m).
Proof. apply ascending_NoDup. Qed.

(** Collecting rows under a key keeps the last row of each key. *)
Lemma bm_get_of_rows {K A} `{RustOrd K} (key : A -> K) (l : list A) k
  `{forall x, Decision (key x = k)} :
  bm_get k (bm_of_list (map (fun x => (key x, x)) l)) = last (filter (fun x => key x = k) l).
Proof.
  unfold bm_of_list. induction l as [|x l IH] using rev_ind; [done|].
  rewrite map_app, fold_left_app. cbn. rewrite bm_get_put, filter_app, IH, filter_cons, filter_nil.
  repeat case_decide; try congruence; [by rewrite last_snoc|by rewrite app_nil_r].
Qed.

Lemma last_filter_elem {A} (P : A -> Prop) `{forall x, Decision (P x)} (l : list A) x :
  last (filter P l) = Some x -> x ∈ l /\ P x.
Proof.
  intros Hl. apply last_Some in Hl as [k Hk].
  assert (x ∈ filter P l) as Hx by (rewrite Hk; apply elem_of_app; right; left).
  apply list_elem_of_filter in Hx. tauto.
Qed.

Lemma last_filter_some {A} (P : A -> Prop) `{forall x, Decision (P x)} (l : list A) :
  is_Some (last (filter P l)) <-> exists x, x ∈ l /\ P x.
Proof.
  split; [intros [x ?%last_filter_elem]; eauto|]. intros (x & Hx & HP).
  apply last_is_Some. intros Hn. assert (x ∈ filter P l) as Hin by (by apply list_elem_of_filter).
  rewrite Hn in Hin. by apply elem_of_nil in Hin.
Qed.

(** Rows with distinct keys: the last one of a key is the only one. *)
Lemma last_filter_unique {A K} (key : A -> K) `{EqDecision K} (l : list A) x :
  (forall y, y ∈ l -> key y = key x -> y = x) -> x ∈ l ->
  last (filter (fun y => key y = key x) l) = Some x.
Proof.
  intros Hu Hx. destruct (last _) as [y|] eqn:Hl.
  - apply last_filter_elem in Hl as [Hy Hk]. f_equal. by apply Hu.
  - apply last_None in Hl. assert (x ∈ filter (fun y => key y = key x) l) as Hin
      by (by apply list_elem_of_filter). rewrite Hl in Hin. by apply elem_of_nil in Hin.
Qed.

Lemma bm_of_list_snoc {K V} `{RustOrd K} (l : list (K * V)) kv :
  bm_of_list (l ++ [kv]) = bm_put kv.1 kv.2 (bm_of_list l).
Proof. unfold bm_of_list. by rewrite fold_left_app. Qed.

Lemma bm_get_of_list {K V} `{RustOrd K} (l : list (K * V)) k `{forall x : K * V, Decision (x.1 = k)} :
  bm_get k (bm_of_list l) = snd <$> last (filter (fun kv => kv.1 = k) l).
Proof.
  induction l as [|[k' v] l IH] using rev_ind; [done|].
  rewrite bm_of_list_snoc, bm_get_put, filter_app, IH, filter_cons, filter_nil. cbn.
  repeat case_decide; try congruence; [by rewrite last_snoc|by rewrite app_nil_r].
Qed.

Lemma bm_get_unique {K V} `{RustOrd K} (l : list (K * V)) k v :
  NoDup l.*1 -> bm_get k (bm_of_list l) = Some v <-> (k, v) ∈ l.
Proof.
  intros Hnd. rewrite (bm_get_of_list l k). split.
  - intros ([k' v'] & [Hin ?]%last_filter_elem & ->)%fmap_Some. cbn in *. by subst.
  - intros Hin. destruct (last _) as [[k' v']|] eqn:Hl.
    + apply last_filter_elem in Hl as [Hin' Hk]. cbn in Hk. subst k'. cbn. f_equal.
      by injection (NoDup_map_unique fst l _ _ Hnd Hin' Hin eq_refl).
    + destruct (proj2 (last_filter_some (fun kv => kv.1 = k) l)) as [? Hs]; [by exists (k, v)|].
      by rewrite Hl in Hs.
Qed.

Lemma bs_insert_cases {A} `{RustOrd A} (x : A) s fresh s' :
  ascending s -> bs_insert x s = (fresh, s') -> s' = bs_add x s /\ (fresh = true <-> x ∉ s).
Proof.
  intros Ha Hi. pose proof (bs_insert_fresh x s Ha) as Hf. unfold bs_add. rewrite Hi in *. done.
Qed.

Lemma bs_of_list_perm {A} `{RustOrd A} (l : list A) : NoDup l -> bs_of_list l ≡ₚ l.
Proof.
  intros Hn. apply NoDup_Permutation; [apply ascending_NoDup, bs_of_list_ascending|done|].
  intros x. apply elem_of_bs_of_list.
Qed.

Lemma bs_of_ascending {A} `{RustOrd A} (l : list A) : ascending l -> bs_of_list l = l.
Proof.
  intros Ha. apply ascending_ext; [apply bs_of_list_ascending|done|]. intros x. apply elem_of_bs_of_list.
Qed.

#[export] Hint Resolve bs_add_ascending bs_extend_ascending bs_of_list_ascending
  bm_put_ascending : btree.

(** The keys of a map are a set. *)
Lemma bm_keys_bs_add {K V} `{RustOrd K, EqDecision K} (k : K) (v : V) m :
  bm_keys (bm_put k v m) = bs_add k (bm_keys m).
Proof.
  unfold bm_keys. induction m as [|[k1 v1] m IH]; [done|]. rewrite bm_put_cons. cbn [fmap list_fmap fst].
  rewrite bs_add_cons. destruct (ord_cmp k k1) eqn:E; cbn; [by apply ord_cmp_eq in E as ->|done|]. f_equal. exact IH.
Qed.

Lemma bm_mem_keys {K V} `{RustOrd K, EqDecision K} (k : K) (m : list (K * V)) :
  bool_decide (is_Some (bm_get k m)) = bs_mem k (bm_keys m).
Proof. unfold bs_mem. apply bool_decide_ext. apply bm_get_keys. Qed.

(** Maps with the same entries are equal. *)
Lemma bm_ext {K V} `{RustOrd K} (m n : list (K * V)) :
  bm_ascending m -> bm_ascending n -> (forall k, bm_get k m = bm_get k n) -> m = n.
Proof.
  intros Hm Hn Hg.
  assert (Hkeys : bm_keys m = bm_keys n).
  { apply ascending_ext; [done..|]. intros k. rewrite <- !bm_get_keys. by rewrite Hg. }
  assert (Hall : forall kv, kv ∈ m <-> kv ∈ n).
  { intros [k v]. split; intros Hin.
    - apply bm_get_elem. rewrite <- Hg. by apply bm_elem_get.
    - apply bm_get_elem. rewrite Hg. by apply bm_elem_get. }
  clear Hg. revert n Hn Hkeys Hall. unfold bm_ascending, bm_keys in *.
  induction m as [|[k v] m IH]; intros [|[k' v'] n] Hn Hkeys Hall; try done.
  cbn in *. injection Hkeys as <- Hkeys. apply ascending_cons in Hm as [Hmk Hm], Hn as [Hnk Hn].
  assert (Hfresh : forall w, (k, w) ∉ m /\ (k, w) ∉ n).
  { intros w. rewrite Forall_forall in Hmk, Hnk. split; intros Hin%(list_elem_of_fmap_2 fst).
    - apply (ord_lt_irrefl k), Hmk, Hin.
    - apply (ord_lt_irrefl k), Hnk, Hin. }
  assert (v = v') as <-.
  { assert ((k, v) ∈ (k, v') :: n) as [[= ->]|Hin]%elem_of_cons by (apply Hall; left); [done|].
    by destruct (Hfresh v). }
  f_equal. apply IH; [done..|]. intros [j w]. specialize (Hall (j, w)). rewrite !elem_of_cons in Hall.
  destruct (Hfresh w). split; intros Hin; destruct Hall as [Hl Hr].
  - destruct (Hl (or_intror Hin)) as [[= -> ->]|]; [set_solver|done].
  - destruct (Hr (or_intror Hin)) as [[= -> ->]|]; [set_solver|done].
Qed.
