(* ===== verification/Worklist.v ===== *)
(** A worklist that drains a queue of keys into a set of reached nodes.

    The emitter and the probe close sets of functions, record types and modules
    this way: pop a key, resolve it to a node, skip the node if it was reached
    before, otherwise expand it and queue what it refers to.  Resolving and
    expanding can fail, and the whole loop then does.  [drain_with] is the loop
    with fuel, for any order of the worklist; [drain] is the queue and
    [drain_stack] the stack; [enough] is a bound on the iterations they make. *)

From S2P Require Export BTree.

Lemma filter_ext_elem {A} (P Q : A -> Prop) `{forall x, Decision (P x)} `{forall x, Decision (Q x)} (l : list A) :
  (forall x, x ∈ l -> P x <-> Q x) -> filter P l = filter Q l.
Proof.
  induction l as [|x l IH]; intros Hpq; [done|]. rewrite !filter_cons, IH by set_solver.
  destruct (Hpq x) as [H1 H2]; [by left|]. repeat case_decide; tauto.
Qed.

Section Worklist.
Context {E K A : Type} `{EqDecision A} `{RustOrd A}.
Context (join : list K -> list K -> list K)
  (Hjoin : forall rest next k, k ∈ join rest next <-> k ∈ rest \/ k ∈ next)
  (Hjoin_length : forall rest next, length (join rest next) <= length rest + length next).
Context (resolve : K -> Outcome E A) (expand : A -> Outcome E (list K)).

(** [join rest next] is the worklist after queueing [next] behind or before
    [rest]. *)
Fixpoint drain_with (fuel : nat) (pending : list K) (reached : list A) : Outcome E (list A) :=
  match fuel with
  | O => Panic "out of fuel"
  | S fuel =>
      match pending with
      | [] => Ok reached
      | key :: rest =>
          node ← resolve key;
          if bs_mem node reached then drain_with fuel rest reached
          else
            next ← expand node;
            drain_with fuel (join rest next) (bs_add node reached)
      end
  end.

(** How many keys a node queues. *)
Definition fan_out (node : A) : nat :=
  match expand node with Ok next => length next | _ => 0 end.

(** One iteration per queued key, plus the last one. *)
Definition enough (universe : list A) (pending : list K) : nat :=
  S (length pending + sum_list_with fan_out universe).

(** ** What is reachable *)

Definition refers (n m : A) : Prop :=
  exists next k, expand n = Ok next /\ k ∈ next /\ resolve k = Ok m.
Definition reachable (roots : list K) (n : A) : Prop :=
  exists k m, k ∈ roots /\ resolve k = Ok m /\ rtc refers m n.

(** The loop invariant: reached nodes are reachable, and what they refer to is
    reached or queued. *)
Record Draining (roots pending : list K) (reached : list A) : Prop := {
  dr_sound : forall n, n ∈ reached -> reachable roots n;
  dr_pending : forall k n, k ∈ pending -> resolve k = Ok n -> reachable roots n;
  dr_roots : forall k, k ∈ roots -> k ∈ pending \/ exists n, resolve k = Ok n /\ n ∈ reached;
  dr_closed : forall n, n ∈ reached -> exists next, expand n = Ok next /\
    forall k, k ∈ next -> k ∈ pending \/ exists m, resolve k = Ok m /\ m ∈ reached
}.

Lemma reachable_step roots n m : reachable roots n -> refers n m -> reachable roots m.
Proof. intros (k & r & ? & ? & ?) ?. exists k, r. repeat split; try done. by eapply rtc_r. Qed.

Lemma Draining_start roots : Draining roots roots [].
Proof.
  split; try (by intros ? ?%elem_of_nil).
  - intros k n Hk Hr. exists k, n. repeat split; [done..|constructor].
  - by left.
Qed.

Lemma Draining_skip roots k rest n reached :
  Draining roots (k :: rest) reached -> resolve k = Ok n -> n ∈ reached ->
  Draining roots rest reached.
Proof.
  intros [Hs Hp Hr Hc] Hk Hn. split; [done| | |].
  - intros k' m Hk'. apply Hp. by right.
  - intros k' Hk'. destruct (Hr _ Hk') as [[->|?]%elem_of_cons|?]; [right; by exists n|by left|by right].
  - intros m Hm. destruct (Hc _ Hm) as (next & He & Hnext). exists next. split; [done|].
    intros k' Hk'. destruct (Hnext _ Hk') as [[->|?]%elem_of_cons|?];
      [right; by exists n|by left|by right].
Qed.

Lemma Draining_expand roots k rest n next reached :
  Draining roots (k :: rest) reached -> resolve k = Ok n -> expand n = Ok next ->
  Draining roots (join rest next) (bs_add n reached).
Proof.
  intros [Hs Hp Hr Hc] Hk He.
  assert (reachable roots n) as Hn by (eapply Hp; [by left|done]). split.
  - intros m [->|?]%elem_of_bs_add; [done|auto].
  - intros k' m [Hk'|Hk']%Hjoin Hm; [eapply Hp; [by right|done]|].
    eapply reachable_step; [exact Hn|]. by exists next, k'.
  - intros k' Hk'. setoid_rewrite Hjoin. setoid_rewrite elem_of_bs_add.
    destruct (Hr _ Hk') as [[->|?]%elem_of_cons|(m & ? & ?)]; [right; exists n; auto|auto|].
    right. exists m. auto.
  - intros m Hm. setoid_rewrite Hjoin. setoid_rewrite elem_of_bs_add.
    apply elem_of_bs_add in Hm as [->|Hm]; [exists next; auto|].
    destruct (Hc _ Hm) as (nx & Hx & Hnext). exists nx. split; [done|]. intros k' Hk'.
    destruct (Hnext _ Hk') as [[->|?]%elem_of_cons|(m' & ? & ?)]; [right; exists n; auto|auto|].
    right. exists m'. auto.
Qed.

Lemma drain_with_inv fuel roots pending reached R :
  Draining roots pending reached -> drain_with fuel pending reached = Ok R -> Draining roots [] R.
Proof.
  revert pending reached. induction fuel as [|fuel IH]; intros pending reached HI Hd; [done|].
  cbn in Hd. destruct pending as [|k rest]; [by injection Hd as <-|].
  apply outcome_bind_ok in Hd as (n & Hk & Hd). destruct (bs_mem n reached) eqn:Hm.
  - eapply IH; [|exact Hd]. eapply Draining_skip; [done..|]. by apply bs_mem_spec.
  - apply outcome_bind_ok in Hd as (next & He & Hd). eapply IH; [|exact Hd]. by eapply Draining_expand.
Qed.

(** The result is exactly the reachable set, and every node in it expanded. *)
Lemma drain_with_exact fuel roots R :
  drain_with fuel roots [] = Ok R ->
  (forall n, n ∈ R <-> reachable roots n) /\
  (forall k, k ∈ roots -> exists n, resolve k = Ok n) /\
  (forall n, reachable roots n -> exists next, expand n = Ok next /\
     forall k, k ∈ next -> exists m, resolve k = Ok m).
Proof.
  intros Hd. pose proof (drain_with_inv _ _ _ _ _ (Draining_start roots) Hd) as [Hs _ Hr Hc].
  assert (Hroots : forall k, k ∈ roots -> exists n, resolve k = Ok n /\ n ∈ R).
  { intros k Hk. destruct (Hr k Hk) as [?%elem_of_nil|?]; done. }
  assert (Hnext : forall n, n ∈ R -> exists next, expand n = Ok next /\
    forall k, k ∈ next -> exists m, resolve k = Ok m /\ m ∈ R).
  { intros n Hn. destruct (Hc n Hn) as (next & He & Hx). exists next. split; [done|].
    intros k Hk. destruct (Hx k Hk) as [?%elem_of_nil|?]; done. }
  assert (Hex : forall n, n ∈ R <-> reachable roots n).
  { split; [by apply Hs|]. intros (k & r & Hk & Hkr & Hrn).
    destruct (Hroots k Hk) as (r' & Hr' & Hin). rewrite Hkr in Hr'. injection Hr' as <-.
    clear Hk Hkr. induction Hrn as [|x y z (next & k' & He & Hk' & Hy) _ IH]; [done|].
    destruct (Hnext x Hin) as (next' & He' & Hx). rewrite He in He'. injection He' as <-.
    destruct (Hx k' Hk') as (m & Hm & Hmin). rewrite Hy in Hm. injection Hm as <-. eauto. }
  split; [done|]. split; [intros k Hk; destruct (Hroots k Hk) as (n & ? & _); eauto|].
  intros n Hn%Hex. destruct (Hnext n Hn) as (next & He & Hx). exists next. split; [done|].
  intros k Hk. destruct (Hx k Hk) as (m & ? & _). eauto.
Qed.

Lemma drain_with_ascending fuel pending reached R :
  ascending reached -> drain_with fuel pending reached = Ok R -> ascending R.
Proof.
  revert pending reached. induction fuel as [|fuel IH]; intros pending reached Ha Hd; [done|].
  cbn in Hd. destruct pending as [|k rest]; [by injection Hd as <-|].
  apply outcome_bind_ok in Hd as (n & Hk & Hd). destruct (bs_mem n reached); [by eapply IH|].
  apply outcome_bind_ok in Hd as (next & He & Hd). eapply IH; [|exact Hd]. by apply bs_add_ascending.
Qed.

(** ** Failure *)

(** The keys the loop ever queues. *)
Definition queued (roots : list K) (k : K) : Prop :=
  k ∈ roots \/ exists n next, reachable roots n /\ expand n = Ok next /\ k ∈ next.

Lemma queued_reachable roots k n : queued roots k -> resolve k = Ok n -> reachable roots n.
Proof.
  intros [Hk|(m & next & Hm & He & Hk)] Hr; [exists k, n; repeat split; [done..|constructor]|].
  eapply reachable_step; [exact Hm|]. by exists next, k.
Qed.

(** The loop fails only where a queued key or a reachable node does. *)
Lemma drain_with_err fuel roots pending reached e :
  (forall k, k ∈ pending -> queued roots k) -> drain_with fuel pending reached = Err e ->
  (exists k, queued roots k /\ resolve k = Err e) \/
  (exists n, reachable roots n /\ expand n = Err e).
Proof.
  revert pending reached. induction fuel as [|fuel IH]; intros pending reached Hq Hd; [done|].
  cbn in Hd. destruct pending as [|k rest]; [done|].
  destruct (resolve k) as [n|e'|m] eqn:Hk; cbn in Hd; [|injection Hd as <-|done].
  2: { left. exists k. split; [apply Hq; by left|done]. }
  assert (reachable roots n) as Hn by (eapply queued_reachable; [apply Hq; by left|done]).
  destruct (bs_mem n reached).
  { eapply IH; [|exact Hd]. intros k' Hk'. apply Hq. by right. }
  destruct (expand n) as [next|e'|m] eqn:He; cbn in Hd; [|injection Hd as <-|done].
  - eapply IH; [|exact Hd]. intros k' [Hk'|Hk']%Hjoin; [apply Hq; by right|].
    right. by exists n, next.
  - right. by exists n.
Qed.

(** ** Termination *)

(** Nodes that expand come from a finite universe, and neither step panics. *)
Context (universe : list A) (Hnd : NoDup universe)
  (Huniverse : forall n next, expand n = Ok next -> n ∈ universe)
  (Hresolve : forall k m, resolve k <> Panic m) (Hexpand : forall n m, expand n <> Panic m).

Definition unreached (reached : list A) : list A := filter (fun n => n ∉ reached) universe.

Lemma unreached_add n reached next :
  n ∉ reached -> expand n = Ok next ->
  sum_list_with fan_out (unreached reached) =
    length next + sum_list_with fan_out (unreached (bs_add n reached)).
Proof.
  intros Hn He. pose proof (Huniverse _ _ He) as Hu. unfold unreached.
  assert (Hfan : fan_out n = length next) by (unfold fan_out; by rewrite He).
  clear Huniverse. induction universe as [|x u IH]; [by apply elem_of_nil in Hu|].
  apply NoDup_cons in Hnd as [Hxu Hndu]. rewrite !filter_cons.
  destruct (decide (x = n)) as [->|Hxn].
  - rewrite decide_True by done. rewrite decide_False by (rewrite elem_of_bs_add; tauto).
    cbn. rewrite Hfan. f_equal. f_equal.
    apply filter_ext_elem. intros y Hy. rewrite elem_of_bs_add.
    assert (y <> n) by (by intros ->). tauto.
  - apply elem_of_cons in Hu as [->|Hu]; [done|]. specialize (IH Hndu Hu).
    assert ((x ∉ reached) <-> (x ∉ bs_add n reached)) as Hiff by (rewrite elem_of_bs_add; tauto).
    destruct (decide (x ∉ reached)) as [Hx|Hx].
    + rewrite decide_True by (by apply Hiff). cbn. lia.
    + rewrite decide_False by (by rewrite <- Hiff). done.
Qed.

Lemma drain_with_total fuel pending reached :
  S (length pending + sum_list_with fan_out (unreached reached)) <= fuel ->
  (exists R, drain_with fuel pending reached = Ok R) \/ (exists e, drain_with fuel pending reached = Err e).
Proof.
  revert pending reached. induction fuel as [|fuel IH]; intros pending reached Hf; [lia|].
  cbn. destruct pending as [|k rest]; [by left; eexists|]. cbn in Hf.
  destruct (resolve k) as [n|e|m] eqn:Hk; cbn; [|by right; eexists|by destruct (Hresolve _ _ Hk)].
  destruct (bs_mem n reached) eqn:Hm; [apply IH; lia|].
  destruct (expand n) as [next|e|m] eqn:He; cbn; [|by right; eexists|by destruct (Hexpand _ _ He)].
  apply IH. pose proof (Hjoin_length rest next). rewrite (unreached_add n reached next) in Hf; [lia| |done].
  intros Hin%bs_mem_spec. congruence.
Qed.

Lemma drain_with_enough roots :
  (exists R, drain_with (enough universe roots) roots [] = Ok R) \/
  (exists e, drain_with (enough universe roots) roots [] = Err e).
Proof.
  apply drain_with_total. unfold enough. apply le_n_S, Nat.add_le_mono_l.
  unfold unreached. clear. induction universe as [|x u IH]; [done|]. rewrite filter_cons.
  case_decide; cbn; lia.
Qed.
End Worklist.

(** ** A queue and a stack *)

Lemma queue_join {K} (rest next : list K) k : k ∈ rest ++ next <-> k ∈ rest \/ k ∈ next.
Proof. apply elem_of_app. Qed.
Lemma queue_length {K} (rest next : list K) : length (rest ++ next) <= length rest + length next.
Proof. by rewrite length_app. Qed.
Lemma stack_join {K} (rest next : list K) k : k ∈ rev next ++ rest <-> k ∈ rest \/ k ∈ next.
Proof. rewrite elem_of_app, <- Permutation_rev. tauto. Qed.
Lemma stack_length {K} (rest next : list K) : length (rev next ++ rest) <= length rest + length next.
Proof. rewrite length_app, length_rev. lia. Qed.

(** A [BTreeSet]: [pop_first] and [insert]. *)
Lemma set_join {K} `{EqDecision K, RustOrd K} (rest next : list K) k :
  k ∈ bs_extend rest next <-> k ∈ rest \/ k ∈ next.
Proof. rewrite elem_of_bs_extend. tauto. Qed.
Lemma set_length {K} `{EqDecision K, RustOrd K} (rest next : list K) :
  length (bs_extend rest next) <= length rest + length next.
Proof.
  unfold bs_extend. revert rest. induction next as [|x next IH]; intros rest; cbn [fold_left length]; [lia|].
  specialize (IH (bs_add x rest)). pose proof (length_bs_add x rest). lia.
Qed.

Section Orders.
Context {E K A : Type} `{EqDecision A} `{RustOrd A}.
Context (resolve : K -> Outcome E A) (expand : A -> Outcome E (list K)).

(** [VecDeque]: [pop_front] and [push_back]. *)
Definition drain : nat -> list K -> list A -> Outcome E (list A) :=
  drain_with (fun rest next => rest ++ next) resolve expand.
(** [Vec]: [pop] and [push]; the top of the stack is the head of the list. *)
Definition drain_stack : nat -> list K -> list A -> Outcome E (list A) :=
  drain_with (fun rest next => rev next ++ rest) resolve expand.

Lemma drain_exact fuel roots R :
  drain fuel roots [] = Ok R ->
  (forall n, n ∈ R <-> reachable resolve expand roots n) /\
  (forall k, k ∈ roots -> exists n, resolve k = Ok n) /\
  (forall n, reachable resolve expand roots n -> exists next, expand n = Ok next /\
     forall k, k ∈ next -> exists m, resolve k = Ok m).
Proof. exact (drain_with_exact _ queue_join resolve expand fuel roots R). Qed.

Lemma drain_ascending fuel pending reached R :
  ascending reached -> drain fuel pending reached = Ok R -> ascending R.
Proof. exact (drain_with_ascending _ resolve expand fuel pending reached R). Qed.

Lemma drain_err fuel roots pending reached e :
  (forall k, k ∈ pending -> queued resolve expand roots k) -> drain fuel pending reached = Err e ->
  (exists k, queued resolve expand roots k /\ resolve k = Err e) \/
  (exists n, reachable resolve expand roots n /\ expand n = Err e).
Proof. exact (drain_with_err _ queue_join resolve expand fuel roots pending reached e). Qed.

Lemma drain_enough universe : NoDup universe ->
  (forall n next, expand n = Ok next -> n ∈ universe) ->
  (forall k m, resolve k <> Panic m) -> (forall n m, expand n <> Panic m) -> forall roots,
  (exists R, drain (enough expand universe roots) roots [] = Ok R) \/
  (exists e, drain (enough expand universe roots) roots [] = Err e).
Proof. exact (drain_with_enough _ queue_length resolve expand universe). Qed.
End Orders.

(** ** Keys that are their own nodes

    [edge] is what an expansion stands for: where a key expands, it queues its
    successors. *)
Section Keys.
Context {E K : Type} `{EqDecision K, RustOrd K} (join : list K -> list K -> list K)
  (Hjoin : forall rest next k, k ∈ join rest next <-> k ∈ rest \/ k ∈ next)
  (Hjoin_length : forall rest next, length (join rest next) <= length rest + length next).
Context (expand : K -> Outcome E (list K)) (edge : K -> K -> Prop)
  (Hedge : forall n next m, expand n = Ok next -> edge n m <-> m ∈ next).

Definition live (roots : list K) (n : K) : Prop := exists root, root ∈ roots /\ rtc edge root n.

Lemma start_live roots n : n ∈ roots -> live roots n.
Proof. intros. exists n. split; [done|constructor]. Qed.
Lemma edge_live roots n m : live roots n -> edge n m -> live roots m.
Proof. intros (root & ? & ?) ?. exists root. split; [done|]. by eapply rtc_r. Qed.

Lemma reachable_live_keys roots n : reachable Ok expand roots n -> live roots n.
Proof.
  intros (k & r & Hk & [= <-] & Hr). exists k. split; [done|]. clear Hk.
  induction Hr as [|a b c (next & k' & He & Hk & [= <-]) _ IH]; [constructor|].
  eapply rtc_l; [|done]. by eapply Hedge.
Qed.

Lemma drained_live_keys fuel roots R :
  drain_with join Ok expand fuel roots [] = Ok R ->
  (forall n, n ∈ R <-> live roots n) /\ (forall n, n ∈ R -> exists next, expand n = Ok next).
Proof.
  intros Hd. apply drain_with_exact in Hd as (Hex & _ & Hnext); [|done].
  assert (Hall : forall n, n ∈ R -> exists next, expand n = Ok next).
  { intros n Hn%Hex. destruct (Hnext n Hn) as (next & ? & _). eauto. }
  split; [|done]. intros n. split; [intros Hn%Hex; by apply reachable_live_keys|].
  intros (root & Hroot & Hr).
  assert (root ∈ R) as Hin by (apply Hex; exists root, root; repeat split; [done|constructor]). clear Hroot.
  induction Hr as [|a b c Hab _ IH]; [done|]. apply IH, Hex. destruct (Hall _ Hin) as (next & He).
  eapply reachable_step; [by apply Hex|]. exists next, b. split; [done|]. split; [by eapply Hedge|done].
Qed.

(** The loop succeeds when whatever is live expands, and ends in any case. *)
Context (universe : list K) (Hnd : NoDup universe)
  (Huniverse : forall n next, expand n = Ok next -> n ∈ universe) (Hexpand : forall n m, expand n <> Panic m).

Lemma drain_keys_total roots :
  (exists R, drain_with join Ok expand (enough expand universe roots) roots [] = Ok R) \/
  (exists e, drain_with join Ok expand (enough expand universe roots) roots [] = Err e).
Proof. apply drain_with_enough; done. Qed.

Lemma drain_keys_defined roots :
  (forall n, live roots n -> exists next, expand n = Ok next) ->
  exists R, drain_with join Ok expand (enough expand universe roots) roots [] = Ok R.
Proof.
  intros Hall. destruct (drain_keys_total roots) as [|[e He]]; [done|].
  apply (drain_with_err _ Hjoin _ _ _ roots) in He as [(k & _ & [=])|(n & Hn & He)]; [|intros; by left].
  apply reachable_live_keys in Hn. destruct (Hall n Hn). congruence.
Qed.
End Keys.
