(* ===== verification/Text.v ===== *)
(** [str] methods of Rust's standard library on UTF-8 byte strings. *)

From stdpp Require Export pretty.
From S2P Require Export BTree.
From Stdlib Require Import Ascii String.

Section Text.
Local Open Scope string_scope.
Local Open Scope list_scope.

(** [str::strip_suffix] and [str::strip_prefix]. *)
Fixpoint strip_prefix (prefix s : string) : option string :=
  match prefix, s with
  | EmptyString, _ => Some s
  | String a prefix, String b s => if Ascii.eqb a b then strip_prefix prefix s else None
  | String _ _, EmptyString => None
  end.
Fixpoint strip_suffix (suffix s : string) : option string :=
  if String.eqb s suffix then Some ""
  else match s with
       | EmptyString => None
       | String a rest => String a <$> strip_suffix suffix rest
       end.

(** [str::split] on one ASCII character: the pieces, never empty as a list. *)
Fixpoint split_on (c : ascii) (s : string) : list string :=
  match s with
  | EmptyString => [""]
  | String a rest =>
      match split_on c rest with
      | piece :: pieces => if Ascii.eqb a c then "" :: piece :: pieces else String a piece :: pieces
      | [] => [""]
      end
  end.

(** [str::rsplit_once]: around the last occurrence of [sep]. *)
Fixpoint rsplit_once (sep s : string) : option (string * string) :=
  match s with
  | EmptyString => match strip_prefix sep s with Some after => Some ("", after) | None => None end
  | String a rest =>
      match rsplit_once sep rest with
      | Some (before, after) => Some (String a before, after)
      | None => match strip_prefix sep s with Some after => Some ("", after) | None => None end
      end
  end.

(** The UTF-8 encodings of the characters with the Unicode property
    [White_Space], which [str::trim] removes from both ends. *)
Definition bytes (codes : list nat) : string := string_of_list_ascii (map ascii_of_nat codes).
(** [\n]. *)
Definition newline : string := bytes [10].
Definition white_space : list string :=
  map (fun b => bytes [b]) [9; 10; 11; 12; 13; 32]
  ++ map (fun b => bytes [194; b]) [133; 160]
  ++ [bytes [225; 154; 128]]
  ++ map (fun b => bytes [226; 128; b]) [128; 129; 130; 131; 132; 133; 134; 135; 136; 137; 138; 168; 169; 175]
  ++ [bytes [226; 129; 159]; bytes [227; 128; 128]].

(** The first result of [f] on the list. *)
Fixpoint find_map {A B} (f : A -> option B) (l : list A) : option B :=
  match l with [] => None | x :: rest => match f x with Some y => Some y | None => find_map f rest end end.

Fixpoint trim_with (strip : string -> string -> option string) (fuel : nat) (s : string) : string :=
  match fuel with
  | O => s
  | S fuel => match find_map (fun w => strip w s) white_space with Some s => trim_with strip fuel s | None => s end
  end.
Definition trim_start (s : string) : string := trim_with strip_prefix (String.length s) s.
Definition trim_end (s : string) : string := trim_with strip_suffix (String.length s) s.
Definition trim (s : string) : string := trim_end (trim_start s).

(** [str::parse] of an unsigned integer: an optional [+], then digits, in range. *)
Definition digit_value (a : ascii) : option Z :=
  let n := Z.of_nat (nat_of_ascii a) in
  if (48 <=? n)%Z && (n <=? 57)%Z then Some (n - 48)%Z else None.
Fixpoint parse_digits (max acc : Z) (s : string) : option Z :=
  match s with
  | EmptyString => Some acc
  | String a rest =>
      match digit_value a with
      | Some d => if (acc * 10 + d <=? max)%Z then parse_digits max (acc * 10 + d)%Z rest else None
      | None => None
      end
  end.
Definition parse_unsigned (max : Z) (s : string) : option Z :=
  match default s (strip_prefix "+" s) with
  | EmptyString => None
  | digits => parse_digits max 0 digits
  end.

(** [is_ascii_digit() || (b'a'..=b'f').contains(byte)]. *)
Definition is_lower_hex (a : ascii) : bool :=
  let n := nat_of_ascii a in
  (Nat.leb 48 n && Nat.leb n 57) || (Nat.leb 97 n && Nat.leb n 102).

Fixpoint string_take (n : nat) (s : string) : string :=
  match n, s with S n, String a rest => String a (string_take n rest) | _, _ => "" end.
Fixpoint string_drop (n : nat) (s : string) : string :=
  match n, s with S n, String _ rest => string_drop n rest | _, _ => s end.
Definition string_forallb (p : ascii -> bool) (s : string) : bool := forallb p (list_ascii_of_string s).
(** [Vec::dedup]: consecutive repetitions collapse. *)
Fixpoint dedup (l : list string) : list string :=
  match l with
  | x :: (y :: _) as rest => if bool_decide (x = y) then dedup rest else x :: dedup rest
  | _ => l
  end.

End Text.

(** Sorting and removing repetitions is collecting into a set. *)
Lemma dedup_sorted (l : list string) :
  StronglySorted (fun a b => ord_leb a b = true) l ->
  ascending (dedup l) /\ forall x, x ∈ dedup l <-> x ∈ l.
Proof.
  induction l as [|x [|y l] IH]; intros Hs; [split; [constructor|done]|split; [repeat constructor|done]|].
  apply StronglySorted_inv in Hs as [Hs Hx]. destruct (IH Hs) as [Ha Hm]. cbn [dedup].
  case_bool_decide as Hxy.
  - subst y. split; [exact Ha|]. intros z. rewrite Hm. set_solver.
  - split; [|intros z; rewrite !elem_of_cons, Hm; set_solver]. apply ascending_cons. split; [|exact Ha].
    apply Forall_forall. intros z Hz%Hm. eapply Forall_forall in Hx as Hxz; [|exact Hz].
    destruct (ord_total x z) as [?|[->|Hlt]]; [done| |by apply ord_leb_not_lt in Hxz].
    exfalso. apply elem_of_cons in Hz as [->|Hz]; [done|].
    apply StronglySorted_inv in Hs as [_ Hy]. eapply Forall_forall in Hy; [|exact Hz].
    apply Forall_cons in Hx as [Hxy' _]. apply ord_leb_not_lt in Hxy', Hy.
    destruct (ord_total y z) as [?|[?|?]]; subst; try done.
Qed.

Lemma ord_leb_trans {A} `{RustOrd A} (x y z : A) :
  ord_leb x y = true -> ord_leb y z = true -> ord_leb x z = true.
Proof.
  rewrite !ord_leb_not_lt. intros Hxy Hyz Hzx.
  destruct (ord_total x y) as [?|[->|?]]; [|done|done].
  by apply Hyz, (ord_lt_trans _ x).
Qed.

Lemma sort_dedup (l : list string) : dedup (sort_by ord_leb l) = bs_of_list l.
Proof.
  destruct (dedup_sorted (sort_by ord_leb l)) as [Ha Hm].
  - apply sort_by_sorted; [done| |intros x y z; apply ord_leb_trans].
    intros x y Hxy. apply ord_leb_not_lt. intros Hlt. apply not_true_iff_false in Hxy.
    apply Hxy, ord_leb_not_lt. by apply ord_lt_asym.
  - apply ascending_ext; [done|apply bs_of_list_ascending|]. intros x.
    by rewrite Hm, elem_of_bs_of_list, sort_by_perm.
Qed.

(** ** Separators *)

Lemma string_app_nil (b : string) : ("" +:+ b = b)%string.
Proof. reflexivity. Qed.
Lemma string_app_cons x (a b : string) : (String x a +:+ b = String x (a +:+ b))%string.
Proof. reflexivity. Qed.
Lemma string_app_assoc (a b c : string) : ((a +:+ b) +:+ c = a +:+ (b +:+ c))%string.
Proof. induction a as [|x a IH]; [reflexivity|]. by rewrite !string_app_cons, IH. Qed.

Lemma string_length_app (a b : string) : String.length (a +:+ b)%string = String.length a + String.length b.
Proof. induction a as [|x a IH]; [reflexivity|]. rewrite string_app_cons. cbn. by rewrite IH. Qed.

Lemma strip_prefix_self needle (b : string) : strip_prefix needle (needle +:+ b) = Some b.
Proof. induction needle as [|c needle IH]; [by destruct b|]. rewrite string_app_cons. cbn. by rewrite Ascii.eqb_refl. Qed.

(** A string without the separator ends at its first occurrence. *)
Lemma split_inj (c : Ascii.ascii) (a a' b b' : string) :
  c ∉ String.list_ascii_of_string a -> c ∉ String.list_ascii_of_string a' ->
  (a +:+ String c b = a' +:+ String c b')%string -> a = a' /\ b = b'.
Proof.
  revert a'. induction a as [|x a IH]; intros [|x' a'] Ha Ha' Heq; cbn in Ha, Ha';
    rewrite ?string_app_nil, ?string_app_cons in Heq.
  - by injection Heq as ->.
  - injection Heq as -> _. destruct Ha'. by left.
  - injection Heq as <- _. destruct Ha. by left.
  - injection Heq as -> Heq. destruct (IH a') as [-> ->]; [set_solver|set_solver|done|done].
Qed.

(** A string without the separator starts after its last occurrence. *)
Lemma string_chars_app (a b : string) :
  String.list_ascii_of_string (a +:+ b)%string
  = String.list_ascii_of_string a ++ String.list_ascii_of_string b.
Proof. induction a as [|x a IH]; [done|]. rewrite string_app_cons. cbn. by rewrite IH. Qed.

Lemma string_chars_inj (a b : string) :
  String.list_ascii_of_string a = String.list_ascii_of_string b -> a = b.
Proof.
  intros Heq. rewrite <- (String.string_of_list_ascii_of_string a), Heq.
  apply String.string_of_list_ascii_of_string.
Qed.

Lemma last_split_inj (c : Ascii.ascii) (a a' b b' : string) :
  c ∉ String.list_ascii_of_string b -> c ∉ String.list_ascii_of_string b' ->
  (a +:+ String c b = a' +:+ String c b')%string -> a = a' /\ b = b'.
Proof.
  intros Hb Hb' Heq. apply (f_equal String.list_ascii_of_string) in Heq.
  rewrite !string_chars_app in Heq. cbn in Heq.
  revert a' Heq. induction a as [|x a IH]; intros [|x' a'] Heq; cbn in Heq.
  - injection Heq as Heq. by apply string_chars_inj in Heq as ->.
  - injection Heq as _ Heq. destruct Hb. rewrite Heq. apply elem_of_app. right. left.
  - injection Heq as _ Heq. destruct Hb'. rewrite <- Heq. apply elem_of_app. right. left.
  - injection Heq as -> Heq. by apply IH in Heq as [-> ->].
Qed.

(** A decimal numeral holds digits only. *)
Lemma pretty_free (c : Ascii.ascii) (n : N) :
  (forall x, pretty_N_char x <> c) -> c ∉ String.list_ascii_of_string (pretty n).
Proof.
  intros Hc. unfold pretty, pretty_N. case_decide as Hn; [|clear Hn].
  { cbn. intros [Heq|[]%elem_of_nil]%elem_of_cons. by destruct (Hc 0%N). }
  assert (forall s, c ∉ String.list_ascii_of_string s -> c ∉ String.list_ascii_of_string (pretty_N_go n s)) as Hgo;
    [|by apply Hgo, not_elem_of_nil].
  induction (N.lt_wf_0 n) as [n _ IH]; intros s Hs.
  destruct (decide (0 < n)%N) as [Hpos|Hz].
  - rewrite pretty_N_go_step by done. apply IH; [by apply N.div_lt|].
    cbn. rewrite not_elem_of_cons. split; [|done]. intros Heq. by apply (Hc (n mod 10)%N).
  - assert (n = 0%N) as -> by lia. by rewrite pretty_N_go_0.
Qed.

Example trim_example : trim (bytes [32; 194; 160; 97; 32; 98; 227; 128; 128; 10]) = "a b"%string.
Proof. reflexivity. Qed.
Example split_example : split_on "," "a,,b"%string = ["a"; ""; "b"]%string.
Proof. reflexivity. Qed.
Example rsplit_example : rsplit_once "::" "a::b::c"%string = Some ("a::b", "c")%string.
Proof. reflexivity. Qed.
Example strip_suffix_example : strip_suffix ".gz" "a.gz.gz"%string = Some "a.gz"%string.
Proof. reflexivity. Qed.
