(* ===== verification/CodecModel.v ===== *)
(** The artifact codec: [tools/vm-artifact-codec/src/lib.rs].

    Definitions only.  [Node] and [Graph] are the frozen format; [Builder] and
    [Compound] are the state of the serializer; [serialize] drives the
    serializer's methods from a value of serde's data model; [canonical_order]
    renumbers and permutes the nodes in place; [validate] and [decode] are the
    reading side.  [u32] node ids are [N], [u32] sizes and [u8] depths are [Z]. *)

From S2P Require Export BTree.

(** serde_json's [Number] and the conversions the serializer calls on it. *)
Class SerdeNumber := {
  Number : Type;
  #[global] Number_eq_dec :: EqDecision Number;
  number_from_i64 : Z -> Number;
  number_from_u64 : Z -> Number;
  number_from_i128 : Z -> option Number;
  number_from_u128 : Z -> option Number;
  (** from the bits of an [f64] *)
  number_from_f64 : Z -> option Number;
  (** [f64::from(f32)] on bit patterns *)
  f64_of_f32 : Z -> Z
}.

Inductive Node `{SerdeNumber} : Type :=
  | NodeN
  | NodeB (b : bool)
  | NodeI (n : Number)
  | NodeS (s : string)
  | NodeA (refs : list N)
  | NodeO (fields : list (N * N)).

#[export] Instance Node_eq_dec `{SerdeNumber} : EqDecision Node.
Proof. solve_decision. Defined.

Record Graph `{SerdeNumber} : Type := { g_nodes : list Node; g_root : N }.

(** [std::hash::Hasher] over a node: the builder's buckets are keyed by it. *)
Class NodeHasher `{SerdeNumber} := hash_node : Node -> N.

Record Builder `{SerdeNumber} : Type := {
  b_nodes : list Node;
  b_ids : gmap N (list N)
}.

Definition MAX_EXPANDED_NODES : Z := 8500000.

Abbreviation Res := (Outcome string).

(** serde's data model: the calls a [Serialize] implementation makes. *)
Inductive Ser : Type :=
  | SBool (v : bool)
  | SI8 (v : Z) | SI16 (v : Z) | SI32 (v : Z) | SI64 (v : Z) | SI128 (v : Z)
  | SU8 (v : Z) | SU16 (v : Z) | SU32 (v : Z) | SU64 (v : Z) | SU128 (v : Z)
  | SF32 (bits : Z) | SF64 (bits : Z)
  | SChar (utf8 : string) | SStr (v : string) | SBytes (v : list Z)
  | SNone | SSome (v : Ser)
  | SUnit | SUnitStruct (name : string)
  | SUnitVariant (name : string) (variant : string)
  | SNewtypeStruct (name : string) (v : Ser)
  | SNewtypeVariant (name : string) (variant : string) (v : Ser)
  | SSeq (l : list Ser) | STuple (l : list Ser)
  | STupleStruct (name : string) (l : list Ser)
  | STupleVariant (name : string) (variant : string) (l : list Ser)
  | SMap (l : list (Ser * Ser))
  | SStruct (name : string) (l : list (string * Ser))
  | SStructVariant (name : string) (variant : string) (l : list (string * Ser)).

Section Encoder.
Context `{SerdeNumber} {hasher : NodeHasher}.

(** ** [Builder::intern] *)

(** The scan of one bucket: the first id whose node equals [node]. *)
Fixpoint find_in_bucket (nodes : list Node) (node : Node) (bucket : list N)
  : Res (option N) :=
  match bucket with
  | [] => Ok None
  | id :: rest =>
      n ← index nodes (N.to_nat id);
      if decide (n = node) then Ok (Some id) else find_in_bucket nodes node rest
  end.

Definition intern (node : Node) (self : Builder) : Res (N * Builder) :=
  let hash := hash_node node in
  let bucket := default [] (b_ids self !! hash) in
  found ← find_in_bucket (b_nodes self) node bucket;
  match found with
  | Some id => Ok (id, self)
  | None =>
      let len := length (b_nodes self) in
      id ← expect "artifact node count fits u32"
             (if (Z.of_nat len <=? U32_MAX)%Z then Some (N.of_nat len) else None);
      Ok (id, {| b_nodes := b_nodes self ++ [node];
                 b_ids := <[hash := bucket ++ [id]]> (b_ids self) |})
  end.

(** ** [Compound] *)

Record Compound : Type := {
  values : list N;
  fields : list (N * N);
  key : option N;
  variant : option N;
  object : bool
}.

Definition compound_new (object : bool) (variant : option N) : Compound :=
  {| values := []; fields := []; key := None; variant := variant; object := object |}.

(** What [v.serialize(&mut *builder)] does for a component [v]. *)
Definition Action : Type := Builder -> Res (N * Builder).

Definition compound_field (self : Compound) (k : string) (v : Action)
  : Builder -> Res (Compound * Builder) := fun builder =>
  '(key_id, builder) ← intern (NodeS k) builder;
  '(value, builder) ← v builder;
  Ok ({| values := values self; fields := fields self ++ [(key_id, value)];
         key := key self; variant := variant self; object := object self |}, builder).

(** The comparator of [finish]: both keys must be string nodes. *)
Definition key_string (nodes : list Node) (id : N) : Res string :=
  n ← index nodes (N.to_nat id);
  match n with NodeS s => Ok s | _ => Panic "unreachable" end.

(** [sort_by] with a comparator that may panic; a list of at most one element
    is never compared. *)
Fixpoint insert_field (nodes : list Node) (x : N * N) (l : list (N * N))
  : Res (list (N * N)) :=
  match l with
  | [] => Ok [x]
  | y :: rest =>
      a ← key_string nodes x.1;
      b ← key_string nodes y.1;
      if ord_leb a b then Ok (x :: l)
      else rest' ← insert_field nodes x rest; Ok (y :: rest')
  end.

Fixpoint sort_fields (nodes : list Node) (l : list (N * N)) : Res (list (N * N)) :=
  match l with
  | [] => Ok []
  | x :: rest => rest' ← sort_fields nodes rest; insert_field nodes x rest'
  end.

Definition finish (self : Compound) : Action := fun builder =>
  node ← (if object self
          then f ← sort_fields (b_nodes builder) (fields self); Ok (NodeO f)
          else Ok (NodeA (values self)));
  '(id, builder) ← intern node builder;
  match variant self with
  | Some key => intern (NodeO [(key, id)]) builder
  | None => Ok (id, builder)
  end.

(** ** The [Serializer] methods *)

Definition serialize_bool (v : bool) : Action := intern (NodeB v).
Definition serialize_i64 (v : Z) : Action := intern (NodeI (number_from_i64 v)).
Definition serialize_i8 (v : Z) : Action := serialize_i64 v.
Definition serialize_i16 (v : Z) : Action := serialize_i64 v.
Definition serialize_i32 (v : Z) : Action := serialize_i64 v.
Definition serialize_i128 (v : Z) : Action := fun b =>
  n ← ok_or "integer outside frozen JSON range" (number_from_i128 v);
  intern (NodeI n) b.
Definition serialize_u64 (v : Z) : Action := intern (NodeI (number_from_u64 v)).
Definition serialize_u8 (v : Z) : Action := serialize_u64 v.
Definition serialize_u16 (v : Z) : Action := serialize_u64 v.
Definition serialize_u32 (v : Z) : Action := serialize_u64 v.
Definition serialize_u128 (v : Z) : Action := fun b =>
  n ← ok_or "integer outside frozen JSON range" (number_from_u128 v);
  intern (NodeI n) b.
Definition serialize_f64 (bits : Z) : Action :=
  intern (match number_from_f64 bits with Some n => NodeI n | None => NodeN end).
Definition serialize_f32 (bits : Z) : Action := serialize_f64 (f64_of_f32 bits).
Definition serialize_str (v : string) : Action := intern (NodeS v).
Definition serialize_char (utf8 : string) : Action := serialize_str utf8.
Definition serialize_unit : Action := intern NodeN.
Definition serialize_none : Action := serialize_unit.
Definition serialize_some (v : Action) : Action := v.
Definition serialize_unit_struct : Action := serialize_unit.
Definition serialize_unit_variant (v : string) : Action := serialize_str v.
Definition serialize_newtype_struct (v : Action) : Action := v.
Definition serialize_newtype_variant (k : string) (v : Action) : Action := fun b =>
  '(key, b) ← intern (NodeS k) b;
  '(value, b) ← v b;
  intern (NodeO [(key, value)]) b.

Definition serialize_seq : Compound := compound_new false None.
Definition serialize_tuple : Compound := serialize_seq.
Definition serialize_tuple_struct : Compound := serialize_seq.
Definition serialize_tuple_variant (k : string) : Builder -> Res (Compound * Builder) :=
  fun b => '(key, b) ← intern (NodeS k) b; Ok (compound_new false (Some key), b).
Definition serialize_map : Compound := compound_new true None.
Definition serialize_struct : Compound := serialize_map.
Definition serialize_struct_variant (k : string) : Builder -> Res (Compound * Builder) :=
  fun b => '(key, b) ← intern (NodeS k) b; Ok (compound_new true (Some key), b).

(** [SerializeSeq::serialize_element]; the tuple traits forward to it. *)
Definition serialize_element (self : Compound) (v : Action)
  : Builder -> Res (Compound * Builder) := fun b =>
  '(id, b) ← v b;
  Ok ({| values := values self ++ [id]; fields := fields self; key := key self;
         variant := variant self; object := object self |}, b).

(** [SerializeMap::serialize_key] and [serialize_value]. *)
Definition serialize_key (self : Compound) (k : Action)
  : Builder -> Res (Compound * Builder) := fun b =>
  '(id, b) ← k b;
  node ← index (b_nodes b) (N.to_nat id);
  match node with
  | NodeS _ =>
      Ok ({| values := values self; fields := fields self; key := Some id;
             variant := variant self; object := object self |}, b)
  | _ => Err "object key must be a string"
  end.

Definition serialize_value (self : Compound) (v : Action)
  : Builder -> Res (Compound * Builder) := fun b =>
  key_id ← ok_or "missing map key" (key self);
  '(value, b) ← v b;
  Ok ({| values := values self; fields := fields self ++ [(key_id, value)]; key := None;
         variant := variant self; object := object self |}, b).

(** [SerializeStruct::serialize_field], also of struct variants. *)
Definition serialize_field := compound_field.

(** ** Driving the serializer *)

Section Drive.
Context {T : Type} (ser : T -> Action).

(** The elements of a sequence or tuple. *)
Fixpoint drive_elements (l : list T) (c : Compound) (b : Builder)
  : Res (Compound * Builder) :=
  match l with
  | [] => Ok (c, b)
  | x :: rest => '(c, b) ← serialize_element c (ser x) b; drive_elements rest c b
  end.

(** The entries of a map. *)
Fixpoint drive_entries (l : list (T * T)) (c : Compound) (b : Builder)
  : Res (Compound * Builder) :=
  match l with
  | [] => Ok (c, b)
  | (k, x) :: rest =>
      '(c, b) ← serialize_key c (ser k) b;
      '(c, b) ← serialize_value c (ser x) b;
      drive_entries rest c b
  end.

(** The fields of a struct. *)
Fixpoint drive_fields (l : list (string * T)) (c : Compound) (b : Builder)
  : Res (Compound * Builder) :=
  match l with
  | [] => Ok (c, b)
  | (k, x) :: rest =>
      '(c, b) ← serialize_field c k (ser x) b; drive_fields rest c b
  end.
End Drive.

Fixpoint serialize (v : Ser) : Action :=
  match v with
  | SBool v => serialize_bool v
  | SI8 v => serialize_i8 v | SI16 v => serialize_i16 v | SI32 v => serialize_i32 v
  | SI64 v => serialize_i64 v | SI128 v => serialize_i128 v
  | SU8 v => serialize_u8 v | SU16 v => serialize_u16 v | SU32 v => serialize_u32 v
  | SU64 v => serialize_u64 v | SU128 v => serialize_u128 v
  | SF32 v => serialize_f32 v | SF64 v => serialize_f64 v
  | SChar v => serialize_char v | SStr v => serialize_str v
  | SBytes l => fun b => '(c, b) ← drive_elements serialize_u8 l serialize_seq b; finish c b
  | SNone => serialize_none
  | SSome v => serialize_some (serialize v)
  | SUnit => serialize_unit
  | SUnitStruct _ => serialize_unit_struct
  | SUnitVariant _ k => serialize_unit_variant k
  | SNewtypeStruct _ v => serialize_newtype_struct (serialize v)
  | SNewtypeVariant _ k v => serialize_newtype_variant k (serialize v)
  | SSeq l => fun b => '(c, b) ← drive_elements serialize l serialize_seq b; finish c b
  | STuple l => fun b => '(c, b) ← drive_elements serialize l serialize_tuple b; finish c b
  | STupleStruct _ l => fun b => '(c, b) ← drive_elements serialize l serialize_tuple_struct b; finish c b
  | STupleVariant _ k l => fun b =>
      '(c, b) ← serialize_tuple_variant k b; '(c, b) ← drive_elements serialize l c b; finish c b
  | SMap l => fun b => '(c, b) ← drive_entries serialize l serialize_map b; finish c b
  | SStruct _ l => fun b => '(c, b) ← drive_fields serialize l serialize_struct b; finish c b
  | SStructVariant _ k l => fun b =>
      '(c, b) ← serialize_struct_variant k b; '(c, b) ← drive_fields serialize l c b; finish c b
  end.
End Encoder.
