(* ===== verification/CodecGraph.v ===== *)
(** The artifact codec, graph side: [canonical_order], [Graph::validate] and the
    [At] deserializer of [tools/vm-artifact-codec/src/lib.rs].  Definitions only. *)

From S2P Require Export CodecModel.

Section Graph.
Context `{SerdeNumber}.

(** ** [canonical_order] *)

Definition UNVISITED : N := 4294967295.
Definition VISITING : N := 4294967294.
Definition PERMUTATION_CONSUMED : N := 4294967295.

(** The references of a node in traversal order: key before value. *)
Definition node_refs (node : Node) : list N :=
  match node with
  | NodeA a => a
  | NodeO o => flat_map (fun kv => [kv.1; kv.2]) o
  | _ => []
  end.

(** The inner [fn visit]: the new id of [id], with the updated [mapped] table
    and [next] counter.  The depth of the recursion is at most one more than
    the number of nodes, since every nested call marks a node [VISITING]. *)
Fixpoint visit (fuel : nat) (id : N) (nodes : list Node) (mapped : list N) (next : N)
  : Res (N * (list N * N)) :=
  match fuel with
  | O => Panic "stack overflow"
  | S fuel =>
      m ← index mapped (N.to_nat id);
      if decide (m = VISITING) then Panic "cycle in interned artifact node graph"
      else if decide (m = UNVISITED) then
        let mapped := <[N.to_nat id := VISITING]> mapped in
        node ← index nodes (N.to_nat id);
        '(mapped, next) ←
          fold_outcome (fun '(mapped, next) reference =>
            '(_, st) ← visit fuel reference nodes mapped next; Ok st)
            (mapped, next) (node_refs node);
        Ok (next, (<[N.to_nat id := next]> mapped, (next + 1)%N))
      else Ok (m, (mapped, next))
  end.

(** The in-place rewrite of one node's references. *)
Definition remap_ref (mapped : list N) (reference : N) : Res N :=
  index mapped (N.to_nat reference).
Definition remap_node (mapped : list N) (node : Node) : Res Node :=
  match node with
  | NodeA a => a' ← map_outcome (remap_ref mapped) a; Ok (NodeA a')
  | NodeO o =>
      o' ← map_outcome (fun '(k, v) =>
             k' ← remap_ref mapped k; v' ← remap_ref mapped v; Ok (k', v')) o;
      Ok (NodeO o')
  | _ => Ok node
  end.

(** The inner [loop]: carries [node] along one cycle of the permutation. *)
Fixpoint rotate (fuel : nat) (start current : nat) (node : Node)
  (mapped : list N) (nodes : list Node) : Res (list N * list Node) :=
  match fuel with
  | O => Panic "unbounded cycle"
  | S fuel =>
      d ← index mapped current;
      let destination := N.to_nat d in
      let mapped := <[current := PERMUTATION_CONSUMED]> mapped in
      displaced ← index nodes destination;
      let nodes := <[destination := node]> nodes in
      if decide (destination = start) then Ok (mapped, nodes)
      else rotate fuel start destination displaced mapped nodes
  end.

(** One iteration of [for start in 0..nodes.len()]. *)
Definition place_cycle (st : list N * list Node) (start : nat)
  : Res (list N * list Node) :=
  let '(mapped, nodes) := st in
  m ← index mapped start;
  if decide (m = PERMUTATION_CONSUMED) then Ok (mapped, nodes)
  else
    node ← index nodes start;
    rotate (length nodes) start start node mapped (<[start := NodeN]> nodes).

Definition canonical_order (nodes : list Node) (root : N) : Res Graph :=
  let n := length nodes in
  if negb (Z.of_nat n <? U32_MAX - 1)%Z then Panic "assertion failed: nodes.len()"
  else
    '(root, (mapped, next)) ← visit (S n) root nodes (replicate n UNVISITED) 0%N;
    if negb (N.to_nat next =? n) then Panic "interned artifact nodes must be reachable"
    else
      nodes ← map_outcome (remap_node mapped) nodes;
      '(_, nodes) ← fold_outcome place_cycle (mapped, nodes) (seq 0 n);
      Ok {| g_nodes := nodes; g_root := root |}.

(** [encode]: walk the value, then put the table in canonical order. *)
Definition encode {hasher : NodeHasher} (value : Ser) : Res Graph :=
  '(root, builder) ← serialize value {| b_nodes := []; b_ids := ∅ |};
  canonical_order (b_nodes builder) root.

(** ** [Graph::validate] *)

Definition u8_add (a b : Z) : Res Z :=
  if (a + b <=? U8_MAX)%Z then Ok (a + b)%Z else Panic "attempt to add with overflow".

Definition account_ref (node_index : nat) (sizes depths : list Z)
  (acc : Z * Z) (reference : N) : Res (Z * Z) :=
  let '(size, depth) := acc in
  if (node_index <=? N.to_nat reference)%nat
  then Err "DAG references must point backward"
  else
    s ← index sizes (N.to_nat reference);
    d ← index depths (N.to_nat reference);
    d1 ← u8_add d 1;
    Ok (u32_saturating_add size s, Z.max depth d1).

(** The key check of one object: string nodes, strictly ascending. *)
Definition check_key (nodes : list Node) (prev : option string) (kv : N * N)
  : Res (option string) :=
  n ← index nodes (N.to_nat kv.1);
  match n with
  | NodeS key =>
      if match prev with Some p => ord_leb key p | None => false end
      then Err "object keys must be unique and sorted"
      else Ok (Some key)
  | _ => Err "object key must be a string node"
  end.

(** One iteration of the forward pass, on the summaries of earlier nodes. *)
Definition validate_node (nodes : list Node) (acc : list Z * list Z) (i : nat)
  : Res (list Z * list Z) :=
  let '(sizes, depths) := acc in
  n ← index nodes i;
  '(size, depth) ← fold_outcome (account_ref i sizes depths) (1%Z, 1%Z) (node_refs n);
  if (depth >? 128)%Z || (size >? MAX_EXPANDED_NODES)%Z
  then Err "DAG expansion exceeds decoder limits"
  else
    _ ← match n with
        | NodeO o => fold_outcome (check_key nodes) None o
        | _ => Ok None
        end;
    Ok (sizes ++ [size], depths ++ [depth]).

(** One iteration of the backward reachability pass. *)
Definition mark_refs (nodes : list Node) (reached : list bool) (i : nat) : Res (list bool) :=
  r ← index reached i;
  if negb r then Err "unreachable DAG node"
  else
    n ← index nodes i;
    Ok (fold_left (fun reached r => <[N.to_nat r := true]> reached) (node_refs n) reached).

Definition validate (self : Graph) : Res unit :=
  let nodes := g_nodes self in
  let n := length nodes in
  if (n =? 0) || negb (N.to_nat (g_root self) =? n - 1)
  then Err "DAG root must be the final node"
  else
    let reached := <[N.to_nat (g_root self) := true]> (replicate n false) in
    _ ← fold_outcome (validate_node nodes) ([], []) (seq 0 n);
    _ ← fold_outcome (mark_refs nodes) reached (rev (seq 0 n));
    Ok ().

(** ** The [At] deserializer *)

(** Which visitor method a [Deserializer] method calls, and with what. *)
Inductive Visit : Type :=
  | VisitUnit
  | VisitBool (b : bool)
  | VisitNumber (n : Number)
  | VisitStr (s : string)
  | VisitSeq (items : list N)
  | VisitMap (entries : list (N * N))
  | VisitNone
  | VisitSome (at_id : N)
  | VisitNewtypeStruct (at_id : N)
  | VisitEnumStr (s : string)
  | VisitEnum (key value : N).

Definition deserialize_any (g : Graph) (id : N) : Res Visit :=
  node ← index (g_nodes g) (N.to_nat id);
  Ok (match node with
      | NodeN => VisitUnit
      | NodeB b => VisitBool b
      | NodeI n => VisitNumber n
      | NodeS s => VisitStr s
      | NodeA a => VisitSeq a
      | NodeO o => VisitMap o
      end).

Definition deserialize_option (g : Graph) (id : N) : Res Visit :=
  node ← index (g_nodes g) (N.to_nat id);
  Ok (match node with NodeN => VisitNone | _ => VisitSome id end).

Definition deserialize_newtype_struct (id : N) : Visit := VisitNewtypeStruct id.

Definition deserialize_enum (g : Graph) (id : N) : Res Visit :=
  node ← index (g_nodes g) (N.to_nat id);
  match node with
  | NodeS s => Ok (VisitEnumStr s)
  | NodeO [(key, value)] => Ok (VisitEnum key value)
  | _ => Err "expected externally tagged enum"
  end.

(** [MapAccess for Map]: the iterator and the pending value. *)
Record MapState : Type := { m_iter : list (N * N); m_value : option N }.

Definition next_key_seed (self : MapState) : option N * MapState :=
  match m_iter self with
  | [] => (None, self)
  | (k, v) :: rest => (Some k, {| m_iter := rest; m_value := Some v |})
  end.

Definition next_value_seed (self : MapState) : Res (N * MapState) :=
  v ← ok_or "missing map value" (m_value self);
  Ok (v, {| m_iter := m_iter self; m_value := None |}).

(** The self-describing value a visitor can rebuild from the events. *)
Inductive JValue : Type :=
  | JNull
  | JBool (b : bool)
  | JNumber (n : Number)
  | JString (s : string)
  | JArray (l : list JValue)
  | JObject (l : list (string * JValue)).

(** A [String] key: any event but [visit_str] is a type error. *)
Definition decode_key (g : Graph) (id : N) : Res string :=
  e ← deserialize_any g id;
  match e with VisitStr s => Ok s | _ => Err "invalid type: expected a string" end.

(** The visitor loop over a [Map]: a key, then its value, until the iterator
    is exhausted; [value] reads the value at an id. *)
Fixpoint visit_map (value : N -> Res JValue) (g : Graph) (n : nat) (st : MapState)
  : Res (list (string * JValue)) :=
  match n with
  | O => Ok []
  | S n =>
      match next_key_seed st with
      | (None, _) => Ok []
      | (Some k, st) =>
          key ← decode_key g k;
          '(v, st) ← next_value_seed st;
          x ← value v;
          rest ← visit_map value g n st;
          Ok ((key, x) :: rest)
      end
  end.

Fixpoint decode (fuel : nat) (g : Graph) (id : N) : Res JValue :=
  match fuel with
  | O => Panic "stack overflow"
  | S fuel =>
      e ← deserialize_any g id;
      match e with
      | VisitUnit => Ok JNull
      | VisitBool b => Ok (JBool b)
      | VisitNumber n => Ok (JNumber n)
      | VisitStr s => Ok (JString s)
      | VisitSeq items => l ← map_outcome (decode fuel g) items; Ok (JArray l)
      | VisitMap entries =>
          l ← visit_map (decode fuel g) g (S (length entries)) {| m_iter := entries; m_value := None |};
          Ok (JObject l)
      | _ => Err "unexpected event"
      end
  end.

(** [deserialize] at a self-describing type: validate, then read the root. *)
Definition deserialize (g : Graph) : Res JValue :=
  _ ← validate g;
  decode (S (length (g_nodes g))) g (g_root g).
End Graph.
