(* ===== verification/CodecSpec.v ===== *)
(** The abstract specification of the artifact codec.

    [to_value] is the value a serializer call sequence stands for; [Table]
    relates a node table to the values its nodes denote; [canon] is the
    canonical graph of a value, as a function of the value alone. *)

From S2P Require Export CodecGraph.

Section Values.
Context `{SerdeNumber}.

(** ** Induction over the nested data *)

Section SerInd.
Context (P : Ser -> Prop).
Context (Hleaf : forall s, match s with
  | SSome _ | SNewtypeStruct _ _ | SNewtypeVariant _ _ _ | SSeq _ | STuple _
  | STupleStruct _ _ | STupleVariant _ _ _ | SMap _ | SStruct _ _
  | SStructVariant _ _ _ => True
  | _ => P s end).
Context (Hsome : forall v, P v -> P (SSome v))
  (Hnews : forall n v, P v -> P (SNewtypeStruct n v))
  (Hnewv : forall n k v, P v -> P (SNewtypeVariant n k v))
  (Hseq : forall l, Forall P l -> P (SSeq l))
  (Htuple : forall l, Forall P l -> P (STuple l))
  (Htuples : forall n l, Forall P l -> P (STupleStruct n l))
  (Htuplev : forall n k l, Forall P l -> P (STupleVariant n k l))
  (Hmap : forall l, Forall (fun kv => P kv.1 /\ P kv.2) l -> P (SMap l))
  (Hstruct : forall n l, Forall (fun kv => P kv.2) l -> P (SStruct n l))
  (Hstructv : forall n k l, Forall (fun kv => P kv.2) l -> P (SStructVariant n k l)).

Fixpoint Ser_nested_ind (s : Ser) : P s :=
  let all := fix all (l : list Ser) : Forall P l :=
    match l with
    | [] => @List.Forall_nil _ _
    | x :: r => @List.Forall_cons _ _ x r (Ser_nested_ind x) (all r)
    end in
  let pairs := fix pairs (l : list (Ser * Ser)) : Forall (fun kv => P kv.1 /\ P kv.2) l :=
    match l with
    | [] => @List.Forall_nil _ _
    | (k, v) :: r =>
        @List.Forall_cons _ (fun kv => P kv.1 /\ P kv.2) (k, v) r (conj (Ser_nested_ind k) (Ser_nested_ind v)) (pairs r)
    end in
  let named := fix named (l : list (string * Ser)) : Forall (fun kv => P kv.2) l :=
    match l with
    | [] => @List.Forall_nil _ _
    | (k, v) :: r => @List.Forall_cons _ (fun kv => P kv.2) (k, v) r (Ser_nested_ind v) (named r)
    end in
  match s with
  | SSome v => Hsome v (Ser_nested_ind v)
  | SNewtypeStruct n v => Hnews n v (Ser_nested_ind v)
  | SNewtypeVariant n k v => Hnewv n k v (Ser_nested_ind v)
  | SSeq l => Hseq l (all l)
  | STuple l => Htuple l (all l)
  | STupleStruct n l => Htuples n l (all l)
  | STupleVariant n k l => Htuplev n k l (all l)
  | SMap l => Hmap l (pairs l)
  | SStruct n l => Hstruct n l (named l)
  | SStructVariant n k l => Hstructv n k l (named l)
  | s => Hleaf s
  end.
End SerInd.

Section JValueInd.
Context (P : JValue -> Prop)
  (Hnull : P JNull) (Hbool : forall b, P (JBool b)) (Hnum : forall n, P (JNumber n))
  (Hstr : forall s, P (JString s))
  (Harr : forall l, Forall P l -> P (JArray l))
  (Hobj : forall l, Forall (fun kv => P kv.2) l -> P (JObject l)).

Fixpoint JValue_nested_ind (v : JValue) : P v :=
  match v with
  | JNull => Hnull | JBool b => Hbool b | JNumber n => Hnum n | JString s => Hstr s
  | JArray l => Harr l ((fix all l : Forall P l :=
      match l with
      | [] => @List.Forall_nil _ _
      | x :: r => @List.Forall_cons _ _ x r (JValue_nested_ind x) (all r)
      end) l)
  | JObject l => Hobj l ((fix all l : Forall (fun kv => P kv.2) l :=
      match l with
      | [] => @List.Forall_nil _ _
      | (k, x) :: r => @List.Forall_cons _ (fun kv => P kv.2) (k, x) r (JValue_nested_ind x) (all r)
      end) l)
  end.
End JValueInd.

#[export] Instance JValue_eq_dec : EqDecision JValue.
Proof.
  unfold EqDecision, Decision.
  fix IH 1.
  assert (forall l m : list JValue, {l = m} + {l <> m}) as IHl.
  { fix IHl 1. intros [|x l] [|y m]; [by left|by right|by right|].
    destruct (IH x y) as [->|]; [|right; congruence].
    destruct (IHl l m) as [->|]; [by left|right; congruence]. }
  assert (forall l m : list (string * JValue), {l = m} + {l <> m}) as IHo.
  { fix IHo 1. intros [|[k x] l] [|[k' y] m]; [by left|by right|by right|].
    destruct (decide (k = k')) as [->|]; [|right; congruence].
    destruct (IH x y) as [->|]; [|right; congruence].
    destruct (IHo l m) as [->|]; [by left|right; congruence]. }
  intros [| | | |l|l] [| | | |m|m]; try (by right); try (by left).
  - destruct (decide (b = b0)) as [->|]; [by left|right; congruence].
  - destruct (decide (n = n0)) as [->|]; [by left|right; congruence].
  - destruct (decide (s = s0)) as [->|]; [by left|right; congruence].
  - destruct (IHl l m) as [->|]; [by left|right; congruence].
  - destruct (IHo l m) as [->|]; [by left|right; congruence].
Defined.

(** ** The value of a serializer call sequence *)

Definition key_of (v : JValue) : Res string :=
  match v with JString s => Ok s | _ => Err "object key must be a string" end.

Definition entry_leb (a b : string * JValue) : bool := ord_leb a.1 b.1.
Definition object_of (l : list (string * JValue)) : JValue :=
  JObject (sort_by entry_leb l).

Definition number_or_err (o : option Number) : Res JValue :=
  n ← ok_or "integer outside frozen JSON range" o; Ok (JNumber n).
Definition float_value (bits : Z) : JValue :=
  match number_from_f64 bits with Some n => JNumber n | None => JNull end.

Fixpoint to_value (s : Ser) : Res JValue :=
  match s with
  | SBool v => Ok (JBool v)
  | SI8 v | SI16 v | SI32 v | SI64 v => Ok (JNumber (number_from_i64 v))
  | SU8 v | SU16 v | SU32 v | SU64 v => Ok (JNumber (number_from_u64 v))
  | SI128 v => number_or_err (number_from_i128 v)
  | SU128 v => number_or_err (number_from_u128 v)
  | SF32 v => Ok (float_value (f64_of_f32 v))
  | SF64 v => Ok (float_value v)
  | SChar v | SStr v => Ok (JString v)
  | SBytes l => Ok (JArray (map (fun v => JNumber (number_from_u64 v)) l))
  | SNone | SUnit | SUnitStruct _ => Ok JNull
  | SSome v | SNewtypeStruct _ v => to_value v
  | SUnitVariant _ k => Ok (JString k)
  | SNewtypeVariant _ k v => x ← to_value v; Ok (JObject [(k, x)])
  | SSeq l | STuple l | STupleStruct _ l => vs ← map_outcome to_value l; Ok (JArray vs)
  | STupleVariant _ k l => vs ← map_outcome to_value l; Ok (JObject [(k, JArray vs)])
  | SMap l => vs ← map_outcome (fun '(k, x) =>
        kv ← to_value k; key ← key_of kv; v ← to_value x; Ok (key, v)) l; Ok (object_of vs)
  | SStruct _ l => vs ← map_outcome (fun '(k, x) => v ← to_value x; Ok (k, v)) l; Ok (object_of vs)
  | SStructVariant _ k l => vs ← map_outcome (fun '(k, x) => v ← to_value x; Ok (k, v)) l; Ok (JObject [(k, object_of vs)])
  end.

(** An upper bound on the [intern] calls a value makes. *)
Fixpoint intern_calls (s : Ser) : nat :=
  match s with
  | SSome v | SNewtypeStruct _ v => intern_calls v
  | SNewtypeVariant _ _ v => 2 + intern_calls v
  | SSeq l | STuple l | STupleStruct _ l => 3 + sum_list_with intern_calls l
  | STupleVariant _ _ l => 3 + sum_list_with intern_calls l
  | SMap l => 3 + sum_list_with (fun kv => intern_calls kv.1 + intern_calls kv.2) l
  | SStruct _ l => 3 + sum_list_with (fun kv => 1 + intern_calls kv.2) l
  | SStructVariant _ _ l => 3 + sum_list_with (fun kv => 1 + intern_calls kv.2) l
  | SBytes l => 3 + length l
  | _ => 1
  end.

(** ** What a node table denotes *)

Definition entry_of (vals : list JValue) (kv : N * N) : option (string * JValue) :=
  match vals !! N.to_nat kv.1, vals !! N.to_nat kv.2 with
  | Some (JString s), Some v => Some (s, v)
  | _, _ => None
  end.

(** The value of a node whose references are looked up in [vals]. *)
Definition value_of (vals : list JValue) (node : Node) : option JValue :=
  match node with
  | NodeN => Some JNull
  | NodeB b => Some (JBool b)
  | NodeI n => Some (JNumber n)
  | NodeS s => Some (JString s)
  | NodeA refs => JArray <$> mapM (fun r => vals !! N.to_nat r) refs
  | NodeO o => JObject <$> mapM (entry_of vals) o
  end.

(** Node [i] denotes [vals !! i], and refers to earlier nodes only. *)
Definition Table (nodes : list Node) (vals : list JValue) : Prop :=
  length vals = length nodes /\
  forall i node, nodes !! i = Some node -> value_of (take i vals) node = vals !! i.

(** Edges of the graph and reachability from a node. *)
Definition edge (nodes : list Node) (i j : N) : Prop :=
  exists node, nodes !! N.to_nat i = Some node /\ j ∈ node_refs node.
Definition reach (nodes : list Node) : N -> N -> Prop := rtc (edge nodes).

(** ** The canonical graph of a value *)

Definition children (v : JValue) : list JValue :=
  match v with
  | JArray l => l
  | JObject l => flat_map (fun kv => [JString kv.1; kv.2]) l
  | _ => []
  end.

Definition add_once (v : JValue) (done : list JValue) : list JValue :=
  if decide (v ∈ done) then done else done ++ [v].

(** Distinct sub-values in the order a depth-first walk completes them. *)
Fixpoint postorder (v : JValue) (done : list JValue) : list JValue :=
  if decide (v ∈ done) then done else
  (match v with
   | JArray l =>
       (fix go (l : list JValue) (done : list JValue) :=
          match l with [] => done | x :: r => go r (postorder x done) end) l done
   | JObject l =>
       (fix go (l : list (string * JValue)) (done : list JValue) :=
          match l with
          | [] => done
          | (k, x) :: r => go r (postorder x (add_once (JString k) done))
          end) l done
   | _ => done
   end) ++ [v].

(** The position of a value in the order. *)
Fixpoint position (order : list JValue) (v : JValue) : N :=
  match order with
  | [] => 0%N
  | w :: rest => if decide (v = w) then 0%N else (1 + position rest v)%N
  end.

Definition node_of (order : list JValue) (v : JValue) : Node :=
  match v with
  | JNull => NodeN
  | JBool b => NodeB b
  | JNumber n => NodeI n
  | JString s => NodeS s
  | JArray l => NodeA (map (position order) l)
  | JObject l => NodeO (map (fun kv => (position order (JString kv.1), position order kv.2)) l)
  end.

Definition canon (v : JValue) : Graph :=
  let order := postorder v [] in
  {| g_nodes := map (node_of order) order; g_root := N.of_nat (length order - 1) |}.

(** ** The decoder's limits, on values *)

Fixpoint tree_size (v : JValue) : Z :=
  match v with
  | JArray l => 1 + fold_right (fun x acc => tree_size x + acc) 0 l
  | JObject l => 1 + fold_right (fun kv acc => 1 + tree_size kv.2 + acc) 0 l
  | _ => 1
  end%Z.

Fixpoint tree_depth (v : JValue) : Z :=
  match v with
  | JArray l => fold_right (fun x acc => Z.max (1 + tree_depth x) acc) 1 l
  | JObject l => fold_right (fun kv acc => Z.max (1 + tree_depth kv.2) (Z.max 2 acc)) 1 l
  | _ => 1
  end%Z.

(** Every object's keys are strictly ascending. *)
Fixpoint keys_sorted (v : JValue) : Prop :=
  match v with
  | JArray l => fold_right (fun x acc => keys_sorted x /\ acc) True l
  | JObject l =>
      ascending l.*1 /\ fold_right (fun kv acc => keys_sorted kv.2 /\ acc) True l
  | _ => True
  end.

Definition within_limits (v : JValue) : Prop :=
  (tree_depth v <= 128 /\ tree_size v <= MAX_EXPANDED_NODES)%Z /\ keys_sorted v.
End Values.
