(* ===== verification/CodecIntern.v ===== *)
(** Correctness of the hash-consing builder and of the serializer.

    [BInv] is the builder's invariant: the table denotes values, holds no node
    twice, and every node is in the bucket of its hash.  [serialize] is related
    to [to_value] by a small Hoare logic over builders: [triple P a r cost Q]
    says that from a builder satisfying [P] with room for [cost] more nodes, the
    action [a] computes what the specification result [r] says. *)

From S2P Require Export CodecSpec.

Section Tables.
Context `{SerdeNumber}.

Lemma mapM_lookup_prefix {A B} (f g : A -> option B) l r :
  (forall x y, f x = Some y -> g x = Some y) -> mapM f l = Some r -> mapM g l = Some r.
Proof.
  intros Hfg. rewrite !mapM_Some. intros Hl. eapply Forall2_impl; [exact Hl|]. auto.
Qed.

Lemma entry_of_prefix vals vals' kv e :
  vals `prefix_of` vals' -> entry_of vals kv = Some e -> entry_of vals' kv = Some e.
Proof.
  unfold entry_of. intros Hp.
  destruct (vals !! N.to_nat kv.1) as [k|] eqn:E1; [|done].
  destruct (vals !! N.to_nat kv.2) as [v|] eqn:E2; [|by destruct k].
  by rewrite (prefix_lookup_Some _ _ _ _ E1 Hp), (prefix_lookup_Some _ _ _ _ E2 Hp).
Qed.

Lemma value_of_prefix vals vals' node v :
  vals `prefix_of` vals' -> value_of vals node = Some v -> value_of vals' node = Some v.
Proof.
  intros Hp. destruct node as [| | | |refs|o]; cbn; try done; rewrite !fmap_Some.
  - intros (l & Hl & ->). exists l. split; [|done]. revert Hl. apply mapM_lookup_prefix.
    intros x y Hx. by eapply prefix_lookup_Some.
  - intros (l & Hl & ->). exists l. split; [|done]. revert Hl. apply mapM_lookup_prefix.
    intros x y. by apply entry_of_prefix.
Qed.

Lemma Table_nil : Table [] [].
Proof. split; [done|]. intros i node. by rewrite lookup_nil. Qed.

Lemma Table_snoc nodes vals node v :
  Table nodes vals -> value_of vals node = Some v -> Table (nodes ++ [node]) (vals ++ [v]).
Proof.
  intros [Hl Ht] Hv. split; [rewrite !length_app; cbn; lia|].
  intros i n Hi. destruct (decide (i < length nodes)) as [Hlt|Hge].
  - rewrite lookup_app_l in Hi by done. rewrite take_app_le by lia.
    rewrite lookup_app_l by lia. by apply Ht.
  - pose proof (lookup_lt_Some _ _ _ Hi) as Hb. rewrite length_app in Hb. cbn in Hb.
    assert (i = length vals) as -> by lia.
    rewrite Hl, list_lookup_middle in Hi by done. injection Hi as <-.
    by rewrite take_app_length, list_lookup_middle.
Qed.

Lemma Table_value nodes vals i node :
  Table nodes vals -> nodes !! i = Some node ->
  exists v, vals !! i = Some v /\ value_of (take i vals) node = Some v.
Proof.
  intros [Hl Ht] Hi. destruct (vals !! i) as [v|] eqn:E.
  - exists v. split; [done|]. by rewrite (Ht _ _ Hi).
  - apply lookup_ge_None in E. apply lookup_lt_Some in Hi. lia.
Qed.

Lemma Table_value_of nodes vals i node v :
  Table nodes vals -> nodes !! i = Some node -> vals !! i = Some v ->
  value_of vals node = Some v.
Proof.
  intros Ht Hi Hv. destruct (Table_value _ _ _ _ Ht Hi) as (v' & Hv' & Hn).
  assert (v' = v) as -> by congruence.
  eapply value_of_prefix; [|exact Hn]. apply prefix_take.
Qed.

(** References of a denoting node are in range. *)
Lemma value_of_refs vals node v r :
  value_of vals node = Some v -> r ∈ node_refs node ->
  exists w, vals !! N.to_nat r = Some w /\ w ∈ children v.
Proof.
  destruct node as [| | | |refs|o]; cbn; try (by intros _ ?%elem_of_nil).
  - rewrite fmap_Some. intros (l & Hl & ->) Hr. apply mapM_Some in Hl.
    apply list_elem_of_lookup in Hr as [i Hi].
    destruct (Forall2_lookup_l _ _ _ _ _ Hl Hi) as (w & Hw & Hrw).
    exists w. split; [done|]. cbn. by eapply list_elem_of_lookup_2.
  - rewrite fmap_Some. intros (l & Hl & ->) Hr. apply mapM_Some in Hl.
    apply list_elem_of_In, in_flat_map in Hr as ([k x] & Hkx & Hr).
    apply list_elem_of_In, list_elem_of_lookup in Hkx as [i Hi].
    destruct (Forall2_lookup_l _ _ _ _ _ Hl Hi) as ([s w] & Hw & He).
    unfold entry_of in He; cbn in He.
    destruct (vals !! N.to_nat k) as [[| | |s'| |]|] eqn:Ek; try done.
    destruct (vals !! N.to_nat x) as [w'|] eqn:Ex; [|done]. injection He as -> ->.
    destruct Hr as [<-|[<-|[]]]; eexists; (split; [eassumption|]); cbn;
      apply list_elem_of_In, in_flat_map; exists (s, w);
      (split; [by eapply list_elem_of_In, list_elem_of_lookup_2|cbn; tauto]).
Qed.

Lemma Table_refs_lt nodes vals i node r :
  Table nodes vals -> nodes !! i = Some node -> r ∈ node_refs node -> N.to_nat r < i.
Proof.
  intros Ht Hi Hr. destruct (Table_value _ _ _ _ Ht Hi) as (v & _ & Hn).
  destruct (value_of_refs _ _ _ _ Hn Hr) as (w & Hw & _).
  apply lookup_lt_Some in Hw. rewrite length_take in Hw. lia.
Qed.

(** A node is determined by its value when ids are determined by values. *)
Lemma value_of_inj vals n1 n2 v :
  NoDup vals -> value_of vals n1 = Some v -> value_of vals n2 = Some v -> n1 = n2.
Proof.
  intros Hnd.
  assert (forall r s w, vals !! N.to_nat r = Some w -> vals !! N.to_nat s = Some w -> r = s)
    as Hinj.
  { intros r s w Hr Hs. apply N2Nat.inj. by eapply NoDup_lookup. }
  destruct n1 as [| | | |a1|o1], n2 as [| | | |a2|o2]; cbn; try congruence;
    rewrite ?fmap_Some; try (by intros ? (? & ? & ?); congruence);
    try (by intros (? & ? & ->) ?; congruence);
    try (by intros (? & ? & ->) (? & ? & ?); congruence).
  - intros (l & Hl & ->) (l' & Hl' & [= <-]). f_equal.
    apply mapM_Some in Hl, Hl'. revert a2 Hl'.
    induction Hl as [|x y a1 l Hx Hl IH]; intros a2 Hl'; inversion Hl'; subst; [done|].
    f_equal; eauto.
  - intros (l & Hl & ->) (l' & Hl' & [= <-]). f_equal.
    apply mapM_Some in Hl, Hl'. revert o2 Hl'.
    induction Hl as [|[k x] [s y] o1 l Hx Hl IH]; intros o2 Hl';
      inversion Hl' as [|[k' x'] ? ? ? Hx']; subst; [done|].
    f_equal; [|eauto]. unfold entry_of in Hx, Hx'; cbn in Hx, Hx'.
    destruct (vals !! N.to_nat k) as [[| | |s1| |]|] eqn:E1; try done.
    destruct (vals !! N.to_nat x) as [w|] eqn:E2; [|done]. injection Hx as -> ->.
    destruct (vals !! N.to_nat k') as [[| | |s1| |]|] eqn:E3; try done.
    destruct (vals !! N.to_nat x') as [w|] eqn:E4; [|done]. injection Hx' as -> ->.
    f_equal; eauto.
Qed.

(** Hash-consing makes denotation injective. *)
Lemma Table_NoDup nodes vals : Table nodes vals -> NoDup nodes -> NoDup vals.
Proof.
  intros Ht Hnd.
  assert (forall k, k <= length vals -> NoDup (take k vals)) as Hk.
  { induction k as [|k IH]; intros Hle; [constructor|].
    destruct (lookup_lt_is_Some_2 vals k) as [v Hv]; [lia|].
    rewrite (take_S_r _ _ _ Hv). apply NoDup_app. split; [apply IH; lia|].
    split; [|apply NoDup_singleton].
    intros w Hw ->%list_elem_of_singleton.
    apply list_elem_of_lookup in Hw as [j Hj].
    pose proof (lookup_lt_Some _ _ _ Hj) as Hjk. rewrite length_take in Hjk.
    rewrite lookup_take_lt in Hj by lia.
    destruct Ht as [Hlen Ht].
    destruct (lookup_lt_is_Some_2 nodes k) as [nk Hnk]; [lia|].
    destruct (lookup_lt_is_Some_2 nodes j) as [nj Hnj]; [lia|].
    pose proof (Ht _ _ Hnk) as Hvk. pose proof (Ht _ _ Hnj) as Hvj.
    rewrite Hv in Hvk. rewrite Hj in Hvj.
    assert (value_of (take k vals) nj = Some v) as Hvj'.
    { eapply value_of_prefix; [|exact Hvj].
      replace (take j vals) with (take j (take k vals)); [apply prefix_take|].
      rewrite take_take. f_equal. lia. }
    assert (nk = nj) as -> by (eapply value_of_inj; [apply IH; lia|exact Hvk|exact Hvj']).
    assert (k = j) by (by eapply NoDup_lookup). lia. }
  rewrite <- (take_ge vals (length vals)) by lia. by apply Hk.
Qed.

Lemma edge_prefix nodes nodes' i j :
  nodes `prefix_of` nodes' -> edge nodes i j -> edge nodes' i j.
Proof.
  intros Hp (node & Hn & Hj). exists node. split; [|done].
  by eapply prefix_lookup_Some.
Qed.

Lemma reach_prefix nodes nodes' i j :
  nodes `prefix_of` nodes' -> reach nodes i j -> reach nodes' i j.
Proof.
  intros Hp. induction 1 as [|x y z Hxy _ IH]; [constructor|].
  eapply rtc_l; [|exact IH]. by eapply edge_prefix.
Qed.
End Tables.

Section Interning.
Context `{SerdeNumber} {hasher : NodeHasher}.

Definition bucket_of (b : Builder) (h : N) : list N := default [] (b_ids b !! h).

Record BInv (b : Builder) (vals : list JValue) : Prop := {
  binv_table : Table (b_nodes b) vals;
  binv_nodup : NoDup (b_nodes b);
  binv_complete : forall i node,
    b_nodes b !! i = Some node -> N.of_nat i ∈ bucket_of b (hash_node node);
  binv_valid : forall h id,
    id ∈ bucket_of b h -> is_Some (b_nodes b !! N.to_nat id)
}.

Lemma BInv_empty : BInv {| b_nodes := []; b_ids := ∅ |} [].
Proof.
  split; cbn.
  - apply Table_nil.
  - constructor.
  - intros i node. by rewrite lookup_nil.
  - intros h id. unfold bucket_of; cbn. rewrite lookup_empty; cbn. by intros ?%elem_of_nil.
Qed.

(** Later builders extend earlier ones. *)
Record Step (b : Builder) (vals : list JValue) (b' : Builder) (vals' : list JValue)
  : Prop := {
  step_inv : BInv b' vals';
  step_nodes : b_nodes b `prefix_of` b_nodes b';
  step_vals : vals `prefix_of` vals'
}.

Lemma Step_refl b vals : BInv b vals -> Step b vals b vals.
Proof. by split. Qed.

Lemma Step_trans b1 v1 b2 v2 b3 v3 :
  Step b1 v1 b2 v2 -> Step b2 v2 b3 v3 -> Step b1 v1 b3 v3.
Proof. intros [] []. split; [done|by etrans|by etrans]. Qed.

(** Nodes from position [base] on are reachable from the ids in [held]. *)
Definition Cov (base : nat) (b : Builder) (held : list N) : Prop :=
  forall i, base <= i < length (b_nodes b) ->
  exists r, r ∈ held /\ reach (b_nodes b) r (N.of_nat i).

Lemma Cov_mono base b held held' :
  (forall r, r ∈ held -> r ∈ held') -> Cov base b held -> Cov base b held'.
Proof. intros Hs Hc i Hi. destruct (Hc i Hi) as (r & ? & ?). eauto. Qed.

Lemma find_in_bucket_ok nodes node bucket :
  (forall id, id ∈ bucket -> is_Some (nodes !! N.to_nat id)) ->
  (exists id, find_in_bucket nodes node bucket = Ok (Some id)
              /\ nodes !! N.to_nat id = Some node)
  \/ (find_in_bucket nodes node bucket = Ok None
      /\ forall id, id ∈ bucket -> nodes !! N.to_nat id <> Some node).
Proof.
  induction bucket as [|id bucket IH]; intros Hv; cbn; [right; set_solver|].
  destruct (Hv id) as [n Hn]; [by left|].
  rewrite (proj2 (index_ok _ _ _) Hn). cbn. case_decide as Hd.
  - subst. left. eauto.
  - destruct IH as [?|[? Hno]]; [intros; apply Hv; by right|by left|].
    right. split; [done|]. intros id' [->|Hin]%elem_of_cons; [congruence|auto].
Qed.

(** A fresh node goes at the end of the table and of its bucket. *)
Lemma BInv_push b vals node v :
  BInv b vals -> value_of vals node = Some v -> node ∉ b_nodes b ->
  BInv {| b_nodes := b_nodes b ++ [node];
          b_ids := <[hash_node node :=
                       bucket_of b (hash_node node) ++ [N.of_nat (length (b_nodes b))]]>
                     (b_ids b) |}
       (vals ++ [v]).
Proof.
  intros [Ht Hnd Hc Hva] Hv Hfresh.
  assert (forall h, bucket_of {| b_nodes := b_nodes b ++ [node];
      b_ids := <[hash_node node := bucket_of b (hash_node node)
                   ++ [N.of_nat (length (b_nodes b))]]> (b_ids b) |} h =
      if decide (h = hash_node node)
      then bucket_of b h ++ [N.of_nat (length (b_nodes b))] else bucket_of b h) as Hb.
  { intros h. unfold bucket_of; cbn. case_decide as Hd.
    - subst. by rewrite lookup_insert_eq.
    - by rewrite lookup_insert_ne. }
  split; cbn.
  - by apply Table_snoc.
  - apply NoDup_app. split; [done|]. split; [|apply NoDup_singleton].
    by intros x Hx ->%list_elem_of_singleton.
  - intros i n Hi. rewrite Hb. destruct (decide (i < length (b_nodes b))) as [Hlt|Hge].
    + rewrite lookup_app_l in Hi by done. case_decide; [apply elem_of_app; left|]; auto.
    + pose proof (lookup_lt_Some _ _ _ Hi) as Hl. rewrite length_app in Hl. cbn in Hl.
      assert (i = length (b_nodes b)) as -> by lia.
      rewrite list_lookup_middle in Hi by done. injection Hi as <-.
      rewrite decide_True by done. set_solver.
  - intros h id. rewrite Hb. intros Hin.
    assert (id ∈ bucket_of b h \/ id = N.of_nat (length (b_nodes b))) as [Hin'| ->].
    { case_decide; [|by left]. apply elem_of_app in Hin as [?|?]; [by left|].
      right. by apply list_elem_of_singleton. }
    + destruct (Hva _ _ Hin') as [n Hn]. exists n. by apply lookup_app_l_Some.
    + exists node. rewrite Nat2N.id. by rewrite list_lookup_middle.
Qed.

(** ** The Hoare logic over builders *)

Definition triple {I T} (P : Builder -> list JValue -> Prop)
  (a : Builder -> Res (I * Builder)) (r : Res T) (cost : nat)
  (Q : I -> T -> Builder -> list JValue -> Prop) : Prop :=
  forall b vals, BInv b vals -> P b vals ->
  (Z.of_nat (length (b_nodes b) + cost) <= U32_MAX + 1)%Z ->
  match r with
  | Ok t => exists i b' vals', a b = Ok (i, b') /\ Step b vals b' vals' /\
      length (b_nodes b') <= length (b_nodes b) + cost /\ Q i t b' vals'
  | Err e => a b = Err e
  | Panic _ => False
  end.

(** Assertions that survive extension of the builder. *)
Definition stable (F : Builder -> list JValue -> Prop) : Prop :=
  forall b vals b' vals', Step b vals b' vals' -> F b vals -> F b' vals'.

Lemma stable_value id v : stable (fun _ vals => vals !! N.to_nat id = Some v).
Proof. intros b vals b' vals' [_ _ Hp] Hv. by eapply prefix_lookup_Some. Qed.

Lemma stable_node id n : stable (fun b _ => b_nodes b !! N.to_nat id = Some n).
Proof. intros b vals b' vals' [_ Hp _] Hv. by eapply prefix_lookup_Some. Qed.

Lemma stable_values ids vs :
  stable (fun _ vals => Forall2 (fun id v => vals !! N.to_nat id = Some v) ids vs).
Proof.
  intros b vals b' vals' [_ _ Hp] Hv. eapply Forall2_impl; [exact Hv|].
  intros ? ? Hx. cbn in *. exact (prefix_lookup_Some _ _ _ _ Hx Hp).
Qed.

Lemma stable_entries kvs es :
  stable (fun _ vals => Forall2 (fun kv e => entry_of vals kv = Some e) kvs es).
Proof.
  intros b vals b' vals' [_ _ Hp] Hv. eapply Forall2_impl; [exact Hv|].
  intros ? ? Hx. exact (entry_of_prefix _ _ _ _ Hp Hx).
Qed.

Lemma stable_and F G : stable F -> stable G -> stable (fun b vals => F b vals /\ G b vals).
Proof. intros HF HG b vals b' vals' Hs [? ?]. split; [by eapply HF|by eapply HG]. Qed.

Lemma triple_ret {I T} P (i : I) (t : T) cost (Q : I -> T -> _ -> _ -> Prop) :
  (forall b vals, P b vals -> Q i t b vals) -> triple P (fun b => Ok (i, b)) (Ok t) cost Q.
Proof.
  intros HQ b vals Hb HP _. exists i, b, vals. split; [done|].
  split; [by apply Step_refl|]. split; [lia|auto].
Qed.

Lemma triple_bind {I T J U} P (a : Builder -> Res (I * Builder)) (r : Res T) c1
  (Q : I -> T -> _ -> _ -> Prop) (f : I -> Builder -> Res (J * Builder)) (g : T -> Res U)
  c2 c (R : J -> U -> _ -> _ -> Prop) :
  triple P a r c1 Q -> (forall i t, triple (Q i t) (f i) (g t) c2 R) -> c1 + c2 <= c ->
  triple P (fun b => '(i, b) ← a b; f i b) (t ← r; g t) c R.
Proof.
  intros Ha Hf Hc b vals Hb HP Hbudget.
  specialize (Ha b vals Hb HP ltac:(lia)). destruct r as [t|e|m]; cbn; [|by rewrite Ha|done].
  destruct Ha as (i & b1 & vals1 & -> & Hs1 & Hl1 & HQ). cbn.
  specialize (Hf i t b1 vals1 (step_inv _ _ _ _ Hs1) HQ ltac:(lia)).
  destruct (g t) as [u|e|m]; [|done|done].
  destruct Hf as (j & b2 & vals2 & -> & Hs2 & Hl2 & HR).
  exists j, b2, vals2. split; [done|]. split; [by eapply Step_trans|]. split; [lia|done].
Qed.

Lemma triple_conseq {I T} (P P' : _ -> _ -> Prop) (a : Builder -> Res (I * Builder))
  (r : Res T) c c' (Q Q' : I -> T -> _ -> _ -> Prop) :
  triple P a r c Q -> (forall b vals, P' b vals -> P b vals) ->
  (forall i t b vals, Q i t b vals -> Q' i t b vals) -> c <= c' -> triple P' a r c' Q'.
Proof.
  intros Ht HP HQ Hc b vals Hb HP' Hbudget.
  specialize (Ht b vals Hb (HP _ _ HP') ltac:(lia)). destruct r; [|done|done].
  destruct Ht as (i & b1 & vals1 & ? & ? & ? & ?).
  exists i, b1, vals1. split; [done|]. split; [done|]. split; [lia|auto].
Qed.

Lemma triple_frame {I T} P (a : Builder -> Res (I * Builder)) (r : Res T) c Q F :
  triple P a r c Q -> stable F ->
  triple (fun b vals => P b vals /\ F b vals) a r c (fun i t b vals => Q i t b vals /\ F b vals).
Proof.
  intros Ht HF b vals Hb [HP HFb] Hbudget. specialize (Ht b vals Hb HP Hbudget).
  destruct r; [|done|done]. destruct Ht as (i & b1 & vals1 & ? & Hs & ? & ?).
  exists i, b1, vals1. split; [done|]. split; [done|]. split; [done|].
  split; [done|by eapply HF].
Qed.

(** ** [Builder::intern] *)

Lemma intern_triple base held node v :
  triple (fun b vals => Cov base b (held ++ node_refs node) /\ value_of vals node = Some v)
         (intern node) (Ok v) 1
         (fun id v' b vals => Cov base b (held ++ [id]) /\ vals !! N.to_nat id = Some v'
            /\ b_nodes b !! N.to_nat id = Some node).
Proof.
  intros b vals Hb [Hcov Hv] Hbudget. unfold intern.
  assert (forall id b', b_nodes b' !! N.to_nat id = Some node ->
            Cov base b' (held ++ node_refs node) -> Cov base b' (held ++ [id])) as Hroot.
  { intros id b' Hid Hc i Hi. destruct (Hc i Hi) as (r & Hr & Hri).
    apply elem_of_app in Hr as [Hr|Hr].
    - exists r. split; [apply elem_of_app; by left|done].
    - exists id. split; [set_solver|]. eapply rtc_l; [|exact Hri]. by exists node. }
  destruct (find_in_bucket_ok (b_nodes b) node (bucket_of b (hash_node node)))
    as [(id & Hf & Hid)|[Hf Hno]]; [by apply Hb| |].
  - unfold bucket_of in Hf. rewrite Hf. cbn. exists id, b, vals.
    destruct (Table_value _ _ _ _ (binv_table _ _ Hb) Hid) as (w & Hw & _).
    pose proof (Table_value_of _ _ _ _ _ (binv_table _ _ Hb) Hid Hw) as Hw'.
    repeat split; try done; try apply Hb; try lia; [by eapply Hroot|congruence].
  - unfold bucket_of in Hf. rewrite Hf. cbn.
    rewrite (proj2 (Z.leb_le _ _)) by lia. cbn.
    assert (node ∉ b_nodes b) as Hfresh.
    { intros Hin. apply list_elem_of_lookup in Hin as [i Hi].
      eapply (Hno (N.of_nat i)); [by apply Hb|by rewrite Nat2N.id]. }
    pose proof (BInv_push _ _ _ _ Hb Hv Hfresh) as Hb'.
    eexists _, _, (vals ++ [v]). split; [done|].
    assert (length vals = length (b_nodes b)) as Hlen by apply Hb.
    repeat split; try apply Hb'; cbn.
    + by eexists.
    + by eexists.
    + rewrite length_app. cbn. lia.
    + intros i Hi. cbn in Hi. rewrite length_app in Hi. cbn in Hi.
      destruct (decide (i = length (b_nodes b))) as [->|Hne].
      { eexists. split; [apply elem_of_app; right; by left|]. constructor. }
      assert (Cov base {| b_nodes := b_nodes b ++ [node]; b_ids := ∅ |}
                (held ++ [N.of_nat (length (b_nodes b))])) as Hc.
      { intros j Hj. destruct (decide (j = length (b_nodes b))) as [->|Hnj].
        { eexists. split; [apply elem_of_app; right; by left|]. constructor. }
        cbn in *. rewrite length_app in Hj; cbn in Hj.
        destruct (Hcov j) as (r & Hr & Hri); [lia|].
        eapply reach_prefix in Hri; [|by exists [node]].
        apply elem_of_app in Hr as [Hr|Hr].
        - exists r. split; [apply elem_of_app; by left|done].
        - eexists. split; [apply elem_of_app; right; by left|].
          eapply rtc_l; [|exact Hri]. exists node. split; [|done].
          by rewrite Nat2N.id, list_lookup_middle. }
      apply (Hc i). cbn. rewrite length_app. cbn. lia.
    + by rewrite Nat2N.id, list_lookup_middle.
    + by rewrite Nat2N.id, list_lookup_middle.
Qed.
End Interning.
