(* ===== verification/CodecSerialize.v ===== *)
(** The serializer computes [to_value].

    [emits a r cost] is the contract of a serializer call: from any builder with
    room for [cost] nodes it fails with the specification's error, or returns an
    id that denotes the specification's value and from which every node the call
    added is reachable.  [serialize_emits] proves it for every value. *)

From S2P Require Export CodecIntern.

Section Serialize.
Context `{SerdeNumber} {hasher : NodeHasher}.

Definition emits (a : Action) (r : Res JValue) (cost : nat) : Prop :=
  forall base held,
  triple (fun b _ => Cov base b held) a r cost
    (fun id v b vals => Cov base b (held ++ [id]) /\ vals !! N.to_nat id = Some v).

Definition pair_refs (kv : N * N) : list N := [kv.1; kv.2].
Definition comp_refs (c : Compound) : list N :=
  if object c then flat_map pair_refs (fields c) else values c.

(** The values collected so far by a compound serializer. *)
Definition holds_values (c : Compound) (vs : list JValue) (vals : list JValue) : Prop :=
  Forall2 (fun id v => vals !! N.to_nat id = Some v) (values c) vs.
Definition holds_fields (c : Compound) (es : list (string * JValue)) (vals : list JValue)
  : Prop := Forall2 (fun kv e => entry_of vals kv = Some e) (fields c) es.

Lemma triple_eq {I T} P (a a' : Builder -> Res (I * Builder)) (r r' : Res T) c Q :
  triple P a r c Q -> (forall b, a b = a' b) -> r = r' -> triple P a' r' c Q.
Proof. intros Ht Ha <- b vals. rewrite <- Ha. apply Ht. Qed.

(** A fact the precondition implies may be assumed. *)
Lemma triple_pure {I T} (X : Prop) P (a : Builder -> Res (I * Builder)) (r : Res T) c Q :
  (forall b vals, P b vals -> X) -> (X -> triple P a r c Q) -> triple P a r c Q.
Proof. intros HX Ht b vals Hb HP. exact (Ht (HX _ _ HP) b vals Hb HP). Qed.

(** The specification result is known in the postcondition. *)
Lemma triple_result {I T} P (a : Builder -> Res (I * Builder)) (r : Res T) c Q :
  triple P a r c Q -> triple P a r c (fun i t b vals => Q i t b vals /\ r = Ok t).
Proof.
  intros Ht b vals Hb HP Hbudget. specialize (Ht b vals Hb HP Hbudget).
  destruct r; [|done|done]. destruct Ht as (i & b' & vals' & ? & ? & ? & ?).
  by exists i, b', vals'.
Qed.

(** ** Leaves *)

Lemma intern_leaf_emits node v cost :
  node_refs node = [] -> (forall vals, value_of vals node = Some v) -> 1 <= cost ->
  emits (intern node) (Ok v) cost.
Proof.
  intros Hr Hv Hc base held. eapply triple_conseq; [apply (intern_triple base held node v)| | |done].
  - intros b vals Hcov. rewrite Hr, app_nil_r. auto.
  - cbn. intros id v' b vals (? & ? & _). done.
Qed.

Lemma number_emits (o : option Number) :
  emits (fun b => n ← ok_or "integer outside frozen JSON range" o; intern (NodeI n) b)
    (number_or_err o) 1.
Proof.
  destruct o as [n|]; cbn; [|by intros base held b vals].
  by apply intern_leaf_emits.
Qed.

Lemma float_emits bits : emits (serialize_f64 bits) (Ok (float_value bits)) 1.
Proof.
  unfold serialize_f64, float_value. destruct (number_from_f64 bits); by apply intern_leaf_emits.
Qed.

(** ** Sequences *)

(** Reading a sequence: the values collected in [c] are [vs]. *)
Definition Elems (base : nat) (held : list N) (ob : bool) (va : option N)
  (c : Compound) (vs : list JValue) (b : Builder) (vals : list JValue) : Prop :=
  Cov base b (held ++ values c) /\ holds_values c vs vals /\ object c = ob /\ variant c = va.

Lemma serialize_element_triple base held ob va c vs0 a r cost :
  emits a r cost ->
  triple (Elems base held ob va c vs0) (serialize_element c a)
    (v ← r; Ok (vs0 ++ [v])) cost (Elems base held ob va).
Proof.
  intros Ha. unfold serialize_element.
  eapply triple_bind with (c1 := cost) (c2 := 0); [| |lia].
  - eapply triple_conseq with
      (P := fun b vals => Cov base b (held ++ values c) /\ holds_values c vs0 vals /\
                          object c = ob /\ variant c = va); [| |intros i t b vals HQ; exact HQ|done].
    + apply triple_frame; [apply (Ha base (held ++ values c))|].
      apply stable_and; [apply stable_values|by intros ? ? ? ?].
    + done.
  - intros id v. apply triple_ret. intros b vals [[Hc Hv] (Hvs & Ho & Hva)].
    unfold Elems, holds_values; cbn. rewrite app_assoc. split_and!; try done.
    apply Forall2_app; [done|by repeat constructor].
Qed.

Lemma drive_elements_triple {T} (ser : T -> Action) (val : T -> Res JValue)
  (cost : T -> nat) l :
  Forall (fun x => emits (ser x) (val x) (cost x)) l ->
  forall base held ob va c vs0,
  triple (Elems base held ob va c vs0) (drive_elements ser l c)
    (vs ← map_outcome val l; Ok (vs0 ++ vs)) (sum_list_with cost l)
    (Elems base held ob va).
Proof.
  induction 1 as [|x l Hx _ IH]; intros base held ob va c vs0.
  - eapply triple_eq; [by apply (triple_ret _ c vs0)|done|].
    cbn. by rewrite app_nil_r.
  - eapply triple_eq; [|by intros b|].
    + eapply triple_bind with (c1 := cost x) (c2 := sum_list_with cost l);
        [by apply (serialize_element_triple base held ob va c vs0)| |done].
      intros c' vs. apply IH.
    + cbn. destruct (val x); cbn; try done. destruct (map_outcome val l); cbn; try done.
      by rewrite <- app_assoc.
Qed.

(** ** Objects *)

Definition Fields (base : nat) (held : list N) (ob : bool) (va : option N)
  (c : Compound) (es : list (string * JValue)) (b : Builder) (vals : list JValue) : Prop :=
  Cov base b (held ++ flat_map pair_refs (fields c)) /\ holds_fields c es vals
  /\ object c = ob /\ variant c = va.

Lemma push_field base held (fs : list (N * N)) kid vid b :
  Cov base b (((held ++ flat_map pair_refs fs) ++ [kid]) ++ [vid]) ->
  Cov base b (held ++ flat_map pair_refs (fs ++ [(kid, vid)])).
Proof.
  apply Cov_mono. intros r. rewrite flat_map_app. cbn. set_solver.
Qed.

Lemma holds_fields_snoc c es kid vid k v vals :
  holds_fields c es vals -> vals !! N.to_nat kid = Some (JString k) ->
  vals !! N.to_nat vid = Some v ->
  Forall2 (fun kv e => entry_of vals kv = Some e) (fields c ++ [(kid, vid)]) (es ++ [(k, v)]).
Proof.
  intros Hf Hk Hv. apply Forall2_app; [done|]. repeat constructor.
  unfold entry_of; cbn. by rewrite Hk, Hv.
Qed.

(** A struct field: the key is interned before the value. *)
Lemma serialize_field_triple base held ob va c es0 k a r cost :
  emits a r cost ->
  triple (Fields base held ob va c es0) (serialize_field c k a)
    (v ← r; Ok (es0 ++ [(k, v)])) (1 + cost) (Fields base held ob va).
Proof.
  intros Ha. unfold serialize_field, compound_field.
  pose (F := fun (b : Builder) vals => holds_fields c es0 vals /\ object c = ob /\ variant c = va).
  assert (stable F) as HF
    by (apply stable_and; [apply stable_entries|by intros ? ? ? ?]).
  eapply triple_eq with (r := kv ← Ok (JString k); v ← r; Ok (es0 ++ [(k, v)]));
    [|done|done].
  eapply triple_bind with (c1 := 1) (c2 := cost); [| |lia].
  { eapply triple_conseq; [apply triple_result, triple_frame; [|exact HF];
      apply (intern_leaf_emits (NodeS k) (JString k) 1); done| | |done].
    - intros b vals [Hc HFb]. split; [exact Hc|exact HFb].
    - intros i t b vals HQ. exact HQ. }
  intros kid kv. cbn beta. apply (triple_pure (kv = JString k)).
  { intros b vals [_ [= ->]]. done. }
  intros ->.
  eapply triple_bind with (c1 := cost) (c2 := 0); [| |lia].
  { eapply triple_conseq; [apply triple_frame; [apply (Ha base)|];
      apply stable_and; [exact HF|apply (stable_value kid (JString k))]| | |done].
    - intros b vals [[[Hc Hk] HFb] _]. split; [exact Hc|]. split; [exact HFb|exact Hk].
    - intros i t b vals HQ. exact HQ. }
  intros vid v. apply triple_ret. intros b vals [[Hc Hv] [(Hes & Ho & Hva) Hk]].
  unfold Fields, holds_fields; cbn. split_and!; try done.
  - by apply push_field.
  - by apply holds_fields_snoc.
Qed.

Lemma drive_fields_triple {T} (ser : T -> Action) (val : T -> Res JValue)
  (cost : T -> nat) l :
  Forall (fun kx => emits (ser kx.2) (val kx.2) (cost kx.2)) l ->
  forall base held ob va c es0,
  triple (Fields base held ob va c es0) (drive_fields ser l c)
    (es ← map_outcome (fun '(k, x) => v ← val x; Ok (k, v)) l; Ok (es0 ++ es))
    (sum_list_with (fun kx => 1 + cost kx.2) l)
    (Fields base held ob va).
Proof.
  induction 1 as [|[k x] l Hx _ IH]; intros base held ob va c es0.
  - eapply triple_eq; [by apply (triple_ret _ c es0)|done|].
    cbn. by rewrite app_nil_r.
  - eapply triple_eq; [|by intros b|].
    + eapply triple_bind with (c1 := 1 + cost x)
        (c2 := sum_list_with (fun kx => 1 + cost kx.2) l);
        [by apply (serialize_field_triple base held ob va c es0 k)| |done].
      intros c' es. apply IH.
    + cbn. destruct (val x); cbn; try done.
      destruct (map_outcome _ l); cbn; try done. by rewrite <- app_assoc.
Qed.

(** A map key must come back as a string node. *)
Lemma serialize_key_triple base held ob va c es0 a r cost :
  emits a r cost ->
  triple (Fields base held ob va c es0) (serialize_key c a)
    (kv ← r; key_of kv) cost
    (fun c' k b vals => exists kid, key c' = Some kid /\ fields c' = fields c /\
       Cov base b ((held ++ flat_map pair_refs (fields c)) ++ [kid]) /\
       vals !! N.to_nat kid = Some (JString k) /\ holds_fields c es0 vals /\
       object c' = ob /\ variant c' = va).
Proof.
  intros Ha b vals Hb (Hc & Hes & Ho & Hva) Hbudget.
  specialize (Ha base _ b vals Hb Hc Hbudget). unfold serialize_key.
  destruct r as [kv|e|m]; cbn; [|by rewrite Ha|done].
  destruct Ha as (kid & b1 & vals1 & -> & Hs & Hl & Hc1 & Hk). cbn.
  destruct (binv_table _ _ (step_inv _ _ _ _ Hs)) as [Hlen Ht].
  destruct (lookup_lt_is_Some_2 (b_nodes b1) (N.to_nat kid)) as [n Hn].
  { rewrite <- Hlen. by eapply lookup_lt_Some. }
  rewrite (proj2 (index_ok _ _ _) Hn). cbn.
  pose proof (Ht _ _ Hn) as Hval. rewrite Hk in Hval.
  assert (holds_fields c es0 vals1) as Hes1 by (by eapply (stable_entries (fields c)), Hes).
  destruct n as [| | | |refs|o]; cbn in Hval;
    try (by injection Hval as <-);
    try (apply fmap_Some in Hval as (? & _ & ->); done).
  injection Hval as <-. cbn. eexists _, b1, vals1. split; [done|]. split; [done|].
  split; [done|]. exists kid. cbn. split_and!; try done.
Qed.

Lemma serialize_value_triple base held ob va c es0 k a r cost :
  emits a r cost ->
  triple (fun b vals => exists kid, key c = Some kid /\
       Cov base b ((held ++ flat_map pair_refs (fields c)) ++ [kid]) /\
       vals !! N.to_nat kid = Some (JString k) /\ holds_fields c es0 vals /\
       object c = ob /\ variant c = va)
    (serialize_value c a) (v ← r; Ok (es0 ++ [(k, v)])) cost (Fields base held ob va).
Proof.
  intros Ha b vals Hb (kid & Hkey & Hc & Hk & Hes & Ho & Hva) Hbudget.
  specialize (Ha base _ b vals Hb Hc Hbudget). unfold serialize_value. rewrite Hkey. cbn.
  destruct r as [v|e|m]; cbn; [|by rewrite Ha|done].
  destruct Ha as (vid & b1 & vals1 & -> & Hs & Hl & Hc1 & Hv). cbn.
  eexists _, b1, vals1. split; [done|]. split; [done|]. split; [done|].
  unfold Fields, holds_fields; cbn. split_and!; try done.
  - by apply push_field.
  - apply holds_fields_snoc; [by eapply (stable_entries (fields c)), Hes| |done].
    by eapply (stable_value kid).
Qed.

Lemma drive_entries_triple {T} (ser : T -> Action) (val : T -> Res JValue)
  (cost : T -> nat) l :
  Forall (fun kx => emits (ser kx.1) (val kx.1) (cost kx.1) /\
                    emits (ser kx.2) (val kx.2) (cost kx.2)) l ->
  forall base held ob va c es0,
  triple (Fields base held ob va c es0) (drive_entries ser l c)
    (es ← map_outcome (fun '(k, x) =>
       kv ← val k; key ← key_of kv; v ← val x; Ok (key, v)) l; Ok (es0 ++ es))
    (sum_list_with (fun kx => cost kx.1 + cost kx.2) l)
    (Fields base held ob va).
Proof.
  induction 1 as [|[k x] l [Hk Hx] _ IH]; intros base held ob va c es0.
  - eapply triple_eq; [by apply (triple_ret _ c es0)|done|].
    cbn. by rewrite app_nil_r.
  - eapply triple_eq; [|by intros b|].
    + eapply triple_bind with (c1 := cost k)
        (c2 := cost x + sum_list_with (fun kx => cost kx.1 + cost kx.2) l);
        [by apply (serialize_key_triple base held ob va c es0)| |cbn; lia].
      intros c1 key.
      eapply triple_bind with (c1 := cost x)
        (c2 := sum_list_with (fun kx => cost kx.1 + cost kx.2) l)
        (g := fun es1 => es ← map_outcome (fun '(k, x) =>
           kv ← val k; key ← key_of kv; v ← val x; Ok (key, v)) l; Ok (es1 ++ es));
        [|intros c2 es; apply IH|done].
      eapply triple_conseq; [by apply (serialize_value_triple base held ob va c1 es0 key)| |
        intros ? ? ? ? HQ; exact HQ|done].
      intros b vals (kid & Hkey & Hf & Hc & Hkv & Hes & Ho & Hva).
      exists kid. unfold holds_fields in *. rewrite Hf. split_and!; done.
    + cbn. destruct (val k) as [kv| |]; cbn; try done.
      destruct (key_of kv); cbn; try done. destruct (val x); cbn; try done.
      destruct (map_outcome _ l); cbn; try done. by rewrite <- app_assoc.
Qed.

(** ** Closing a compound *)

Lemma entry_of_key nodes vals kv e :
  Table nodes vals -> entry_of vals kv = Some e -> key_string nodes kv.1 = Ok e.1.
Proof.
  unfold entry_of, key_string. intros Ht He.
  destruct (vals !! N.to_nat kv.1) as [[| | |s| |]|] eqn:Ek; try done.
  destruct (vals !! N.to_nat kv.2); [|done]. injection He as <-. cbn.
  destruct Ht as [Hlen Ht].
  destruct (lookup_lt_is_Some_2 nodes (N.to_nat kv.1)) as [n Hn].
  { rewrite <- Hlen. by eapply lookup_lt_Some. }
  rewrite (proj2 (index_ok _ _ _) Hn). cbn. pose proof (Ht _ _ Hn) as Hv. rewrite Ek in Hv.
  destruct n as [| | | |refs|o]; cbn in Hv; try done; [by injection Hv as ->| |];
    apply fmap_Some in Hv as (? & _ & ?); done.
Qed.

Lemma insert_field_spec nodes vals x e fs es :
  Table nodes vals -> entry_of vals x = Some e ->
  Forall2 (fun kv e => entry_of vals kv = Some e) fs es ->
  exists fs', insert_field nodes x fs = Ok fs' /\ fs' ≡ₚ x :: fs /\
    Forall2 (fun kv e => entry_of vals kv = Some e) fs' (insert_by entry_leb e es).
Proof.
  intros Ht Hx. induction 1 as [|y e' fs es Hy Hes IH]; cbn.
  - exists [x]. repeat split; try done. by repeat constructor.
  - rewrite (entry_of_key _ _ _ _ Ht Hx), (entry_of_key _ _ _ _ Ht Hy). cbn.
    unfold entry_leb at 1. destruct (ord_leb e.1 e'.1).
    + exists (x :: y :: fs). repeat split; try done. by repeat constructor.
    + destruct IH as (fs' & -> & Hp & Hf). cbn. exists (y :: fs'). split; [done|].
      split; [by rewrite Hp; apply Permutation_swap|by constructor].
Qed.

Lemma sort_fields_spec nodes vals fs es :
  Table nodes vals -> Forall2 (fun kv e => entry_of vals kv = Some e) fs es ->
  exists fs', sort_fields nodes fs = Ok fs' /\ fs' ≡ₚ fs /\
    Forall2 (fun kv e => entry_of vals kv = Some e) fs' (sort_by entry_leb es).
Proof.
  intros Ht. induction 1 as [|x e fs es Hx Hes IH]; cbn; [by exists []|].
  destruct IH as (fs1 & -> & Hp1 & Hf1). cbn.
  destruct (insert_field_spec _ _ _ _ _ _ Ht Hx Hf1) as (fs2 & -> & Hp2 & Hf2).
  exists fs2. split; [done|]. split; [by rewrite Hp2, Hp1|done].
Qed.

(** What [finish] builds from collected values or fields. *)
Definition wrap (key : option string) (v : JValue) : JValue :=
  match key with Some k => JObject [(k, v)] | None => v end.
Definition holds_variant (c : Compound) (key : option string) (vals : list JValue) : Prop :=
  match variant c, key with
  | Some kid, Some k => vals !! N.to_nat kid = Some (JString k)
  | None, None => True
  | _, _ => False
  end.

(** The node of the compound itself, before the variant wrapper. *)
Lemma finish_node base held c node v key :
  triple (fun b vals => Cov base b ((held ++ option_list (variant c)) ++ node_refs node) /\
      value_of vals node = Some v /\ holds_variant c key vals)
    (fun b => '(id, b) ← intern node b;
      match variant c with
      | Some key => intern (NodeO [(key, id)]) b
      | None => Ok (id, b)
      end)
    (Ok (wrap key v)) 2
    (fun id v b vals => Cov base b (held ++ [id]) /\ vals !! N.to_nat id = Some v).
Proof.
  eapply triple_eq with (r := v ← Ok v; Ok (wrap key v)); [|done|done].
  eapply triple_bind with (c1 := 1) (c2 := 1); [| |lia].
  { eapply triple_conseq; [apply triple_result, triple_frame;
      [apply (intern_triple base (held ++ option_list (variant c)) node v)|]| | |done].
    - apply (fun F => F : stable (fun _ vals => holds_variant c key vals)).
      unfold holds_variant. destruct (variant c), key; try (by intros ? ? ? ? _).
      apply stable_value.
    - intros b vals (? & ? & ?). done.
    - intros i t b vals HQ. exact HQ. }
  intros id w. apply (triple_pure (w = v)); [by intros b vals [_ [= ->]]|]. intros ->.
  unfold holds_variant, wrap. destruct (variant c) as [kid|] eqn:Hva, key as [k|]; cbn.
  - eapply triple_conseq; [apply (intern_triple base held (NodeO [(kid, id)]) (JObject [(k, v)]))
      | | |done].
    + intros b vals [[(Hc & Hv & _) Hk] _]. split.
      * revert Hc. apply Cov_mono. intros r. cbn. set_solver.
      * cbn. unfold entry_of; cbn. by rewrite Hk, Hv.
    + cbn. intros i t b vals (? & ? & _). done.
  - by intros b vals Hb [[_ []] _].
  - by intros b vals Hb [[_ []] _].
  - apply triple_ret. intros b vals [[(Hc & Hv & _) _] _]. split; [|done].
    by rewrite app_nil_r in Hc.
Qed.

Lemma finish_seq_triple base held c vs key :
  triple (fun b vals => Elems base (held ++ option_list (variant c)) false (variant c) c vs b vals
            /\ holds_variant c key vals)
    (finish c) (Ok (wrap key (JArray vs))) 2
    (fun id v b vals => Cov base b (held ++ [id]) /\ vals !! N.to_nat id = Some v).
Proof.
  intros b vals Hb [(Hc & Hv & Ho & _) Hk] Hbudget. unfold finish. rewrite Ho. cbn.
  apply (finish_node base held c (NodeA (values c)) (JArray vs) key b vals Hb); [|done].
  split; [done|]. split; [|done]. cbn. apply fmap_Some. exists vs. split; [|done].
  by apply mapM_Some.
Qed.

Lemma finish_object_triple base held c es key :
  triple (fun b vals => Fields base (held ++ option_list (variant c)) true (variant c) c es b vals
            /\ holds_variant c key vals)
    (finish c) (Ok (wrap key (object_of es))) 2
    (fun id v b vals => Cov base b (held ++ [id]) /\ vals !! N.to_nat id = Some v).
Proof.
  intros b vals Hb [(Hc & Hf & Ho & _) Hk] Hbudget. unfold finish. rewrite Ho. cbn.
  destruct (sort_fields_spec _ _ _ _ (binv_table _ _ Hb) Hf) as (fs & -> & Hp & Hfs). cbn.
  apply (finish_node base held c (NodeO fs) (object_of es) key b vals Hb); [|done].
  split; [|split; [|done]].
  - revert Hc. apply Cov_mono. intros r. rewrite !elem_of_app.
    intros [?|Hr]; [tauto|]. right. apply list_elem_of_In, in_flat_map in Hr as (kv & Hkv & Hr).
    apply list_elem_of_In, in_flat_map. exists kv. split; [|done].
    apply list_elem_of_In. rewrite Hp. by apply list_elem_of_In.
  - cbn. apply fmap_Some. exists (sort_by entry_leb es). split; [|done]. by apply mapM_Some.
Qed.

(** ** Every serializer call sequence *)

(** The start of a compound, with the interned variant name if it has one. *)
Definition start_compound (ob : bool) (key : option string)
  : Builder -> Res (Compound * Builder) :=
  match key with
  | Some k => fun b => '(kid, b) ← intern (NodeS k) b; Ok (compound_new ob (Some kid), b)
  | None => fun b => Ok (compound_new ob None, b)
  end.

Lemma start_compound_triple base held ob key :
  triple (fun b _ => Cov base b held) (start_compound ob key) (Ok ()) 1
    (fun c _ b vals => Cov base b (held ++ option_list (variant c)) /\ holds_variant c key vals
       /\ exists va, c = compound_new ob va).
Proof.
  destruct key as [k|]; cbn.
  - eapply triple_eq with (r := _ ← Ok (JString k); Ok ()); [|done|done].
    eapply triple_bind with (c1 := 1) (c2 := 0);
      [apply triple_result, (intern_leaf_emits (NodeS k) (JString k) 1); done| |done].
    intros kid kv. apply triple_ret. intros b vals [[Hc Hk] [= <-]]. cbn. eauto.
  - apply triple_ret. intros b vals Hc. cbn. rewrite app_nil_r. eauto.
Qed.

Lemma elements_emits {T} (ser : T -> Action) val cost key l :
  Forall (fun x => emits (ser x) (val x) (cost x)) l ->
  emits (fun b => '(c, b) ← start_compound false key b;
                  '(c, b) ← drive_elements ser l c b; finish c b)
    (vs ← map_outcome val l; Ok (wrap key (JArray vs))) (3 + sum_list_with cost l).
Proof.
  intros Hl base held.
  eapply triple_eq with (r := _ ← Ok (); vs ← map_outcome val l; Ok (wrap key (JArray vs)));
    [|done|done].
  eapply triple_bind with (c1 := 1) (c2 := 2 + sum_list_with cost l);
    [apply start_compound_triple| |lia].
  intros c u. apply (triple_pure (exists va, c = compound_new false va)); [tauto|].
  intros [va ->].
  eapply triple_eq with
    (r := vs ← (vs ← map_outcome val l; Ok ([] ++ vs)); Ok (wrap key (JArray vs)));
    [|done|by destruct (map_outcome val l)].
  eapply triple_bind with (c1 := sum_list_with cost l) (c2 := 2); [| |lia].
  { eapply triple_conseq; [apply triple_frame with (F := fun _ vals =>
        holds_variant (compound_new false va) key vals);
      [apply (drive_elements_triple ser val cost l Hl base
                (held ++ option_list va) false va (compound_new false va) [])|]| | |done].
    - unfold holds_variant; cbn. destruct va, key; try (by intros ? ? ? ? _).
      apply stable_value.
    - intros b vals (Hc & Hv & _). split; [|exact Hv]. unfold Elems, holds_values; cbn in *.
      rewrite app_nil_r. split_and!; try done.
    - intros i t b vals HQ. exact HQ. }
  intros c' vs. eapply triple_conseq; [apply (finish_seq_triple base held c' vs key)| |done|done].
  intros b vals [(Hc & Hv & Ho & Hva) Hk]. unfold holds_variant in *. rewrite Hva. done.
Qed.

Lemma objects_emits {T} (drive : T -> Compound -> Builder -> Res (Compound * Builder))
  (l : T) (r : Res (list (string * JValue))) cost key :
  (forall base held ob va c es0,
     triple (Fields base held ob va c es0) (drive l c)
       (es ← r; Ok (es0 ++ es)) cost (Fields base held ob va)) ->
  emits (fun b => '(c, b) ← start_compound true key b;
                  '(c, b) ← drive l c b; finish c b)
    (es ← r; Ok (wrap key (object_of es))) (3 + cost).
Proof.
  intros Hl base held.
  eapply triple_eq with (r := _ ← Ok (); es ← r; Ok (wrap key (object_of es)));
    [|done|done].
  eapply triple_bind with (c1 := 1) (c2 := 2 + cost); [apply start_compound_triple| |lia].
  intros c u. apply (triple_pure (exists va, c = compound_new true va)); [tauto|].
  intros [va ->].
  eapply triple_eq with
    (r := es ← (es ← r; Ok ([] ++ es)); Ok (wrap key (object_of es))); [|done|by destruct r].
  eapply triple_bind with (c1 := cost) (c2 := 2); [| |lia].
  { eapply triple_conseq; [apply triple_frame with (F := fun _ vals =>
        holds_variant (compound_new true va) key vals);
      [apply (Hl base (held ++ option_list va) true va (compound_new true va) [])|]| | |done].
    - unfold holds_variant; cbn. destruct va, key; try (by intros ? ? ? ? _).
      apply stable_value.
    - intros b vals (Hc & Hv & _). split; [|exact Hv]. unfold Fields, holds_fields; cbn in *.
      rewrite app_nil_r. split_and!; try done.
    - intros i t b vals HQ. exact HQ. }
  intros c' es. eapply triple_conseq; [apply (finish_object_triple base held c' es key)| |done|done].
  intros b vals [(Hc & Hf & Ho & Hva) Hk]. unfold holds_variant in *. rewrite Hva. done.
Qed.

Lemma emits_eq a a' r r' c c' :
  emits a r c -> (forall b, a b = a' b) -> r = r' -> c <= c' -> emits a' r' c'.
Proof.
  intros He Ha <- Hc base held. eapply triple_eq; [|exact Ha|reflexivity].
  eapply triple_conseq; [apply (He base held)|done|done|done].
Qed.

Lemma newtype_variant_emits k a r cost :
  emits a r cost ->
  emits (serialize_newtype_variant k a) (x ← r; Ok (JObject [(k, x)])) (2 + cost).
Proof.
  intros Ha base held. unfold serialize_newtype_variant.
  eapply triple_eq with (r := kv ← Ok (JString k); x ← r; Ok (JObject [(k, x)])); [|done|done].
  eapply triple_bind with (c1 := 1) (c2 := 1 + cost);
    [apply triple_result, (intern_leaf_emits (NodeS k) (JString k) 1); done| |lia].
  intros kid kv. apply (triple_pure (kv = JString k)); [by intros b vals [_ [= ->]]|]. intros ->.
  eapply triple_bind with (c1 := cost) (c2 := 1); [| |lia].
  { eapply triple_conseq; [apply triple_frame; [apply (Ha base)|
      apply (stable_value kid (JString k))]| | |done].
    - intros b vals [[Hc Hk] _]. split; [exact Hc|exact Hk].
    - intros i t b vals HQ. exact HQ. }
  intros vid v. eapply triple_conseq;
    [apply (intern_triple base held (NodeO [(kid, vid)]) (JObject [(k, v)]))| | |done].
  - intros b vals [[Hc Hv] Hk]. split.
    + revert Hc. apply Cov_mono. intros r'. cbn. set_solver.
    + cbn. unfold entry_of; cbn. by rewrite Hk, Hv.
  - cbn. intros i t b vals (? & ? & _). done.
Qed.

Theorem serialize_emits s : emits (serialize s) (to_value s) (intern_calls s).
Proof.
  revert s. apply Ser_nested_ind;
    [intros s|intros v IH|intros n v IH|intros n k v IH|intros l IH|intros l IH|intros n l IH
    |intros n k l IH|intros l IH|intros n l IH|intros n k l IH].
  - destruct s; try exact I; try (by apply intern_leaf_emits); try apply number_emits;
      try apply float_emits.
    eapply emits_eq; [apply (elements_emits serialize_u8
      (fun v => Ok (JNumber (number_from_u64 v))) (fun _ => 1) None v)| | |].
    + apply Forall_true. intros x. by apply intern_leaf_emits.
    + done.
    + cbn. induction v as [|x v IH]; cbn; [done|].
      destruct (map_outcome _ v) as [l|e|m]; cbn in *; [|done|done].
      by injection IH as ->.
    + cbn. induction v; cbn; lia.
  - exact IH.
  - exact IH.
  - by apply newtype_variant_emits.
  - eapply emits_eq; [apply (elements_emits serialize to_value intern_calls None l IH)|done..].
  - eapply emits_eq; [apply (elements_emits serialize to_value intern_calls None l IH)|done..].
  - eapply emits_eq; [apply (elements_emits serialize to_value intern_calls None l IH)|done..].
  - eapply emits_eq; [apply (elements_emits serialize to_value intern_calls (Some k) l IH)|..];
      [|done|done].
    intros b. cbn. unfold serialize_tuple_variant. by destruct (intern (NodeS k) b) as [[]| |].
  - eapply emits_eq; [eapply (objects_emits (drive_entries serialize) l) with (key := None);
      intros; by apply drive_entries_triple|done..].
  - eapply emits_eq; [eapply (objects_emits (drive_fields serialize) l) with (key := None);
      intros; by apply drive_fields_triple|done..].
  - eapply emits_eq; [eapply (objects_emits (drive_fields serialize) l) with (key := Some k);
      intros; by apply drive_fields_triple|..]; [|done|done].
    intros b. cbn. unfold serialize_struct_variant. by destruct (intern (NodeS k) b) as [[]| |].
Qed.
End Serialize.
