(* ===== verification/CodecOrder.v ===== *)
(** [canonical_order] computes the canonical graph.

    [place_cycle] moves every node to the position its new id names, carrying one
    displaced node around each cycle and using the id table itself as the visited
    set; for any permutation it terminates and agrees with placing each node
    directly.  On a table that denotes values injectively, the depth-first [visit]
    of ids simulates the [postorder] walk of values; the remapped nodes, moved
    along the permutation, are then the nodes of [canon]. *)

From S2P Require Export CodecGraph CodecIntern.

Section Rotate.
Context `{SerdeNumber}.
Context (table : list N) (R : list Node).
Local Abbreviation n := (length R).

(** [table] sends position [i] to position [j]. *)
Definition sends (i j : nat) : Prop := table !! i = Some (N.of_nat j).

Context (Hlen : length table = n) (Hn : (Z.of_nat n < U32_MAX - 1)%Z)
  (Hrange : forall i m, table !! i = Some m -> N.to_nat m < n) (Hnd : NoDup table).

Lemma sends_total i : i < n -> exists j, sends i j /\ j < n.
Proof.
  intros Hi. destruct (lookup_lt_is_Some_2 table i) as [m Hm]; [lia|].
  exists (N.to_nat m). unfold sends. rewrite N2Nat.id. eauto.
Qed.

Lemma sends_lt i j : sends i j -> i < n /\ j < n.
Proof.
  intros Hs. split; [apply lookup_lt_Some in Hs; lia|].
  apply Hrange in Hs. lia.
Qed.

Lemma sends_inj i i' j : sends i j -> sends i' j -> i = i'.
Proof. intros H1 H2. by eapply NoDup_lookup. Qed.

Lemma sends_fun i j j' : sends i j -> sends i j' -> j = j'.
Proof. unfold sends. intros H1 H2. rewrite H1 in H2. injection H2 as H2. lia. Qed.

(** The positions of [C] have been consumed; a node is placed at the target of
    every consumed position, and [hole] is the only position whose content has
    been taken out. *)
Record Placing (C : gset nat) (hole : option nat) (mapped : list N) (nodes : list Node)
  : Prop := {
  pl_len_m : length mapped = n;
  pl_len_n : length nodes = n;
  pl_bound : forall i, i ∈ C -> i < n;
  pl_consumed : forall i, i ∈ C -> mapped !! i = Some PERMUTATION_CONSUMED;
  pl_kept : forall i, i ∉ C -> mapped !! i = table !! i;
  pl_placed : forall i j, i ∈ C -> sends i j -> nodes !! j = R !! i;
  pl_rest : forall i, i ∉ C -> hole <> Some i -> nodes !! i = R !! i
}.

(** Between two cycles the consumed set is a union of cycles. *)
Definition closed_under_sends (C : gset nat) : Prop :=
  (forall i j, i ∈ C -> sends i j -> j ∈ C) /\
  (forall j, j ∈ C -> exists i, i ∈ C /\ sends i j).

(** Inside the cycle of [start], held at [current]. *)
Record Cycling (C : gset nat) (start current : nat) : Prop := {
  cy_fresh : current ∉ C;
  cy_bound : current < n;
  cy_start : start ∈ C \/ start = current;
  cy_image : forall i j, i ∈ C -> sends i j -> j ∈ C \/ j = current;
  cy_preimage : forall j, j ∈ C \/ j = current -> j <> start -> exists i, i ∈ C /\ sends i j
}.

Lemma Placing_step C start current node mapped nodes d displaced :
  Placing C (Some current) mapped nodes -> Cycling C start current ->
  R !! current = Some node -> sends current d -> nodes !! d = Some displaced ->
  Placing ({[current]} ∪ C) (if decide (d = start) then None else Some d)
    (<[current := PERMUTATION_CONSUMED]> mapped) (<[d := node]> nodes).
Proof.
  intros [Hm Hl Hb Hco Hk Hp Hr] [Hf Hcb Hs Hi Hpre] Hnode Hd Hdisp.
  destruct (sends_lt _ _ Hd) as [_ Hdn].
  split.
  - by rewrite length_insert.
  - by rewrite length_insert.
  - intros i. rewrite elem_of_union, elem_of_singleton. intros [->|?]; auto.
  - intros i. rewrite elem_of_union, elem_of_singleton. intros Hin.
    destruct (decide (i = current)) as [->|Hne].
    + by rewrite list_lookup_insert_eq by lia.
    + rewrite list_lookup_insert_ne by done. apply Hco. tauto.
  - intros i. rewrite elem_of_union, elem_of_singleton. intros Hin.
    rewrite list_lookup_insert_ne by (intros ->; tauto). apply Hk. tauto.
  - intros i j. rewrite elem_of_union, elem_of_singleton. intros Hin Hij.
    destruct (decide (i = current)) as [->|Hne].
    + rewrite (sends_fun _ _ _ Hij Hd), list_lookup_insert_eq by lia. done.
    + rewrite list_lookup_insert_ne; [apply Hp; tauto|].
      intros <-. apply Hne. by eapply sends_inj.
  - intros i. rewrite elem_of_union, elem_of_singleton. intros Hin Hh.
    destruct (decide (i = d)) as [->|Hne].
    + exfalso. case_decide as Hds; [|congruence]. subst d. tauto.
    + rewrite list_lookup_insert_ne by done. apply Hr; [tauto|]. intros [= ->]. tauto.
Qed.

Lemma Cycling_next C start current d :
  Cycling C start current -> sends current d -> d <> start ->
  Cycling ({[current]} ∪ C) start d.
Proof.
  intros [Hf Hcb Hs Hi Hpre] Hd Hne. split.
  - rewrite elem_of_union, elem_of_singleton. intros Hin.
    destruct (Hpre d) as (i & HiC & Hid); [tauto|done|].
    by rewrite (sends_inj _ _ _ Hid Hd) in HiC.
  - exact (proj2 (sends_lt _ _ Hd)).
  - left. set_solver.
  - intros i j. rewrite !elem_of_union, !elem_of_singleton. intros [->|Hin] Hij.
    + right. exact (sends_fun _ _ _ Hij Hd).
    + left. destruct (Hi _ _ Hin Hij); tauto.
  - intros j. rewrite elem_of_union, elem_of_singleton.
    intros [Hj| ->] Hjs; [|exists current; set_solver].
    destruct (Hpre j) as (i & HiC & Hij); [tauto|done|]. exists i. set_solver.
Qed.

Lemma Cycling_end C start current :
  Cycling C start current -> sends current start -> closed_under_sends ({[current]} ∪ C).
Proof.
  intros [Hf Hcb Hs Hi Hpre] Hd. split.
  - intros i j. rewrite !elem_of_union, !elem_of_singleton. intros [->|Hin] Hij.
    + rewrite (sends_fun _ _ _ Hij Hd). destruct Hs; tauto.
    + destruct (Hi _ _ Hin Hij); tauto.
  - intros j. rewrite elem_of_union, elem_of_singleton. intros Hj.
    destruct (decide (j = start)) as [->|Hne]; [exists current; set_solver|].
    destruct (Hpre j) as (i & ? & ?); [tauto|done|]. exists i. set_solver.
Qed.

Lemma size_bounded (C : gset nat) i :
  (forall i, i ∈ C -> i < n) -> i < n -> i ∉ C -> size C < n.
Proof.
  intros Hb Hi Hni. assert ({[i]} ∪ C ⊆ (set_seq 0 n : gset nat)) as Hsub.
  { intros x. rewrite elem_of_union, elem_of_singleton, elem_of_set_seq.
    intros [->|Hx]; [lia|]. specialize (Hb _ Hx). lia. }
  apply subseteq_size in Hsub. rewrite size_union, size_singleton in Hsub by set_solver.
  assert (forall k m, size (set_seq k m : gset nat) = m) as Hsz.
  { intros k m. revert k. induction m as [|m IH]; intros k; cbn; [by rewrite size_empty|].
    rewrite size_union, size_singleton, IH; [done|].
    intros x ->%elem_of_singleton. rewrite elem_of_set_seq. lia. }
  rewrite Hsz in Hsub. lia.
Qed.

Lemma rotate_spec fuel C start current node mapped nodes :
  n <= fuel + size C -> Placing C (Some current) mapped nodes -> Cycling C start current ->
  R !! current = Some node ->
  exists C' mapped' nodes',
    rotate fuel start current node mapped nodes = Ok (mapped', nodes') /\
    C ⊆ C' /\ start ∈ C' /\ Placing C' None mapped' nodes' /\ closed_under_sends C'.
Proof.
  revert C current node mapped nodes.
  induction fuel as [|fuel IH]; intros C current node mapped nodes Hfuel HP HC Hnode.
  { pose proof (size_bounded C current (pl_bound _ _ _ _ HP) (cy_bound _ _ _ HC)
      (cy_fresh _ _ _ HC)). lia. }
  cbn. destruct (sends_total current (cy_bound _ _ _ HC)) as (d & Hd & Hdn).
  rewrite (proj2 (index_ok mapped current (N.of_nat d)));
    [|by rewrite (pl_kept _ _ _ _ HP) by apply HC]. cbn. rewrite Nat2N.id.
  destruct (lookup_lt_is_Some_2 nodes d) as [displaced Hdisp];
    [by rewrite (pl_len_n _ _ _ _ HP)|].
  rewrite (proj2 (index_ok nodes d displaced) Hdisp). cbn.
  pose proof (Placing_step _ _ _ _ _ _ _ _ HP HC Hnode Hd Hdisp) as HP'.
  case_decide as Hds.
  - subst d. exists ({[current]} ∪ C), (<[current := PERMUTATION_CONSUMED]> mapped),
      (<[start := node]> nodes). split; [done|]. split; [set_solver|]. split; [|split; [exact HP'|]].
    + destruct (cy_start _ _ _ HC) as [?| ->]; set_solver.
    + by eapply Cycling_end.
  - pose proof (Cycling_next _ _ _ _ HC Hd Hds) as HC'.
    destruct (IH _ _ displaced _ _ ltac:(
      rewrite size_union, size_singleton by
        (intros x ->%elem_of_singleton; apply HC); lia) HP' HC')
      as (C' & m' & n' & -> & Hsub & Hst & HP2 & Hcl).
    + rewrite <- Hdisp. symmetry. destruct HP as [_ _ _ _ _ _ Hr]. apply Hr.
      * pose proof (cy_fresh _ _ _ HC') as Hfr. set_solver.
      * intros [= ->]. pose proof (cy_fresh _ _ _ HC') as Hfr. set_solver.
    + exists C', m', n'. split; [done|]. split; [set_solver|]. done.
Qed.

Lemma place_cycle_spec C mapped nodes start :
  start < n -> Placing C None mapped nodes -> closed_under_sends C ->
  exists C' mapped' nodes',
    place_cycle (mapped, nodes) start = Ok (mapped', nodes') /\
    C ⊆ C' /\ start ∈ C' /\ Placing C' None mapped' nodes' /\ closed_under_sends C'.
Proof.
  intros Hst HP HC. unfold place_cycle.
  destruct (decide (start ∈ C)) as [Hin|Hnin].
  - rewrite (proj2 (index_ok _ _ _) (pl_consumed _ _ _ _ HP _ Hin)). cbn.
    rewrite decide_True by done. exists C, mapped, nodes. done.
  - destruct (sends_total start Hst) as (d & Hd & Hdn).
    rewrite (proj2 (index_ok mapped start (N.of_nat d)))
      by (by rewrite (pl_kept _ _ _ _ HP)). cbn.
    rewrite decide_False by (unfold PERMUTATION_CONSUMED; unfold U32_MAX in Hn; lia).
    destruct (lookup_lt_is_Some_2 R start) as [node Hnode]; [lia|].
    assert (nodes !! start = Some node) as Hns by (by rewrite (pl_rest _ _ _ _ HP)).
    rewrite (proj2 (index_ok nodes start node) Hns). cbn.
    eapply rotate_spec; [| | |exact Hnode].
    + rewrite (pl_len_n _ _ _ _ HP). lia.
    + destruct HP as [? ? ? ? ? Hp Hr]. split; try done.
      * by rewrite length_insert.
      * intros i j Hi Hij. rewrite list_lookup_insert_ne; [by apply Hp|].
        intros <-. apply Hnin. by eapply HC.
      * intros i Hi Hne. rewrite list_lookup_insert_ne by congruence. by apply Hr.
    + split; try done; [by right| |].
      * intros i j Hi Hij. left. by eapply HC.
      * intros j [Hj| ->] Hjs; [by apply HC|done].
Qed.

(** The whole loop places every node at the position its table entry names. *)
Lemma place_all_spec :
  exists mapped' nodes',
    fold_outcome place_cycle (table, R) (seq 0 n) = Ok (mapped', nodes') /\
    length nodes' = n /\
    forall i j, sends i j -> nodes' !! j = R !! i.
Proof.
  assert (forall k C mapped nodes, k <= n -> Placing C None mapped nodes ->
    closed_under_sends C -> exists C' mapped' nodes',
      fold_outcome place_cycle (mapped, nodes) (seq (n - k) k) = Ok (mapped', nodes') /\
      C ⊆ C' /\ (forall i, n - k <= i < n -> i ∈ C') /\ Placing C' None mapped' nodes')
    as Hloop.
  { induction k as [|k IH]; intros C mapped nodes Hk HP HC.
    - exists C, mapped, nodes. cbn. split_and!; try done. intros i ?. lia.
    - cbn [seq fold_outcome]. destruct (place_cycle_spec C mapped nodes (n - S k))
        as (C1 & m1 & n1 & -> & Hs1 & Hin1 & HP1 & HC1); [lia|done|done|].
      cbn [mbind outcome_bind]. replace (S (n - S k)) with (n - k) by lia.
      destruct (IH C1 m1 n1) as (C2 & m2 & n2 & -> & Hs2 & Hin2 & HP2); [lia|done|done|].
      exists C2, m2, n2. split_and!; try done; [set_solver|].
      intros i Hi. destruct (decide (i = n - S k)) as [->|]; [set_solver|apply Hin2; lia]. }
  destruct (Hloop n ∅ table R) as (C & m & nodes & Hf & _ & Hall & HP); [lia| |split; set_solver|].
  { split; try done; set_solver. }
  rewrite Nat.sub_diag in Hf. exists m, nodes. split; [done|].
  split; [apply HP|]. intros i j Hij. apply HP; [|done]. apply Hall.
  apply sends_lt in Hij. lia.
Qed.
End Rotate.

(** ** The walk *)

Section Postorder.
Context `{SerdeNumber}.

Lemma postorder_eq v seen :
  postorder v seen =
  if decide (v ∈ seen) then seen
  else fold_left (fun d c => postorder c d) (children v) seen ++ [v].
Proof.
  destruct v as [| | | |l|l]; cbn [postorder children fold_left]; case_decide; try done.
  f_equal. match goal with Hn : JObject _ ∉ _ |- _ => clear Hn end.
  revert seen. induction l as [|[k x] l IH]; intros seen; [done|].
  cbn. rewrite IH. do 2 f_equal.
Qed.

(** Depth-first completion: what one walk adds. *)
Lemma postorder_ind_children (P : JValue -> list JValue -> list JValue -> Prop) :
  (forall v seen, v ∈ seen -> P v seen seen) ->
  (forall v seen seen', v ∉ seen ->
     (forall c, c ∈ children v -> forall d, P c d (postorder c d)) ->
     seen' = fold_left (fun d c => postorder c d) (children v) seen ->
     P v seen (seen' ++ [v])) ->
  forall v seen, P v seen (postorder v seen).
Proof.
  intros Hin Hnew v. induction v as [| | | |l IH|l IH] using JValue_nested_ind;
    intros d; rewrite postorder_eq; case_decide; auto; (eapply Hnew; [done| |done]); cbn.
  1-4: by intros ? ?%elem_of_nil.
  - intros c Hc. eapply Forall_forall in IH; [|exact Hc]. done.
  - intros c Hc. apply list_elem_of_In, in_flat_map in Hc as ([k x] & Hkx & Hc).
    apply list_elem_of_In in Hkx. cbn in Hc. destruct Hc as [<-|[<-|[]]].
    + intros d'. rewrite postorder_eq. case_decide; [by apply Hin|].
      eapply Hnew; [done|by intros ? ?%elem_of_nil|done].
    + eapply Forall_forall in IH; [|exact Hkx]. done.
Qed.

Definition walk (cs : list JValue) (seen : list JValue) : list JValue :=
  fold_left (fun d c => postorder c d) cs seen.

Lemma postorder_prefix v seen : seen `prefix_of` postorder v seen.
Proof.
  revert v seen. apply (postorder_ind_children (fun _ d d' => d `prefix_of` d')); [done|].
  intros v seen seen' _ IH ->. apply prefix_app_r.
  revert seen IH. induction (children v) as [|c cs IHc]; intros seen IH; cbn; [done|].
  etrans; [apply IH; by left|]. apply IHc. intros c' Hc'. apply IH. by right.
Qed.

Lemma walk_prefix cs seen : seen `prefix_of` walk cs seen.
Proof.
  revert seen. induction cs as [|c cs IH]; intros seen; cbn; [done|].
  etrans; [apply postorder_prefix|apply IH].
Qed.

Lemma elem_of_postorder_self v seen : v ∈ postorder v seen.
Proof. rewrite postorder_eq. case_decide; [done|]. set_solver. Qed.

Lemma walk_elem c cs seen : c ∈ cs -> c ∈ walk cs seen.
Proof.
  revert seen. induction cs as [|x cs IH]; intros seen; [by intros ?%elem_of_nil|].
  intros [->|Hc]%elem_of_cons; cbn; [|by apply IH].
  destruct (walk_prefix cs (postorder x seen)) as [k Hk]. unfold walk in Hk. rewrite Hk.
  apply elem_of_app. left. apply elem_of_postorder_self.
Qed.

(** The order lists children before parents. *)
Definition ordered (seen : list JValue) : Prop :=
  forall k w, seen !! k = Some w -> forall c, c ∈ children w -> c ∈ take k seen.

Lemma ordered_snoc seen v :
  ordered seen -> (forall c, c ∈ children v -> c ∈ seen) -> ordered (seen ++ [v]).
Proof.
  intros Ho Hc k w Hk c Hcw. destruct (decide (k < length seen)) as [Hlt|Hge].
  - rewrite take_app_le by lia. rewrite lookup_app_l in Hk by done. by eapply Ho.
  - pose proof (lookup_lt_Some _ _ _ Hk) as Hl. rewrite length_app in Hl. cbn in Hl.
    assert (k = length seen) as -> by lia.
    rewrite list_lookup_middle in Hk by done. injection Hk as <-.
    rewrite take_app_length. auto.
Qed.

Lemma postorder_ordered v seen : ordered seen -> ordered (postorder v seen).
Proof.
  revert v seen. apply (postorder_ind_children (fun _ d d' => ordered d -> ordered d')); [done|].
  intros v seen seen' _ IH Hd Ho. subst seen'. apply ordered_snoc.
  - assert (forall cs, (forall c, c ∈ cs -> c ∈ children v) ->
      forall d, ordered d -> ordered (walk cs d)) as Hw; [|by apply Hw].
    induction cs as [|c cs IHc]; intros Hcs d Hod; cbn; [done|].
    apply IHc; [intros; apply Hcs; by right|]. apply IH; [apply Hcs; by left|done].
  - intros c Hc. by apply walk_elem.
Qed.

Lemma ordered_closed seen w c : ordered seen -> w ∈ seen -> c ∈ children w -> c ∈ seen.
Proof.
  intros Ho Hw Hc. apply list_elem_of_lookup in Hw as [k Hk].
  pose proof (Ho _ _ Hk _ Hc) as Hin. apply list_elem_of_lookup in Hin as [j Hj].
  apply list_elem_of_lookup. exists j. rewrite lookup_take in Hj. by case_decide.
Qed.

Lemma position_lookup order v : v ∈ order -> order !! N.to_nat (position order v) = Some v.
Proof.
  induction order as [|w order IH]; [by intros ?%elem_of_nil|]. cbn.
  case_decide as Hd; [by subst|]. intros [->|Hin]%elem_of_cons; [done|].
  rewrite N2Nat.inj_add. cbn. auto.
Qed.

Lemma position_unique order v m :
  NoDup order -> order !! N.to_nat m = Some v -> position order v = m.
Proof.
  intros Hnd Hm. apply N2Nat.inj. eapply NoDup_lookup; [done| |exact Hm].
  apply position_lookup. by eapply list_elem_of_lookup_2.
Qed.
End Postorder.

Section Order.
Context `{SerdeNumber}.
Context (nodes : list Node) (vals : list JValue).
Context (Htable : Table nodes vals) (Hnodup : NoDup nodes)
  (Hsize : (Z.of_nat (length nodes) < U32_MAX - 1)%Z).
Local Abbreviation n := (length nodes).

Lemma vals_NoDup : NoDup vals.
Proof. by eapply Table_NoDup. Qed.

Lemma len_vals : length vals = n.
Proof. apply Htable. Qed.

Lemma bounded_done (seen : list JValue) :
  NoDup seen -> (forall w, w ∈ seen -> w ∈ vals) -> length seen <= n.
Proof.
  intros Hnd Hsub. rewrite <- len_vals. apply submseteq_length.
  by apply NoDup_submseteq.
Qed.

(** A node's references denote its value's children, in order. *)
Lemma node_children i node v :
  nodes !! i = Some node -> vals !! i = Some v ->
  Forall2 (fun r c => vals !! N.to_nat r = Some c) (node_refs node) (children v).
Proof.
  intros Hi Hv. pose proof (Table_value_of _ _ _ _ _ Htable Hi Hv) as Hn.
  destruct node as [| | | |refs|o]; cbn in Hn;
    try (injection Hn as <-; constructor); apply fmap_Some in Hn as (l & Hl & ->); cbn.
  - by apply mapM_Some in Hl.
  - apply mapM_Some in Hl. clear Hi Hv. induction Hl as [|[k x] [s y] o l Hx Hl IH]; cbn; [constructor|].
    unfold entry_of in Hx; cbn in Hx.
    destruct (vals !! N.to_nat k) as [[| | |s1| |]|] eqn:E1; try done.
    destruct (vals !! N.to_nat x) as [w|] eqn:E2; [|done]. injection Hx as -> ->.
    constructor; [done|]. constructor; [done|exact IH].
Qed.

(** The walk's state: [seen] lists the values numbered so far. *)
Definition slot_ok (seen : list JValue) (v : JValue) (m : N) : Prop :=
  (m = UNVISITED /\ v ∉ seen) \/ (m = VISITING /\ v ∉ seen) \/
  (seen !! N.to_nat m = Some v).

Record Walking (mapped : list N) (next : N) (seen : list JValue) : Prop := {
  wk_len : length mapped = n;
  wk_next : N.to_nat next = length seen;
  wk_nodup : NoDup seen;
  wk_sub : forall w, w ∈ seen -> w ∈ vals;
  wk_slot : forall i v, vals !! i = Some v ->
    exists m, mapped !! i = Some m /\ slot_ok seen v m
}.

Lemma slot_number seen m v :
  NoDup seen -> (forall w, w ∈ seen -> w ∈ vals) -> seen !! N.to_nat m = Some v ->
  N.to_nat m < n /\ m <> UNVISITED /\ m <> VISITING.
Proof.
  intros Hnd Hs Hm. pose proof (bounded_done _ Hnd Hs) as Hb.
  apply lookup_lt_Some in Hm. split; [lia|].
  unfold UNVISITED, VISITING, U32_MAX in *. split; intros ->; lia.
Qed.

Definition in_progress (mapped : list N) (j : nat) : Prop := mapped !! j = Some VISITING.

(** Marking the node being entered. *)
Lemma Walking_enter mapped next seen i v :
  Walking mapped next seen -> vals !! i = Some v -> v ∉ seen ->
  Walking (<[i := VISITING]> mapped) next seen.
Proof.
  intros [Hl Hn Hnd Hs Hsl] Hv Hnin. split; try done; [by rewrite length_insert|].
  intros j w Hw. destruct (decide (j = i)) as [->|Hne].
  - exists VISITING. rewrite list_lookup_insert_eq
      by (rewrite Hl, <- len_vals; by eapply lookup_lt_Some).
    split; [done|]. right. left. split; [done|]. congruence.
  - rewrite list_lookup_insert_ne by done. by apply Hsl.
Qed.

(** Numbering the node being left. *)
Lemma Walking_leave mapped next seen i v :
  Walking mapped next seen -> vals !! i = Some v -> v ∉ seen ->
  Walking (<[i := next]> mapped) (next + 1)%N (seen ++ [v]).
Proof.
  intros [Hl Hn Hnd Hs Hsl] Hv Hnin. split.
  - by rewrite length_insert.
  - rewrite length_app. cbn. lia.
  - apply NoDup_app. split; [done|]. split; [|apply NoDup_singleton].
    by intros x Hx ->%list_elem_of_singleton.
  - intros w [Hw| ->%list_elem_of_singleton]%elem_of_app; [auto|].
    by eapply list_elem_of_lookup_2.
  - intros j w Hw. destruct (decide (j = i)) as [->|Hne].
    + exists next. rewrite list_lookup_insert_eq
        by (rewrite Hl, <- len_vals; by eapply lookup_lt_Some).
      split; [done|]. right. right. rewrite Hn, list_lookup_middle by done. congruence.
    + rewrite list_lookup_insert_ne by done. destruct (Hsl _ _ Hw) as (m & Hm & Hso).
      exists m. split; [done|]. assert (w <> v) as Hwv
        by (intros ->; apply Hne; eapply NoDup_lookup; [apply vals_NoDup|done..]).
      destruct Hso as [[-> Hn1]|[[-> Hn1]|Hm1]].
      * left. split; [done|]. rewrite elem_of_app, list_elem_of_singleton. tauto.
      * right. left. split; [done|]. rewrite elem_of_app, list_elem_of_singleton. tauto.
      * right. right. by apply lookup_app_l_Some.
Qed.

(** [visit] numbers a node after its children: it simulates [postorder]. *)
Lemma visit_sim fuel id v mapped next seen :
  N.to_nat id < fuel -> vals !! N.to_nat id = Some v -> Walking mapped next seen ->
  (forall j, in_progress mapped j -> N.to_nat id < j) ->
  exists m mapped' next',
    visit fuel id nodes mapped next = Ok (m, (mapped', next')) /\
    Walking mapped' next' (postorder v seen) /\
    postorder v seen !! N.to_nat m = Some v /\
    (forall j, in_progress mapped' j <-> in_progress mapped j).
Proof.
  revert id v mapped next seen.
  induction fuel as [|fuel IH]; intros id v mapped next seen Hf Hv HW Hvis; [lia|].
  destruct (wk_slot _ _ _ HW _ _ Hv) as (m & Hm & Hslot).
  cbn [visit]. rewrite (proj2 (index_ok mapped _ m) Hm). cbn [mbind outcome_bind].
  rewrite decide_False by (intros ->; specialize (Hvis _ Hm); lia).
  destruct Hslot as [[-> Hnin]|[[-> _]|Hd]].
  2: { specialize (Hvis _ Hm). lia. }
  2: { destruct (slot_number _ _ _ (wk_nodup _ _ _ HW) (wk_sub _ _ _ HW) Hd) as (_ & ? & _).
       rewrite decide_False by done. exists m, mapped, next. rewrite postorder_eq.
       rewrite decide_True by (by eapply list_elem_of_lookup_2). done. }
  rewrite decide_True by done.
  destruct (lookup_lt_is_Some_2 nodes (N.to_nat id)) as [node Hnode].
  { rewrite <- len_vals. by eapply lookup_lt_Some. }
  rewrite (proj2 (index_ok nodes _ node) Hnode). cbn [mbind outcome_bind].
  pose proof (node_children _ _ _ Hnode Hv) as Hrc.
  assert (forall r, r ∈ node_refs node -> N.to_nat r < N.to_nat id) as Hlt
    by (intros r Hr; by eapply Table_refs_lt).
  pose proof (Walking_enter _ _ _ _ _ HW Hv Hnin) as HW1.
  assert (forall j, in_progress (<[N.to_nat id := VISITING]> mapped) j
            <-> j = N.to_nat id \/ in_progress mapped j) as Hip1.
  { intros j. unfold in_progress. destruct (decide (j = N.to_nat id)) as [->|Hne].
    - rewrite list_lookup_insert_eq by (by eapply lookup_lt_Some). tauto.
    - rewrite list_lookup_insert_ne by done. tauto. }
  assert (exists mapped' next',
    fold_outcome (fun '(mapped, next) reference =>
      '(_, st) ← visit fuel reference nodes mapped next; Ok st)
      (<[N.to_nat id := VISITING]> mapped, next) (node_refs node) = Ok (mapped', next') /\
    Walking mapped' next' (walk (children v) seen) /\
    (forall j, in_progress mapped' j <-> j = N.to_nat id \/ in_progress mapped j))
    as (mapped' & next' & -> & HW2 & Hip2).
  { revert HW1 Hip1. generalize (<[N.to_nat id := VISITING]> mapped) as mp. clear HW.
    revert Hrc Hlt. generalize (node_refs node) as refs, (children v) as cs.
    intros refs cs Hrc. generalize dependent next. revert seen Hnin.
    induction Hrc as [|r c refs cs Hr Hrc IHl]; intros seen Hnin next Hlt mp HW Hip.
    - exists mp, next. done.
    - cbn. destruct (IH r c mp next seen) as (m1 & mp1 & nx1 & -> & HWn & Hnum & Hip');
        [specialize (Hlt r ltac:(by left)); lia|done|done| |].
      { intros j Hj. apply Hip in Hj as [->|Hj]; [apply Hlt; by left|].
        specialize (Hvis _ Hj). specialize (Hlt r ltac:(by left)). lia. }
      cbn. apply IHl.
      + intros Hin. assert (in_progress mp1 (N.to_nat id)) as Hp
          by (apply Hip', Hip; by left).
        destruct (wk_slot _ _ _ HWn _ _ Hv) as (m2 & Hm2 & Hs2).
        unfold in_progress in Hp. rewrite Hp in Hm2. injection Hm2 as <-.
        destruct Hs2 as [[? _]|[[_ ?]|Hs2]]; [done|done|].
        by apply (slot_number _ _ _ (wk_nodup _ _ _ HWn) (wk_sub _ _ _ HWn)) in Hs2 as (_ & _ & ?).
      + intros r' Hr'. apply Hlt. by right.
      + done.
      + intros j. rewrite Hip'. apply Hip. }
  cbn [mbind outcome_bind].
  assert (v ∉ walk (children v) seen) as Hnin2.
  { destruct (wk_slot _ _ _ HW2 _ _ Hv) as (m2 & Hm2 & Hs2).
    assert (in_progress mapped' (N.to_nat id)) as Hp by (apply Hip2; by left).
    unfold in_progress in Hp. rewrite Hp in Hm2. injection Hm2 as <-.
    destruct Hs2 as [[? _]|[[_ ?]|Hs2]]; [done|done|].
    by apply (slot_number _ _ _ (wk_nodup _ _ _ HW2) (wk_sub _ _ _ HW2)) in Hs2 as (_ & _ & ?). }
  exists next', (<[N.to_nat id := next']> mapped'), (next' + 1)%N.
  split; [done|]. rewrite postorder_eq, decide_False by done. fold (walk (children v) seen).
  pose proof (Walking_leave _ _ _ _ _ HW2 Hv Hnin2) as HW3.
  split; [exact HW3|]. split.
  { by rewrite (wk_next _ _ _ HW2), list_lookup_middle. }
  intros j. unfold in_progress. destruct (decide (j = N.to_nat id)) as [->|Hne].
  - destruct (slot_number (walk (children v) seen ++ [v]) next' v) as (? & ? & Hnv);
      [apply HW3|apply HW3|by rewrite (wk_next _ _ _ HW2), list_lookup_middle|].
    rewrite list_lookup_insert_eq
      by (rewrite (wk_len _ _ _ HW2), <- len_vals; by eapply lookup_lt_Some).
    split; [intros [= Hx]; done|]. rewrite Hm. intros [=].
  - rewrite list_lookup_insert_ne by done. specialize (Hip2 j). unfold in_progress in Hip2.
    rewrite Hip2. tauto.
Qed.

Lemma Walking_start : Walking (replicate n UNVISITED) 0%N [].
Proof.
  split; cbn; try done; [by rewrite length_replicate|constructor| |].
  - by intros w ?%elem_of_nil.
  - intros i v Hv. exists UNVISITED. split; [|left; split; [done|by intros ?%elem_of_nil]].
    apply lookup_replicate_2. rewrite <- len_vals. by eapply lookup_lt_Some.
Qed.

(** Once every slot is numbered, the table is the permutation to [order]. *)
Section Complete.
Context (order : list JValue) (mapped : list N) (next : N).
Context (HW : Walking mapped next order) (Hfull : forall w, w ∈ vals -> w ∈ order).

Lemma order_length : length order = n.
Proof.
  apply Nat.le_antisymm.
  - by apply bounded_done; apply HW.
  - rewrite <- len_vals. apply submseteq_length, NoDup_submseteq; [apply vals_NoDup|done].
Qed.

Lemma mapped_position i v :
  vals !! i = Some v -> mapped !! i = Some (position order v).
Proof.
  intros Hv. destruct (wk_slot _ _ _ HW _ _ Hv) as (m & Hm & Hs).
  assert (v ∈ order) as Hin by (apply Hfull; by eapply list_elem_of_lookup_2).
  destruct Hs as [[_ ?]|[[_ ?]|Hs]]; [done|done|].
  rewrite (position_unique _ _ _ (wk_nodup _ _ _ HW) Hs). done.
Qed.

Lemma mapped_eq : mapped = map (position order) vals.
Proof.
  apply list_eq. intros i. rewrite list_lookup_fmap.
  destruct (vals !! i) as [v|] eqn:Hv; cbn; [by apply mapped_position|].
  apply lookup_ge_None. apply lookup_ge_None in Hv. rewrite (wk_len _ _ _ HW), <- len_vals.
  done.
Qed.

Lemma position_in_range v : v ∈ order -> N.to_nat (position order v) < n.
Proof.
  intros Hin. apply position_lookup, lookup_lt_Some in Hin. by rewrite order_length in Hin.
Qed.

Lemma mapped_NoDup : NoDup mapped.
Proof.
  rewrite mapped_eq. apply NoDup_fmap_2_strong; [|apply vals_NoDup].
  intros v w Hv Hw Heq.
  pose proof (position_lookup order v (Hfull _ Hv)) as H1.
  pose proof (position_lookup order w (Hfull _ Hw)) as H2. congruence.
Qed.

Lemma remap_refs refs cs :
  Forall2 (fun r c => vals !! N.to_nat r = Some c) refs cs ->
  map_outcome (remap_ref mapped) refs = Ok (map (position order) cs).
Proof.
  intros Hf. apply map_outcome_ok. apply Forall2_fmap_r.
  eapply Forall2_impl; [exact Hf|]. intros r c Hr. apply index_ok.
  by apply mapped_position.
Qed.

Lemma remap_node_spec i node v :
  nodes !! i = Some node -> vals !! i = Some v ->
  remap_node mapped node = Ok (node_of order v).
Proof.
  intros Hi Hv. pose proof (Table_value_of _ _ _ _ _ Htable Hi Hv) as Hn.
  destruct node as [| | | |refs|o]; cbn in Hn; try (by injection Hn as <-);
    apply fmap_Some in Hn as (l & Hl & ->); apply mapM_Some in Hl; cbn [remap_node].
  - by rewrite (remap_refs _ _ Hl).
  - assert (map_outcome (fun '(k, v) =>
        k' ← remap_ref mapped k; v' ← remap_ref mapped v; Ok (k', v')) o =
      Ok (map (fun kv => (position order (JString kv.1), position order kv.2)) l)) as ->;
      [|done].
    apply map_outcome_ok, Forall2_fmap_r. eapply Forall2_impl; [exact Hl|].
    intros [k x] [s y] He. unfold entry_of in He; cbn in He.
    destruct (vals !! N.to_nat k) as [[| | |s1| |]|] eqn:E1; try done.
    destruct (vals !! N.to_nat x) as [w|] eqn:E2; [|done]. injection He as -> ->.
    unfold remap_ref. rewrite (proj2 (index_ok _ _ _) (mapped_position _ _ E1)).
    cbn. by rewrite (proj2 (index_ok _ _ _) (mapped_position _ _ E2)).
Qed.

Lemma remap_all : map_outcome (remap_node mapped) nodes = Ok (map (node_of order) vals).
Proof.
  apply map_outcome_ok. apply Forall2_fmap_r, Forall2_same_length_lookup_2.
  - by rewrite len_vals.
  - intros i node v Hi Hv. by eapply remap_node_spec.
Qed.

(** The permutation loop yields the canonical node list. *)
Lemma place_canonical :
  exists mapped',
    fold_outcome place_cycle (mapped, map (node_of order) vals) (seq 0 n)
    = Ok (mapped', map (node_of order) order).
Proof.
  assert (length (map (node_of order) vals) = n) as Hl by (by rewrite length_map, len_vals).
  destruct (place_all_spec mapped (map (node_of order) vals)) as (mp & nodes' & Hf & Hln & Hs).
  - by rewrite Hl, (wk_len _ _ _ HW).
  - by rewrite Hl.
  - rewrite Hl. intros i m Hm. rewrite mapped_eq in Hm.
    apply list_lookup_fmap_Some in Hm as (v & -> & Hv).
    apply position_in_range, Hfull. by eapply list_elem_of_lookup_2.
  - apply mapped_NoDup.
  - rewrite Hl in Hf, Hln. exists mp. rewrite Hf. do 2 f_equal.
    apply list_eq_same_length with n; [by rewrite length_map, order_length|done|].
    intros k x y Hk Hx Hy.
    apply list_lookup_fmap_Some in Hy as (v & -> & Hv).
    assert (v ∈ vals) as Hin by (eapply HW, list_elem_of_lookup_2; exact Hv).
    apply list_elem_of_lookup in Hin as [i Hi].
    rewrite (Hs i k) in Hx.
    + rewrite list_lookup_fmap, Hi in Hx. by injection Hx as <-.
    + unfold sends. rewrite (mapped_position _ _ Hi). f_equal.
      apply (position_unique _ _ _ (wk_nodup _ _ _ HW)). by rewrite Nat2N.id.
Qed.
End Complete.

(** The values of reachable nodes are in any closed order with the root's. *)
Lemma reach_in_order order root i v w :
  ordered order -> vals !! N.to_nat root = Some v -> v ∈ order ->
  reach nodes root i -> vals !! N.to_nat i = Some w -> w ∈ order.
Proof.
  intros Ho Hv Hin Hr. revert v Hv Hin. induction Hr as [i|i j k Hij _ IH];
    intros v Hv Hin Hw; [congruence|].
  destruct Hij as (node & Hnode & Hj).
  pose proof (node_children _ _ _ Hnode Hv) as Hrc.
  apply list_elem_of_lookup in Hj as [p Hp].
  destruct (Forall2_lookup_l _ _ _ _ _ Hrc Hp) as (c & Hc & Hjc).
  eapply (IH c); [exact Hjc| |exact Hw]. eapply ordered_closed; [done|exact Hin|].
  by eapply list_elem_of_lookup_2.
Qed.

Theorem canonical_order_canon root v :
  vals !! N.to_nat root = Some v -> (forall i, i < n -> reach nodes root (N.of_nat i)) ->
  canonical_order nodes root = Ok (canon v).
Proof.
  intros Hv Hreach. unfold canonical_order.
  rewrite (proj2 (Z.ltb_lt _ _)) by done. cbn [negb].
  destruct (visit_sim (S n) root v (replicate n UNVISITED) 0%N [])
    as (m & mapped & next & -> & HW & Hm & _).
  { pose proof (lookup_lt_Some _ _ _ Hv). rewrite len_vals in *. lia. }
  { done. }
  { apply Walking_start. }
  { unfold in_progress. intros j Hj. apply lookup_replicate in Hj as [[=] _]. }
  cbn [mbind outcome_bind].
  assert (ordered (postorder v [])) as Hord.
  { apply postorder_ordered. intros k w Hk. by rewrite lookup_nil in Hk. }
  assert (forall w, w ∈ vals -> w ∈ postorder v []) as Hfull.
  { intros w Hw. apply list_elem_of_lookup in Hw as [i Hi].
    eapply (reach_in_order _ root (N.of_nat i) v w); [done|done|apply elem_of_postorder_self| |
      by rewrite Nat2N.id].
    apply Hreach. rewrite <- len_vals. by eapply lookup_lt_Some. }
  rewrite (wk_next _ _ _ HW), (order_length _ _ _ HW Hfull), Nat.eqb_refl. cbn [negb].
  rewrite (remap_all _ _ _ HW Hfull). cbn [mbind outcome_bind].
  destruct (place_canonical _ _ _ HW Hfull) as [mp ->]. cbn.
  unfold canon. do 2 f_equal.
  rewrite postorder_eq, decide_False in Hm |- * by (by intros ?%elem_of_nil).
  rewrite postorder_eq, decide_False in HW by (by intros ?%elem_of_nil).
  apply (NoDup_lookup _ _ (length (fold_left (fun d c => postorder c d) (children v) [])) v)
    in Hm; [|apply HW|by rewrite list_lookup_middle].
  rewrite length_app. cbn. lia.
Qed.
End Order.
