(* ===== verification/CodecValidate.v ===== *)
(** [Graph::validate] and the [At] deserializer.

    [validate] accepts exactly the graphs whose table denotes values, whose root
    is last and reaches every node, and whose root value is within the decoder's
    limits; it never panics.  An accepted graph decodes, without running out of
    stack, to the value its root denotes. *)

From S2P Require Export CodecOrder.

Section Measures.
Context `{SerdeNumber}.
Local Open Scope Z_scope.

(** Size and depth from the children: references count with multiplicity. *)
Definition sum_sizes (cs : list JValue) : Z := fold_right (fun c acc => tree_size c + acc) 0 cs.
Definition max_depths (cs : list JValue) : Z :=
  fold_right (fun c acc => Z.max (1 + tree_depth c) acc) 1 cs.

Lemma tree_size_children v : tree_size v = 1 + sum_sizes (children v).
Proof.
  destruct v as [| | | |l|l]; cbn; try done; f_equal.
  induction l as [|[k x] l IH]; cbn; [done|]. rewrite IH. lia.
Qed.

Lemma tree_depth_children v : tree_depth v = max_depths (children v).
Proof.
  destruct v as [| | | |l|l]; cbn; try done.
  induction l as [|[k x] l IH]; cbn; [done|]. rewrite IH. lia.
Qed.

Lemma tree_size_pos v : 1 <= tree_size v.
Proof.
  induction v as [| | | |l IH|l IH] using JValue_nested_ind; rewrite tree_size_children; cbn;
    try lia; unfold sum_sizes.
  - induction IH; cbn in *; lia.
  - induction IH as [|[k x] l]; cbn in *; lia.
Qed.

Lemma sum_sizes_nonneg cs : 0 <= sum_sizes cs.
Proof. unfold sum_sizes. induction cs as [|c cs IH]; cbn; [lia|]. pose proof (tree_size_pos c). lia. Qed.

Lemma max_depths_pos cs : 1 <= max_depths cs.
Proof. unfold max_depths. induction cs; cbn; lia. Qed.

Lemma child_size v c : c ∈ children v -> tree_size c < tree_size v.
Proof.
  rewrite (tree_size_children v). induction (children v) as [|x cs IH]; cbn; [set_solver|].
  pose proof (tree_size_pos x). pose proof (sum_sizes_nonneg cs) as Hn.
  unfold sum_sizes in *.
  intros [->|Hc]%elem_of_cons; [lia|]. specialize (IH Hc). lia.
Qed.

Lemma child_depth v c : c ∈ children v -> tree_depth c < tree_depth v.
Proof.
  rewrite (tree_depth_children v). induction (children v) as [|x cs IH]; cbn; [set_solver|].
  unfold max_depths in *. intros [->|Hc]%elem_of_cons; [lia|]. specialize (IH Hc). lia.
Qed.

Lemma keys_sorted_array l : keys_sorted (JArray l) <-> Forall keys_sorted l.
Proof. cbn. induction l as [|x l IH]; cbn; rewrite ?Forall_cons, ?IH; [|done]. by split. Qed.

Lemma keys_sorted_object l :
  keys_sorted (JObject l) <-> ascending l.*1 /\ Forall keys_sorted l.*2.
Proof.
  cbn. enough (fold_right (fun kv acc => keys_sorted kv.2 /\ acc) True l
    <-> Forall keys_sorted l.*2) as -> by done.
  induction l as [|[k x] l IH]; cbn; [by split|]. by rewrite Forall_cons, IH.
Qed.

Lemma keys_sorted_child v c : keys_sorted v -> c ∈ children v -> keys_sorted c.
Proof.
  destruct v as [| | | |l|l]; cbn [children]; try (by intros _ ?%elem_of_nil).
  - rewrite keys_sorted_array, Forall_forall. auto.
  - rewrite keys_sorted_object, Forall_forall. intros [_ Hf] Hc.
    apply list_elem_of_In, in_flat_map in Hc as ([k x] & Hkx & Hc).
    cbn in Hc. destruct Hc as [<-|[<-|[]]]; [done|].
    apply Hf, list_elem_of_fmap. exists (k, x). split; [done|]. by apply list_elem_of_In.
Qed.

Lemma within_child v c : within_limits v -> c ∈ children v -> within_limits c.
Proof.
  intros [[Hd Hs] Hk] Hc. pose proof (child_size _ _ Hc). pose proof (child_depth _ _ Hc).
  split; [lia|]. by eapply keys_sorted_child.
Qed.

End Measures.

Section Accounting.
Context `{SerdeNumber}.
Context (i : nat) (vals : list JValue).
Context (Hsizes : Forall (fun v => tree_size v <= MAX_EXPANDED_NODES)%Z vals)
  (Hdepths : Forall (fun v => tree_depth v <= 128)%Z vals) (Hi : length vals = i).

Lemma account_refs_ok refs cs s0 d0 :
  Forall2 (fun r c => vals !! N.to_nat r = Some c) refs cs ->
  (0 <= s0 <= U32_MAX)%Z -> (1 <= d0)%Z ->
  fold_outcome (account_ref i (map tree_size vals) (map tree_depth vals)) (s0, d0) refs =
  Ok (Z.min (s0 + sum_sizes cs) U32_MAX, Z.max d0 (max_depths cs)).
Proof.
  intros Hrc. revert s0 d0.
  induction Hrc as [|r c refs cs Hr Hrc IH]; intros s0 d0 Hs0 Hd0; cbn.
  - do 2 f_equal; unfold sum_sizes, max_depths; cbn; lia.
  - pose proof (lookup_lt_Some _ _ _ Hr) as Hlt.
    destruct (Nat.leb_spec i (N.to_nat r)) as [?|_]; [lia|].
    rewrite (proj2 (index_ok (map tree_size vals) _ (tree_size c)))
      by (by rewrite list_lookup_fmap, Hr).
    cbn [mbind outcome_bind].
    rewrite (proj2 (index_ok (map tree_depth vals) _ (tree_depth c)))
      by (by rewrite list_lookup_fmap, Hr).
    cbn [mbind outcome_bind]. unfold u8_add, U8_MAX.
    assert (tree_depth c <= 128)%Z as Hd
      by (eapply (Forall_lookup_1 _ _ _ _ Hdepths); exact Hr).
    assert (tree_size c <= MAX_EXPANDED_NODES)%Z as Hs
      by (eapply (Forall_lookup_1 _ _ _ _ Hsizes); exact Hr).
    rewrite (proj2 (Z.leb_le _ _)) by lia. cbn [mbind outcome_bind].
    pose proof (tree_size_pos c). pose proof (sum_sizes_nonneg cs) as Hnn.
    unfold u32_saturating_add, MAX_EXPANDED_NODES, U32_MAX in *.
    rewrite IH by lia. do 2 f_equal; unfold sum_sizes, max_depths in *; cbn; lia.
Qed.

Lemma account_refs_err refs acc :
  Exists (fun r => vals !! N.to_nat r = None) refs ->
  (0 <= acc.1 <= U32_MAX)%Z -> (1 <= acc.2)%Z ->
  exists e, fold_outcome (account_ref i (map tree_size vals) (map tree_depth vals)) acc refs = Err e.
Proof.
  induction refs as [|r refs IH] in acc |- *; intros Hex H0 H1; [by inversion Hex|].
  destruct acc as [s0 d0]; cbn in H0, H1.
  destruct (vals !! N.to_nat r) as [c|] eqn:Hr.
  - assert (Exists (fun r => vals !! N.to_nat r = None) refs) as Hex'
      by (inversion Hex; subst; [congruence|done]).
    change (r :: refs) with ([r] ++ refs). rewrite fold_outcome_app.
    rewrite (account_refs_ok [r] [c]) by (try done; by repeat constructor).
    cbn [mbind outcome_bind]. apply IH; [done| |]; cbn;
      pose proof (tree_size_pos c); unfold U32_MAX in *; lia.
  - exists "DAG references must point backward"%string. cbn.
    apply lookup_ge_None in Hr.
    destruct (Nat.leb_spec i (N.to_nat r)) as [?|?]; [done|lia].
Qed.
End Accounting.

(** ** The object key check *)

Section ObjectKeys.
Context `{SerdeNumber}.
Context (nodes : list Node) (vals : list JValue).
Context (Htable : Table (take (length vals) nodes) vals) (Hlen : length vals <= length nodes).

Lemma node_of_value r v :
  vals !! N.to_nat r = Some v ->
  exists node, nodes !! N.to_nat r = Some node /\ value_of vals node = Some v.
Proof.
  intros Hr. pose proof (lookup_lt_Some _ _ _ Hr) as Hlt.
  destruct (lookup_lt_is_Some_2 nodes (N.to_nat r)) as [node Hn]; [lia|].
  exists node. split; [done|].
  eapply Table_value_of; [exact Htable| |exact Hr].
  rewrite lookup_take. by rewrite decide_True.
Qed.

Definition above (prev : option string) (ks : list string) : Prop :=
  match prev with Some p => ascending (p :: ks) | None => ascending ks end.

Lemma above_cons prev k ks :
  above prev (k :: ks) <->
  match prev with Some p => ord_lt p k | None => True end /\ above (Some k) ks.
Proof.
  destruct prev as [p|]; cbn; [|tauto]. rewrite !ascending_cons, Forall_cons.
  split; [tauto|]. intros [Hpk [Hk Hks]]. repeat split; try done.
  eapply Forall_impl; [exact Hk|]. intros x. by apply ord_lt_trans.
Qed.

Lemma check_key_spec prev kv v :
  vals !! N.to_nat kv.1 = Some v ->
  (exists k, v = JString k /\ match prev with Some p => ord_lt p k | None => True end /\
     check_key nodes prev kv = Ok (Some k)) \/
  (exists e, check_key nodes prev kv = Err e) /\
  (forall k, v = JString k -> ~ match prev with Some p => ord_lt p k | None => True end).
Proof.
  intros Hv. destruct (node_of_value _ _ Hv) as (node & Hn & Hval).
  unfold check_key. rewrite (proj2 (index_ok _ _ _) Hn). cbn [mbind outcome_bind].
  destruct node as [| | |k|a|o]; cbn in Hval;
    try (right; split; [by eexists|]; intros k ->; cbn in Hval;
         first [discriminate Hval | apply fmap_Some in Hval as (? & ? & [=])]).
  injection Hval as <-. destruct prev as [p|]; [|by left; exists k].
  destruct (ord_leb k p) eqn:E.
  - right. split; [by eexists|]. intros k' [= <-] Hlt. by apply ord_leb_not_lt in E.
  - left. exists k. split; [done|]. split; [|done]. unfold ord_leb in E.
    destruct (ord_cmp k p) eqn:E'; try done. by apply ord_gt_lt.
Qed.

Lemma check_keys_spec o prev :
  Forall (fun kv => is_Some (vals !! N.to_nat kv.1) /\ is_Some (vals !! N.to_nat kv.2)) o ->
  (exists es p, mapM (entry_of vals) o = Some es /\ above prev es.*1 /\
     fold_outcome (check_key nodes) prev o = Ok p) \/
  (exists e, fold_outcome (check_key nodes) prev o = Err e) /\
  (forall es, mapM (entry_of vals) o = Some es -> ~ above prev es.*1).
Proof.
  intros Hall. revert prev. induction Hall as [|[k x] o [[kv Hk] [xv Hx]] _ IH]; intros prev.
  - left. exists [], prev. repeat split; try done. destruct prev; cbn; repeat constructor.
  - cbn [fold_outcome mapM].
    assert (entry_of vals (k, x) = match kv with JString s => Some (s, xv) | _ => None end) as He
      by (unfold entry_of; cbn in *; by rewrite Hk, Hx).
    destruct (check_key_spec prev (k, x) kv Hk) as [(s & -> & Hp & ->)|[[e ->] Hno]].
    + rewrite He. cbn. destruct (IH (Some s)) as [(es & p & -> & Hab & ->)|[[e ->] Hno]].
      * left. exists ((s, xv) :: es), p. cbn. repeat split; try done. by apply above_cons.
      * right. split; [by eexists|]. intros es Hes.
        destruct (mapM (entry_of vals) o) as [es'|] eqn:Em; [|done].
        injection Hes as <-. cbn [fmap list_fmap fst]. rewrite above_cons.
        intros [_ Hab]. by eapply Hno.
    + right. split; [by eexists|]. intros es Hes. rewrite He in Hes.
      destruct kv as [| | |s| |]; try done. cbn in Hes.
      destruct (mapM (entry_of vals) o) as [es'|]; [|done]. injection Hes as <-.
      cbn [fmap list_fmap fst]. rewrite above_cons. intros [Hp _]. by eapply Hno.
Qed.
End ObjectKeys.

(** ** One forward step, and the forward pass *)

Section ValidateNode.
Context `{SerdeNumber}.
Context (nodes : list Node) (vals : list JValue).
Context (Htable : Table (take (length vals) nodes) vals) (Hlen : length vals <= length nodes).
Context (Hlimits : Forall within_limits vals).

Definition summaries (vs : list JValue) : list Z * list Z := (map tree_size vs, map tree_depth vs).

Lemma limits_sizes : Forall (fun v => tree_size v <= MAX_EXPANDED_NODES)%Z vals.
Proof. eapply Forall_impl; [exact Hlimits|]. intros v [[_ ?] _]. done. Qed.
Lemma limits_depths : Forall (fun v => tree_depth v <= 128)%Z vals.
Proof. eapply Forall_impl; [exact Hlimits|]. intros v [[? _] _]. done. Qed.

(** Looked-up references of a denoting node are the children of its value. *)
Lemma mapM_children node v :
  value_of vals node = Some v ->
  Forall2 (fun r c => vals !! N.to_nat r = Some c) (node_refs node) (children v).
Proof.
  destruct node as [| | | |a|o]; cbn; try (by intros [= <-]).
  - rewrite fmap_Some. intros (l & Hl & ->). by apply mapM_Some in Hl.
  - rewrite fmap_Some. intros (l & Hl & ->). apply mapM_Some in Hl. cbn.
    induction Hl as [|[k x] [s y] o l He Hl IH]; cbn; [constructor|].
    unfold entry_of in He; cbn in He.
    destruct (vals !! N.to_nat k) as [[| | |s'| |]|] eqn:Ek; try done.
    destruct (vals !! N.to_nat x) as [w'|] eqn:Ex; [|done]. injection He as -> ->.
    by repeat constructor.
Qed.

Lemma refs_resolved (refs : list N) :
  Exists (fun r => vals !! N.to_nat r = None) refs \/
  exists cs, Forall2 (fun r c => vals !! N.to_nat r = Some c) refs cs.
Proof.
  induction refs as [|r refs IH]; [right; by exists []|].
  destruct (vals !! N.to_nat r) as [c|] eqn:Hr; [|by left; left].
  destruct IH as [Hex|[cs Hcs]]; [left; by right|right].
  exists (c :: cs). by constructor.
Qed.

Lemma unresolved_no_value node v :
  Exists (fun r => vals !! N.to_nat r = None) (node_refs node) ->
  value_of vals node <> Some v.
Proof.
  intros Hex Hv. apply mapM_children in Hv. apply Exists_exists in Hex as (r & Hr & Hn).
  apply list_elem_of_lookup in Hr as [j Hj].
  destruct (Forall2_lookup_l _ _ _ _ _ Hv Hj) as (c & _ & Hc). congruence.
Qed.

Lemma resolved_pairs (o : list (N * N)) cs :
  Forall2 (fun r c => vals !! N.to_nat r = Some c) (node_refs (NodeO o)) cs ->
  Forall (fun kv => is_Some (vals !! N.to_nat kv.1) /\ is_Some (vals !! N.to_nat kv.2)) o.
Proof.
  cbn. revert cs. induction o as [|[k x] o IH]; cbn; intros cs Hcs; constructor.
  - inversion Hcs as [|? ? ? ? H1 H2]; subst. inversion H2; subst. cbn. eauto.
  - inversion Hcs as [|? ? ? ? H1 H2]; subst. inversion H2; subst. eauto.
Qed.

Lemma limits_of_children v :
  (forall c, c ∈ children v -> within_limits c) ->
  (tree_depth v <= 128)%Z -> (tree_size v <= MAX_EXPANDED_NODES)%Z ->
  match v with JObject l => ascending l.*1 | _ => True end -> within_limits v.
Proof.
  intros Hc Hd Hs Hasc. split; [done|]. destruct v as [| | | |l|l]; try done.
  - apply keys_sorted_array, Forall_forall. intros x Hx. by apply (Hc x).
  - apply keys_sorted_object. split; [done|]. apply Forall_forall.
    intros x ([k y] & -> & Hin)%list_elem_of_fmap. apply (Hc y).
    apply list_elem_of_In, in_flat_map. exists (k, y).
    split; [by apply list_elem_of_In|cbn; tauto].
Qed.

Lemma resolved_measures node v cs :
  Forall2 (fun r c => vals !! N.to_nat r = Some c) (node_refs node) cs ->
  value_of vals node = Some v ->
  tree_size v = (1 + sum_sizes cs)%Z /\ tree_depth v = max_depths cs /\
  (forall c, c ∈ children v -> within_limits c).
Proof.
  intros Hcs Hv. apply mapM_children in Hv as Hch.
  assert (children v = cs) as Hcv.
  { clear -Hch Hcs. revert Hch Hcs. generalize (node_refs node) as refs, (children v) as ds.
    intros refs ds Hd. revert cs. induction Hd; intros cs Hc; inversion Hc; subst; [done|].
    f_equal; [congruence|eauto]. }
  rewrite tree_size_children, tree_depth_children, Hcv. split; [done|split; [done|]].
  intros c Hc. apply list_elem_of_lookup in Hc as [j Hj].
  destruct (Forall2_lookup_r _ _ _ _ _ Hcs Hj) as (r & _ & Hr).
  by eapply (Forall_lookup_1 _ _ _ _ Hlimits).
Qed.

(** The outcome of one step when the references resolve. *)
Lemma validate_node_resolved i node cs :
  length vals = i -> nodes !! i = Some node ->
  Forall2 (fun r c => vals !! N.to_nat r = Some c) (node_refs node) cs ->
  validate_node nodes (summaries vals) i =
    (let size := Z.min (1 + sum_sizes cs) U32_MAX in
     let depth := max_depths cs in
     if (depth >? 128)%Z || (size >? MAX_EXPANDED_NODES)%Z
     then Err "DAG expansion exceeds decoder limits"
     else
       _ ← match node with NodeO o => fold_outcome (check_key nodes) None o | _ => Ok None end;
       Ok ((summaries vals).1 ++ [size], (summaries vals).2 ++ [depth])).
Proof.
  intros Hi Hn Hcs. unfold validate_node, summaries.
  rewrite (proj2 (index_ok _ _ _) Hn). cbn [mbind outcome_bind].
  rewrite (account_refs_ok i vals limits_sizes limits_depths Hi _ cs) by (by unfold U32_MAX).
  cbn [mbind outcome_bind]. pose proof (max_depths_pos cs).
  by rewrite (Z.max_r 1) by done.
Qed.

Lemma validate_node_spec i node :
  length vals = i -> nodes !! i = Some node ->
  (exists v, value_of vals node = Some v /\ within_limits v /\
     validate_node nodes (summaries vals) i = Ok (summaries (vals ++ [v]))) \/
  (exists e, validate_node nodes (summaries vals) i = Err e) /\
  (forall v, value_of vals node = Some v -> ~ within_limits v).
Proof.
  intros Hi Hn. destruct (refs_resolved (node_refs node)) as [Hex|[cs Hcs]].
  { right. split; [|by intros v Hv%unresolved_no_value].
    unfold validate_node, summaries. rewrite (proj2 (index_ok _ _ _) Hn). cbn [mbind outcome_bind].
    destruct (account_refs_err i vals limits_sizes limits_depths Hi (node_refs node) (1, 1)%Z)
      as [e ->]; [done|by unfold U32_MAX|done|by exists e]. }
  rewrite (validate_node_resolved _ _ _ Hi Hn Hcs). cbn zeta.
  pose proof (sum_sizes_nonneg cs) as Hpos.
  pose proof (fun v => resolved_measures node v cs Hcs) as Hval.
  destruct ((max_depths cs >? 128)%Z || (Z.min (1 + sum_sizes cs) U32_MAX >? MAX_EXPANDED_NODES)%Z)
    eqn:Elim.
  { right. split; [by eexists|]. intros v Hv [[Hd Hs] _].
    destruct (Hval _ Hv) as (Es & Ed & _). unfold U32_MAX, MAX_EXPANDED_NODES in *. lia. }
  assert (Hfit : (max_depths cs <= 128)%Z /\ (1 + sum_sizes cs <= MAX_EXPANDED_NODES)%Z)
    by (unfold U32_MAX, MAX_EXPANDED_NODES in *; lia).
  assert (Hfinish : forall v, value_of vals node = Some v ->
    match v with JObject l => ascending l.*1 | _ => True end ->
    within_limits v /\ ((summaries vals).1 ++ [Z.min (1 + sum_sizes cs) U32_MAX],
      (summaries vals).2 ++ [max_depths cs]) = summaries (vals ++ [v])).
  { intros v Hv Hasc. destruct (Hval _ Hv) as (Es & Ed & Hc). split.
    - apply limits_of_children; [done|lia|lia|done].
    - unfold summaries. cbn. rewrite !map_app. cbn. rewrite Es, Ed.
      by rewrite Z.min_l by (unfold U32_MAX, MAX_EXPANDED_NODES in *; lia). }
  destruct node as [|b|num|s|a|o].
  1-5: left.
  - exists JNull. destruct (Hfinish JNull) as [? <-]; done.
  - exists (JBool b). destruct (Hfinish (JBool b)) as [? <-]; done.
  - exists (JNumber num). destruct (Hfinish (JNumber num)) as [? <-]; done.
  - exists (JString s). destruct (Hfinish (JString s)) as [? <-]; done.
  - assert (value_of vals (NodeA a) = Some (JArray cs)) as Hv
      by (cbn in *; by rewrite (proj2 (mapM_Some _ _ _) Hcs)).
    exists (JArray cs). destruct (Hfinish (JArray cs)) as [? <-]; done.
  - destruct (check_keys_spec nodes vals Htable Hlen o None) as [(es & p & Hes & Hab & ->)|[[e ->] Hno]].
    { by eapply resolved_pairs. }
    + left. exists (JObject es). assert (value_of vals (NodeO o) = Some (JObject es)) as Hv
        by (cbn; by rewrite Hes).
      destruct (Hfinish (JObject es)) as [? <-]; done.
    + right. split; [by eexists|]. intros v Hv [_ Hk]. cbn in Hv.
      apply fmap_Some in Hv as (es & Hes & ->). apply keys_sorted_object in Hk as [Hk _].
      by eapply Hno.
Qed.
End ValidateNode.

Section ForwardPass.
Context `{SerdeNumber}.

Lemma Table_take nodes vals k : Table nodes vals -> Table (take k nodes) (take k vals).
Proof.
  intros [Hl Ht]. split; [rewrite !length_take; lia|].
  intros i node. rewrite !lookup_take. case_decide as Hik; [|done]. intros Hi.
  rewrite take_take, Nat.min_l by lia. by apply Ht.
Qed.

Lemma Table_unique nodes v1 v2 : Table nodes v1 -> Table nodes v2 -> v1 = v2.
Proof.
  intros H1 H2. pose proof H1 as [L1 _]. pose proof H2 as [L2 _].
  enough (forall k, take k v1 = take k v2) as He.
  { specialize (He (length nodes)). by rewrite !take_ge in He by lia. }
  induction k as [|k IH]; [done|].
  destruct (nodes !! k) as [node|] eqn:Hk.
  - destruct (Table_value _ _ _ _ H1 Hk) as (x & Hx & Ex).
    destruct (Table_value _ _ _ _ H2 Hk) as (y & Hy & Ey).
    rewrite (take_S_r _ _ _ Hx), (take_S_r _ _ _ Hy). congruence.
  - apply lookup_ge_None in Hk. rewrite !take_ge in IH |- * by lia. done.
Qed.

Lemma validate_nodes_spec nodes m vals :
  length vals + m = length nodes ->
  Table (take (length vals) nodes) vals -> Forall within_limits vals ->
  (exists vals', Table nodes vals' /\ Forall within_limits vals' /\
     fold_outcome (validate_node nodes) (summaries vals) (seq (length vals) m)
     = Ok (summaries vals')) \/
  (exists e, fold_outcome (validate_node nodes) (summaries vals) (seq (length vals) m) = Err e) /\
  (forall vals', Table nodes vals' -> ~ Forall within_limits vals').
Proof.
  revert vals. induction m as [|m IH]; intros vals Hlen Ht Hw.
  - left. exists vals. rewrite take_ge in Ht by lia. done.
  - cbn [seq fold_outcome].
    destruct (lookup_lt_is_Some_2 nodes (length vals)) as [node Hn]; [lia|].
    destruct (validate_node_spec nodes vals Ht ltac:(lia) Hw (length vals) node)
      as [(v & Hv & Hl & ->)|[[e ->] Hno]]; [done|done| |].
    + cbn [mbind outcome_bind].
      assert (length (vals ++ [v]) = S (length vals)) as El by (rewrite length_app; cbn; lia).
      rewrite <- El. apply IH; [lia| |].
      * rewrite El, (take_S_r _ _ _ Hn). by apply Table_snoc.
      * apply Forall_app. split; [done|]. constructor; [done|constructor].
    + right. split; [by eexists|]. intros vals' Ht' Hw'.
      destruct (Table_value _ _ _ _ Ht' Hn) as (v & Hvv & Hv).
      assert (take (length vals) vals' = vals) as Etk
        by (eapply Table_unique; [apply Table_take; exact Ht'|exact Ht]).
      rewrite Etk in Hv. apply (Hno v Hv). by eapply (Forall_lookup_1 _ _ _ _ Hw').
Qed.

(** ** The backward pass *)

Context (nodes : list Node) (vals : list JValue) (root : N).
Context (Htable : Table nodes vals) (Hroot : N.to_nat root = length nodes - 1)
  (Hne : nodes <> []).

Definition marked (k : nat) (reached : list bool) : Prop :=
  length reached = length nodes /\
  forall j, j < length nodes ->
    (reached !! j = Some true <->
     j = N.to_nat root \/ exists p, (k <= p)%nat /\ p < length nodes /\ edge nodes (N.of_nat p) (N.of_nat j)).

Lemma mark_all_spec (refs : list N) (reached : list bool) j :
  (forall r, r ∈ refs -> N.to_nat r < length reached) ->
  let reached' := fold_left (fun reached r => <[N.to_nat r := true]> reached) refs reached in
  length reached' = length reached /\
  (reached' !! j = Some true <-> reached !! j = Some true \/ N.of_nat j ∈ refs).
Proof.
  cbn zeta. revert reached. induction refs as [|r refs IH]; intros reached Hr; cbn.
  - split; [done|]. rewrite elem_of_nil. tauto.
  - destruct (IH (<[N.to_nat r := true]> reached)) as [IH1 IH2].
    { intros s Hs. rewrite length_insert. apply Hr. by right. }
    rewrite length_insert in IH1. split; [done|]. rewrite IH2, elem_of_cons, list_lookup_insert.
    assert (N.to_nat r < length reached) by (apply Hr; by left).
    case_decide as Hd.
    + destruct Hd as [Hd _]. split; [|tauto]. intros _. right. left. lia.
    + split; [tauto|]. intros [?|[He|?]]; try tauto. exfalso. apply Hd. lia.
Qed.

Lemma edge_bounds i j : edge nodes i j -> N.to_nat j < N.to_nat i < length nodes.
Proof.
  intros (node & Hn & Hj). split; [by eapply Table_refs_lt|by eapply lookup_lt_Some].
Qed.

Lemma marked_step i reached :
  i < length nodes -> marked (S i) reached ->
  let held := i = N.to_nat root \/
    exists p, (S i <= p)%nat /\ p < length nodes /\ edge nodes (N.of_nat p) (N.of_nat i) in
  (held /\ exists reached', mark_refs nodes reached i = Ok reached' /\ marked i reached') \/
  (~ held /\ mark_refs nodes reached i = Err "unreachable DAG node").
Proof.
  cbn zeta. intros Hi [Hlen Hm]. unfold mark_refs.
  destruct (lookup_lt_is_Some_2 reached i) as [b Hb]; [lia|].
  destruct (lookup_lt_is_Some_2 nodes i) as [node Hn]; [lia|].
  rewrite (proj2 (index_ok _ _ _) Hb). cbn [mbind outcome_bind].
  specialize (Hm i Hi) as Hmi. rewrite Hb in Hmi. destruct b; cbn [negb].
  - left. split; [by apply Hmi|].
    rewrite (proj2 (index_ok _ _ _) Hn). cbn [mbind outcome_bind].
    eexists; split; [reflexivity|].
    assert (forall r, r ∈ node_refs node -> N.to_nat r < length reached) as Hrefs.
    { intros r Hr. rewrite Hlen. pose proof (Table_refs_lt _ _ _ _ _ Htable Hn Hr). lia. }
    split; [by destruct (mark_all_spec _ _ 0 Hrefs) as [-> _]|].
    intros j Hj. destruct (mark_all_spec _ _ j Hrefs) as [_ ->]. rewrite (Hm j Hj). split.
    + intros [[->|(p & Hp & Hpn & He)]|Hr]; [by left|right; exists p; repeat split; [lia|done..]|].
      right. exists i. split; [lia|]. split; [done|]. exists node. by rewrite Nat2N.id.
    + intros [->|(p & Hp & Hpn & He)]; [by left; left|].
      destruct (decide (p = i)) as [->|Hne'].
      * right. destruct He as (n' & Hn' & Hr). rewrite Nat2N.id in Hn'. congruence.
      * left. right. exists p. split; [lia|done].
  - right. split; [|done]. by intros Hd%Hmi.
Qed.

Lemma marked_pass k reached :
  (k <= length nodes)%nat -> marked k reached ->
  (forall i, (k <= i)%nat -> i < length nodes -> reach nodes root (N.of_nat i)) ->
  (exists reached', fold_outcome (mark_refs nodes) reached (rev (seq 0 k)) = Ok reached' /\
     forall i, i < length nodes -> reach nodes root (N.of_nat i)) \/
  ((exists e, fold_outcome (mark_refs nodes) reached (rev (seq 0 k)) = Err e) /\
     ~ forall i, i < length nodes -> reach nodes root (N.of_nat i)).
Proof.
  revert reached. induction k as [|k IH]; intros reached Hk Hm Hreach.
  - left. exists reached. split; [done|]. intros i Hi. apply Hreach; [lia|done].
  - rewrite seq_S, rev_app_distr. cbn [rev app Nat.add fold_outcome].
    destruct (marked_step k reached ltac:(lia) Hm) as [[Hd (reached' & -> & Hm')]|[Hd ->]].
    + cbn [mbind outcome_bind].
      apply IH; [lia|done|]. intros i Hki Hi.
      destruct (decide (i = k)) as [->|Hik]; [|apply Hreach; [lia|done]].
      destruct Hd as [->|(p & Hp & Hpn & He)]; [rewrite N2Nat.id; constructor|].
      eapply rtc_r; [|exact He]. apply Hreach; [lia|done].
    + right. split; [by eexists|]. intros Hall. apply Hd.
      specialize (Hall k ltac:(lia)). apply rtc_inv_r in Hall as [Heq|(p & Hp & He)].
      * left. rewrite Heq. by rewrite Nat2N.id.
      * right. pose proof (edge_bounds _ _ He) as Hb. rewrite Nat2N.id in Hb.
        exists (N.to_nat p). rewrite N2Nat.id. repeat split; [lia..|done].
Qed.
End ForwardPass.

Section ValidateSpec.
Context `{SerdeNumber}.

(** What an accepted graph is. *)
Definition accepted (g : Graph) (v : JValue) : Prop :=
  exists vals, Table (g_nodes g) vals /\ vals !! N.to_nat (g_root g) = Some v /\
    N.to_nat (g_root g) = length (g_nodes g) - 1 /\
    (forall i, i < length (g_nodes g) -> reach (g_nodes g) (g_root g) (N.of_nat i)) /\
    within_limits v.

Lemma within_reachable nodes vals i j v w :
  Table nodes vals -> vals !! N.to_nat i = Some v -> within_limits v ->
  reach nodes i j -> vals !! N.to_nat j = Some w -> within_limits w.
Proof.
  intros Ht Hi Hv Hr. revert v w Hi Hv.
  induction Hr as [x|x y z (node & Hn & Hy) Hr IH]; intros v w Hi Hv Hj; [congruence|].
  pose proof (Table_value_of _ _ _ _ _ Ht Hn Hi) as Hval.
  destruct (value_of_refs _ _ _ _ Hval Hy) as (c & Hc & Hcv).
  eapply IH; [exact Hc| |done]. by eapply within_child.
Qed.

Lemma validate_cases g :
  (validate g = Ok () /\ exists v, accepted g v) \/
  ((exists e, validate g = Err e) /\ forall v, ~ accepted g v).
Proof.
  destruct g as [nodes root]. unfold validate, accepted. cbn [g_nodes g_root].
  destruct (Nat.eqb_spec (length nodes) 0) as [E0|E0]; cbn [orb].
  { right. split; [by eexists|]. intros v (vals & [Hl _] & Hv & _).
    apply lookup_lt_Some in Hv. lia. }
  destruct (Nat.eqb_spec (N.to_nat root) (length nodes - 1)) as [Er|Er]; cbn [negb].
  2: { right. split; [by eexists|]. by intros v (vals & _ & _ & ? & _). }
  destruct (validate_nodes_spec nodes (length nodes) []) as [(vals & Ht & Hw & Hf)|[[e He] Hno]];
    [done|apply Table_nil|constructor| |].
  2: { right. change ([], []) with (summaries (@nil JValue)). cbn [length] in He. rewrite He.
    split; [by eexists|]. intros v (vals & Ht & Hv & _ & Hreach & Hl). apply (Hno vals Ht).
    apply Forall_forall. intros w (j & Hj)%list_elem_of_lookup.
    eapply (within_reachable nodes vals root (N.of_nat j)); [done|exact Hv|done| |].
    - apply Hreach. destruct Ht as [<- _]. by eapply lookup_lt_Some.
    - by rewrite Nat2N.id. }
  change ([], []) with (summaries (@nil JValue)). cbn [length] in Hf. rewrite Hf.
  cbn [mbind outcome_bind].
  assert (Hne : nodes <> []) by (by destruct nodes).
  destruct (marked_pass nodes vals root Ht Er (length nodes)
    (<[N.to_nat root := true]> (replicate (length nodes) false)))
    as [(reached & -> & Hreach)|[[e ->] Hno]]; [lia| |lia| |].
  - split; [by rewrite length_insert, length_replicate|]. intros j Hj.
    rewrite list_lookup_insert, length_replicate. case_decide as Hd.
    + destruct Hd as [<- _]. split; [by left|done].
    + rewrite lookup_replicate. split; [by intros [? _]|].
      intros [->|(p & ? & ? & _)]; lia.
  - left. split; [done|].
    destruct (lookup_lt_is_Some_2 vals (N.to_nat root)) as [v Hv];
      [destruct Ht as [-> _]; lia|].
    exists v, vals. repeat (split; [done|]). by eapply (Forall_lookup_1 _ _ _ _ Hw).
  - right. split; [by eexists|]. intros v (vals' & _ & _ & _ & Hreach & _). auto.
Qed.

Lemma accepted_unique g v w : accepted g v -> accepted g w -> v = w.
Proof.
  intros (vals & Ht & Hv & _) (vals' & Ht' & Hw & _).
  rewrite (Table_unique _ _ _ Ht' Ht) in Hw. congruence.
Qed.
End ValidateSpec.
