(* ===== verification/Codec.v ===== *)
(** The artifact codec's contract: what [encode] and [deserialize] promise.

    The canonical graph is a function of the serialized value alone; reading it
    back gives the value, or an error when the value exceeds the decoder's
    limits; and no graph, however malformed, makes the reader panic. *)

From S2P Require Export CodecValidate CodecSerialize.

Section Decode.
Context `{SerdeNumber}.
Context (g : Graph) (vals : list JValue) (Htable : Table (g_nodes g) vals).

Lemma deserialize_any_node id node :
  g_nodes g !! N.to_nat id = Some node ->
  deserialize_any g id = Ok (match node with
    | NodeN => VisitUnit | NodeB b => VisitBool b | NodeI n => VisitNumber n
    | NodeS s => VisitStr s | NodeA a => VisitSeq a | NodeO o => VisitMap o end).
Proof. intros Hn. unfold deserialize_any. by rewrite (proj2 (index_ok _ _ _) Hn). Qed.

Lemma table_node id v :
  vals !! N.to_nat id = Some v -> exists node, g_nodes g !! N.to_nat id = Some node /\
    value_of (take (N.to_nat id) vals) node = Some v.
Proof.
  intros Hv. pose proof (lookup_lt_Some _ _ _ Hv) as Hlt.
  destruct Htable as [Hl Ht]. rewrite Hl in Hlt.
  destruct (lookup_lt_is_Some_2 _ _ Hlt) as [node Hn]. exists node. split; [done|].
  by rewrite (Ht _ _ Hn).
Qed.

Lemma decode_key_ok id s : vals !! N.to_nat id = Some (JString s) -> decode_key g id = Ok s.
Proof.
  intros Hv. destruct (table_node _ _ Hv) as (node & Hn & Hval).
  unfold decode_key. rewrite (deserialize_any_node _ _ Hn).
  destruct node as [| | |s'|a|o]; cbn in *; try discriminate Hval;
    try (apply fmap_Some in Hval as (? & ? & [=])).
  by injection Hval as ->.
Qed.

Lemma entry_in_prefix k kv e :
  entry_of (take k vals) kv = Some e ->
  N.to_nat kv.1 < k /\ N.to_nat kv.2 < k /\
  vals !! N.to_nat kv.1 = Some (JString e.1) /\ vals !! N.to_nat kv.2 = Some e.2.
Proof.
  unfold entry_of. rewrite !lookup_take. case_decide; [|done].
  destruct (vals !! N.to_nat kv.1) as [[| | |s| |]|]; try done. case_decide; [|done].
  destruct (vals !! N.to_nat kv.2) as [w|]; [|done]. by intros [= <-].
Qed.

(** Enough fuel is one more than the node's id: references point backward. *)
Lemma decode_table fuel id v :
  vals !! N.to_nat id = Some v -> N.to_nat id < fuel -> decode fuel g id = Ok v.
Proof.
  revert id v. induction fuel as [|fuel IH]; intros id v Hv Hf; [lia|].
  destruct (table_node _ _ Hv) as (node & Hn & Hval). cbn [decode].
  rewrite (deserialize_any_node _ _ Hn). cbn [mbind outcome_bind].
  destruct node as [| | |s|a|o]; cbn in Hval; try (by injection Hval as <-).
  - apply fmap_Some in Hval as (l & Hl & ->). apply mapM_Some in Hl.
    rewrite (proj2 (map_outcome_ok (decode fuel g) a l)); [done|].
    eapply Forall2_impl; [exact Hl|]. intros r c Hr. cbn in Hr.
    rewrite lookup_take in Hr. case_decide; [|done]. apply IH; [done|lia].
  - apply fmap_Some in Hval as (l & Hl & ->). apply mapM_Some in Hl.
    assert (forall n pending, length o < n ->
      visit_map (decode fuel g) g n {| m_iter := o; m_value := pending |} = Ok l) as ->; [|done|lia].
    clear Hv Hn. induction Hl as [|[k x] [s w] o l He Hl IHl]; intros n pending Hlen;
      (destruct n as [|n]; [cbn in Hlen; lia|]); [done|].
    apply entry_in_prefix in He as (Hk & Hx & Ek & Ex). cbn [fst snd] in *.
    cbn [visit_map next_key_seed m_iter]. rewrite (decode_key_ok _ _ Ek).
    cbn [mbind outcome_bind next_value_seed m_value m_iter ok_or].
    rewrite (IH _ _ Ex) by lia. cbn [mbind outcome_bind].
    rewrite IHl by (cbn in Hlen; lia). done.
Qed.
End Decode.

Section CanonTable.
Context `{SerdeNumber}.

Lemma position_app l1 l2 v : v ∈ l1 -> position (l1 ++ l2) v = position l1 v.
Proof.
  induction l1 as [|w l1 IH]; [by intros ?%elem_of_nil|]. cbn. case_decide; [done|].
  intros [->|?]%elem_of_cons; [done|]. by rewrite IH.
Qed.

Lemma lookup_position order v k :
  v ∈ take k order -> take k order !! N.to_nat (position order v) = Some v.
Proof.
  intros Hv. replace (position order v) with (position (take k order) v);
    [by apply position_lookup|].
  by rewrite <- (position_app (take k order) (drop k order) v Hv), take_drop.
Qed.

(** An ordered list of values is the denotation of its own node table. *)
Lemma node_of_value_of order k v :
  (forall c, c ∈ children v -> c ∈ take k order) ->
  value_of (take k order) (node_of order v) = Some v.
Proof.
  intros Hc. destruct v as [| | | |l|l]; cbn; try done.
  - rewrite (proj2 (mapM_Some _ _ l)); [done|].
    rewrite Forall2_fmap_l. apply Forall_Forall2_diag, Forall_forall. intros x Hx.
    cbn. by apply lookup_position, (Hc x).
  - rewrite (proj2 (mapM_Some _ _ l)); [done|].
    rewrite Forall2_fmap_l. apply Forall_Forall2_diag, Forall_forall. intros [s x] Hx.
    unfold entry_of. cbn.
    assert (forall c, In c [JString s; x] -> c ∈ take k order) as Hsx.
    { intros c Hin. apply Hc. cbn. apply list_elem_of_In, in_flat_map.
      exists (s, x). split; [by apply list_elem_of_In|done]. }
    rewrite (lookup_position order (JString s)) by (apply Hsx; cbn; tauto).
    by rewrite (lookup_position order x) by (apply Hsx; cbn; tauto).
Qed.

Lemma ordered_table order : ordered order -> Table (map (node_of order) order) order.
Proof.
  intros Ho. split; [by rewrite length_map|]. intros i node Hi.
  rewrite list_lookup_fmap in Hi. apply fmap_Some in Hi as (v & Hv & ->).
  rewrite Hv. apply node_of_value_of. intros c. by eapply Ho.
Qed.

Lemma ordered_nil : ordered [].
Proof. intros k w Hk. by rewrite lookup_nil in Hk. Qed.

(** Everything a walk adds is a descendant of the walked value. *)
Inductive descends : JValue -> JValue -> Prop :=
  | descends_refl v : descends v v
  | descends_child v c w : c ∈ children v -> descends c w -> descends v w.

Lemma postorder_descends v seen w :
  w ∈ postorder v seen -> w ∈ seen \/ descends v w.
Proof.
  revert v seen w.
  apply (postorder_ind_children (fun v d d' => forall w, w ∈ d' -> w ∈ d \/ descends v w)).
  - intros; by left.
  - intros v seen seen' _ IH Hd w. subst seen'.
    rewrite elem_of_app, list_elem_of_singleton. intros [Hw| ->]; [|right; constructor].
    revert Hw. generalize seen as d.
    assert (forall cs, (forall c, c ∈ cs -> c ∈ children v) ->
      forall d, w ∈ walk cs d -> w ∈ d \/ descends v w) as Hwalk; [|by apply Hwalk].
    induction cs as [|c cs IHc]; intros Hcs d; cbn; [by left|].
    intros Hw. destruct (IHc ltac:(intros; apply Hcs; by right) _ Hw) as [Hw'|?]; [|by right].
    destruct (IH c (Hcs c ltac:(by left)) _ _ Hw') as [?|?]; [by left|].
    right. eapply descends_child; [apply Hcs; by left|done].
Qed.

Lemma postorder_last v : postorder v [] !! (length (postorder v []) - 1) = Some v.
Proof.
  rewrite postorder_eq, decide_False by (by intros ?%elem_of_nil).
  rewrite length_app. cbn. rewrite Nat.add_sub. by rewrite list_lookup_middle.
Qed.

Lemma edge_child nodes vals i v c :
  Table nodes vals -> vals !! N.to_nat i = Some v -> c ∈ children v ->
  exists j, edge nodes i j /\ vals !! N.to_nat j = Some c.
Proof.
  intros Ht Hv Hc. pose proof Ht as [Hl Hval].
  destruct (lookup_lt_is_Some_2 nodes (N.to_nat i)) as [node Hn];
    [rewrite <- Hl; by eapply lookup_lt_Some|].
  pose proof (Table_value_of _ _ _ _ _ Ht Hn Hv) as Hvo. apply mapM_children in Hvo.
  apply list_elem_of_lookup in Hc as [k Hk].
  destruct (Forall2_lookup_r _ _ _ _ _ Hvo Hk) as (r & Hr & Hrc).
  exists r. split; [|done]. exists node. split; [done|]. by eapply list_elem_of_lookup_2.
Qed.

Lemma descends_reach nodes vals i v w :
  Table nodes vals -> NoDup vals -> vals !! N.to_nat i = Some v -> descends v w ->
  forall j, vals !! N.to_nat j = Some w -> reach nodes i j.
Proof.
  intros Ht Hnd Hi Hd. revert i Hi. induction Hd as [v|v c w Hc _ IH]; intros i Hi j Hj.
  - assert (j = i) as ->; [|constructor]. apply N2Nat.inj. by eapply NoDup_lookup.
  - destruct (edge_child _ _ _ _ _ Ht Hi Hc) as (k & He & Hk).
    eapply rtc_l; [exact He|]. by apply IH.
Qed.

Lemma descends_size v w : descends v w -> (tree_size w <= tree_size v)%Z.
Proof. induction 1 as [v|v c w Hc _ IH]; [lia|]. pose proof (child_size _ _ Hc). lia. Qed.

Lemma walk_descends cs d w :
  w ∈ walk cs d -> w ∈ d \/ exists c, c ∈ cs /\ descends c w.
Proof.
  revert d. induction cs as [|c cs IHc]; intros d; cbn; [by left|].
  intros Hw. destruct (IHc _ Hw) as [Hw'|(c' & Hc' & Hd)].
  - destruct (postorder_descends _ _ _ Hw') as [?|?]; [by left|].
    right. exists c. split; [by left|done].
  - right. exists c'. split; [by right|done].
Qed.

Lemma postorder_NoDup v seen : NoDup seen -> NoDup (postorder v seen).
Proof.
  revert v seen.
  apply (postorder_ind_children (fun _ d d' => NoDup d -> NoDup d')); [done|].
  intros v seen seen' Hnin IH Hd Hnd. subst seen'. apply NoDup_app. repeat split.
  - assert (forall cs, (forall c, c ∈ cs -> c ∈ children v) ->
      forall d, NoDup d -> NoDup (walk cs d)) as Hw; [|by apply Hw].
    induction cs as [|c cs IHc]; intros Hcs d Hdn; cbn; [done|].
    apply IHc; [intros; apply Hcs; by right|]. apply IH; [apply Hcs; by left|done].
  - intros w Hw ->%list_elem_of_singleton.
    destruct (walk_descends _ _ _ Hw) as [?|(c & Hc & Hdc)]; [done|].
    pose proof (child_size _ _ Hc). apply descends_size in Hdc. lia.
  - apply NoDup_singleton.
Qed.

(** ** The canonical graph *)

Lemma canon_order_ok v :
  let order := postorder v [] in
  Table (g_nodes (canon v)) order /\ NoDup order /\
  order !! N.to_nat (g_root (canon v)) = Some v /\
  N.to_nat (g_root (canon v)) = length (g_nodes (canon v)) - 1 /\
  (forall i, i < length (g_nodes (canon v)) ->
     reach (g_nodes (canon v)) (g_root (canon v)) (N.of_nat i)).
Proof.
  cbn zeta.
  assert (Ht : Table (g_nodes (canon v)) (postorder v []))
    by (apply ordered_table, postorder_ordered, ordered_nil).
  assert (Hnd : NoDup (postorder v [])) by (apply postorder_NoDup; constructor).
  assert (Hv : postorder v [] !! N.to_nat (g_root (canon v)) = Some v)
    by (cbn; rewrite Nat2N.id; apply postorder_last).
  split; [done|]. split; [done|]. split; [done|]. split.
  - cbn. by rewrite Nat2N.id, length_map.
  - intros i Hi. destruct (lookup_lt_is_Some_2 (postorder v []) i) as [w Hw];
      [destruct Ht as [-> _]; done|].
    eapply descends_reach; [exact Ht|exact Hnd|exact Hv| |by rewrite Nat2N.id].
    destruct (postorder_descends v [] w) as [?%elem_of_nil|?]; [|done..].
    by eapply list_elem_of_lookup_2.
Qed.

Lemma canon_accepted v : within_limits v -> accepted (canon v) v.
Proof.
  intros Hl. destruct (canon_order_ok v) as (Ht & _ & Hv & Hr & Hreach).
  exists (postorder v []). repeat (split; [done|]). done.
Qed.

Lemma canon_accepted_inv v w : accepted (canon v) w -> v = w /\ within_limits v.
Proof.
  intros (vals & Ht & Hw & _ & _ & Hl). destruct (canon_order_ok v) as (Ht' & _ & Hv & _).
  rewrite (Table_unique _ _ _ Ht Ht') in Hw. split; congruence.
Qed.

Lemma canon_inj v w : canon v = canon w -> v = w.
Proof.
  intros He. destruct (canon_order_ok v) as (Ht & _ & Hv & _).
  destruct (canon_order_ok w) as (Ht' & _ & Hw & _). rewrite He in Ht, Hv.
  rewrite (Table_unique _ _ _ Ht Ht') in Hv. congruence.
Qed.

Lemma accepted_decode g v : accepted g v -> deserialize g = Ok v.
Proof.
  intros Ha. unfold deserialize.
  destruct (validate_cases g) as [[-> _]|[_ Hno]]; [|by destruct (Hno v)].
  cbn [mbind outcome_bind]. destruct Ha as (vals & Ht & Hv & _).
  apply (decode_table g vals Ht); [done|].
  destruct Ht as [<- _]. pose proof (lookup_lt_Some _ _ _ Hv). lia.
Qed.
End CanonTable.

Section Contract.
Context `{SerdeNumber}.

(** Room for every [intern] call of a value in the table of [u32] ids. *)
Definition fits (s : Ser) : Prop := (Z.of_nat (intern_calls s) < U32_MAX - 1)%Z.

Lemma encode_canon {hasher : NodeHasher} s : fits s -> encode s = canon <$> to_value s.
Proof.
  intros Hfits. unfold fits in Hfits. unfold encode.
  pose proof (serialize_emits s 0 [] _ _ BInv_empty) as Ht. cbn in Ht.
  specialize (Ht ltac:(intros i Hi; cbn in Hi; lia) ltac:(lia)).
  destruct (to_value s) as [v|e|m]; [|by rewrite Ht|done].
  destruct Ht as (root & b & vals & -> & [Hb _ _] & Hlen & Hcov & Hv). cbn.
  apply (canonical_order_canon (b_nodes b) vals);
    [apply Hb|apply Hb|lia|done|].
  intros i Hi. destruct (Hcov i) as (r & Hr & Hreach); [lia|].
  cbn in Hr. apply list_elem_of_singleton in Hr as ->. done.
Qed.

Lemma read_canon v :
  (within_limits v -> deserialize (canon v) = Ok v) /\
  (~ within_limits v -> exists e, deserialize (canon v) = Err e).
Proof.
  split; intros Hv; [by apply accepted_decode, canon_accepted|].
  unfold deserialize. destruct (validate_cases (canon v)) as [[_ [w Hw]]|[[e ->] _]].
  - by apply canon_accepted_inv in Hw as [_ ?].
  - by exists e.
Qed.

(** ** Field order *)

Lemma map_outcome_perm {E A B} (f : A -> Outcome E B) l l' r :
  l ≡ₚ l' -> map_outcome f l = Ok r -> exists r', map_outcome f l' = Ok r' /\ r ≡ₚ r'.
Proof.
  intros Hp. revert r. setoid_rewrite map_outcome_ok.
  induction Hp as [|x l l' _ IH|x y l|l l' l'' _ IH1 _ IH2]; intros r Hr.
  - by exists r.
  - inversion Hr as [|? a ? r0 Hx Hl]; subst. destruct (IH _ Hl) as (r' & ? & ?).
    exists (a :: r'). split; [by constructor|by constructor].
  - inversion Hr as [|? a ? r0 Hy Hl]; subst. inversion Hl as [|? b ? r1 Hx Hl1]; subst.
    exists (b :: a :: r1). split; [by repeat constructor|constructor].
  - destruct (IH1 _ Hr) as (r' & Hr' & Hp1). destruct (IH2 _ Hr') as (r'' & Hr'' & Hp2).
    exists r''. split; [done|by etrans].
Qed.

Lemma sort_entries_perm (l l' : list (string * JValue)) :
  NoDup l.*1 -> l ≡ₚ l' -> sort_by entry_leb l = sort_by entry_leb l'.
Proof.
  intros Hnd Hp. pose (R := fun a b : string * JValue => ~ ord_lt b.1 a.1).
  assert (forall x y, entry_leb x y = true -> R x y) as Hle
    by (intros x y; unfold entry_leb, R; by rewrite ord_leb_not_lt).
  assert (forall x y, entry_leb x y = false -> R y x) as Htot.
  { intros x y Hxy Hlt. enough (entry_leb x y = true) by congruence.
    unfold entry_leb. apply ord_leb_not_lt. by apply ord_lt_asym. }
  assert (Transitive R) as Htr.
  { intros x y z Hxy Hyz Hlt. unfold R in *.
    destruct (ord_total x.1 y.1) as [?|[Heq|?]]; [|by rewrite Heq in Hlt|done].
    by apply Hyz, (ord_lt_trans _ x.1). }
  apply (StronglySorted_unique_strong R); [|by apply sort_by_sorted..|by rewrite !sort_by_perm].
  intros [k x] [k' y] Hx Hy Hxy Hyx. rewrite sort_by_perm in Hx, Hy.
  rewrite <- Hp in Hy. unfold R in *; cbn in *.
  destruct (ord_total k k') as [?|[<-|?]]; [done| |done].
  apply list_elem_of_lookup in Hx as [i Hi], Hy as [j Hj].
  assert (i = j) as <-; [|congruence].
  eapply (NoDup_lookup l.*1); [done|rewrite list_lookup_fmap, Hi; done|].
  by rewrite list_lookup_fmap, Hj.
Qed.

Lemma struct_value_perm name name' l l' v :
  l ≡ₚ l' -> NoDup l.*1 -> to_value (SStruct name l) = Ok v ->
  to_value (SStruct name' l') = Ok v.
Proof.
  cbn. intros Hp Hnd Hv. apply outcome_bind_ok in Hv as (es & Hes & [= <-]).
  destruct (map_outcome_perm _ _ _ _ Hp Hes) as (es' & -> & Hpe). cbn.
  unfold object_of. do 2 f_equal. symmetry. apply sort_entries_perm; [|done].
  apply map_outcome_ok in Hes. enough (es.*1 = l.*1) as -> by done.
  clear -Hes. induction Hes as [|[k x] y l es Hxy _ IH]; [done|].
  apply outcome_bind_ok in Hxy as (w & _ & [= <-]). cbn. by rewrite IH.
Qed.
End Contract.

Section Properties.
Context `{SerdeNumber}.

(** C1: encoding gives the canonical graph of the value, for every hash
    function, whenever the calls that serialize the value fit the table of
    32-bit node ids: the walk, the hash-consing table, the depth-first renumbering
    and the in-place permutation together compute [canon], and the only
    failure is the value's own (a number outside JSON, a key that is not a
    string). *)
Theorem encode_spec (hasher : NodeHasher) s :
  fits s -> encode s = canon <$> to_value s.
Proof. apply encode_canon. Qed.

(** Round trip.  A value within the decoder's limits is read back
    unchanged; one beyond them is rejected with an error, never truncated. *)
Theorem decode_encode (hasher : NodeHasher) s v :
  fits s -> to_value s = Ok v ->
  (within_limits v -> (g ← encode s; deserialize g) = Ok v) /\
  (~ within_limits v -> exists e, (g ← encode s; deserialize g) = Err e).
Proof. intros Hf Hv. rewrite (encode_canon s Hf), Hv. apply read_canon. Qed.

(** C3: [Graph::validate] accepts exactly the graphs whose nodes denote
    values through backward references, whose last node is the root and
    reaches every node, and whose root value is within the limits; on every
    other graph it returns an error. *)
Theorem validate_exact g :
  (validate g = Ok () <-> exists v, accepted g v) /\ forall m, validate g <> Panic m.
Proof.
  destruct (validate_cases g) as [[-> Hv]|[[e ->] Hno]].
  - by split; [split|].
  - split; [|done]. split; [done|]. intros [v Hv]. by destruct (Hno v).
Qed.

(** C4: reading is total.  Whatever the graph, [deserialize] returns: an
    error, or the one value an accepted graph denotes.  It neither panics on
    an index nor runs out of the stack that the node count bounds. *)
Theorem deserialize_total g :
  (exists v, deserialize g = Ok v /\ accepted g v) \/
  (exists e, deserialize g = Err e /\ validate g = Err e).
Proof.
  destruct (validate_cases g) as [[_ [v Hv]]|[[e He] _]]; [left|right].
  - exists v. split; [by apply accepted_decode|done].
  - exists e. split; [|done]. unfold deserialize. by rewrite He.
Qed.

(** The encoding is canonical.  Two values encode to the same graph
    exactly when they are the same value, so the artifact's bytes depend on
    neither the hash function nor the traversal history. *)
Theorem encode_canonical (h1 h2 : NodeHasher) s t v w :
  fits s -> fits t -> to_value s = Ok v -> to_value t = Ok w ->
  (encode (hasher := h1) s = encode (hasher := h2) t <-> v = w).
Proof.
  intros Hs Ht Hv Hw. rewrite !encode_canon, Hv, Hw by done. cbn. split; [|congruence].
  intros He. apply canon_inj. congruence.
Qed.

(** A struct's declaration order is invisible: the same fields in any
    order encode to the same graph. *)
Theorem encode_field_order (h1 h2 : NodeHasher) name name' l l' v :
  fits (SStruct name l) -> fits (SStruct name' l') -> l ≡ₚ l' -> NoDup l.*1 ->
  to_value (SStruct name l) = Ok v ->
  encode (hasher := h1) (SStruct name l) = encode (hasher := h2) (SStruct name' l').
Proof.
  intros Hf Hf' Hp Hnd Hv. rewrite !encode_canon by done.
  by rewrite Hv, (struct_value_perm _ _ _ _ _ Hp Hnd Hv).
Qed.
End Properties.

(** ** Witnesses

    A concrete number type and the worst hash function: every node collides. *)
Definition serde_Z : SerdeNumber := {|
  Number := Z;
  number_from_i64 := fun z => z;
  number_from_u64 := fun z => z;
  number_from_i128 := fun z => if decide (- 2 ^ 63 <= z < 2 ^ 64)%Z then Some z else None;
  number_from_u128 := fun z => if decide (z < 2 ^ 64)%Z then Some z else None;
  number_from_f64 := fun z => Some z;
  f64_of_f32 := fun z => z |}.

Definition colliding : @NodeHasher serde_Z := fun _ => 7%N.
Definition by_kind : @NodeHasher serde_Z := fun n =>
  match n with NodeN => 0%N | NodeB _ => 1%N | NodeI _ => 2%N | NodeS _ => 3%N
  | NodeA _ => 4%N | NodeO _ => 5%N end.

(** [struct S { b: [true, -1], a: "b" }] and the same fields the other way. *)
Definition sample_fields : list (string * Ser) :=
  [("b", SSeq [SBool true; SI64 (-1)%Z]); ("a", SStr "b")]%string.
Definition sample : Ser := SStruct "S" sample_fields.
Definition sample' : Ser := SStruct "T" (rev sample_fields).
Definition sample_value : @JValue serde_Z :=
  @JObject serde_Z [("a", @JString serde_Z "b");
    ("b", @JArray serde_Z [@JBool serde_Z true; @JNumber serde_Z (-1)%Z])]%string.

Lemma encode_spec_witness :
  @fits sample /\ @encode serde_Z colliding sample = Ok (@canon serde_Z sample_value).
Proof.
  split; [by unfold fits, U32_MAX; vm_compute|].
  rewrite (@encode_spec serde_Z colliding sample); [reflexivity|].
  by unfold fits, U32_MAX; vm_compute.
Defined.

Lemma decode_encode_witness :
  @within_limits serde_Z sample_value /\
  (g ← @encode serde_Z colliding sample; @deserialize serde_Z g) = Ok sample_value.
Proof.
  assert (@within_limits serde_Z sample_value) as Hw.
  { split; [split; vm_compute; discriminate|]. vm_compute. repeat constructor. }
  split; [exact Hw|].
  apply (@decode_encode serde_Z colliding sample sample_value); [|reflexivity|exact Hw].
  by unfold fits, U32_MAX; vm_compute.
Defined.

Lemma encode_canonical_witness :
  @encode serde_Z colliding sample = @encode serde_Z by_kind sample'.
Proof.
  apply (@encode_canonical serde_Z colliding by_kind sample sample' sample_value sample_value);
    try reflexivity; by unfold fits, U32_MAX; vm_compute.
Defined.

Lemma encode_field_order_witness :
  @encode serde_Z by_kind sample = @encode serde_Z colliding sample'.
Proof.
  apply (@encode_field_order serde_Z by_kind colliding "S" "T" sample_fields (rev sample_fields)
           sample_value); try reflexivity; try (by unfold fits, U32_MAX; vm_compute).
  - apply Permutation_rev.
  - repeat constructor; set_solver.
Defined.
