(* ===== verification/CodecTyped.v ===== *)
(** Typed decoding: how a derived [Deserialize] reads its type from the [At]
    deserializer of [tools/vm-artifact-codec/src/lib.rs] -- the sequence, map,
    option, newtype and enum access -- and the round trip at a type.

    A [Shape] stands for a type with derived implementations, [ser] for the
    calls its [Serialize] makes and [read] for its [Deserialize].  The value of a
    field the type does not have is skipped, which no accepted table makes fail.
    What serde_json makes of a number is a parameter. *)

From S2P Require Export Codec.

(** ** Types and their values *)

Inductive IntKind : Type := I8 | I16 | I32 | I64 | I128 | U8 | U16 | U32 | U64 | U128.

Inductive Shape : Type :=
  | TBool
  | TInt (k : IntKind)
  | TString
  | TUnit
  | TOption (s : Shape)
  | TNewtype (name : string) (s : Shape)
  | TSeq (s : Shape)
  | TTuple (l : list Shape)
  | TMap (s : Shape)
  | TStruct (name : string) (l : list (string * Shape))
  | TEnum (name : string) (l : list (string * VariantShape))
with VariantShape : Type :=
  | VUnit
  | VNewtype (s : Shape)
  | VTuple (l : list Shape)
  | VStruct (l : list (string * Shape)).

Inductive Typed : Type :=
  | DBool (b : bool)
  | DInt (z : Z)
  | DString (s : string)
  | DUnit
  | DNone
  | DSome (v : Typed)
  | DList (l : list Typed)
  | DMap (l : list (string * Typed))
  | DVariant (variant : string) (payload : list Typed).

(** What reads a value at a node. *)
Abbreviation TypedReader := (N -> Res Typed).

Section Reader.
Context `{SerdeNumber} (read_int : IntKind -> Number -> option Z).

(** A number visited at an integer type, or any other event. *)
Definition visit_int (k : IntKind) (e : Visit) : Res Typed :=
  match e with
  | VisitNumber n => z ← ok_or "invalid value: integer" (read_int k n); Ok (DInt z)
  | _ => Err "invalid type"
  end.

(** [deserialize_i128] and [deserialize_u128]. *)
Definition deserialize_128 (g : Graph) (id : N) : Res Visit :=
  node ← index (g_nodes g) (N.to_nat id);
  match node with NodeI n => Ok (VisitNumber n) | _ => deserialize_any g id end.
Definition deserialize_int (k : IntKind) (g : Graph) (id : N) : Res Visit :=
  match k with I128 | U128 => deserialize_128 g id | _ => deserialize_any g id end.

(** The visitor of a tuple: as many elements as it has; what follows is not
    asked for. *)
Fixpoint read_tuple (readers : list TypedReader) (items : list N) : Res (list Typed) :=
  match readers, items with
  | [], _ => Ok []
  | _ :: _, [] => Err "invalid length"
  | reader :: readers, id :: items => v ← reader id; rest ← read_tuple readers items; Ok (v :: rest)
  end.

(** The visitor of a struct from a map: each field at most once, others
    ignored; a field that is missing is an error, or [None] at an option. *)
Definition set_slot (readers : list (string * TypedReader)) (key : string) (id : N) (slots : list (string * Typed))
  : Res (list (string * Typed)) :=
  match List.find (fun field => String.eqb field.1 key) readers with
  | None => Ok slots
  | Some (_, reader) =>
      if existsb (fun slot => String.eqb slot.1 key) slots then Err "duplicate field"
      else v ← reader id; Ok ((key, v) :: slots)
  end.
Fixpoint visit_fields (readers : list (string * TypedReader)) (g : Graph) (n : nat) (st : MapState) (slots : list (string * Typed))
  : Res (list (string * Typed)) :=
  match n with
  | O => Ok slots
  | S n =>
      match next_key_seed st with
      | (None, _) => Ok slots
      | (Some k, st) =>
          key ← decode_key g k;
          '(id, st) ← next_value_seed st;
          slots ← set_slot readers key id slots;
          visit_fields readers g n st slots
      end
  end.
Definition slot (slots : list (string * Typed)) (field : string * bool) : Res Typed :=
  match List.find (fun slot => String.eqb slot.1 field.1) slots with
  | Some (_, v) => Ok v
  | None => if field.2 then Ok DNone else Err "missing field"
  end.
Definition is_option (s : Shape) : bool := match s with TOption _ => true | _ => false end.
Definition read_struct (readers : list (string * TypedReader)) (optional : list (string * bool)) (g : Graph) (e : Visit)
  : Res (list Typed) :=
  match e with
  | VisitMap entries =>
      slots ← visit_fields readers g (S (length entries)) {| m_iter := entries; m_value := None |} [];
      map_outcome (slot slots) optional
  | VisitSeq items => read_tuple (map snd readers) items
  | _ => Err "invalid type"
  end.

(** The visitor of a map with string keys: the entries, in order. *)
Fixpoint visit_entries (reader : TypedReader) (g : Graph) (n : nat) (st : MapState) : Res (list (string * Typed)) :=
  match n with
  | O => Ok []
  | S n =>
      match next_key_seed st with
      | (None, _) => Ok []
      | (Some k, st) =>
          key ← decode_key g k;
          '(id, st) ← next_value_seed st;
          v ← reader id;
          rest ← visit_entries reader g n st;
          Ok ((key, v) :: rest)
      end
  end.

(** What a variant reads from the value of its tag; [None] is a bare tag. *)
Definition VariantReader : Type := option N -> Res (list Typed).

Fixpoint read (s : Shape) (g : Graph) (id : N) {struct s} : Res Typed :=
  match s with
  | TBool => e ← deserialize_any g id; match e with VisitBool b => Ok (DBool b) | _ => Err "invalid type" end
  | TInt k => e ← deserialize_int k g id; visit_int k e
  | TString => DString <$> decode_key g id
  | TUnit => e ← deserialize_any g id; match e with VisitUnit => Ok DUnit | _ => Err "invalid type" end
  | TOption s =>
      e ← deserialize_option g id;
      match e with
      | VisitSome id => DSome <$> read s g id
      | _ => Ok DNone
      end
  | TNewtype _ s => match deserialize_newtype_struct id with VisitNewtypeStruct id => read s g id | _ => Err "invalid type" end
  | TSeq s =>
      e ← deserialize_any g id;
      match e with VisitSeq items => DList <$> map_outcome (read s g) items | _ => Err "invalid type" end
  | TTuple l =>
      e ← deserialize_any g id;
      match e with VisitSeq items => DList <$> read_tuple (map (fun s => read s g) l) items | _ => Err "invalid type" end
  | TMap s =>
      e ← deserialize_any g id;
      match e with
      | VisitMap entries =>
          DMap <$> (bm_of_list <$> visit_entries (read s g) g (S (length entries)) {| m_iter := entries; m_value := None |})
      | _ => Err "invalid type"
      end
  | TStruct _ l =>
      e ← deserialize_any g id;
      DList <$> read_struct (map (fun field => (field.1, read field.2 g)) l) (map (fun field => (field.1, is_option field.2)) l) g e
  | TEnum _ l =>
      e ← deserialize_enum g id;
      '(tag, value) ← match e with
        | VisitEnumStr tag => Ok (tag, None)
        | VisitEnum key value => tag ← decode_key g key; Ok (tag, Some value)
        | _ => Err "invalid type"
        end;
      variant ← ok_or "unknown variant"
        (List.find (fun variant => String.eqb variant.1 tag) (map (fun variant => (variant.1, read_variant variant.2 g)) l));
      DVariant tag <$> variant.2 value
  end
with read_variant (v : VariantShape) (g : Graph) (value : option N) {struct v} : Res (list Typed) :=
  match v, value with
  | VUnit, None => Ok []
  | VUnit, Some id =>
      e ← deserialize_any g id; match e with VisitUnit => Ok [] | _ => Err "invalid type" end
  | VNewtype s, Some id => v ← read s g id; Ok [v]
  | VTuple l, Some id =>
      e ← deserialize_any g id;
      match e with VisitSeq items => read_tuple (map (fun s => read s g) l) items | _ => Err "invalid type" end
  | VStruct l, Some id =>
      e ← deserialize_any g id;
      read_struct (map (fun field => (field.1, read field.2 g)) l) (map (fun field => (field.1, is_option field.2)) l) g e
  | _, None => Err "invalid type: unit variant"
  end.

(** [deserialize] at a type. *)
Definition deserialize_at (s : Shape) (g : Graph) : Res Typed :=
  _ ← validate g; read s g (g_root g).
End Reader.

(** ** Serialization *)

Section Writer.
Context `{SerdeNumber}.

Definition in_range (k : IntKind) (z : Z) : bool :=
  let signed bits := (- 2 ^ (bits - 1) <=? z)%Z && (z <? 2 ^ (bits - 1))%Z in
  let unsigned bits := (0 <=? z)%Z && (z <? 2 ^ bits)%Z in
  match k with
  | I8 => signed 8%Z | I16 => signed 16%Z | I32 => signed 32%Z | I64 => signed 64%Z | I128 => signed 128%Z
  | U8 => unsigned 8%Z | U16 => unsigned 16%Z | U32 => unsigned 32%Z | U64 => unsigned 64%Z | U128 => unsigned 128%Z
  end.
Definition ser_int (k : IntKind) (z : Z) : Ser :=
  match k with
  | I8 => SI8 z | I16 => SI16 z | I32 => SI32 z | I64 => SI64 z | I128 => SI128 z
  | U8 => SU8 z | U16 => SU16 z | U32 => SU32 z | U64 => SU64 z | U128 => SU128 z
  end.
(** The number a value of the kind is written as. *)
Definition int_number (k : IntKind) (z : Z) : option Number :=
  match k with
  | I8 | I16 | I32 | I64 => Some (number_from_i64 z)
  | U8 | U16 | U32 | U64 => Some (number_from_u64 z)
  | I128 => number_from_i128 z
  | U128 => number_from_u128 z
  end.

Fixpoint ser_tuple (writers : list (Typed -> option Ser)) (vs : list Typed) : option (list Ser) :=
  match writers, vs with
  | [], [] => Some []
  | writer :: writers, v :: vs => c ← writer v; rest ← ser_tuple writers vs; Some (c :: rest)
  | _, _ => None
  end.
Fixpoint ser_fields (writers : list (string * (Typed -> option Ser))) (vs : list Typed) : option (list (string * Ser)) :=
  match writers, vs with
  | [], [] => Some []
  | (name, writer) :: writers, v :: vs => c ← writer v; rest ← ser_fields writers vs; Some ((name, c) :: rest)
  | _, _ => None
  end.

(** The calls of a derived [Serialize]; [None] for a value of another type. *)
Fixpoint ser (s : Shape) (v : Typed) {struct s} : option Ser :=
  match s, v with
  | TBool, DBool b => Some (SBool b)
  | TInt k, DInt z => if in_range k z then Some (ser_int k z) else None
  | TString, DString s => Some (SStr s)
  | TUnit, DUnit => Some SUnit
  | TOption s, DNone => Some SNone
  | TOption s, DSome v => SSome <$> ser s v
  | TNewtype name s, v => SNewtypeStruct name <$> ser s v
  | TSeq s, DList vs => SSeq <$> mapM (ser s) vs
  | TTuple l, DList vs => STuple <$> ser_tuple (map ser l) vs
  | TMap s, DMap m =>
      if bool_decide (bs_of_list m.*1 = m.*1) then SMap <$> mapM (fun kv => (fun c => (SStr kv.1, c)) <$> ser s kv.2) m else None
  | TStruct name l, DList vs => SStruct name <$> ser_fields (map (fun field => (field.1, ser field.2)) l) vs
  | TEnum name l, DVariant tag payload =>
      variant ← List.find (fun variant => String.eqb variant.1 tag) (map (fun variant => (variant.1, ser_variant variant.2 name tag)) l);
      variant.2 payload
  | _, _ => None
  end
with ser_variant (v : VariantShape) (name tag : string) (payload : list Typed) {struct v} : option Ser :=
  match v, payload with
  | VUnit, [] => Some (SUnitVariant name tag)
  | VNewtype s, [v] => SNewtypeVariant name tag <$> ser s v
  | VTuple l, vs => STupleVariant name tag <$> ser_tuple (map ser l) vs
  | VStruct l, vs => SStructVariant name tag <$> ser_fields (map (fun field => (field.1, ser field.2)) l) vs
  | _, _ => None
  end.
End Writer.

(** Types whose values are written as [null]. *)
Fixpoint nullable (s : Shape) : bool :=
  match s with TUnit | TOption _ => true | TNewtype _ s => nullable s | _ => false end.

(** Types a derived pair of implementations agrees on: an option of a type that
    may be [null] does not tell [Some] from [None]; the fields of a struct have
    names of their own. *)
Fixpoint unambiguous (s : Shape) : bool :=
  match s with
  | TBool | TInt _ | TString | TUnit => true
  | TOption s => negb (nullable s) && unambiguous s
  | TNewtype _ s | TSeq s | TMap s => unambiguous s
  | TTuple l => forallb unambiguous l
  | TStruct _ l => bool_decide (NoDup l.*1) && forallb (fun field => unambiguous field.2) l
  | TEnum _ l => forallb (fun variant => unambiguous_variant variant.2) l
  end
with unambiguous_variant (v : VariantShape) : bool :=
  match v with
  | VUnit => true
  | VNewtype s => unambiguous s
  | VTuple l => forallb unambiguous l
  | VStruct l => bool_decide (NoDup l.*1) && forallb (fun field => unambiguous field.2) l
  end.

Section ShapeInd.
Context (P : Shape -> Prop) (Q : VariantShape -> Prop).
Context (Hbool : P TBool) (Hint : forall k, P (TInt k)) (Hstring : P TString) (Hunit : P TUnit)
  (Hoption : forall s, P s -> P (TOption s)) (Hnewtype : forall name s, P s -> P (TNewtype name s))
  (Hseq : forall s, P s -> P (TSeq s)) (Htuple : forall l, Forall P l -> P (TTuple l))
  (Hmap : forall s, P s -> P (TMap s))
  (Hstruct : forall name l, Forall (fun field => P field.2) l -> P (TStruct name l))
  (Henum : forall name l, Forall (fun variant => Q variant.2) l -> P (TEnum name l))
  (Hvunit : Q VUnit) (Hvnewtype : forall s, P s -> Q (VNewtype s)) (Hvtuple : forall l, Forall P l -> Q (VTuple l))
  (Hvstruct : forall l, Forall (fun field => P field.2) l -> Q (VStruct l)).

Fixpoint Shape_deep (s : Shape) : P s :=
  let all := fix all (l : list Shape) : Forall P l :=
    match l with [] => @List.Forall_nil _ _ | s :: l => @List.Forall_cons _ _ s l (Shape_deep s) (all l) end in
  let named := fix named (l : list (string * Shape)) : Forall (fun field => P field.2) l :=
    match l with
    | [] => @List.Forall_nil _ _
    | (name, s) :: l => @List.Forall_cons _ (fun field => P field.2) (name, s) l (Shape_deep s) (named l)
    end in
  let variants := fix variants (l : list (string * VariantShape)) : Forall (fun variant => Q variant.2) l :=
    match l with
    | [] => @List.Forall_nil _ _
    | (name, v) :: l => @List.Forall_cons _ (fun variant => Q variant.2) (name, v) l (VariantShape_deep v) (variants l)
    end in
  match s with
  | TBool => Hbool | TInt k => Hint k | TString => Hstring | TUnit => Hunit
  | TOption s => Hoption s (Shape_deep s) | TNewtype name s => Hnewtype name s (Shape_deep s)
  | TSeq s => Hseq s (Shape_deep s) | TTuple l => Htuple l (all l) | TMap s => Hmap s (Shape_deep s)
  | TStruct name l => Hstruct name l (named l) | TEnum name l => Henum name l (variants l)
  end
with VariantShape_deep (v : VariantShape) : Q v :=
  let all := fix all (l : list Shape) : Forall P l :=
    match l with [] => @List.Forall_nil _ _ | s :: l => @List.Forall_cons _ _ s l (Shape_deep s) (all l) end in
  let named := fix named (l : list (string * Shape)) : Forall (fun field => P field.2) l :=
    match l with
    | [] => @List.Forall_nil _ _
    | (name, s) :: l => @List.Forall_cons _ (fun field => P field.2) (name, s) l (Shape_deep s) (named l)
    end in
  match v with
  | VUnit => Hvunit | VNewtype s => Hvnewtype s (Shape_deep s) | VTuple l => Hvtuple l (all l)
  | VStruct l => Hvstruct l (named l)
  end.
End ShapeInd.

(** ** Reading what a table denotes *)

Lemma sort_entries_ascending `{SerdeNumber} (es : list (string * JValue)) : ascending es.*1 -> sort_by entry_leb es = es.
Proof.
  induction es as [|e es IH]; [done|]. cbn [fmap list_fmap]. intros [He Hes]%ascending_cons.
  change (sort_by entry_leb (e :: es)) with (insert_by entry_leb e (sort_by entry_leb es)). rewrite IH by done.
  destruct es as [|e' es]; [done|]. cbn [insert_by]. assert (entry_leb e e' = true) as ->; [|done].
  unfold entry_leb. apply ord_leb_not_lt, ord_lt_asym. by apply Forall_cons in He as [? _].
Qed.

Lemma bm_of_list_ascended {V} (m : list (string * V)) : ascending m.*1 -> bm_of_list m = m.
Proof.
  intros Hm. apply bm_ext; [apply bm_of_list_ascending|exact Hm|]. intros k.
  destruct (bm_get k m) as [v|] eqn:E.
  - apply (bm_get_unique m k v); [by apply ascending_NoDup|by apply bm_get_elem].
  - destruct (bm_get k (bm_of_list m)) as [v|] eqn:E'; [|done].
    apply (bm_get_unique m k v) in E'; [|by apply ascending_NoDup]. apply bm_elem_get in E'; [congruence|exact Hm].
Qed.

Section RoundTrip.
Context `{SerdeNumber} (read_int : IntKind -> Number -> option Z).
(** A number is read at the kind it was written at. *)
Context (read_written : forall k z n, in_range k z = true -> int_number k z = Some n -> read_int k n = Some z).

Section InTable.
Context (g : Graph) (vals : list JValue) (Htable : Table (g_nodes g) vals).

Definition denotes (id : N) (v : JValue) : Prop := vals !! N.to_nat id = Some v.

Lemma denotes_node id v : denotes id v -> exists node, g_nodes g !! N.to_nat id = Some node /\
  index (g_nodes g) (N.to_nat id) = (Ok node : Res Node) /\
  match v with
  | JNull => node = NodeN | JBool b => node = NodeB b | JNumber n => node = NodeI n | JString s => node = NodeS s
  | JArray l => exists refs, node = NodeA refs /\ Forall2 denotes refs l
  | JObject l => exists o, node = NodeO o /\ Forall2 (fun kv e => denotes kv.1 (JString e.1) /\ denotes kv.2 e.2) o l
  end.
Proof.
  intros Hv. destruct (table_node g vals Htable _ _ Hv) as (node & Hn & Hval). exists node.
  split; [done|]. split; [by apply index_ok|].
  destruct node as [|b|n|s|a|o]; cbn in Hval; try (by injection Hval as <-).
  - apply fmap_Some in Hval as (l & Hl & ->). exists a. split; [done|]. apply mapM_Some in Hl.
    eapply Forall2_impl; [exact Hl|]. intros r c Hr. cbn in Hr. rewrite lookup_take in Hr. by case_decide.
  - apply fmap_Some in Hval as (l & Hl & ->). exists o. split; [done|]. apply mapM_Some in Hl.
    eapply Forall2_impl; [exact Hl|]. intros kv e He. by apply (entry_in_prefix vals) in He as (_ & _ & ? & ?).
Qed.

Lemma any_visit id v : denotes id v -> exists e, deserialize_any g id = Ok e /\
  match v with
  | JNull => e = VisitUnit | JBool b => e = VisitBool b | JNumber n => e = VisitNumber n | JString s => e = VisitStr s
  | JArray l => exists refs, e = VisitSeq refs /\ Forall2 denotes refs l
  | JObject l => exists o, e = VisitMap o /\ Forall2 (fun kv e => denotes kv.1 (JString e.1) /\ denotes kv.2 e.2) o l
  end.
Proof.
  intros (node & Hn & _ & Hcase)%denotes_node. rewrite (deserialize_any_node g id node Hn).
  destruct v as [|b|n|s|l|l]; cbn in Hcase; subst; try (eexists; split; [reflexivity|reflexivity]).
  - destruct Hcase as (refs & -> & Hf). eexists. split; [reflexivity|]. by exists refs.
  - destruct Hcase as (o & -> & Hf). eexists. split; [reflexivity|]. by exists o.
Qed.

Abbreviation Reads := (fun (reader : N -> Res Typed) (v : Typed) (j : JValue) => forall id, denotes id j -> reader id = Ok v).

Lemma read_tuple_ok readers vs js refs :
  Forall3 Reads readers vs js -> Forall2 denotes refs js -> read_tuple readers refs = Ok vs.
Proof.
  intros Hr. revert refs. induction Hr as [|reader v j readers vs js Hread _ IH]; intros refs Hrefs.
  - by inversion Hrefs.
  - apply Forall2_cons_inv_r in Hrefs as (r & refs' & Hr & Hrefs & ->). cbn. rewrite (Hread r Hr). cbn. by rewrite (IH refs').
Qed.

Lemma visit_entries_ok reader o es vs n pending :
  Forall2 (fun kv e => denotes kv.1 (JString e.1) /\ denotes kv.2 e.2) o es ->
  Forall2 (fun (kv : string * Typed) e => kv.1 = e.1 /\ Reads reader kv.2 e.2) vs es ->
  length o < n -> visit_entries reader g n {| m_iter := o; m_value := pending |} = Ok vs.
Proof.
  intros Ho. revert vs n pending. induction Ho as [|[k x] [s j] o es [Hk Hx] _ IH]; intros vs n pending Hv Hlen;
    (destruct n as [|n]; [cbn in Hlen; lia|]).
  - by inversion Hv.
  - apply Forall2_cons_inv_r in Hv as ([s' v] & vs' & [Hs Hread] & Hv & ->). cbn in Hs, Hread, Hk, Hx. subst s'.
    cbn [visit_entries next_key_seed m_iter]. rewrite (decode_key_ok g vals Htable _ _ Hk).
    cbn [mbind outcome_bind next_value_seed m_value m_iter ok_or]. rewrite (Hread x Hx). cbn [mbind outcome_bind].
    rewrite (IH vs' n) by (done || cbn in Hlen; lia). done.
Qed.
(** The fields of a struct, in the order of their keys. *)
Definition field_read (readers : list (string * TypedReader)) (e : string * JValue) (kv : string * Typed) : Prop :=
  e.1 = kv.1 /\ exists reader, List.find (fun field => String.eqb field.1 e.1) readers = Some (e.1, reader) /\ Reads reader kv.2 e.2.

Lemma set_slot_ok readers e kv id slots :
  field_read readers e kv -> kv.1 ∉ slots.*1 -> denotes id e.2 -> set_slot readers e.1 id slots = Ok (kv :: slots).
Proof.
  destruct kv as [k v]. intros (Hk & reader & Hfind & Hread) Hnew Hid. cbn in *. unfold set_slot. rewrite Hfind.
  assert (existsb (fun slot : string * Typed => String.eqb slot.1 e.1) slots = false) as ->.
  { apply Bool.not_true_is_false. intros ([k' v'] & Hin & Heq%String.eqb_eq)%existsb_exists. apply Hnew. rewrite <- Hk, <- Heq.
    apply list_elem_of_fmap. exists (k', v'). split; [done|by apply list_elem_of_In]. }
  rewrite (Hread id Hid). cbn. by rewrite Hk.
Qed.

Lemma visit_fields_ok readers o es kvs n pending slots :
  Forall2 (fun kv e => denotes kv.1 (JString e.1) /\ denotes kv.2 e.2) o es -> Forall2 (field_read readers) es kvs ->
  NoDup (kvs.*1 ++ slots.*1) -> length o < n ->
  visit_fields readers g n {| m_iter := o; m_value := pending |} slots = Ok (rev kvs ++ slots).
Proof.
  intros Ho. revert kvs n pending slots.
  induction Ho as [|[k x] e o es [Hk Hx] _ IH]; intros kvs n pending slots Hread Hnd Hlen; (destruct n as [|n]; [cbn in Hlen; lia|]).
  - by inversion Hread.
  - apply Forall2_cons_inv_l in Hread as (kv & kvs' & He & Hread & ->). cbn in Hk, Hx. cbn [fmap list_fmap app] in Hnd.
    pose proof Hnd as [Hnew _]%NoDup_cons. rewrite elem_of_app in Hnew.
    cbn [visit_fields next_key_seed m_iter]. rewrite (decode_key_ok g vals Htable _ _ Hk).
    cbn [mbind outcome_bind next_value_seed m_value m_iter ok_or].
    rewrite (set_slot_ok readers e kv x slots He) by (tauto || done). cbn [mbind outcome_bind].
    rewrite (IH kvs' n None (kv :: slots)); [cbn; by rewrite <- app_assoc|done| |cbn in Hlen; lia].
    cbn [fmap list_fmap]. by rewrite <- Permutation_middle.
Qed.

Lemma find_named {A B} (h : A -> B) (l : list (string * A)) k :
  List.find (fun x => String.eqb x.1 k) (map (fun x => (x.1, h x.2)) l)
  = (fun x => (x.1, h x.2)) <$> List.find (fun x => String.eqb x.1 k) l.
Proof. induction l as [|[k' x] l IH]; [done|]. cbn. by destruct (String.eqb k' k). Qed.

Lemma find_row {A} (l : list (string * A)) k x :
  NoDup l.*1 -> (k, x) ∈ l -> List.find (fun x => String.eqb x.1 k) l = Some (k, x).
Proof.
  induction l as [|[k' x'] l IH]; cbn [fmap list_fmap]; [by intros _ ?%elem_of_nil|]. intros [Hk Hl]%NoDup_cons Hin. cbn.
  apply elem_of_cons in Hin as [[= <- <-]|Hin]; [by rewrite String.eqb_refl|].
  destruct (String.eqb k' k) eqn:E; [|by apply IH]. apply String.eqb_eq in E as ->. exfalso. apply Hk.
  apply list_elem_of_fmap. by exists (k, x).
Qed.

Lemma slots_read (kvs slots : list (string * Typed)) optional :
  NoDup slots.*1 -> slots ≡ₚ kvs -> optional.*1 = kvs.*1 -> map_outcome (slot slots) optional = Ok kvs.*2.
Proof.
  intros Hnd Hp Hnames. apply map_outcome_ok.
  assert (forall kv, kv ∈ kvs -> kv ∈ slots) as Hin by (intros kv; by rewrite Hp).
  clear Hp. revert optional Hnames. induction kvs as [|[k v] kvs IH]; intros [|[k' b] optional] Hnames; try done.
  injection Hnames as -> Hnames. constructor; [|apply IH; [intros kv Hkv; apply Hin; by right|done]].
  unfold slot. cbn. rewrite (find_row slots k v); [done|done|]. apply Hin. by left.
Qed.

Lemma read_struct_ok (fields : list (string * Shape)) (kvs : list (string * Typed)) es o :
  NoDup fields.*1 -> kvs.*1 = fields.*1 ->
  Forall2 (field_read (map (fun field => (field.1, read read_int field.2 g)) fields)) es kvs ->
  Forall2 (fun kv e => denotes kv.1 (JString e.1) /\ denotes kv.2 e.2) o (sort_by entry_leb es) ->
  read_struct (map (fun field => (field.1, read read_int field.2 g)) fields)
    (map (fun field => (field.1, is_option field.2)) fields) g (VisitMap o) = Ok kvs.*2.
Proof.
  intros Hnd Hnames Hread Ho.
  destruct (Permutation_Forall2 (symmetry (sort_by_perm entry_leb es)) Hread) as (kvs' & Hp & Hread').
  assert (NoDup kvs'.*1) as Hnd' by (rewrite <- Hp, Hnames; done).
  unfold read_struct. rewrite (visit_fields_ok _ o _ kvs' _ None []) by (done || (cbn; rewrite ?app_nil_r; done) || lia).
  cbn [mbind outcome_bind]. rewrite app_nil_r. apply slots_read.
  - rewrite <- (Permutation_rev kvs'). done.
  - rewrite <- (Permutation_rev kvs'). by symmetry.
  - rewrite Hnames. rewrite <- list_fmap_compose. done.
Qed.

(** ** What is written is read *)

Definition shape_reads (s : Shape) : Prop := forall v c j,
  unambiguous s = true -> ser s v = Some c -> to_value c = Ok j -> Reads (read read_int s g) v j.
Definition variant_reads (v : VariantShape) : Prop := forall name tag payload c j,
  unambiguous_variant v = true -> ser_variant v name tag payload = Some c -> to_value c = Ok j ->
  (j = JString tag /\ read_variant read_int v g None = Ok payload) \/
  (exists w, j = JObject [(tag, w)] /\ forall id, denotes id w -> read_variant read_int v g (Some id) = Ok payload).

Lemma tuple_reads l vs cs js :
  Forall shape_reads l -> forallb unambiguous l = true -> ser_tuple (map ser l) vs = Some cs ->
  map_outcome to_value cs = Ok js -> Forall3 Reads (map (fun s => read read_int s g) l) vs js.
Proof.
  intros Hl. revert vs cs js.
  induction Hl as [|s l Hs _ IH]; intros [|v vs] cs js Hu Hser Hjs; cbn in Hser; try done.
  - injection Hser as <-. injection Hjs as <-. constructor.
  - apply andb_prop in Hu as [Hu1 Hu]. destruct (ser s v) as [c|] eqn:Ec; [|done].
    cbn in Hser. destruct (ser_tuple (map ser l) vs) as [cs'|] eqn:Ecs; [|done]. injection Hser as <-.
    apply map_outcome_ok, Forall2_cons_inv_l in Hjs as (j & js' & Hj & Hjs & ->).
    constructor; [by apply (Hs v c)|]. apply (IH _ cs'); [done..|by apply map_outcome_ok].
Qed.

Lemma fields_read all l vs fs es :
  NoDup all.*1 -> Forall (fun field => field ∈ all /\ shape_reads field.2) l ->
  forallb (fun field => unambiguous field.2) l = true ->
  ser_fields (map (fun field => (field.1, ser field.2)) l) vs = Some fs ->
  map_outcome (fun '(k, x) => v ← to_value x; Ok (k, v)) fs = Ok es ->
  exists kvs, kvs.*1 = l.*1 /\ kvs.*2 = vs /\
    Forall2 (field_read (map (fun field => (field.1, read read_int field.2 g)) all)) es kvs.
Proof.
  intros Hnd Hl. revert vs fs es.
  induction Hl as [|[name s] l [Hin Hs] _ IH]; intros [|v vs] fs es Hu Hser Hes; cbn in Hser; try done.
  - injection Hser as <-. injection Hes as <-. by exists [].
  - apply andb_prop in Hu as [Hu1 Hu]. destruct (ser s v) as [c|] eqn:Ec; [|done].
    cbn in Hser. destruct (ser_fields _ vs) as [fs'|] eqn:Efs; [|done]. injection Hser as <-.
    apply map_outcome_ok, Forall2_cons_inv_l in Hes as (e & es' & He & Hes & ->).
    apply outcome_bind_ok in He as (j & Hj & [= <-]).
    destruct (IH vs fs' es' Hu Efs) as (kvs & Hk & Hv & Hread); [by apply map_outcome_ok|].
    exists ((name, v) :: kvs). cbn. rewrite Hk, Hv. split; [done|]. split; [done|]. constructor; [|done].
    split; [done|]. exists (read read_int s g). split; [|by apply (Hs v c)].
    cbn [fst]. rewrite (find_named (fun s => read read_int s g) all), (find_row all name s Hnd Hin). done.
Qed.

Lemma struct_reads l vs fs es id :
  Forall (fun field => shape_reads field.2) l ->
  bool_decide (NoDup l.*1) && forallb (fun field => unambiguous field.2) l = true ->
  ser_fields (map (fun field => (field.1, ser field.2)) l) vs = Some fs ->
  map_outcome (fun '(k, x) => v ← to_value x; Ok (k, v)) fs = Ok es -> denotes id (object_of es) ->
  (e ← deserialize_any g id;
   read_struct (map (fun field => (field.1, read read_int field.2 g)) l)
     (map (fun field => (field.1, is_option field.2)) l) g e) = Ok vs.
Proof.
  intros Hl [Hnd%bool_decide_eq_true Hu]%andb_prop Hser Hes Hid.
  destruct (any_visit id _ Hid) as (e & -> & o & -> & Ho). cbn [mbind outcome_bind].
  destruct (fields_read l l vs fs es Hnd) as (kvs & Hk & <- & Hread); [|done..|].
  { apply Forall_forall. intros field Hin. split; [done|]. revert field Hin. by apply Forall_forall. }
  by apply (read_struct_ok l kvs es).
Qed.

(** An integer is written as the number of its kind. *)
Lemma int_written k z j : to_value (ser_int k z) = Ok j -> exists n, j = JNumber n /\ int_number k z = Some n.
Proof.
  destruct k; cbn; try (intros [= <-]; eexists; split; reflexivity); unfold number_or_err.
  - destruct (number_from_i128 z); [|done]. cbn. intros [= <-]. by eexists.
  - destruct (number_from_u128 z); [|done]. cbn. intros [= <-]. by eexists.
Qed.

(** Only the types [nullable] names are written as [null]. *)
Lemma variant_written v name tag payload c j : ser_variant v name tag payload = Some c -> to_value c = Ok j -> j <> JNull.
Proof.
  intros Hser Hj.
  destruct v; [destruct payload; [|done]|destruct payload as [|? [|]]; try done|..]; cbn [ser_variant] in Hser;
    [injection Hser as <-; injection Hj as <-; done|..];
    (apply fmap_Some in Hser as (c' & _ & ->); cbn [to_value] in Hj; apply outcome_bind_ok in Hj as (? & _ & [= <-]); done).
Qed.

Lemma written_null s v c j : nullable s = false -> ser s v = Some c -> to_value c = Ok j -> j <> JNull.
Proof.
  revert v c j. induction s; intros v c j Hn Hser Hj; try discriminate Hn; destruct v; cbn [ser] in Hser;
    try discriminate Hser; cbn [nullable] in Hn; try case_bool_decide; try discriminate Hser.
  all: try (apply fmap_Some in Hser as (c' & Hc & ->); cbn [to_value] in Hj).
  all: try (by eapply IHs).
  all: try (apply outcome_bind_ok in Hj as (? & _ & [= <-]); done).
  all: try (injection Hser as <-; injection Hj as <-; done).
  - destruct (in_range k z); [|done]. injection Hser as <-. by apply int_written in Hj as (n & -> & _).
  - apply bind_Some in Hser as ([name' writer] & Hfind & Hser). 
    rewrite (find_named (fun v => ser_variant v name variant) l) in Hfind. 
    apply fmap_Some in Hfind as ([name'' v] & _ & [= -> ->]). by eapply variant_written.
Qed.

Lemma map_written (m : list (string * Typed)) s cs es :
  mapM (fun kv => (fun c => (SStr kv.1, c)) <$> ser s kv.2) m = Some cs ->
  map_outcome (fun '(k, x) => kv ← to_value k; key ← key_of kv; v ← to_value x; Ok (key, v)) cs = Ok es ->
  Forall2 (fun kv e => kv.1 = e.1 /\ exists c, ser s kv.2 = Some c /\ to_value c = Ok e.2) m es.
Proof.
  intros Hm%mapM_Some Hes%map_outcome_ok. revert es Hes.
  induction Hm as [|[k v] c m cs Hc _ IH]; intros es Hes; [inversion Hes; constructor|].
  apply Forall2_cons_inv_l in Hes as (e & es' & He & Hes & ->). apply fmap_Some in Hc as (x & Hx & ->). cbn in *.
  apply outcome_bind_ok in He as (j & Hj & [= <-]). constructor; [|by apply IH]. split; [done|]. by exists x.
Qed.

Lemma map_reads s : shape_reads s -> shape_reads (TMap s).
Proof.
  intros Hs [] c j Hu Hser Hj; try done. rename l into m. cbn [ser] in Hser. case_bool_decide as Hm; [|done].
  apply fmap_Some in Hser as (cs & Hcs & ->). cbn [to_value] in Hj. apply outcome_bind_ok in Hj as (es & Hes & [= <-]).
  pose proof (map_written m s cs es Hcs Hes) as Hw.
  assert (ascending m.*1) as Ha by (rewrite <- Hm; apply bs_of_list_ascending).
  assert (es.*1 = m.*1) as Hkeys.
  { clear -Hw. induction Hw as [|kv e m es [Hk _] _ IH]; [done|]. cbn. by rewrite Hk, IH. }
  intros id Hid. destruct (any_visit id _ Hid) as (e & He & o & -> & Ho). cbn [read]. rewrite He. cbn [mbind outcome_bind].
  rewrite sort_entries_ascending in Ho by (by rewrite Hkeys).
  rewrite (visit_entries_ok (read read_int s g) o es m); [cbn; by rewrite bm_of_list_ascended|done| |lia].
  eapply Forall2_impl; [exact Hw|]. intros kv e' (Hk & x & Hx & Hj). split; [done|]. by apply (Hs _ x).
Qed.

Lemma seq_reads s : shape_reads s -> shape_reads (TSeq s).
Proof.
  intros Hs [] c j Hu Hser Hj; try done. apply fmap_Some in Hser as (cs & Hcs & ->).
  cbn [to_value] in Hj. apply outcome_bind_ok in Hj as (js & Hjs & [= <-]).
  intros id Hid. destruct (any_visit id _ Hid) as (e & He & refs & -> & Hrefs). cbn [read]. rewrite He. cbn [mbind outcome_bind].
  rewrite (proj2 (map_outcome_ok _ _ l)); [done|]. apply mapM_Some in Hcs. apply map_outcome_ok in Hjs.
  clear -Hs Hu Hcs Hjs Hrefs. revert js Hjs refs Hrefs.
  induction Hcs as [|v c vs cs Hc _ IH]; intros js Hjs refs Hrefs.
  - inversion Hjs; subst. inversion Hrefs. constructor.
  - apply Forall2_cons_inv_l in Hjs as (j & js' & Hj & Hjs & ->). apply Forall2_cons_inv_r in Hrefs as (r & refs' & Hr & Hrefs & ->).
    constructor; [|by eapply IH]. by apply (Hs v c j).
Qed.
Lemma option_reads s : shape_reads s -> shape_reads (TOption s).
Proof.
  intros Hs v c j Hu Hser Hj id Hid. cbn [unambiguous] in Hu. apply andb_prop in Hu as [Hn%negb_true_iff Hu].
  destruct (denotes_node id j Hid) as (node & _ & Hi & Hcase). cbn [read]. unfold deserialize_option. rewrite Hi. cbn [mbind outcome_bind].
  destruct v; cbn [ser] in Hser; try discriminate Hser.
  - injection Hser as <-. injection Hj as <-. by rewrite Hcase.
  - apply fmap_Some in Hser as (x & Hx & ->). cbn [to_value] in Hj.
    assert (node <> NodeN) as Hnode.
    { intros ->. pose proof (written_null s v x j Hn Hx Hj). destruct j; try done; destruct Hcase as (? & ? & _); done. }
    assert (read read_int s g id = Ok v) as Hread by (by apply (Hs v x j)).
    destruct node; cbn; rewrite ?Hread; done.
Qed.

Lemma int_reads k : shape_reads (TInt k).
Proof.
  intros [] c j _ Hser Hj id Hid; try done. cbn [ser] in Hser. destruct (in_range k z) eqn:Hr; [|done]. injection Hser as <-.
  apply int_written in Hj as (n & -> & Hn). cbn [read].
  assert (deserialize_int k g id = Ok (VisitNumber n)) as ->.
  { destruct (any_visit id _ Hid) as (e & He & ->). destruct k; try exact He; cbn; unfold deserialize_128;
      destruct (denotes_node id _ Hid) as (node & _ & -> & ->); done. }
  cbn. by rewrite (read_written k z n Hr Hn).
Qed.

Lemma enum_reads name l : Forall (fun variant => variant_reads variant.2) l -> shape_reads (TEnum name l).
Proof.
  intros Hl [] c j Hu Hser Hj id Hid; try done. rename variant into tag. cbn [ser] in Hser.
  apply bind_Some in Hser as ([tag' writer] & Hfind & Hser).
  rewrite (find_named (fun v => ser_variant v name tag) l) in Hfind.
  apply fmap_Some in Hfind as ([name' v] & Hfind & [= -> ->]). cbn [snd] in Hser.
  pose proof (List.find_some _ _ Hfind) as [Hin%list_elem_of_In Heq%String.eqb_eq]. cbn in Heq. subst name'.
  rewrite Forall_forall in Hl. cbn [unambiguous] in Hu.
  assert (unambiguous_variant v = true) as Huv.
  { rewrite forallb_forall in Hu. apply (Hu (tag, v)). by apply list_elem_of_In. }
  cbn [read]. unfold deserialize_enum. destruct (denotes_node id j Hid) as (node & _ & -> & Hcase). cbn [mbind outcome_bind].
  pose proof (Hl _ Hin) as Hv. cbn [snd] in Hv.
  destruct (Hv name tag payload c j Huv Hser Hj) as [[-> Hread]|(w & -> & Hread)].
  - rewrite Hcase. cbn [mbind outcome_bind]. rewrite (find_named (fun v => read_variant read_int v g) l), Hfind. cbn. by rewrite Hread.
  - destruct Hcase as (o & -> & Ho). apply Forall2_cons_inv_r in Ho as ([k x] & o' & [Hk Hx] & Ho & ->). inversion Ho; subst.
    cbn in Hk, Hx. cbn [mbind outcome_bind]. cbn. rewrite (decode_key_ok g vals Htable _ _ Hk). cbn [mbind outcome_bind].
    rewrite (find_named (fun v => read_variant read_int v g) l), Hfind. cbn. by rewrite (Hread x Hx).
Qed.

(** What a variant's payload is written as, under its tag. *)
Lemma variant_unit_reads : variant_reads VUnit.
Proof. intros name tag [] c j _ Hser Hj; try done. injection Hser as <-. injection Hj as <-. left. done. Qed.

Lemma variant_newtype_reads s : shape_reads s -> variant_reads (VNewtype s).
Proof.
  intros Hs name tag [|v []] c j Hu Hser Hj; try done. apply fmap_Some in Hser as (x & Hx & ->). cbn [to_value] in Hj.
  apply outcome_bind_ok in Hj as (w & Hw & [= <-]). right. exists w. split; [done|]. intros id Hid.
  change (read_variant read_int (VNewtype s) g (Some id)) with (v ← read read_int s g id; Ok [v]).
  by rewrite (Hs v x w Hu Hx Hw id Hid).
Qed.

Lemma variant_tuple_reads l : Forall shape_reads l -> variant_reads (VTuple l).
Proof.
  intros Hl name tag vs c j Hu Hser Hj. cbn [ser_variant] in Hser. apply fmap_Some in Hser as (cs & Hcs & ->). cbn [to_value] in Hj.
  apply outcome_bind_ok in Hj as (js & Hjs & [= <-]). right. exists (JArray js). split; [done|]. intros id Hid. cbn [read_variant].
  destruct (any_visit id _ Hid) as (e & -> & refs & -> & Hrefs). cbn [mbind outcome_bind].
  by apply (read_tuple_ok _ vs js); [apply (tuple_reads l vs cs)|].
Qed.

Lemma variant_struct_reads l : Forall (fun field => shape_reads field.2) l -> variant_reads (VStruct l).
Proof.
  intros Hl name tag vs c j Hu Hser Hj. cbn [ser_variant] in Hser. apply fmap_Some in Hser as (fs & Hfs & ->). cbn [to_value] in Hj.
  apply outcome_bind_ok in Hj as (es & Hes & [= <-]). right. exists (object_of es). split; [done|]. intros id Hid. cbn [read_variant].
  by apply (struct_reads l vs fs es).
Qed.

Lemma written_reads s : shape_reads s.
Proof.
  apply (Shape_deep shape_reads variant_reads);
    auto using int_reads, option_reads, seq_reads, map_reads, enum_reads, variant_unit_reads, variant_newtype_reads,
      variant_tuple_reads, variant_struct_reads.
  - intros [] c j _ Hser Hj id Hid; try done. injection Hser as <-. injection Hj as <-.
    destruct (any_visit id _ Hid) as (e & He & ->). cbn [read]. by rewrite He.
  - intros [] c j _ Hser Hj id Hid; try done. injection Hser as <-. injection Hj as <-. cbn [read].
    by rewrite (decode_key_ok g vals Htable _ _ Hid).
  - intros [] c j _ Hser Hj id Hid; try done. injection Hser as <-. injection Hj as <-.
    destruct (any_visit id _ Hid) as (e & He & ->). cbn [read]. by rewrite He.
  - intros name s' Hs v c j Hu Hser Hj id Hid. cbn [ser] in Hser. apply fmap_Some in Hser as (x & Hx & ->). by apply (Hs v x j).
  - intros l Hl [] c j Hu Hser Hj id Hid; try done. cbn [ser] in Hser. apply fmap_Some in Hser as (cs & Hcs & ->). cbn [to_value] in Hj.
    apply outcome_bind_ok in Hj as (js & Hjs & [= <-]). destruct (any_visit id _ Hid) as (e & He & refs & -> & Hrefs).
    cbn [read]. rewrite He. cbn [mbind outcome_bind].
    rewrite (read_tuple_ok _ _ js refs (tuple_reads l _ cs js Hl Hu Hcs Hjs) Hrefs). done.
  - intros name l Hl [] c j Hu Hser Hj id Hid; try done. cbn [ser] in Hser. apply fmap_Some in Hser as (fs & Hfs & ->).
    cbn [to_value] in Hj. apply outcome_bind_ok in Hj as (es & Hes & [= <-]). cbn [read].
    pose proof (struct_reads l _ fs es id Hl Hu Hfs Hes Hid) as Hr. 
    apply outcome_bind_ok in Hr as (e & -> & Hr). cbn [mbind outcome_bind]. by rewrite Hr.
Qed.
End InTable.

End RoundTrip.

(** ** Any graph is read safely *)

Section Safe.
Context `{SerdeNumber} (read_int : IntKind -> Number -> option Z).
Context (g : Graph) (vals : list JValue) (Htable : Table (g_nodes g) vals).

Definition inside (id : N) : Prop := exists j, denotes vals id j.
Definition Safe {A} (r : Res A) : Prop := forall m, r <> Panic m.
Definition safe_reader {A} (reader : N -> Res A) : Prop := forall id, inside id -> Safe (reader id).
Definition entry_inside (kv : N * N) : Prop := (exists key, denotes vals kv.1 (JString key)) /\ inside kv.2.

Lemma Safe_bind {A B} (r : Res A) (f : A -> Res B) : Safe r -> (forall a, r = Ok a -> Safe (f a)) -> Safe (mbind f r).
Proof. destruct r as [a|e|m]; intros Hr Hf n; cbn; [by apply Hf|done|]. by destruct (Hr m). Qed.
Lemma Safe_fmap {A B} (r : Res A) (f : A -> B) : Safe r -> Safe (f <$> r).
Proof. destruct r as [a|e|m]; intros Hr n; cbn; [done|done|]. by destruct (Hr m). Qed.

(** What is visited at a node of the graph is in the graph. *)
Definition visited (e : Visit) : Prop :=
  match e with
  | VisitSeq refs => Forall inside refs
  | VisitMap o => Forall entry_inside o
  | VisitEnum key value => entry_inside (key, value)
  | VisitSome id | VisitNewtypeStruct id => inside id
  | _ => Logic.True
  end.

Lemma entries_inside o (es : list (string * JValue)) :
  Forall2 (fun kv e => denotes vals kv.1 (JString e.1) /\ denotes vals kv.2 e.2) o es -> Forall entry_inside o.
Proof. intros Ho. induction Ho as [|kv e o es [Hk Hv] _ IH]; constructor; [split; by eexists|done]. Qed.
Lemma refs_inside refs js : Forall2 (denotes vals) refs js -> Forall inside refs.
Proof. intros Hr. induction Hr as [|r j refs js Hr _ IH]; constructor; [by exists j|done]. Qed.

Lemma any_safe id : inside id -> exists e, deserialize_any g id = Ok e /\ visited e.
Proof.
  intros [j (e & He & Hj)%(any_visit g vals Htable)]. exists e. split; [done|].
  destruct j; try (by subst); destruct Hj as (l' & -> & Hl); [by eapply refs_inside|by eapply entries_inside].
Qed.

Lemma read_tuple_safe (readers : list TypedReader) refs : Forall safe_reader readers -> Forall inside refs -> Safe (read_tuple readers refs).
Proof.
  intros Hr. revert refs. induction Hr as [|reader readers Hreader _ IH]; intros refs Hrefs; [done|].
  destruct Hrefs as [|r refs Hin Hrefs]; [done|]. cbn. apply Safe_bind; [by apply Hreader|]. intros v _.
  apply Safe_bind; [by apply IH|done].
Qed.

Lemma set_slot_safe readers key id slots :
  Forall (fun field => safe_reader field.2) readers -> inside id -> Safe (set_slot readers key id slots).
Proof.
  intros Hr Hid. unfold set_slot. destruct (List.find _ readers) as [[k reader]|] eqn:E; [|done].
  destruct (existsb _ slots); [done|]. apply Safe_bind; [|done].
  apply List.find_some in E as [Hin%list_elem_of_In _]. rewrite Forall_forall in Hr. by apply (Hr _ Hin).
Qed.

Lemma visit_fields_safe readers n o pending slots :
  Forall (fun field => safe_reader field.2) readers -> Forall entry_inside o ->
  Safe (visit_fields readers g n {| m_iter := o; m_value := pending |} slots).
Proof.
  intros Hr. revert o pending slots. induction n as [|n IH]; intros o pending slots Ho; [done|].
  destruct Ho as [|[k x] o [[key Hk] Hx] Ho]; [done|]. cbn in Hk, Hx.
  cbn [visit_fields next_key_seed m_iter]. rewrite (decode_key_ok g vals Htable _ _ Hk).
  cbn [mbind outcome_bind next_value_seed m_value m_iter ok_or].
  apply Safe_bind; [by apply set_slot_safe|]. intros slots' _. by apply IH.
Qed.

Lemma slots_safe slots optional : Safe (map_outcome (slot slots) optional).
Proof. intros m. apply map_outcome_no_panic. intros field message. unfold slot. destruct (List.find _ slots) as [[]|]; [done|]. by destruct field.2. Qed.

Lemma read_struct_safe readers optional e :
  Forall (fun field => safe_reader field.2) readers -> visited e -> Safe (read_struct readers optional g e).
Proof.
  intros Hr He. destruct e; try done; unfold read_struct.
  - apply read_tuple_safe; [|done]. apply Forall_fmap. exact Hr.
  - apply Safe_bind; [by apply visit_fields_safe|]. intros slots _. apply slots_safe.
Qed.

Lemma visit_entries_safe reader n o pending :
  safe_reader reader -> Forall entry_inside o -> Safe (visit_entries reader g n {| m_iter := o; m_value := pending |}).
Proof.
  intros Hr. revert o pending. induction n as [|n IH]; intros o pending Ho; [done|].
  destruct Ho as [|[k x] o [[key Hk] Hx] Ho]; [done|]. cbn in Hk, Hx.
  cbn [visit_entries next_key_seed m_iter]. rewrite (decode_key_ok g vals Htable _ _ Hk).
  cbn [mbind outcome_bind next_value_seed m_value m_iter ok_or].
  apply Safe_bind; [by apply Hr|]. intros v _. apply Safe_bind; [by apply IH|done].
Qed.

Lemma map_outcome_safe {A} (reader : N -> Res A) refs : safe_reader reader -> Forall inside refs -> Safe (map_outcome reader refs).
Proof.
  intros Hr Hrefs. induction Hrefs as [|r refs Hin _ IH]; [done|]. cbn.
  apply Safe_bind; [by apply Hr|]. intros v _. apply Safe_bind; [exact IH|done].
Qed.

Lemma named_readers {A} (h : A -> TypedReader) (l : list (string * A)) :
  Forall (fun field => safe_reader (h field.2)) l ->
  Forall (fun field : string * TypedReader => safe_reader field.2) (map (fun field => (field.1, h field.2)) l).
Proof. intros Hl. by apply Forall_fmap. Qed.

Lemma string_safe id : inside id -> Safe (decode_key g id).
Proof. intros (e & He & _)%any_safe. unfold decode_key. rewrite He. cbn. by destruct e. Qed.

(** The struct at a node. *)
Lemma struct_safe (l : list (string * Shape)) id :
  Forall (fun field => safe_reader (read read_int field.2 g)) l -> inside id ->
  Safe (e ← deserialize_any g id;
    read_struct (map (fun field => (field.1, read read_int field.2 g)) l) (map (fun field => (field.1, is_option field.2)) l) g e).
Proof.
  intros Hl (e & -> & He)%any_safe. cbn [mbind outcome_bind].
  apply read_struct_safe; [|done]. by apply (named_readers (fun s => read read_int s g)).
Qed.
Lemma tuple_safe (l : list Shape) id :
  Forall (fun s => safe_reader (read read_int s g)) l -> inside id ->
  Safe (e ← deserialize_any g id;
    match e with VisitSeq items => read_tuple (map (fun s => read read_int s g) l) items | _ => Err "invalid type" end).
Proof.
  intros Hl (e & -> & He)%any_safe. cbn [mbind outcome_bind]. destruct e; try done.
  apply read_tuple_safe; [by apply Forall_fmap|done].
Qed.

Definition safe_variant (reader : VariantReader) : Prop :=
  Safe (reader None) /\ forall id, inside id -> Safe (reader (Some id)).

Lemma int_safe k id : inside id -> Safe (read read_int (TInt k) g id).
Proof.
  intros Hid. cbn [read]. apply Safe_bind.
  - destruct Hid as [j Hj]. destruct (any_visit g vals Htable id j Hj) as (e & He & _).
    destruct (denotes_node g vals Htable id j Hj) as (node & _ & Hi & _).
    assert (Safe (deserialize_128 g id)) as H128 by (unfold deserialize_128; rewrite Hi; cbn; rewrite He; by destruct node).
    destruct k; cbn [deserialize_int]; rewrite ?He; done.
  - intros e _. destruct e; try done. cbn. by destruct (read_int k n).
Qed.

Lemma option_safe s id : safe_reader (read read_int s g) -> inside id -> Safe (read read_int (TOption s) g id).
Proof.
  intros Hs Hid. cbn [read]. destruct Hid as [j Hj]. unfold deserialize_option.
  destruct (denotes_node g vals Htable id j Hj) as (node & _ & -> & _). cbn [mbind outcome_bind].
  destruct node; try done; apply Safe_fmap, Hs; by exists j.
Qed.

Lemma enum_safe name l id :
  Forall (fun variant => safe_variant (read_variant read_int variant.2 g)) l -> inside id ->
  Safe (read read_int (TEnum name l) g id).
Proof.
  intros Hl [j Hj]. cbn [read]. unfold deserialize_enum.
  destruct (denotes_node g vals Htable id j Hj) as (node & _ & -> & Hcase). cbn [mbind outcome_bind].
  assert (forall tag value, match value with Some id => inside id | None => Logic.True end ->
    Safe (variant ← ok_or "unknown variant" (List.find (fun variant => String.eqb variant.1 tag)
            (map (fun variant => (variant.1, read_variant read_int variant.2 g)) l));
          DVariant tag <$> variant.2 value)) as Hgo.
  { intros tag value Hv. rewrite (find_named (fun v => read_variant read_int v g) l).
    destruct (List.find _ l) as [[k v]|] eqn:E; [|done]. cbn [fmap option_fmap option_map ok_or mbind outcome_bind].
    apply List.find_some in E as [Hin%list_elem_of_In _]. rewrite Forall_forall in Hl. destruct (Hl _ Hin) as [Hnone Hsome].
    apply Safe_fmap. destruct value as [id'|]; [by apply Hsome|exact Hnone]. }
  destruct node as [| | |tag| |[|[key value] []]]; try done; [by apply (Hgo tag None)|].
  destruct j; try done; destruct Hcase as (o & Ho & Hf); try discriminate Ho. injection Ho as <-.
  apply entries_inside in Hf as Hin. apply Forall_cons in Hin as [[[tag Hk] Hv] _]. cbn in Hk, Hv |- *.
  rewrite (decode_key_ok g vals Htable _ _ Hk). by apply (Hgo tag (Some value)).
Qed.

(** Reading at a type never panics. *)
Lemma read_safe s : safe_reader (read read_int s g).
Proof.
  apply (Shape_deep (fun s => safe_reader (read read_int s g)) (fun v => safe_variant (read_variant read_int v g)));
    try (intros; intros id Hid; destruct (any_safe id Hid) as (e & He & Hv); cbn [read]; rewrite ?He; cbn [mbind outcome_bind]; by destruct e).
  - intros k id. apply int_safe.
  - intros id Hid. by apply Safe_fmap, string_safe.
  - intros s' Hs id. by apply option_safe.
  - intros name s' Hs id Hid. exact (Hs id Hid).
  - intros s' Hs id Hid. cbn [read]. destruct (any_safe id Hid) as (e & -> & He). cbn [mbind outcome_bind].
    destruct e; try done. by apply Safe_fmap, map_outcome_safe.
  - intros l Hl id Hid. cbn [read]. pose proof (tuple_safe l id Hl Hid) as Hs. destruct (any_safe id Hid) as (e & He & _).
    rewrite He in Hs |- *. cbn [mbind outcome_bind] in *. destruct e; try done. by apply Safe_fmap.
  - intros s' Hs id Hid. cbn [read]. destruct (any_safe id Hid) as (e & -> & He). cbn [mbind outcome_bind].
    destruct e; try done. by apply Safe_fmap, Safe_fmap, visit_entries_safe.
  - intros name l Hl id Hid. cbn [read]. pose proof (struct_safe l id Hl Hid) as Hs. destruct (any_safe id Hid) as (e & He & _).
    rewrite He in Hs |- *. cbn [mbind outcome_bind] in *. by apply Safe_fmap.
  - intros name l Hl id. by apply enum_safe.
  - split; [done|]. intros id Hid. cbn. destruct (any_safe id Hid) as (e & -> & _). by destruct e.
  - intros s' Hs. split; [done|]. intros id Hid. change (Safe (v ← read read_int s' g id; Ok [v])).
    apply Safe_bind; [by apply Hs|done].
  - intros l Hl. split; [done|]. intros id Hid. by apply tuple_safe.
  - intros l Hl. split; [done|]. intros id Hid. by apply struct_safe.
Qed.
End Safe.

(** What the reader accepts in its canonical form is within the limits. *)
Lemma within_limits_validated `{SerdeNumber} v : validate (canon v) = Ok () -> within_limits v.
Proof.
  intros Hv. destruct (validate_cases (canon v)) as [[_ [w Hw]]|[[e He] _]]; [|congruence]. by apply canon_accepted_inv in Hw as [_ ?].
Qed.

(** The calls of a value stand for a JSON value or for an error. *)
Lemma to_value_no_panic `{SerdeNumber, !NodeHasher} s message : fits s -> to_value s <> Panic message.
Proof.
  intros Hfits Hp. unfold fits in Hfits. pose proof (serialize_emits s 0 [] _ _ BInv_empty) as Ht. cbn in Ht.
  specialize (Ht ltac:(intros i Hi; cbn in Hi; lia) ltac:(lia)). by rewrite Hp in Ht.
Qed.

Section Contract.
Context `{SerdeNumber} (read_int : IntKind -> Number -> option Z).

(** C2: the round trip at a type.  Take a value of a type with derived
    implementations, of structs, enums in each of their forms, maps, tuples,
    options and integers of every width, in which no option is of a type that
    may itself be [null] and a struct's fields have distinct names, and suppose
    that the calls that serialize it fit the codec's table of 32-bit node ids
    and that reading an integer takes back what writing it makes.  Whatever the
    hash function: if the calls stand for no JSON value, encoding fails with an
    error.  Otherwise it succeeds, and the table read back at the type gives the
    value, whatever the order of the fields, when the JSON value is within the
    decoder's limits -- nesting of 128 and the bound on expanded nodes --, and
    an error, never another value, when it is beyond them. *)
Theorem typed_round_trip `{!NodeHasher} s v c :
  (forall k z n, in_range k z = true -> int_number k z = Some n -> read_int k n = Some z) ->
  unambiguous s = true -> ser s v = Some c -> fits c ->
  match to_value c with
  | Ok j => exists g, encode c = Ok g /\
      (within_limits j -> deserialize_at read_int s g = Ok v) /\
      (~ within_limits j -> exists error, deserialize_at read_int s g = Err error)
  | _ => exists error, encode c = Err error
  end.
Proof.
  intros Hint Hu Hser Hfits. rewrite (encode_canon c Hfits). 
  destruct (to_value c) as [j|error|message] eqn:Hj; [|by exists error|by destruct (to_value_no_panic c message)].
  exists (canon j). split; [done|]. unfold deserialize_at.
  destruct (validate_cases (canon j)) as [[-> [w [<- Hw]%canon_accepted_inv]]|[[e ->] Hno]]; (split; [|intros Hl]).
  - intros Hl. destruct (canon_accepted j Hl) as (vals & Ht & Hroot & _). cbn [mbind outcome_bind].
    by apply (written_reads read_int Hint (canon j) vals Ht s v c j).
  - done.
  - intros Hl. destruct (Hno j). by apply canon_accepted.
  - by exists e.
Qed.

(** Reading at a type is total.  Whatever the graph and the type, what
    [deserialize] returns is a value or an error: no index is out of range, no
    map value is missing. *)
Theorem typed_reader_total s g : (exists v, deserialize_at read_int s g = Ok v) \/ (exists e, deserialize_at read_int s g = Err e).
Proof.
  unfold deserialize_at. destruct (validate_cases g) as [[-> [j (vals & Ht & Hroot & _)]]|[[e ->] _]]; [|right; by exists e].
  cbn [mbind outcome_bind]. pose proof (read_safe read_int g vals Ht s (g_root g)) as Hsafe.
  destruct (read read_int s g (g_root g)) as [v|e|m]; [left; by exists v|right; by exists e|].
  exfalso. by apply (Hsafe (ex_intro _ j Hroot) m).
Qed.
End Contract.

(** ** Witness

    A struct with an enum of every form, an option, a map and a 128-bit
    integer, its fields declared out of order. *)
Definition read_int_Z (k : IntKind) (n : @Number serde_Z) : option Z := if in_range k n then Some n else None.

Definition event_shape : Shape :=
  TEnum "Event" [("Stop", VUnit); ("Jump", VNewtype (TInt U32)); ("Pair", VTuple [TInt I8; TString]);
                 ("Move", VStruct [("y", TInt I128); ("x", TOption (TInt U8))])]%string.
Definition trace_shape : Shape :=
  TStruct "Trace" [("name", TString); ("events", TSeq event_shape); ("index", TMap (TInt U64)); ("id", TNewtype "Id" (TOption TBool))]%string.
Definition trace : Typed :=
  DList [DString "t";
         DList [DVariant "Stop" []; DVariant "Jump" [DInt 7%Z]; DVariant "Pair" [DInt (-1)%Z; DString "p"];
                DVariant "Move" [DInt (2 ^ 63)%Z; DNone]; DVariant "Move" [DInt 0%Z; DSome (DInt 255%Z)]];
         DMap [("a", DInt 1%Z); ("b", DInt 2%Z)];
         DSome (DBool true)]%string.

Definition trace_written : Ser := default SUnit (@ser trace_shape trace).
Definition trace_json : @JValue serde_Z := match @to_value serde_Z trace_written with Ok j => j | _ => JNull end.

Lemma read_int_Z_back k z n : @in_range k z = true -> @int_number serde_Z k z = Some n -> read_int_Z k n = Some z.
Proof.
  intros Hr Hn. unfold read_int_Z. destruct k; cbn in Hn; try (injection Hn as <-; by rewrite Hr);
    case_decide; try discriminate Hn; injection Hn as <-; by rewrite Hr.
Qed.

Lemma typed_round_trip_witness :
  (g ← @encode serde_Z colliding trace_written; @deserialize_at serde_Z read_int_Z trace_shape g) = Ok trace.
Proof.
  assert (@to_value serde_Z trace_written = Ok trace_json) as Hj by reflexivity.
  assert (@within_limits serde_Z trace_json) as Hl by (apply within_limits_validated; vm_compute; reflexivity).
  assert (@fits trace_written) as Hf by reflexivity.
  assert (@ser trace_shape trace = Some trace_written) as Hs by reflexivity.
  pose proof (@typed_round_trip serde_Z read_int_Z colliding trace_shape trace trace_written read_int_Z_back eq_refl Hs Hf) as Hrt.
  rewrite Hj in Hrt. destruct Hrt as (g & Hg & Hread & _). rewrite Hg. exact (Hread Hl).
Defined.

(** Beyond the conditions: [Some] of an option that is [None] is read as
    [None], and a value nested too deeply is an error. *)
Example nested_option_lost :
  (g ← @encode serde_Z colliding (SSome SNone); @deserialize_at serde_Z read_int_Z (TOption (TOption TBool)) g) = Ok DNone.
Proof. vm_compute. reflexivity. Qed.
Definition nested (n : nat) : Ser := Nat.iter n (fun c => SSeq [c]) (SSeq []).
Example too_deep :
  (_ ← (g ← @encode serde_Z colliding (nested 130); @deserialize_at serde_Z read_int_Z (Nat.iter 131 TSeq TBool) g); Ok tt)
  = Err "DAG expansion exceeds decoder limits"%string.
Proof. vm_compute. reflexivity. Qed.

(** A table of another type is an error: a missing field, an unknown variant, a
    payload where a unit variant is meant, an integer out of range. *)
Definition reads_as (s : Shape) (c : Ser) : Res Typed :=
  g ← @encode serde_Z colliding c; @deserialize_at serde_Z read_int_Z s g.
Example typed_mismatches :
  (reads_as trace_shape (SStruct "Trace" [("name", SStr "t")]),
   reads_as event_shape (SStr "Halt"),
   reads_as event_shape (SNewtypeVariant "Event" "Stop" (SBool true)),
   reads_as (TInt U8) (SU16 256),
   reads_as (TStruct "S" [("x", TOption TBool)]) (SStruct "S" [("more", SU8 1)]))%string
  = (Err "missing field", Err "unknown variant", Err "invalid type", Err "invalid value: integer", Ok (DList [DNone]))%string.
Proof. vm_compute. reflexivity. Qed.
