(* ===== verification/Ssa.v ===== *)
(** Selected SSA as the emitter reads and builds it.

    The types are the language crates' ([mncs_model]); every field and variant
    that [tools/vm_emit.rs] reads, writes or matches on is here under its own
    name.  Parts the emitter only carries along are one opaque [*_rest] payload,
    and the functions of those crates are the members of [ModelCrate]. *)

From stdpp Require Export pretty.
From S2P Require Export BTree.

(** [SemanticId] is a newtype over [String]. *)
Abbreviation SemanticId := string.
Abbreviation FailureMode := string.

Record IntegerType : Type := { bits : Z; signed : bool }.
#[export] Instance IntegerType_eq_dec : EqDecision IntegerType.
Proof. solve_decision. Defined.

Inductive SequenceBound : Type :=
  | Exact (length : Z)
  | UpTo (maximum : Z)
  | Param (name : string)
  | UpToParam (name : string).
#[export] Instance SequenceBound_eq_dec : EqDecision SequenceBound.
Proof. solve_decision. Defined.

Inductive BoundsEvidence : Type :=
  | StaticExact
  | RuntimeChecked (failure : FailureMode)
  | OtherEvidence (payload : string).
#[export] Instance BoundsEvidence_eq_dec : EqDecision BoundsEvidence.
Proof. solve_decision. Defined.

Inductive BodyType : Type :=
  | TyRecord (identity : SemanticId) (name : string)
  | TySequence (element : BodyType) (bound : SequenceBound)
  | TyVector (element : BodyType) (rest : string)
  | TyBool
  | TyInteger (ty : IntegerType)
  | TyFloat (rest : string)
  | TyByte
  | TyMask (rest : string)
  | TyFinite (identity : SemanticId) (name : string)
  | TyNamed (name : string)
  | TyGenericParam (rest : string).
#[export] Instance BodyType_eq_dec : EqDecision BodyType.
Proof. solve_decision. Defined.

Definition u64_integer : IntegerType := {| bits := 64; signed := false |}.
Definition u64_type : BodyType := TyInteger u64_integer.

(** Every variant of [SsaInstructionKind]; [rest] is the part of a variant that
    the emitter matches with [..] and only carries along. *)
Inductive SsaInstructionKind : Type :=
  | Constant (value : Z) (ty : BodyType)
  | Select (operand_type : BodyType)
  | Integer (operator : string) (operand_type : IntegerType) (intent : string)
  | IntegerCompare (predicate : string) (operand_type : IntegerType)
  | BooleanOp (operator : string)
  | Convert (from to : BodyType)
  | SequenceConstruct (element_type : BodyType) (length : Z)
  | SequenceProject (bound : SequenceBound) (evidence : BoundsEvidence)
  | SequenceReplace (element_type : BodyType) (bound : SequenceBound) (evidence : BoundsEvidence)
  | SequenceCopy (element_type : BodyType) (dst_bound src_bound : SequenceBound)
      (evidence : BoundsEvidence)
  | SequenceLength (bound : SequenceBound)
  | ViewConstruct (source_bound view_bound : SequenceBound)
  | ViewNarrow (rest : string)
  | VectorConstruct (element_type : BodyType) (rest : string)
  | VectorSplat (element_type : BodyType) (rest : string)
  | VectorExtract (element_type : BodyType) (rest : string)
  | VectorReplace (element_type : BodyType) (rest : string)
  | VectorBinary (element_type : BodyType) (rest : string)
  | VectorCompare (element_type : BodyType) (rest : string)
  | VectorReduce (element_type : BodyType) (rest : string)
  | RecordConstruct (type_identity : SemanticId) (rest : string)
  | RecordProject (type_identity : SemanticId) (rest : string)
  | FloatConstant (rest : string)
  | Float (rest : string)
  | FloatCompare (rest : string)
  | FloatIntrinsic (rest : string)
  | BooleanCompare (rest : string)
  | BooleanNot
  | ByteBitwise (rest : string)
  | ByteShift (rest : string)
  | ByteCompare (rest : string)
  | BoundCheck (rest : string)
  | MaskBinary (rest : string)
  | MaskNot (rest : string)
  | MaskReduce (rest : string)
  | FiniteConstruct (rest : string)
  | FinitePayloadProject (rest : string)
  | FiniteIsVariant (rest : string)
  | Call (function : SemanticId) (required_capabilities : list SemanticId) (rest : string)
  | Effect
  | HostCall (capability operation : string)
  | RuntimeCheck (rest : string).

Record SsaValue : Type := mkValue {
  v_identity : SemanticId;
  v_semantic_identity : option SemanticId;
  v_ty : BodyType;
  v_producer : option SemanticId;
  v_block : SemanticId
}.

Record MachineIntentLinks : Type := mkLinks {
  ml_operation_identity : SemanticId;
  ml_intent_identity : SemanticId;
  ml_fact_identities : list SemanticId;
  ml_preference_identities : list SemanticId;
  ml_requirement_identities : list SemanticId;
  ml_obligation_identities : list SemanticId;
  ml_capability_identities : list SemanticId
}.

Record CapabilityUse : Type := mkUse { cu_capability : SemanticId; cu_rest : string }.

Record SsaInstruction : Type := mkInstruction {
  i_identity : SemanticId;
  i_semantic_identity : option SemanticId;
  i_hir_identity : option SemanticId;
  i_kind : SsaInstructionKind;
  i_inputs : list SemanticId;
  i_outputs : list SsaValue;
  i_effects : list SemanticId;
  i_capability_uses : list CapabilityUse;
  i_contracts : list string;
  i_assumptions : list string;
  i_evidence : list SemanticId;
  i_machine_intent : option MachineIntentLinks;
  i_obligations : list SemanticId;
  i_failure : option FailureMode
}.

Record SsaBlock : Type := mkBlock {
  b_identity : SemanticId;
  b_semantic_identity : option SemanticId;
  b_parameters : list SsaValue;
  b_instructions : list SsaInstruction;
  b_rest : string
}.

Record BoundedIteration : Type := mkIteration {
  it_identity : SemanticId;
  it_preheader : SemanticId;
  it_header : SemanticId;
  it_body_entry : SemanticId;
  it_backedge : SemanticId;
  it_exit : SemanticId;
  it_body_blocks : list SemanticId;
  it_obligations : list SemanticId;
  it_callees : list SemanticId;
  it_state_type : BodyType;
  (** [IterationDomain::OverSequence { element_type }], if that is the domain *)
  it_over_sequence : option BodyType;
  it_rest : string
}.

Record SsaFunction : Type := mkFunction {
  f_identity : SemanticId;
  f_semantic_identity : SemanticId;
  f_inputs : list SsaValue;
  f_outputs : list SsaValue;
  f_blocks : list SsaBlock;
  f_bounded_iterations : list BoundedIteration;
  f_rest : string
}.

Record RecordType : Type := mkRecordType {
  r_identity : SemanticId;
  r_name : string;
  r_fields : list (string * BodyType);
  r_rest : string
}.

Record ObligationRecord : Type := mkObligation {
  o_identity : SemanticId;
  o_subject : SemanticId;
  o_requirement : SemanticId;
  o_status : string;
  o_method : string;
  o_assumptions : list SemanticId;
  o_dependencies : list SemanticId;
  o_freshness : string;
  o_fallback : option string;
  o_schema_version : string
}.

Record TraceEntry : Type := mkTrace {
  t_semantic_identity : SemanticId;
  t_ssa_identities : list SemanticId;
  t_hir_identities : list SemanticId;
  t_rest : string
}.

Record TargetIdentity : Type := mkTarget {
  tg_identity : SemanticId;
  tg_family : string;
  tg_features : list string;
  tg_integer_widths : list Z;
  tg_abi : option string
}.

Record TransformationRecord : Type := mkTransformation {
  tr_input_identity : SemanticId;
  tr_output_identity : SemanticId;
  tr_rule : string;
  tr_operation : SemanticId;
  tr_target : TargetIdentity;
  tr_implementation : SemanticId;
  tr_obligations_required : list SemanticId;
  tr_evidence_consumed : list SemanticId;
  tr_backend_promises_permitted : list string;
  tr_rest : string
}.

(** A resolved type argument of a specialization. *)
Inductive GenericArg : Type :=
  | GaType (ty : BodyType)
  | GaOther (rest : string).

Record GenericSpecialization : Type := mkSpecialization {
  gs_generic_function : SemanticId;
  gs_specialization_function : SemanticId;
  gs_canonical_args : string;
  gs_host_spellings : list (list string);
  gs_args : list GenericArg;
  gs_rest : string
}.

Record SsaModule : Type := mkModule {
  m_functions : list SsaFunction;
  m_record_types : list RecordType;
  m_obligations : list ObligationRecord;
  m_trace : list TraceEntry;
  m_transformations : list TransformationRecord;
  m_generic_specializations : list GenericSpecialization;
  m_binding_table : option string;
  m_proof_relationships : list string;
  m_rest : string
}.

(** The functions of [mncs_model] the emitter calls. *)
Class ModelCrate := {
  sha256_hex : string -> string;
  function_id : string -> string -> SemanticId;
  transformation_new : SemanticId -> SemanticId -> string -> SemanticId ->
    TargetIdentity -> SemanticId -> TransformationRecord;
  OBLIGATION_SCHEMA_VERSION : string;
  identity_is_valid : SsaModule -> bool;
  fingerprint : SsaModule -> Outcome string string
}.
