(* ===== verification/SeqCopy.v ===== *)
(** The three [SequenceCopy] lowering passes of [tools/vm_emit.rs].

    Definitions only.  A pass scans each function for constants and value types,
    then rewrites each block's instruction list; what the code pushes onto
    [rewritten] for one instruction is the list the [lower_*] definitions
    return. *)

From S2P Require Export Ssa.

Definition VM_STATIC_SEQUENCE_COPY_UNROLL_LIMIT : Z := 256.
Definition VM_STATIC_SEQUENCE_COPY_REBUILD_BOUND_LIMIT : Z := 512.

Section Lowering.
Context `{ModelCrate}.
Local Open Scope string_scope.
Local Open Scope list_scope.

(** ** Generated identities and instructions *)

Definition vm_sequence_copy_id (owner : SemanticId) (role : string) (ordinal : N)
  : SemanticId :=
  "mncs:0.2:ssa:vm-sequence-copy:" +:+ sha256_hex (owner +:+ ":" +:+ role +:+ ":" +:+ pretty ordinal).

Definition vm_sequence_copy_instruction (identity : SemanticId) (kind : SsaInstructionKind)
  (inputs : list SemanticId) (outputs : list SsaValue) : SsaInstruction :=
  {| i_identity := identity; i_semantic_identity := None; i_hir_identity := None;
     i_kind := kind; i_inputs := inputs; i_outputs := outputs; i_effects := [];
     i_capability_uses := []; i_contracts := []; i_assumptions := []; i_evidence := [];
     i_machine_intent := None; i_obligations := []; i_failure := None |}.

(** The pushed instruction, the value's identity and the next ordinal. *)
Definition push_vm_sequence_copy_constant (owner : SemanticId) (ordinal : N)
  (block : SemanticId) (value : Z) : SsaInstruction * SemanticId * N :=
  let identity := vm_sequence_copy_id owner "constant" ordinal in
  let ordinal := (ordinal + 1)%N in
  let output := {| v_identity := vm_sequence_copy_id owner "constant-value" ordinal;
                   v_semantic_identity := None; v_ty := u64_type;
                   v_producer := Some identity; v_block := block |} in
  (vm_sequence_copy_instruction identity (Constant value (v_ty output)) [] [output],
   v_identity output, ordinal).

Definition record_vm_sequence_copy_lowering (input : SsaInstruction) (output : SemanticId)
  (target : TargetIdentity) (implementation : SemanticId) (rule : string)
  : TransformationRecord :=
  let operation := default (i_identity input) (i_semantic_identity input) in
  let record := transformation_new (i_identity input) output rule operation target implementation in
  {| tr_input_identity := tr_input_identity record;
     tr_output_identity := tr_output_identity record;
     tr_rule := tr_rule record;
     tr_operation := tr_operation record;
     tr_target := tr_target record;
     tr_implementation := tr_implementation record;
     tr_obligations_required := i_obligations input;
     tr_evidence_consumed := i_evidence input;
     tr_backend_promises_permitted :=
       tr_backend_promises_permitted record ++ ["functional-exact-bound-span-copy"];
     tr_rest := tr_rest record |}.

(** ** The scan: value types, and the [u64] constants *)

Definition scan_values (types : list (SemanticId * BodyType)) (vs : list SsaValue)
  : list (SemanticId * BodyType) :=
  fold_left (fun types v => bm_put (v_identity v) (v_ty v) types) vs types.

Definition scan_instruction (st : list (SemanticId * Z) * list (SemanticId * BodyType))
  (instruction : SsaInstruction) : list (SemanticId * Z) * list (SemanticId * BodyType) :=
  let '(constants, types) := st in
  let types := scan_values types (i_outputs instruction) in
  match i_kind instruction, i_outputs instruction with
  | Constant value ty, output :: _ =>
      (if decide (ty = u64_type) then bm_put (v_identity output) value constants else constants, types)
  | _, _ => (constants, types)
  end.

Definition scan_function (function : SsaFunction)
  : list (SemanticId * Z) * list (SemanticId * BodyType) :=
  let types := scan_values (scan_values [] (f_inputs function)) (f_outputs function) in
  fold_left (fun '(constants, types) block =>
      fold_left scan_instruction (b_instructions block)
        (constants, scan_values types (b_parameters block)))
    (f_blocks function) ([], types).

(** ** One function at a time: rewrite every block *)

(** What a pass does with one instruction: the instructions pushed, and, when
    it was lowered, its transformation record and the obligations made. *)
Record Lowered : Type := mkLowered {
  l_pushed : list SsaInstruction;
  l_record : option TransformationRecord;
  l_obligations : list ObligationRecord
}.
Definition kept (instruction : SsaInstruction) : Lowered :=
  {| l_pushed := [instruction]; l_record := None; l_obligations := [] |}.

Definition Pass : Type :=
  list (SemanticId * Z) -> list (SemanticId * BodyType) -> SsaBlock -> SsaInstruction ->
  Outcome string Lowered.

Definition lower_block (pass : Pass) constants types (block : SsaBlock)
  : Outcome string (SsaBlock * (list TransformationRecord * list ObligationRecord)) :=
  rows ← map_outcome (pass constants types block) (b_instructions block);
  Ok ({| b_identity := b_identity block; b_semantic_identity := b_semantic_identity block;
         b_parameters := b_parameters block; b_instructions := flat_map l_pushed rows;
         b_rest := b_rest block |},
      (omap l_record rows, flat_map l_obligations rows)).

Definition lower_function (pass : Pass) (function : SsaFunction)
  : Outcome string (SsaFunction * (list TransformationRecord * list ObligationRecord)) :=
  let '(constants, types) := scan_function function in
  rows ← map_outcome (lower_block pass constants types) (f_blocks function);
  Ok ({| f_identity := f_identity function; f_semantic_identity := f_semantic_identity function;
         f_inputs := f_inputs function; f_outputs := f_outputs function;
         f_blocks := rows.*1; f_bounded_iterations := f_bounded_iterations function;
         f_rest := f_rest function |},
      (flat_map fst rows.*2, flat_map snd rows.*2)).

(** The whole pass: the module, and [lowered_count]. *)
Definition lower_module (pass : Pass) (ssa : SsaModule) : Outcome string (SsaModule * nat) :=
  rows ← map_outcome (lower_function pass) (m_functions ssa);
  let transformations := flat_map fst rows.*2 in
  Ok ({| m_functions := rows.*1; m_record_types := m_record_types ssa;
         m_obligations := m_obligations ssa ++ flat_map snd rows.*2;
         m_trace := m_trace ssa;
         m_transformations := m_transformations ssa ++ transformations;
         m_generic_specializations := m_generic_specializations ssa;
         m_binding_table := m_binding_table ssa;
         m_proof_relationships := m_proof_relationships ssa;
         m_rest := m_rest ssa |},
      length transformations).

(** The value a generated instruction produces. *)
Definition generated_value (owner : SemanticId) (role : string) (ordinal : N) (ty : BodyType)
  (producer block : SemanticId) : SsaValue :=
  {| v_identity := vm_sequence_copy_id owner role ordinal; v_semantic_identity := None;
     v_ty := ty; v_producer := Some producer; v_block := block |}.

Definition with_producer (output : SsaValue) (producer : SemanticId) : SsaValue :=
  {| v_identity := v_identity output; v_semantic_identity := v_semantic_identity output;
     v_ty := v_ty output; v_producer := Some producer; v_block := v_block output |}.

(** [instruction.clone()] with a new identity, kind, operands and result. *)
Definition relowered (instruction : SsaInstruction) (identity : SemanticId)
  (kind : SsaInstructionKind) (inputs : list SemanticId) (outputs : list SsaValue)
  : SsaInstruction :=
  {| i_identity := identity; i_semantic_identity := i_semantic_identity instruction;
     i_hir_identity := i_hir_identity instruction; i_kind := kind; i_inputs := inputs;
     i_outputs := outputs; i_effects := i_effects instruction;
     i_capability_uses := i_capability_uses instruction;
     i_contracts := i_contracts instruction; i_assumptions := i_assumptions instruction;
     i_evidence := i_evidence instruction; i_machine_intent := i_machine_intent instruction;
     i_obligations := i_obligations instruction; i_failure := i_failure instruction |}.

Definition with_failure (instruction : SsaInstruction) (failure : option FailureMode)
  : SsaInstruction :=
  {| i_identity := i_identity instruction;
     i_semantic_identity := i_semantic_identity instruction;
     i_hir_identity := i_hir_identity instruction; i_kind := i_kind instruction;
     i_inputs := i_inputs instruction; i_outputs := i_outputs instruction;
     i_effects := i_effects instruction; i_capability_uses := i_capability_uses instruction;
     i_contracts := i_contracts instruction; i_assumptions := i_assumptions instruction;
     i_evidence := i_evidence instruction; i_machine_intent := i_machine_intent instruction;
     i_obligations := i_obligations instruction; i_failure := failure |}.

(** The final replacement of a runtime-checked copy keeps the source's
    identities, obligations and evidence. *)
Definition with_source (replace instruction : SsaInstruction) : SsaInstruction :=
  {| i_identity := i_identity replace;
     i_semantic_identity := i_semantic_identity instruction;
     i_hir_identity := i_hir_identity instruction; i_kind := i_kind replace;
     i_inputs := i_inputs replace; i_outputs := i_outputs replace;
     i_effects := i_effects replace; i_capability_uses := i_capability_uses replace;
     i_contracts := i_contracts replace; i_assumptions := i_assumptions replace;
     i_evidence := i_evidence instruction; i_machine_intent := i_machine_intent replace;
     i_obligations := i_obligations instruction; i_failure := i_failure replace |}.

(** A constant [true] condition and a [Select] between the destination and
    itself: the empty copy.  [prefix] is empty or [runtime-]. *)
Definition empty_selection (prefix : string) (instruction : SsaInstruction) (block : SemanticId)
  (expected_type : BodyType) (destination : SemanticId) (output : SsaValue)
  : list SsaInstruction * SemanticId :=
  let owner := i_identity instruction in
  let condition_id := vm_sequence_copy_id owner (prefix +:+ "empty-condition") 0 in
  let condition :=
    generated_value owner (prefix +:+ "empty-condition-value") 1 TyBool condition_id block in
  let output_id := vm_sequence_copy_id owner (prefix +:+ "empty-result") 1 in
  ([vm_sequence_copy_instruction condition_id (Constant 1 TyBool) [] [condition];
    relowered instruction output_id (Select expected_type)
      [v_identity condition; destination; destination] [with_producer output output_id]],
   output_id).

(** ** [lower_vm_static_sequence_copies] *)

Definition static_target : TargetIdentity :=
  {| tg_identity := "mncs:0.2:target:mncs-vm-0.1"; tg_family := "mncs-vm";
     tg_features := ["sequence-construct"; "sequence-project"; "sequence-replace"];
     tg_integer_widths := [64%Z]; tg_abi := None |}.
Definition static_implementation : SemanticId :=
  "mncs:0.2:compiler:vm-static-exact-sequence-copy/2".

(** One iteration of the reconstruction loop: an index constant and a
    projection from the source window or the destination. *)
Definition rebuild_element (owner block : SemanticId) (element_type : BodyType)
  (dst_bound src_bound : SequenceBound) (destination source : SemanticId)
  (dst_at src_at copied_end : Z)
  (st : list SsaInstruction * N * list SemanticId) (destination_offset : Z)
  : list SsaInstruction * N * list SemanticId :=
  let '(rewritten, ordinal, projected_elements) := st in
  let '(sequence, bound, source_offset) :=
    if ((dst_at <=? destination_offset) && (destination_offset <? copied_end))%Z
    then (source, src_bound, src_at + (destination_offset - dst_at))%Z
    else (destination, dst_bound, destination_offset) in
  let '(constant, index, ordinal) :=
    push_vm_sequence_copy_constant owner ordinal block source_offset in
  let project_id := vm_sequence_copy_id owner "rebuild-project" ordinal in
  let ordinal := (ordinal + 1)%N in
  let projected :=
    generated_value owner "rebuild-project-value" ordinal element_type project_id block in
  (rewritten ++ [constant;
     vm_sequence_copy_instruction project_id (SequenceProject bound StaticExact)
       [sequence; index] [projected]],
   ordinal, projected_elements ++ [v_identity projected]).

Definition rebuild_sequence (instruction : SsaInstruction) (block : SemanticId)
  (element_type : BodyType) (dst_length : Z) (dst_bound src_bound : SequenceBound)
  (destination source : SemanticId) (dst_at src_at length : Z) (output : SsaValue)
  : list SsaInstruction * SemanticId :=
  let owner := i_identity instruction in
  let '(rewritten, ordinal, projected_elements) :=
    fold_left (rebuild_element owner block element_type dst_bound src_bound destination source
                 dst_at src_at (dst_at + length)%Z)
      (seqZ 0 dst_length) ([], 0%N, []) in
  let construct_id := vm_sequence_copy_id owner "rebuild-result" ordinal in
  (rewritten ++ [relowered instruction construct_id (SequenceConstruct element_type dst_length)
     projected_elements [with_producer output construct_id]],
   construct_id).

(** One iteration of the unrolled copy: two index constants, a projection and
    a replacement; the last one is the lowered instruction itself. *)
Definition unroll_element (instruction : SsaInstruction) (block : SemanticId)
  (element_type expected_type : BodyType) (dst_bound src_bound : SequenceBound)
  (source : SemanticId) (dst_at src_at copy_length : Z) (result : SsaValue)
  (st : list SsaInstruction * N * SemanticId) (offset : Z)
  : list SsaInstruction * N * SemanticId :=
  let '(rewritten, ordinal, current_sequence) := st in
  let owner := i_identity instruction in
  let '(destination_constant, destination_index, ordinal) :=
    push_vm_sequence_copy_constant owner ordinal block (dst_at + offset) in
  let '(source_constant, source_index, ordinal) :=
    push_vm_sequence_copy_constant owner ordinal block (src_at + offset) in
  let projection_id := vm_sequence_copy_id owner "project" ordinal in
  let ordinal := (ordinal + 1)%N in
  let projected_value :=
    generated_value owner "project-value" ordinal element_type projection_id block in
  let projection := vm_sequence_copy_instruction projection_id
    (SequenceProject src_bound StaticExact) [source; source_index] [projected_value] in
  let final_operation := (offset + 1 =? copy_length)%Z in
  let replace_id :=
    if final_operation then vm_sequence_copy_id owner "replace-result" ordinal
    else vm_sequence_copy_id owner "replace" ordinal in
  let ordinal := (ordinal + 1)%N in
  let output := with_producer
    (if final_operation then result
     else generated_value owner "replace-value" ordinal expected_type replace_id block) replace_id in
  let kind := SequenceReplace element_type dst_bound StaticExact in
  let inputs := [current_sequence; destination_index; v_identity projected_value] in
  let replace :=
    if final_operation then relowered instruction replace_id kind inputs [output]
    else vm_sequence_copy_instruction replace_id kind inputs [output] in
  (rewritten ++ [destination_constant; source_constant; projection; replace],
   ordinal, v_identity output).

Definition static_record (instruction : SsaInstruction) (output : SemanticId) (rule : string)
  : TransformationRecord :=
  record_vm_sequence_copy_lowering instruction output static_target static_implementation rule.

Definition static_copy (types : list (SemanticId * BodyType)) (block : SemanticId)
  (instruction : SsaInstruction) (element_type : BodyType) (dst_length src_length : Z)
  (destination source : SemanticId) (dst_at src_at length : Z) (output : SsaValue)
  : Outcome string Lowered :=
  if (dst_length <? dst_at + length)%Z || (src_length <? src_at + length)%Z
  then Err ("static SequenceCopy " +:+ i_identity instruction +:+ " violates its StaticExact bounds evidence")
  else
  let reconstruct_bounded_destination :=
    ((VM_STATIC_SEQUENCE_COPY_UNROLL_LIMIT <? length)
     && (dst_length <=? VM_STATIC_SEQUENCE_COPY_REBUILD_BOUND_LIMIT))%Z in
  if (VM_STATIC_SEQUENCE_COPY_UNROLL_LIMIT <? length)%Z && negb reconstruct_bounded_destination
  then Ok (kept instruction)
  else
  destination_type ← ok_or ("SequenceCopy " +:+ i_identity instruction +:+ " destination type is missing")
    (bm_get destination types);
  source_type ← ok_or ("SequenceCopy " +:+ i_identity instruction +:+ " source type is missing")
    (bm_get source types);
  let dst_bound := Exact dst_length in
  let src_bound := Exact src_length in
  let expected_type := TySequence element_type dst_bound in
  if bool_decide (destination_type <> expected_type)
     || bool_decide (source_type <> TySequence element_type src_bound)
     || bool_decide (v_ty output <> expected_type)
  then Err ("static SequenceCopy " +:+ i_identity instruction +:+ " types disagree with its exact bounds")
  else if (length =? 0)%Z then
    let '(pushed, output_id) :=
      empty_selection "" instruction block expected_type destination output in
    Ok {| l_pushed := pushed;
          l_record := Some (static_record instruction output_id
            "vm-static-exact-sequence-copy-to-project-replace/1");
          l_obligations := [] |}
  else if reconstruct_bounded_destination then
    let '(pushed, construct_id) :=
      rebuild_sequence instruction block element_type dst_length dst_bound src_bound
        destination source dst_at src_at length output in
    Ok {| l_pushed := pushed;
          l_record := Some (static_record instruction construct_id
            "vm-static-exact-sequence-copy-to-project-construct/1");
          l_obligations := [] |}
  else
    let '(pushed, _, final_identity) :=
      fold_left (unroll_element instruction block element_type expected_type dst_bound src_bound
                   source dst_at src_at length output)
        (seqZ 0 length) ([], 0%N, destination) in
    Ok {| l_pushed := pushed;
          l_record := Some (static_record instruction final_identity
            "vm-static-exact-sequence-copy-to-project-replace/1");
          l_obligations := [] |}.

Definition static_pass : Pass := fun constants types block instruction =>
  match i_kind instruction with
  | SequenceCopy element_type (Exact dst_length) (Exact src_length) StaticExact =>
      match i_inputs instruction, i_outputs instruction with
      | [destination; dst_at; source; src_at; length], [output] =>
          match bm_get dst_at constants, bm_get src_at constants, bm_get length constants with
          | Some dst_at, Some src_at, Some length =>
              if (dst_at <? 0)%Z || (src_at <? 0)%Z || (length <? 0)%Z
              then Err ("static SequenceCopy " +:+ i_identity instruction +:+ " carries a negative exact window")
              else static_copy types (b_identity block) instruction element_type
                     dst_length src_length destination source dst_at src_at length output
          | _, _, _ => Ok (kept instruction)
          end
      | _, _ => Err ("static SequenceCopy " +:+ i_identity instruction +:+ " has an invalid operand or result count")
      end
  | _ => Ok (kept instruction)
  end.

Definition lower_vm_static_sequence_copies : SsaModule -> Outcome string (SsaModule * nat) :=
  lower_module static_pass.

(** ** [lower_vm_runtime_checked_sequence_copies] *)

Definition U128_MAX : Z := 2 ^ 128 - 1.

Definition runtime_target : TargetIdentity :=
  {| tg_identity := "mncs:0.2:target:mncs-vm-0.1"; tg_family := "mncs-vm";
     tg_features := ["sequence-project"; "sequence-replace"];
     tg_integer_widths := [64%Z]; tg_abi := None |}.
Definition runtime_implementation : SemanticId :=
  "mncs:0.2:compiler:vm-runtime-checked-sequence-copy-constant-window/1".

Definition runtime_element (instruction : SsaInstruction) (block : SemanticId)
  (element_type expected_type : BodyType) (dst_bound src_bound : SequenceBound)
  (failure : FailureMode) (source : SemanticId) (dst_at src_at copy_length : Z)
  (result : SsaValue)
  (st : list SsaInstruction * N * SemanticId) (offset : Z)
  : list SsaInstruction * N * SemanticId :=
  let '(rewritten, ordinal, current_sequence) := st in
  let owner := i_identity instruction in
  let '(destination_constant, destination_index, ordinal) :=
    push_vm_sequence_copy_constant owner ordinal block (dst_at + offset) in
  let '(source_constant, source_index, ordinal) :=
    push_vm_sequence_copy_constant owner ordinal block (src_at + offset) in
  let projection_id := vm_sequence_copy_id owner "runtime-project" ordinal in
  let ordinal := (ordinal + 1)%N in
  let projected_value :=
    generated_value owner "runtime-project-value" ordinal element_type projection_id block in
  let projection := with_failure (vm_sequence_copy_instruction projection_id
    (SequenceProject src_bound (RuntimeChecked failure)) [source; source_index]
    [projected_value]) (Some failure) in
  let final_operation := (offset + 1 =? copy_length)%Z in
  let replace_id :=
    if final_operation then vm_sequence_copy_id owner "runtime-replace-result" ordinal
    else vm_sequence_copy_id owner "runtime-replace" ordinal in
  let ordinal := (ordinal + 1)%N in
  let output := with_producer
    (if final_operation then result
     else generated_value owner "runtime-replace-value" ordinal expected_type replace_id block)
    replace_id in
  let replace := vm_sequence_copy_instruction replace_id
    (SequenceReplace element_type dst_bound StaticExact)
    [current_sequence; destination_index; v_identity projected_value] [output] in
  let replace := if final_operation then with_source replace instruction else replace in
  (rewritten ++ [destination_constant; source_constant; projection; replace],
   ordinal, v_identity output).

Definition runtime_record (instruction : SsaInstruction) (output : SemanticId) (rule : string)
  : TransformationRecord :=
  record_vm_sequence_copy_lowering instruction output runtime_target runtime_implementation rule.

(** Clears the failure mode of the last pushed instruction. *)
Definition clear_failure (pushed : list SsaInstruction) : list SsaInstruction :=
  match pushed with
  | [condition; lowered] => [condition; with_failure lowered None]
  | _ => pushed
  end.

Definition runtime_copy (types : list (SemanticId * BodyType)) (block : SemanticId)
  (instruction : SsaInstruction) (element_type : BodyType) (dst_length : Z)
  (src_bound : SequenceBound) (failure : FailureMode)
  (destination source : SemanticId) (dst_at src_at length : Z) (output : SsaValue)
  : Outcome string Lowered :=
  if (U128_MAX <? dst_at + length)%Z || (U128_MAX <? src_at + length)%Z
  then Ok (kept instruction)
  else
  if (dst_length <? dst_at + length)%Z || (U64_MAX <? src_at + length)%Z
     || (VM_STATIC_SEQUENCE_COPY_UNROLL_LIMIT <? length)%Z
     || ((length =? 0) && negb (src_at =? 0))%Z
  then Ok (kept instruction)
  else
  destination_type ← ok_or ("SequenceCopy " +:+ i_identity instruction +:+ " destination type is missing")
    (bm_get destination types);
  source_type ← ok_or ("SequenceCopy " +:+ i_identity instruction +:+ " source type is missing")
    (bm_get source types);
  let dst_bound := Exact dst_length in
  let expected_type := TySequence element_type dst_bound in
  if bool_decide (destination_type <> expected_type)
     || bool_decide (source_type <> TySequence element_type src_bound)
     || bool_decide (v_ty output <> expected_type)
  then Err ("runtime-checked SequenceCopy " +:+ i_identity instruction +:+ " types disagree with its bounds")
  else if (length =? 0)%Z then
    let '(pushed, output_id) :=
      empty_selection "runtime-" instruction block expected_type destination output in
    Ok {| l_pushed := clear_failure pushed;
          l_record := Some (runtime_record instruction output_id
            "vm-runtime-checked-sequence-copy-to-empty-selection/1");
          l_obligations := [] |}
  else
    let '(pushed, _, current_sequence) :=
      fold_left (runtime_element instruction block element_type expected_type dst_bound src_bound
                   failure source dst_at src_at length output)
        (seqZ 0 length) ([], 0%N, destination) in
    Ok {| l_pushed := pushed;
          l_record := Some (runtime_record instruction current_sequence
            "vm-runtime-checked-sequence-copy-to-project-replace/1");
          l_obligations := [] |}.

Definition runtime_pass : Pass := fun constants types block instruction =>
  match i_kind instruction with
  | SequenceCopy element_type (Exact dst_length) src_bound (RuntimeChecked failure) =>
      match i_inputs instruction, i_outputs instruction with
      | [destination; dst_at; source; src_at; length], [output] =>
          match bm_get dst_at constants, bm_get src_at constants, bm_get length constants with
          | Some dst_at, Some src_at, Some length =>
              if (dst_at <? 0)%Z || (src_at <? 0)%Z || (length <? 0)%Z
              then Ok (kept instruction)
              else runtime_copy types (b_identity block) instruction element_type dst_length
                     src_bound failure destination source dst_at src_at length output
          | _, _, _ => Ok (kept instruction)
          end
      | _, _ => Err ("runtime-checked SequenceCopy " +:+ i_identity instruction +:+ " has an invalid operand or result count")
      end
  | _ => Ok (kept instruction)
  end.

Definition lower_vm_runtime_checked_sequence_copies
  : SsaModule -> Outcome string (SsaModule * nat) := lower_module runtime_pass.

(** ** [lower_vm_runtime_checked_dynamic_offset_sequence_copies] *)

Definition dynamic_target : TargetIdentity :=
  {| tg_identity := "mncs:0.2:target:mncs-vm-0.1"; tg_family := "mncs-vm";
     tg_features := ["integer-add-checked"; "sequence-project"; "sequence-replace";
       "view-construct"; "sequence-length"; "integer-compare"; "boolean-op"; "select"];
     tg_integer_widths := [64%Z]; tg_abi := None |}.
Definition dynamic_implementation : SemanticId :=
  "mncs:0.2:compiler:vm-runtime-checked-sequence-copy-dynamic-offsets/2".

Definition dynamic_obligation (identity subject requirement operation_identity : SemanticId)
  : ObligationRecord :=
  {| o_identity := identity; o_subject := subject; o_requirement := requirement;
     o_status := "Unknown"; o_method := "runtime-checked-copy-index-offset";
     o_assumptions := []; o_dependencies := [operation_identity]; o_freshness := "Unknown";
     o_fallback := Some "retain checked u64 addition so index overflow remains a runtime failure";
     o_schema_version := OBLIGATION_SCHEMA_VERSION |}.

(** The checked addition an index is formed with. *)
Definition checked_add (identity : SemanticId) (base increment_id : SemanticId)
  (output : SsaValue) (failure : FailureMode)
  (operation_identity intent_identity requirement_identity obligation_identity : SemanticId)
  : SsaInstruction :=
  {| i_identity := identity; i_semantic_identity := None; i_hir_identity := None;
     i_kind := Integer "add" u64_integer "Checked"; i_inputs := [base; increment_id];
     i_outputs := [output]; i_effects := []; i_capability_uses := []; i_contracts := [];
     i_assumptions := []; i_evidence := [];
     i_machine_intent := Some {| ml_operation_identity := operation_identity;
       ml_intent_identity := intent_identity; ml_fact_identities := [];
       ml_preference_identities := [];
       ml_requirement_identities := [requirement_identity];
       ml_obligation_identities := [obligation_identity]; ml_capability_identities := [] |};
     i_obligations := [obligation_identity]; i_failure := Some failure |}.

(** The pushed instructions, the index value, the next ordinal, and the
    obligation the checked addition carries. *)
Definition push_vm_sequence_copy_dynamic_index (owner : SemanticId) (ordinal : N)
  (block base : SemanticId) (base_constant : option Z) (increment : Z)
  (failure : FailureMode) (operation_identity : SemanticId)
  : list SsaInstruction * SemanticId * N * list ObligationRecord :=
  if (increment =? 0)%Z then ([], base, ordinal, [])
  else
  let dynamic :=
    let '(constant, increment_id, ordinal) :=
      push_vm_sequence_copy_constant owner ordinal block increment in
    let identity := vm_sequence_copy_id owner "dynamic-offset-add" ordinal in
    let ordinal := (ordinal + 1)%N in
    let output := generated_value owner "dynamic-offset-add-value" ordinal u64_type identity block in
    let requirement_identity := vm_sequence_copy_id owner "dynamic-offset-add-requirement" ordinal in
    let obligation_identity := vm_sequence_copy_id owner "dynamic-offset-add-obligation" ordinal in
    let intent_identity := vm_sequence_copy_id owner "dynamic-offset-add-intent" ordinal in
    ([constant; checked_add identity base increment_id output failure operation_identity
        intent_identity requirement_identity obligation_identity],
     v_identity output, ordinal,
     [dynamic_obligation obligation_identity identity requirement_identity operation_identity]) in
  match base_constant with
  | Some base_constant =>
      let index := (base_constant + increment)%Z in
      if ((0 <=? index) && (index <=? U64_MAX))%Z
      then
        let '(constant, id, ordinal) := push_vm_sequence_copy_constant owner ordinal block index in
        ([constant], id, ordinal, [])
      else dynamic
  | None => dynamic
  end.

Definition dynamic_element (instruction : SsaInstruction) (block : SemanticId)
  (element_type expected_type : BodyType) (dst_bound src_bound : SequenceBound)
  (failure : FailureMode) (operation_identity : SemanticId)
  (source dst_base src_base : SemanticId) (dst_at src_at : option Z) (copy_length : Z)
  (result : SsaValue)
  (st : list SsaInstruction * N * SemanticId * list ObligationRecord) (offset : Z)
  : list SsaInstruction * N * SemanticId * list ObligationRecord :=
  let '(rewritten, ordinal, current_sequence, generated) := st in
  let owner := i_identity instruction in
  let '(destination_pushed, destination_index, ordinal, destination_obligations) :=
    push_vm_sequence_copy_dynamic_index owner ordinal block dst_base dst_at offset failure
      operation_identity in
  let '(source_pushed, source_index, ordinal, source_obligations) :=
    push_vm_sequence_copy_dynamic_index owner ordinal block src_base src_at offset failure
      operation_identity in
  let projection_id := vm_sequence_copy_id owner "dynamic-offset-project" ordinal in
  let ordinal := (ordinal + 1)%N in
  let projected_value :=
    generated_value owner "dynamic-offset-project-value" ordinal element_type projection_id block in
  let projection := with_failure (vm_sequence_copy_instruction projection_id
    (SequenceProject src_bound (RuntimeChecked failure)) [source; source_index]
    [projected_value]) (Some failure) in
  let final_operation := (offset + 1 =? copy_length)%Z in
  let replace_id :=
    if final_operation then vm_sequence_copy_id owner "dynamic-offset-result" ordinal
    else vm_sequence_copy_id owner "dynamic-offset-replace" ordinal in
  let ordinal := (ordinal + 1)%N in
  let output := with_producer
    (if final_operation then result
     else generated_value owner "dynamic-offset-replace-value" ordinal expected_type
            replace_id block) replace_id in
  let replace := with_failure (vm_sequence_copy_instruction replace_id
    (SequenceReplace element_type dst_bound (RuntimeChecked failure))
    [current_sequence; destination_index; v_identity projected_value] [output]) (Some failure) in
  let replace := if final_operation then with_source replace instruction else replace in
  (rewritten ++ destination_pushed ++ source_pushed ++ [projection; replace],
   ordinal, v_identity output, generated ++ destination_obligations ++ source_obligations).

(** The empty copy with dynamic offsets: an empty view of each operand at its
    offset, whose construction keeps the bounds check. *)
Definition empty_bound : SequenceBound := UpTo 0.

Definition empty_view (owner block : SemanticId) (element_type : BodyType)
  (failure : FailureMode) (role : string) (sequence offset : SemanticId)
  (source_bound : SequenceBound) (ordinal : N)
  : list SsaInstruction * SemanticId * N :=
  let view_identity := vm_sequence_copy_id owner ("empty-" +:+ role +:+ "-view") ordinal in
  let ordinal := (ordinal + 1)%N in
  let view_value := generated_value owner ("empty-" +:+ role +:+ "-view-value") ordinal
    (TySequence element_type empty_bound) view_identity block in
  let view := with_failure (vm_sequence_copy_instruction view_identity
    (ViewConstruct source_bound empty_bound) [sequence; offset; offset] [view_value])
    (Some failure) in
  let length_identity := vm_sequence_copy_id owner ("empty-" +:+ role +:+ "-length") ordinal in
  let ordinal := (ordinal + 1)%N in
  let length_value := generated_value owner ("empty-" +:+ role +:+ "-length-value") ordinal
    u64_type length_identity block in
  ([view; vm_sequence_copy_instruction length_identity (SequenceLength empty_bound)
            [v_identity view_value] [length_value]],
   v_identity length_value, ordinal).

Definition empty_length_check (owner block : SemanticId) (role : string)
  (length_value zero : SemanticId) (ordinal : N) : SsaInstruction * SemanticId * N :=
  let compare_identity :=
    vm_sequence_copy_id owner ("empty-" +:+ role +:+ "-length-check") ordinal in
  let ordinal := (ordinal + 1)%N in
  let compare_value := generated_value owner ("empty-" +:+ role +:+ "-length-check-value")
    ordinal TyBool compare_identity block in
  (vm_sequence_copy_instruction compare_identity (IntegerCompare "eq" u64_integer)
     [length_value; zero] [compare_value],
   v_identity compare_value, ordinal).

Definition empty_views (instruction : SsaInstruction) (block : SemanticId)
  (element_type expected_type : BodyType) (dst_bound src_bound : SequenceBound)
  (failure : FailureMode) (destination dst_at source src_at : SemanticId) (output : SsaValue)
  : list SsaInstruction * SemanticId :=
  let owner := i_identity instruction in
  let '(destination_views, destination_length, ordinal) :=
    empty_view owner block element_type failure "destination" destination dst_at dst_bound 0 in
  let '(source_views, source_length, ordinal) :=
    empty_view owner block element_type failure "source" source src_at src_bound ordinal in
  let '(constant, zero, ordinal) := push_vm_sequence_copy_constant owner ordinal block 0 in
  let '(destination_check, destination_valid, ordinal) :=
    empty_length_check owner block "destination" destination_length zero ordinal in
  let '(source_check, source_valid, ordinal) :=
    empty_length_check owner block "source" source_length zero ordinal in
  let condition_identity := vm_sequence_copy_id owner "empty-views-condition" ordinal in
  let ordinal := (ordinal + 1)%N in
  let condition := generated_value owner "empty-views-condition-value" ordinal TyBool
    condition_identity block in
  let output_identity := vm_sequence_copy_id owner "empty-views-result" ordinal in
  let lowered := with_failure (relowered instruction output_identity (Select expected_type)
    [v_identity condition; destination; destination] [with_producer output output_identity]) None in
  (destination_views ++ source_views ++
     [constant; destination_check; source_check;
      vm_sequence_copy_instruction condition_identity (BooleanOp "and")
        [destination_valid; source_valid] [condition]; lowered],
   output_identity).

Definition dynamic_record (instruction : SsaInstruction) (output : SemanticId) (rule : string)
  (obligations : list ObligationRecord) (promise : string) : TransformationRecord :=
  let record :=
    record_vm_sequence_copy_lowering instruction output dynamic_target dynamic_implementation rule in
  {| tr_input_identity := tr_input_identity record;
     tr_output_identity := tr_output_identity record;
     tr_rule := tr_rule record;
     tr_operation := tr_operation record;
     tr_target := tr_target record;
     tr_implementation := tr_implementation record;
     tr_obligations_required :=
       tr_obligations_required record ++ map o_identity obligations;
     tr_evidence_consumed := tr_evidence_consumed record;
     tr_backend_promises_permitted := [promise];
     tr_rest := tr_rest record |}.

Definition dynamic_copy (types : list (SemanticId * BodyType)) (block : SemanticId)
  (instruction : SsaInstruction) (element_type : BodyType) (dst_bound src_bound : SequenceBound)
  (failure : FailureMode) (destination dst_base source src_base : SemanticId)
  (dst_at src_at : option Z) (length : Z) (output : SsaValue) : Outcome string Lowered :=
  destination_type ← ok_or ("SequenceCopy " +:+ i_identity instruction +:+ " destination type is missing")
    (bm_get destination types);
  source_type ← ok_or ("SequenceCopy " +:+ i_identity instruction +:+ " source type is missing")
    (bm_get source types);
  let expected_type := TySequence element_type dst_bound in
  if bool_decide (destination_type <> expected_type)
     || bool_decide (source_type <> TySequence element_type src_bound)
     || bool_decide (v_ty output <> expected_type)
  then Err ("dynamic-offset SequenceCopy " +:+ i_identity instruction +:+ " types disagree with its bounds")
  else
  let operation_identity := default (i_identity instruction) (i_semantic_identity instruction) in
  if (length =? 0)%Z then
    let '(pushed, output_identity) :=
      empty_views instruction block element_type expected_type dst_bound src_bound failure
        destination dst_base source src_base output in
    Ok {| l_pushed := pushed;
          l_record := Some (dynamic_record instruction output_identity
            "vm-runtime-checked-sequence-copy-zero-length-to-checked-empty-views/1" []
            "functional-runtime-checked-empty-span-copy");
          l_obligations := [] |}
  else
    let '(pushed, _, current_sequence, generated) :=
      fold_left (dynamic_element instruction block element_type expected_type dst_bound src_bound
                   failure operation_identity source dst_base src_base dst_at src_at length output)
        (seqZ 0 length) ([], 0%N, destination, []) in
    Ok {| l_pushed := pushed;
          l_record := Some (dynamic_record instruction current_sequence
            "vm-runtime-checked-sequence-copy-dynamic-offsets-to-project-replace/1" generated
            "functional-runtime-checked-span-copy");
          l_obligations := generated |}.

Definition dynamic_pass : Pass := fun constants types block instruction =>
  match i_kind instruction with
  | SequenceCopy element_type (Exact dst_length) src_bound (RuntimeChecked failure) =>
      match i_inputs instruction, i_outputs instruction with
      | [destination; dst_base; source; src_base; length_id], [output] =>
          match bm_get length_id constants with
          | Some length =>
              let dst_at := bm_get dst_base constants in
              let src_at := bm_get src_base constants in
              let negative (o : option Z) := match o with Some v => (v <? 0)%Z | None => false end in
              if (length <? 0)%Z || (VM_STATIC_SEQUENCE_COPY_UNROLL_LIMIT <? length)%Z
              then Ok (kept instruction)
              else if negative dst_at || negative src_at
                || (bool_decide (is_Some dst_at) && bool_decide (is_Some src_at) && negb (length =? 0)%Z)
              then Ok (kept instruction)
              else if existsb (fun id => bool_decide (bm_get id types <> Some u64_type))
                        [dst_base; src_base; length_id]
              then Err ("dynamic-offset SequenceCopy " +:+ i_identity instruction +:+ " offsets or length are not u64")
              else dynamic_copy types (b_identity block) instruction element_type
                     (Exact dst_length) src_bound failure destination dst_base source src_base
                     dst_at src_at length output
          | None => Ok (kept instruction)
          end
      | _, _ => Err ("dynamic-offset SequenceCopy " +:+ i_identity instruction +:+ " has an invalid operand or result count")
      end
  | _ => Ok (kept instruction)
  end.

Definition lower_vm_runtime_checked_dynamic_offset_sequence_copies
  : SsaModule -> Outcome string (SsaModule * nat) := lower_module dynamic_pass.

(** The three passes in the order the emitter runs them. *)
Definition lower_sequence_copies (ssa : SsaModule) : Outcome string (SsaModule * (nat * nat * nat)) :=
  '(ssa, static_sequence_copies_lowered) ← lower_vm_static_sequence_copies ssa;
  '(ssa, runtime_checked_sequence_copies_lowered) ← lower_vm_runtime_checked_sequence_copies ssa;
  '(ssa, dynamic_offset_sequence_copies_lowered) ←
    lower_vm_runtime_checked_dynamic_offset_sequence_copies ssa;
  Ok (ssa, (static_sequence_copies_lowered, runtime_checked_sequence_copies_lowered,
            dynamic_offset_sequence_copies_lowered)).
End Lowering.
