(* ===== verification/VmSemantics.v ===== *)
(** Generated identities, and what the canonical VM does with the instructions
    the lowerings involve.

    The material an identity is hashed from is [owner:role:ordinal]; roles and
    ordinals hold no colon, so it determines all three, whatever the owner.

    The VM is another repository.  [VmSemantics] is the interface the lowerings
    rely on: one law per instruction kind, for [SequenceCopy] and for each kind
    of the "existing sequence subset" it is lowered to.  [run] executes an
    instruction list of a block; a result whose value is not of the declared
    type does not happen in verified SSA, and the run is stuck there. *)

From S2P Require Export SeqCopy Text.

Section Splitting.
Local Open Scope list_scope.

Definition chars (s : string) : list Ascii.ascii := String.list_ascii_of_string s.

Lemma chars_app s t : chars (s +:+ t) = chars s ++ chars t.
Proof. induction s as [|c s IH]; [done|]. exact (f_equal (cons c) IH). Qed.

Lemma chars_inj s t : chars s = chars t -> s = t.
Proof.
  intros He. rewrite <- (String.string_of_list_ascii_of_string s),
    <- (String.string_of_list_ascii_of_string t). unfold chars in He. by rewrite He.
Qed.

Lemma split_first {A} (c : A) a a' b b' :
  c ∉ a -> c ∉ a' -> a ++ c :: b = a' ++ c :: b' -> a = a' /\ b = b'.
Proof.
  revert a'. induction a as [|x a IH]; intros [|y a'] Ha Ha' He; cbn in *.
  - by injection He.
  - injection He as -> _. set_solver.
  - injection He as -> _. set_solver.
  - injection He as -> He. destruct (IH a') as [-> ->]; set_solver.
Qed.

Lemma split_last {A} (c : A) a a' b b' :
  c ∉ b -> c ∉ b' -> a ++ c :: b = a' ++ c :: b' -> a = a' /\ b = b'.
Proof.
  intros Hb Hb' He. apply (f_equal reverse) in He.
  rewrite !reverse_app, !reverse_cons, <- !app_assoc in He. cbn in He.
  apply split_first in He as [H1 H2]; [|by rewrite elem_of_reverse..].
  split; by apply (inj reverse).
Qed.

Definition colon : Ascii.ascii := Ascii.ascii_of_N 58.

Lemma pretty_char_not_colon x : pretty_N_char x <> colon.
Proof. unfold pretty_N_char, colon. repeat case_match; vm_compute; discriminate. Qed.

Lemma pretty_no_colon (n : N) : colon ∉ chars (pretty n).
Proof. apply pretty_free, pretty_char_not_colon. Qed.
End Splitting.

Section Injectivity.
Context `{ModelCrate}.
Context (Hsha : Inj (=) (=) sha256_hex).

(** A role without a colon: every role the passes use. *)
Definition plain (role : string) : Prop := colon ∉ chars role.

Lemma vm_sequence_copy_id_inj owner owner' role role' ordinal ordinal' :
  plain role -> plain role' ->
  vm_sequence_copy_id owner role ordinal = vm_sequence_copy_id owner' role' ordinal' ->
  owner = owner' /\ role = role' /\ ordinal = ordinal'.
Proof.
  intros Hr Hr' He. unfold vm_sequence_copy_id in He.
  apply (f_equal chars) in He. rewrite !chars_app in He. apply app_inv_head in He.
  apply chars_inj, Hsha, (f_equal chars) in He. rewrite !chars_app in He.
  assert (forall o r n, chars o ++ chars ":" ++ chars r ++ chars ":" ++ chars n
    = (chars o ++ colon :: chars r) ++ colon :: chars n)%list as Hshape
    by (intros; by rewrite <- app_assoc).
  rewrite !Hshape in He. apply split_last in He as [He Ho]; [|apply pretty_no_colon..].
  apply split_last in He as [He Hro]; [|done..].
  apply chars_inj in He, Hro, Ho. by apply (inj pretty) in Ho.
Qed.
End Injectivity.

Ltac plain :=
  lazymatch goal with |- plain _ => apply (bool_decide_unpack _); vm_compute; exact I end.

(** ** Lowering keeps the functions' identities *)

Definition same_function (f g : SsaFunction) : Prop :=
  f_identity f = f_identity g /\ f_semantic_identity f = f_semantic_identity g.

#[export] Instance same_function_trans : Transitive same_function.
Proof. intros f g h [H1 H2] [H3 H4]. split; congruence. Qed.

Lemma lower_module_functions pass ssa ssa' n :
  lower_module pass ssa = Ok (ssa', n) -> Forall2 same_function (m_functions ssa) (m_functions ssa').
Proof.
  unfold lower_module. intros Hl. apply outcome_bind_ok in Hl as (rows & Hr & [= <- _]). cbn.
  apply map_outcome_ok in Hr. apply Forall2_fmap_r. eapply Forall2_impl; [exact Hr|].
  intros f [f' r]. unfold lower_function. destruct (scan_function f). intros Hf.
  apply outcome_bind_ok in Hf as (blocks & _ & [= <- _]). by split.
Qed.

Lemma same_function_identities fs gs : Forall2 same_function fs gs -> map f_identity gs = map f_identity fs.
Proof. induction 1 as [|f g fs gs [Hi _] _ IH]; [done|]. cbn. by rewrite IH, Hi. Qed.

(** ** The virtual machine *)

Inductive Val : Type :=
  | VBool (b : bool)
  | VInt (z : Z)
  | VSeq (l : list Val)
  | VOpaque (payload : string).

(** A sequence's length is a [u64] within its bound. *)
Definition bound_ok (bound : SequenceBound) (n : nat) : bool :=
  (Z.of_nat n <=? U64_MAX)%Z &&
  match bound with
  | Exact length => (Z.of_nat n =? length)%Z
  | UpTo maximum => (Z.of_nat n <=? maximum)%Z
  | Param _ | UpToParam _ => true
  end.

Fixpoint has_type (ty : BodyType) (v : Val) : bool :=
  match ty, v with
  | TySequence element bound, VSeq l => forallb (has_type element) l && bound_ok bound (length l)
  | TyBool, VBool _ => true
  | TyInteger ty, VInt z =>
      if signed ty then ((- 2 ^ (bits ty - 1) <=? z) && (z <? 2 ^ (bits ty - 1)))%Z
      else ((0 <=? z) && (z <? 2 ^ bits ty))%Z
  | (TySequence _ _ | TyBool | TyInteger _), _ => false
  | _, _ => true
  end.

(** [d] with [n] elements of [s] from [sa] written over it at [da]. *)
Definition splice (d : list Val) (da : nat) (s : list Val) (sa n : nat) : list Val :=
  take da d ++ take n (drop sa s) ++ drop (da + n) d.

(** Instruction results: values, a runtime failure, or stuck. *)
Abbreviation Exec := (Outcome FailureMode).

Definition in_range (z : Z) (l : list Val) : bool := ((0 <=? z) && (z <? Z.of_nat (length l)))%Z.

Class VmSemantics := {
  exec : SsaInstruction -> list Val -> Exec (list Val);
  exec_constant : forall i c ty, i_kind i = Constant c ty ->
    ty = u64_type \/ ty = TyBool ->
    exec i [] = Ok [match ty with TyBool => VBool (negb (c =? 0)%Z) | _ => VInt c end];
  exec_select : forall i ty c a b, i_kind i = Select ty ->
    exec i [VBool c; a; b] = Ok [if c then a else b];
  exec_project : forall i bound ev l z x, i_kind i = SequenceProject bound ev ->
    in_range z l = true -> l !! Z.to_nat z = Some x -> exec i [VSeq l; VInt z] = Ok [x];
  exec_project_fails : forall i bound f l z, i_kind i = SequenceProject bound (RuntimeChecked f) ->
    in_range z l = false -> exec i [VSeq l; VInt z] = Err f;
  exec_replace : forall i e bound ev l z x, i_kind i = SequenceReplace e bound ev ->
    in_range z l = true -> exec i [VSeq l; VInt z; x] = Ok [VSeq (<[Z.to_nat z := x]> l)];
  exec_replace_fails : forall i e bound f l z x,
    i_kind i = SequenceReplace e bound (RuntimeChecked f) ->
    in_range z l = false -> exec i [VSeq l; VInt z; x] = Err f;
  exec_construct : forall i e n vs, i_kind i = SequenceConstruct e n ->
    Z.of_nat (length vs) = n -> exec i vs = Ok [VSeq vs];
  exec_length : forall i bound l, i_kind i = SequenceLength bound ->
    exec i [VSeq l] = Ok [VInt (Z.of_nat (length l))];
  exec_view : forall i b maximum f l lo hi,
    i_kind i = ViewConstruct b (UpTo maximum) -> i_failure i = Some f ->
    exec i [VSeq l; VInt lo; VInt hi] =
      if ((0 <=? lo) && (lo <=? hi) && (hi <=? Z.of_nat (length l)) && (hi - lo <=? maximum))%Z
      then Ok [VSeq (take (Z.to_nat (hi - lo)) (drop (Z.to_nat lo) l))] else Err f;
  exec_add : forall i f a b, i_kind i = Integer "add" u64_integer "Checked" ->
    i_failure i = Some f ->
    exec i [VInt a; VInt b] = if (a + b <=? U64_MAX)%Z then Ok [VInt (a + b)] else Err f;
  exec_eq : forall i a b, i_kind i = IntegerCompare "eq" u64_integer ->
    exec i [VInt a; VInt b] = Ok [VBool (a =? b)%Z];
  exec_and : forall i a b, i_kind i = BooleanOp "and" ->
    exec i [VBool a; VBool b] = Ok [VBool (a && b)];
  exec_copy : forall i e db sb ev d da s sa n, i_kind i = SequenceCopy e db sb ev ->
    (0 <= da)%Z -> (0 <= sa)%Z -> (0 <= n)%Z ->
    (da + n <= Z.of_nat (length d))%Z -> (sa + n <= Z.of_nat (length s))%Z ->
    exec i [VSeq d; VInt da; VSeq s; VInt sa; VInt n] =
      Ok [VSeq (splice d (Z.to_nat da) s (Z.to_nat sa) (Z.to_nat n))];
  exec_copy_fails : forall i e db sb f d da s sa n, i_kind i = SequenceCopy e db sb (RuntimeChecked f) ->
    (0 <= da)%Z -> (0 <= sa)%Z -> (0 <= n)%Z ->
    (Z.of_nat (length d) < da + n \/ Z.of_nat (length s) < sa + n)%Z ->
    exec i [VSeq d; VInt da; VSeq s; VInt sa; VInt n] = Err f
}.

Section Run.
Context `{VmSemantics}.

Abbreviation Env := (gmap string Val).

Definition operand (env : Env) (id : SemanticId) : Exec Val := expect "undefined value" (env !! id).

Definition bind_outputs (env : Env) (outputs : list SsaValue) (vs : list Val) : Env :=
  fold_left (fun env ov => <[v_identity ov.1 := ov.2]> env) (zip outputs vs) env.

Definition well_typed (outputs : list SsaValue) (vs : list Val) : bool :=
  (length outputs =? length vs) && forallb (fun ov => has_type (v_ty ov.1) ov.2) (zip outputs vs).

Definition step (env : Env) (i : SsaInstruction) : Exec Env :=
  vs ← map_outcome (operand env) (i_inputs i);
  outs ← exec i vs;
  if well_typed (i_outputs i) outs then Ok (bind_outputs env (i_outputs i) outs)
  else Panic "ill-typed result".

Definition run : Env -> list SsaInstruction -> Exec Env := fold_outcome step.

Lemma run_app env l1 l2 : run env (l1 ++ l2) = (env' ← run env l1; run env' l2).
Proof. apply fold_outcome_app. Qed.

Lemma step_ok env i vs o v :
  map_outcome (operand env) (i_inputs i) = Ok vs -> exec i vs = Ok [v] ->
  i_outputs i = [o] -> has_type (v_ty o) v = true ->
  step env i = Ok (<[v_identity o := v]> env).
Proof.
  intros Hv He Ho Ht. unfold step. rewrite Hv; cbn [mbind outcome_bind].
  rewrite He; cbn [mbind outcome_bind]. rewrite Ho. unfold well_typed. cbn. by rewrite Ht.
Qed.

Lemma run_one env i vs o v :
  map_outcome (operand env) (i_inputs i) = Ok vs -> exec i vs = Ok [v] ->
  i_outputs i = [o] -> has_type (v_ty o) v = true ->
  run env [i] = Ok (<[v_identity o := v]> env).
Proof. intros. unfold run. cbn. by erewrite step_ok. Qed.

Lemma step_err env i vs f :
  map_outcome (operand env) (i_inputs i) = Ok vs -> exec i vs = Err f -> step env i = Err f.
Proof. intros Hv He. unfold step. by rewrite Hv; cbn [mbind outcome_bind]; rewrite He. Qed.

(** What a successful step of a one-result instruction did. *)
Lemma step_inv env i o env' :
  i_outputs i = [o] -> step env i = Ok env' ->
  exists vs v, map_outcome (operand env) (i_inputs i) = Ok vs /\ exec i vs = Ok [v] /\
    has_type (v_ty o) v = true /\ env' = <[v_identity o := v]> env.
Proof.
  intros Ho Hs. unfold step in Hs. outcome_inv.
  destruct (well_typed _ _) eqn:Ew; [|done]. outcome_inv. unfold well_typed in Ew.
  rewrite Ho in *. apply andb_true_iff in Ew as [El Et].
  destruct a0 as [|v [|? ?]]; try done. cbn in *. exists a, v.
  rewrite andb_true_r in Et. done.
Qed.
End Run.
