(* ===== verification/VmReference.v ===== *)
(** A concrete model crate and a concrete VM, which the interfaces admit.

    They show that [ModelCrate] and [VmSemantics] can be instantiated, and give
    the lowering theorems inputs to be applied at. *)

From S2P Require Export VmSemantics.

#[export] Instance reference_crate : ModelCrate := {|
  sha256_hex := fun s => s;
  function_id := fun m f => (m +:+ "::" +:+ f)%string;
  transformation_new := fun i o rule op tg im =>
    {| tr_input_identity := i; tr_output_identity := o; tr_rule := rule; tr_operation := op;
       tr_target := tg; tr_implementation := im; tr_obligations_required := [];
       tr_evidence_consumed := []; tr_backend_promises_permitted := []; tr_rest := "" |};
  OBLIGATION_SCHEMA_VERSION := "1";
  identity_is_valid := fun _ => true;
  fingerprint := fun _ => Ok "fingerprint"%string
|}.

Lemma reference_sha_inj : Inj (=) (=) (@sha256_hex reference_crate).
Proof. by intros x y H. Qed.

Definition reference_checked (ev : BoundsEvidence) (fits : bool) (v : list Val) : Exec (list Val) :=
  if fits then Ok v else
  match ev with RuntimeChecked f => Err f | _ => Panic "out of bounds" end.

Definition reference_failing (i : SsaInstruction) (fits : bool) (v : list Val) : Exec (list Val) :=
  if fits then Ok v else match i_failure i with Some f => Err f | None => Panic "no failure mode" end.

Definition reference_exec (i : SsaInstruction) (vs : list Val) : Exec (list Val) :=
  match i_kind i, vs with
  | Constant c TyBool, [] => Ok [VBool (negb (c =? 0)%Z)]
  | Constant c _, [] => Ok [VInt c]
  | Select _, [VBool c; a; b] => Ok [if c then a else b]
  | SequenceProject _ ev, [VSeq l; VInt z] =>
      reference_checked ev (in_range z l) (default [] ((fun x => [x]) <$> l !! Z.to_nat z))
  | SequenceReplace _ _ ev, [VSeq l; VInt z; x] =>
      reference_checked ev (in_range z l) [VSeq (<[Z.to_nat z := x]> l)]
  | SequenceConstruct _ n, vs =>
      if (Z.of_nat (length vs) =? n)%Z then Ok [VSeq vs] else Panic "construct"
  | SequenceLength _, [VSeq l] => Ok [VInt (Z.of_nat (length l))]
  | ViewConstruct _ (UpTo maximum), [VSeq l; VInt lo; VInt hi] =>
      reference_failing i
        ((0 <=? lo) && (lo <=? hi) && (hi <=? Z.of_nat (length l)) && (hi - lo <=? maximum))%Z
        [VSeq (take (Z.to_nat (hi - lo)) (drop (Z.to_nat lo) l))]
  | Integer "add" _ "Checked", [VInt a; VInt b] =>
      reference_failing i (a + b <=? U64_MAX)%Z [VInt (a + b)]
  | IntegerCompare "eq" _, [VInt a; VInt b] => Ok [VBool (a =? b)%Z]
  | BooleanOp "and", [VBool a; VBool b] => Ok [VBool (a && b)]
  | SequenceCopy _ _ _ ev, [VSeq d; VInt da; VSeq s; VInt sa; VInt n] =>
      reference_checked ev
        ((0 <=? da) && (0 <=? sa) && (0 <=? n) && (da + n <=? Z.of_nat (length d))
         && (sa + n <=? Z.of_nat (length s)))%Z
        [VSeq (splice d (Z.to_nat da) s (Z.to_nat sa) (Z.to_nat n))]
  | _, _ => Panic "unsupported instruction"
  end.

#[export] Program Instance reference_vm : VmSemantics := {| exec := reference_exec |}.
Next Obligation. intros i c ty Hk [->| ->]; unfold reference_exec; by rewrite Hk. Qed.
Next Obligation. intros i ty c a b Hk. unfold reference_exec. by rewrite Hk. Qed.
Next Obligation.
  intros i b ev l z x Hk Hr Hx. unfold reference_exec. rewrite Hk. unfold reference_checked.
  by rewrite Hr, Hx.
Qed.
Next Obligation.
  intros i b f l z Hk Hr. unfold reference_exec. rewrite Hk. unfold reference_checked. by rewrite Hr.
Qed.
Next Obligation.
  intros i e b ev l z x Hk Hr. unfold reference_exec. rewrite Hk. unfold reference_checked. by rewrite Hr.
Qed.
Next Obligation.
  intros i e b f l z x Hk Hr. unfold reference_exec. rewrite Hk. unfold reference_checked. by rewrite Hr.
Qed.
Next Obligation.
  intros i e n vs Hk Hn. unfold reference_exec. rewrite Hk. by rewrite (proj2 (Z.eqb_eq _ _) Hn).
Qed.
Next Obligation. intros i b l Hk. unfold reference_exec. by rewrite Hk. Qed.
Next Obligation.
  intros i b m f l lo hi Hk Hf. unfold reference_exec. rewrite Hk. unfold reference_failing. by rewrite Hf.
Qed.
Next Obligation.
  intros i f a b Hk Hf. unfold reference_exec. rewrite Hk. unfold reference_failing. by rewrite Hf.
Qed.
Next Obligation. intros i a b Hk. unfold reference_exec. by rewrite Hk. Qed.
Next Obligation. intros i a b Hk. unfold reference_exec. by rewrite Hk. Qed.
Next Obligation.
  intros i e db sb ev d da s sa n Hk Hda Hsa Hn Hd Hs. unfold reference_exec. rewrite Hk.
  unfold reference_checked. by rewrite !(proj2 (Z.leb_le _ _)) by done.
Qed.
Next Obligation.
  intros i e db sb f d da s sa n Hk Hda Hsa Hn Hw. unfold reference_exec. rewrite Hk.
  unfold reference_checked. destruct (_ && _) eqn:E; [|done]. exfalso. lia.
Qed.
