(* ===== verification/SeqCopyLoop.v ===== *)
(** The copy loops, instruction by instruction.

    [Inv k] says what running the first [k] iterations' instructions does: the
    current sequence is the destination with [k] elements copied, or the run has
    failed with the copy's failure mode because the window does not fit.
    [iterate] carries it over one iteration of any of the three loops. *)

From S2P Require Export VmSemantics.

Section SpliceFacts.
Lemma length_splice d da s sa n :
  da + n <= length d -> sa + n <= length s -> length (splice d da s sa n) = length d.
Proof. intros. unfold splice. rewrite !length_app, !length_take, !length_drop. lia. Qed.

Lemma splice_0 d da s sa : splice d da s sa 0 = d.
Proof. unfold splice. rewrite take_0, Nat.add_0_r. cbn. apply take_drop. Qed.

Lemma splice_S d da s sa k x :
  da + S k <= length d -> s !! (sa + k) = Some x ->
  <[da + k := x]> (splice d da s sa k) = splice d da s sa (S k).
Proof.
  intros Hd Hx. pose proof (lookup_lt_Some _ _ _ Hx) as Hs. unfold splice.
  rewrite (take_S_r (drop sa s) k x) by (by rewrite lookup_drop).
  destruct (lookup_lt_is_Some_2 d (da + k)) as [y Hy]; [lia|].
  rewrite (drop_S d y (da + k)) by done.
  rewrite app_assoc.
  rewrite insert_app_r_alt by (rewrite length_app, !length_take, length_drop; lia).
  replace (da + k - length (take da d ++ take k (drop sa s))) with 0
    by (rewrite length_app, !length_take, length_drop; lia).
  cbn. rewrite <- !app_assoc. cbn. by rewrite Nat.add_succ_r.
Qed.

Lemma splice_lookup d da s sa n j :
  da + n <= length d -> sa + n <= length s -> j < length d ->
  splice d da s sa n !! j =
    if decide (da <= j < da + n) then s !! (sa + (j - da)) else d !! j.
Proof.
  intros Hd Hs Hj. unfold splice.
  destruct (decide (j < da)) as [Hlt|Hge].
  { rewrite lookup_app_l by (rewrite length_take; lia).
    rewrite lookup_take_lt by lia. by rewrite decide_False by lia. }
  rewrite lookup_app_r by (rewrite length_take; lia).
  rewrite length_take, Nat.min_l by lia.
  destruct (decide (j < da + n)) as [Hin|Hout].
  - rewrite lookup_app_l by (rewrite length_take, length_drop; lia).
    rewrite lookup_take_lt by lia. rewrite lookup_drop. by rewrite decide_True by lia.
  - rewrite lookup_app_r by (rewrite length_take, length_drop; lia).
    rewrite length_take, length_drop, Nat.min_l by lia. rewrite lookup_drop.
    rewrite decide_False by lia. f_equal. lia.
Qed.

Lemma in_range_true k (l : list Val) : k < length l -> in_range (Z.of_nat k) l = true.
Proof. intros. unfold in_range. rewrite andb_true_iff, Z.leb_le, Z.ltb_lt. lia. Qed.
Lemma in_range_false k (l : list Val) : length l <= k -> in_range (Z.of_nat k) l = false.
Proof. intros. unfold in_range. rewrite andb_false_iff, Z.leb_gt, Z.ltb_ge. lia. Qed.
End SpliceFacts.

Section Typing.
Lemma has_type_seq e bound l :
  has_type (TySequence e bound) (VSeq l) = true <->
  Forall (fun v => has_type e v = true) l /\ bound_ok bound (length l) = true.
Proof.
  cbn. rewrite andb_true_iff, forallb_forall, Forall_forall.
  by setoid_rewrite list_elem_of_In.
Qed.

Lemma bound_ok_u64 bound n : bound_ok bound n = true -> (Z.of_nat n <= U64_MAX)%Z.
Proof. unfold bound_ok. rewrite andb_true_iff. lia. Qed.

Lemma has_type_u64 z : has_type u64_type (VInt z) = true <-> (0 <= z <= U64_MAX)%Z.
Proof. cbn. unfold U64_MAX. rewrite andb_true_iff. lia. Qed.

Lemma has_type_splice e bound sb d s da sa n :
  has_type (TySequence e bound) (VSeq d) = true -> has_type (TySequence e sb) (VSeq s) = true ->
  da + n <= length d -> sa + n <= length s ->
  has_type (TySequence e bound) (VSeq (splice d da s sa n)) = true.
Proof.
  rewrite !has_type_seq. intros [Hd Hb] [Hs _] Hdn Hsn.
  rewrite length_splice by done. split; [|done]. unfold splice.
  apply Forall_app. split; [by apply Forall_take|]. apply Forall_app.
  split; [by apply Forall_take, Forall_drop|by apply Forall_drop].
Qed.
End Typing.

Section Generated.
Context `{ModelCrate} `{VmSemantics}.
Context (owner : SemanticId).

(** The identities generated for [owner]. *)
Definition gen (id : SemanticId) : Prop :=
  exists role m, plain role /\ id = vm_sequence_copy_id owner role m.

(** The identities an index computation may bind. *)
Definition touched (o o' : N) (id : SemanticId) : Prop :=
  exists m, (o < m <= o')%N /\
    (id = vm_sequence_copy_id owner "constant-value" m \/
     id = vm_sequence_copy_id owner "dynamic-offset-add-value" m).

Lemma touched_gen o o' id : touched o o' id -> gen id.
Proof. intros (m & _ & [->| ->]); eexists _, m; (split; [|done]); plain. Qed.

(** Running [pushed] binds [id] to the index [z], or fails with [f] because
    [z] is not a [u64]. *)
Record IndexSpec (E : gmap string Val) (pushed : list SsaInstruction) (id : SemanticId)
  (o o' : N) (z : Z) (f : FailureMode) : Prop := {
  is_le : (o <= o')%N;
  is_ok : (z <= U64_MAX)%Z -> exists E', run E pushed = Ok E' /\ E' !! id = Some (VInt z) /\
    forall x, ~ touched o o' x -> E' !! x = E !! x;
  is_err : (U64_MAX < z)%Z -> run E pushed = Err f;
  is_id : ~ gen id \/ touched o o' id
}.

Lemma operands_ok (E : gmap string Val) ids vs :
  Forall2 (fun id v => E !! id = Some v) ids vs -> map_outcome (operand E) ids = Ok vs.
Proof.
  intros Hf. apply map_outcome_ok. eapply Forall2_impl; [exact Hf|].
  intros id v Hv. cbn in Hv. unfold operand. by rewrite Hv.
Qed.

(** A pushed constant is an index. *)
Lemma constant_index E o block z f c id o' :
  push_vm_sequence_copy_constant owner o block z = (c, id, o') -> (0 <= z <= U64_MAX)%Z ->
  IndexSpec E [c] id o o' z f.
Proof.
  unfold push_vm_sequence_copy_constant. intros [= <- <- <-] Hz.
  assert (Hrun : run E [vm_sequence_copy_instruction (vm_sequence_copy_id owner "constant" o)
    (Constant z u64_type) [] [generated_value owner "constant-value" (o + 1) u64_type
      (vm_sequence_copy_id owner "constant" o) block]] =
    Ok (<[vm_sequence_copy_id owner "constant-value" (o + 1) := VInt z]> E)).
  { unfold run. cbn [fold_outcome].
    rewrite (step_ok E _ [] (generated_value owner "constant-value" (o + 1) u64_type
      (vm_sequence_copy_id owner "constant" o) block) (VInt z)); [done|done| |done|].
    - rewrite (exec_constant _ z u64_type); [done|done|by left].
    - by apply has_type_u64. }
  split; [lia| |lia|].
  - intros _. eexists. split; [exact Hrun|]. split; [apply lookup_insert_eq|].
    intros x Hx. apply lookup_insert_ne. intros <-. apply Hx.
    exists (o + 1)%N. split; [lia|by left].
  - right. exists (o + 1)%N. split; [lia|by left].
Qed.

(** The identities of one owner are apart when roles or ordinals are. *)
Context (Hsha : Inj (=) (=) sha256_hex).

Lemma id_apart r r' m m' :
  plain r -> plain r' -> r <> r' \/ m <> m' ->
  vm_sequence_copy_id owner r m <> vm_sequence_copy_id owner r' m'.
Proof.
  intros Hr Hr' Hne He. apply (vm_sequence_copy_id_inj Hsha) in He as (_ & -> & ->); [|done..].
  by destruct Hne.
Qed.

Lemma not_touched r m o o' :
  plain r -> r <> "constant-value" -> r <> "dynamic-offset-add-value" ->
  ~ touched o o' (vm_sequence_copy_id owner r m).
Proof.
  intros Hr H1 H2 (m' & _ & [He|He]); revert He; apply id_apart; try done; [plain|by left|plain|by left].
Qed.

Lemma touched_apart o o' o'' x : (o' <= o'')%N -> touched o o' x -> ~ touched o' o'' x.
Proof.
  intros Hle (m & Hm & Hx) (m' & Hm' & Hx').
  destruct Hx as [->| ->], Hx' as [He|He]; revert He; apply id_apart;
    first [plain | by left | right; lia].
Qed.

Lemma checked_add_step E identity base inc (o' : N) block f op i1 i2 i3 zb zi :
  E !! base = Some (VInt zb) -> E !! inc = Some (VInt zi) -> (0 <= zb)%Z -> (0 <= zi)%Z ->
  let output := generated_value owner "dynamic-offset-add-value" o' u64_type identity block in
  step E (checked_add identity base inc output f op i1 i2 i3) =
    if (zb + zi <=? U64_MAX)%Z
    then Ok (<[vm_sequence_copy_id owner "dynamic-offset-add-value" o' := VInt (zb + zi)]> E)
    else Err f.
Proof.
  intros Hb Hi Hzb Hzi output.
  assert (map_outcome (operand E) [base; inc] = Ok [VInt zb; VInt zi]) as Hops
    by (apply operands_ok; by repeat constructor).
  assert (exec (checked_add identity base inc output f op i1 i2 i3) [VInt zb; VInt zi] =
    if (zb + zi <=? U64_MAX)%Z then Ok [VInt (zb + zi)] else Err f) as He by (by apply exec_add).
  destruct (Z.leb_spec (zb + zi) U64_MAX).
  - eapply (step_ok E _ _ output); [exact Hops|exact He|done|]. apply has_type_u64. lia.
  - by eapply step_err.
Qed.

Lemma dynamic_index E o block base base_constant inc f op pushed id o' obligations zb :
  push_vm_sequence_copy_dynamic_index owner o block base base_constant inc f op
    = (pushed, id, o', obligations) ->
  ~ gen base -> E !! base = Some (VInt zb) -> (0 <= zb <= U64_MAX)%Z -> (0 <= inc <= U64_MAX)%Z ->
  (forall c, base_constant = Some c -> c = zb) ->
  IndexSpec E pushed id o o' (zb + inc) f.
Proof.
  intros Hp Hg Hb Hzb Hinc Hc. unfold push_vm_sequence_copy_dynamic_index in Hp.
  destruct (Z.eqb_spec inc 0) as [->|Hne].
  { injection Hp as <- <- <- <-. rewrite Z.add_0_r.
    split; [lia| |lia|by left]. intros _. by exists E. }
  destruct (push_vm_sequence_copy_constant owner o block inc) as [[ci ii] oi] eqn:Hci.
  pose proof (constant_index E o block inc f ci ii oi Hci Hinc) as [_ Hok _ _].
  destruct (Hok ltac:(lia)) as (E1 & Hrun & Hii & Hsame).
  assert (Hdyn : ([ci; checked_add (vm_sequence_copy_id owner "dynamic-offset-add" oi) base ii
      (generated_value owner "dynamic-offset-add-value" (oi + 1) u64_type
        (vm_sequence_copy_id owner "dynamic-offset-add" oi) block) f op
      (vm_sequence_copy_id owner "dynamic-offset-add-intent" (oi + 1))
      (vm_sequence_copy_id owner "dynamic-offset-add-requirement" (oi + 1))
      (vm_sequence_copy_id owner "dynamic-offset-add-obligation" (oi + 1))],
      vm_sequence_copy_id owner "dynamic-offset-add-value" (oi + 1), (oi + 1)%N) = (pushed, id, o') ->
    IndexSpec E pushed id o o' (zb + inc) f).
  { intros [= <- <- <-].
    assert (oi = (o + 1)%N) as -> by (unfold push_vm_sequence_copy_constant in Hci; congruence).
    assert (E1 !! base = Some (VInt zb)) as Hb1
      by (rewrite Hsame; [done|by intros ?%touched_gen]).
    assert (forall i, run E [ci; i] = step E1 i) as Hstep.
    { intros i. change [ci; i] with ([ci] ++ [i])%list. rewrite run_app, Hrun. cbn.
      by destruct (step E1 i). }
    pose proof (checked_add_step E1 (vm_sequence_copy_id owner "dynamic-offset-add" (o + 1)) base ii
      (o + 1 + 1) block f op (vm_sequence_copy_id owner "dynamic-offset-add-intent" (o + 1 + 1))
      (vm_sequence_copy_id owner "dynamic-offset-add-requirement" (o + 1 + 1))
      (vm_sequence_copy_id owner "dynamic-offset-add-obligation" (o + 1 + 1)) zb inc
      Hb1 Hii ltac:(lia) ltac:(lia)) as Hadd. cbn zeta in Hadd.
    split; [lia| |intros Hz; rewrite Hstep, Hadd; by rewrite (proj2 (Z.leb_gt _ _))|].
    - intros Hz. rewrite Hstep, Hadd.
      rewrite (proj2 (Z.leb_le _ _)) by done. eexists. split; [done|]. split; [apply lookup_insert_eq|].
      intros x Hx. rewrite lookup_insert_ne.
      + apply Hsame. intros (m & Hm & Hmx). apply Hx. exists m. split; [lia|done].
      + intros <-. apply Hx. exists (o + 1 + 1)%N. split; [lia|by right].
    - right. exists (o + 1 + 1)%N. split; [lia|by right]. }
  destruct base_constant as [c|]; [|cbn zeta in Hp; rewrite ?Hci in Hp; injection Hp as <- <- <- <-; by apply Hdyn].
  rewrite (Hc c eq_refl) in Hp.
  destruct ((0 <=? zb + inc) && (zb + inc <=? U64_MAX))%Z eqn:Er.
  - destruct (push_vm_sequence_copy_constant owner o block (zb + inc)) as [[cc ic] oc] eqn:Hcc.
    injection Hp as <- <- <- <-. eapply constant_index; [exact Hcc|lia].
  - injection Hp as <- <- <- <-. by apply Hdyn.
Qed.
End Generated.

Section Loop.
Context `{ModelCrate} `{VmSemantics} (Hsha : Inj (=) (=) sha256_hex).
Context (owner result destination source : SemanticId) (e : BodyType) (db sb : SequenceBound)
  (ev1 ev2 : BoundsEvidence) (f : FailureMode) (role_value role_copy : string).
Context (env : gmap string Val) (d s : list Val) (da sa n : nat).
Context (Hrv : plain role_value) (Hrc : plain role_copy) (Hroles : role_value <> role_copy).
Context (Hrv1 : role_value <> "constant-value"%string)
  (Hrv2 : role_value <> "dynamic-offset-add-value"%string)
  (Hrc1 : role_copy <> "constant-value"%string)
  (Hrc2 : role_copy <> "dynamic-offset-add-value"%string).
Context (Hd : env !! destination = Some (VSeq d)) (Hs : env !! source = Some (VSeq s)).
Context (Htd : has_type (TySequence e db) (VSeq d) = true)
  (Hts : has_type (TySequence e sb) (VSeq s) = true).
Context (Hgd : ~ gen owner destination) (Hgs : ~ gen owner source).

(** [k] elements have been copied without leaving either sequence. *)
Definition window_fits (k : nat) : Prop := k = 0 \/ (da + k <= length d /\ sa + k <= length s).

(** When the window does not fit, the checks that catch it carry [f]. *)
Context (Hev1 : ev1 = RuntimeChecked f \/ sa + n <= length s)
  (Hev2 : ev2 = RuntimeChecked f \/ da + n <= length d).

Definition copied (k : nat) : Val := VSeq (splice d da s sa k).

(** The environment after [k] iterations, up to generated identities. *)
Definition env_after (k : nat) : gmap string Val :=
  if decide (k = n) then <[result := copied n]> env else env.

Definition Inv (k : nat) (rewritten : list SsaInstruction) (cur : SemanticId) : Prop :=
  (window_fits k -> exists E, run env rewritten = Ok E /\ E !! cur = Some (copied k) /\
     forall x, ~ gen owner x -> E !! x = env_after k !! x) /\
  (~ window_fits k -> run env rewritten = Err f) /\
  (k < n -> cur = destination \/ exists m, cur = vm_sequence_copy_id owner role_copy m).

Lemma Inv_start : n <> 0 -> Inv 0 [] destination.
Proof using Hd.
  clear Hev1 Hev2. intros Hn. split; [|split; [|by left]].
  - intros _. exists env. unfold copied, env_after. rewrite splice_0, decide_False by lia. done.
  - intros Hnf. destruct Hnf. by left.
Qed.

Lemma fits_S k : window_fits (S k) -> window_fits k.
Proof. intros [?|?]; [lia|]. right. lia. Qed.

Lemma fits_lengths k :
  window_fits (S k) -> (Z.of_nat (da + k) <= U64_MAX)%Z /\ (Z.of_nat (sa + k) <= U64_MAX)%Z.
Proof.
  intros [?|?]; [lia|]. apply has_type_seq in Htd as [_ Hb1%bound_ok_u64].
  apply has_type_seq in Hts as [_ Hb2%bound_ok_u64]. lia.
Qed.

Lemma fits_dec k : window_fits k \/ ~ window_fits k.
Proof.
  destruct (decide (k = 0)); [by left; left|].
  destruct (decide (da + k <= length d /\ sa + k <= length s)); [by left; right|].
  right. intros [?|?]; done.
Qed.

(** The projection and the replacement that end an iteration. *)
Lemma finish_element E k p r pv ro di si cur :
  k < n -> window_fits k -> E !! cur = Some (copied k) ->
  E !! di = Some (VInt (Z.of_nat (da + k))) -> E !! si = Some (VInt (Z.of_nat (sa + k))) ->
  E !! source = Some (VSeq s) ->
  i_kind p = SequenceProject sb ev1 -> i_inputs p = [source; si] -> i_outputs p = [pv] ->
  v_ty pv = e -> v_identity pv <> cur -> v_identity pv <> di ->
  i_kind r = SequenceReplace e db ev2 -> i_inputs r = [cur; di; v_identity pv] ->
  i_outputs r = [ro] -> v_ty ro = TySequence e db ->
  (window_fits (S k) -> exists x, run E [p; r] =
     Ok (<[v_identity ro := copied (S k)]> (<[v_identity pv := x]> E))) /\
  (~ window_fits (S k) -> run E [p; r] = Err f).
Proof.
  intros Hk Hfk Hcur Hdi Hsi Hsrc Kp Ip Op Tp Hpc Hpd Kr Ir Or Tr.
  assert (Hops : map_outcome (operand E) (i_inputs p) = Ok [VSeq s; VInt (Z.of_nat (sa + k))])
    by (rewrite Ip; apply operands_ok; by repeat constructor).
  assert (Hlen : length (splice d da s sa k) = length d)
    by (destruct Hfk as [->|[? ?]]; [by rewrite splice_0|by apply length_splice]).
  destruct (s !! (sa + k)) as [x|] eqn:Hx.
  2: { assert (Hns : ~ window_fits (S k)) by (apply lookup_ge_None in Hx; intros [?|?]; lia).
    split; [done|]. intros _. apply lookup_ge_None in Hx.
    destruct Hev1 as [Hev|?]; [|lia]. unfold run. cbn [fold_outcome].
    rewrite (step_err E p _ f Hops); [done|].
    eapply exec_project_fails; [rewrite Kp, Hev; done|]. by apply in_range_false. }
  pose proof (lookup_lt_Some _ _ _ Hx) as Hlt.
  assert (Htx : has_type (v_ty pv) x = true).
  { rewrite Tp. apply has_type_seq in Hts as [Ht _]. by eapply (Forall_lookup_1 _ _ _ _ Ht). }
  assert (Hp : step E p = Ok (<[v_identity pv := x]> E)).
  { eapply step_ok; [exact Hops| |exact Op|exact Htx].
    eapply exec_project; [exact Kp|by apply in_range_true|]. by rewrite Nat2Z.id. }
  assert (Hops2 : map_outcome (operand (<[v_identity pv := x]> E)) (i_inputs r)
    = Ok [copied k; VInt (Z.of_nat (da + k)); x]).
  { rewrite Ir. apply operands_ok. repeat constructor.
    - by rewrite lookup_insert_ne.
    - by rewrite lookup_insert_ne.
    - apply lookup_insert_eq. }
  unfold run. cbn [fold_outcome]. rewrite Hp. cbn [mbind outcome_bind].
  destruct (decide (da + S k <= length d)) as [Hin|Hout].
  - split; [|intros Hnf; destruct Hnf; right; lia]. intros _. exists x.
    rewrite (step_ok _ r _ ro (copied (S k)) Hops2); [done| |done|].
    + unfold copied at 1. rewrite (exec_replace r e db ev2 _ _ x Kr) by (apply in_range_true; lia).
      rewrite Nat2Z.id, splice_S by (lia || done). done.
    + rewrite Tr. eapply has_type_splice; [exact Htd|exact Hts|lia|lia].
  - split; [intros [?|?]; lia|]. intros _. destruct Hev2 as [Hev|?]; [|lia].
    rewrite (step_err _ r _ f Hops2); [done|].
    eapply exec_replace_fails; [rewrite Kr, Hev; done|]. apply in_range_false. lia.
Qed.

(** Index computations run one after the other leave the operands in place. *)
Lemma run_indices E cur D S' di si o o1 o2 zd zs :
  (cur = destination \/ exists m, cur = vm_sequence_copy_id owner role_copy m) ->
  (forall x, ~ gen owner x -> E !! x = env !! x) ->
  (forall E, (forall x, ~ gen owner x -> E !! x = env !! x) -> IndexSpec owner E D di o o1 zd f) ->
  (forall E, (forall x, ~ gen owner x -> E !! x = env !! x) -> IndexSpec owner E S' si o1 o2 zs f) ->
  ((zd <= U64_MAX)%Z /\ (zs <= U64_MAX)%Z /\ exists E2, run E (D ++ S') = Ok E2 /\
     E2 !! di = Some (VInt zd) /\ E2 !! si = Some (VInt zs) /\ E2 !! cur = E !! cur /\
     forall x, ~ gen owner x -> E2 !! x = env !! x) \/
  ((U64_MAX < zd)%Z \/ (U64_MAX < zs)%Z) /\ run E (D ++ S') = Err f.
Proof.
  intros Hcur Henv HD HS.
  assert (Hnc : forall o o', ~ touched owner o o' cur).
  { intros ? ?. destruct Hcur as [->|[m ->]]; [by intros ?%touched_gen|by apply not_touched]. }
  rewrite run_app. pose proof (HD E Henv) as [_ Hok1 Her1 Hid1].
  destruct (Z.le_gt_cases zd U64_MAX) as [Hzd|Hzd];
    [|right; rewrite Her1 by done; by split; [left|]].
  destruct (Hok1 Hzd) as (E1 & -> & Hdi & Hsame1). cbn [mbind outcome_bind].
  assert (Henv1 : forall x, ~ gen owner x -> E1 !! x = env !! x).
  { intros x Hx. rewrite Hsame1; [by apply Henv|by intros ?%touched_gen]. }
  pose proof (HS E1 Henv1) as [Hle Hok2 Her2 _].
  destruct (Z.le_gt_cases zs U64_MAX) as [Hzs|Hzs];
    [|right; rewrite Her2 by done; by split; [right|]].
  destruct (Hok2 Hzs) as (E2 & -> & Hsi & Hsame2). left. split; [done|]. split; [done|].
  exists E2. split; [done|]. split; [|split; [done|]].
  - rewrite Hsame2; [done|]. destruct Hid1 as [Hg|Ht]; [by intros ?%touched_gen|].
    pose proof (is_le _ _ _ _ _ _ _ _ (HD E Henv)). by eapply touched_apart.
  - split; [by rewrite Hsame2, Hsame1|]. intros x Hx.
    rewrite Hsame2; [by apply Henv1|by intros ?%touched_gen].
Qed.

Lemma run_Err rewritten more g : run env rewritten = Err g -> run env (rewritten ++ more) = Err g.
Proof. intros Hr. by rewrite run_app, Hr. Qed.

(** One iteration: two index computations, the projection, the replacement. *)
Lemma iterate k rewritten cur D S' di si o o1 o2 p r pv ro mp mr :
  k < n -> Inv k rewritten cur ->
  (forall E, (forall x, ~ gen owner x -> E !! x = env !! x) ->
     IndexSpec owner E D di o o1 (Z.of_nat (da + k)) f) ->
  (forall E, (forall x, ~ gen owner x -> E !! x = env !! x) ->
     IndexSpec owner E S' si o1 o2 (Z.of_nat (sa + k)) f) ->
  i_kind p = SequenceProject sb ev1 -> i_inputs p = [source; si] -> i_outputs p = [pv] ->
  v_ty pv = e -> v_identity pv = vm_sequence_copy_id owner role_value mp ->
  i_kind r = SequenceReplace e db ev2 -> i_inputs r = [cur; di; v_identity pv] ->
  i_outputs r = [ro] -> v_ty ro = TySequence e db ->
  v_identity ro = (if decide (S k = n) then result else vm_sequence_copy_id owner role_copy mr) ->
  Inv (S k) (rewritten ++ D ++ S' ++ [p; r]) (v_identity ro).
Proof.
  intros Hk (Hok & Hbad & Hcur) HD HS Kp Ip Op Tp Np Kr Ir Or Tr Nr.
  specialize (Hcur Hk).
  assert (Hcur' : S k < n -> v_identity ro = destination \/
    exists m, v_identity ro = vm_sequence_copy_id owner role_copy m).
  { intros Hlt. rewrite Nr, decide_False by lia. right. by exists mr. }
  destruct (fits_dec k) as [Hf|Hf].
  2: { split; [by intros ?%fits_S|]. split; [intros _; by apply run_Err, Hbad|exact Hcur']. }
  destruct (Hok Hf) as (E & Hrun & HEc & HEx). unfold env_after in HEx.
  rewrite decide_False in HEx by lia. rewrite (app_assoc D).
  pose proof (fits_lengths k) as Hlens.
  destruct (run_indices E cur D S' di si o o1 o2 _ _ Hcur HEx HD HS)
    as [(Hzd & Hzs & E2 & Hrun2 & Hdi & Hsi & Hc2 & HE2)|[Hz Hrun2]].
  2: { split; [|split; [|exact Hcur']].
    - intros Hfs. exfalso. specialize (Hlens Hfs). lia.
    - intros _. rewrite run_app, Hrun. cbn [mbind outcome_bind].
      rewrite run_app, Hrun2. done. }
  destruct (finish_element E2 k p r pv ro di si cur) as [Hfok Hfbad]; try done.
  { by rewrite Hc2. }
  { by rewrite HE2. }
  { rewrite Np. destruct Hcur as [->|[m ->]].
    - intros Heq. apply Hgd. rewrite <- Heq. by exists role_value, mp.
    - apply (id_apart owner Hsha); [done..|by left]. }
  { rewrite Np. pose proof (is_id _ _ _ _ _ _ _ _ (HD E HEx)) as [Hg|Ht]; intros <-.
    - apply Hg. by exists role_value, mp.
    - revert Ht. by apply (not_touched owner Hsha). }
  assert (Hall : run env (rewritten ++ (D ++ S') ++ [p; r]) = run E2 [p; r]).
  { rewrite run_app, Hrun. cbn [mbind outcome_bind]. by rewrite run_app, Hrun2. }
  split; [|split; [|exact Hcur']].
  - intros Hfs. destruct (Hfok Hfs) as [x Hx]. eexists. split; [by rewrite Hall, Hx|].
    split; [apply lookup_insert_eq|]. intros y Hy.
    assert (Hpv : v_identity pv <> y) by (rewrite Np; intros <-; apply Hy; by exists role_value, mp).
    rewrite Nr. unfold env_after. destruct (decide (S k = n)) as [Hn|Hn].
    + rewrite Hn. destruct (decide (result = y)) as [->|Hry];
        [by rewrite !lookup_insert_eq|rewrite !lookup_insert_ne by done; by apply HE2].
    + assert (vm_sequence_copy_id owner role_copy mr <> y)
        by (intros <-; apply Hy; by exists role_copy, mr).
      rewrite !lookup_insert_ne by done. by apply HE2.
  - intros Hnf. rewrite Hall. by apply Hfbad.
Qed.

Lemma Inv_end rewritten cur :
  Inv n rewritten cur -> n <> 0 ->
  (da + n <= length d /\ sa + n <= length s ->
     exists E, run env rewritten = Ok E /\
       forall x, ~ gen owner x -> E !! x = <[result := copied n]> env !! x) /\
  (~ (da + n <= length d /\ sa + n <= length s) -> run env rewritten = Err f).
Proof.
  intros (Hok & Hbad & _) Hn. split.
  - intros Hf. destruct Hok as (E & ? & _ & HE); [by right|]. exists E. split; [done|].
    unfold env_after in HE. by rewrite decide_True in HE.
  - intros Hnf. apply Hbad. intros [?|?]; done.
Qed.
End Loop.
