(* ===== verification/SeqCopyRefine.v ===== *)
(** Each lowering of one [SequenceCopy] refines it.

    [refines] compares running the pushed instructions with the one copy
    instruction: same runtime failure, or environments that agree on every
    identity that was not generated for it. *)

From S2P Require Export SeqCopyLoop.

Section Refines.
Context `{ModelCrate} `{VmSemantics}.

Definition refines (owner : SemanticId) (original lowered : Exec (gmap string Val)) : Prop :=
  match original with
  | Ok env1 => exists env2, lowered = Ok env2 /\ forall x, ~ gen owner x -> env2 !! x = env1 !! x
  | Err f => lowered = Err f
  | Panic _ => True
  end.

Lemma map_outcome_operands (env : gmap string Val) ids vs :
  map_outcome (operand env) ids = Ok vs -> Forall2 (fun id v => env !! id = Some v) ids vs.
Proof.
  rewrite map_outcome_ok. intros Hf. eapply Forall2_impl; [exact Hf|].
  intros id v Hv. cbn in Hv. unfold operand in Hv. destruct (env !! id); cbn in Hv; congruence.
Qed.

Lemma has_type_seq_inv e bound v :
  has_type (TySequence e bound) v = true -> exists l, v = VSeq l.
Proof. destruct v; cbn; try done. by eexists. Qed.

Lemma has_type_u64_inv v : has_type u64_type v = true -> exists z, v = VInt z.
Proof. destruct v; cbn; try done. by eexists. Qed.

Lemma bound_ok_exact n m : bound_ok (Exact n) m = true -> Z.of_nat m = n.
Proof. unfold bound_ok. rewrite andb_true_iff. lia. Qed.
End Refines.

Section OneCopy.
Context `{ModelCrate} `{VmSemantics} (Hsha : Inj (=) (=) sha256_hex).
Context (i : SsaInstruction) (e : BodyType) (dn : Z) (sb : SequenceBound) (ev : BoundsEvidence).
Context (destination dst_id source src_id length_id : SemanticId) (output : SsaValue).
Context (Hkind : i_kind i = SequenceCopy e (Exact dn) sb ev)
  (Hin : i_inputs i = [destination; dst_id; source; src_id; length_id])
  (Hout : i_outputs i = [output]) (Hty : v_ty output = TySequence e (Exact dn)).
Context (env : gmap string Val) (d s : list Val) (da sa n : nat).
Context (Hd : env !! destination = Some (VSeq d)) (Hs : env !! source = Some (VSeq s))
  (Hda : env !! dst_id = Some (VInt (Z.of_nat da))) (Hsa : env !! src_id = Some (VInt (Z.of_nat sa)))
  (Hn : env !! length_id = Some (VInt (Z.of_nat n))).
Context (Htd : has_type (TySequence e (Exact dn)) (VSeq d) = true)
  (Hts : has_type (TySequence e sb) (VSeq s) = true).
Context (Hfresh : forall id, id ∈ i_inputs i -> ~ gen (i_identity i) id).

Local Abbreviation owner := (i_identity i).
Local Abbreviation window := (da + n <= length d /\ sa + n <= length s).

Lemma copy_operands :
  map_outcome (operand env) (i_inputs i) =
    Ok [VSeq d; VInt (Z.of_nat da); VSeq s; VInt (Z.of_nat sa); VInt (Z.of_nat n)].
Proof. rewrite Hin. apply operands_ok. by repeat constructor. Qed.

Lemma copy_step_ok :
  window -> step env i = Ok (<[v_identity output := VSeq (splice d da s sa n)]> env).
Proof.
  intros [H1 H2]. eapply step_ok; [exact copy_operands| |exact Hout|].
  - rewrite (exec_copy i e (Exact dn) sb ev d _ s) by (done || lia). by rewrite !Nat2Z.id.
  - rewrite Hty. by eapply has_type_splice.
Qed.

Lemma copy_step_err f : ev = RuntimeChecked f -> ~ window -> step env i = Err f.
Proof.
  intros Hev Hw. eapply step_err; [exact copy_operands|].
  eapply exec_copy_fails; [by rewrite Hkind, Hev|lia..].
Qed.

Lemma destination_fresh : ~ gen owner destination.
Proof. apply Hfresh. rewrite Hin. set_solver. Qed.
Lemma source_fresh : ~ gen owner source.
Proof. apply Hfresh. rewrite Hin. set_solver. Qed.

(** A completed loop refines the copy. *)
Lemma loop_refines f role pushed cur :
  (ev = RuntimeChecked f \/ window) ->
  n <> 0 ->
  Inv owner (v_identity output) destination f role env d s da sa n n pushed cur ->
  refines owner (step env i) (run env pushed).
Proof.
  intros Hev Hn0 HI. apply Inv_end in HI as [Hok Hbad]; [|done].
  destruct (decide window) as [Hw|Hw].
  - rewrite (copy_step_ok Hw). destruct (Hok Hw) as (E & HE & Hagree). by exists E.
  - destruct Hev as [Hev|?]; [|done]. rewrite (copy_step_err f Hev Hw). by apply Hbad.
Qed.

(** The empty copy: selecting the destination whatever the condition. *)
Lemma select_run E block condition (r : SsaInstruction) b :
  E !! destination = Some (VSeq d) -> E !! condition = Some (VBool b) ->
  i_kind r = Select (TySequence e (Exact dn)) -> i_inputs r = [condition; destination; destination] ->
  i_outputs r = [with_producer output block] ->
  step E r = Ok (<[v_identity output := VSeq d]> E).
Proof.
  intros HEd HEc Kr Ir Or.
  rewrite (step_ok E r [VBool b; VSeq d; VSeq d] (with_producer output block) (VSeq d)).
  - done.
  - rewrite Ir. apply operands_ok. by repeat constructor.
  - rewrite (exec_select r _ b _ _ Kr). by destruct b.
  - done.
  - cbn. by rewrite Hty.
Qed.

Lemma splice_empty : n = 0 -> splice d da s sa n = d.
Proof. intros ->. apply splice_0. Qed.

Lemma empty_selection_refines prefix block pushed id :
  plain (prefix +:+ "empty-condition-value") -> n = 0 -> window ->
  empty_selection prefix i block (TySequence e (Exact dn)) destination output = (pushed, id) ->
  refines owner (step env i) (run env pushed) /\
  refines owner (step env i) (run env (clear_failure pushed)).
Proof.
  intros Hpre Hn0 Hw [= <- <-]. rewrite (copy_step_ok Hw), (splice_empty Hn0).
  assert (forall l : SsaInstruction,
    i_kind l = Select (TySequence e (Exact dn)) ->
    i_inputs l = [vm_sequence_copy_id owner (prefix +:+ "empty-condition-value") 1; destination; destination] ->
    i_outputs l = [with_producer output (vm_sequence_copy_id owner (prefix +:+ "empty-result") 1)] ->
    refines owner (Ok (<[v_identity output := VSeq d]> env))
      (run env [vm_sequence_copy_instruction (vm_sequence_copy_id owner (prefix +:+ "empty-condition") 0)
        (Constant 1 TyBool) [] [generated_value owner (prefix +:+ "empty-condition-value") 1 TyBool
          (vm_sequence_copy_id owner (prefix +:+ "empty-condition") 0) block]; l])) as Hl;
    [|split; by apply Hl].
  intros l Kl Il Ol. unfold run. cbn [fold_outcome].
  rewrite (step_ok env _ [] (generated_value owner (prefix +:+ "empty-condition-value") 1 TyBool
    (vm_sequence_copy_id owner (prefix +:+ "empty-condition") 0) block) (VBool true));
    [cbn [mbind outcome_bind]|done|by erewrite exec_constant; [|done|by right]|done..].
  erewrite (select_run _ _ _ l true); [cbn [mbind outcome_bind]| |apply lookup_insert_eq|exact Kl|exact Il|exact Ol].
  - eexists. split; [done|]. intros x Hx.
    destruct (decide (v_identity output = x)) as [->|Hne]; [by rewrite !lookup_insert_eq|].
    rewrite !lookup_insert_ne; [done|done| |done].
    intros <-. apply Hx. by eexists _, _.
  - rewrite lookup_insert_ne; [done|]. intros Heq. apply destination_fresh. rewrite <- Heq.
    by eexists _, _.
Qed.

(** ** The unrolled loops *)

Lemma seqZ_snoc k : seqZ 0 (Z.of_nat (S k)) = seqZ 0 (Z.of_nat k) ++ [Z.of_nat k].
Proof. by rewrite seqZ_S. Qed.

Lemma index_bounds : Z.of_nat (length d) = dn /\ (dn <= U64_MAX)%Z /\
  (Z.of_nat (length s) <= U64_MAX)%Z.
Proof.
  apply has_type_seq in Htd as [_ Hb]. apply has_type_seq in Hts as [_ Hb'%bound_ok_u64].
  pose proof (bound_ok_exact _ _ Hb). apply bound_ok_u64 in Hb. lia.
Qed.

Local Abbreviation LInv f role := (Inv owner (v_identity output) destination f role env d s da sa n).

Lemma final_of k : (Z.of_nat k + 1 =? Z.of_nat n)%Z = bool_decide (S k = n).
Proof. case_bool_decide; [apply Z.eqb_eq|apply Z.eqb_neq]; lia. Qed.

Lemma unroll_inv block k rewritten o cur :
  k <= n -> n <> 0 -> window ->
  fold_left (unroll_element i block e (TySequence e (Exact dn)) (Exact dn) sb source
      (Z.of_nat da) (Z.of_nat sa) (Z.of_nat n) output)
    (seqZ 0 (Z.of_nat k)) ([], 0%N, destination) = (rewritten, o, cur) ->
  LInv "" "replace-value" k rewritten cur.
Proof.
  intros Hk Hn0 Hw. revert rewritten o cur. induction k as [|k IH]; intros rewritten o cur Hfold.
  { injection Hfold as <- <- <-. by apply Inv_start. }
  rewrite seqZ_snoc, fold_left_app in Hfold. cbn [fold_left] in Hfold.
  destruct (fold_left _ _ _) as [[rw o0] cur0]. specialize (IH ltac:(lia) rw o0 cur0 eq_refl).
  unfold unroll_element in Hfold.
  destruct (push_vm_sequence_copy_constant owner o0 block (Z.of_nat da + Z.of_nat k))
    as [[dc di] o1] eqn:Hdc.
  destruct (push_vm_sequence_copy_constant owner o1 block (Z.of_nat sa + Z.of_nat k))
    as [[sc si] o2] eqn:Hsc.
  rewrite final_of in Hfold. pose proof index_bounds as (? & ? & ?).
  match type of Hfold with (_, _, v_identity ?x) = _ =>
    injection Hfold as <- <- <-;
    eapply (iterate Hsha owner (v_identity output) destination source e (Exact dn) sb StaticExact
      StaticExact "" "project-value" "replace-value" env d s da sa n)
      with (D := [dc]) (S' := [sc]) (ro := x)
  end; try done; try plain; try exact destination_fresh; try exact source_fresh;
    try (right; lia); try exact IH;
    try (intros E _; rewrite Nat2Z.inj_add; eapply constant_index; eassumption || lia);
    try (by case_bool_decide).
  case_bool_decide as Hb; [by rewrite decide_True|by rewrite decide_False].
Qed.

Lemma runtime_inv f block k rewritten o cur :
  k <= n -> n <> 0 -> da + n <= length d -> (Z.of_nat (sa + n) <= U64_MAX)%Z ->
  fold_left (runtime_element i block e (TySequence e (Exact dn)) (Exact dn) sb f source
      (Z.of_nat da) (Z.of_nat sa) (Z.of_nat n) output)
    (seqZ 0 (Z.of_nat k)) ([], 0%N, destination) = (rewritten, o, cur) ->
  LInv f "runtime-replace-value" k rewritten cur.
Proof.
  intros Hk Hn0 Hw Hsn. revert rewritten o cur. induction k as [|k IH]; intros rewritten o cur Hfold.
  { injection Hfold as <- <- <-. by apply Inv_start. }
  rewrite seqZ_snoc, fold_left_app in Hfold. cbn [fold_left] in Hfold.
  destruct (fold_left _ _ _) as [[rw o0] cur0]. specialize (IH ltac:(lia) rw o0 cur0 eq_refl).
  unfold runtime_element in Hfold.
  destruct (push_vm_sequence_copy_constant owner o0 block (Z.of_nat da + Z.of_nat k))
    as [[dc di] o1] eqn:Hdc.
  destruct (push_vm_sequence_copy_constant owner o1 block (Z.of_nat sa + Z.of_nat k))
    as [[sc si] o2] eqn:Hsc.
  rewrite final_of in Hfold. pose proof index_bounds as (? & ? & ?).
  match type of Hfold with (_, _, v_identity ?x) = _ =>
    injection Hfold as <- <- <-;
    eapply (iterate Hsha owner (v_identity output) destination source e (Exact dn) sb
      (RuntimeChecked f) StaticExact f "runtime-project-value" "runtime-replace-value"
      env d s da sa n)
      with (D := [dc]) (S' := [sc]) (ro := x)
  end; try done; try plain; try exact destination_fresh; try exact source_fresh;
    try (right; lia); try (by left); try exact IH;
    try (intros E _; rewrite Nat2Z.inj_add; eapply constant_index; eassumption || lia);
    try (by case_bool_decide).
  case_bool_decide as Hb; [by rewrite decide_True|by rewrite decide_False].
Qed.

Lemma dynamic_inv f block op dst_at src_at k rewritten o cur obligations :
  k <= n -> n <> 0 -> (Z.of_nat n <= U64_MAX)%Z ->
  (Z.of_nat da <= U64_MAX)%Z -> (Z.of_nat sa <= U64_MAX)%Z ->
  (forall c, dst_at = Some c -> c = Z.of_nat da) -> (forall c, src_at = Some c -> c = Z.of_nat sa) ->
  fold_left (dynamic_element i block e (TySequence e (Exact dn)) (Exact dn) sb f op source dst_id
      src_id dst_at src_at (Z.of_nat n) output)
    (seqZ 0 (Z.of_nat k)) ([], 0%N, destination, []) = (rewritten, o, cur, obligations) ->
  LInv f "dynamic-offset-replace-value" k rewritten cur.
Proof.
  intros Hk Hn0 Hnm Hdm Hsm Hdc Hsc. revert rewritten o cur obligations.
  induction k as [|k IH]; intros rewritten o cur obligations Hfold.
  { injection Hfold as <- <- <- <-. by apply Inv_start. }
  rewrite seqZ_snoc, fold_left_app in Hfold. cbn [fold_left] in Hfold.
  destruct (fold_left _ _ _) as [[[rw o0] cur0] ob0].
  specialize (IH ltac:(lia) rw o0 cur0 ob0 eq_refl).
  unfold dynamic_element in Hfold.
  destruct (push_vm_sequence_copy_dynamic_index owner o0 block dst_id dst_at (Z.of_nat k) f op)
    as [[[dp di] o1] ob1] eqn:Hdp.
  destruct (push_vm_sequence_copy_dynamic_index owner o1 block src_id src_at (Z.of_nat k) f op)
    as [[[sp si] o2] ob2] eqn:Hsp.
  rewrite final_of in Hfold. pose proof index_bounds as (? & ? & ?).
  assert (forall id, id ∈ [dst_id; src_id] -> ~ gen owner id) as Hidx
    by (intros id Hid; apply Hfresh; rewrite Hin; set_solver).
  match type of Hfold with (_, _, v_identity ?x, _) = _ =>
    injection Hfold as <- <- <- <-;
    eapply (iterate Hsha owner (v_identity output) destination source e (Exact dn) sb
      (RuntimeChecked f) (RuntimeChecked f) f "dynamic-offset-project-value"
      "dynamic-offset-replace-value" env d s da sa n)
      with (D := dp) (S' := sp) (ro := x)
  end; try done; try plain; try exact destination_fresh; try exact source_fresh;
    try (by left); try exact IH; try (by case_bool_decide).
  - intros E HE. rewrite Nat2Z.inj_add.
    eapply (dynamic_index owner); [exact Hdp|apply Hidx; set_solver| |lia..|done].
    rewrite HE; [exact Hda|apply Hidx; set_solver].
  - intros E HE. rewrite Nat2Z.inj_add.
    eapply (dynamic_index owner); [exact Hsp|apply Hidx; set_solver| |lia..|done].
    rewrite HE; [exact Hsa|apply Hidx; set_solver].
  - case_bool_decide as Hb; [by rewrite decide_True|by rewrite decide_False].
Qed.

(** ** Bounded reconstruction *)

Definition RebuildInv (k : nat) (rewritten : list SsaInstruction) (o : N)
  (elements : list SemanticId) : Prop :=
  exists E, run env rewritten = Ok E /\
    Forall2 (fun id v => E !! id = Some v) elements (take k (splice d da s sa n)) /\
    (forall x, ~ gen owner x -> E !! x = env !! x) /\
    Forall (fun id => exists m, (m <= o)%N /\ id = vm_sequence_copy_id owner "rebuild-project-value" m)
      elements.

(** What one iteration reads: element [k] of the spliced sequence. *)
Lemma rebuild_operand k :
  window -> k < length d ->
  let '(sequence, bound, offset) :=
    if ((Z.of_nat da <=? Z.of_nat k) && (Z.of_nat k <? Z.of_nat da + Z.of_nat n))%Z
    then (source, sb, (Z.of_nat sa + (Z.of_nat k - Z.of_nat da))%Z)
    else (destination, Exact dn, Z.of_nat k) in
  exists l x, env !! sequence = Some (VSeq l) /\ has_type e x = true /\
    in_range offset l = true /\ l !! Z.to_nat offset = Some x /\
    splice d da s sa n !! k = Some x /\ (0 <= offset <= U64_MAX)%Z /\ ~ gen owner sequence.
Proof.
  intros [Hw1 Hw2] Hk. pose proof index_bounds as (? & ? & ?).
  pose proof (splice_lookup d da s sa n k Hw1 Hw2 Hk) as Hsp.
  pose proof (proj1 (proj1 (has_type_seq _ _ _) Htd)) as Hfd.
  pose proof (proj1 (proj1 (has_type_seq _ _ _) Hts)) as Hfs.
  destruct ((Z.of_nat da <=? Z.of_nat k) && (Z.of_nat k <? Z.of_nat da + Z.of_nat n))%Z eqn:Ew.
  - rewrite decide_True in Hsp by lia.
    destruct (lookup_lt_is_Some_2 s (sa + (k - da))) as [x Hx]; [lia|]. exists s, x.
    replace (Z.of_nat sa + (Z.of_nat k - Z.of_nat da))%Z with (Z.of_nat (sa + (k - da))) by lia.
    rewrite Nat2Z.id. repeat split; try done; try lia.
    + by eapply (Forall_lookup_1 _ _ _ _ Hfs).
    + apply in_range_true. by eapply lookup_lt_Some.
    + by rewrite Hsp.
    + apply source_fresh.
  - rewrite decide_False in Hsp by lia.
    destruct (lookup_lt_is_Some_2 d k) as [x Hx]; [lia|]. exists d, x.
    rewrite Nat2Z.id. repeat split; try done; try lia.
    + by eapply (Forall_lookup_1 _ _ _ _ Hfd).
    + by apply in_range_true.
    + by rewrite Hsp.
    + apply destination_fresh.
Qed.

Lemma rebuild_step block k rewritten o elements rewritten' o' elements' :
  window -> k < length d -> RebuildInv k rewritten o elements ->
  rebuild_element owner block e (Exact dn) sb destination source (Z.of_nat da) (Z.of_nat sa)
    (Z.of_nat da + Z.of_nat n) (rewritten, o, elements) (Z.of_nat k) = (rewritten', o', elements') ->
  RebuildInv (S k) rewritten' o' elements'.
Proof.
  intros Hw Hk (E & Hrun & Hel & Hag & Hids) Heq. unfold rebuild_element in Heq.
  pose proof (rebuild_operand k Hw Hk) as Hop.
  destruct (if ((Z.of_nat da <=? Z.of_nat k) && (Z.of_nat k <? Z.of_nat da + Z.of_nat n))%Z
    then _ else _) as [[sequence bound] offset].
  destruct Hop as (l & x & Hl & Htx & Hr & Hx & Hsx & Hoff & Hgs).
  destruct (push_vm_sequence_copy_constant owner o block offset) as [[c ci] oc] eqn:Hc.
  assert (oc = (o + 1)%N) as -> by (unfold push_vm_sequence_copy_constant in Hc; congruence).
  pose proof (constant_index owner E o block offset "" c ci _ Hc Hoff) as [_ Hok _ Hci].
  destruct (Hok ltac:(lia)) as (E1 & Hrun1 & HE1 & Hsame).
  injection Heq as <- <- <-.
  set (pv := vm_sequence_copy_id owner "rebuild-project-value" (o + 1 + 1)).
  assert (HE1x : forall y, ~ gen owner y -> E1 !! y = env !! y)
    by (intros y Hy; rewrite Hsame; [by apply Hag|by intros ?%touched_gen]).
  exists (<[pv := x]> E1). split; [|split; [|split]].
  - rewrite run_app, Hrun. cbn [mbind outcome_bind].
    match goal with |- run E [c; ?q] = _ => change [c; q] with ([c] ++ [q])%list end.
    rewrite run_app, Hrun1. cbn [mbind outcome_bind].
    etransitivity; [eapply run_one; [|eapply exec_project; [done|exact Hr|exact Hx]|done|exact Htx]|done].
    apply operands_ok. repeat constructor; [by rewrite HE1x|exact HE1].
  - rewrite (take_S_r _ _ _ Hsx). apply Forall2_app; [|repeat constructor; apply lookup_insert_eq].
    apply Forall2_same_length_lookup. split; [by eapply Forall2_length|].
    intros j id v Hid Hv. rewrite Forall_lookup in Hids.
    destruct (Hids _ _ Hid) as (m & Hm & ->).
    rewrite lookup_insert_ne by (apply (id_apart owner Hsha); [plain|plain|right; lia]).
    rewrite Hsame by (apply (not_touched owner Hsha); [plain|done|done]).
    destruct (Forall2_lookup_lr _ _ _ _ _ _ Hel Hid Hv). done.
  - intros y Hy. rewrite lookup_insert_ne; [by apply HE1x|].
    intros <-. apply Hy. eexists _, _. split; [|done]. plain.
  - apply Forall_app. split; [|repeat constructor; exists (o + 1 + 1)%N; by split].
    eapply Forall_impl; [exact Hids|]. intros id (m & Hm & ->). exists m. split; [lia|done].
Qed.

Lemma rebuild_refines block pushed id :
  window ->
  rebuild_sequence i block e dn (Exact dn) sb destination source (Z.of_nat da) (Z.of_nat sa)
    (Z.of_nat n) output = (pushed, id) ->
  refines owner (step env i) (run env pushed).
Proof.
  intros Hw Heq. rewrite (copy_step_ok Hw). pose proof index_bounds as (Hdn & _ & _).
  unfold rebuild_sequence in Heq. replace (seqZ 0 dn) with (seqZ 0 (Z.of_nat (length d))) in Heq by (by rewrite Hdn).
  assert (Hloop : forall k rw o el, k <= length d ->
    fold_left (rebuild_element owner block e (Exact dn) sb destination source (Z.of_nat da)
      (Z.of_nat sa) (Z.of_nat da + Z.of_nat n)) (seqZ 0 (Z.of_nat k)) ([], 0%N, []) = (rw, o, el) ->
    RebuildInv k rw o el).
  { induction k as [|k IH]; intros rw o el Hk Hf.
    - injection Hf as <- <- <-. exists env. repeat split; try done; constructor.
    - rewrite seqZ_snoc, fold_left_app in Hf. cbn [fold_left] in Hf.
      match type of Hf with context [fold_left ?a ?b ?c] =>
        destruct (fold_left a b c) as [[rw0 o0] el0] end.
      eapply (rebuild_step block k rw0 o0 el0); [done|lia| |exact Hf].
      apply IH; [lia|done]. }
  destruct (fold_left _ _ _) as [[rw o] el] eqn:Hf.
  destruct (Hloop _ _ _ _ (le_n _) Hf) as (E & Hrun & Hel & Hag & _).
  rewrite take_ge in Hel by (rewrite length_splice by apply Hw; lia).
  injection Heq as <- <-. eexists. rewrite run_app, Hrun. cbn [mbind outcome_bind].
  split; [eapply run_one; [apply operands_ok; exact Hel| |done|]|].
  3: { intros x Hx. cbn. destruct (decide (v_identity output = x)) as [->|Hne];
      [by rewrite !lookup_insert_eq|rewrite !lookup_insert_ne by done; by apply Hag]. }
  - eapply exec_construct; [done|]. rewrite length_splice by apply Hw. done.
  - cbn. rewrite Hty. by eapply has_type_splice; [..|apply Hw|apply Hw].
Qed.

(** ** Empty copies with dynamic offsets *)

Lemma gen_id role m : plain role -> gen owner (vm_sequence_copy_id owner role m).
Proof. by exists role, m. Qed.

(** A view at an offset: binds the empty length, or fails out of range. *)
Lemma empty_view_run E block f role (sequence offset : SemanticId) bound o l z pushed len o' :
  plain ("empty-" +:+ role +:+ "-view-value") -> plain ("empty-" +:+ role +:+ "-length-value") ->
  E !! sequence = Some (VSeq l) -> E !! offset = Some (VInt (Z.of_nat z)) ->
  empty_view owner block e f role sequence offset bound o = (pushed, len, o') ->
  len = vm_sequence_copy_id owner ("empty-" +:+ role +:+ "-length-value") (o + 1 + 1) /\
  o' = (o + 1 + 1)%N /\
  (z <= length l -> exists E', run E pushed = Ok E' /\ E' !! len = Some (VInt 0) /\
     forall x, x <> len -> x <> vm_sequence_copy_id owner ("empty-" +:+ role +:+ "-view-value") (o + 1) ->
     E' !! x = E !! x) /\
  (length l < z -> run E pushed = Err f).
Proof.
  intros Hp1 Hp2 Hl Hz [= <- <- <-].
  split; [done|]. split; [done|].
  set (view := with_failure _ _). set (vv := vm_sequence_copy_id owner ("empty-" +:+ role +:+ "-view-value") (o + 1)).
  set (lv := vm_sequence_copy_id owner ("empty-" +:+ role +:+ "-length-value") (o + 1 + 1)).
  assert (Hops : map_outcome (operand E) (i_inputs view)
    = Ok [VSeq l; VInt (Z.of_nat z); VInt (Z.of_nat z)])
    by (apply operands_ok; by repeat constructor).
  pose proof (exec_view view bound 0 f l (Z.of_nat z) (Z.of_nat z) eq_refl eq_refl) as Hv.
  rewrite Z.leb_refl, Z.sub_diag in Hv. split.
  - intros Hle. rewrite (proj2 (Z.leb_le _ (Z.of_nat (length l)))) in Hv by lia.
    rewrite (proj2 (Z.leb_le 0 (Z.of_nat z))) in Hv by lia. cbn in Hv.
    assert (Hvs : step E view = Ok (<[vv := VSeq []]> E))
      by (rewrite (step_ok E view _ _ (VSeq []) Hops Hv eq_refl); done).
    eexists. split.
    + unfold run. cbn [fold_outcome]. rewrite Hvs. cbn [mbind outcome_bind].
      eapply (run_one _ _ [VSeq []]); [|by eapply exec_length|done|done].
      apply operands_ok. repeat constructor. apply lookup_insert_eq.
    + split; [apply lookup_insert_eq|]. intros x Hx1 Hx2. by rewrite !lookup_insert_ne.
  - intros Hgt. rewrite (proj2 (Z.leb_gt _ (Z.of_nat (length l)))) in Hv by lia.
    rewrite andb_false_r in Hv. cbn in Hv.
    unfold run. cbn [fold_outcome]. by rewrite (step_err E view _ f Hops Hv).
Qed.

Lemma empty_check_run E block role len zero o c id o' :
  E !! len = Some (VInt 0) -> E !! zero = Some (VInt 0) ->
  empty_length_check owner block role len zero o = (c, id, o') ->
  id = vm_sequence_copy_id owner ("empty-" +:+ role +:+ "-length-check-value") (o + 1) /\
  o' = (o + 1)%N /\ run E [c] = Ok (<[id := VBool true]> E).
Proof.
  intros Hl Hz [= <- <- <-]. split; [done|]. split; [done|].
  etransitivity; [eapply (run_one E _ [VInt 0; VInt 0]); [|by apply exec_eq|done|done]|done].
  apply operands_ok. by repeat constructor.
Qed.

(** The checks and the selection that follow the two views. *)
Lemma empty_tail_run E2 block dl sl md ms zc zero o2 o3 dc dv o4 sc sv o5 band sel :
  E2 !! destination = Some (VSeq d) -> E2 !! dl = Some (VInt 0) -> E2 !! sl = Some (VInt 0) ->
  dl = vm_sequence_copy_id owner "empty-destination-length-value" md ->
  sl = vm_sequence_copy_id owner "empty-source-length-value" ms ->
  push_vm_sequence_copy_constant owner o2 block 0 = (zc, zero, o3) ->
  empty_length_check owner block "destination" dl zero o3 = (dc, dv, o4) ->
  empty_length_check owner block "source" sl zero o4 = (sc, sv, o5) ->
  band = vm_sequence_copy_instruction (vm_sequence_copy_id owner "empty-views-condition" o5)
    (BooleanOp "and") [dv; sv] [generated_value owner "empty-views-condition-value" (o5 + 1) TyBool
      (vm_sequence_copy_id owner "empty-views-condition" o5) block] ->
  i_kind sel = Select (TySequence e (Exact dn)) ->
  i_inputs sel = [vm_sequence_copy_id owner "empty-views-condition-value" (o5 + 1);
    destination; destination] ->
  i_outputs sel = [with_producer output (vm_sequence_copy_id owner "empty-views-result" (o5 + 1))] ->
  exists E, run E2 [zc; dc; sc; band; sel] = Ok E /\
    forall x, ~ gen owner x -> E !! x = <[v_identity output := VSeq d]> E2 !! x.
Proof.
  intros HEd HEdl HEsl Edl Esl Hz Hdc Hsc -> Ks Is Os.
  change [zc; dc; sc; ?a; sel] with ([zc] ++ [dc] ++ [sc] ++ [a] ++ [sel]).
  destruct (constant_index owner E2 o2 block 0 "" zc zero o3 Hz ltac:(unfold U64_MAX; lia))
    as [_ Hok _ Hzero].
  destruct (Hok ltac:(unfold U64_MAX; lia)) as (E3 & Hr3 & HE3z & HE3).
  assert (Hnt : forall role m o o', plain role -> role <> "constant-value" ->
    role <> "dynamic-offset-add-value" -> ~ touched owner o o' (vm_sequence_copy_id owner role m))
    by (intros; by apply (not_touched owner Hsha)).
  rewrite run_app, Hr3. cbn [mbind outcome_bind].
  destruct (empty_check_run E3 block "destination" dl zero o3 dc dv o4) as (-> & -> & Hr4);
    [rewrite HE3; [done|subst dl; apply Hnt; [plain|done..]]|done|done|].
  rewrite run_app, Hr4. cbn [mbind outcome_bind].
  assert (Hz3 : exists m, zero = vm_sequence_copy_id owner "constant-value" m)
    by (unfold push_vm_sequence_copy_constant in Hz; injection Hz as _ <- _; by eexists).
  destruct Hz3 as [mz ->].
  destruct (empty_check_run (<[vm_sequence_copy_id owner
    ("empty-" +:+ "destination" +:+ "-length-check-value") (o3 + 1) := VBool true]> E3)
    block "source" sl (vm_sequence_copy_id owner "constant-value" mz) (o3 + 1) sc sv o5)
    as (-> & -> & Hr5); [| |done|].
  { subst sl. rewrite lookup_insert_ne by (apply (id_apart owner Hsha); [plain|plain|by left]).
    rewrite HE3; [done|apply Hnt; [plain|done..]]. }
  { rewrite lookup_insert_ne by (apply (id_apart owner Hsha); [plain|plain|by left]). done. }
  rewrite run_app, Hr5. cbn [mbind outcome_bind]. rewrite run_app.
  match goal with |- context [run ?E5 [vm_sequence_copy_instruction ?c ?k ?ins ?outs]] =>
    set (E5' := E5);
    assert (Hr6 : run E5' [vm_sequence_copy_instruction c k ins outs] = Ok
      (<[vm_sequence_copy_id owner "empty-views-condition-value" (o3 + 1 + 1 + 1) := VBool true]> E5')) end.
  { etransitivity; [eapply (run_one E5' _ [VBool true; VBool true]); [|by apply exec_and|done|done]|done].
    apply operands_ok. subst E5'. constructor; [|constructor; [apply lookup_insert_eq|constructor]].
    rewrite lookup_insert_ne by (apply (id_apart owner Hsha); [plain|plain|by left]).
    apply lookup_insert_eq. }
  rewrite Hr6. cbn [mbind outcome_bind].
  assert (Hag : forall x, ~ gen owner x ->
    <[vm_sequence_copy_id owner "empty-views-condition-value" (o3 + 1 + 1 + 1) := VBool true]> E5' !! x
    = E2 !! x).
  { intros x Hx. subst E5'.
    rewrite !lookup_insert_ne by (intros <-; apply Hx, gen_id; plain).
    apply HE3. by intros ?%touched_gen. }
  unfold run. cbn [fold_outcome].
  erewrite (select_run _ _ _ sel true); [|by rewrite Hag by exact destination_fresh
    |apply lookup_insert_eq|exact Ks|exact Is|exact Os].
  cbn [mbind outcome_bind]. eexists. split; [done|]. intros x Hx.
  destruct (decide (v_identity output = x)) as [->|Hne2]; [by rewrite !lookup_insert_eq|].
  rewrite !(lookup_insert_ne _ (v_identity output)) by done. by apply Hag.
Qed.

Lemma empty_views_refines f block pushed id :
  ev = RuntimeChecked f -> n = 0 ->
  empty_views i block e (TySequence e (Exact dn)) (Exact dn) sb f destination dst_id source src_id
    output = (pushed, id) ->
  refines owner (step env i) (run env pushed).
Proof.
  intros Hev Hn0 Heq. unfold empty_views in Heq.
  destruct (empty_view owner block e f "destination" destination dst_id (Exact dn) 0)
    as [[dp dl] o1] eqn:Hdv.
  destruct (empty_view_run env block f "destination" destination dst_id (Exact dn) 0 d da dp dl o1)
    as (Edl & -> & Hdok & Hdbad); [plain|plain|done..|].
  destruct (empty_view owner block e f "source" source src_id sb (0 + 1 + 1))
    as [[sp sl] o2] eqn:Hsv.
  destruct (push_vm_sequence_copy_constant owner o2 block 0) as [[zc zero] o3] eqn:Hz.
  destruct (empty_length_check owner block "destination" dl zero o3) as [[dc dv] o4] eqn:Hdc.
  destruct (empty_length_check owner block "source" sl zero o4) as [[sc sv] o5] eqn:Hsc.
  injection Heq as <- <-. rewrite run_app.
  destruct (decide (da <= length d)) as [Hd1|Hd1].
  2: { rewrite (copy_step_err f Hev) by lia. by rewrite Hdbad by lia. }
  destruct (Hdok Hd1) as (E1 & -> & HE1dl & HE1). cbn [mbind outcome_bind].
  assert (Hne : forall x role m, x ∈ i_inputs i -> plain role -> x <> vm_sequence_copy_id owner role m)
    by (intros x role m Hx Hr ->; apply (Hfresh _ Hx); by apply gen_id).
  assert (HE1in : forall x, x ∈ i_inputs i -> E1 !! x = env !! x)
    by (intros x Hx; subst dl; apply HE1; apply Hne; [done|plain|done|plain]).
  assert (Hmem : destination ∈ i_inputs i /\ source ∈ i_inputs i /\ src_id ∈ i_inputs i)
    by (rewrite Hin; set_solver).
  destruct Hmem as (Md & Ms & Msi).
  destruct (empty_view_run E1 block f "source" source src_id sb (0 + 1 + 1) s sa sp sl o2)
    as (Esl & -> & Hsok & Hsbad); [plain|plain|by rewrite HE1in..|done|].
  rewrite run_app. destruct (decide (sa <= length s)) as [Hs1|Hs1].
  2: { rewrite (copy_step_err f Hev) by lia. by rewrite Hsbad by lia. }
  destruct (Hsok Hs1) as (E2 & -> & HE2sl & HE2). cbn [mbind outcome_bind].
  rewrite (copy_step_ok ltac:(lia)), (splice_empty Hn0).
  assert (HE2in : forall x, x ∈ i_inputs i -> E2 !! x = env !! x).
  { intros x Hx. rewrite HE2; [by apply HE1in|subst sl|]; apply Hne; done || plain. }
  assert (HE2dl : E2 !! dl = Some (VInt 0)).
  { rewrite HE2; [done|subst dl sl..]; apply (id_apart owner Hsha); plain || by left. }
  match goal with |- refines _ _ (run E2 [zc; dc; sc; ?a; ?l]) =>
    destruct (empty_tail_run E2 block dl sl (0 + 1 + 1) (0 + 1 + 1 + 1 + 1) zc zero (0 + 1 + 1 + 1 + 1) o3 dc dv o4 sc sv o5
      a l) as (E & HE & HEx); try done end.
  { by rewrite HE2in. }
  exists E. split; [done|]. intros x Hx. rewrite HEx by done.
  destruct (decide (v_identity output = x)) as [->|Hneq]; [by rewrite !lookup_insert_eq|].
  rewrite !lookup_insert_ne by done.
  rewrite HE2, HE1; [done|subst dl sl; intros ->; apply Hx, gen_id; plain..].
Qed.
End OneCopy.
