(* ===== verification/SeqCopyBlock.v ===== *)
(** From one instruction to a block.

    The lowering passes refine the instructions they rewrite.  In a function
    whose values are defined once and typed consistently, the scan of constants
    and types describes every environment that occurs; a sound pass then refines
    each block it rewrites. *)

From S2P Require Export SeqCopyRefine.

Section Passes.
Context `{ModelCrate} `{VmSemantics} (Hsha : Inj (=) (=) sha256_hex).

(** What the scan promises about the values an instruction reads. *)
Definition operands_match (constants : list (SemanticId * Z)) (types : list (SemanticId * BodyType))
  (env : gmap string Val) (i : SsaInstruction) : Prop :=
  forall id v, id ∈ i_inputs i -> env !! id = Some v ->
    (forall c, bm_get id constants = Some c -> v = VInt c) /\
    (forall ty, bm_get id types = Some ty -> has_type ty v = true).

Definition fresh_for (i : SsaInstruction) : Prop :=
  forall id, id ∈ i_inputs i -> ~ gen (i_identity i) id.

Definition pass_sound (pass : Pass) : Prop :=
  forall constants types block i low env,
  pass constants types block i = Ok low -> operands_match constants types env i -> fresh_for i ->
  refines (i_identity i) (step env i) (run env (l_pushed low)).

Lemma refines_kept i env : refines (i_identity i) (step env i) (run env [i]).
Proof. unfold run. cbn. destruct (step env i); cbn; eauto. Qed.

Lemma refines_refl owner r : refines owner r r.
Proof. destruct r; cbn; eauto. Qed.

(** Either an operand is undefined, and the step is stuck, or all are there. *)
Lemma operands_cases env ids :
  (exists m, map_outcome (operand env) ids = Panic m) \/
  exists vs, Forall2 (fun id v => env !! id = Some v) ids vs.
Proof.
  induction ids as [|id ids IH]; [right; by exists []|].
  destruct (env !! id) as [v|] eqn:Hv.
  - destruct IH as [[m Hm]|[vs Hvs]]; [left|right; exists (v :: vs); by constructor].
    assert (operand env id = Ok v) as Ho by (unfold operand; by rewrite Hv).
    exists m. cbn [map_outcome]. rewrite Ho. cbn [mbind outcome_bind]. by rewrite Hm.
  - assert (operand env id = Panic "undefined value") as Ho by (unfold operand; by rewrite Hv).
    left. eexists. cbn [map_outcome]. by rewrite Ho.
Qed.

Lemma step_undefined env i m :
  map_outcome (operand env) (i_inputs i) = Panic m -> step env i = Panic m.
Proof. intros Hm. unfold step. by rewrite Hm. Qed.

(** The operand values of a copy whose operand types check. *)
Lemma copy_values constants types env i destination dst_id source src_id length_id e db sb :
  i_inputs i = [destination; dst_id; source; src_id; length_id] ->
  operands_match constants types env i ->
  bm_get destination types = Some (TySequence e db) ->
  bm_get source types = Some (TySequence e sb) ->
  (exists m, step env i = Panic m) \/
  exists d s vda vsa vn, env !! destination = Some (VSeq d) /\ env !! source = Some (VSeq s) /\
    has_type (TySequence e db) (VSeq d) = true /\ has_type (TySequence e sb) (VSeq s) = true /\
    env !! dst_id = Some vda /\ env !! src_id = Some vsa /\ env !! length_id = Some vn.
Proof.
  intros Hin Hm Htd Hts.
  destruct (operands_cases env (i_inputs i)) as [[m Hp]|[vs Hvs]];
    [left; exists m; by apply step_undefined|right].
  unfold operands_match in Hm. rewrite Hin in Hvs, Hm.
  inversion Hvs as [|? vd ? ? Hd Hvs1]; subst. inversion Hvs1 as [|? vda ? ? Hda Hvs2]; subst.
  inversion Hvs2 as [|? vsrc ? ? Hs Hvs3]; subst. inversion Hvs3 as [|? vsa ? ? Hsa Hvs4]; subst.
  inversion Hvs4 as [|? vn ? ? Hn Hvs5]; subst.
  destruct (Hm destination vd ltac:(set_solver) Hd) as [_ Ht1]. specialize (Ht1 _ Htd).
  destruct (Hm source vsrc ltac:(set_solver) Hs) as [_ Ht2]. specialize (Ht2 _ Hts).
  destruct (has_type_seq_inv _ _ _ Ht1) as [d ->]. destruct (has_type_seq_inv _ _ _ Ht2) as [s ->].
  by exists d, s, vda, vsa, vn.
Qed.

Lemma types_agree (a b c : BodyType) x y :
  bool_decide (a <> x) || bool_decide (b <> y) || bool_decide (c <> x) = false ->
  a = x /\ b = y /\ c = x.
Proof. rewrite !orb_false_iff, !bool_decide_eq_false. intros [[? ?] ?]. repeat split; by apply dec_stable. Qed.

Lemma static_copy_sound constants types block i e dn sn destination dst_id source src_id length_id
  dst_at src_at length output low env :
  i_kind i = SequenceCopy e (Exact dn) (Exact sn) StaticExact ->
  i_inputs i = [destination; dst_id; source; src_id; length_id] -> i_outputs i = [output] ->
  bm_get dst_id constants = Some dst_at -> bm_get src_id constants = Some src_at ->
  bm_get length_id constants = Some length -> (0 <= dst_at)%Z -> (0 <= src_at)%Z -> (0 <= length)%Z ->
  static_copy types block i e dn sn destination source dst_at src_at length output = Ok low ->
  operands_match constants types env i -> fresh_for i ->
  refines (i_identity i) (step env i) (run env (l_pushed low)).
Proof.
  intros Hk Hin Hout Cd Cs Cl Pd Ps Pl Hlow Hm Hf. unfold static_copy in Hlow.
  apply Z_of_nat_complete in Pd as [da ->], Ps as [sa ->], Pl as [n ->].
  destruct (_ || _) eqn:Hb in Hlow; [done|].
  destruct (_ && negb _) eqn:Hunroll in Hlow; [injection Hlow as <-; apply refines_kept|].
  destruct (bm_get destination types) as [td|] eqn:Htd; [|done]. cbn [ok_or mbind outcome_bind] in Hlow.
  destruct (bm_get source types) as [ts|] eqn:Hts; [|done]. cbn [ok_or mbind outcome_bind] in Hlow.
  destruct (_ || _) eqn:Hty in Hlow; [done|]. apply types_agree in Hty as (-> & -> & Hto).
  destruct (copy_values constants types env i destination dst_id source src_id length_id e
    (Exact dn) (Exact sn) Hin Hm Htd Hts) as [[m ->]|(d & s & vda & vsa & vn & Ed & Es & Td & Ts & Eda & Esa & En)];
    [done|].
  destruct (Hm dst_id vda ltac:(rewrite Hin; set_solver) Eda) as [Hc1 _]. rewrite (Hc1 _ Cd) in Eda.
  destruct (Hm src_id vsa ltac:(rewrite Hin; set_solver) Esa) as [Hc2 _]. rewrite (Hc2 _ Cs) in Esa.
  destruct (Hm length_id vn ltac:(rewrite Hin; set_solver) En) as [Hc3 _]. rewrite (Hc3 _ Cl) in En.
  pose proof (bound_ok_exact _ _ (proj2 (proj1 (has_type_seq _ _ _) Td))) as Ld.
  pose proof (bound_ok_exact _ _ (proj2 (proj1 (has_type_seq _ _ _) Ts))) as Ls.
  destruct (Z.eqb_spec (Z.of_nat n) 0) as [Hn0|Hn0].
  { destruct (empty_selection _ _ _ _ _ _) as [pushed oid] eqn:Hsel. injection Hlow as <-.
    apply (empty_selection_refines Hsha i e dn (Exact sn) StaticExact destination dst_id source src_id length_id output
      Hk Hin Hout Hto env d s da sa n Ed Es Eda Esa En Td Ts Hf ""%string block pushed oid); [plain|lia|lia|done]. }
  destruct (_ && _) eqn:Hre in Hlow.
  - destruct (rebuild_sequence _ _ _ _ _ _ _ _ _ _ _ _) as [pushed cid] eqn:Hreb.
    injection Hlow as <-. apply (rebuild_refines Hsha i e dn (Exact sn) StaticExact destination dst_id source src_id length_id output
      Hk Hin Hout Hto env d s da sa n Ed Es Eda Esa En Td Ts Hf block pushed cid); [lia|done].
  - destruct (fold_left _ _ _) as [[pushed o] fid] eqn:Hfold. injection Hlow as <-.
    eapply (loop_refines i e dn (Exact sn) StaticExact destination dst_id source src_id length_id output
      Hk Hin Hout Hto env d s da sa n Ed Es Eda Esa En Td Ts ""%string); [right; lia|lia|].
    apply (unroll_inv Hsha i e dn (Exact sn) StaticExact destination dst_id source src_id length_id output
      Hk Hin Hout Hto env d s da sa n Ed Es Eda Esa En Td Ts Hf block n pushed o fid); [lia|lia|lia|done].
Qed.

Lemma runtime_copy_sound constants types block i e dn sb f destination dst_id source src_id length_id
  dst_at src_at length output low env :
  i_kind i = SequenceCopy e (Exact dn) sb (RuntimeChecked f) ->
  i_inputs i = [destination; dst_id; source; src_id; length_id] -> i_outputs i = [output] ->
  bm_get dst_id constants = Some dst_at -> bm_get src_id constants = Some src_at ->
  bm_get length_id constants = Some length -> (0 <= dst_at)%Z -> (0 <= src_at)%Z -> (0 <= length)%Z ->
  runtime_copy types block i e dn sb f destination source dst_at src_at length output = Ok low ->
  operands_match constants types env i -> fresh_for i ->
  refines (i_identity i) (step env i) (run env (l_pushed low)).
Proof.
  intros Hk Hin Hout Cd Cs Cl Pd Ps Pl Hlow Hm Hf. unfold runtime_copy in Hlow.
  apply Z_of_nat_complete in Pd as [da ->], Ps as [sa ->], Pl as [n ->].
  destruct (_ || _) eqn:Ho in Hlow; [injection Hlow as <-; apply refines_kept|].
  destruct (_ || _) eqn:Hb in Hlow; [injection Hlow as <-; apply refines_kept|].
  destruct (bm_get destination types) as [td|] eqn:Htd; [|done]. cbn [ok_or mbind outcome_bind] in Hlow.
  destruct (bm_get source types) as [ts|] eqn:Hts; [|done]. cbn [ok_or mbind outcome_bind] in Hlow.
  destruct (_ || _) eqn:Hty in Hlow; [done|]. apply types_agree in Hty as (-> & -> & Hto).
  destruct (copy_values constants types env i destination dst_id source src_id length_id e
    (Exact dn) sb Hin Hm Htd Hts) as [[m ->]|(d & s & vda & vsa & vn & Ed & Es & Td & Ts & Eda & Esa & En)];
    [done|].
  destruct (Hm dst_id vda ltac:(rewrite Hin; set_solver) Eda) as [Hc1 _]. rewrite (Hc1 _ Cd) in Eda.
  destruct (Hm src_id vsa ltac:(rewrite Hin; set_solver) Esa) as [Hc2 _]. rewrite (Hc2 _ Cs) in Esa.
  destruct (Hm length_id vn ltac:(rewrite Hin; set_solver) En) as [Hc3 _]. rewrite (Hc3 _ Cl) in En.
  pose proof (bound_ok_exact _ _ (proj2 (proj1 (has_type_seq _ _ _) Td))) as Ld.
  destruct (Z.eqb_spec (Z.of_nat n) 0) as [Hn0|Hn0].
  { destruct (empty_selection _ _ _ _ _ _) as [pushed oid] eqn:Hsel. injection Hlow as <-.
    apply (empty_selection_refines Hsha i e dn sb (RuntimeChecked f) destination dst_id source src_id length_id output
      Hk Hin Hout Hto env d s da sa n Ed Es Eda Esa En Td Ts Hf "runtime-"%string block pushed oid); [plain|lia|lia|done]. }
  destruct (fold_left _ _ _) as [[pushed o] fid] eqn:Hfold. injection Hlow as <-.
  eapply (loop_refines i e dn sb (RuntimeChecked f) destination dst_id source src_id length_id output
      Hk Hin Hout Hto env d s da sa n Ed Es Eda Esa En Td Ts f); [by left|lia|].
  apply (runtime_inv Hsha i e dn sb (RuntimeChecked f) destination dst_id source src_id length_id output
      Hk Hin Hout Hto env d s da sa n Ed Es Eda Esa En Td Ts Hf f block n pushed o fid); [lia|lia|lia|lia|done].
Qed.

Lemma dynamic_copy_sound constants types block i e dn sb f destination dst_id source src_id length_id
  length output low env :
  i_kind i = SequenceCopy e (Exact dn) sb (RuntimeChecked f) ->
  i_inputs i = [destination; dst_id; source; src_id; length_id] -> i_outputs i = [output] ->
  bm_get length_id constants = Some length -> (0 <= length <= 256)%Z ->
  bm_get dst_id types = Some u64_type -> bm_get src_id types = Some u64_type ->
  dynamic_copy types block i e (Exact dn) sb f destination dst_id source src_id
    (bm_get dst_id constants) (bm_get src_id constants) length output = Ok low ->
  operands_match constants types env i -> fresh_for i ->
  refines (i_identity i) (step env i) (run env (l_pushed low)).
Proof.
  intros Hk Hin Hout Cl [Pl Hl] Td' Ts' Hlow Hm Hf. unfold dynamic_copy in Hlow.
  apply Z_of_nat_complete in Pl as [n ->].
  destruct (bm_get destination types) as [td|] eqn:Htd; [|done]. cbn [ok_or mbind outcome_bind] in Hlow.
  destruct (bm_get source types) as [ts|] eqn:Hts; [|done]. cbn [ok_or mbind outcome_bind] in Hlow.
  destruct (_ || _) eqn:Hty in Hlow; [done|]. apply types_agree in Hty as (-> & -> & Hto).
  destruct (copy_values constants types env i destination dst_id source src_id length_id e
    (Exact dn) sb Hin Hm Htd Hts) as [[m ->]|(d & s & vda & vsa & vn & Ed & Es & Td & Ts & Eda & Esa & En)];
    [done|].
  destruct (Hm dst_id vda ltac:(rewrite Hin; set_solver) Eda) as [Hc1 Ht1]. specialize (Ht1 _ Td').
  destruct (Hm src_id vsa ltac:(rewrite Hin; set_solver) Esa) as [Hc2 Ht2]. specialize (Ht2 _ Ts').
  destruct (Hm length_id vn ltac:(rewrite Hin; set_solver) En) as [Hc3 _]. rewrite (Hc3 _ Cl) in En.
  destruct (has_type_u64_inv _ Ht1) as [zd ->]. destruct (has_type_u64_inv _ Ht2) as [zs ->].
  apply has_type_u64 in Ht1 as [Pd Ud]. apply has_type_u64 in Ht2 as [Ps Us].
  apply Z_of_nat_complete in Pd as [da ->], Ps as [sa ->].
  destruct (Z.eqb_spec (Z.of_nat n) 0) as [Hn0|Hn0].
  { destruct (empty_views _ _ _ _ _ _ _ _ _ _ _ _) as [pushed oid] eqn:Hsel. injection Hlow as <-.
    apply (empty_views_refines Hsha i e dn sb (RuntimeChecked f) destination dst_id source src_id length_id output
      Hk Hin Hout Hto env d s da sa n Ed Es Eda Esa En Td Ts Hf f block pushed oid); [done|lia|done]. }
  destruct (fold_left _ _ _) as [[[pushed o] fid] obligations] eqn:Hfold. injection Hlow as <-.
  eapply (loop_refines i e dn sb (RuntimeChecked f) destination dst_id source src_id length_id output
      Hk Hin Hout Hto env d s da sa n Ed Es Eda Esa En Td Ts f); [by left|lia|].
  eapply (dynamic_inv Hsha i e dn sb (RuntimeChecked f) destination dst_id source src_id length_id output
      Hk Hin Hout Hto env d s da sa n Ed Es Eda Esa En Td Ts Hf f block _ _ _ n pushed o fid obligations);
    [lia|lia|unfold U64_MAX; lia|lia|lia| | |exact Hfold].
  - intros c Hc. specialize (Hc1 _ Hc). congruence.
  - intros c Hc. specialize (Hc2 _ Hc). congruence.
Qed.

Lemma kept_sound i low env :
  Ok (E := string) (kept i) = Ok low -> refines (i_identity i) (step env i) (run env (l_pushed low)).
Proof. intros [= <-]. apply refines_kept. Qed.

Lemma static_pass_sound : pass_sound static_pass.
Proof.
  intros constants types block i low env Hp Hm Hf. unfold static_pass in Hp.
  destruct (i_kind i) eqn:Hk; try by eapply kept_sound.
  destruct dst_bound as [dn| | |], src_bound as [sn| | |], evidence; try by eapply kept_sound.
  destruct (i_inputs i) as [|destination [|dst_id [|source [|src_id [|length_id [|]]]]]] eqn:Hin; try done.
  destruct (i_outputs i) as [|output [|]] eqn:Hout; try done.
  destruct (bm_get dst_id constants) as [dst_at|] eqn:Cd; [|by eapply kept_sound].
  destruct (bm_get src_id constants) as [src_at|] eqn:Cs; [|by eapply kept_sound].
  destruct (bm_get length_id constants) as [length|] eqn:Cl; [|by eapply kept_sound].
  destruct (_ || _) eqn:Hneg in Hp; [done|].
  eapply (static_copy_sound constants types (b_identity block)); try eassumption; lia.
Qed.

Lemma runtime_pass_sound : pass_sound runtime_pass.
Proof.
  intros constants types block i low env Hp Hm Hf. unfold runtime_pass in Hp.
  destruct (i_kind i) eqn:Hk; try by eapply kept_sound.
  destruct dst_bound as [dn| | |], evidence; try by eapply kept_sound.
  destruct (i_inputs i) as [|destination [|dst_id [|source [|src_id [|length_id [|]]]]]] eqn:Hin; try done.
  destruct (i_outputs i) as [|output [|]] eqn:Hout; try done.
  destruct (bm_get dst_id constants) as [dst_at|] eqn:Cd; [|by eapply kept_sound].
  destruct (bm_get src_id constants) as [src_at|] eqn:Cs; [|by eapply kept_sound].
  destruct (bm_get length_id constants) as [length|] eqn:Cl; [|by eapply kept_sound].
  destruct (_ || _) eqn:Hneg in Hp; [by eapply kept_sound|].
  eapply (runtime_copy_sound constants types (b_identity block)); try eassumption; lia.
Qed.

Lemma dynamic_pass_sound : pass_sound dynamic_pass.
Proof.
  intros constants types block i low env Hp Hm Hf. unfold dynamic_pass in Hp.
  destruct (i_kind i) eqn:Hk; try by eapply kept_sound.
  destruct dst_bound as [dn| | |], evidence; try by eapply kept_sound.
  destruct (i_inputs i) as [|destination [|dst_id [|source [|src_id [|length_id [|]]]]]] eqn:Hin; try done.
  destruct (i_outputs i) as [|output [|]] eqn:Hout; try done.
  destruct (bm_get length_id constants) as [length|] eqn:Cl; [|by eapply kept_sound].
  cbn zeta in Hp. unfold VM_STATIC_SEQUENCE_COPY_UNROLL_LIMIT in Hp.
  destruct ((length <? 0) || (256 <? length))%Z eqn:Hlen; [by eapply kept_sound|].
  destruct (_ || _) eqn:Hneg in Hp; [by eapply kept_sound|].
  destruct (existsb _ _) eqn:Hty; [done|]. cbn in Hty.
  rewrite !orb_false_iff, !bool_decide_eq_false in Hty. destruct Hty as (T1 & T2 & _ & _).
  apply dec_stable in T1, T2.
  eapply (dynamic_copy_sound constants types (b_identity block)); try eassumption; lia.
Qed.
End Passes.

(** ** Blocks *)

Section Scan.
Context `{ModelCrate}.

Definition instructions (f : SsaFunction) : list SsaInstruction :=
  flat_map b_instructions (f_blocks f).
Definition block_values (b : SsaBlock) : list SsaValue :=
  b_parameters b ++ flat_map i_outputs (b_instructions b).
Definition function_values (f : SsaFunction) : list SsaValue :=
  f_inputs f ++ f_outputs f ++ flat_map block_values (f_blocks f).

Definition types_of (types : list (SemanticId * BodyType)) (vs : list SsaValue) : Prop :=
  forall id ty, bm_get id types = Some ty -> exists v, v ∈ vs /\ v_identity v = id /\ v_ty v = ty.

Lemma scan_values_types types vs0 vs :
  types_of types vs0 -> types_of (scan_values types vs) (vs0 ++ vs).
Proof.
  revert types vs0. induction vs as [|v vs IH]; intros types vs0 Ht; cbn.
  - by rewrite app_nil_r.
  - replace (vs0 ++ v :: vs) with ((vs0 ++ [v]) ++ vs) by (by rewrite <- app_assoc).
    apply IH. intros id ty. rewrite bm_get_put. case_decide as Hid.
    + intros [= <-]. exists v. split; [set_solver|]. by subst.
    + intros Hg. destruct (Ht _ _ Hg) as (w & Hw & ?). exists w. split; [set_solver|done].
Qed.

(** A recorded constant is the first result of a [u64] constant. *)
Definition constants_of (constants : list (SemanticId * Z)) (js : list SsaInstruction) : Prop :=
  forall id c, bm_get id constants = Some c ->
  exists i o rest, i ∈ js /\ i_kind i = Constant c u64_type /\ i_outputs i = o :: rest /\
    v_identity o = id.

Lemma constants_of_mono constants js js' :
  constants_of constants js -> (forall i, i ∈ js -> i ∈ js') -> constants_of constants js'.
Proof.
  intros Hc Hs id c Hg. destruct (Hc _ _ Hg) as (i & o & rest & Hi & ?). exists i, o, rest. auto.
Qed.

Lemma scan_instruction_spec constants types vs js i constants' types' :
  types_of types vs -> constants_of constants js ->
  scan_instruction (constants, types) i = (constants', types') ->
  types_of types' (vs ++ i_outputs i) /\ constants_of constants' (js ++ [i]).
Proof.
  intros Ht Hc Hs. unfold scan_instruction in Hs.
  assert (Hmono : constants_of constants (js ++ [i]))
    by (eapply constants_of_mono; [exact Hc|set_solver]).
  assert (types' = scan_values types (i_outputs i) /\ constants_of constants' (js ++ [i])) as [-> Hc'].
  { destruct (i_kind i) eqn:Hk; try by injection Hs as <- <-.
    destruct (i_outputs i) as [|o rest] eqn:Ho; [by injection Hs as <- <-|].
    destruct (decide (ty = u64_type)) as [->|Hne]; [|by injection Hs as <- <-].
    injection Hs as <- <-. split; [done|]. intros id c. rewrite bm_get_put. case_decide as Hid.
    - intros [= <-]. exists i, o, rest. subst. split; [set_solver|done].
    - apply Hmono. }
  split; [by apply scan_values_types|done].
Qed.

Lemma scan_block_spec constants types vs js l :
  types_of types vs -> constants_of constants js ->
  forall constants' types', fold_left scan_instruction l (constants, types) = (constants', types') ->
  types_of types' (vs ++ flat_map i_outputs l) /\ constants_of constants' (js ++ l).
Proof.
  revert constants types vs js. induction l as [|i l IH]; intros constants types vs js Ht Hc c' t' Hs; cbn [fold_left flat_map] in *.
  - injection Hs as <- <-. by rewrite !app_nil_r.
  - destruct (scan_instruction (constants, types) i) as [c1 t1] eqn:Hi.
    destruct (scan_instruction_spec _ _ _ _ _ _ _ Ht Hc Hi) as [Ht1 Hc1].
    destruct (IH _ _ _ _ Ht1 Hc1 _ _ Hs) as [Ht2 Hc2].
    rewrite <- !app_assoc in Ht2, Hc2. done.
Qed.

Lemma scan_function_spec f constants types :
  scan_function f = (constants, types) ->
  types_of types (function_values f) /\ constants_of constants (instructions f).
Proof.
  unfold scan_function, function_values, instructions.
  assert (types_of (scan_values (scan_values [] (f_inputs f)) (f_outputs f))
    (f_inputs f ++ f_outputs f)) as Ht.
  { apply scan_values_types. change (f_inputs f) with ([] ++ f_inputs f) at 2.
    apply scan_values_types. by intros id ty. }
  assert (constants_of [] []) as Hc by (by intros id c).
  revert Ht Hc. rewrite !app_assoc.
  generalize (f_inputs f ++ f_outputs f) as vs, (scan_values (scan_values [] (f_inputs f)) (f_outputs f)) as t0.
  change (flat_map b_instructions (f_blocks f)) with ([] ++ flat_map b_instructions (f_blocks f)).
  generalize (@nil (SemanticId * Z)) as c0, (@nil SsaInstruction) as js.
  induction (f_blocks f) as [|b bs IH]; intros c0 js vs t0 Ht Hc Hs; cbn in *.
  - injection Hs as <- <-. by rewrite !app_nil_r.
  - destruct (fold_left scan_instruction _ _) as [c1 t1] eqn:Hb.
    destruct (scan_block_spec _ _ _ _ _ (scan_values_types _ _ (b_parameters b) Ht) Hc _ _ Hb) as [Ht1 Hc1].
    destruct (IH _ _ _ _ Ht1 Hc1 Hs) as [Ht2 Hc2].
    unfold block_values at 1. rewrite <- !app_assoc in Ht2, Hc2 |- *.
    by rewrite <- !app_assoc in Ht2.
Qed.
End Scan.

Section Blocks.
Context `{ModelCrate} `{VmSemantics}.

(** Values are typed consistently and defined by one instruction; constants
    take no operand. *)
Record well_formed (f : SsaFunction) : Prop := {
  wf_types : forall v w, v ∈ function_values f -> w ∈ function_values f ->
    v_identity v = v_identity w -> v_ty v = v_ty w;
  wf_single : NoDup (map v_identity (flat_map i_outputs (instructions f)));
  wf_constants : forall i c ty, i ∈ instructions f -> i_kind i = Constant c ty -> i_inputs i = []
}.

Definition env_ok (constants : list (SemanticId * Z)) (types : list (SemanticId * BodyType))
  (env : gmap string Val) : Prop :=
  forall id v, env !! id = Some v ->
    (forall c, bm_get id constants = Some c -> v = VInt c) /\
    (forall ty, bm_get id types = Some ty -> has_type ty v = true).

Lemma bind_outputs_lookup env outs vs id v :
  bind_outputs env outs vs !! id = Some v ->
  (exists k o, outs !! k = Some o /\ vs !! k = Some v /\ v_identity o = id) \/ env !! id = Some v.
Proof.
  unfold bind_outputs. revert env vs. induction outs as [|o outs IH]; intros env vs; cbn; [by right|].
  destruct vs as [|w vs]; cbn; [by right|]. intros Hl. destruct (IH _ _ Hl) as [(k & o' & Hk)|Hi].
  - left. by exists (S k), o'.
  - destruct (decide (v_identity o = id)) as [Heq|Hne].
    + left. exists 0, o. rewrite <- Heq, lookup_insert_eq in Hi. by injection Hi as <-.
    + right. by rewrite lookup_insert_ne in Hi.
Qed.

(** Two instructions that define the same identity are the same one. *)
Lemma single_definition js i j o o' :
  NoDup (map v_identity (flat_map i_outputs js)) -> i ∈ js -> j ∈ js ->
  o ∈ i_outputs i -> o' ∈ i_outputs j -> v_identity o = v_identity o' -> i = j.
Proof.
  induction js as [|x js IH]; intros Hnd Hi Hj Ho Ho' He; [by apply elem_of_nil in Hi|].
  cbn in Hnd. rewrite map_app in Hnd. apply NoDup_app in Hnd as (_ & Hdis & Hnd).
  assert (Hrest : forall y p, y ∈ js -> p ∈ i_outputs y ->
    v_identity p ∈ map v_identity (flat_map i_outputs js)).
  { intros y p Hy Hp. apply (list_elem_of_fmap_2 v_identity), list_elem_of_In, in_flat_map.
    exists y. by rewrite <- !list_elem_of_In. }
  apply elem_of_cons in Hi as [->|Hi], Hj as [->|Hj].
  - done.
  - exfalso. eapply (Hdis (v_identity o)); [by apply (list_elem_of_fmap_2 v_identity)|].
    rewrite He. by eapply Hrest.
  - exfalso. eapply (Hdis (v_identity o')); [by apply (list_elem_of_fmap_2 v_identity)|].
    rewrite <- He. by eapply Hrest.
  - by apply IH.
Qed.

Lemma step_shape env i env' :
  step env i = Ok env' -> exists vs outs, map_outcome (operand env) (i_inputs i) = Ok vs /\
    exec i vs = Ok outs /\ env' = bind_outputs env (i_outputs i) outs /\
    length (i_outputs i) = length outs /\
    (forall k o v, i_outputs i !! k = Some o -> outs !! k = Some v -> has_type (v_ty o) v = true).
Proof.
  unfold step. intros Hs. outcome_inv. destruct (well_typed _ _) eqn:Hw; [|done]. outcome_inv.
  exists a, a0. repeat split; try done; unfold well_typed in Hw; apply andb_true_iff in Hw as [Hl Hf].
  - by apply Nat.eqb_eq.
  - intros k o v Ho Hv. rewrite forallb_forall in Hf. apply (Hf (o, v)).
    apply list_elem_of_In, list_elem_of_lookup. exists k. by rewrite lookup_zip_with, Ho, Hv.
Qed.

Context (f : SsaFunction) (Hwf : well_formed f) (constants : list (SemanticId * Z))
  (types : list (SemanticId * BodyType)) (Hscan : scan_function f = (constants, types)).

Lemma output_value i o : i ∈ instructions f -> o ∈ i_outputs i -> o ∈ function_values f.
Proof.
  intros Hi Ho. unfold function_values, instructions in *. rewrite !elem_of_app. right. right.
  apply list_elem_of_In, in_flat_map in Hi as (b & Hb & Hi). apply list_elem_of_In, in_flat_map.
  exists b. split; [done|]. apply list_elem_of_In. unfold block_values. apply elem_of_app. right.
  apply list_elem_of_In, in_flat_map. exists i. split; [done|]. by apply list_elem_of_In.
Qed.

(** Environments stay described by the scan. *)
Lemma env_ok_step env i env' :
  i ∈ instructions f -> env_ok constants types env -> step env i = Ok env' ->
  env_ok constants types env'.
Proof.
  intros Hi Hok Hs. destruct (scan_function_spec _ _ _ Hscan) as [Hty Hco].
  destruct (step_shape _ _ _ Hs) as (vs & outs & Hvs & Hex & -> & Hlen & Htyped).
  intros id v Hl. destruct (bind_outputs_lookup _ _ _ _ _ Hl) as [(k & o & Ho & Hv & <-)|He];
    [|by apply Hok].
  assert (Hoi : o ∈ i_outputs i) by (by eapply list_elem_of_lookup_2). split.
  - intros c Hc. destruct (Hco _ _ Hc) as (j & o' & rest & Hj & Kj & Oj & Eo).
    assert (i = j) as <-.
    { eapply (single_definition (instructions f) i j o o'); try done; [apply Hwf|].
      rewrite Oj. by left. }
    rewrite (wf_constants f Hwf i c u64_type Hi Kj) in Hvs. injection Hvs as <-.
    rewrite (exec_constant i c u64_type Kj) in Hex by (by left). injection Hex as <-.
    destruct k; cbn in Hv; [by injection Hv as <-|done].
  - intros ty Ht. destruct (Hty _ _ Ht) as (w & Hw & Ew & <-).
    rewrite (wf_types f Hwf w o); [by eapply Htyped|done|by eapply output_value|done].
Qed.

(** A step reads its operands only. *)
Lemma step_agree (G : SemanticId -> Prop) env1 env2 i :
  (forall x, ~ G x -> env2 !! x = env1 !! x) -> (forall id, id ∈ i_inputs i -> ~ G id) ->
  match step env1 i with
  | Ok e1 => exists e2, step env2 i = Ok e2 /\ forall x, ~ G x -> e2 !! x = e1 !! x
  | Err g => step env2 i = Err g
  | Panic _ => True
  end.
Proof.
  intros Hag Hin.
  assert (map_outcome (operand env2) (i_inputs i) = map_outcome (operand env1) (i_inputs i)) as Hops.
  { induction (i_inputs i) as [|id ids IH]; [done|]. cbn [map_outcome]. rewrite IH by set_solver.
    assert (operand env2 id = operand env1 id) as ->; [|done].
    unfold operand. rewrite Hag; [done|]. apply Hin. by left. }
  unfold step. rewrite Hops. clear Hops. destruct (map_outcome (operand env1) (i_inputs i)) as [vs| |]; cbn [mbind outcome_bind]; [|done..].
  destruct (exec i vs) as [outs| |]; cbn [mbind outcome_bind]; [|done..].
  destruct (well_typed _ _); [|done]. eexists. split; [done|]. intros x Hx.
  specialize (Hag x Hx). revert env1 env2 Hag. unfold bind_outputs.
  induction (zip (i_outputs i) outs) as [|[o v] l IH]; intros env1 env2 Hag; cbn; [done|].
  apply IH. destruct (decide (v_identity o = x)) as [->|Hne];
    [by rewrite !lookup_insert_eq|by rewrite !lookup_insert_ne].
Qed.

(** The identities generated for the instructions of a block. *)
Definition generated_in (js : list SsaInstruction) (id : SemanticId) : Prop :=
  exists i, i ∈ js /\ gen (i_identity i) id.

(** The lowered block: same failure, or agreement off generated identities. *)
Definition block_refines (js : list SsaInstruction) (original lowered : Exec (gmap string Val)) : Prop :=
  match original with
  | Ok env1 => exists env2, lowered = Ok env2 /\ forall x, ~ generated_in js x -> env2 !! x = env1 !! x
  | Err g => lowered = Err g
  | Panic _ => True
  end.

Lemma rows_refine pass block js rows G env1 env2 :
  pass_sound pass ->
  (forall i, i ∈ js -> i ∈ instructions f) ->
  (forall i id, i ∈ js -> id ∈ i_inputs i -> ~ G id) ->
  (forall i id, i ∈ js -> gen (i_identity i) id -> G id) ->
  Forall2 (fun i low => pass constants types block i = Ok low) js rows ->
  env_ok constants types env1 -> (forall x, ~ G x -> env2 !! x = env1 !! x) ->
  match run env1 js with
  | Ok e1 => exists e2, run env2 (flat_map l_pushed rows) = Ok e2 /\ forall x, ~ G x -> e2 !! x = e1 !! x
  | Err g => run env2 (flat_map l_pushed rows) = Err g
  | Panic _ => True
  end.
Proof.
  intros Hpass Hjs Hfresh Hgen Hrows. revert env1 env2.
  induction Hrows as [|i low js rows Hlow Hrows IH]; intros env1 env2 Hok Hag; [by exists env2|].
  cbn [flat_map]. rewrite run_app. unfold run at 1. cbn [fold_outcome].
  pose proof (step_agree G env1 env2 i Hag ltac:(intros; eapply Hfresh; [by left|done])) as Hst.
  assert (Hm : operands_match constants types env2 i).
  { intros id v Hid Hv. apply Hok. rewrite <- Hag; [done|]. eapply Hfresh; [by left|done]. }
  assert (Hfi : fresh_for i).
  { intros id Hid Hg. eapply (Hfresh i id); [by left|done|]. eapply Hgen; [by left|done]. }
  pose proof (Hpass _ _ _ _ _ env2 Hlow Hm Hfi) as Href.
  destruct (step env1 i) as [e1|g|m] eqn:Hs1; cbn [mbind outcome_bind].
  - destruct Hst as (e2' & Hs2 & Hag2). rewrite Hs2 in Href. cbn in Href.
    destruct Href as (e2 & -> & Hag3). cbn [mbind outcome_bind].
    apply IH; [intros; apply Hjs; by right|intros ? ? ?; apply Hfresh; by right
      |intros ? ? ?; apply Hgen; by right| |].
    + eapply env_ok_step; [|exact Hok|exact Hs1]. apply Hjs. by left.
    + intros x Hx. rewrite Hag3; [by apply Hag2|]. intros Hg. apply Hx. eapply Hgen; [by left|done].
  - rewrite Hst in Href. cbn in Href. by rewrite Href.
  - done.
Qed.
End Blocks.
