(* ===== verification/SeqCopyTheorems.v ===== *)
(** What the sequence-copy lowerings guarantee. *)

From S2P Require Export SeqCopyBlock VmReference.

Section Module.
Context `{ModelCrate}.

Lemma Forall2_map_outcome_fst {A B C} (g : A -> Outcome string (B * C)) l rows k x y :
  map_outcome g l = Ok rows -> l !! k = Some x -> rows.*1 !! k = Some y ->
  exists z, g x = Ok (y, z).
Proof.
  rewrite map_outcome_ok. intros Hf Hx Hy. rewrite list_lookup_fmap in Hy.
  apply fmap_Some in Hy as ([y' z] & Hr & ->).
  exists z. exact (Forall2_lookup_lr _ _ _ _ _ _ Hf Hx Hr).
Qed.

Lemma lower_module_block pass ssa ssa' count k f f' j b b' :
  lower_module pass ssa = Ok (ssa', count) ->
  m_functions ssa !! k = Some f -> m_functions ssa' !! k = Some f' ->
  f_blocks f !! j = Some b -> f_blocks f' !! j = Some b' ->
  exists rows, b_instructions b' = flat_map l_pushed rows /\
    Forall2 (fun i low => pass (scan_function f).1 (scan_function f).2 b i = Ok low)
      (b_instructions b) rows.
Proof.
  unfold lower_module. intros Hm Hf Hf' Hb Hb'. apply outcome_bind_ok in Hm as (rows & Hrows & [= <- _]).
  cbn in Hf'. destruct (Forall2_map_outcome_fst _ _ _ _ _ _ Hrows Hf Hf') as [z Hz].
  unfold lower_function in Hz. destruct (scan_function f) as [constants types].
  apply outcome_bind_ok in Hz as (brows & Hbrows & [= <- _]). cbn in Hb'.
  destruct (Forall2_map_outcome_fst _ _ _ _ _ _ Hbrows Hb Hb') as [z' Hz'].
  unfold lower_block in Hz'. apply outcome_bind_ok in Hz' as (irows & Hirows & [= <- _]).
  exists irows. split; [done|]. by apply map_outcome_ok.
Qed.

(** ** Counting the copies *)

Definition is_copy (i : SsaInstruction) : bool :=
  match i_kind i with SequenceCopy _ _ _ _ => true | _ => false end.
Definition copies (js : list SsaInstruction) : nat := length (List.filter is_copy js).
Local Arguments copies : simpl never.
Definition module_copies (ssa : SsaModule) : nat :=
  copies (flat_map instructions (m_functions ssa)).

Lemma copies_app l1 l2 : copies (l1 ++ l2) = copies l1 + copies l2.
Proof. unfold copies. by rewrite List.filter_app, length_app. Qed.

Lemma copies_flat_map {A} (g : A -> list SsaInstruction) l :
  copies (flat_map g l) = sum_list_with (fun x => copies (g x)) l.
Proof. induction l as [|x l IH]; [done|]. cbn [flat_map sum_list_with]. by rewrite copies_app, IH. Qed.

Lemma copies_none js : Forall (fun i => is_copy i = false) js -> copies js = 0.
Proof. unfold copies. induction 1 as [|i js Hi _ IH]; [done|]. cbn. by rewrite Hi. Qed.

(** What one instruction contributes: a kept instruction, or a lowered copy. *)
Definition exact_row (i : SsaInstruction) (low : Lowered) : Prop :=
  (l_pushed low = [i] /\ l_record low = None) \/
  (is_copy i = true /\ copies (l_pushed low) = 0 /\ is_Some (l_record low)).

Lemma exact_row_count i low :
  exact_row i low -> copies [i] = copies (l_pushed low) + length (option_list (l_record low)).
Proof.
  intros [[-> ->]|(Hi & -> & [r ->])]; [cbn; lia|]. unfold copies. cbn. by rewrite Hi.
Qed.

Lemma fold_left_inv {A B} (P : A -> Prop) (g : A -> B -> A) l a :
  (forall a b, P a -> P (g a b)) -> P a -> P (fold_left g l a).
Proof. intros Hg. revert a. induction l; cbn; auto. Qed.

Lemma unroll_copies i block e t db sb src da sa n r l st :
  copies st.1.1 = 0 -> copies (fold_left (unroll_element i block e t db sb src da sa n r) l st).1.1 = 0.
Proof.
  apply (fold_left_inv (fun st => copies st.1.1 = 0)). intros [[rw o] c] off Hc. cbn in *.
  rewrite copies_app, Hc. by destruct (_ =? _)%Z.
Qed.

Lemma runtime_copies i block e t db sb f src da sa n r l st :
  copies st.1.1 = 0 -> copies (fold_left (runtime_element i block e t db sb f src da sa n r) l st).1.1 = 0.
Proof.
  apply (fold_left_inv (fun st => copies st.1.1 = 0)). intros [[rw o] c] off Hc. cbn in *.
  rewrite copies_app, Hc. by destruct (_ =? _)%Z.
Qed.

Lemma dynamic_index_copies owner o block base c inc f op :
  copies (push_vm_sequence_copy_dynamic_index owner o block base c inc f op).1.1.1 = 0.
Proof.
  unfold push_vm_sequence_copy_dynamic_index. destruct (_ =? _)%Z; [done|].
  destruct c as [c|]; [|done]. by destruct (_ && _).
Qed.

Lemma dynamic_copies i block e t db sb f op src d0 s0 da sa n r l st :
  copies st.1.1.1 = 0 ->
  copies (fold_left (dynamic_element i block e t db sb f op src d0 s0 da sa n r) l st).1.1.1 = 0.
Proof.
  apply (fold_left_inv (fun st => copies st.1.1.1 = 0)). intros [[[rw o] c] ob] off Hc.
  unfold dynamic_element.
  pose proof (dynamic_index_copies (i_identity i) o block d0 da off f op) as H1.
  destruct (push_vm_sequence_copy_dynamic_index (i_identity i) o block d0 da off f op) as [[[dp di] o1] ob1].
  pose proof (dynamic_index_copies (i_identity i) o1 block s0 sa off f op) as H2.
  destruct (push_vm_sequence_copy_dynamic_index (i_identity i) o1 block s0 sa off f op) as [[[sp si] o2] ob2].
  cbn in *. rewrite !copies_app, Hc, H1, H2. by destruct (_ =? _)%Z.
Qed.

Lemma rebuild_copies i block e dn db sb dst src da sa n r :
  copies (rebuild_sequence i block e dn db sb dst src da sa n r).1 = 0.
Proof.
  unfold rebuild_sequence.
  assert (forall l st, copies st.1.1 = 0 -> copies (fold_left (rebuild_element (i_identity i) block e
    db sb dst src da sa (da + n)) l st).1.1 = 0) as Hf.
  { intros l st. apply (fold_left_inv (fun st => copies st.1.1 = 0)). intros [[rw o] c] off Hc.
    unfold rebuild_element. destruct (_ && _); cbn in *; by rewrite copies_app, Hc. }
  specialize (Hf (seqZ 0 dn) ([], 0%N, []) eq_refl).
  destruct (fold_left _ _ _) as [[rw o] c]. cbn in *. by rewrite copies_app, Hf.
Qed.

Definition exact_pass (pass : Pass) : Prop :=
  forall constants types block i low, pass constants types block i = Ok low -> exact_row i low.

Lemma kept_exact i low : Ok (E := string) (kept i) = Ok low -> exact_row i low.
Proof. intros [= <-]. by left. Qed.

Lemma static_exact : exact_pass static_pass.
Proof.
  intros constants types block i low Hp. unfold static_pass in Hp.
  destruct (i_kind i) eqn:Hk; try by apply kept_exact.
  assert (is_copy i = true) as Hc by (unfold is_copy; by rewrite Hk).
  repeat (case_match; try by apply kept_exact); try done. unfold static_copy in Hp.
  destruct (_ || _) in Hp; [done|]. destruct (_ && negb _) in Hp; [by apply kept_exact|].
  outcome_inv. destruct (_ || _) in Hp; [done|]. destruct (_ =? _)%Z in Hp.
  { injection Hp as <-. right. done. }
  destruct (_ && _) in Hp.
  - pose proof (rebuild_copies i (b_identity block) element_type length (Exact length) (Exact length0)) as Hr.
    destruct (rebuild_sequence _ _ _ _ _ _ _ _ _ _ _ _) as [pushed cid] eqn:E'. injection Hp as <-.
    right. split; [done|]. split; [|done]. cbn. by erewrite <- Hr, E'.
  - destruct (fold_left _ _ _) as [[pushed o] fid] eqn:E'. injection Hp as <-.
    right. split; [done|]. split; [|done]. cbn.
    change pushed with (pushed, o, fid).1.1. rewrite <- E'. by apply unroll_copies.
Qed.

Lemma runtime_exact : exact_pass runtime_pass.
Proof.
  intros constants types block i low Hp. unfold runtime_pass in Hp.
  destruct (i_kind i) eqn:Hk; try by apply kept_exact.
  assert (is_copy i = true) as Hc by (unfold is_copy; by rewrite Hk).
  repeat (case_match; try by apply kept_exact); try done. unfold runtime_copy in Hp.
  destruct (_ || _) in Hp; [by apply kept_exact|].
  destruct (_ || _) in Hp; [by apply kept_exact|].
  outcome_inv. destruct (_ || _) in Hp; [done|]. destruct (_ =? _)%Z in Hp.
  { injection Hp as <-. right. done. }
  destruct (fold_left _ _ _) as [[pushed o] fid] eqn:E'. injection Hp as <-.
  right. split; [done|]. split; [|done]. cbn.
  change pushed with (pushed, o, fid).1.1. rewrite <- E'. by apply runtime_copies.
Qed.

Lemma dynamic_exact : exact_pass dynamic_pass.
Proof.
  intros constants types block i low Hp. unfold dynamic_pass in Hp.
  destruct (i_kind i) eqn:Hk; try by apply kept_exact.
  assert (is_copy i = true) as Hc by (unfold is_copy; by rewrite Hk).
  destruct dst_bound, evidence; try by apply kept_exact.
  destruct (i_inputs i) as [|destination [|dst_id [|source [|src_id [|length_id [|]]]]]]; try done.
  destruct (i_outputs i) as [|output [|]]; try done.
  destruct (bm_get length_id constants); [|by apply kept_exact]. cbn zeta in Hp.
  destruct (_ || _) in Hp; [by apply kept_exact|].
  destruct (_ || _) in Hp; [by apply kept_exact|].
  destruct (existsb _ _) in Hp; [done|]. unfold dynamic_copy in Hp.
  outcome_inv. destruct (_ || _) in Hp; [done|]. destruct (_ =? _)%Z in Hp.
  { injection Hp as <-. right. done. }
  destruct (fold_left _ _ _) as [[[pushed o] fid] ob] eqn:E'. injection Hp as <-.
  right. split; [done|]. split; [|done]. cbn.
  change pushed with (pushed, o, fid, ob).1.1.1. rewrite <- E'. by apply dynamic_copies.
Qed.

(** Rows of exact instructions add up. *)
Lemma rows_count js rows :
  Forall2 exact_row js rows ->
  copies js = copies (flat_map l_pushed rows) + length (omap l_record rows).
Proof.
  induction 1 as [|i low js rows Hrow _ IH]; [done|]. cbn [flat_map].
  change (i :: js) with ([i] ++ js). rewrite !copies_app, IH, (exact_row_count _ _ Hrow).
  cbn. destruct (l_record low); cbn; lia.
Qed.

Lemma lower_block_count pass c t b b' recs obs :
  exact_pass pass -> lower_block pass c t b = Ok (b', (recs, obs)) ->
  copies (b_instructions b) = copies (b_instructions b') + length recs.
Proof.
  intros Hex Hl. unfold lower_block in Hl. apply outcome_bind_ok in Hl as (rows & Hr & [= <- <- <-]).
  apply rows_count. apply map_outcome_ok in Hr. eapply Forall2_impl; [exact Hr|]. intros i low. apply Hex.
Qed.

Lemma lower_function_count pass f f' recs obs :
  exact_pass pass -> lower_function pass f = Ok (f', (recs, obs)) ->
  copies (instructions f) = copies (instructions f') + length recs.
Proof.
  intros Hex Hl. unfold lower_function in Hl. destruct (scan_function f) as [c t].
  apply outcome_bind_ok in Hl as (rows & Hr & [= <- <- <-]). apply map_outcome_ok in Hr.
  unfold instructions. cbn. clear -Hr Hex.
  induction Hr as [|b [b' [r o]] bs rows Hb _ IH]; [done|]. cbn [flat_map list_fmap fmap fst snd].
  rewrite !copies_app, length_app, IH. rewrite (lower_block_count _ _ _ _ _ _ _ Hex Hb).
  cbn. lia.
Qed.

Lemma lower_module_count pass ssa ssa' count :
  exact_pass pass -> lower_module pass ssa = Ok (ssa', count) ->
  module_copies ssa = module_copies ssa' + count.
Proof.
  intros Hex Hl. unfold lower_module in Hl. apply outcome_bind_ok in Hl as (rows & Hr & [= <- <-]).
  apply map_outcome_ok in Hr. unfold module_copies. cbn. clear -Hr Hex.
  induction Hr as [|f [f' [r o]] fs rows Hf _ IH]; [done|]. cbn [flat_map list_fmap fmap fst snd].
  rewrite !copies_app, length_app, IH. rewrite (lower_function_count _ _ _ _ _ Hex Hf).
  cbn. lia.
Qed.
End Module.

Section Theorems.
Context `{ModelCrate} `{VmSemantics}.

(** No instruction of the block reads an identity generated for the block. *)
Definition fresh_block (b : SsaBlock) : Prop :=
  forall i id, i ∈ b_instructions b -> id ∈ i_inputs i -> ~ generated_in (b_instructions b) id.

Definition scanned (f : SsaFunction) (env : gmap string Val) : Prop :=
  env_ok (scan_function f).1 (scan_function f).2 env.

Lemma block_at_instructions f j b i : f_blocks f !! j = Some b -> i ∈ b_instructions b -> i ∈ instructions f.
Proof.
  intros Hb Hi. unfold instructions. apply list_elem_of_In, in_flat_map. exists b.
  split; [by eapply list_elem_of_In, list_elem_of_lookup_2|by apply list_elem_of_In].
Qed.

Lemma lowering_refines pass ssa ssa' count k f f' j b b' env :
  pass_sound pass -> lower_module pass ssa = Ok (ssa', count) ->
  m_functions ssa !! k = Some f -> m_functions ssa' !! k = Some f' ->
  f_blocks f !! j = Some b -> f_blocks f' !! j = Some b' ->
  well_formed f -> fresh_block b -> scanned f env ->
  block_refines (b_instructions b) (run env (b_instructions b)) (run env (b_instructions b')).
Proof.
  intros Hpass Hm Hf Hf' Hb Hb' Hwf Hfr Hsc.
  destruct (lower_module_block _ _ _ _ _ _ _ _ _ _ Hm Hf Hf' Hb Hb') as (rows & -> & Hrows).
  eapply (rows_refine f Hwf _ _ (surjective_pairing _) pass b _ _
    (generated_in (b_instructions b))); [done| |done| |exact Hrows|exact Hsc|done].
  - intros i. by eapply block_at_instructions.
  - intros i id Hi Hg. by exists i.
Qed.

(** C5: the static lowering refines.  In a function with single definitions,
    running a block after [lower_vm_static_sequence_copies] gives the values
    the original block gives, on every identity but the generated ones: the
    projections, replacements or reconstruction write exactly the copied
    window, and introduce no failure. *)
Theorem static_lowering_refines (Hsha : Inj (=) (=) sha256_hex) ssa ssa' count k f f' j b b' env :
  lower_vm_static_sequence_copies ssa = Ok (ssa', count) ->
  m_functions ssa !! k = Some f -> m_functions ssa' !! k = Some f' ->
  f_blocks f !! j = Some b -> f_blocks f' !! j = Some b' ->
  well_formed f -> fresh_block b -> scanned f env ->
  block_refines (b_instructions b) (run env (b_instructions b)) (run env (b_instructions b')).
Proof. intros Hm. eapply lowering_refines; [|exact Hm]. by apply static_pass_sound. Qed.

(** C6: the constant-window runtime lowering refines: the checked projections
    fail exactly when the copy's source window leaves the current view, and
    with the copy's failure mode; otherwise the result is the spliced
    sequence. *)
Theorem runtime_lowering_refines (Hsha : Inj (=) (=) sha256_hex) ssa ssa' count k f f' j b b' env :
  lower_vm_runtime_checked_sequence_copies ssa = Ok (ssa', count) ->
  m_functions ssa !! k = Some f -> m_functions ssa' !! k = Some f' ->
  f_blocks f !! j = Some b -> f_blocks f' !! j = Some b' ->
  well_formed f -> fresh_block b -> scanned f env ->
  block_refines (b_instructions b) (run env (b_instructions b)) (run env (b_instructions b')).
Proof. intros Hm. eapply lowering_refines; [|exact Hm]. by apply runtime_pass_sound. Qed.

(** C7: the dynamic-offset lowering refines: index overflow, an offset out of
    range and an empty copy at a bad offset all keep the copy's failure mode,
    and every successful run copies the same window. *)
Theorem dynamic_lowering_refines (Hsha : Inj (=) (=) sha256_hex) ssa ssa' count k f f' j b b' env :
  lower_vm_runtime_checked_dynamic_offset_sequence_copies ssa = Ok (ssa', count) ->
  m_functions ssa !! k = Some f -> m_functions ssa' !! k = Some f' ->
  f_blocks f !! j = Some b -> f_blocks f' !! j = Some b' ->
  well_formed f -> fresh_block b -> scanned f env ->
  block_refines (b_instructions b) (run env (b_instructions b)) (run env (b_instructions b')).
Proof. intros Hm. eapply lowering_refines; [|exact Hm]. by apply dynamic_pass_sound. Qed.

(** What a pass adds to the module's tables. *)
Lemma lower_module_tables pass ssa ssa' n :
  lower_module pass ssa = Ok (ssa', n) ->
  (exists rows, m_transformations ssa' = m_transformations ssa ++ rows /\ length rows = n) /\
  m_obligations ssa `prefix_of` m_obligations ssa' /\
  map f_identity (m_functions ssa') = map f_identity (m_functions ssa).
Proof.
  intros Hl. pose proof (same_function_identities _ _ (lower_module_functions _ _ _ _ Hl)) as Hf.
  unfold lower_module in Hl. apply outcome_bind_ok in Hl as (rows & Hrows & [= <- <-]).
  split_and!; [eauto|by eexists|done].
Qed.

(** The reported counts are exact: each pass removes as many
    [SequenceCopy] instructions as it reports and introduces none, so a later
    pass never sees a copy an earlier one made; every lowered copy has its
    transformation row, appended in order to the module's table, the
    obligations are only extended, and the functions keep their identities. *)
Theorem lowering_counts ssa ssa' a b c :
  lower_sequence_copies ssa = Ok (ssa', (a, b, c)) ->
  module_copies ssa = module_copies ssa' + a + b + c /\
  (exists rows, m_transformations ssa' = m_transformations ssa ++ rows /\ length rows = a + b + c) /\
  m_obligations ssa `prefix_of` m_obligations ssa' /\
  map f_identity (m_functions ssa') = map f_identity (m_functions ssa).
Proof.
  unfold lower_sequence_copies. intros Hl.
  apply outcome_bind_ok in Hl as ([s1 n1] & H1 & Hl).
  apply outcome_bind_ok in Hl as ([s2 n2] & H2 & Hl).
  apply outcome_bind_ok in Hl as ([s3 n3] & H3 & [= <- <- <- <-]).
  destruct (lower_module_tables _ _ _ _ H1) as ((r1 & T1 & <-) & O1 & F1).
  destruct (lower_module_tables _ _ _ _ H2) as ((r2 & T2 & <-) & O2 & F2).
  destruct (lower_module_tables _ _ _ _ H3) as ((r3 & T3 & <-) & O3 & F3).
  apply (lower_module_count _ _ _ _ static_exact) in H1.
  apply (lower_module_count _ _ _ _ runtime_exact) in H2.
  apply (lower_module_count _ _ _ _ dynamic_exact) in H3. split_and!; [lia| | |congruence].
  - exists (r1 ++ r2 ++ r3). rewrite T3, T2, T1, <- !app_assoc, !length_app. split; [done|lia].
  - by do 2 (etrans; [eassumption|]).
Qed.

(** Generated identities are collision-free: an identity determines the
    copy it was generated for, its role and its ordinal, for any owner and any
    roles without a colon, as long as the hash itself does not collide. *)
Theorem generated_ids_injective (Hsha : Inj (=) (=) sha256_hex) owner owner' role role' ordinal ordinal' :
  plain role -> plain role' ->
  vm_sequence_copy_id owner role ordinal = vm_sequence_copy_id owner' role' ordinal' ->
  owner = owner' /\ role = role' /\ ordinal = ordinal'.
Proof. by apply vm_sequence_copy_id_inj. Qed.

(** False static evidence is rejected.  A [StaticExact] copy whose
    constant window leaves either exact bound stops the emission with an
    error, instead of being lowered to out-of-range accesses. *)
Theorem static_window_checked constants types block i e dn sn destination dst_id source src_id
  length_id output dst_at src_at length :
  i_kind i = SequenceCopy e (Exact dn) (Exact sn) StaticExact ->
  i_inputs i = [destination; dst_id; source; src_id; length_id] -> i_outputs i = [output] ->
  bm_get dst_id constants = Some dst_at -> bm_get src_id constants = Some src_at ->
  bm_get length_id constants = Some length ->
  (dst_at < 0 \/ src_at < 0 \/ length < 0 \/ dn < dst_at + length \/ sn < src_at + length)%Z ->
  exists message, static_pass constants types block i = Err message.
Proof.
  intros Hk Hin Hout Cd Cs Cl Hbad. unfold static_pass. rewrite Hk, Hin, Hout, Cd, Cs, Cl.
  destruct (_ || _ || _) eqn:Hneg; [by eexists|]. unfold static_copy.
  destruct ((dn <? dst_at + length) || (sn <? src_at + length))%Z eqn:Hw; [by eexists|]. lia.
Qed.
End Theorems.

(** ** Witnesses *)

Section Samples.
Local Open Scope string_scope.
Local Open Scope list_scope.

Definition value (id : string) (ty : BodyType) : SsaValue := mkValue id None ty None "b".
Definition u64_const (id : string) (c : Z) : SsaInstruction :=
  vm_sequence_copy_instruction ("def-" +:+ id) (Constant c u64_type) [] [value id u64_type].
Definition seq_ty (bound : SequenceBound) : BodyType := TySequence u64_type bound.

Definition sample_copy (sb : SequenceBound) (ev : BoundsEvidence) (offset : string) : SsaInstruction :=
  vm_sequence_copy_instruction "copy" (SequenceCopy u64_type (Exact 4) sb ev)
    ["d"; offset; "s"; "c0"; "c2"] [value "r" (seq_ty (Exact 4))].

Definition sample_block (copy : SsaInstruction) : SsaBlock :=
  mkBlock "b" None [] [u64_const "c0" 0; u64_const "c1" 1; u64_const "c2" 2; copy] "".
Definition sample_function (sb : SequenceBound) (copy : SsaInstruction) : SsaFunction :=
  mkFunction "f" "f" [value "d" (seq_ty (Exact 4)); value "s" (seq_ty sb); value "at" u64_type]
    [] [sample_block copy] [] "".
Definition sample_module (sb : SequenceBound) (copy : SsaInstruction) : SsaModule :=
  mkModule [sample_function sb copy] [] [] [] [] [] None [] "".

Definition sample_env (at_ : Z) : gmap string Val :=
  <["d" := VSeq [VInt 10; VInt 11; VInt 12; VInt 13]]>
  (<["s" := VSeq [VInt 20; VInt 21; VInt 22]]> (<["at" := VInt at_]> ∅)).

Lemma not_generated js id c rest :
  id = String c rest -> c <> Ascii.ascii_of_N 109 -> ~ generated_in js id.
Proof.
  intros -> Hc (i & _ & role & m & _ & He). unfold vm_sequence_copy_id in He. cbn in He.
  injection He as He _. by apply Hc.
Qed.

Lemma sample_fresh sb ev offset : offset = "c1" \/ offset = "at" ->
  fresh_block (sample_block (sample_copy sb ev offset)).
Proof.
  intros Ho i id Hi Hid. cbn in Hi.
  repeat (apply elem_of_cons in Hi as [->|Hi]; [cbn in Hid|]); [set_solver..| |set_solver].
  rewrite !elem_of_cons in Hid.
  destruct Hid as [->|[->|[->|[->|[->|?]]]]]; [| | | | |set_solver];
    try (eapply not_generated; [reflexivity|]; vm_compute; discriminate).
  destruct Ho as [->| ->]; (eapply not_generated; [reflexivity|]; vm_compute; discriminate).
Qed.

Lemma sample_wf sb ev offset : well_formed (sample_function sb (sample_copy sb ev offset)).
Proof.
  split.
  - intros v w Hv Hw. cbn in Hv, Hw. rewrite !elem_of_cons in Hv, Hw.
    destruct_or! Hv; subst; destruct_or! Hw; subst; cbn; try done; set_solver.
  - cbn. repeat (constructor; [set_solver|]). constructor.
  - intros i c ty Hi Hk. cbn in Hi. rewrite !elem_of_cons in Hi.
    destruct_or! Hi; subst; cbn in *; try done. set_solver.
Qed.

Lemma sample_scanned sb ev offset z :
  bound_ok sb 3 = true -> (0 <= z <= U64_MAX)%Z -> offset = "c1" \/ offset = "at" ->
  scanned (sample_function sb (sample_copy sb ev offset)) (sample_env z).
Proof.
  intros Hb Hz Ho id v Hl. unfold sample_env in Hl.
  destruct (decide ("d" = id)) as [<-|Hd]; [|rewrite lookup_insert_ne in Hl by done].
  { rewrite lookup_insert_eq in Hl. injection Hl as <-. split; [done|]. intros ty [= <-]. done. }
  destruct (decide ("s" = id)) as [<-|Hs]; [|rewrite lookup_insert_ne in Hl by done].
  { rewrite lookup_insert_eq in Hl. injection Hl as <-. split; [done|]. intros ty [= <-].
    cbn. by rewrite Hb. }
  destruct (decide ("at" = id)) as [<-|Ha]; [|rewrite lookup_insert_ne in Hl by done].
  { rewrite lookup_insert_eq in Hl. injection Hl as <-. split; [done|]. intros ty [= <-].
    by apply has_type_u64. }
  done.
Qed.

Definition first_function (m : SsaModule) : SsaFunction :=
  match m_functions m with f :: _ => f | [] => sample_function (Exact 0) (u64_const "x" 0) end.
Definition first_block (m : SsaModule) : SsaBlock :=
  match f_blocks (first_function m) with b :: _ => b | [] => sample_block (u64_const "x" 0) end.

Definition static_sample : SsaModule := sample_module (Exact 3) (sample_copy (Exact 3) StaticExact "c1").
Definition static_lowered : SsaModule :=
  match lower_vm_static_sequence_copies static_sample with Ok (ssa, _) => ssa | _ => static_sample end.

Lemma static_lowering_refines_witness :
  lower_vm_static_sequence_copies static_sample = Ok (static_lowered, 1) /\
  block_refines (b_instructions (first_block static_sample))
    (run (sample_env 1) (b_instructions (first_block static_sample)))
    (run (sample_env 1) (b_instructions (first_block static_lowered))) /\
  (E ← run (sample_env 1) (b_instructions (first_block static_lowered)); Ok (E !! "r")) =
    Ok (Some (VSeq [VInt 10; VInt 20; VInt 21; VInt 13])).
Proof.
  assert (lower_vm_static_sequence_copies static_sample = Ok (static_lowered, 1)) as Hl by (vm_compute; reflexivity).
  assert (m_functions static_lowered !! 0 = Some (first_function static_lowered)) as Hf by (vm_compute; reflexivity).
  assert (f_blocks (first_function static_lowered) !! 0 = Some (first_block static_lowered)) as Hb
    by (vm_compute; reflexivity).
  split; [exact Hl|]. split; [|vm_compute; reflexivity].
  apply (static_lowering_refines reference_sha_inj static_sample static_lowered 1 0
    (sample_function (Exact 3) (sample_copy (Exact 3) StaticExact "c1")) (first_function static_lowered)
    0 (first_block static_sample) (first_block static_lowered) (sample_env 1) Hl eq_refl Hf eq_refl Hb).
  - apply sample_wf.
  - apply sample_fresh. by left.
  - apply sample_scanned; [reflexivity|unfold U64_MAX; lia|by left].
Defined.

Definition runtime_sample : SsaModule := sample_module (UpTo 8) (sample_copy (UpTo 8) (RuntimeChecked "isolated") "c1").
Definition runtime_lowered : SsaModule :=
  match lower_vm_runtime_checked_sequence_copies runtime_sample with Ok (ssa, _) => ssa | _ => runtime_sample end.

Lemma runtime_lowering_refines_witness :
  lower_vm_runtime_checked_sequence_copies runtime_sample = Ok (runtime_lowered, 1) /\
  block_refines (b_instructions (first_block runtime_sample))
    (run (sample_env 1) (b_instructions (first_block runtime_sample)))
    (run (sample_env 1) (b_instructions (first_block runtime_lowered))) /\
  (E ← run (sample_env 1) (b_instructions (first_block runtime_lowered)); Ok (E !! "r")) =
    Ok (Some (VSeq [VInt 10; VInt 20; VInt 21; VInt 13])).
Proof.
  assert (lower_vm_runtime_checked_sequence_copies runtime_sample = Ok (runtime_lowered, 1)) as Hl by (vm_compute; reflexivity).
  assert (m_functions runtime_lowered !! 0 = Some (first_function runtime_lowered)) as Hf by (vm_compute; reflexivity).
  assert (f_blocks (first_function runtime_lowered) !! 0 = Some (first_block runtime_lowered)) as Hb
    by (vm_compute; reflexivity).
  split; [exact Hl|]. split; [|vm_compute; reflexivity].
  apply (runtime_lowering_refines reference_sha_inj runtime_sample runtime_lowered 1 0
    (sample_function (UpTo 8) (sample_copy (UpTo 8) (RuntimeChecked "isolated") "c1")) (first_function runtime_lowered)
    0 (first_block runtime_sample) (first_block runtime_lowered) (sample_env 1) Hl eq_refl Hf eq_refl Hb).
  - apply sample_wf.
  - apply sample_fresh. by left.
  - apply sample_scanned; [reflexivity|unfold U64_MAX; lia|by left].
Defined.

Definition dynamic_sample : SsaModule := sample_module (UpTo 8) (sample_copy (UpTo 8) (RuntimeChecked "isolated") "at").
Definition dynamic_lowered : SsaModule :=
  match lower_vm_runtime_checked_dynamic_offset_sequence_copies dynamic_sample with Ok (ssa, _) => ssa | _ => dynamic_sample end.

Lemma dynamic_lowering_refines_witness :
  lower_vm_runtime_checked_dynamic_offset_sequence_copies dynamic_sample = Ok (dynamic_lowered, 1) /\
  block_refines (b_instructions (first_block dynamic_sample))
    (run (sample_env 1) (b_instructions (first_block dynamic_sample)))
    (run (sample_env 1) (b_instructions (first_block dynamic_lowered))) /\
  (E ← run (sample_env 1) (b_instructions (first_block dynamic_lowered)); Ok (E !! "r")) =
    Ok (Some (VSeq [VInt 10; VInt 20; VInt 21; VInt 13])).
Proof.
  assert (lower_vm_runtime_checked_dynamic_offset_sequence_copies dynamic_sample = Ok (dynamic_lowered, 1)) as Hl by (vm_compute; reflexivity).
  assert (m_functions dynamic_lowered !! 0 = Some (first_function dynamic_lowered)) as Hf by (vm_compute; reflexivity).
  assert (f_blocks (first_function dynamic_lowered) !! 0 = Some (first_block dynamic_lowered)) as Hb
    by (vm_compute; reflexivity).
  split; [exact Hl|]. split; [|vm_compute; reflexivity].
  apply (dynamic_lowering_refines reference_sha_inj dynamic_sample dynamic_lowered 1 0
    (sample_function (UpTo 8) (sample_copy (UpTo 8) (RuntimeChecked "isolated") "at")) (first_function dynamic_lowered)
    0 (first_block dynamic_sample) (first_block dynamic_lowered) (sample_env 1) Hl eq_refl Hf eq_refl Hb).
  - apply sample_wf.
  - apply sample_fresh. by right.
  - apply sample_scanned; [reflexivity|unfold U64_MAX; lia|by right].
Defined.

(** The same copy at an offset that does not fit: both runs fail alike. *)
Lemma dynamic_lowering_fails :
  run (sample_env 3) (b_instructions (first_block dynamic_sample)) = Err "isolated" /\
  run (sample_env 3) (b_instructions (first_block dynamic_lowered)) = Err "isolated".
Proof. split; vm_compute; reflexivity. Qed.

Definition counts_lowered : SsaModule :=
  match lower_sequence_copies static_sample with Ok (ssa, _) => ssa | _ => static_sample end.

Lemma lowering_counts_witness :
  lower_sequence_copies static_sample = Ok (counts_lowered, (1, 0, 0)) /\
  module_copies static_sample = module_copies counts_lowered + 1 + 0 + 0 /\
  (exists rows, m_transformations counts_lowered = m_transformations static_sample ++ rows /\ length rows = 1) /\
  m_obligations static_sample `prefix_of` m_obligations counts_lowered /\
  map f_identity (m_functions counts_lowered) = map f_identity (m_functions static_sample).
Proof.
  assert (lower_sequence_copies static_sample = Ok (counts_lowered, (1, 0, 0))) as Hl
    by (vm_compute; reflexivity).
  split; [exact Hl|]. exact (lowering_counts static_sample counts_lowered 1 0 0 Hl).
Defined.

Lemma generated_ids_injective_witness :
  plain "project" /\ ("o" = "o" /\ "project" = "project" /\ 3%N = 3%N).
Proof.
  assert (plain "project") as Hp by plain.
  split; [exact Hp|].
  exact (generated_ids_injective reference_sha_inj "o" "o" "project" "project" 3 3 Hp Hp eq_refl).
Defined.

Lemma static_window_checked_witness :
  exists message, static_pass [("c1", 3%Z); ("c0", 0%Z); ("c2", 2%Z)] [] (sample_block (u64_const "x" 0))
    (sample_copy (Exact 3) StaticExact "c1") = Err message.
Proof.
  apply (static_window_checked _ _ _ _ u64_type 4 3 "d" "c1" "s" "c0" "c2"
    (value "r" (seq_ty (Exact 4))) 3 0 2); try reflexivity. lia.
Defined.
End Samples.
