(* ===== verification/SsaClosure.v ===== *)
(** The application's SSA closure: [tools/vm_emit.rs],
    [application_ssa_closure] and the functions it calls.  Definitions only.

    Every [BTreeSet<String>] is an ascending list, every queue a list drained by
    [Worklist.drain]. *)

From S2P Require Export Ssa Worklist.

Section Closure.
Context `{ModelCrate}.
Local Open Scope string_scope.
Local Open Scope list_scope.

(** ** Record types a type or an instruction mentions *)

Fixpoint collect_record_type_ids (ty : BodyType) (identities : list string) : list string :=
  match ty with
  | TyRecord identity _ => bs_add identity identities
  | TySequence element _ | TyVector element _ => collect_record_type_ids element identities
  | TyNamed _ | TyBool | TyInteger _ | TyFloat _ | TyByte | TyMask _ | TyFinite _ _
  | TyGenericParam _ => identities
  end.

Definition collect_instruction_record_type_ids (kind : SsaInstructionKind)
  (identities : list string) : list string :=
  match kind with
  | Constant _ ty | Select ty => collect_record_type_ids ty identities
  | SequenceReplace element_type _ _ | SequenceCopy element_type _ _ _
  | VectorConstruct element_type _ | VectorSplat element_type _ | VectorExtract element_type _
  | VectorReplace element_type _ | VectorBinary element_type _ | VectorCompare element_type _
  | VectorReduce element_type _ => collect_record_type_ids element_type identities
  | Convert from to => collect_record_type_ids to (collect_record_type_ids from identities)
  | SequenceConstruct element_type _ => collect_record_type_ids element_type identities
  | RecordConstruct type_identity _ | RecordProject type_identity _ => bs_add type_identity identities
  | _ => identities
  end.

(** ** [retain_application_ssa_record_type_closure] *)

Definition index_record (st : list (string * nat)) (row : nat * RecordType)
  : Outcome string (list (string * nat)) :=
  let '(previous, indices) := bm_insert (r_identity row.2) row.1 st in
  match previous with
  | Some _ => Err ("duplicate application SSA record type identity " +:+ r_identity row.2)
  | None => Ok indices
  end.

Definition index_records (record_types : list RecordType) : Outcome string (list (string * nat)) :=
  fold_outcome index_record [] (imap (fun i r => (i, r)) record_types).

(** The record types the fields of one record mention. *)
Definition nested_record_ids (record : RecordType) : list string :=
  fold_left (fun nested field => collect_record_type_ids field.2 nested) (r_fields record) [].

Definition expand_record (record_types : list RecordType) (indices : list (string * nat))
  (identity : string) : Outcome string (list string) :=
  index_ ← ok_or ("selected application SSA references missing record type " +:+ identity)
    (bm_get identity indices);
  record ← index record_types index_;
  Ok (nested_record_ids record).

Definition retain_application_ssa_record_type_closure (record_types : list RecordType)
  (pending : list string) : Outcome string (list RecordType) :=
  indices ← index_records record_types;
  reachable ← drain Ok (expand_record record_types indices)
    (enough (expand_record record_types indices) (bm_keys indices) pending) pending [];
  Ok (List.filter (fun record => bs_mem (r_identity record) reachable) record_types).

(** ** Function index and call closure *)

Definition index_identity (index_ : nat) (st : list (string * nat)) (identity : string)
  : Outcome string (list (string * nat)) :=
  let '(previous, map) := bm_insert identity index_ st in
  match previous with
  | Some previous =>
      if Nat.eqb previous index_ then Ok map
      else Err ("duplicate application SSA function identity " +:+ identity)
  | None => Ok map
  end.

Definition index_functions (functions : list SsaFunction) : Outcome string (list (string * nat)) :=
  fold_outcome (fun st row => fold_outcome (index_identity row.1) st
      [f_semantic_identity row.2; f_identity row.2])
    [] (imap (fun i f => (i, f)) functions).

Definition call_targets (function : SsaFunction) : list string :=
  flat_map (fun block => omap (fun instruction =>
      match i_kind instruction with Call function _ _ => Some function | _ => None end)
      (b_instructions block)) (f_blocks function)
  ++ flat_map it_callees (f_bounded_iterations function).

(** The function a queued identity names: by semantic or by SSA identity. *)
Definition function_at (functions : list SsaFunction) (by_identity : list (string * nat))
  (identity : string) : Outcome string SsaFunction :=
  index_ ← ok_or ("selected application call target " +:+ identity +:+ " has no verified SSA function")
    (bm_get identity by_identity);
  index functions index_.

Definition resolve_function functions by_identity (identity : string) : Outcome string string :=
  function ← function_at functions by_identity identity;
  Ok (f_semantic_identity function).

Definition expand_function functions by_identity (semantic_identity : string)
  : Outcome string (list string) :=
  function ← function_at functions by_identity semantic_identity;
  match f_blocks function with
  | [] => Err ("selected application call target " +:+ semantic_identity +:+ " has no executable body")
  | _ => Ok (call_targets function)
  end.

Definition reachable_functions (functions : list SsaFunction) (by_identity : list (string * nat))
  (pending : list string) : Outcome string (list string) :=
  drain (resolve_function functions by_identity) (expand_function functions by_identity)
    (enough (expand_function functions by_identity) (bm_keys by_identity) pending) pending [].

(** ** Identities the retained functions attach to *)

Definition function_record_types (types : list string) (function : SsaFunction) : list string :=
  let types := fold_left (fun acc v => collect_record_type_ids (v_ty v) acc)
    (f_inputs function ++ f_outputs function) types in
  let types := fold_left (fun acc iteration =>
      let acc := collect_record_type_ids (it_state_type iteration) acc in
      match it_over_sequence iteration with
      | Some element_type => collect_record_type_ids element_type acc
      | None => acc
      end) (f_bounded_iterations function) types in
  fold_left (fun acc block =>
      let acc := fold_left (fun acc v => collect_record_type_ids (v_ty v) acc) (b_parameters block) acc in
      fold_left (fun acc instruction =>
          let acc := collect_instruction_record_type_ids (i_kind instruction) acc in
          fold_left (fun acc v => collect_record_type_ids (v_ty v) acc) (i_outputs instruction) acc)
        (b_instructions block) acc)
    (f_blocks function) types.

Definition required_record_types (functions : list SsaFunction) : list string :=
  fold_left function_record_types functions [].

(** SSA, semantic, HIR and obligation identities, in that order. *)
Record Attached : Type := mkAttached {
  a_ssa : list string; a_semantic : list string; a_hir : list string; a_obligations : list string
}.

Definition add_ssa (id : string) (a : Attached) : Attached :=
  mkAttached (bs_add id (a_ssa a)) (a_semantic a) (a_hir a) (a_obligations a).
Definition add_semantic (id : string) (a : Attached) : Attached :=
  mkAttached (a_ssa a) (bs_add id (a_semantic a)) (a_hir a) (a_obligations a).
Definition add_hir (id : string) (a : Attached) : Attached :=
  mkAttached (a_ssa a) (a_semantic a) (bs_add id (a_hir a)) (a_obligations a).
Definition add_obligations (ids : list string) (a : Attached) : Attached :=
  mkAttached (a_ssa a) (a_semantic a) (a_hir a) (bs_extend (a_obligations a) ids).
Definition add_option {A} (add : A -> Attached -> Attached) (o : option A) (a : Attached) : Attached :=
  match o with Some id => add id a | None => a end.

Definition attach_value (a : Attached) (v : SsaValue) : Attached :=
  add_option add_semantic (v_semantic_identity v) (add_ssa (v_identity v) a).

Definition attach_iteration (a : Attached) (iteration : BoundedIteration) : Attached :=
  let a := fold_left (fun a id => add_ssa id a)
    [it_identity iteration; it_preheader iteration; it_header iteration; it_body_entry iteration;
     it_backedge iteration; it_exit iteration] a in
  let a := fold_left (fun a id => add_ssa id a) (it_body_blocks iteration) a in
  add_obligations (it_obligations iteration) a.

Definition attach_instruction (a : Attached) (instruction : SsaInstruction) : Attached :=
  let a := add_ssa (i_identity instruction) a in
  let a := add_option add_semantic (i_semantic_identity instruction) a in
  let a := add_option add_hir (i_hir_identity instruction) a in
  let a := add_obligations (i_obligations instruction) a in
  fold_left attach_value (i_outputs instruction) a.

Definition attach_block (a : Attached) (block : SsaBlock) : Attached :=
  let a := add_ssa (b_identity block) a in
  let a := add_option add_semantic (b_semantic_identity block) a in
  let a := fold_left attach_value (b_parameters block) a in
  fold_left attach_instruction (b_instructions block) a.

Definition attach_function (a : Attached) (function : SsaFunction) : Attached :=
  let a := add_ssa (f_identity function) a in
  let a := add_semantic (f_semantic_identity function) a in
  let a := fold_left attach_value (f_inputs function ++ f_outputs function) a in
  let a := fold_left attach_iteration (f_bounded_iterations function) a in
  fold_left attach_block (f_blocks function) a.

Definition attached (functions : list SsaFunction) : Attached :=
  fold_left attach_function functions (mkAttached [] [] [] []).

(** ** The obligation closure: a stack, identities added when they are pushed *)

Definition obligation_links (o : ObligationRecord) : list string := o_dependencies o ++ o_assumptions o.

Definition push_dependency (by_id : list (string * ObligationRecord))
  (st : list string * list string) (dependency : string) : list string * list string :=
  let '(ids, pending) := st in
  match bm_get dependency by_id with
  | Some _ =>
      let '(fresh, ids) := bs_insert dependency ids in
      (ids, if fresh then pending ++ [dependency] else pending)
  | None => (ids, pending)
  end.

(** [pending] is the [Vec] used as a stack: the last element is popped. *)
Fixpoint close_obligations (fuel : nat) (by_id : list (string * ObligationRecord))
  (ids pending : list string) : option (list string) :=
  match fuel with
  | O => None
  | S fuel =>
      match last pending with
      | None => Some ids
      | Some identity =>
          let rest := removelast pending in
          match bm_get identity by_id with
          | None => close_obligations fuel by_id ids rest
          | Some obligation =>
              let '(ids, pending) :=
                fold_left (push_dependency by_id) (obligation_links obligation) (ids, rest) in
              close_obligations fuel by_id ids pending
          end
      end
  end.

Definition obligation_closure (obligations : list ObligationRecord) (obligation_ids : list string)
  : Outcome string (list string) :=
  let by_id := bm_of_list (map (fun o => (o_identity o, o)) obligations) in
  expect "out of fuel"
    (close_obligations (S (length obligation_ids + length by_id)) by_id obligation_ids obligation_ids).

(** ** The projection *)

Definition retain_entry (a : Attached) (entry : TraceEntry) : option TraceEntry :=
  let semantic_is_reachable := bs_mem (t_semantic_identity entry) (a_semantic a) in
  let ssa_ids := List.filter (fun id => bs_mem id (a_ssa a)) (t_ssa_identities entry) in
  let hir_ids := List.filter (fun id => bs_mem id (a_hir a)) (t_hir_identities entry) in
  if semantic_is_reachable || negb (Nat.eqb (length ssa_ids) 0) || negb (Nat.eqb (length hir_ids) 0)
  then Some (mkTrace (t_semantic_identity entry) ssa_ids hir_ids (t_rest entry)) else None.

Definition retain_transformation (a : Attached) (t : TransformationRecord) : bool :=
  bs_mem (tr_operation t) (a_semantic a) || bs_mem (tr_operation t) (a_ssa a)
  || bs_mem (tr_output_identity t) (a_ssa a).

(** What [validate_lowering_boundary_with_verified_facts] reports for the
    program and the prior facts at hand: the errors, if any. *)
Context (boundary_errors : SsaModule -> option string).

Definition application_ssa_closure (ssa : SsaModule) (selected_exports : list (string * string))
  : Outcome string SsaModule :=
  if bool_decide (selected_exports = []) then Err "application SSA closure has no selected roots"
  else if negb (identity_is_valid ssa) then Err "application source SSA identity is invalid"
  else if negb (bool_decide (m_proof_relationships ssa = []))
  then Err "application SSA closure cannot project attached proof relationships"
  else
  by_identity ← index_functions (m_functions ssa);
  reachable ← reachable_functions (m_functions ssa) by_identity
    (map (fun '(module, function) => function_id module function) selected_exports);
  let functions :=
    List.filter (fun f => bs_mem (f_semantic_identity f) reachable) (m_functions ssa) in
  if negb (Nat.eqb (length functions) (length reachable))
  then Err "application SSA closure did not resolve every selected function"
  else
  record_types ← retain_application_ssa_record_type_closure (m_record_types ssa)
    (required_record_types functions);
  let a := attached functions in
  obligation_ids ← obligation_closure (m_obligations ssa) (a_obligations a);
  let projected := {|
    m_functions := functions;
    m_record_types := record_types;
    m_obligations := List.filter (fun o => bs_mem (o_identity o) obligation_ids) (m_obligations ssa);
    m_trace := omap (retain_entry a) (m_trace ssa);
    m_transformations := List.filter (retain_transformation a) (m_transformations ssa);
    m_generic_specializations :=
      List.filter (fun g => bs_mem (gs_specialization_function g) reachable) (m_generic_specializations ssa);
    m_binding_table := None;
    m_proof_relationships := m_proof_relationships ssa;
    m_rest := m_rest ssa |} in
  match boundary_errors projected with
  | Some errors => Err ("projected application SSA failed backend validation: " +:+ errors)
  | None =>
      if negb (identity_is_valid projected) then Err "projected application SSA identity is invalid"
      else Ok projected
  end.
End Closure.
