(* ===== verification/SsaClosureSpec.v ===== *)
(** Correctness of the application's SSA closure. *)

From S2P Require Export SsaClosure.

Section FunctionIndex.
Context (functions : list SsaFunction).

(** [id] names the function at [i]. *)
Definition names (id : string) (f : SsaFunction) : Prop :=
  id = f_semantic_identity f \/ id = f_identity f.

(** The index after the first [n] functions. *)
Record Indexed (n : nat) (m : list (string * nat)) : Prop := {
  ix_asc : bm_ascending m;
  ix_sound : forall id i, bm_get id m = Some i ->
    i < n /\ exists f, functions !! i = Some f /\ names id f;
  ix_complete : forall i f id, i < n -> functions !! i = Some f -> names id f -> bm_get id m = Some i
}.

Lemma index_identity_ok i m id m' :
  bm_ascending m ->
  index_identity i m id = Ok m' <->
  m' = bm_put id i m /\ (bm_get id m = None \/ bm_get id m = Some i).
Proof.
  intros Ha. unfold index_identity. pose proof (bm_insert_old id i m Ha) as Ho.
  pose proof (bm_insert_put id i m) as Hp. destruct (bm_insert id i m) as [previous m1]. cbn in Ho, Hp.
  rewrite Ho, Hp. destruct (bm_get id m) as [p|] eqn:Hg.
  - destruct (Nat.eqb_spec p i) as [->|Hne]; split; try done.
    + intros [= <-]. auto.
    + by intros [-> _].
    + intros [_ [?|[= ->]]]; done.
  - split; [intros [= <-]; auto|by intros [-> _]].
Qed.

Lemma index_function_step n m f m' :
  Indexed n m -> functions !! n = Some f ->
  fold_outcome (index_identity n) m [f_semantic_identity f; f_identity f] = Ok m' -> Indexed (S n) m'.
Proof.
  intros [Ha Hs Hc] Hf Hfold. cbn in Hfold.
  apply outcome_bind_ok in Hfold as (m1 & H1 & Hfold).
  apply outcome_bind_ok in Hfold as (m2 & H2 & [= <-]).
  apply (index_identity_ok _ _ _ _ Ha) in H1 as [-> G1].
  assert (bm_ascending (bm_put (f_semantic_identity f) n m)) as Ha1 by (by apply bm_put_ascending).
  apply (index_identity_ok _ _ _ _ Ha1) in H2 as [-> G2].
  split; [by apply bm_put_ascending| |].
  - clear G1 G2. intros id i. rewrite !bm_get_put. repeat case_decide.
    + intros [= <-]. split; [lia|]. exists f. split; [done|]. by right.
    + intros [= <-]. split; [lia|]. exists f. split; [done|]. by left.
    + intros Hg. destruct (Hs _ _ Hg) as (? & ?). split; [lia|done].
  - intros i g id Hi Hg Hn.
    destruct (decide (i = n)) as [->|Hin].
    + clear G1 G2. rewrite !bm_get_put. rewrite Hf in Hg. injection Hg as <-.
      destruct Hn as [->| ->]; repeat case_decide; congruence.
    + assert (bm_get id m = Some i) as Hgi by (apply (Hc i g); [lia|done|done]).
      assert (id <> f_semantic_identity f) as N1 by (intros ->; destruct G1; congruence).
      rewrite bm_get_put in G2.
      assert (id <> f_identity f) as N2.
      { intros ->. rewrite decide_False in G2 by done. destruct G2; congruence. }
      by rewrite !bm_get_put, !decide_False.
Qed.

Lemma Indexed_nil : Indexed 0 [].
Proof. split; [constructor|by intros id i|intros i; lia]. Qed.

Lemma index_functions_ok m :
  index_functions functions = Ok m -> Indexed (length functions) m.
Proof.
  unfold index_functions. apply (fold_outcome_imap_inv _ Indexed).
  - intros n s f s' Hf HI. by apply index_function_step.
  - apply Indexed_nil.
Qed.

(** Indexing succeeds when no two functions share a name. *)
Lemma index_functions_total :
  NoDup functions ->
  (forall id f g, f ∈ functions -> g ∈ functions -> names id f -> names id g -> f = g) ->
  exists m, index_functions functions = Ok m.
Proof.
  intros Hnd Huniq. unfold index_functions.
  apply (fold_outcome_imap_total _ Indexed); [|apply Indexed_nil].
  intros n m f Hf HI. pose proof HI as [Ha Hs _].
  assert (Hfree : forall id, names id f -> bm_get id m = None).
  { intros id Hn. destruct (bm_get id m) as [i|] eqn:Hg; [|done].
    destruct (Hs _ _ Hg) as (Hi & g & Hgi & Hng). enough (i = n) by lia.
    eapply (NoDup_lookup functions); [done|exact Hgi|]. rewrite Hf. f_equal.
    eapply Huniq; [by eapply list_elem_of_lookup_2|by eapply list_elem_of_lookup_2|done|done]. }
  assert (Hok : exists m', fold_outcome (index_identity n) m [f_semantic_identity f; f_identity f] = Ok m').
  { exists (bm_put (f_identity f) n (bm_put (f_semantic_identity f) n m)). cbn.
    pose proof (bm_put_ascending (f_semantic_identity f) n m Ha) as Ha1.
    assert (index_identity n m (f_semantic_identity f) = Ok (bm_put (f_semantic_identity f) n m)) as ->
      by (apply index_identity_ok; [done|split; [done|left; apply Hfree; by left]]). cbn.
    assert (index_identity n (bm_put (f_semantic_identity f) n m) (f_identity f) =
      Ok (bm_put (f_identity f) n (bm_put (f_semantic_identity f) n m))) as ->; [|done].
    apply index_identity_ok; [done|]. split; [done|].
    rewrite bm_get_put. case_decide; [by right|left]. apply Hfree. by right. }
  destruct Hok as [m' Hok]. exists m'. split; [exact Hok|]. by eapply index_function_step.
Qed.

(** ** The call closure *)

(** [f] calls [target] from an instruction or from a bounded iteration. *)
Definition Calls (f : SsaFunction) (target : string) : Prop :=
  (exists block instruction capabilities rest, block ∈ f_blocks f /\ instruction ∈ b_instructions block /\
     i_kind instruction = Call target capabilities rest) \/
  (exists iteration, iteration ∈ f_bounded_iterations f /\ target ∈ it_callees iteration).

Definition calls_function (f g : SsaFunction) : Prop :=
  g ∈ functions /\ exists target, Calls f target /\ names target g.

(** [g] is called, directly or not, from a function one of [roots] names. *)
Definition live (roots : list string) (g : SsaFunction) : Prop :=
  exists root f, root ∈ roots /\ f ∈ functions /\ names root f /\ rtc calls_function f g.

Lemma elem_of_call_targets f target : target ∈ call_targets f <-> Calls f target.
Proof.
  unfold call_targets, Calls. rewrite elem_of_app, !list_elem_of_In, !in_flat_map.
  setoid_rewrite <- list_elem_of_In. setoid_rewrite list_elem_of_omap. split.
  - intros [(block & Hb & i & Hi & Hk)|(it & ? & ?)]; [left|right; eauto].
    destruct (i_kind i) eqn:E; try done. injection Hk as ->. eauto 8.
  - intros [(block & i & caps & rest & Hb & Hi & Hk)|?]; [left|by right].
    exists block. split; [done|]. exists i. by rewrite Hk.
Qed.

Lemma live_elem roots g : live roots g -> g ∈ functions.
Proof.
  intros (root & f & _ & Hf & _ & Hfg). induction Hfg as [|f h g (Hh & _) _ IH]; [done|by apply IH].
Qed.

Context (m : list (string * nat)) (Hm : Indexed (length functions) m).

(** Looking up a name succeeds exactly on the names of the functions. *)
Lemma function_at_ok id f :
  function_at functions m id = Ok f <-> f ∈ functions /\ names id f.
Proof.
  destruct Hm as [Ha Hs Hc]. unfold function_at. rewrite outcome_bind_ok. split.
  - intros (i & Hi & Hf). apply index_ok in Hf. split; [by eapply list_elem_of_lookup_2|].
    destruct (bm_get id m) as [j|] eqn:Hj; [|done]. injection Hi as <-.
    destruct (Hs _ _ Hj) as (_ & g & Hg & ?). congruence.
  - intros [[i Hi]%list_elem_of_lookup Hn]. exists i. rewrite index_ok. split; [|done].
    rewrite (Hc i f id); [done|by eapply lookup_lt_Some|done|done].
Qed.

Lemma function_at_no_panic id message : function_at functions m id <> Panic message.
Proof.
  destruct Hm as [Ha Hs Hc]. unfold function_at.
  destruct (bm_get id m) as [i|] eqn:Hi; cbn; [|done].
  destruct (Hs _ _ Hi) as (_ & g & Hg & _). unfold index. by rewrite Hg.
Qed.

Lemma names_unique id f g : f ∈ functions -> g ∈ functions -> names id f -> names id g -> f = g.
Proof.
  intros Hf Hg Hnf Hng.
  assert (function_at functions m id = Ok f) as H1 by (by apply function_at_ok).
  assert (function_at functions m id = Ok g) as H2 by (by apply function_at_ok). congruence.
Qed.

Lemma indexed_NoDup : NoDup functions.
Proof.
  apply NoDup_alt. intros i j f Hi Hj. destruct Hm as [_ _ Hc].
  pose proof (Hc i f (f_semantic_identity f) (lookup_lt_Some _ _ _ Hi) Hi (or_introl eq_refl)) as H1.
  pose proof (Hc j f (f_semantic_identity f) (lookup_lt_Some _ _ _ Hj) Hj (or_introl eq_refl)) as H2.
  congruence.
Qed.

Lemma semantic_names f : names (f_semantic_identity f) f.
Proof. by left. Qed.

Lemma resolve_function_ok id n :
  resolve_function functions m id = Ok n <->
  exists f, f ∈ functions /\ names id f /\ n = f_semantic_identity f.
Proof.
  unfold resolve_function. rewrite outcome_bind_ok. setoid_rewrite function_at_ok.
  split; [intros (f & [? ?] & [= <-]); eauto|intros (f & ? & ? & ->); eauto].
Qed.

Lemma expand_function_ok f next :
  f ∈ functions ->
  expand_function functions m (f_semantic_identity f) = Ok next <->
  f_blocks f <> [] /\ next = call_targets f.
Proof.
  intros Hf. unfold expand_function.
  assert (function_at functions m (f_semantic_identity f) = Ok f) as ->
    by (apply function_at_ok; split; [done|by left]).
  cbn. destruct (f_blocks f); [split; [done|intros []; done]|].
  split; [intros [= <-]; done|intros [_ ->]; done].
Qed.

Lemma expand_function_universe n next :
  expand_function functions m n = Ok next -> n ∈ bm_keys m.
Proof.
  unfold expand_function, function_at. intros H. apply bm_get_keys.
  destruct (bm_get n m); [by eexists|done].
Qed.

Abbreviation refers_to := (refers (resolve_function functions m) (expand_function functions m)).
Abbreviation reached_from := (reachable (resolve_function functions m) (expand_function functions m)).

Lemma refers_live roots f n :
  live roots f -> refers_to (f_semantic_identity f) n ->
  exists g, n = f_semantic_identity g /\ calls_function f g.
Proof.
  intros Hf%live_elem (next & t & He & Ht & Hr).
  apply expand_function_ok in He as [_ ->]; [|done].
  apply resolve_function_ok in Hr as (g & ? & ? & ->). exists g. split; [done|].
  split; [done|]. exists t. by rewrite <- elem_of_call_targets.
Qed.

Lemma live_step roots f g : live roots f -> calls_function f g -> live roots g.
Proof. intros (r & h & ? & ? & ? & ?) ?. exists r, h. repeat split; try done. by eapply rtc_r. Qed.

Lemma live_root roots root f : root ∈ roots -> f ∈ functions -> names root f -> live roots f.
Proof. intros. exists root, f. repeat split; try done. Qed.

Lemma reached_live roots n : reached_from roots n -> exists f, n = f_semantic_identity f /\ live roots f.
Proof.
  intros (root & k & Hroot & Hk & Hkn). apply resolve_function_ok in Hk as (f & Hf & Hnf & ->).
  pose proof (live_root _ _ _ Hroot Hf Hnf) as Hlive. clear Hroot Hf Hnf.
  remember (f_semantic_identity f) as k eqn:Ek. revert f Ek Hlive.
  induction Hkn as [|k k' n Hstep _ IH]; intros f -> Hlive; [by exists f|].
  destruct (refers_live _ _ _ Hlive Hstep) as (g & -> & Hg). eapply IH; [done|by eapply live_step].
Qed.

Lemma live_reached roots f :
  (forall n, reached_from roots n -> exists next, expand_function functions m n = Ok next) ->
  live roots f -> reached_from roots (f_semantic_identity f).
Proof.
  intros Hex (root & h & Hroot & Hh & Hnh & Hhf).
  assert (reached_from roots (f_semantic_identity h)) as Hr.
  { exists root, (f_semantic_identity h). split; [done|]. split; [|constructor].
    apply resolve_function_ok. eauto. }
  clear Hroot Hnh. induction Hhf as [|h g f (Hg & t & Ht & Hn) _ IH]; [done|].
  apply IH; [done|]. destruct (Hex _ Hr) as (next & He). pose proof He as He0.
  apply expand_function_ok in He as [_ ->]; [|done].
  eapply reachable_step; [exact Hr|]. exists (call_targets h), t.
  split; [done|]. split; [by apply elem_of_call_targets|]. apply resolve_function_ok. eauto.
Qed.

(** The functions the worklist reaches are the live ones, each has a body, and
    every call of a live function resolves to a live function. *)
Record CallClosed (roots : list string) : Prop := {
  cc_root : forall root, root ∈ roots -> exists f, live roots f /\ names root f;
  cc_body : forall f, live roots f -> f_blocks f <> [];
  cc_call : forall f target, live roots f -> Calls f target -> exists g, live roots g /\ names target g
}.

Lemma reachable_functions_exact roots R :
  reachable_functions functions m roots = Ok R ->
  ascending R /\ (forall n, n ∈ R <-> exists f, n = f_semantic_identity f /\ live roots f) /\
  CallClosed roots.
Proof.
  intros HR. unfold reachable_functions in HR.
  pose proof (drain_ascending _ _ _ _ _ _ ltac:(constructor) HR) as Hasc.
  apply drain_exact in HR as (Hex & Hroots & Hnext). split; [done|].
  assert (Hexp : forall n, reached_from roots n -> exists next, expand_function functions m n = Ok next).
  { intros n Hn. destruct (Hnext n Hn) as (next & ? & _). eauto. }
  split.
  { intros n. rewrite Hex. split; [apply reached_live|].
    intros (f & -> & Hf). by apply live_reached. }
  split.
  - intros root Hroot. destruct (Hroots root Hroot) as (n & Hn).
    apply resolve_function_ok in Hn as (f & ? & ? & ->). exists f. split; [by eapply live_root|done].
  - intros f Hf. destruct (Hexp _ (live_reached _ _ Hexp Hf)) as (next & He).
    apply expand_function_ok in He as [? _]; [done|by eapply live_elem].
  - intros f t Hf Ht. destruct (Hnext _ (live_reached _ _ Hexp Hf)) as (next & He & Hk).
    apply expand_function_ok in He as [_ ->]; [|by eapply live_elem].
    destruct (Hk t) as (n & Hn); [by apply elem_of_call_targets|].
    apply resolve_function_ok in Hn as (g & ? & ? & ->). exists g. split; [|done].
    eapply live_step; [done|]. split; [done|]. eauto.
Qed.

Lemma reachable_functions_no_panic roots message : reachable_functions functions m roots <> Panic message.
Proof.
  unfold reachable_functions. intros Hp.
  destruct (drain_enough (resolve_function functions m) (expand_function functions m) (bm_keys m)
    (ascending_NoDup _ (ix_asc _ _ Hm)) expand_function_universe) with (roots := roots)
    as [[R HR]|[e He]]; try congruence.
  - intros k msg. unfold resolve_function.
    destruct (function_at functions m k) eqn:E; cbn; try done. by destruct (function_at_no_panic k message0).
  - intros k msg. unfold expand_function.
    destruct (function_at functions m k) as [f| |msg'] eqn:E; cbn; try done; [by destruct (f_blocks f)|].
    by destruct (function_at_no_panic k msg').
Qed.
End FunctionIndex.

Lemma index_functions_no_panic functions message : index_functions functions <> Panic message.
Proof.
  apply fold_outcome_no_panic. intros s [i f] msg. apply fold_outcome_no_panic. intros m id msg'.
  unfold index_identity; cbn. destruct (bm_insert id i m) as [[p|] ?]; [by destruct (Nat.eqb p i)|done].
Qed.

(** ** Closing again

    Among the kept functions the same ones are live, and the worklist runs
    through. *)
Section Again.
Context (functions kept : list SsaFunction) (roots : list string) (Hclosed : CallClosed functions roots)
  (Hkept : forall f, f ∈ kept <-> live functions roots f).

Lemma kept_elem f : f ∈ kept -> f ∈ functions.
Proof. intros Hf%Hkept. by eapply live_elem. Qed.

Lemma live_kept f : live kept roots f <-> live functions roots f.
Proof.
  split.
  - intros (root & g & Hroot & Hg & Hn & Hr). exists root, g.
    repeat split; [done|by apply kept_elem|done|]. clear -Hr Hkept.
    induction Hr as [|a b c (Hb & Hcall) _ IH]; [done|]. eapply rtc_l; [|done].
    split; [by apply kept_elem|done].
  - intros (root & g & Hroot & Hg & Hn & Hr).
    pose proof (live_root _ _ _ _ Hroot Hg Hn) as Hl. exists root, g.
    repeat split; [done|by apply Hkept|done|]. clear Hroot Hn Hg.
    induction Hr as [|a b c Hab _ IH]; [done|]. pose proof (live_step _ _ _ _ Hl Hab) as Hb.
    eapply rtc_l; [|by apply IH]. destruct Hab as (_ & Hcall). split; [by apply Hkept|done].
Qed.

Lemma reachable_functions_again m reached :
  Indexed kept (length kept) m -> ascending reached ->
  (forall n, n ∈ reached <-> exists f, n = f_semantic_identity f /\ live functions roots f) ->
  reachable_functions kept m roots = Ok reached.
Proof.
  intros Hm Hasc Hex. destruct (reachable_functions kept m roots) as [R|e|msg] eqn:HR.
  - f_equal. apply (reachable_functions_exact kept m Hm) in HR as (Ha & HR & _).
    apply ascending_ext; [done..|]. intros n. rewrite HR, Hex. by setoid_rewrite live_kept.
  - exfalso. unfold reachable_functions in HR.
    apply (drain_err _ _ _ roots) in HR as [(k & Hk & Hr)|(n & Hn & He)]; [| |by left].
    + assert (exists g, g ∈ kept /\ names k g) as (g & Hg & Hn).
      { destruct Hk as [Hk|(n & next & Hn & He & Hk)].
        - destruct (cc_root _ _ Hclosed k Hk) as (g & ? & ?). exists g. by rewrite Hkept.
        - apply (reached_live kept m Hm) in Hn as (f & -> & Hf).
          apply (expand_function_ok kept m Hm) in He as [_ ->]; [|by eapply live_elem].
          apply elem_of_call_targets in Hk. apply live_kept in Hf.
          destruct (cc_call _ _ Hclosed f k Hf Hk) as (g & ? & ?). exists g. by rewrite Hkept. }
      assert (resolve_function kept m k = Ok (f_semantic_identity g))
        by (apply (resolve_function_ok kept m Hm); eauto). congruence.
    + apply (reached_live kept m Hm) in Hn as (f & -> & Hf).
      assert (expand_function kept m (f_semantic_identity f) = Ok (call_targets f)); [|congruence].
      apply (expand_function_ok kept m Hm); [by eapply live_elem|]. split; [|done].
      apply (cc_body _ _ Hclosed). by apply live_kept.
  - by destruct (reachable_functions_no_panic kept m Hm roots msg).
Qed.
End Again.
