(* ===== verification/SsaClosureAttached.v ===== *)
(** What the closure keeps beside the functions: the record types they mention
    and the obligations attached to them. *)

From S2P Require Export SsaClosureSpec.

(** ** Record types *)

Fixpoint type_mentions (ty : BodyType) (id : string) : Prop :=
  match ty with
  | TyRecord identity _ => id = identity
  | TySequence element _ | TyVector element _ => type_mentions element id
  | _ => False
  end.

(** The types written in an instruction. *)
Definition kind_types (kind : SsaInstructionKind) : list BodyType :=
  match kind with
  | Constant _ ty | Select ty => [ty]
  | Convert from to => [from; to]
  | SequenceConstruct ty _ | SequenceReplace ty _ _ | SequenceCopy ty _ _ _
  | VectorConstruct ty _ | VectorSplat ty _ | VectorExtract ty _ | VectorReplace ty _
  | VectorBinary ty _ | VectorCompare ty _ | VectorReduce ty _ => [ty]
  | RecordConstruct identity rest | RecordProject identity rest => [TyRecord identity rest]
  | _ => []
  end.

Definition types_mention (tys : list BodyType) (id : string) : Prop :=
  exists ty, ty ∈ tys /\ type_mentions ty id.

(** Every type a function writes down: its signature, its iterations, its block
    parameters, its instructions and their results. *)
Definition iteration_types (it : BoundedIteration) : list BodyType :=
  it_state_type it :: match it_over_sequence it with Some ty => [ty] | None => [] end.
Definition instruction_types (i : SsaInstruction) : list BodyType :=
  kind_types (i_kind i) ++ map v_ty (i_outputs i).
Definition block_types (b : SsaBlock) : list BodyType :=
  map v_ty (b_parameters b) ++ flat_map instruction_types (b_instructions b).
Definition function_types (f : SsaFunction) : list BodyType :=
  map v_ty (f_inputs f ++ f_outputs f) ++ flat_map iteration_types (f_bounded_iterations f)
  ++ flat_map block_types (f_blocks f).

Lemma elem_of_collect ty s id :
  id ∈ collect_record_type_ids ty s <-> type_mentions ty id \/ id ∈ s.
Proof. induction ty; cbn; rewrite ?elem_of_bs_add; tauto. Qed.

Lemma types_mention_nil id : types_mention [] id <-> False.
Proof. split; [intros (? & ?%elem_of_nil & _); done|done]. Qed.
Lemma types_mention_cons ty tys id :
  types_mention (ty :: tys) id <-> type_mentions ty id \/ types_mention tys id.
Proof. unfold types_mention. setoid_rewrite elem_of_cons. naive_solver. Qed.
Lemma types_mention_app l k id :
  types_mention (l ++ k) id <-> types_mention l id \/ types_mention k id.
Proof. unfold types_mention. setoid_rewrite elem_of_app. naive_solver. Qed.
Lemma types_mention_flat_map {A} (f : A -> list BodyType) l id :
  types_mention (flat_map f l) id <-> exists x, x ∈ l /\ types_mention (f x) id.
Proof.
  unfold types_mention. setoid_rewrite list_elem_of_In. setoid_rewrite in_flat_map. naive_solver.
Qed.
Create HintDb mention.
#[local] Hint Rewrite types_mention_nil types_mention_cons types_mention_app
  @types_mention_flat_map : mention.

Lemma elem_of_collect_kind kind s id :
  id ∈ collect_instruction_record_type_ids kind s <-> types_mention (kind_types kind) id \/ id ∈ s.
Proof.
  destruct kind; cbn; autorewrite with mention; cbn;
    rewrite ?elem_of_collect, ?elem_of_bs_add; tauto.
Qed.

Lemma elem_of_collect_values vs s id :
  id ∈ fold_left (fun acc v => collect_record_type_ids (v_ty v) acc) vs s <->
  types_mention (map v_ty vs) id \/ id ∈ s.
Proof.
  rewrite (elem_of_fold_adds _ (fun v => type_mentions (v_ty v))) by (intros; apply elem_of_collect).
  unfold types_mention. setoid_rewrite list_elem_of_fmap. naive_solver.
Qed.

Lemma elem_of_function_record_types f s id :
  id ∈ function_record_types s f <-> types_mention (function_types f) id \/ id ∈ s.
Proof.
  unfold function_record_types, function_types.
  rewrite (elem_of_fold_adds _ (fun b => types_mention (block_types b))).
  2: { intros acc b y _. unfold block_types.
    rewrite (elem_of_fold_adds _ (fun i => types_mention (instruction_types i))).
    - rewrite elem_of_collect_values, types_mention_app, types_mention_flat_map. tauto.
    - intros acc' i y' _. unfold instruction_types.
      rewrite elem_of_collect_values, elem_of_collect_kind, types_mention_app. tauto. }
  rewrite (elem_of_fold_adds _ (fun it => types_mention (iteration_types it))).
  2: { intros acc it y _. unfold iteration_types.
    destruct (it_over_sequence it); autorewrite with mention; rewrite !elem_of_collect; tauto. }
  rewrite elem_of_collect_values. autorewrite with mention. tauto.
Qed.

Lemma elem_of_required_record_types functions id :
  id ∈ required_record_types functions <-> exists f, f ∈ functions /\ types_mention (function_types f) id.
Proof.
  unfold required_record_types.
  rewrite (elem_of_fold_adds _ (fun f => types_mention (function_types f)))
    by (intros; apply elem_of_function_record_types).
  rewrite elem_of_nil. tauto.
Qed.

Section Records.
Context (record_types : list RecordType).

Definition record_mentions (r : RecordType) (id : string) : Prop := types_mention (r_fields r).*2 id.

(** The record types [start] needs: its own, and those of their fields. *)
Definition nests (a b : string) : Prop :=
  exists r, r ∈ record_types /\ r_identity r = a /\ record_mentions r b.
Definition needs_record (start : list string) (id : string) : Prop :=
  exists first, first ∈ start /\ rtc nests first id.

Lemma elem_of_nested_record_ids r id : id ∈ nested_record_ids r <-> record_mentions r id.
Proof.
  unfold nested_record_ids, record_mentions, types_mention.
  rewrite (elem_of_fold_adds _ (fun field => type_mentions field.2)) by (intros; apply elem_of_collect).
  setoid_rewrite list_elem_of_fmap. set_solver.
Qed.

Record RecordIndexed (n : nat) (m : list (string * nat)) : Prop := {
  ri_asc : bm_ascending m;
  ri_get : forall id i, bm_get id m = Some i <->
    i < n /\ exists r, record_types !! i = Some r /\ r_identity r = id
}.

Lemma index_record_step n m r :
  RecordIndexed n m -> record_types !! n = Some r -> bm_get (r_identity r) m = None ->
  index_record m (n, r) = Ok (bm_put (r_identity r) n m) /\
  RecordIndexed (S n) (bm_put (r_identity r) n m).
Proof.
  intros [Ha Hg] Hr Hnew. unfold index_record. cbn.
  pose proof (bm_insert_old (r_identity r) n m Ha) as Ho. rewrite Hnew in Ho.
  pose proof (bm_insert_put (r_identity r) n m) as Hp.
  destruct (bm_insert (r_identity r) n m) as [previous m1]. cbn in Ho, Hp. subst. split; [done|].
  split; [by apply bm_put_ascending|]. intros id i. rewrite bm_get_put. case_decide as Hid.
  - subst id. split; [intros [= <-]; split; [lia|]; eauto|]. intros (Hi & r' & Hr' & Hid').
    destruct (decide (i = n)) as [->|]; [done|].
    assert (bm_get (r_identity r) m = Some i) by (apply Hg; split; [lia|eauto]). congruence.
  - rewrite Hg. split; intros (Hi & r' & Hr' & Hid'); (split; [|by eauto]); [lia|].
    destruct (decide (i = n)) as [->|]; [congruence|lia].
Qed.

Lemma RecordIndexed_nil : RecordIndexed 0 [].
Proof. split; [constructor|]. intros id i. split; [done|intros [? _]; lia]. Qed.

Lemma index_records_ok m : index_records record_types = Ok m -> RecordIndexed (length record_types) m.
Proof.
  unfold index_records. apply (fold_outcome_imap_inv _ RecordIndexed); [|apply RecordIndexed_nil].
  intros n m0 r m' Hr HI Hi. destruct (bm_get (r_identity r) m0) eqn:E.
  - unfold index_record in Hi. cbn in Hi.
    pose proof (bm_insert_old (r_identity r) n m0 (ri_asc _ _ HI)) as Ho.
    destruct (bm_insert _ _ _) as [previous m1]. cbn in Ho. subst. by rewrite E in Hi.
  - destruct (index_record_step n m0 r HI Hr E) as [Hok ?]. rewrite Hok in Hi. by injection Hi as <-.
Qed.

Lemma index_records_total :
  NoDup (map r_identity record_types) -> exists m, index_records record_types = Ok m.
Proof.
  intros Hnd. apply (fold_outcome_imap_total _ RecordIndexed); [|apply RecordIndexed_nil].
  intros n m r Hr HI. assert (bm_get (r_identity r) m = None) as Hnew.
  { destruct (bm_get (r_identity r) m) as [i|] eqn:Hi; [|done].
    apply (ri_get _ _ HI) in Hi as (Hlt & r' & Hr' & Hid).
    enough (i = n) by lia. eapply (NoDup_lookup (map r_identity record_types) _ _ (r_identity r)); [done| |].
    - by rewrite list_lookup_fmap, Hr', <- Hid.
    - by rewrite list_lookup_fmap, Hr. }
  destruct (index_record_step n m r HI Hr Hnew). eauto.
Qed.

Lemma index_records_no_panic message : index_records record_types <> Panic message.
Proof.
  apply fold_outcome_no_panic. intros s [i r] msg. unfold index_record.
  by destruct (bm_insert _ _ _) as [[|] ?].
Qed.

Context (m : list (string * nat)) (Hm : RecordIndexed (length record_types) m).

Lemma expand_record_ok id next :
  expand_record record_types m id = Ok next <->
  exists r, r ∈ record_types /\ r_identity r = id /\ next = nested_record_ids r.
Proof.
  destruct Hm as [_ Hg]. unfold expand_record. rewrite outcome_bind_ok. setoid_rewrite outcome_bind_ok.
  setoid_rewrite index_ok. split.
  - intros (i & Hi & r & Hr & [= <-]). exists r. split; [by eapply list_elem_of_lookup_2|].
    destruct (bm_get id m) as [j|] eqn:Hj; [|done]. injection Hi as <-.
    apply Hg in Hj as (_ & r' & Hr' & ?). split; congruence.
  - intros (r & [i Hi]%list_elem_of_lookup & Hid & ->). exists i.
    assert (bm_get id m = Some i) as -> by (apply Hg; split; [by eapply lookup_lt_Some|eauto]).
    split; [done|]. by exists r.
Qed.

Lemma expand_record_no_panic id message : expand_record record_types m id <> Panic message.
Proof.
  destruct Hm as [_ Hg]. unfold expand_record. destruct (bm_get id m) as [i|] eqn:Hi; cbn; [|done].
  apply Hg in Hi as (_ & r & Hr & _). unfold index. by rewrite Hr.
Qed.

Lemma record_identities_NoDup : NoDup (map r_identity record_types).
Proof.
  destruct Hm as [_ Hg]. apply NoDup_alt. intros i j id Hi Hj.
  rewrite list_lookup_fmap in Hi, Hj.
  destruct (record_types !! i) as [r|] eqn:Hri; [|done]. destruct (record_types !! j) as [r'|] eqn:Hrj; [|done].
  assert (bm_get id m = Some i) as H1.
  { apply Hg. split; [by eapply lookup_lt_Some|]. exists r. split; [done|]. by injection Hi. }
  assert (bm_get id m = Some j) as H2.
  { apply Hg. split; [by eapply lookup_lt_Some|]. exists r'. split; [done|]. by injection Hj. }
  congruence.
Qed.

Lemma refers_nests a b : refers Ok (expand_record record_types m) a b <-> nests a b.
Proof.
  unfold refers, nests. setoid_rewrite expand_record_ok. split.
  - intros (next & k & (r & Hr & Hid & ->) & Hk & [= <-]). exists r.
    by rewrite <- elem_of_nested_record_ids.
  - intros (r & Hr & Hid & Hb%elem_of_nested_record_ids). eauto 10.
Qed.

Lemma reachable_needs start id :
  reachable Ok (expand_record record_types m) start id <-> needs_record start id.
Proof.
  assert (Hrtc : forall a b, rtc (refers Ok (expand_record record_types m)) a b <-> rtc nests a b).
  { intros a b. split; (induction 1; [done|]); (eapply rtc_l; [by apply refers_nests|done]). }
  unfold reachable, needs_record. setoid_rewrite Hrtc. split.
  - intros (k & first & ? & [= <-] & ?). eauto.
  - intros (first & ? & ?). exists first, first. eauto.
Qed.
End Records.

Lemma retain_records_no_panic record_types start message :
  retain_application_ssa_record_type_closure record_types start <> Panic message.
Proof.
  unfold retain_application_ssa_record_type_closure.
  destruct (index_records record_types) as [m| |msg] eqn:Hm;
    cbn [mbind outcome_bind]; [|done|by destruct (index_records_no_panic _ _ Hm)].
  apply index_records_ok in Hm.
  destruct (drain_enough Ok (expand_record record_types m) (bm_keys m)) with (roots := start)
    as [[R ->]|[e ->]]; try done.
  - apply ascending_NoDup, Hm.
  - intros n next (r & [i Hi]%list_elem_of_lookup & Hid & _)%expand_record_ok; [|done].
    apply bm_get_keys. exists i. apply (ri_get _ _ _ Hm). split; [by eapply lookup_lt_Some|eauto].
  - by apply expand_record_no_panic.
Qed.

(** What a successful run retains: the record types needed, and none needed is
    missing. *)
Record Retained (record_types : list RecordType) (start : list string) (kept : list RecordType) : Prop := {
  rt_distinct : NoDup (map r_identity record_types);
  rt_order : kept `sublist_of` record_types;
  rt_kept : forall r, r ∈ kept <-> r ∈ record_types /\ needs_record record_types start (r_identity r);
  rt_present : forall id, needs_record record_types start id -> exists r, r ∈ kept /\ r_identity r = id
}.

Lemma retain_records_exact record_types start kept :
  retain_application_ssa_record_type_closure record_types start = Ok kept ->
  Retained record_types start kept.
Proof.
  unfold retain_application_ssa_record_type_closure. intros Hk.
  apply outcome_bind_ok in Hk as (m & Hm & Hk). apply outcome_bind_ok in Hk as (R & HR & [= <-]).
  apply index_records_ok in Hm. apply drain_exact in HR as (Hex & _ & Hnext).
  assert (Hin : forall r, r ∈ List.filter (fun r => bs_mem (r_identity r) R) record_types <->
    r ∈ record_types /\ needs_record record_types start (r_identity r)).
  { intros r. rewrite !list_elem_of_In, filter_In, bs_mem_spec, Hex, (reachable_needs _ m Hm). done. }
  split; [by apply (record_identities_NoDup _ m)|apply filter_sublist|exact Hin|]. intros id Hid.
  destruct (Hnext id) as (next & He & _); [by apply (reachable_needs _ m Hm)|].
  apply expand_record_ok in He as (r & Hr & <- & _); [|done].
  exists r. split; [|done]. by apply Hin.
Qed.

(** Among the retained record types the same ones are needed. *)
Lemma retained_needs record_types start kept id :
  Retained record_types start kept ->
  needs_record kept start id <-> needs_record record_types start id.
Proof.
  intros [Hnd Hsub Hk Hp]. split; intros (first & Hf & Hr); exists first; (split; [done|]).
  - clear Hf. induction Hr as [|a b c (r & Hin & Ha & Hb) _ IH]; [done|].
    eapply rtc_l; [|exact IH]. exists r. split; [|done]. by apply Hk in Hin as [? _].
  - assert (needs_record record_types start first) as Hneed by (exists first; split; [done|constructor]).
    clear Hf. induction Hr as [|a b c (r & Hin & Ha & Hb) _ IH]; [done|].
    assert (nests record_types a b) as Hab by (by exists r).
    eapply rtc_l; [|apply IH].
    + exists r. split; [|done]. apply Hk. split; [done|by rewrite Ha].
    + destruct Hneed as (s & ? & ?). exists s. split; [done|]. by eapply rtc_r.
Qed.

Lemma retain_records_again record_types start kept :
  retain_application_ssa_record_type_closure record_types start = Ok kept ->
  retain_application_ssa_record_type_closure kept start = Ok kept.
Proof.
  intros HR%retain_records_exact. pose proof HR as [Hnd Hsub Hk Hp].
  assert (NoDup (map r_identity kept)) as Hndk by (eapply sublist_NoDup; [exact Hnd|by apply fmap_sublist]).
  destruct (index_records_total kept Hndk) as [m Hm].
  destruct (retain_application_ssa_record_type_closure kept start) as [kept'|e|msg] eqn:Hr.
  - f_equal. assert (Hall : forall r, r ∈ kept -> needs_record kept start (r_identity r)).
    { intros r Hin. rewrite (retained_needs record_types) by done. by apply Hk in Hin as [_ ?]. }
    unfold retain_application_ssa_record_type_closure in Hr. rewrite Hm in Hr. cbn [mbind outcome_bind] in Hr.
    apply outcome_bind_ok in Hr as (R & Hd & [= <-]). apply index_records_ok in Hm.
    apply drain_exact in Hd as (Hex & _). apply filter_all. intros r Hin.
    apply bs_mem_spec, Hex, (reachable_needs _ m Hm). auto.
  - exfalso. unfold retain_application_ssa_record_type_closure in Hr. rewrite Hm in Hr.
    cbn [mbind outcome_bind] in Hr. apply index_records_ok in Hm.
    destruct (drain _ _ _ _ _) as [R|e'|msg] eqn:Hd in Hr; try done. clear Hr.
    apply (drain_err _ _ _ start) in Hd as [(k & _ & Hd)|(n & Hn & Hd)]; [done| |by left].
    apply (reachable_needs _ m Hm), (retained_needs record_types) in Hn; [|done].
    destruct (Hp n Hn) as (r & Hin & Hid).
    assert (expand_record kept m n = Ok (nested_record_ids r)) by (apply expand_record_ok; eauto). congruence.
  - by destruct (retain_records_no_panic _ _ _ Hr).
Qed.

(** ** Obligations *)

Section Obligations.
Context (obligations : list ObligationRecord).

(** The record an identity stands for: the last one collected into the map. *)
Definition obligation_of (id : string) (o : ObligationRecord) : Prop :=
  last (filter (fun o => o_identity o = id) obligations) = Some o.

(** [a] depends on, or assumes, the obligation [b] of the table. *)
Definition links (a b : string) : Prop :=
  exists o, obligation_of a o /\ b ∈ o_dependencies o ++ o_assumptions o /\ b ∈ map o_identity obligations.
Definition needs_obligation (start : list string) (id : string) : Prop :=
  exists first, first ∈ start /\ rtc links first id.

Definition by_id : list (string * ObligationRecord) :=
  bm_of_list (map (fun o => (o_identity o, o)) obligations).

Lemma by_id_asc : bm_ascending by_id.
Proof. apply bm_of_list_ascending. Qed.

Lemma by_id_get id o : bm_get id by_id = Some o <-> obligation_of id o.
Proof. unfold by_id. by rewrite (bm_get_of_rows o_identity obligations id). Qed.

Lemma by_id_keys id : is_Some (bm_get id by_id) <-> id ∈ map o_identity obligations.
Proof.
  unfold by_id. rewrite (bm_get_of_rows o_identity obligations id), last_filter_some, list_elem_of_fmap. naive_solver.
Qed.

Lemma links_get a b :
  links a b <-> exists o, bm_get a by_id = Some o /\ b ∈ obligation_links o /\ is_Some (bm_get b by_id).
Proof.
  unfold links, obligation_links. setoid_rewrite by_id_get. setoid_rewrite by_id_keys. done.
Qed.

(** ** One popped identity *)

Definition missing (ids : list string) : list string := filter (fun id => id ∉ ids) (bm_keys by_id).

Lemma missing_add id ids :
  id ∉ ids -> id ∈ bm_keys by_id -> length (missing ids) = S (length (missing (bs_add id ids))).
Proof.
  intros Hid Hk. pose proof (ascending_NoDup _ by_id_asc) as Hnd. unfold missing.
  induction (bm_keys by_id) as [|x l IH]; [by apply elem_of_nil in Hk|].
  apply NoDup_cons in Hnd as [Hx Hnd]. rewrite !filter_cons.
  destruct (decide (x = id)) as [->|Hne].
  - rewrite decide_True by done. rewrite decide_False by (rewrite elem_of_bs_add; tauto). cbn. do 2 f_equal.
    apply filter_ext_elem. intros y Hy. rewrite elem_of_bs_add.
    assert (y <> id) by (by intros ->). tauto.
  - apply elem_of_cons in Hk as [->|Hk]; [done|]. specialize (IH Hk Hnd).
    destruct (decide (x ∉ ids)) as [Hxi|Hxi].
    + rewrite decide_True by (rewrite elem_of_bs_add; tauto). cbn. by rewrite IH.
    + by rewrite decide_False by (rewrite elem_of_bs_add; tauto).
Qed.

(** What one loop over [dependencies] and [assumptions] does. *)
Record Pushed (deps ids pending ids' pending' : list string) : Prop := {
  pu_asc : ascending ids';
  pu_ids : forall id, id ∈ ids' <-> id ∈ ids \/ (id ∈ deps /\ is_Some (bm_get id by_id));
  pu_pending : forall id, id ∈ pending' <-> id ∈ pending \/ (id ∈ ids' /\ id ∉ ids);
  pu_count : length pending' + length (missing ids') = length pending + length (missing ids)
}.

Lemma push_dependency_pushed dep ids pending :
  ascending ids ->
  Pushed [dep] ids pending (push_dependency by_id (ids, pending) dep).1
    (push_dependency by_id (ids, pending) dep).2.
Proof.
  intros Ha. unfold push_dependency. pose proof (bs_insert_fresh dep ids Ha) as Hf.
  assert (Hadd : (bs_insert dep ids).2 = bs_add dep ids) by done.
  destruct (bm_get dep by_id) as [o|] eqn:Hg.
  2: { split; cbn; [done| |tauto|done]. intros id. split; [by left|].
    intros [?|[->%list_elem_of_singleton [? ?]]]; [done|congruence]. }
  assert (dep ∈ bm_keys by_id) as Hk by (apply bm_get_keys; eauto).
  destruct (bs_insert dep ids) as [fresh ids']. cbn in Hf, Hadd. subst ids'.
  split; cbn; [by apply bs_add_ascending| | |].
  - intros id. rewrite elem_of_bs_add, list_elem_of_singleton. split; [|tauto].
    intros [->|?]; [right; eauto|by left].
  - intros id. rewrite elem_of_bs_add. destruct fresh.
    + rewrite elem_of_app, list_elem_of_singleton. split; [|tauto].
      intros [?| ->]; [by left|right]. split; [by left|by apply Hf].
    + split; [by left|]. intros [?|[[->|?] Hn]]; try done. by apply Hf in Hn.
  - destruct fresh.
    + rewrite length_app. cbn. rewrite (missing_add dep ids); [lia|by apply Hf|done].
    + f_equal. f_equal. apply filter_ext_elem. intros x _. rewrite elem_of_bs_add.
      assert (~ (dep ∉ ids)) as Hin%dec_stable by (intros Hn%Hf; done). naive_solver.
Qed.

Lemma Pushed_trans d1 d2 ids1 p1 ids2 p2 ids3 p3 :
  Pushed d1 ids1 p1 ids2 p2 -> Pushed d2 ids2 p2 ids3 p3 -> Pushed (d1 ++ d2) ids1 p1 ids3 p3.
Proof.
  intros [A1 I1 P1 C1] [A2 I2 P2 C2]. split; [done| | |lia].
  - intros id. rewrite I2, I1, elem_of_app. tauto.
  - intros id. rewrite P2, P1, I2. specialize (I1 id). destruct (decide (id ∈ ids2)); tauto.
Qed.

Lemma push_dependencies_pushed deps ids pending :
  ascending ids ->
  Pushed deps ids pending (fold_left (push_dependency by_id) deps (ids, pending)).1
    (fold_left (push_dependency by_id) deps (ids, pending)).2.
Proof.
  revert ids pending. induction deps as [|d deps IH]; intros ids pending Ha; cbn [fold_left].
  { split; cbn; [done|intros; rewrite elem_of_nil; tauto|tauto|done]. }
  pose proof (push_dependency_pushed d ids pending Ha) as Hp.
  destruct (push_dependency by_id (ids, pending) d) as [ids1 p1]. cbn in Hp.
  apply (Pushed_trans [d] deps ids pending ids1 p1); [done|]. apply IH, Hp.
Qed.

(** ** The loop *)

(** Everything kept is needed, and what a kept identity links to is kept unless
    the identity is still on the stack. *)
Record Closing (start ids pending : list string) : Prop := {
  cl_asc : ascending ids;
  cl_start : forall id, id ∈ start -> id ∈ ids;
  cl_needed : forall id, id ∈ ids -> needs_obligation start id;
  cl_pending : forall id, id ∈ pending -> id ∈ ids;
  cl_closed : forall a b, a ∈ ids -> links a b -> a ∈ pending \/ b ∈ ids
}.

Lemma Closing_skip start ids rest id :
  Closing start ids (rest ++ [id]) -> bm_get id by_id = None -> Closing start ids rest.
Proof.
  intros [A S N P C] Hg. split; try done.
  - intros x Hx. apply P, elem_of_app. by left.
  - intros a b Ha Hl. destruct (C a b Ha Hl) as [[?| ->%list_elem_of_singleton]%elem_of_app|?]; auto.
    apply links_get in Hl as (o & Ho & _). congruence.
Qed.

Lemma Closing_push start ids rest id o ids' pending' :
  Closing start ids (rest ++ [id]) -> bm_get id by_id = Some o ->
  Pushed (obligation_links o) ids rest ids' pending' -> Closing start ids' pending'.
Proof.
  intros [A S N P C] Hg [A' I' P' _].
  assert (id ∈ ids) as Hid by (apply P, elem_of_app; right; by left). split; [done| | | |].
  - intros x Hx. apply I'. left. auto.
  - intros x [Hx|[Hx Hk]]%I'; [auto|]. destruct (N _ Hid) as (first & Hf & Hr).
    exists first. split; [done|]. eapply rtc_r; [exact Hr|]. apply links_get. eauto.
  - intros x [Hx|[Hx _]]%P'; [|done]. apply I'. left. apply P, elem_of_app. by left.
  - intros a b Ha Hl. rewrite P', !I'. apply I' in Ha as [Ha|Ha].
    + destruct (C a b Ha Hl) as [[?| ->%list_elem_of_singleton]%elem_of_app|?]; [tauto| |tauto].
      right. right. apply links_get in Hl as (o' & Ho' & ? & ?). rewrite Hg in Ho'. by injection Ho' as <-.
    + destruct (decide (a ∈ ids)) as [Hin|Hin]; [|tauto].
      destruct (C a b Hin Hl) as [[?| ->%list_elem_of_singleton]%elem_of_app|?]; [tauto| |tauto].
      right. right. apply links_get in Hl as (o' & Ho' & ? & ?). rewrite Hg in Ho'. by injection Ho' as <-.
Qed.

Lemma close_obligations_exact fuel start ids pending :
  Closing start ids pending -> length pending + length (missing ids) < fuel ->
  exists closed, close_obligations fuel by_id ids pending = Some closed /\ ascending closed /\
    forall id, id ∈ closed <-> needs_obligation start id.
Proof.
  revert ids pending. induction fuel as [|fuel IH]; intros ids pending HC Hf; [lia|]. cbn.
  destruct (last pending) as [id|] eqn:Hl.
  - apply last_Some in Hl as [rest ->]. rewrite removelast_last. rewrite length_app in Hf. cbn in Hf.
    destruct (bm_get id by_id) as [o|] eqn:Hg; [|apply IH; [by eapply Closing_skip|lia]].
    pose proof (push_dependencies_pushed (obligation_links o) ids rest (cl_asc _ _ _ HC)) as Hp.
    destruct (fold_left _ _ _) as [ids' pending']. cbn in Hp.
    apply IH; [by eapply Closing_push|]. destruct Hp. lia.
  - apply last_None in Hl as ->. exists ids. split; [done|]. split; [apply HC|].
    intros id. split; [apply HC|]. intros (first & Hfi & Hr).
    apply (cl_start _ _ _ HC) in Hfi. induction Hr as [|a b c Hab _ IHr]; [done|].
    apply IHr. by destruct (cl_closed _ _ _ HC a b Hfi Hab) as [?%elem_of_nil|?].
Qed.

Lemma obligation_closure_exact start :
  ascending start ->
  exists closed, obligation_closure obligations start = Ok closed /\ ascending closed /\
    forall id, id ∈ closed <-> needs_obligation start id.
Proof.
  intros Ha. unfold obligation_closure. fold by_id.
  destruct (close_obligations_exact (S (length start + length by_id)) start start start)
    as (closed & -> & Hc & Hex).
  - split; try done; [|auto]. intros id Hid. exists id. split; [done|constructor].
  - unfold missing. pose proof (length_filter (fun id => id ∉ start) (bm_keys by_id)) as Hlen.
    unfold bm_keys in *. rewrite length_fmap in Hlen. lia.
  - by exists closed.
Qed.
End Obligations.

(** *** Closing again *)

Section ObligationsAgain.
Context (obligations : list ObligationRecord) (start closed : list string)
  (Hex : forall id, id ∈ closed <-> needs_obligation obligations start id).

Let kept := List.filter (fun o => bs_mem (o_identity o) closed) obligations.

Lemma elem_of_kept o : o ∈ kept <-> o ∈ obligations /\ o_identity o ∈ closed.
Proof. unfold kept. by rewrite list_elem_of_In, filter_In, bs_mem_spec, <- list_elem_of_In. Qed.

Lemma obligation_of_kept id o :
  id ∈ closed -> obligation_of kept id o <-> obligation_of obligations id o.
Proof.
  intros Hc. unfold obligation_of, kept.
  enough (filter (fun o => o_identity o = id)
      (List.filter (fun o => bs_mem (o_identity o) closed) obligations)
    = filter (fun o => o_identity o = id) obligations) as -> by done.
  clear Hex. induction obligations as [|x l IH]; [done|]. cbn [List.filter].
  destruct (bs_mem (o_identity x) closed) eqn:Hx; rewrite !filter_cons; rewrite IH; [done|].
  rewrite decide_False; [done|]. intros Hid. rewrite Hid in Hx.
  apply (bs_mem_spec id) in Hc. congruence.
Qed.

Lemma links_kept a b : a ∈ closed -> links kept a b <-> links obligations a b.
Proof.
  intros Ha. unfold links. setoid_rewrite obligation_of_kept; [|done].
  setoid_rewrite list_elem_of_fmap. setoid_rewrite elem_of_kept. split.
  - intros (o & Ho & Hb & x & Hx & Hin & _). eauto 10.
  - intros (o & Ho & Hb & x & Hx & Hin). exists o. repeat split; [done..|]. exists x.
    repeat split; [done|done|]. apply Hex in Ha as (first & Hf & Hr). apply Hex. exists first.
    split; [done|]. eapply rtc_r; [exact Hr|]. exists o. rewrite <- Hx. split; [done|].
    split; [done|]. apply list_elem_of_fmap. eauto.
Qed.

Lemma needs_kept id : needs_obligation kept start id <-> needs_obligation obligations start id.
Proof.
  split; intros (first & Hf & Hr); exists first; (split; [done|]).
  all: assert (first ∈ closed) as Hc by (apply Hex; exists first; split; [done|constructor]).
  all: clear Hf; induction Hr as [|a b c Hab _ IH]; [done|].
  all: assert (links obligations a b) as Hl by (first [done|by apply links_kept]).
  all: assert (b ∈ closed) as Hb
    by (apply Hex in Hc as (f0 & ? & ?); apply Hex; exists f0; split; [done|by eapply rtc_r]).
  all: eapply rtc_l; [|by apply IH]; by apply links_kept.
Qed.

Lemma obligation_closure_again :
  ascending start -> ascending closed -> obligation_closure kept start = Ok closed.
Proof.
  intros Hs Hc. destruct (obligation_closure_exact kept start Hs) as (closed' & -> & Ha & Hex').
  f_equal. apply ascending_ext; [done..|]. intros id. by rewrite Hex', Hex, needs_kept.
Qed.
End ObligationsAgain.

(** ** Attached identities

    [Adds step ids] says that [step] adds to each of the four sets exactly the
    identities [ids] lists for its argument. *)

Record Ids : Type := mkIds {
  ids_ssa : list string; ids_semantic : list string; ids_hir : list string; ids_obligations : list string
}.
Definition no_ids : Ids := mkIds [] [] [] [].
Definition join_ids (a b : Ids) : Ids :=
  mkIds (ids_ssa a ++ ids_ssa b) (ids_semantic a ++ ids_semantic b) (ids_hir a ++ ids_hir b)
    (ids_obligations a ++ ids_obligations b).
Definition all_ids {A} (ids : A -> Ids) (l : list A) : Ids :=
  fold_right (fun x acc => join_ids (ids x) acc) no_ids l.

Record AddsIds (ids : Ids) (a a' : Attached) : Prop := {
  ad_ssa : forall id, id ∈ a_ssa a' <-> id ∈ ids_ssa ids \/ id ∈ a_ssa a;
  ad_semantic : forall id, id ∈ a_semantic a' <-> id ∈ ids_semantic ids \/ id ∈ a_semantic a;
  ad_hir : forall id, id ∈ a_hir a' <-> id ∈ ids_hir ids \/ id ∈ a_hir a;
  ad_obligations : forall id, id ∈ a_obligations a' <-> id ∈ ids_obligations ids \/ id ∈ a_obligations a;
  ad_asc : ascending (a_obligations a) -> ascending (a_obligations a')
}.

Lemma AddsIds_nil a : AddsIds no_ids a a.
Proof. split; try done; intros; rewrite elem_of_nil; tauto. Qed.
Lemma AddsIds_app i1 i2 a b c : AddsIds i1 a b -> AddsIds i2 b c -> AddsIds (join_ids i1 i2) a c.
Proof.
  intros [] []. split; [..|auto]; intros id; cbn; rewrite elem_of_app;
    match goal with H : forall id, _ ∈ _ c <-> _ |- _ => rewrite H end; naive_solver.
Qed.
Lemma AddsIds_fold {A} (step : Attached -> A -> Attached) (ids : A -> Ids) l :
  (forall a x, AddsIds (ids x) a (step a x)) -> forall a, AddsIds (all_ids ids l) a (fold_left step l a).
Proof.
  intros Hs. induction l as [|x l IH]; intros a; cbn; [apply AddsIds_nil|].
  eapply AddsIds_app; [apply Hs|apply IH].
Qed.

Definition ssa_id (id : string) : Ids := mkIds [id] [] [] [].
Definition semantic_id (id : string) : Ids := mkIds [] [id] [] [].
Definition hir_id (id : string) : Ids := mkIds [] [] [id] [].
Definition obligation_ids (ids : list string) : Ids := mkIds [] [] [] ids.
Definition option_ids {A} (ids : A -> Ids) (o : option A) : Ids :=
  match o with Some x => ids x | None => no_ids end.

Lemma AddsIds_ssa id a : AddsIds (ssa_id id) a (add_ssa id a).
Proof. split; cbn; try done; intros; rewrite ?elem_of_bs_add, ?list_elem_of_singleton, ?elem_of_nil; tauto. Qed.
Lemma AddsIds_semantic id a : AddsIds (semantic_id id) a (add_semantic id a).
Proof. split; cbn; try done; intros; rewrite ?elem_of_bs_add, ?list_elem_of_singleton, ?elem_of_nil; tauto. Qed.
Lemma AddsIds_hir id a : AddsIds (hir_id id) a (add_hir id a).
Proof. split; cbn; try done; intros; rewrite ?elem_of_bs_add, ?list_elem_of_singleton, ?elem_of_nil; tauto. Qed.
Lemma AddsIds_obligations ids a : AddsIds (obligation_ids ids) a (add_obligations ids a).
Proof.
  split; cbn; [..|apply bs_extend_ascending]; intros; rewrite ?elem_of_bs_extend, ?elem_of_nil; tauto.
Qed.
Lemma AddsIds_option {A} (add : A -> Attached -> Attached) (ids : A -> Ids) o a :
  (forall x a, AddsIds (ids x) a (add x a)) -> AddsIds (option_ids ids o) a (add_option add o a).
Proof. intros Ha. destruct o; cbn; [apply Ha|apply AddsIds_nil]. Qed.

(** The identities a value, an iteration, an instruction, a block and a function
    carry. *)
Definition value_ids (v : SsaValue) : Ids :=
  join_ids (ssa_id (v_identity v)) (option_ids semantic_id (v_semantic_identity v)).
Definition iteration_ids (it : BoundedIteration) : Ids :=
  join_ids (join_ids (all_ids ssa_id [it_identity it; it_preheader it; it_header it; it_body_entry it;
      it_backedge it; it_exit it]) (all_ids ssa_id (it_body_blocks it)))
    (obligation_ids (it_obligations it)).
Definition instruction_ids (i : SsaInstruction) : Ids :=
  join_ids (join_ids (join_ids (join_ids (ssa_id (i_identity i))
    (option_ids semantic_id (i_semantic_identity i))) (option_ids hir_id (i_hir_identity i)))
    (obligation_ids (i_obligations i))) (all_ids value_ids (i_outputs i)).
Definition block_ids (b : SsaBlock) : Ids :=
  join_ids (join_ids (join_ids (ssa_id (b_identity b)) (option_ids semantic_id (b_semantic_identity b)))
    (all_ids value_ids (b_parameters b))) (all_ids instruction_ids (b_instructions b)).
Definition function_ids (f : SsaFunction) : Ids :=
  join_ids (join_ids (join_ids (join_ids (ssa_id (f_identity f)) (semantic_id (f_semantic_identity f)))
    (all_ids value_ids (f_inputs f ++ f_outputs f))) (all_ids iteration_ids (f_bounded_iterations f)))
    (all_ids block_ids (f_blocks f)).

Create HintDb adds.
#[local] Hint Resolve AddsIds_nil AddsIds_app AddsIds_ssa AddsIds_semantic AddsIds_hir
  AddsIds_obligations AddsIds_option AddsIds_fold : adds.

Lemma attach_value_adds a v : AddsIds (value_ids v) a (attach_value a v).
Proof. unfold value_ids, attach_value. eauto with adds. Qed.
Lemma attach_iteration_adds a it : AddsIds (iteration_ids it) a (attach_iteration a it).
Proof.
  unfold iteration_ids, attach_iteration.
  eapply AddsIds_app; [eapply AddsIds_app|]; eauto with adds;
    apply (AddsIds_fold (fun a id => add_ssa id a)); auto with adds.
Qed.
#[local] Hint Resolve attach_value_adds attach_iteration_adds : adds.
Lemma attach_instruction_adds a i : AddsIds (instruction_ids i) a (attach_instruction a i).
Proof. unfold instruction_ids, attach_instruction. eauto 12 with adds. Qed.
#[local] Hint Resolve attach_instruction_adds : adds.
Lemma attach_block_adds a b : AddsIds (block_ids b) a (attach_block a b).
Proof. unfold block_ids, attach_block. eauto 12 with adds. Qed.
#[local] Hint Resolve attach_block_adds : adds.
Lemma attach_function_adds a f : AddsIds (function_ids f) a (attach_function a f).
Proof. unfold function_ids, attach_function. eauto 12 with adds. Qed.

Lemma attached_adds functions :
  AddsIds (all_ids function_ids functions) (mkAttached [] [] [] []) (attached functions).
Proof. apply AddsIds_fold, attach_function_adds. Qed.

Lemma attached_obligations_asc functions : ascending (a_obligations (attached functions)).
Proof. apply (ad_asc _ _ _ (attached_adds functions)). constructor. Qed.

Lemma elem_of_all_ids {A} (proj : Ids -> list string) (ids : A -> Ids) l id :
  proj no_ids = [] -> (forall a b, proj (join_ids a b) = proj a ++ proj b) ->
  id ∈ proj (all_ids ids l) <-> exists x, x ∈ l /\ id ∈ proj (ids x).
Proof.
  intros Hn Hj. induction l as [|x l IH]; cbn.
  - rewrite Hn. split; [by intros ?%elem_of_nil|by intros (? & ?%elem_of_nil & _)].
  - rewrite Hj, elem_of_app, IH. setoid_rewrite elem_of_cons. naive_solver.
Qed.

Lemma elem_of_attached_obligations functions id :
  id ∈ a_obligations (attached functions) <->
  exists f, f ∈ functions /\ id ∈ ids_obligations (function_ids f).
Proof.
  rewrite (ad_obligations _ _ _ (attached_adds functions)), elem_of_nil,
    (elem_of_all_ids ids_obligations) by done. tauto.
Qed.
Lemma elem_of_attached_ssa functions id :
  id ∈ a_ssa (attached functions) <-> exists f, f ∈ functions /\ id ∈ ids_ssa (function_ids f).
Proof.
  rewrite (ad_ssa _ _ _ (attached_adds functions)), elem_of_nil, (elem_of_all_ids ids_ssa) by done. tauto.
Qed.
Lemma elem_of_attached_semantic functions id :
  id ∈ a_semantic (attached functions) <-> exists f, f ∈ functions /\ id ∈ ids_semantic (function_ids f).
Proof.
  rewrite (ad_semantic _ _ _ (attached_adds functions)), elem_of_nil,
    (elem_of_all_ids ids_semantic) by done. tauto.
Qed.
Lemma elem_of_attached_hir functions id :
  id ∈ a_hir (attached functions) <-> exists f, f ∈ functions /\ id ∈ ids_hir (function_ids f).
Proof.
  rewrite (ad_hir _ _ _ (attached_adds functions)), elem_of_nil, (elem_of_all_ids ids_hir) by done. tauto.
Qed.

(** ** Trace entries *)

Lemma filter_not_nil {A} (p : A -> bool) (l : list A) :
  negb (Nat.eqb (length (List.filter p l)) 0) = true <-> exists x, x ∈ l /\ p x = true.
Proof.
  rewrite negb_true_iff, Nat.eqb_neq. setoid_rewrite list_elem_of_In. setoid_rewrite <- filter_In.
  destruct (List.filter p l) as [|x k]; cbn; split; try done; [by intros (? & [])|].
  intros _. exists x. by left.
Qed.

Lemma retain_entry_spec a e0 e :
  retain_entry a e0 = Some e <->
  t_semantic_identity e = t_semantic_identity e0 /\ t_rest e = t_rest e0 /\
  t_ssa_identities e = List.filter (fun id => bs_mem id (a_ssa a)) (t_ssa_identities e0) /\
  t_hir_identities e = List.filter (fun id => bs_mem id (a_hir a)) (t_hir_identities e0) /\
  (bs_mem (t_semantic_identity e0) (a_semantic a) = true \/
   (exists id, id ∈ t_ssa_identities e0 /\ bs_mem id (a_ssa a) = true) \/
   (exists id, id ∈ t_hir_identities e0 /\ bs_mem id (a_hir a) = true)).
Proof.
  unfold retain_entry. rewrite <- !filter_not_nil. destruct e as [s1 s2 s3 s4]; cbn.
  destruct (bs_mem (t_semantic_identity e0) _), (negb _), (negb _); cbn; split;
    try (intros [= <- <- <- <-]; tauto); try (intros (-> & -> & -> & -> & _); done);
    try done; intros (_ & _ & _ & _ & [?|[?|?]]); done.
Qed.

Lemma retain_entry_again a e0 e : retain_entry a e0 = Some e -> retain_entry a e = Some e.
Proof.
  rewrite !retain_entry_spec. intros (Hs & Hr & Hi & Hh & Hor). rewrite Hs, Hi, Hh, !filter_filter.
  repeat split; try done. destruct Hor as [?|[(id & ? & ?)|(id & ? & ?)]]; [by left|right; left|right; right].
  all: exists id; split; [apply list_elem_of_In, filter_In; split; [by apply list_elem_of_In|done]|done].
Qed.

Lemma retain_entries_again a (l : list TraceEntry) :
  omap (retain_entry a) (omap (retain_entry a) l) = omap (retain_entry a) l.
Proof.
  induction l as [|e l IH]; [done|]. cbn. destruct (retain_entry a e) as [e'|] eqn:He; [|done].
  cbn. rewrite (retain_entry_again _ _ _ He). f_equal. exact IH.
Qed.
