(* ===== verification/SsaClosureTheorems.v ===== *)
(** Correctness of the application's SSA closure: what it keeps, that it never
    panics, and that closing again changes nothing. *)

From S2P Require Export SsaClosureAttached VmReference.

Section Theorems.
Context `{ModelCrate} (boundary_errors : SsaModule -> option string).

(** The identities the closure starts from. *)
Definition export_roots (selected_exports : list (string * string)) : list string :=
  map (fun '(module, function) => function_id module function) selected_exports.

(** ** The stages of a successful run *)

Record Closed (ssa : SsaModule) (roots : list string) (out : SsaModule)
  (m : list (string * nat)) (reached obligations : list string) : Prop := {
  st_index : index_functions (m_functions ssa) = Ok m;
  st_reached : reachable_functions (m_functions ssa) m roots = Ok reached;
  st_functions : m_functions out =
    List.filter (fun f => bs_mem (f_semantic_identity f) reached) (m_functions ssa);
  st_length : length (m_functions out) = length reached;
  st_records : retain_application_ssa_record_type_closure (m_record_types ssa)
    (required_record_types (m_functions out)) = Ok (m_record_types out);
  st_closed : obligation_closure (m_obligations ssa) (a_obligations (attached (m_functions out)))
    = Ok obligations;
  st_obligations : m_obligations out =
    List.filter (fun o => bs_mem (o_identity o) obligations) (m_obligations ssa);
  st_trace : m_trace out = omap (retain_entry (attached (m_functions out))) (m_trace ssa);
  st_transformations : m_transformations out =
    List.filter (retain_transformation (attached (m_functions out))) (m_transformations ssa);
  st_specializations : m_generic_specializations out =
    List.filter (fun g => bs_mem (gs_specialization_function g) reached) (m_generic_specializations ssa);
  st_binding : m_binding_table out = None;
  st_proofs : m_proof_relationships out = [] /\ m_proof_relationships ssa = [];
  st_rest : m_rest out = m_rest ssa;
  st_valid : identity_is_valid out = true /\ identity_is_valid ssa = true;
  st_boundary : boundary_errors out = None
}.

Lemma closure_inv ssa exports out :
  application_ssa_closure boundary_errors ssa exports = Ok out ->
  exports <> [] /\ exists m reached obligations, Closed ssa (export_roots exports) out m reached obligations.
Proof.
  unfold application_ssa_closure. intros Hc.
  case_bool_decide as Hx; [done|]. split; [done|].
  destruct (identity_is_valid ssa) eqn:Hv; [|done]. cbn [negb] in Hc.
  case_bool_decide as Hp; [|done]. cbn [negb] in Hc.
  apply outcome_bind_ok in Hc as (m & Hm & Hc). apply outcome_bind_ok in Hc as (reached & HR & Hc).
  destruct (Nat.eqb _ _) eqn:Hlen in Hc; [|done]. cbn [negb] in Hc.
  apply outcome_bind_ok in Hc as (rts & Hrts & Hc). apply outcome_bind_ok in Hc as (obs & Hobs & Hc).
  destruct (boundary_errors _) eqn:Hb in Hc; [done|].
  destruct (identity_is_valid _) eqn:Hv' in Hc; [|done]. injection Hc as <-.
  exists m, reached, obs. apply Nat.eqb_eq in Hlen. by split.
Qed.

Lemma closure_intro ssa exports out m reached obligations :
  exports <> [] -> Closed ssa (export_roots exports) out m reached obligations ->
  application_ssa_closure boundary_errors ssa exports = Ok out.
Proof.
  intros Hx []. unfold application_ssa_closure.
  rewrite bool_decide_false by done. destruct st_valid0 as [Hv ->], st_proofs0 as [Hp Hp'].
  rewrite bool_decide_true by done. cbn [negb]. rewrite st_index0. cbn [mbind outcome_bind].
  unfold export_roots in st_reached0. rewrite st_reached0. cbn [mbind outcome_bind].
  rewrite <- st_functions0, st_length0, Nat.eqb_refl. cbn [negb].
  rewrite st_records0. cbn [mbind outcome_bind]. rewrite st_closed0. cbn [mbind outcome_bind].
  rewrite <- st_obligations0, <- st_trace0, <- st_transformations0, <- st_specializations0.
  rewrite <- st_binding0, Hp', <- Hp, <- st_rest0.
  destruct out; cbn in *. by rewrite st_boundary0, Hv.
Qed.

Section Run.
Context ssa roots out m reached obligations (HC : Closed ssa roots out m reached obligations).

Lemma closed_index : Indexed (m_functions ssa) (length (m_functions ssa)) m.
Proof. apply index_functions_ok, HC. Qed.

Lemma closed_reached :
  ascending reached /\
  (forall n, n ∈ reached <-> exists f, n = f_semantic_identity f /\ live (m_functions ssa) roots f) /\
  CallClosed (m_functions ssa) roots.
Proof. eapply reachable_functions_exact; [apply closed_index|apply HC]. Qed.

Lemma closed_functions g : g ∈ m_functions out <-> live (m_functions ssa) roots g.
Proof.
  destruct closed_reached as (_ & Hr & _).
  rewrite (st_functions _ _ _ _ _ _ HC), list_elem_of_In, filter_In, <- list_elem_of_In, bs_mem_spec, Hr.
  split; [|intros Hl; split; [by eapply live_elem|by exists g]].
  intros (Hg & f & Hs & Hf).
  assert (g = f) as ->; [|done]. eapply (names_unique _ m closed_index (f_semantic_identity g)); try done.
  - by eapply live_elem.
  - apply semantic_names.
  - rewrite Hs. apply semantic_names.
Qed.

Lemma closed_obligation_ids :
  ascending obligations /\ forall id, id ∈ obligations <->
    needs_obligation (m_obligations ssa) (a_obligations (attached (m_functions out))) id.
Proof.
  destruct (obligation_closure_exact (m_obligations ssa) (a_obligations (attached (m_functions out))))
    as (closed & Hc & Ha & Hex); [apply attached_obligations_asc|].
  rewrite (st_closed _ _ _ _ _ _ HC) in Hc. by injection Hc as <-.
Qed.
End Run.
End Theorems.

(** C8: the functions of the projected module are exactly those that the
    selected exports reach through call instructions and through the callees of
    bounded iterations, in their original order.  Every export names one of
    them, each has a body, and every call any of them makes resolves to a
    function that was kept. *)
Theorem closure_functions `{ModelCrate} boundary_errors ssa exports out :
  application_ssa_closure boundary_errors ssa exports = Ok out ->
  (forall g, g ∈ m_functions out <-> live (m_functions ssa) (export_roots exports) g) /\
  m_functions out `sublist_of` m_functions ssa /\
  (forall root, root ∈ export_roots exports -> exists f, f ∈ m_functions out /\ names root f) /\
  (forall f, f ∈ m_functions out -> f_blocks f <> []) /\
  (forall f target, f ∈ m_functions out -> Calls f target -> exists g, g ∈ m_functions out /\ names target g).
Proof.
  intros (_ & m & reached & obs & HC)%closure_inv.
  pose proof (closed_functions _ _ _ _ _ _ _ HC) as Hf.
  destruct (closed_reached _ _ _ _ _ _ _ HC) as (_ & _ & [Hr Hb Hc]).
  split; [done|]. split; [rewrite (st_functions _ _ _ _ _ _ _ HC); apply filter_sublist|].
  setoid_rewrite Hf. auto.
Qed.

(** The record types of the projected module are exactly those that a kept
    function mentions - in its signature, iterations, block parameters,
    instructions or results - or that the fields of such a record type mention,
    at any depth; every one of them is present, once. *)
Theorem closure_record_types `{ModelCrate} boundary_errors ssa exports out :
  application_ssa_closure boundary_errors ssa exports = Ok out ->
  let needed id := exists f first, f ∈ m_functions out /\ types_mention (function_types f) first /\
    rtc (nests (m_record_types ssa)) first id in
  (forall r, r ∈ m_record_types out <-> r ∈ m_record_types ssa /\ needed (r_identity r)) /\
  (forall id, needed id -> exists r, r ∈ m_record_types out /\ r_identity r = id) /\
  NoDup (map r_identity (m_record_types out)).
Proof.
  intros (_ & m & reached & obs & HC)%closure_inv needed.
  pose proof (retain_records_exact _ _ _ (st_records _ _ _ _ _ _ _ HC)) as [Hnd Hsub Hk Hp].
  assert (Hneed : forall id, needed id <->
    needs_record (m_record_types ssa) (required_record_types (m_functions out)) id).
  { intros id. unfold needed, needs_record. setoid_rewrite elem_of_required_record_types. naive_solver. }
  setoid_rewrite Hneed. repeat split; [apply Hk|apply Hk|apply Hk|apply Hp|]; try done.
  eapply sublist_NoDup; [exact Hnd|by apply fmap_sublist].
Qed.

(** The obligations of the projected module are exactly those attached to
    an instruction or a bounded iteration of a kept function, and those they
    depend on or assume, directly or not, as far as the source module has a
    record of them. *)
Theorem closure_obligations `{ModelCrate} boundary_errors ssa exports out :
  application_ssa_closure boundary_errors ssa exports = Ok out ->
  forall o, o ∈ m_obligations out <-> o ∈ m_obligations ssa /\
    exists f first, f ∈ m_functions out /\ first ∈ ids_obligations (function_ids f) /\
      rtc (links (m_obligations ssa)) first (o_identity o).
Proof.
  intros (_ & m & reached & obs & HC)%closure_inv o.
  destruct (closed_obligation_ids _ _ _ _ _ _ _ HC) as (_ & Hex).
  rewrite (st_obligations _ _ _ _ _ _ _ HC), list_elem_of_In, filter_In, bs_mem_spec, <- list_elem_of_In, Hex.
  unfold needs_obligation. setoid_rewrite elem_of_attached_obligations. naive_solver.
Qed.

(** The closure never panics: no index is out of range, and the worklists
    and the obligation stack run dry within the iterations they are given. *)
Theorem closure_total `{ModelCrate} boundary_errors ssa exports :
  (exists out, application_ssa_closure boundary_errors ssa exports = Ok out) \/
  (exists error, application_ssa_closure boundary_errors ssa exports = Err error).
Proof.
  unfold application_ssa_closure. repeat case_bool_decide; try by eauto.
  all: destruct (identity_is_valid ssa); cbn [negb]; [|by eauto]; try by eauto.
  destruct (index_functions (m_functions ssa)) as [m|e|msg] eqn:Hm; cbn [mbind outcome_bind];
    [|by eauto|by destruct (index_functions_no_panic _ _ Hm)].
  destruct (reachable_functions _ m _) as [R|e|msg] eqn:HR; cbn [mbind outcome_bind];
    [|by eauto|by destruct (reachable_functions_no_panic _ m (index_functions_ok _ _ Hm) _ _ HR)].
  destruct (Nat.eqb _ _); cbn [negb]; [|by eauto].
  destruct (retain_application_ssa_record_type_closure _ _) as [rts|e|msg] eqn:Hr; cbn [mbind outcome_bind];
    [|by eauto|by destruct (retain_records_no_panic _ _ _ Hr)].
  match goal with |- context [obligation_closure ?o (a_obligations (attached ?f))] =>
    destruct (obligation_closure_exact o _ (attached_obligations_asc f)) as (closed & -> & _) end.
  cbn [mbind outcome_bind]. destruct (boundary_errors _); [by eauto|].
  destruct (identity_is_valid _); cbn [negb]; by eauto.
Qed.

(** [id] is an identity some kept function carries, on the given level. *)
Definition carried (level : Ids -> list string) (functions : list SsaFunction) (id : string) : Prop :=
  exists f, f ∈ functions /\ id ∈ level (function_ids f).

(** The provenance kept is that of the kept functions.  A trace entry lists
    only identities they carry and none of those it listed is lost; an entry
    about one of them is never dropped and an entry about none is; the same
    holds of the lowering history and of the generic specializations. *)
Theorem closure_provenance `{ModelCrate} boundary_errors ssa exports out :
  application_ssa_closure boundary_errors ssa exports = Ok out ->
  let fs := m_functions out in
  (forall e, e ∈ m_trace out <-> exists e0, e0 ∈ m_trace ssa /\
     t_semantic_identity e = t_semantic_identity e0 /\ t_rest e = t_rest e0 /\
     t_ssa_identities e = List.filter (fun id => bs_mem id (a_ssa (attached fs))) (t_ssa_identities e0) /\
     t_hir_identities e = List.filter (fun id => bs_mem id (a_hir (attached fs))) (t_hir_identities e0) /\
     (carried ids_semantic fs (t_semantic_identity e0) \/
      (exists id, id ∈ t_ssa_identities e0 /\ carried ids_ssa fs id) \/
      (exists id, id ∈ t_hir_identities e0 /\ carried ids_hir fs id))) /\
  (forall e id, e ∈ m_trace out -> id ∈ t_ssa_identities e -> carried ids_ssa fs id) /\
  (forall e id, e ∈ m_trace out -> id ∈ t_hir_identities e -> carried ids_hir fs id) /\
  (forall t, t ∈ m_transformations out <-> t ∈ m_transformations ssa /\
     (carried ids_semantic fs (tr_operation t) \/ carried ids_ssa fs (tr_operation t) \/
      carried ids_ssa fs (tr_output_identity t))) /\
  (forall g, g ∈ m_generic_specializations out <-> g ∈ m_generic_specializations ssa /\
     exists f, f ∈ fs /\ f_semantic_identity f = gs_specialization_function g) /\
  m_binding_table out = None.
Proof.
  intros (_ & m & reached & obs & HC)%closure_inv fs.
  assert (Hssa : forall id, carried ids_ssa fs id <-> bs_mem id (a_ssa (attached fs)) = true)
    by (intros id; by rewrite bs_mem_spec, elem_of_attached_ssa).
  assert (Hhir : forall id, carried ids_hir fs id <-> bs_mem id (a_hir (attached fs)) = true)
    by (intros id; by rewrite bs_mem_spec, elem_of_attached_hir).
  assert (Hsem : forall id, carried ids_semantic fs id <-> bs_mem id (a_semantic (attached fs)) = true)
    by (intros id; by rewrite bs_mem_spec, elem_of_attached_semantic).
  assert (Htrace : forall e, e ∈ m_trace out <-> exists e0, e0 ∈ m_trace ssa /\
    retain_entry (attached fs) e0 = Some e).
  { intros e. by rewrite (st_trace _ _ _ _ _ _ _ HC), list_elem_of_omap. }
  assert (Hin : forall p (l : list string) id, id ∈ List.filter p l <-> id ∈ l /\ p id = true)
    by (intros; by rewrite !list_elem_of_In, filter_In).
  split.
  { intros e. rewrite Htrace. f_equiv. intros e0. rewrite retain_entry_spec, !Hsem.
    setoid_rewrite Hssa. setoid_rewrite Hhir. naive_solver. }
  split; [|split; [|split; [|split]]].
  - intros e id (e0 & _ & (_ & _ & -> & _)%retain_entry_spec)%Htrace [_ ?]%Hin. by apply Hssa.
  - intros e id (e0 & _ & (_ & _ & _ & -> & _)%retain_entry_spec)%Htrace [_ ?]%Hin. by apply Hhir.
  - intros t. rewrite (st_transformations _ _ _ _ _ _ _ HC), list_elem_of_In, filter_In, <- list_elem_of_In.
    unfold retain_transformation. rewrite !orb_true_iff, !Hsem, !Hssa. fold fs. tauto.
  - intros g. rewrite (st_specializations _ _ _ _ _ _ _ HC), list_elem_of_In, filter_In, <- list_elem_of_In.
    rewrite bs_mem_spec. destruct (closed_reached _ _ _ _ _ _ _ HC) as (_ & -> & _).
    unfold fs. setoid_rewrite (closed_functions _ _ _ _ _ _ _ HC). naive_solver.
  - apply HC.
Qed.

(** Closing is idempotent: the closure of a projected module for the same
    exports is the module itself. *)
Theorem closure_idempotent `{ModelCrate} boundary_errors ssa exports out :
  application_ssa_closure boundary_errors ssa exports = Ok out ->
  application_ssa_closure boundary_errors out exports = Ok out.
Proof.
  intros (Hx & m & reached & obs & HC)%closure_inv.
  pose proof (closed_functions _ _ _ _ _ _ _ HC) as Hf.
  pose proof (closed_index _ _ _ _ _ _ _ HC) as Hm.
  destruct (closed_reached _ _ _ _ _ _ _ HC) as (Hasc & Hreached & Hcc).
  destruct (closed_obligation_ids _ _ _ _ _ _ _ HC) as (Hobs & Hex).
  pose proof (names_unique _ m Hm) as Huniq.
  destruct (index_functions_total (m_functions out)) as [m' Hm'].
  { eapply sublist_NoDup; [apply (indexed_NoDup _ m Hm)|].
    rewrite (st_functions _ _ _ _ _ _ _ HC). apply filter_sublist. }
  { intros id f g Hfo Hgo. apply Huniq; eapply live_elem; by apply Hf. }
  apply (closure_intro boundary_errors out exports out m' reached obs Hx).
  destruct HC. split; try done.
  - apply (reachable_functions_again (m_functions ssa) _ _ Hcc Hf); [by apply index_functions_ok|done|done].
  - symmetry. apply filter_all. intros f Hfo. apply bs_mem_spec, Hreached. exists f. by rewrite <- Hf.
  - by eapply retain_records_again.
  - rewrite st_obligations0. apply (obligation_closure_again _ _ _ Hex); [apply attached_obligations_asc|done].
  - symmetry. apply filter_all. intros o. rewrite st_obligations0. intros Hin.
    apply list_elem_of_In, filter_In in Hin. tauto.
  - rewrite st_trace0. symmetry. apply retain_entries_again.
  - symmetry. apply filter_all. intros t. rewrite st_transformations0. intros Hin.
    apply list_elem_of_In, filter_In in Hin. tauto.
  - symmetry. apply filter_all. intros g. rewrite st_specializations0. intros Hin.
    apply list_elem_of_In, filter_In in Hin. tauto.
  - tauto.
  - tauto.
Qed.

(** ** A module to apply them at

    [main] calls [helper] and carries an obligation with a dependency; [dead] is
    not called. *)
Section Sample.
Local Open Scope string_scope.
Local Open Scope list_scope.

Definition sample_value (id : string) (ty : BodyType) : SsaValue := mkValue id None ty None "entry".
Definition sample_instruction (id : string) (kind : SsaInstructionKind) (outputs : list SsaValue)
  (obligations : list string) : SsaInstruction :=
  mkInstruction id None None kind [] outputs [] [] [] [] [] None obligations None.
Definition sample_function (name : string) (inputs : list SsaValue) (instructions : list SsaInstruction)
  : SsaFunction :=
  mkFunction ("ssa::" +:+ name) ("app::" +:+ name) inputs []
    [mkBlock ("block::" +:+ name) None [] instructions ""] [] "".

Definition sample_main : SsaFunction := sample_function "main" [sample_value "x" (TyRecord "Outer" "")]
  [sample_instruction "call" (Call "ssa::helper" [] "") [sample_value "y" TyBool] ["o1"]].
Definition sample_helper : SsaFunction := sample_function "helper" [] [].
Definition sample_dead : SsaFunction := sample_function "dead" [sample_value "z" (TyRecord "Dead" "")] [].
Definition sample_obligation (id : string) (dependencies : list string) : ObligationRecord :=
  mkObligation id "" "" "" "" [] dependencies "" None "1".

Definition closure_sample : SsaModule := {|
  m_functions := [sample_dead; sample_main; sample_helper];
  m_record_types := [mkRecordType "Inner" "" [] ""; mkRecordType "Outer" "" [("i", TySequence (TyRecord "Inner" "") (Exact 2))] "";
    mkRecordType "Dead" "" [] ""];
  m_obligations := [sample_obligation "o3" []; sample_obligation "o2" ["missing"]; sample_obligation "o1" ["o2"]];
  m_trace := [mkTrace "app::main" ["call"; "block::dead"] [] ""; mkTrace "app::dead" ["block::dead"] [] ""];
  m_transformations := [];
  m_generic_specializations := [mkSpecialization "app::g" "app::helper" "" [] [] ""];
  m_binding_table := Some "index";
  m_proof_relationships := [];
  m_rest := "" |}.

Definition closure_exports : list (string * string) := [("app", "main")].
Definition closure_result : SsaModule :=
  Eval vm_compute in
    match application_ssa_closure (fun _ => None) closure_sample closure_exports with
    | Ok out => out
    | _ => closure_sample
    end.

Lemma closure_sample_ok :
  application_ssa_closure (fun _ => None) closure_sample closure_exports = Ok closure_result.
Proof. vm_compute. reflexivity. Qed.

Lemma closure_functions_witness :
  live (m_functions closure_sample) (export_roots closure_exports) sample_helper /\
  exists g, g ∈ m_functions closure_result /\ names "ssa::helper" g.
Proof.
  destruct (closure_functions (fun _ => None) closure_sample closure_exports closure_result
    closure_sample_ok) as (Hex & _ & _ & _ & Hcall).
  assert (sample_main ∈ m_functions closure_result) by (left). split.
  - apply Hex. right. left.
  - apply (Hcall sample_main); [done|]. left.
    eexists (mkBlock _ _ _ _ _), _, _, _. repeat split; [left|left|reflexivity].
Defined.

Lemma closure_record_types_witness :
  exists r, r ∈ m_record_types closure_result /\ r_identity r = "Inner".
Proof.
  destruct (closure_record_types (fun _ => None) closure_sample closure_exports closure_result
    closure_sample_ok) as (_ & Hpresent & _).
  apply Hpresent. exists sample_main, "Outer". split; [left|]. split.
  - exists (TyRecord "Outer" ""). split; [left|reflexivity].
  - eapply rtc_l; [|constructor]. eexists (mkRecordType "Outer" _ _ _). split; [right; left|].
    split; [reflexivity|]. eexists. split; [left|]. reflexivity.
Defined.

Lemma closure_obligations_witness :
  sample_obligation "o2" ["missing"] ∈ m_obligations closure_result.
Proof.
  apply (closure_obligations (fun _ => None) closure_sample closure_exports closure_result
    closure_sample_ok). split; [right; left|].
  exists sample_main, "o1". split; [left|]. split; [left|].
  eapply rtc_l; [|constructor]. exists (sample_obligation "o1" ["o2"]). split.
  - vm_compute. reflexivity.
  - split; [left|]. right. left.
Defined.

Lemma closure_provenance_witness :
  ~ mkTrace "app::dead" ["block::dead"] [] "" ∈ m_trace closure_result /\
  (exists f, f ∈ m_functions closure_result /\ f_semantic_identity f = "app::helper").
Proof.
  destruct (closure_provenance (fun _ => None) closure_sample closure_exports closure_result
    closure_sample_ok) as (_ & _ & _ & _ & Hg & _). split.
  - cbn. intros Hin. repeat (apply elem_of_cons in Hin as [Hin|Hin]; [discriminate Hin|]).
    by apply elem_of_nil in Hin.
  - apply (Hg (mkSpecialization "app::g" "app::helper" "" [] [] "")). left.
Defined.

Lemma closure_idempotent_witness :
  application_ssa_closure (fun _ => None) closure_result closure_exports = Ok closure_result.
Proof.
  exact (closure_idempotent (fun _ => None) closure_sample closure_exports closure_result closure_sample_ok).
Defined.
End Sample.
