(* ===== verification/Program.v ===== *)
(** Elaborated programs as the emitter and the probe read and prune them.

    The types are the language crates'; what the Rust code under verification
    reads or writes is here under its own name, the rest is one opaque payload.
    [ProgramCrate] holds the functions of those crates it calls. *)

From S2P Require Export Ssa Worklist.

(** A call; an operation on a nominal type (a finite or record construction,
    test or projection); any other. *)
Inductive BodyOperationKind : Type :=
  | OpCall (function : SemanticId) (specialization : option SemanticId) (rest : string)
  | OpNominal (type_identity : SemanticId) (rest : string)
  | OpOther (rest : string).

(** [op_results], [bb_parameters] and [bd_parameters] are the types of the
    values; the rest of each value is in the payload. *)
Record BodyOperation : Type := mkOperation {
  op_kind : BodyOperationKind; op_results : list BodyType; op_rest : string
}.
Record BodyBlock : Type := mkBodyBlock {
  bb_parameters : list BodyType; bb_operations : list BodyOperation; bb_rest : string
}.
Record BodyIteration : Type := mkBodyIteration {
  bi_state_type : BodyType; bi_callees : list SemanticId; bi_rest : string
}.
Record Body : Type := mkBody {
  bd_parameters : list BodyType; bd_blocks : list BodyBlock; bd_bounded_iterations : list BodyIteration;
  bd_rest : string
}.

(** An input, an output or a field, with the source text of its type. *)
Record TypedValue : Type := mkTypedValue { tv_type : string; tv_rest : string }.

Record Function : Type := mkDeclaration {
  fn_name : string;
  fn_generic_params : list string;
  fn_inputs : list TypedValue;
  fn_outputs : list TypedValue;
  fn_body : option Body;
  fn_rest : string
}.

Record RecordDeclaration : Type := mkRecordDeclaration {
  rd_identity : SemanticId; rd_name : string; rd_fields : list TypedValue; rd_rest : string
}.
(** The variants of a finite type are the fields of their payloads. *)
Record FiniteDeclaration : Type := mkFiniteDeclaration {
  fd_identity : SemanticId; fd_name : string; fd_variants : list (list TypedValue); fd_rest : string
}.

Record Program : Type := mkProgram {
  p_module : string;
  p_dependencies : list SemanticId;
  p_functions : list Function;
  p_record_types : list RecordDeclaration;
  p_finite_types : list FiniteDeclaration;
  p_generic_specializations : list GenericSpecialization;
  p_assumptions : string;
  p_rest : string
}.

(** [function.body = None]. *)
Definition clear_body (f : Function) : Function :=
  mkDeclaration (fn_name f) (fn_generic_params f) (fn_inputs f) (fn_outputs f) None (fn_rest f).

(** [Function::identity_namespace], which reads the declaration and not the
    body, and the errors [Program::validate] reports, if any. *)
Class ProgramCrate := {
  identity_namespace : Function -> string -> string;
  identity_namespace_declared : forall f module,
    identity_namespace (clear_body f) module = identity_namespace f module;
  program_errors : Program -> option string
}.

Section Identities.
Context `{ModelCrate, ProgramCrate}.

Definition qualified (p : Program) (f : Function) : string * string :=
  (identity_namespace f (p_module p), fn_name f).
Definition function_identity (p : Program) (f : Function) : SemanticId :=
  function_id (identity_namespace f (p_module p)) (fn_name f).

(** The functions a body calls, in the order the loops visit them. *)
Definition operation_callee (op : BodyOperation) : list SemanticId :=
  match op_kind op with OpCall function _ _ => [function] | _ => [] end.
Definition body_callees (body : Body) : list SemanticId :=
  flat_map (fun block => flat_map operation_callee (bb_operations block)) (bd_blocks body)
  ++ flat_map bi_callees (bd_bounded_iterations body).

(** ** What is declared and what is called *)

(** The declaration an identity stands for: the last one with it. *)
Definition declared (p : Program) (id : SemanticId) (f : Function) : Prop :=
  last (filter (fun f => function_identity p f = id) (p_functions p)) = Some f.

Definition body_calls (f : Function) (target : SemanticId) : Prop :=
  exists body, fn_body f = Some body /\
    ((exists block op specialization rest, block ∈ bd_blocks body /\ op ∈ bb_operations block /\
        op_kind op = OpCall target specialization rest) \/
     (exists iteration, iteration ∈ bd_bounded_iterations body /\ target ∈ bi_callees iteration)).

Definition program_calls (p : Program) (a b : SemanticId) : Prop :=
  exists f, declared p a f /\ body_calls f b.
Definition program_live (p : Program) (roots : list SemanticId) (id : SemanticId) : Prop :=
  exists root, root ∈ roots /\ rtc (program_calls p) root id.

Lemma elem_of_body_callees f body target :
  fn_body f = Some body -> target ∈ body_callees body <-> body_calls f target.
Proof.
  intros Hb. unfold body_callees, body_calls. rewrite elem_of_app, !list_elem_of_In, !in_flat_map.
  setoid_rewrite in_flat_map. setoid_rewrite <- list_elem_of_In. split.
  - intros Ht. exists body. split; [done|]. destruct Ht as [(bl & Hbl & op & Hop & Ht)|?]; [left|by right].
    unfold operation_callee in Ht. destruct (op_kind op) eqn:E; [|by apply elem_of_nil in Ht..].
    apply list_elem_of_singleton in Ht as ->. eauto 8.
  - intros (body' & Hb' & Ht). rewrite Hb in Hb'. injection Hb' as <-.
    destruct Ht as [(bl & op & s & r & Hbl & Hop & Ht)|?]; [left|by right].
    exists bl. split; [done|]. exists op. split; [done|]. unfold operation_callee. rewrite Ht. left.
Qed.

Lemma declared_elem p id f : declared p id f -> f ∈ p_functions p /\ function_identity p f = id.
Proof. intros Hd. by apply last_filter_elem in Hd. Qed.

Lemma declared_unique p id f g : declared p id f -> declared p id g -> f = g.
Proof. unfold declared. congruence. Qed.

Lemma program_live_root p roots root : root ∈ roots -> program_live p roots root.
Proof. intros. exists root. split; [done|constructor]. Qed.

Lemma program_live_step p roots a b : program_live p roots a -> program_calls p a b -> program_live p roots b.
Proof. intros (root & ? & ?) ?. exists root. split; [done|]. by eapply rtc_r. Qed.
End Identities.
