(* ===== verification/AppProgram.v ===== *)
(** The backend input of an application: [tools/vm_emit.rs],
    [application_selected_exports] and [application_lowering_program].

    The exports are the callable roots with each requested generic replaced by
    its concrete specializations; the lowering program keeps the bodies of what
    they call and clears every other body. *)

From S2P Require Export Program.

Section Definitions.
Context `{ModelCrate, ProgramCrate}.
Local Open Scope string_scope.
Local Open Scope list_scope.

(** ** [application_selected_exports] *)

Definition find_function (p : Program) (id : SemanticId) : option Function :=
  List.find (fun f => bool_decide (function_identity p f = id)) (p_functions p).

Definition select_specialization (p : Program) (generic_identity : SemanticId)
  (selected : list (string * string)) (record : GenericSpecialization) : list (string * string) :=
  if bool_decide (gs_generic_function record = generic_identity) then
    match find_function p (gs_specialization_function record) with
    | Some function => bs_add (qualified p function) selected
    | None => selected
    end
  else selected.

Definition select_generic (p : Program) (selected : list (string * string)) (seed : string * string)
  : list (string * string) :=
  fold_left (select_specialization p (function_id seed.1 seed.2)) (p_generic_specializations p)
    (bs_remove seed selected).

Definition application_selected_exports (p : Program) (callable_roots generic_seed_functions : list (string * string))
  : Outcome string (list (string * string)) :=
  if bool_decide (callable_roots = []) then Err "application callable set has no selected roots"
  else Ok (fold_left (select_generic p) generic_seed_functions callable_roots).

(** ** [application_lowering_program] *)

Definition functions_by_identity (p : Program) : list (SemanticId * Function) :=
  bm_of_list (map (fun f => (function_identity p f, f)) (p_functions p)).

(** A call whose specialization is not its target. *)
Definition mismatched (op : BodyOperation) : bool :=
  match op_kind op with
  | OpCall function (Some specialization) _ => negb (bool_decide (specialization = function))
  | _ => false
  end.

Definition expand_declaration (p : Program) (identity : SemanticId) : Outcome string (list SemanticId) :=
  function ← ok_or ("selected application function " +:+ identity +:+ " has no source declaration")
    (bm_get identity (functions_by_identity p));
  if negb (bool_decide (fn_generic_params function = []))
  then Err ("selected application function " +:+ identity +:+ " is an unresolved generic template")
  else
  body ← ok_or ("selected application function " +:+ identity +:+ " has no executable body") (fn_body function);
  if existsb (fun block => existsb mismatched (bb_operations block)) (bd_blocks body)
  then Err ("application call in " +:+ identity +:+ " has mismatched generic specialization identity")
  else Ok (body_callees body).

Definition keep_body (p : Program) (reachable : list SemanticId) (f : Function) : Function :=
  if bs_mem (function_identity p f) reachable then f else clear_body f.

Definition application_lowering_program (p : Program) (selected_exports : list (string * string))
  : Outcome string Program :=
  if bool_decide (selected_exports = []) then Err "application lowering has no selected roots"
  else
  match program_errors p with
  | Some errors => Err ("application source program failed semantic validation: " +:+ errors)
  | None =>
      let pending := map (fun '(module, function) => function_id module function) selected_exports in
      reachable ← drain Ok (expand_declaration p)
        (enough (expand_declaration p) (bm_keys (functions_by_identity p)) pending) pending [];
      Ok {| p_module := p_module p;
            p_dependencies := p_dependencies p;
            p_functions := map (keep_body p reachable) (p_functions p);
            p_record_types := p_record_types p;
            p_finite_types := p_finite_types p;
            p_generic_specializations := p_generic_specializations p;
            p_assumptions := p_assumptions p;
            p_rest := p_rest p |}
  end.

(** [application_lowering_program_for_callables]. *)
Definition application_lowering_program_for_callables (p : Program)
  (callable_roots generic_seed_functions : list (string * string)) : Outcome string Program :=
  selected_exports ← application_selected_exports p callable_roots generic_seed_functions;
  application_lowering_program p selected_exports.
End Definitions.
