(* ===== verification/AppProgramTheorems.v ===== *)
(** Correctness of the application's backend input. *)

From S2P Require Export AppProgram VmReference.

Section Spec.
Context `{ModelCrate, ProgramCrate}.

(** Every specialized call names its own target. *)
Definition consistent (body : Body) : Prop :=
  forall block op callee specialization rest, block ∈ bd_blocks body -> op ∈ bb_operations block ->
    op_kind op = OpCall callee (Some specialization) rest -> specialization = callee.

(** [id] is declared with a body that can be lowered. *)
Definition executable (p : Program) (id : SemanticId) (f : Function) (body : Body) : Prop :=
  declared p id f /\ fn_generic_params f = [] /\ fn_body f = Some body /\ consistent body.

Lemma mismatched_consistent body :
  existsb (fun block => existsb mismatched (bb_operations block)) (bd_blocks body) = false <-> consistent body.
Proof.
  rewrite <- not_true_iff_false, existsb_exists. setoid_rewrite existsb_exists.
  setoid_rewrite <- list_elem_of_In. unfold consistent, mismatched. split.
  - intros Hn block op callee s rest Hb Ho Hk. destruct (decide (s = callee)) as [|Hne]; [done|].
    destruct Hn. exists block. split; [done|]. exists op. split; [done|]. by rewrite Hk, bool_decide_false.
  - intros Hc (block & Hb & op & Ho & Hm). destruct (op_kind op) as [callee [s|] rest| |] eqn:Hk; try done.
    rewrite (Hc _ _ _ _ _ Hb Ho Hk), bool_decide_true in Hm by done. done.
Qed.

Lemma functions_by_identity_get p id f : bm_get id (functions_by_identity p) = Some f <-> declared p id f.
Proof.
  unfold functions_by_identity, declared.
  by rewrite (bm_get_of_rows (function_identity p) (p_functions p) id).
Qed.

Lemma expand_declaration_ok p id next :
  expand_declaration p id = Ok next <->
  exists f body, executable p id f body /\ next = body_callees body.
Proof.
  unfold expand_declaration, executable. rewrite outcome_bind_ok. split.
  - intros (f & Hf & Hn). destruct (bm_get id _) as [g|] eqn:Hg; [|done]. injection Hf as ->.
    apply functions_by_identity_get in Hg. case_bool_decide; [|done]. cbn [negb] in Hn.
    apply outcome_bind_ok in Hn as (body & Hb & Hn). destruct (fn_body f) as [b|] eqn:Hfb; [|done].
    injection Hb as ->. destruct (existsb _ _) eqn:He in Hn; [done|]. injection Hn as <-.
    apply mismatched_consistent in He. eauto 8.
  - intros (f & body & (Hd & Hg & Hb & Hc%mismatched_consistent) & ->). exists f.
    apply functions_by_identity_get in Hd. rewrite Hd. split; [done|].
    rewrite bool_decide_true by done. cbn [negb]. by rewrite Hb; cbn; rewrite Hc.
Qed.

Lemma expand_declaration_no_panic p id message : expand_declaration p id <> Panic message.
Proof.
  unfold expand_declaration. destruct (bm_get id _) as [f|]; cbn; [|done].
  destruct (negb _); [done|]. destruct (fn_body f); cbn; [|done]. by destruct (existsb _ _).
Qed.

Abbreviation reached p := (reachable Ok (expand_declaration p)).

Lemma reached_declaration_live p roots id : reached p roots id -> program_live p roots id.
Proof.
  intros (k & r & Hk & [= <-] & Hr). exists k. split; [done|]. clear Hk.
  induction Hr as [|a b c (next & k' & He & Hk & [= <-]) _ IH]; [done|].
  apply expand_declaration_ok in He as (f & body & (Hd & _ & Hb & _) & ->).
  eapply rtc_l; [|done]. exists f. split; [done|]. by eapply elem_of_body_callees.
Qed.

Lemma live_declaration_reached p roots id :
  (forall n, reached p roots n -> exists next, expand_declaration p n = Ok next) ->
  program_live p roots id -> reached p roots id.
Proof.
  intros Hex (root & Hroot & Hr).
  assert (reached p roots root) as Hl by (exists root, root; repeat split; [done|constructor]).
  clear Hroot. induction Hr as [|a b c (f & Hd & Hc) _ IH]; [done|]. apply IH.
  destruct (Hex _ Hl) as (next & He). pose proof He as He0.
  apply expand_declaration_ok in He as (g & body & (Hd' & _ & Hb & _) & ->).
  rewrite (declared_unique _ _ _ _ Hd Hd') in Hc.
  eapply reachable_step; [exact Hl|]. exists (body_callees body), b.
  split; [done|]. split; [by eapply elem_of_body_callees|done].
Qed.

Lemma expand_declaration_universe p id next :
  expand_declaration p id = Ok next -> id ∈ bm_keys (functions_by_identity p).
Proof.
  intros (f & body & (Hd & _) & _)%expand_declaration_ok. apply bm_get_keys. exists f.
  by apply functions_by_identity_get.
Qed.

Lemma drain_declarations p roots :
  (exists R, drain Ok (expand_declaration p)
     (enough (expand_declaration p) (bm_keys (functions_by_identity p)) roots) roots [] = Ok R) \/
  (exists e, drain Ok (expand_declaration p)
     (enough (expand_declaration p) (bm_keys (functions_by_identity p)) roots) roots [] = Err e).
Proof.
  apply drain_enough; [|apply expand_declaration_universe|done|apply expand_declaration_no_panic].
  apply ascending_NoDup, bm_of_list_ascending.
Qed.

Lemma drained_live p fuel roots R :
  drain Ok (expand_declaration p) fuel roots [] = Ok R ->
  ascending R /\ (forall id, id ∈ R <-> program_live p roots id) /\
  (forall id, id ∈ R -> exists f body, executable p id f body).
Proof.
  intros HR. split; [by eapply drain_ascending; [constructor|exact HR]|].
  apply drain_exact in HR as (Hex & _ & Hnext).
  assert (Hall : forall n, reached p roots n -> exists next, expand_declaration p n = Ok next).
  { intros n Hn. destruct (Hnext n Hn) as (next & ? & _). eauto. }
  split; [intros id; rewrite Hex; split; [apply reached_declaration_live|by apply live_declaration_reached]|].
  intros id Hid%Hex. destruct (Hall id Hid) as (next & (f & body & ? & _)%expand_declaration_ok). eauto.
Qed.

Definition lowering_roots (exports : list (string * string)) : list SemanticId :=
  map (fun '(module, function) => function_id module function) exports.

(** What a successful run keeps. *)
Record Pruned (p : Program) (exports : list (string * string)) (q : Program) (R : list SemanticId) : Prop := {
  pr_exports : exports <> [];
  pr_errors : program_errors p = None;
  pr_asc : ascending R;
  pr_live : forall id, id ∈ R <-> program_live p (lowering_roots exports) id;
  pr_body : forall id, id ∈ R -> exists f body, executable p id f body;
  pr_program : q = mkProgram (p_module p) (p_dependencies p) (map (keep_body p R) (p_functions p))
    (p_record_types p) (p_finite_types p) (p_generic_specializations p) (p_assumptions p) (p_rest p)
}.

Lemma lowering_program_pruned p exports q :
  application_lowering_program p exports = Ok q -> exists R, Pruned p exports q R.
Proof.
  unfold application_lowering_program. case_bool_decide as Hx; [done|].
  destruct (program_errors p) eqn:He; [done|]. intros Hq.
  apply outcome_bind_ok in Hq as (R & HR & [= <-]). exists R.
  apply drained_live in HR as (? & ? & ?). by split.
Qed.

(** *** Pruning again *)

Section Again.
Context p exports q R (HP : Pruned p exports q R).

Lemma keep_body_identity f : function_identity q (keep_body p R f) = function_identity p f.
Proof.
  rewrite (pr_program _ _ _ _ HP). unfold keep_body, function_identity at 1; cbn.
  destruct (bs_mem _ _); cbn; [done|]. by rewrite identity_namespace_declared.
Qed.

Lemma declared_kept id f : id ∈ R -> declared q id f <-> declared p id f.
Proof.
  intros Hid. unfold declared.
  assert (Hfun : p_functions q = map (keep_body p R) (p_functions p)) by (by rewrite (pr_program _ _ _ _ HP)).
  rewrite Hfun.
  enough (filter (fun f => function_identity q f = id) (map (keep_body p R) (p_functions p))
    = filter (fun f => function_identity p f = id) (p_functions p)) as -> by done.
  clear Hfun. induction (p_functions p) as [|g l IH]; [done|]. cbn [map]. rewrite !filter_cons, IH.
  pose proof (keep_body_identity g) as Hg. destruct (decide (function_identity p g = id)) as [Hi|Hi].
  - rewrite decide_True by (by rewrite Hg). f_equal. unfold keep_body.
    rewrite Hi. by rewrite (proj2 (bs_mem_spec id R) Hid).
  - by rewrite decide_False by (by rewrite Hg).
Qed.

Lemma live_again id : program_live q (lowering_roots exports) id <-> program_live p (lowering_roots exports) id.
Proof.
  pose proof (pr_live _ _ _ _ HP) as Hl.
  split; intros (root & Hroot & Hr); exists root; (split; [done|]).
  all: pose proof (program_live_root p _ _ Hroot) as Hlive; clear Hroot.
  all: induction Hr as [|a b c (f & Hd & Hc) _ IH]; [done|].
  all: assert (a ∈ R) as Ha by (by apply Hl).
  all: assert (program_calls p a b) as Hab
    by (exists f; split; [first [done|by apply (declared_kept a f Ha)]|done]).
  all: eapply rtc_l; [|apply IH; by eapply program_live_step]; [].
  - done.
  - exists f. split; [by apply (declared_kept a f Ha)|done].
Qed.

Lemma expand_again id : id ∈ R -> exists next, expand_declaration q id = Ok next.
Proof.
  intros Hid. destruct (pr_body _ _ _ _ HP id Hid) as (f & body & Hd & Hg & Hb & Hc).
  exists (body_callees body). apply expand_declaration_ok. exists f, body.
  split; [|done]. split; [by apply (declared_kept id f Hid)|done].
Qed.

Lemma keep_body_again : map (keep_body q R) (p_functions q) = p_functions q.
Proof.
  assert (Hfun : p_functions q = map (keep_body p R) (p_functions p)) by (by rewrite (pr_program _ _ _ _ HP)).
  rewrite Hfun, map_map. apply map_ext. intros f. unfold keep_body at 1. rewrite keep_body_identity.
  unfold keep_body. by destruct (bs_mem _ _).
Qed.

Lemma lowering_again : program_errors q = None -> application_lowering_program q exports = Ok q.
Proof.
  intros Hq. unfold application_lowering_program. rewrite bool_decide_false by (apply HP). rewrite Hq.
  fold (lowering_roots exports).
  destruct (drain_declarations q (lowering_roots exports)) as [[R' HR]|[e He]].
  - rewrite HR. cbn [mbind outcome_bind]. apply drained_live in HR as (Ha & Hl & _).
    assert (R' = R) as ->.
    { apply ascending_ext; [done|apply HP|]. intros id. by rewrite Hl, live_again, (pr_live _ _ _ _ HP). }
    rewrite keep_body_again. by destruct q.
  - exfalso. apply (drain_err _ _ _ (lowering_roots exports)) in He as [(k & _ & He)|(n & Hn & He)];
      [done| |by left].
    apply reached_declaration_live, live_again, (pr_live _ _ _ _ HP) in Hn.
    destruct (expand_again n Hn) as (next & Hx). congruence.
Qed.
End Again.
End Spec.

(** C9: the lowering program is the program with the bodies pruned.  Every
    declaration, specialization record and other table stays, in place; a
    function keeps its body exactly when the selected exports reach it through
    calls and iteration callees; and everything they reach is declared, is not
    a generic template, has a body, and calls specializations by their own
    identity. *)
Theorem lowering_program_exact `{ModelCrate, ProgramCrate} p exports q :
  application_lowering_program p exports = Ok q ->
  (p_module q, p_dependencies q, p_record_types q, p_finite_types q) =
    (p_module p, p_dependencies p, p_record_types p, p_finite_types p) /\
  (p_assumptions q, p_rest q) = (p_assumptions p, p_rest p) /\
  p_generic_specializations q = p_generic_specializations p /\
  Forall2 (fun f f' =>
    (program_live p (lowering_roots exports) (function_identity p f) -> f' = f) /\
    (~ program_live p (lowering_roots exports) (function_identity p f) -> f' = clear_body f))
    (p_functions p) (p_functions q) /\
  (forall id, program_live p (lowering_roots exports) id -> exists f body, executable p id f body).
Proof.
  intros [R HP]%lowering_program_pruned. pose proof (pr_live _ _ _ _ HP) as Hl.
  rewrite (pr_program _ _ _ _ HP). cbn. repeat split; [|intros id Hid%Hl; by eapply pr_body].
  apply Forall2_fmap_r, Forall_Forall2_diag, Forall_forall. intros f _. unfold keep_body. split; intros Hf.
  - by rewrite (proj2 (bs_mem_spec _ _) (proj2 (Hl _) Hf)).
  - destruct (bs_mem _ _) eqn:E; [|done]. by apply bs_mem_spec, Hl in E.
Qed.

(** Pruning always returns: a program or an error, whatever the call graph
    and however many declarations share an identity. *)
Theorem lowering_program_total `{ModelCrate, ProgramCrate} p exports :
  (exists q, application_lowering_program p exports = Ok q) \/
  (exists e, application_lowering_program p exports = Err e).
Proof.
  unfold application_lowering_program. case_bool_decide; [by eauto|].
  destruct (program_errors p); [by eauto|].
  match goal with |- context [drain _ _ (enough _ _ ?roots) ?roots []] =>
    destruct (drain_declarations p roots) as [[R ->]|[e ->]] end; by eauto.
Qed.

(** Pruning is idempotent: pruning the lowering program for the same
    exports, if it still validates, gives it back. *)
Theorem lowering_program_idempotent `{ModelCrate, ProgramCrate} p exports q :
  application_lowering_program p exports = Ok q -> program_errors q = None ->
  application_lowering_program q exports = Ok q.
Proof. intros [R HP]%lowering_program_pruned. by apply (lowering_again p exports q R). Qed.

(** ** Selected exports *)

(** [e] is the function a specialization record of the generic [seed] names. *)
Definition specialization_of `{ModelCrate, ProgramCrate} (p : Program) (seed e : string * string) : Prop :=
  exists record f, record ∈ p_generic_specializations p /\
    gs_generic_function record = function_id seed.1 seed.2 /\
    find_function p (gs_specialization_function record) = Some f /\ e = qualified p f.

Lemma elem_of_select_generic `{ModelCrate, ProgramCrate} p selected seed e :
  e ∈ select_generic p selected seed <-> specialization_of p seed e \/ (e <> seed /\ e ∈ selected).
Proof.
  unfold select_generic, specialization_of.
  rewrite (elem_of_fold_adds _ (fun record e => exists f,
    gs_generic_function record = function_id seed.1 seed.2 /\
    find_function p (gs_specialization_function record) = Some f /\ e = qualified p f)).
  - rewrite elem_of_bs_remove. naive_solver.
  - intros acc record y _. unfold select_specialization. case_bool_decide as Hid; [|naive_solver].
    destruct (find_function _ _) as [f|]; [rewrite elem_of_bs_add|]; naive_solver.
Qed.

(** The selected exports are the callable roots that are not generic seeds,
    and every concrete specialization of a seed - where no seed is itself the
    specialization of one. *)
Theorem selected_exports_exact `{ModelCrate, ProgramCrate} p callable_roots generic_seeds exports :
  application_selected_exports p callable_roots generic_seeds = Ok exports ->
  (forall seed seed', seed ∈ generic_seeds -> seed' ∈ generic_seeds -> ~ specialization_of p seed seed') ->
  forall e, e ∈ exports <->
    (e ∈ callable_roots /\ e ∉ generic_seeds) \/
    (exists seed, seed ∈ generic_seeds /\ specialization_of p seed e).
Proof.
  unfold application_selected_exports. case_bool_decide; [done|]. intros [= <-].
  induction generic_seeds as [|s l IH] using rev_ind; intros Hns e.
  - cbn. split; [left; split; [done|apply not_elem_of_nil]|]. by intros [[? _]|(? & ?%elem_of_nil & _)].
  - rewrite fold_left_app. cbn. rewrite elem_of_select_generic, IH.
    + setoid_rewrite elem_of_app. setoid_rewrite list_elem_of_singleton. split; [naive_solver|].
      intros [[Hr Hn]|(seed & [Hin| ->] & Hsp)]; [right; naive_solver| |by left].
      right. split; [|right; by exists seed]. intros ->.
      apply (Hns seed s); [apply elem_of_app; by left|apply elem_of_app; right; by left|done].
    + intros seed seed' ? ?. apply Hns; apply elem_of_app; by left.
Qed.

(** ** A program to apply them at *)

#[export] Program Instance reference_program_crate : ProgramCrate := {|
  identity_namespace := fun f module => if bool_decide (fn_rest f = ""%string) then module else fn_rest f;
  program_errors := fun _ => None
|}.
Next Obligation. done. Qed.

Section Sample.
Local Open Scope string_scope.
Local Open Scope list_scope.

Definition calling (targets : list string) : option Body :=
  Some (mkBody [] [mkBodyBlock [] (map (fun t => mkOperation (OpCall t (Some t) "") [] "") targets) ""] [] "").

(** [main] calls a specialization of [lib::id], which calls [lib::inner];
    [unused] is not called. *)
Definition sample_program : Program := {|
  p_module := "app";
  p_dependencies := [];
  p_functions := [
    mkDeclaration "main" [] [] [] (calling ["lib::id_i32"]) "";
    mkDeclaration "unused" [] [] [] (calling []) "";
    mkDeclaration "id" ["T"] [] [] (calling []) "lib";
    mkDeclaration "id_i32" [] [] [] (calling ["lib::inner"]) "lib";
    mkDeclaration "inner" [] [] [] (calling ["lib::inner"]) "lib"];
  p_record_types := [];
  p_finite_types := [];
  p_generic_specializations := [mkSpecialization "lib::id" "lib::id_i32" "i32" [["i32"]] [] ""];
  p_assumptions := "";
  p_rest := "" |}.

Definition sample_exports : list (string * string) := [("app", "main"); ("lib", "id_i32")].
Definition sample_lowered : Program :=
  Eval vm_compute in
    match application_lowering_program sample_program sample_exports with Ok q => q | _ => sample_program end.

Lemma sample_lowered_ok : application_lowering_program sample_program sample_exports = Ok sample_lowered.
Proof. vm_compute. reflexivity. Qed.

Lemma lowering_program_exact_witness :
  map (fun f => bool_decide (is_Some (fn_body f))) (p_functions sample_lowered) = [true; false; false; true; true] /\
  exists f body, executable sample_program "lib::inner" f body.
Proof.
  split; [vm_compute; reflexivity|].
  destruct (lowering_program_exact sample_program sample_exports sample_lowered sample_lowered_ok)
    as (_ & _ & _ & _ & Hex).
  apply Hex. exists "lib::id_i32". split; [right; left|]. eapply rtc_l; [|constructor].
  exists (mkDeclaration "id_i32" [] [] [] (calling ["lib::inner"]) "lib"). split; [vm_compute; reflexivity|].
  eexists. split; [reflexivity|]. left.
  eexists (mkBodyBlock _ _ _), (mkOperation _ _ _), _, _. split; [left|]. split; [left|reflexivity].
Defined.

Lemma lowering_program_idempotent_witness :
  application_lowering_program sample_lowered sample_exports = Ok sample_lowered.
Proof.
  exact (lowering_program_idempotent sample_program sample_exports sample_lowered sample_lowered_ok eq_refl).
Defined.

Lemma selected_exports_exact_witness :
  ("lib", "id_i32") ∈ [("app", "main"); ("lib", "id_i32")].
Proof.
  apply (selected_exports_exact sample_program [("app", "main"); ("lib", "id")] [("lib", "id")]).
  - vm_compute. reflexivity.
  - intros seed seed' ->%list_elem_of_singleton ->%list_elem_of_singleton (record & f & Hr & _ & Hf & He).
    apply list_elem_of_singleton in Hr as ->. vm_compute in Hf. injection Hf as <-. discriminate He.
  - right. exists ("lib", "id"). split; [left|].
    exists (mkSpecialization "lib::id" "lib::id_i32" "i32" [["i32"]] [] ""),
      (mkDeclaration "id_i32" [] [] [] (calling ["lib::inner"]) "lib").
    split; [left|]. split; [reflexivity|]. split; [vm_compute; reflexivity|reflexivity].
Defined.
End Sample.
