(* ===== verification/Emission.v ===== *)
(** Emission of a sealed VM artifact: [tools/vm_emit.rs], from
    [emit_vm_artifact_scoped_with_ssa_facts] to the end.  Definitions only.

    The language compiler, its verification facts, the code generator's
    interface tables and the JSON writer are members of [Toolchain]; the
    artifact's structs have the source's fields in the source's order. *)

From S2P Require Export SeqCopy SsaClosure AppProgram Text CodecGraph.

(** An order pulled back along an injection, as [derive(Ord)] builds one. *)
Definition ord_by {A B} `{RustOrd B} (f : A -> B) (inj : forall x y, f x = f y -> x = y) : RustOrd A.
Proof.
  refine {| ord_cmp := fun x y => ord_cmp (f x) (f y) |}.
  - intros x y. rewrite ord_cmp_eq. split; [apply inj|by intros ->].
  - intros x y. apply ord_cmp_antisym.
  - intros x y z. apply ord_cmp_trans.
Defined.

(** ** The artifact *)

(** [mncs_model::BackendCallableBinding]. *)
Record BackendCallableBinding : Type := mkBinding {
  cb_module : string; cb_function : string; cb_test_case_identity : option string; cb_rest : string
}.

Record CallableEntry : Type := mkCallable {
  ce_module : string; ce_name : string; ce_function : string;
  ce_semantic : option string; ce_test_binding : option BackendCallableBinding
}.

Record GenericEntrypoint : Type := mkEntrypoint {
  ge_generic_module : string; ge_generic_function : string; ge_args_spellings : list string;
  ge_canonical_args : string; ge_function : string
}.

Record ArtifactSource : Type := mkSource {
  as_backend_name : string; as_backend_version : string;
  as_selected_ssa_identity : string; as_selected_ssa_fingerprint : string;
  as_target : string; as_lowering_refs : list string; as_interface_identity : option string
}.

Record CodeSection `{SerdeNumber} : Type := mkCode { cs_ssa_schema : string; cs_module : Graph }.

Record BoundDecl : Type := mkBound { bd_dimension : string; bd_limit : Z }.
Record ArtifactRequirements : Type := mkRequirements {
  rq_capabilities : list string; rq_bounds : list BoundDecl; rq_vm_contract : string
}.

Record VmArtifact `{SerdeNumber} : Type := mkArtifact {
  va_schema_version : string; va_artifact_id : string; va_source : ArtifactSource;
  va_callables : list CallableEntry; va_generic_entrypoints : list GenericEntrypoint;
  va_code : CodeSection; va_requirements : ArtifactRequirements; va_exports : list string;
  va_assumptions : list string; va_unsupported : list string
}.

Arguments mkCode {_} cs_ssa_schema cs_module.
Arguments mkArtifact {_} va_schema_version va_artifact_id va_source va_callables va_generic_entrypoints
  va_code va_requirements va_exports va_assumptions va_unsupported.

Record CapabilityDispatchBinding : Type := mkDispatch {
  db_capability_identity : string; db_runtime_capability_key : string; db_runtime_key_kind : string;
  db_operation : string; db_function_identity : string; db_instruction_identity : string;
  db_source_operation_identity : option string
}.

Definition dispatch_key (b : CapabilityDispatchBinding) :=
  (db_capability_identity b, (db_runtime_capability_key b, (db_runtime_key_kind b, (db_operation b,
    (db_function_identity b, (db_instruction_identity b, db_source_operation_identity b)))))).
Lemma dispatch_key_inj x y : dispatch_key x = dispatch_key y -> x = y.
Proof. destruct x, y. cbn. by intros [= -> -> -> -> -> -> ->]. Qed.
#[export] Instance dispatch_ord : RustOrd CapabilityDispatchBinding := ord_by dispatch_key dispatch_key_inj.

(** ** The compiler's side *)

Record ArtifactRef : Type := mkRef { rf_representation : string; rf_identity : string; rf_fingerprint : string }.
Record CompilationResult : Type := mkResult {
  cr_failed : bool; cr_diagnostics : string; cr_ssa : option SsaModule;
  cr_artifacts : list ArtifactRef; cr_identity : string
}.
Record SsaFunctionFactWork : Type := mkWork { fw_facts : list string; fw_rest : string }.

(** [mncs_compiler::ExecutionSourceMap]. *)
Record ExecutionSourceOperation : Type := mkSourceOperation {
  so_identity : SemanticId; so_function_identity : SemanticId; so_block_identity : SemanticId;
  so_source_span : option string; so_synthetic : bool; so_correspondence : string
}.
Record ExecutionSourceBlock : Type := mkSourceBlock {
  sb_identity : SemanticId; sb_function_identity : SemanticId; sb_source_span : option string
}.
Record ExecutionSourceMap : Type := mkSourceMap {
  sm_identity : string; sm_functions : list SemanticId; sm_blocks : list ExecutionSourceBlock;
  sm_operations : list ExecutionSourceOperation; sm_rest : string
}.

Class Toolchain `{SerdeNumber} := {
  (** [ReferenceCompiler::compile_with_ssa_facts] on the SSA request *)
  compile_with_ssa_facts : Program -> list string -> CompilationResult * option SsaFunctionFactWork;
  (** the errors of [SsaModule::validate_lowering_boundary_with_verified_facts] *)
  boundary_errors : Program -> list string -> SsaModule -> option string;
  schema_version : SsaModule -> string;
  (** the derived [Serialize] of [SsaModule] and of the artifact *)
  ssa_serialize : SsaModule -> Ser;
  artifact_to_vec : VmArtifact -> string;
  language_owned_callable_bindings : Program -> list BackendCallableBinding;
  language_owned_interface_identity : Program -> string;
  source_map_fingerprint : ExecutionSourceMap -> string;
  source_map_identity_is_valid : ExecutionSourceMap -> bool;
  (** [serde_json::to_value] of [TargetContractRef::new] on its four arguments *)
  target_contract_json : string -> list (string * string) -> list SemanticId -> list string -> string;
  CARGO_PKG_VERSION : string;
  (** [mncs-language.lock.json], where it can be read and parsed: its
      [revision] and [source_profile], where they are strings *)
  lock_file : option (option string * option string);
  (** [.bootstrap/revision], where it can be read *)
  revision_file : option string
}.

Section Emission.
Context `{ModelCrate, ProgramCrate, SerdeNumber} `{!NodeHasher} `{!Toolchain}.
Local Open Scope string_scope.
Local Open Scope list_scope.

Definition VM_ARTIFACT_SCHEMA_VERSION : string := "mncs.vm.artifact/1".
Definition VM_CONTRACT : string := "mncs.vm/0.1".
Definition DIRECT_BACKEND_NAME : string := "mncs-vm-direct".

Definition artifact_id_of (bytes : string) : string := "sha256:" +:+ sha256_hex bytes.

(** A [BTreeMap] literal is sorted by its keys. *)
Definition VM_TARGET_CANDIDATE : string := "mncs:target:mncs-vm-0.1".
Definition vm_target_contract : string :=
  target_contract_json VM_TARGET_CANDIDATE
    (bm_of_list [("serialization", "canonical JSON artifact");
                 ("integer", "MNCS SSA integer semantics");
                 ("failure", "MNCS SSA explicit failure semantics");
                 ("runtime", "mncs-vm reference engine");
                 ("bounded-iteration", "preserve language-owned bounded iteration regions and backedges")])
    ["mncs:target-evidence:mncs-vm-0.1:declared-vm-contract"]
    ["mncs-vm executes selected SSA under VM-owned runtime rules"].

Definition stage0_provenance_refs : list string :=
  match lock_file with
  | Some (revision, profile) =>
      match revision with Some revision => ["stage0-lock:" +:+ revision] | None => [] end
      ++ match profile with Some profile => ["stage0-profile:" +:+ profile] | None => [] end
  | None => []
  end
  ++ match revision_file with
     | Some raw => if String.eqb (trim raw) "" then [] else ["stage0-provisioned:" +:+ trim raw]
     | None => []
     end.

(** ** Callables *)

(** The SSA identities of the functions with the semantic identity [id]. *)
Definition candidates (ssa : SsaModule) (id : SemanticId) : list SemanticId :=
  omap (fun f => if bool_decide (f_semantic_identity f = id) then Some (f_identity f) else None)
    (m_functions ssa).

Definition resolve_callable (ssa : SsaModule) (namespace name : string)
  : Outcome string (option CallableEntry) :=
  match candidates ssa (function_id namespace name) with
  | [function] => Ok (Some (mkCallable namespace name function None None))
  | [] => Ok None
  | _ => Panic ("callable " +:+ namespace +:+ "::" +:+ name +:+ " is ambiguous across ssa functions")
  end.

Abbreviation GenericRow := (string * string * list string * string * string * string)%type.

Definition record_rows (p : Program) (record : GenericSpecialization) : list GenericRow :=
  match gs_host_spellings record with
  | [] => []
  | _ =>
      match find_function p (gs_generic_function record),
            find_function p (gs_specialization_function record) with
      | Some generic, Some specialization =>
          map (fun spellings =>
            (identity_namespace generic (p_module p), fn_name generic, spellings,
             gs_canonical_args record,
             identity_namespace specialization (p_module p), fn_name specialization))
            (gs_host_spellings record)
      | _, _ => []
      end
  end.

Definition generic_entrypoint_rows (p : Program) : list GenericRow :=
  flat_map (record_rows p) (p_generic_specializations p).

Definition resolve_generic_entry (ssa : SsaModule) (row : GenericRow)
  : Outcome string (option GenericEntrypoint) :=
  let '(generic_module, generic_function, spellings, canonical_args, entry_module, entry_function) := row in
  match candidates ssa (function_id entry_module entry_function) with
  | [function] => Ok (Some (mkEntrypoint generic_module generic_function spellings canonical_args function))
  | [] => Ok None
  | _ => Panic ("generic " +:+ generic_module +:+ "::" +:+ generic_function +:+ " entry " +:+ entry_module
           +:+ "::" +:+ entry_function +:+ " is ambiguous across ssa instances")
  end.

Definition export_missing (namespace name : string) : string :=
  "export " +:+ namespace +:+ "::" +:+ name +:+ ": no ssa instance".
Definition generic_missing (row : GenericRow) : string :=
  let '(generic_module, generic_function, spellings, _, _, _) := row in
  "generic " +:+ generic_module +:+ "::" +:+ generic_function +:+ "(" +:+ String.concat ", " spellings
    +:+ "): no ssa instance".

(** [Option::is_none_or] on a selected set. *)
Definition selects (selected : option (list (string * string))) (pair : string * string) : bool :=
  match selected with None => true | Some set => bs_mem pair set end.

(** What no selection asked for and the module has no instance of. *)
Definition unselected_exports (p : Program) (ssa : SsaModule) (selected : option (list (string * string)))
  : Outcome string (list string) :=
  match selected with
  | None => Ok []
  | Some set =>
      (@concat string) <$> map_outcome (fun f =>
        if bs_mem (qualified p f) set then Ok []
        else
          entry ← resolve_callable ssa (identity_namespace f (p_module p)) (fn_name f);
          Ok match entry with
             | Some _ => []
             | None => [export_missing (identity_namespace f (p_module p)) (fn_name f)]
             end) (p_functions p)
  end.

Definition row_base (row : GenericRow) : string * string :=
  let '(generic_module, generic_function, _, _, _, _) := row in (generic_module, generic_function).

Definition unselected_generics (rows : list GenericRow) (ssa : SsaModule)
  (selected : option (list (string * string))) : Outcome string (list string) :=
  match selected with
  | None => Ok []
  | Some set =>
      (@concat string) <$> map_outcome (fun row =>
        if bs_mem (row_base row) set then Ok []
        else
          entry ← resolve_generic_entry ssa row;
          Ok match entry with Some _ => [] | None => [generic_missing row] end) rows
  end.

(** A selected function becomes a callable or an unsupported row. *)
Definition callable_row (p : Program) (ssa : SsaModule)
  (test_bindings : list (string * string * BackendCallableBinding)) (f : Function)
  : Outcome string (CallableEntry + string) :=
  entry ← resolve_callable ssa (identity_namespace f (p_module p)) (fn_name f);
  Ok match entry with
     | Some entry => inl (mkCallable (ce_module entry) (ce_name entry) (ce_function entry)
         (ce_semantic entry) (bm_get (qualified p f) test_bindings))
     | None => inr (export_missing (identity_namespace f (p_module p)) (fn_name f))
     end.

Definition generic_row (ssa : SsaModule) (row : GenericRow) : Outcome string (GenericEntrypoint + string) :=
  entry ← resolve_generic_entry ssa row;
  Ok match entry with Some entry => inl entry | None => inr (generic_missing row) end.

Definition lefts {A B} (l : list (A + B)) : list A := omap (fun x => match x with inl a => Some a | inr _ => None end) l.
Definition rights {A B} (l : list (A + B)) : list B := omap (fun x => match x with inl _ => None | inr b => Some b end) l.

Definition entrypoint_key (e : GenericEntrypoint) :=
  (ge_generic_module e, (ge_generic_function e, (ge_args_spellings e, (ge_canonical_args e, ge_function e)))).
Definition entrypoint_leb (left right : GenericEntrypoint) : bool :=
  ord_leb (entrypoint_key left) (entrypoint_key right).

(** ** Capabilities *)

Definition instruction_capabilities (i : SsaInstruction) : list string :=
  map cu_capability (i_capability_uses i)
  ++ match i_kind i with Call _ required_capabilities _ => required_capabilities | _ => [] end.

Definition module_instructions (ssa : SsaModule) : list (SsaFunction * SsaInstruction) :=
  flat_map (fun f => flat_map (fun b => map (fun i => (f, i)) (b_instructions b)) (f_blocks f)) (m_functions ssa).

Definition required_capabilities (ssa : SsaModule) : list string :=
  fold_left (fun set row => bs_extend set (instruction_capabilities row.2)) (module_instructions ssa) [].

Definition dispatch (f : SsaFunction) (i : SsaInstruction) (capability key kind operation : string)
  : CapabilityDispatchBinding :=
  mkDispatch capability key kind operation (f_semantic_identity f) (i_identity i) (i_semantic_identity i).

Definition instruction_bindings (f : SsaFunction) (i : SsaInstruction)
  : Outcome string (list CapabilityDispatchBinding) :=
  match i_kind i with
  | HostCall capability operation =>
      match i_capability_uses i with
      | [usage] => Ok [dispatch f i (cu_capability usage) capability "source-alias" operation]
      | uses => Err ("HostCall " +:+ i_identity i +:+ " has " +:+ pretty (length uses)
                  +:+ " canonical capability uses; expected exactly one")
      end
  | Call _ required_capabilities _ =>
      Ok (map (fun identity => dispatch f i identity identity "canonical-identity" "call-admission")
            required_capabilities)
  | kind =>
      let operation :=
        match kind, i_effects i with
        | Effect, effect :: _ => "effect:" +:+ effect
        | Effect, [] => "effect"
        | _, _ => "instruction-capability"
        end in
      Ok (map (fun usage => dispatch f i (cu_capability usage) (cu_capability usage)
                 "canonical-identity" operation) (i_capability_uses i))
  end.

Definition capability_dispatch_bindings (ssa : SsaModule) : Outcome string (list CapabilityDispatchBinding) :=
  fold_outcome (fun bindings row =>
      added ← instruction_bindings row.1 row.2;
      Ok (bs_extend bindings added)) [] (module_instructions ssa).

(** ** Source map *)

Definition source_operations (original : list (SemanticId * ExecutionSourceOperation))
  (f : SsaFunction) (b : SsaBlock) (i : SsaInstruction) : list ExecutionSourceOperation :=
  match i_semantic_identity i ≫= fun id => bm_get id original with
  | Some origin => [mkSourceOperation (i_identity i) (f_semantic_identity f) (b_identity b)
      (so_source_span origin) (so_synthetic origin) ("selected-ssa-from:" +:+ so_identity origin)]
  | None => []
  end.

Definition extend_source_map (ssa : SsaModule) (map_ : ExecutionSourceMap) : Outcome string ExecutionSourceMap :=
  let original := bm_of_list (map (fun row => (so_identity row, row)) (sm_operations map_)) in
  let mapped := List.filter (fun f => bs_mem (f_semantic_identity f) (bs_of_list (sm_functions map_))) (m_functions ssa) in
  let blocks := flat_map (fun f => map (fun b =>
    mkSourceBlock (b_identity b) (f_semantic_identity f) None) (f_blocks f)) mapped in
  let operations := flat_map (fun f => flat_map (fun b =>
    flat_map (source_operations original f b) (b_instructions b)) (f_blocks f)) mapped in
  let extended := mkSourceMap (sm_identity map_) (sm_functions map_) (sm_blocks map_ ++ blocks)
    (sm_operations map_ ++ operations) (sm_rest map_) in
  let identified := mkSourceMap ("mncs:compiler:execution-source-map:" +:+ source_map_fingerprint extended)
    (sm_functions extended) (sm_blocks extended) (sm_operations extended) (sm_rest extended) in
  if source_map_identity_is_valid identified then Ok identified
  else Panic "assertion failed: map.identity_is_valid()".

(** ** Emission *)

Definition map_err (context : string) {A} (o : Outcome string A) : Outcome string A :=
  match o with Err e => Err (context +:+ e) | _ => o end.

(** [(count > 0).then(|| ssa.fingerprint()).transpose()]. *)
Definition fingerprint_if (changed : bool) (context : string) (ssa : SsaModule) : Outcome string (option string) :=
  if changed then Some <$> map_err context (fingerprint ssa) else Ok None.

(** [Result::expect]. *)
Definition expect_ok {A} (message : string) (o : Outcome string A) : Outcome string A :=
  match o with Err _ => Panic message | _ => o end.

(** [format!("{label}:{value}")] of the identities that are present. *)
Definition labelled (label : string) (value : option string) : list string :=
  match value with Some value => [label +:+ ":" +:+ value] | None => [] end.

Record Emitted : Type := mkEmitted {
  em_artifact : VmArtifact; em_source_map : option ExecutionSourceMap;
  em_unselected_unresolved : list string; em_capability_bindings : list CapabilityDispatchBinding;
  em_ssa_fact_work : option SsaFunctionFactWork
}.

(** The module the artifact carries: closed over the selection, then lowered for
    the VM; with the fingerprints of the stages that ran. *)
Definition execution_module (lowering_program : Program) (facts : list string)
  (selected_exports : option (list (string * string))) (ssa : SsaModule)
  : Outcome string (SsaModule * list string) :=
  closed ← match selected_exports with
           | Some roots => application_ssa_closure (boundary_errors lowering_program facts) ssa roots
           | None => Ok ssa
           end;
  closure_fingerprint ← fingerprint_if (bool_decide (is_Some selected_exports))
    "projected application SSA fingerprint failed: " closed;
  '(lowered1, n1) ← lower_vm_static_sequence_copies closed;
  static_fingerprint ← fingerprint_if (Nat.ltb 0 n1)
    "VM-lowered application SSA fingerprint failed: " lowered1;
  '(lowered2, n2) ← lower_vm_runtime_checked_sequence_copies lowered1;
  runtime_fingerprint ← fingerprint_if (Nat.ltb 0 n2)
    "runtime-checked VM-lowered application SSA fingerprint failed: " lowered2;
  '(lowered3, n3) ← lower_vm_runtime_checked_dynamic_offset_sequence_copies lowered2;
  dynamic_fingerprint ← fingerprint_if (Nat.ltb 0 n3)
    "dynamic-offset VM-lowered application SSA fingerprint failed: " lowered3;
  Ok (lowered3,
      labelled "application-ssa-closure/1" closure_fingerprint
      ++ labelled "vm-static-exact-sequence-copy-lowering/2" static_fingerprint
      ++ labelled "vm-runtime-checked-sequence-copy-lowering/1" runtime_fingerprint
      ++ labelled "vm-runtime-checked-sequence-copy-dynamic-offset-lowering/1" dynamic_fingerprint).

(** [artifact_id = artifact_id_of(to_vec(artifact with an empty id))]. *)
Definition seal_artifact (artifact : VmArtifact) : VmArtifact :=
  mkArtifact (va_schema_version artifact) (artifact_id_of (artifact_to_vec artifact)) (va_source artifact)
    (va_callables artifact) (va_generic_entrypoints artifact) (va_code artifact) (va_requirements artifact)
    (va_exports artifact) (va_assumptions artifact) (va_unsupported artifact).

(** The callable and generic rows, resolved in the module the artifact will carry. *)
Definition artifact_rows (p : Program)
  (selected_exports selected_generic_bases : option (list (string * string))) (execution_ssa : SsaModule)
  : Outcome string (list (CallableEntry + string) * list (GenericEntrypoint + string)) :=
  let test_bindings := bm_of_list (map (fun row => ((cb_module row, cb_function row), row))
    (List.filter (fun row => bool_decide (is_Some (cb_test_case_identity row)))
      (language_owned_callable_bindings p))) in
  callable_rows ← map_outcome (callable_row p execution_ssa test_bindings)
    (List.filter (fun f => selects selected_exports (qualified p f)) (p_functions p));
  generic_rows ← map_outcome (generic_row execution_ssa)
    (List.filter (fun row => selects selected_generic_bases (row_base row)) (generic_entrypoint_rows p));
  Ok (callable_rows, generic_rows).

Definition build_artifact (p : Program) (producer : option string) (source_map : option ExecutionSourceMap)
  (selected_exports : option (list (string * string))) (result_identity : string)
  (selected : ArtifactRef) (stages : list string)
  (callable_rows : list (CallableEntry + string)) (generic_rows : list (GenericEntrypoint + string))
  (execution_ssa : SsaModule) : Outcome string VmArtifact :=
  module ← expect_ok "selected application SSA freezes" (encode (ssa_serialize execution_ssa));
  Ok {| va_schema_version := VM_ARTIFACT_SCHEMA_VERSION;
        va_artifact_id := "";
        va_source := {|
          as_backend_name := DIRECT_BACKEND_NAME;
          as_backend_version := CARGO_PKG_VERSION;
          as_selected_ssa_identity := rf_identity selected;
          as_selected_ssa_fingerprint := rf_fingerprint selected;
          as_target := vm_target_contract;
          as_lowering_refs := [result_identity; rf_identity selected] ++ stage0_provenance_refs
            ++ labelled "compiler-producer" producer
            ++ labelled "source-map" (sm_identity <$> source_map) ++ stages;
          as_interface_identity := Some (language_owned_interface_identity p) |};
        va_callables := lefts callable_rows;
        va_generic_entrypoints := sort_by entrypoint_leb (lefts generic_rows);
        va_code := {| cs_ssa_schema := schema_version execution_ssa; cs_module := module |};
        va_requirements := {|
          rq_capabilities := required_capabilities execution_ssa;
          rq_bounds := []; rq_vm_contract := VM_CONTRACT |};
        va_exports := map fn_name (List.filter (fun f => selects selected_exports (qualified p f)) (p_functions p));
        va_assumptions := [];
        va_unsupported := rights callable_rows ++ rights generic_rows |}.

Definition emit_vm_artifact_scoped_with_ssa_facts (p : Program) (producer : option string)
  (source_map : option ExecutionSourceMap)
  (selected_exports selected_generic_bases : option (list (string * string)))
  (prior_ssa_facts : list string)
  (precompiled : option (CompilationResult * option SsaFunctionFactWork)) : Outcome string Emitted :=
  lowering_program ← match selected_exports with
                     | Some selected => application_lowering_program p selected
                     | None => Ok p
                     end;
  let '(result, ssa_fact_work) :=
    default (compile_with_ssa_facts lowering_program prior_ssa_facts) precompiled in
  if cr_failed result
  then Err ("direct vm emission failed for " +:+ p_module lowering_program +:+ ": " +:+ cr_diagnostics result)
  else
  ssa ← expect "ssa emission present" (cr_ssa result);
  if negb (identity_is_valid ssa)
  then Panic ("selected ssa identity is valid for " +:+ p_module p)
  else
  missing_exports ← unselected_exports p ssa selected_exports;
  missing_generics ← unselected_generics (generic_entrypoint_rows p) ssa selected_generic_bases;
  '(execution_ssa, stages) ← execution_module lowering_program
     (match ssa_fact_work with Some work => fw_facts work | None => [] end) selected_exports ssa;
  capability_bindings ← capability_dispatch_bindings execution_ssa;
  selected ← expect "selected ssa ref present"
    (List.find (fun artifact => bool_decide (rf_representation artifact = "SelectedSsa")) (cr_artifacts result));
  '(callable_rows, generic_rows) ← artifact_rows p selected_exports selected_generic_bases execution_ssa;
  source_map ← match source_map with
               | Some map => Some <$> extend_source_map execution_ssa map
               | None => Ok None
               end;
  artifact ← build_artifact p producer source_map selected_exports (cr_identity result) selected stages
    callable_rows generic_rows execution_ssa;
  Ok {| em_artifact := seal_artifact artifact;
        em_source_map := source_map;
        em_unselected_unresolved := dedup (sort_by ord_leb (missing_exports ++ missing_generics));
        em_capability_bindings := capability_bindings;
        em_ssa_fact_work := ssa_fact_work |}.

(** ** Entry points *)

Definition emit_vm_artifact_scoped p producer source_map selected_exports selected_generic_bases
  : Outcome string Emitted :=
  emit_vm_artifact_scoped_with_ssa_facts p producer source_map selected_exports selected_generic_bases [] None.

Definition emit_vm_artifact_with_roots (p : Program) (roots : list (string * string)) : Outcome string VmArtifact :=
  em_artifact <$> emit_vm_artifact_scoped p None None (Some roots) None.

Definition emit_vm_artifact_with_source_map (p : Program) (producer : option string)
  (source_map : option ExecutionSourceMap) : Outcome string (VmArtifact * option ExecutionSourceMap) :=
  (fun e => (em_artifact e, em_source_map e)) <$> emit_vm_artifact_scoped p producer source_map None None.

Definition emit_vm_artifact_with_producer (p : Program) (producer : option string) : Outcome string VmArtifact :=
  fst <$> emit_vm_artifact_with_source_map p producer None.

Definition emit_vm_artifact (p : Program) : Outcome string VmArtifact := emit_vm_artifact_with_producer p None.

(** The two application entry points: with prior facts, and from a compilation
    that was already made. *)
Definition emit_application (p : Program) (producer : option string)
  (callable_roots generic_seed_functions : list (string * string)) (prior_ssa_facts : list string)
  (precompiled : option (CompilationResult * option SsaFunctionFactWork))
  : Outcome string (VmArtifact * list string * list CapabilityDispatchBinding * SsaFunctionFactWork) :=
  selected_exports ← application_selected_exports p callable_roots generic_seed_functions;
  emitted ← emit_vm_artifact_scoped_with_ssa_facts p producer None (Some selected_exports)
    (Some generic_seed_functions) prior_ssa_facts precompiled;
  ssa_fact_work ← ok_or "Language SSA verification produced no complete fact result" (em_ssa_fact_work emitted);
  Ok (em_artifact emitted, em_unselected_unresolved emitted, em_capability_bindings emitted, ssa_fact_work).

Definition emit_vm_application_artifact_for_callables_with_producer_and_ssa_facts
  p producer callable_roots generic_seed_functions prior_ssa_facts :=
  emit_application p producer callable_roots generic_seed_functions prior_ssa_facts None.

Definition emit_vm_application_artifact_for_callables_with_precompiled_ssa
  p producer callable_roots generic_seed_functions (result : CompilationResult) (ssa_fact_work : SsaFunctionFactWork) :=
  emit_application p producer callable_roots generic_seed_functions [] (Some (result, Some ssa_fact_work)).
End Emission.
