(* ===== verification/EmissionTheorems.v ===== *)
(** Correctness of the emitted artifact: its seal, its code section, its rows
    and its capabilities. *)

From S2P Require Export Emission VmSemantics SsaClosureTheorems AppProgramTheorems Codec.

Section Stages.
Context `{ModelCrate, ProgramCrate, SerdeNumber} `{!NodeHasher} `{!Toolchain}.

Lemma fingerprint_if_ok changed context ssa fp :
  fingerprint_if changed context ssa = Ok fp -> changed = bool_decide (is_Some fp).
Proof.
  unfold fingerprint_if. destruct changed; [|by intros [= <-]].
  destruct (map_err _ _); intros [= <-]. by rewrite bool_decide_true by eauto.
Qed.

(** The emitted module is the closure (or the whole module) with its functions
    lowered in place. *)
Lemma execution_module_stages program facts selected ssa out stages :
  execution_module program facts selected ssa = Ok (out, stages) ->
  exists closed,
    match selected with
    | Some roots => application_ssa_closure (boundary_errors program facts) ssa roots = Ok closed
    | None => closed = ssa
    end /\
    (exists counts, lower_sequence_copies closed = Ok (out, counts)) /\
    Forall2 same_function (m_functions closed) (m_functions out).
Proof.
  unfold execution_module. intros He. apply outcome_bind_ok in He as (closed & Hc & He).
  apply outcome_bind_ok in He as (fp0 & _ & He).
  apply outcome_bind_ok in He as ([l1 n1] & HL1 & He). apply outcome_bind_ok in He as (fp1 & _ & He).
  apply outcome_bind_ok in He as ([l2 n2] & HL2 & He). apply outcome_bind_ok in He as (fp2 & _ & He).
  apply outcome_bind_ok in He as ([l3 n3] & HL3 & He). apply outcome_bind_ok in He as (fp3 & _ & [= <- <-]).
  exists closed. split; [by destruct selected; [|injection Hc]|]. split.
  - exists (n1, n2, n3). unfold lower_sequence_copies. rewrite HL1. cbn. rewrite HL2. cbn. by rewrite HL3.
  - apply lower_module_functions in HL1, HL2, HL3.
    etrans; [exact HL1|]. by etrans.
Qed.

(** The module an artifact carries: the lowering program of the selection is
    compiled, unless its compilation was handed in, and its SSA is closed over
    the selection and lowered. *)
Definition emitted_module (p : Program) (exports : option (list (string * string))) (facts : list string)
  (precompiled : option (CompilationResult * option SsaFunctionFactWork)) (m : SsaModule) : Prop :=
  exists program result work ssa stages,
    match exports with Some selected => application_lowering_program p selected = Ok program | None => program = p end /\
    default (compile_with_ssa_facts program facts) precompiled = (result, work) /\
    cr_failed result = false /\ cr_ssa result = Some ssa /\ identity_is_valid ssa = true /\
    execution_module program (match work with Some work => fw_facts work | None => [] end) exports ssa = Ok (m, stages).

(** The steps of a successful emission. *)
Record Emission (p : Program) (exports bases : option (list (string * string))) (facts : list string)
  (precompiled : option (CompilationResult * option SsaFunctionFactWork)) (e : Emitted) (m : SsaModule) : Prop := {
  es_stage : emitted_module p exports facts precompiled m;
  es_bindings : capability_dispatch_bindings m = Ok (em_capability_bindings e);
  es_rows : exists callable_rows generic_rows, artifact_rows p exports bases m = Ok (callable_rows, generic_rows) /\
    va_callables (em_artifact e) = lefts callable_rows /\
    va_generic_entrypoints (em_artifact e) = sort_by entrypoint_leb (lefts generic_rows) /\
    va_unsupported (em_artifact e) = rights callable_rows ++ rights generic_rows;
  es_code : encode (ssa_serialize m) = Ok (cs_module (va_code (em_artifact e)));
  es_capabilities : rq_capabilities (va_requirements (em_artifact e)) = required_capabilities m;
  es_seal : exists unsealed, va_artifact_id unsealed = ""%string /\ em_artifact e = seal_artifact unsealed;
  es_schema : va_schema_version (em_artifact e) = VM_ARTIFACT_SCHEMA_VERSION
}.

Lemma emission_steps p producer source_map exports bases facts precompiled e :
  emit_vm_artifact_scoped_with_ssa_facts p producer source_map exports bases facts precompiled = Ok e ->
  exists m, Emission p exports bases facts precompiled e m.
Proof.
  unfold emit_vm_artifact_scoped_with_ssa_facts. intros He.
  apply outcome_bind_ok in He as (program & Hprogram & He).
  destruct (default _ precompiled) as [result work] eqn:Hcompiled. destruct (cr_failed result) eqn:Hfailed; [done|].
  apply outcome_bind_ok in He as (ssa & Hssa & He). destruct (identity_is_valid ssa) eqn:Hvalid; cbn [negb] in He; [|done].
  apply outcome_bind_ok in He as (me & _ & He). apply outcome_bind_ok in He as (mg & _ & He).
  apply outcome_bind_ok in He as ([m stages] & Hm & He).
  apply outcome_bind_ok in He as (bindings & Hb & He). apply outcome_bind_ok in He as (selected & _ & He).
  apply outcome_bind_ok in He as ([crows grows] & Hr & He). apply outcome_bind_ok in He as (map_ & _ & He).
  apply outcome_bind_ok in He as (artifact & Ha & [= <-]). unfold build_artifact in Ha.
  apply outcome_bind_ok in Ha as (graph & Hg & [= <-]). exists m. split; cbn; eauto 10.
  - exists program, result, work, ssa, stages. split_and!; try done; [destruct exports; [done|by injection Hprogram]|].
    by destruct (cr_ssa result); [injection Hssa as ->|].
  - unfold expect_ok in Hg. by destruct (encode _).
  - eexists. split; [|reflexivity]. done.
Qed.

(** ** Callables *)

Lemma elem_of_candidates ssa id x :
  x ∈ candidates ssa id <-> exists g, g ∈ m_functions ssa /\ f_semantic_identity g = id /\ f_identity g = x.
Proof.
  unfold candidates. rewrite list_elem_of_omap.
  split.
  - intros (g & Hg & Hx). exists g. destruct (bool_decide _) eqn:E; [|done].
    apply bool_decide_eq_true in E. naive_solver.
  - intros (g & Hg & Hs & Hx). exists g. rewrite bool_decide_true by done. naive_solver.
Qed.

Lemma resolve_callable_ok ssa namespace name entry :
  resolve_callable ssa namespace name = Ok entry ->
  match entry with
  | Some entry => exists function, candidates ssa (function_id namespace name) = [function] /\
      entry = mkCallable namespace name function None None
  | None => candidates ssa (function_id namespace name) = []
  end.
Proof.
  unfold resolve_callable. destruct (candidates _ _) as [|x [|y l]]; intros [= <-]; eauto.
Qed.

Lemma elem_of_lefts {A B} (l : list (A + B)) a : a ∈ lefts l <-> inl a ∈ l.
Proof.
  unfold lefts. rewrite list_elem_of_omap. split.
  - intros ([x|x] & ? & [= <-]). done.
  - intros ?. by exists (inl a).
Qed.
Lemma elem_of_rights {A B} (l : list (A + B)) b : b ∈ rights l <-> inr b ∈ l.
Proof.
  unfold rights. rewrite list_elem_of_omap. split.
  - intros ([x|x] & ? & [= <-]). done.
  - intros ?. by exists (inr b).
Qed.

(** The functions a selection keeps. *)
Definition selected_function (p : Program) (selected : option (list (string * string))) (f : Function) : Prop :=
  f ∈ p_functions p /\ match selected with Some set => qualified p f ∈ set | None => True end.

Lemma elem_of_selected p selected f :
  f ∈ List.filter (fun f => selects selected (qualified p f)) (p_functions p) <-> selected_function p selected f.
Proof.
  unfold selected_function. rewrite list_elem_of_In, filter_In, <- list_elem_of_In. f_equiv.
  destruct selected; cbn; [apply bs_mem_spec|done].
Qed.

Lemma callable_row_inl p ssa bindings f entry :
  callable_row p ssa bindings f = Ok (inl entry) ->
  exists g, g ∈ m_functions ssa /\ f_semantic_identity g = function_identity p f /\
    entry = mkCallable (identity_namespace f (p_module p)) (fn_name f) (f_identity g) None
      (bm_get (qualified p f) bindings).
Proof.
  unfold callable_row. intros Hr. apply outcome_bind_ok in Hr as (o & Ho & Hr).
  apply resolve_callable_ok in Ho. destruct o as [c|]; [|done]. destruct Ho as (x & Hc & ->).
  injection Hr as <-. destruct (proj1 (elem_of_candidates ssa (function_identity p f) x)) as (g & ? & ? & <-).
  - unfold function_identity. rewrite Hc. left.
  - by exists g.
Qed.

Lemma callable_row_found p ssa bindings f g row :
  callable_row p ssa bindings f = Ok row -> g ∈ m_functions ssa ->
  f_semantic_identity g = function_identity p f ->
  row = inl (mkCallable (identity_namespace f (p_module p)) (fn_name f) (f_identity g) None
      (bm_get (qualified p f) bindings)).
Proof.
  unfold callable_row. intros Hr Hg Hid. apply outcome_bind_ok in Hr as (o & Ho & [= <-]).
  apply resolve_callable_ok in Ho.
  assert (f_identity g ∈ candidates ssa (function_identity p f)) as Hin by (apply elem_of_candidates; eauto).
  unfold function_identity in Hin. destruct o as [c|].
  - destruct Ho as (x & Hc & ->). rewrite Hc in Hin. apply list_elem_of_singleton in Hin as <-. done.
  - rewrite Ho in Hin. by apply elem_of_nil in Hin.
Qed.

Lemma artifact_rows_ok p exports bases m crows grows :
  artifact_rows p exports bases m = Ok (crows, grows) ->
  exists bindings, (forall row, row ∈ crows <-> exists f, selected_function p exports f /\
    callable_row p m bindings f = Ok row) /\
  (forall f, selected_function p exports f -> exists row, callable_row p m bindings f = Ok row).
Proof.
  unfold artifact_rows. intros Hr. apply outcome_bind_ok in Hr as (c & Hc & Hr).
  apply outcome_bind_ok in Hr as (g & _ & [= -> ->]). eexists. split.
  - intros row. rewrite (elem_of_map_outcome _ _ _ _ Hc). by setoid_rewrite elem_of_selected.
  - intros f Hf%elem_of_selected. apply map_outcome_ok in Hc.
    apply list_elem_of_lookup in Hf as [i Hi]. destruct (Forall2_lookup_l _ _ _ _ _ Hc Hi) as (row & _ & ?). eauto.
Qed.
End Stages.

(** The artifact as it was before it was sealed. *)
Definition unsealed `{SerdeNumber} (a : VmArtifact) : VmArtifact :=
  mkArtifact (va_schema_version a) "" (va_source a) (va_callables a) (va_generic_entrypoints a)
    (va_code a) (va_requirements a) (va_exports a) (va_assumptions a) (va_unsupported a).

Section Theorems.
Context `{ModelCrate, ProgramCrate, SerdeNumber} `{!NodeHasher} `{!Toolchain}.

(** C10: a reader of the artifact gets the emitted module back.  The artifact
    identity is the digest of the artifact with an empty identity, and its code
    section is the encoding of the module this emission compiles, closes over the
    selected exports and lowers.  When the calls that serialize that module fit
    the codec's table of 32-bit node ids, it stands for one JSON value; a reader
    of the section gets that very value if it is within the decoder's limits --
    nesting of 128 and the bound on expanded nodes --, and an error, never
    another value, if it is beyond them. *)
Theorem emitted_artifact_readable p producer source_map exports bases facts precompiled e :
  emit_vm_artifact_scoped_with_ssa_facts p producer source_map exports bases facts precompiled = Ok e ->
  let a := em_artifact e in
  va_artifact_id a = artifact_id_of (artifact_to_vec (unsealed a)) /\
  exists m, emitted_module p exports facts precompiled m /\
    encode (ssa_serialize m) = Ok (cs_module (va_code a)) /\
    (fits (ssa_serialize m) -> exists v, to_value (ssa_serialize m) = Ok v /\
      (within_limits v -> deserialize (cs_module (va_code a)) = Ok v) /\
      (~ within_limits v -> exists error, deserialize (cs_module (va_code a)) = Err error)).
Proof.
  intros [m [Hst _ _ Hcode _ (u & Hu & Hs) _]]%emission_steps a. subst a. split.
  - rewrite Hs. cbn. do 2 f_equal. destruct u; cbn in *. by rewrite Hu.
  - exists m. do 2 (split; [done|]). intros Hf. rewrite (encode_canon _ Hf) in Hcode.
    destruct (to_value (ssa_serialize m)) as [v|error|message]; [|done..]. injection Hcode as <-. exists v. split; [done|].
    apply read_canon.
Qed.

(** What an emitted application is identified by. *)
Lemma emitted_application p producer roots seeds facts precompiled a missing bindings work :
  emit_application p producer roots seeds facts precompiled = Ok (a, missing, bindings, work) ->
  va_schema_version a = VM_ARTIFACT_SCHEMA_VERSION /\ va_artifact_id a <> ""%string.
Proof.
  unfold emit_application. intros He. apply outcome_bind_ok in He as (exports & _ & He).
  apply outcome_bind_ok in He as (e & Hem & He). apply outcome_bind_ok in He as (w & _ & Heq).
  injection Heq as <- _ _ _. apply emission_steps in Hem as [m [_ _ _ _ _ (u & _ & Hs) Hsch]].
  split; [done|]. by rewrite Hs.
Qed.

(** C11: the callable rows are exactly the selected functions the emitted module
    has an instance of, each bound to that instance; a selected function without
    one is reported in [unsupported], never dropped. *)
Theorem callables_exact p producer source_map exports bases facts precompiled e :
  emit_vm_artifact_scoped_with_ssa_facts p producer source_map exports bases facts precompiled = Ok e ->
  exists m, encode (ssa_serialize m) = Ok (cs_module (va_code (em_artifact e))) /\
  (forall entry, entry ∈ va_callables (em_artifact e) -> exists f g,
     selected_function p exports f /\ g ∈ m_functions m /\ f_semantic_identity g = function_identity p f /\
     (ce_module entry, ce_name entry) = qualified p f /\ ce_function entry = f_identity g) /\
  (forall f, selected_function p exports f ->
     (exists entry, entry ∈ va_callables (em_artifact e) /\ (ce_module entry, ce_name entry) = qualified p f) \/
     (export_missing (identity_namespace f (p_module p)) (fn_name f) ∈ va_unsupported (em_artifact e) /\
      forall g, g ∈ m_functions m -> f_semantic_identity g <> function_identity p f)).
Proof.
  intros [m [_ _ (cr & gr & Hr & Hcall & _ & Huns) Hcode _ _]]%emission_steps. exists m. split; [done|].
  destruct (artifact_rows_ok _ _ _ _ _ _ Hr) as (bindings & Hrows & Htot). rewrite Hcall, Huns. split.
  - intros entry (f & Hf & (g & ? & ? & ->)%callable_row_inl)%elem_of_lefts%Hrows. exists f, g. by split_and!.
  - intros f Hf. destruct (Htot f Hf) as ([entry|msg] & Hrow).
    + left. exists entry. split; [apply elem_of_lefts, Hrows; eauto|].
      apply callable_row_inl in Hrow as (g & _ & _ & ->). done.
    + right. assert (msg ∈ rights cr) as Hin by (apply elem_of_rights, Hrows; eauto). split.
      * assert (msg = export_missing (identity_namespace f (p_module p)) (fn_name f)) as <-.
        { unfold callable_row in Hrow. apply outcome_bind_ok in Hrow as ([c|] & _ & Hm); [done|]. by injection Hm. }
        apply elem_of_app. by left.
      * intros g Hg Hid. by pose proof (callable_row_found _ _ _ _ _ _ Hrow Hg Hid).
Qed.

Lemma closed_export p set program facts ssa m stages f :
  execution_module program facts (Some set) ssa = Ok (m, stages) -> selected_function p (Some set) f ->
  exists g, g ∈ m_functions m /\ names (function_identity p f) g.
Proof.
  intros (closed & (_ & ix & reached & obs & HC)%closure_inv & _ & Hsame)%execution_module_stages [_ Hset].
  destruct (closed_reached _ _ _ _ _ _ _ HC) as (_ & _ & Hcc).
  destruct (cc_root _ _ Hcc (function_identity p f)) as (g & Hg%(closed_functions _ _ _ _ _ _ _ HC) & Hn).
  { apply list_elem_of_fmap. exists (qualified p f). by split. }
  apply list_elem_of_lookup in Hg as [i Hi].
  destruct (Forall2_lookup_l _ _ _ _ _ Hsame Hi) as (g' & Hg' & Hid & Hsem).
  exists g'. split; [by eapply list_elem_of_lookup_2|]. unfold names in *. by rewrite <- Hid, <- Hsem.
Qed.

(** No selected export is lost on the way.  Whatever the compiler produced,
    if emission for a selected set succeeds then every selected function has an
    instance in the emitted module under one of its identities, and it is
    callable unless another function's SSA identity shadows it. *)
Theorem selected_exports_resolve p producer source_map set bases facts precompiled e :
  emit_vm_artifact_scoped_with_ssa_facts p producer source_map (Some set) bases facts precompiled = Ok e ->
  exists m, encode (ssa_serialize m) = Ok (cs_module (va_code (em_artifact e))) /\
  forall f, selected_function p (Some set) f ->
    (exists g, g ∈ m_functions m /\ names (function_identity p f) g) /\
    ((forall g, g ∈ m_functions m -> f_identity g = function_identity p f ->
       f_semantic_identity g = function_identity p f) ->
     exists entry, entry ∈ va_callables (em_artifact e) /\ (ce_module entry, ce_name entry) = qualified p f).
Proof.
  intros [m [Hst _ (cr & gr & Hr & Hcall & _) Hcode _ _]]%emission_steps. exists m. split; [done|].
  destruct Hst as (program & result & work & ssa & stages & _ & _ & _ & _ & _ & Hm). intros f Hf.
  destruct (closed_export _ _ _ _ _ _ _ _ Hm Hf) as (g & Hg & Hn). split; [by exists g|]. intros Hshadow.
  assert (f_semantic_identity g = function_identity p f) as Hsem by (destruct Hn as [?|?]; [done|by apply Hshadow]).
  destruct (artifact_rows_ok _ _ _ _ _ _ Hr) as (bindings & Hrows & Htot). destruct (Htot f Hf) as (row & Hrow).
  pose proof (callable_row_found _ _ _ _ _ _ Hrow Hg Hsem) as ->. eexists. rewrite Hcall.
  split; [apply elem_of_lefts, Hrows; eauto|done].
Qed.

(** ** Capabilities *)

Definition instruction_of (m : SsaModule) (f : SsaFunction) (i : SsaInstruction) : Prop :=
  f ∈ m_functions m /\ exists b, b ∈ f_blocks f /\ i ∈ b_instructions b.

Lemma elem_of_module_instructions m f i : (f, i) ∈ module_instructions m <-> instruction_of m f i.
Proof.
  unfold module_instructions, instruction_of. rewrite list_elem_of_In, in_flat_map.
  setoid_rewrite in_flat_map. setoid_rewrite in_map_iff. setoid_rewrite <- list_elem_of_In. naive_solver.
Qed.

(** An instruction uses a capability, or calls a function that requires it. *)
Definition uses_capability (i : SsaInstruction) (capability : string) : Prop :=
  capability ∈ map cu_capability (i_capability_uses i) \/
  exists function required rest, i_kind i = Call function required rest /\ capability ∈ required.

Lemma elem_of_instruction_capabilities i c : c ∈ instruction_capabilities i <-> uses_capability i c.
Proof.
  unfold instruction_capabilities, uses_capability. rewrite elem_of_app. f_equiv.
  destruct (i_kind i); split; try (by intros ?%elem_of_nil); try (by intros (? & ? & ? & [=] & _)).
  - intros ?. eauto 6.
  - by intros (? & ? & ? & [= -> -> ->] & ?).
Qed.

Lemma elem_of_required_capabilities m c :
  c ∈ required_capabilities m <-> exists f i, instruction_of m f i /\ uses_capability i c.
Proof.
  unfold required_capabilities.
  rewrite (elem_of_fold_adds _ (fun row c => uses_capability row.2 c)).
  - rewrite elem_of_nil. split.
    + intros [([f i] & ?%elem_of_module_instructions & ?)|[]]. eauto.
    + intros (f & i & ? & ?). left. exists (f, i). by rewrite elem_of_module_instructions.
  - intros acc row y _. by rewrite elem_of_bs_extend, elem_of_instruction_capabilities.
Qed.

(** The capabilities the artifact requires are, sorted and without
    repetition, those that an instruction of the emitted module uses or that a
    function it calls requires. *)
Theorem required_capabilities_exact p producer source_map exports bases facts precompiled e :
  emit_vm_artifact_scoped_with_ssa_facts p producer source_map exports bases facts precompiled = Ok e ->
  exists m, encode (ssa_serialize m) = Ok (cs_module (va_code (em_artifact e))) /\
  ascending (rq_capabilities (va_requirements (em_artifact e))) /\
  forall c, c ∈ rq_capabilities (va_requirements (em_artifact e)) <->
    exists f i, instruction_of m f i /\ uses_capability i c.
Proof.
  intros [m [_ _ _ Hcode Hcap _]]%emission_steps. exists m. split; [done|]. rewrite Hcap.
  split; [|apply elem_of_required_capabilities]. unfold required_capabilities.
  generalize (module_instructions m). assert (ascending (@nil string)) as Ha by constructor.
  revert Ha. generalize (@nil string). intros acc Ha l. revert acc Ha.
  induction l as [|row l IH]; intros acc Ha; cbn; [done|]. by apply IH, bs_extend_ascending.
Qed.

(** ** Dispatch bindings *)

Lemma fold_bindings rows acc :
  match fold_outcome (fun bindings (row : SsaFunction * SsaInstruction) =>
      added ← instruction_bindings row.1 row.2; Ok (bs_extend bindings added)) acc rows with
  | Ok bs => (ascending acc -> ascending bs) /\
      (forall row, row ∈ rows -> exists l, instruction_bindings row.1 row.2 = Ok l) /\
      forall b, b ∈ bs <-> b ∈ acc \/ exists row l, row ∈ rows /\ instruction_bindings row.1 row.2 = Ok l /\ b ∈ l
  | Err _ => exists row e, row ∈ rows /\ instruction_bindings row.1 row.2 = Err e
  | Panic _ => exists row e, row ∈ rows /\ instruction_bindings row.1 row.2 = Panic e
  end.
Proof.
  revert acc. induction rows as [|row rows IH]; intros acc; cbn.
  - split; [done|]. split; [by intros ? ?%elem_of_nil|]. intros b. split; [by left|].
    by intros [?|(? & ? & ?%elem_of_nil & _)].
  - destruct (instruction_bindings row.1 row.2) as [l|e|e] eqn:E; cbn;
      [|exists row, e; split; [left|done]..].
    specialize (IH (bs_extend acc l)). destruct (fold_outcome _ _ _).
    + destruct IH as (Ha & Htot & Hex). split; [intros ?; by apply Ha, bs_extend_ascending|]. split.
      * intros r [->|?]%elem_of_cons; eauto.
      * intros b. rewrite Hex, elem_of_bs_extend. setoid_rewrite elem_of_cons. split.
        -- intros [[?|?]|(r & l' & ? & ? & ?)]; [right; exists row, l; auto|by left|right; eauto 8].
        -- intros [?|(r & l' & [->|?] & Hl & ?)]; [auto| |right; eauto 8].
           rewrite E in Hl. injection Hl as <-. auto.
    + destruct IH as (r & e' & ? & ?). exists r, e'. split; [by right|done].
    + destruct IH as (r & e' & ? & ?). exists r, e'. split; [by right|done].
Qed.

(** The instruction asks the runtime for [capability] itself, rather than
    passing it on to the function it calls. *)
Definition dispatches (i : SsaInstruction) (capability : string) : Prop :=
  match i_kind i with
  | Call _ required _ => capability ∈ required
  | _ => capability ∈ map cu_capability (i_capability_uses i)
  end.

Lemma instruction_bindings_spec f i :
  match instruction_bindings f i with
  | Ok l =>
      (forall b, b ∈ l -> db_function_identity b = f_semantic_identity f /\ db_instruction_identity b = i_identity i /\
         db_source_operation_identity b = i_semantic_identity i /\ dispatches i (db_capability_identity b) /\
         (db_runtime_capability_key b = db_capability_identity b \/
          i_kind i = HostCall (db_runtime_capability_key b) (db_operation b))) /\
      (forall c, dispatches i c -> exists b, b ∈ l /\ db_capability_identity b = c) /\
      (forall key operation, i_kind i = HostCall key operation -> length (i_capability_uses i) = 1)
  | Err _ => exists key operation, i_kind i = HostCall key operation /\ length (i_capability_uses i) <> 1
  | Panic _ => False
  end.
Proof.
  unfold instruction_bindings, dispatches. destruct (i_kind i) eqn:Hk.
  all: try (split; [|split; [|done]];
    [intros b (u & -> & Hu)%list_elem_of_fmap; cbn; split_and!; try done; [apply list_elem_of_fmap; eauto|by left]
    |intros c (u & -> & Hu)%list_elem_of_fmap; eexists; split; [apply list_elem_of_fmap; exists u; by split|done]]).
  - split; [|split; [|done]].
    + intros b (u & -> & Hu)%list_elem_of_fmap. cbn. split_and!; try done. by left.
    + intros c Hc. eexists. split; [apply list_elem_of_fmap; exists c; by split|done].
  - destruct (i_capability_uses i) as [|u [|u' us]] eqn:Hu; [eauto| |eauto]. split; [|split; [|done]].
    + intros b ->%list_elem_of_singleton. cbn. split_and!; try done; [left|by right].
    + intros c ->%list_elem_of_singleton. eexists. split; [left|done].
Qed.

(** The dispatch table.  It fails exactly when some host call does not use
    exactly one capability.  Otherwise it is sorted and without repetition;
    every binding belongs to an instruction of the module that dispatches the
    capability, under the capability's own identity or under the host call's
    alias; every dispatched capability has a binding; and every bound capability
    is one the artifact requires. *)
Theorem dispatch_bindings_exact m :
  match capability_dispatch_bindings m with
  | Ok bs =>
      ascending bs /\
      (forall b, b ∈ bs -> exists f i, instruction_of m f i /\
         db_function_identity b = f_semantic_identity f /\ db_instruction_identity b = i_identity i /\
         dispatches i (db_capability_identity b) /\
         (db_runtime_capability_key b = db_capability_identity b \/
          i_kind i = HostCall (db_runtime_capability_key b) (db_operation b))) /\
      (forall f i c, instruction_of m f i -> dispatches i c -> exists b, b ∈ bs /\
         db_capability_identity b = c /\ db_instruction_identity b = i_identity i) /\
      (forall b, b ∈ bs -> db_capability_identity b ∈ required_capabilities m) /\
      (forall f i key operation, instruction_of m f i -> i_kind i = HostCall key operation ->
         length (i_capability_uses i) = 1)
  | Err _ => exists f i key operation, instruction_of m f i /\ i_kind i = HostCall key operation /\
      length (i_capability_uses i) <> 1
  | Panic _ => False
  end.
Proof.
  unfold capability_dispatch_bindings. pose proof (fold_bindings (module_instructions m) []) as Hf.
  destruct (fold_outcome _ _ _) as [bs|e|e].
  2: { destruct Hf as ([f i] & e' & Hin%elem_of_module_instructions & He).
    pose proof (instruction_bindings_spec f i) as Hs. cbn in He. rewrite He in Hs.
    destruct Hs as (k & o & ? & ?). eauto 8. }
  2: { destruct Hf as ([f i] & e' & Hin & He). pose proof (instruction_bindings_spec f i) as Hs.
    cbn in He. by rewrite He in Hs. }
  destruct Hf as (Ha & Htot & Hex). setoid_rewrite elem_of_nil in Hex.
  assert (Hb : forall b, b ∈ bs -> exists f i, instruction_of m f i /\
         db_function_identity b = f_semantic_identity f /\ db_instruction_identity b = i_identity i /\
         dispatches i (db_capability_identity b) /\
         (db_runtime_capability_key b = db_capability_identity b \/
          i_kind i = HostCall (db_runtime_capability_key b) (db_operation b))).
  { intros b [[]|([f i] & l & Hin%elem_of_module_instructions & Hl & Hb)]%Hex.
    pose proof (instruction_bindings_spec f i) as Hs. cbn in Hl. rewrite Hl in Hs.
    destruct Hs as (Hs & _). destruct (Hs b Hb) as (? & ? & ? & ? & ?). exists f, i. by split_and!. }
  split; [apply Ha; constructor|]. split; [exact Hb|]. split; [|split].
  - intros f i c Hin Hc. apply elem_of_module_instructions in Hin as Hin'.
    destruct (Htot _ Hin') as (l & Hl). pose proof (instruction_bindings_spec f i) as Hs. cbn in Hl.
    rewrite Hl in Hs. destruct Hs as (Hsound & Hcomplete & _). destruct (Hcomplete c Hc) as (b & Hbl & Hbc).
    exists b. split; [apply Hex; right; eauto 8|]. split; [done|]. by destruct (Hsound b Hbl) as (_ & ? & _).
  - intros b (f & i & Hin & _ & _ & Hd & _)%Hb. apply elem_of_required_capabilities. exists f, i. split; [done|].
    unfold dispatches in Hd. unfold uses_capability. destruct (i_kind i); eauto 6.
  - intros f i key op Hin%elem_of_module_instructions Hk. destruct (Htot _ Hin) as (l & Hl).
    pose proof (instruction_bindings_spec f i) as Hs. cbn in Hl. rewrite Hl in Hs.
    destruct Hs as (_ & _ & Hone). eauto.
Qed.
End Theorems.

(** ** A toolchain and an emission to apply them at *)
Section Sample.
Local Open Scope string_scope.
Local Open Scope list_scope.
Existing Instances serde_Z colliding.

Definition emission_function (id : string) (instructions : list SsaInstruction) : SsaFunction :=
  mkFunction ("ssa::" +:+ id) id [] [] [mkBlock ("block::" +:+ id) None [] instructions ""] [] "".

(** [main] calls [lib::id_i32], which needs a capability to call [lib::inner];
    [app::unused] was not compiled. *)
Definition emission_ssa : SsaModule := {|
  m_functions := [
    emission_function "app::main" [sample_instruction "c1" (Call "lib::id_i32" [] "") [] []];
    emission_function "lib::id_i32" [sample_instruction "c2" (Call "ssa::lib::inner" ["cap::io"] "") [] []];
    emission_function "lib::inner" []];
  m_record_types := []; m_obligations := []; m_trace := []; m_transformations := [];
  m_generic_specializations := []; m_binding_table := None; m_proof_relationships := []; m_rest := "" |}.

#[local] Instance reference_toolchain : Toolchain := {|
  compile_with_ssa_facts := fun p facts =>
    (mkResult false "" (Some emission_ssa) [mkRef "Hir" "h" "h"; mkRef "SelectedSsa" "selected" "fp"] "result",
     Some (mkWork facts ""));
  boundary_errors := fun _ _ _ => None;
  schema_version := fun _ => "1";
  ssa_serialize := fun ssa => SSeq (map (fun f => SStr (f_identity f)) (m_functions ssa));
  artifact_to_vec := fun a => String.concat "," (va_exports a ++ [va_artifact_id a]);
  language_owned_callable_bindings := fun _ => [mkBinding "app" "main" (Some "test") ""];
  language_owned_interface_identity := fun p => p_module p;
  source_map_fingerprint := fun _ => "fp";
  source_map_identity_is_valid := fun _ => true;
  target_contract_json := fun candidate _ _ _ => candidate;
  CARGO_PKG_VERSION := "0.1.0";
  lock_file := Some (Some "r1", None);
  revision_file := None
|}.

Definition emission_exports : list (string * string) := [("app", "main"); ("lib", "id_i32")].
Definition emission_outcome : Outcome string Emitted :=
  emit_vm_artifact_scoped_with_ssa_facts sample_program (Some "producer") None (Some emission_exports)
    (Some [("lib", "id")]) [] None.
Definition emission_result : Emitted :=
  Eval vm_compute in
    match emission_outcome with Ok e => e | _ => mkEmitted (mkArtifact "" "" (mkSource "" "" "" "" "" [] None) [] []
      (mkCode "" {| g_nodes := []; g_root := 0%N |}) (mkRequirements [] [] "") [] [] []) None [] [] None end.

Lemma emission_ok :
  emit_vm_artifact_scoped_with_ssa_facts sample_program (Some "producer") None (Some emission_exports)
    (Some [("lib", "id")]) [] None = Ok emission_result.
Proof. vm_cast_no_check (eq_refl (@Ok string _ emission_result)). Qed.

(** Both exports are callable, the generic resolves to its instance, and what
    was not selected is reported. *)
Example emission_rows :
  map ce_function (va_callables (em_artifact emission_result)) = ["ssa::app::main"; "ssa::lib::id_i32"] /\
  map ge_function (va_generic_entrypoints (em_artifact emission_result)) = ["ssa::lib::id_i32"] /\
  va_unsupported (em_artifact emission_result) = [] /\
  em_unselected_unresolved emission_result = [export_missing "app" "unused"; export_missing "lib" "id"].
Proof. repeat split; vm_compute; reflexivity. Qed.

(** The module of the sample emission and its value. *)
Definition emission_value : @JValue serde_Z := @JArray serde_Z [@JString serde_Z "ssa::app::main"; @JString serde_Z "ssa::lib::id_i32"; @JString serde_Z "ssa::lib::inner"].

Definition sample_lowering : Program :=
  match application_lowering_program sample_program emission_exports with Ok program => program | _ => sample_program end.
Definition sample_compiled : CompilationResult * option SsaFunctionFactWork := compile_with_ssa_facts sample_lowering [].
Definition sample_module : SsaModule :=
  match execution_module sample_lowering (match sample_compiled.2 with Some work => fw_facts work | None => [] end)
          (Some emission_exports) (default emission_ssa (cr_ssa sample_compiled.1)) with
  | Ok (m, _) => m
  | _ => emission_ssa
  end.
Lemma sample_module_only m : emitted_module sample_program (Some emission_exports) [] None m -> m = sample_module.
Proof.
  intros (program & result & work & ssa & stages & Hp & Hc & _ & Hs & _ & He). unfold sample_module.
  assert (program = sample_lowering) as Hl by (unfold sample_lowering; by rewrite Hp). rewrite Hl in Hc, He.
  assert (sample_compiled = (result, work)) as -> by exact Hc. cbn [fst snd]. rewrite Hs.
  change (default emission_ssa (Some ssa)) with ssa. by rewrite He.
Qed.

Lemma emitted_artifact_readable_witness :
  va_artifact_id (em_artifact emission_result) = "sha256:main,id_i32," /\
  @deserialize serde_Z (cs_module (va_code (em_artifact emission_result))) = Ok emission_value.
Proof.
  destruct (emitted_artifact_readable sample_program (Some "producer") None (Some emission_exports)
    (Some [("lib", "id")]) [] None emission_result emission_ok) as (Hid & m & Hm & _ & Hread).
  split; [rewrite Hid; vm_compute; reflexivity|].
  assert (m = sample_module) as -> by by apply sample_module_only.
  assert (fits (ssa_serialize sample_module)) as Hf by (unfold fits, U32_MAX; vm_compute; reflexivity).
  assert (@to_value serde_Z (ssa_serialize sample_module) = Ok emission_value) as Hv
    by (vm_cast_no_check (@eq_refl (Outcome string (@JValue serde_Z)) (Ok emission_value))).
  destruct (Hread Hf) as (v & Hv' & Hin & _). rewrite Hv in Hv'. injection Hv' as <-. apply Hin.
  split; [split; vm_compute; discriminate|]. repeat constructor.
Defined.

Lemma callables_exact_witness :
  exists entry, entry ∈ va_callables (em_artifact emission_result) /\
    (ce_module entry, ce_name entry) = ("app", "main").
Proof.
  destruct (callables_exact sample_program (Some "producer") None (Some emission_exports)
    (Some [("lib", "id")]) [] None emission_result emission_ok) as (m & _ & _ & Hall).
  destruct (Hall (mkDeclaration "main" [] [] [] (calling ["lib::id_i32"]) "")) as [Hin|[Hin _]].
  - split; left.
  - exact Hin.
  - exfalso. vm_compute in Hin. by apply elem_of_nil in Hin.
Defined.

Lemma selected_exports_resolve_witness :
  exists m g, encode (ssa_serialize m) = Ok (cs_module (va_code (em_artifact emission_result))) /\
    g ∈ m_functions m /\ names "lib::id_i32" g.
Proof.
  destruct (selected_exports_resolve sample_program (Some "producer") None emission_exports
    (Some [("lib", "id")]) [] None emission_result emission_ok) as (m & Hm & Hall).
  destruct (Hall (mkDeclaration "id_i32" [] [] [] (calling ["lib::inner"]) "lib")) as [(g & Hg & Hn) _].
  - split; [do 3 right; left|right; left].
  - exists m, g. split; [exact Hm|]. split; [exact Hg|exact Hn].
Defined.

Lemma required_capabilities_exact_witness :
  exists m f i, encode (ssa_serialize m) = Ok (cs_module (va_code (em_artifact emission_result))) /\
    instruction_of m f i /\ uses_capability i "cap::io".
Proof.
  destruct (required_capabilities_exact sample_program (Some "producer") None (Some emission_exports)
    (Some [("lib", "id")]) [] None emission_result emission_ok) as (m & Hm & _ & Hall).
  destruct (proj1 (Hall "cap::io")) as (f & i & Hi & Hu); [left|]. exists m, f, i. by split_and!.
Defined.
End Sample.
