(* ===== verification/Retention.v ===== *)
(** The probe cache's retention: [tools/stage0-probe/src/cache_retention.rs].

    The cache directory is the list of its entries in the order [read_dir]
    yields them; an operation returns its [io::Result] and the directory it
    leaves.  Failing system calls, running processes and the clock are
    parameters. *)

From Stdlib Require Import Ascii.
From S2P Require Export Text.

Record Limits : Type := mkLimits { lim_bytes : Z; lim_entries : nat; lim_age : Z }.

(** A directory entry: [None] for a modification time the platform lacks.  The
    content is what [gzip -dc] makes of the file, [None] where it fails. *)
Record Entry : Type := mkEntry {
  e_name : string; e_is_file : bool; e_length : Z; e_modified : option Z; e_content : option string
}.
Abbreviation Directory := (list Entry).

(** Modification time, path and length: what the entries are sorted by. *)
Abbreviation Aged := (Z * (string * Z))%type.

(** [io::Result] with the directory as state: an error keeps what was done. *)
Definition Io (A : Type) : Type := Directory -> Outcome string A * Directory.
#[export] Instance io_ret : MRet Io := fun A a dir => (Ok a, dir).
#[export] Instance io_bind : MBind Io := fun A B f m dir =>
  match m dir with
  | (Ok a, dir) => f a dir
  | (Err e, dir) => (Err e, dir)
  | (Panic message, dir) => (Panic message, dir)
  end.
Definition io_err {A} (e : string) : Io A := fun dir => (Err e, dir).
Definition io_get : Io Directory := fun dir => (Ok dir, dir).
Definition io_put (dir : Directory) : Io unit := fun _ => (Ok tt, dir).

(** System calls and child processes that can fail; the last six are those of
    the probe's compression. *)
Inductive IoCall : Type :=
  | CallLock | CallLockShared | CallReadDir | CallEntry | CallFileType | CallMetadata | CallRemove | CallRename
  | CallCreateDir | CallCreate | CallSpawn | CallStdin | CallWrite | CallWait.

Section Retention.
Context (fails : IoCall -> string -> bool) (proc_exists : string -> bool) (to_string_lossy : string -> string).
Local Open Scope string_scope.
Local Open Scope list_scope.

(** ** Environment *)

Definition configured_number (env : string -> option string) (name : string) (dflt : Z) : Z :=
  default dflt (env name ≫= parse_unsigned U64_MAX).

Definition configured (env : string -> option string) (usize_max : Z) : Limits := {|
  lim_bytes := configured_number env "MNCS_PROBE_CACHE_MAX_BYTES" (2 * 1024 * 1024 * 1024);
  lim_entries := Z.to_nat (Z.min (configured_number env "MNCS_PROBE_CACHE_MAX_ENTRIES" 128) usize_max);
  lim_age := configured_number env "MNCS_PROBE_CACHE_MAX_AGE_SECONDS" (14 * 86400) |}.

(** ** Files *)

Definition managed_name (name : string) : bool :=
  Nat.leb 64 (String.length name)
  && string_forallb is_lower_hex (string_take 64 name)
  && (String.eqb (string_drop 64 name) ".json.gz" || String.eqb (string_drop 64 name) ".program.json.gz").

(** A compression file whose writer is gone. *)
Definition abandoned_name (name : string) : bool :=
  match strip_suffix ".json.gz.tmp" name with
  | Some value =>
      match split_on "."%char value with
      | [digest; pid; nonce] =>
          Nat.eqb (String.length digest) 64 && string_forallb is_lower_hex digest
          && bool_decide (is_Some (parse_unsigned U32_MAX pid))
          && bool_decide (is_Some (parse_unsigned (2 ^ 128 - 1) nonce))
          && negb (proc_exists pid)
      | _ => false
      end
  | None => false
  end.

(** [File::set_modified(SystemTime::now())] where the file can be opened. *)
Definition touch (now : Z) (name : string) (dir : Directory) : Directory :=
  map (fun e => if String.eqb (e_name e) name && e_is_file e
    then mkEntry (e_name e) (e_is_file e) (e_length e) (Some now) (e_content e) else e) dir.

Definition lookup_entry (name : string) (dir : Directory) : option Entry :=
  List.find (fun e => String.eqb (e_name e) name) dir.

Definition remove_file (name : string) : Io unit :=
  if fails CallRemove name then io_err "remove_file"
  else
    dir ← io_get;
    match lookup_entry name dir with
    | Some e =>
        if e_is_file e then io_put (List.filter (fun e => negb (String.eqb (e_name e) name)) dir)
        else io_err "is a directory"
    | None => io_err "not found"
    end.

Definition rename (source destination : string) : Io unit :=
  if fails CallRename source then io_err "rename"
  else
    dir ← io_get;
    match lookup_entry source dir with
    | Some _ =>
        io_put (map (fun e => if String.eqb (e_name e) source
            then mkEntry destination (e_is_file e) (e_length e) (e_modified e) (e_content e) else e)
          (List.filter (fun e => String.eqb (e_name e) source || negb (String.eqb (e_name e) destination)) dir))
    | None => io_err "not found"
    end.

(** [fs::metadata(path)?.len()]. *)
Definition metadata_len (name : string) : Io Z :=
  if fails CallMetadata name then io_err "metadata"
  else
    dir ← io_get;
    match lookup_entry name dir with Some e => mret (e_length e) | None => io_err "not found" end.

(** [lock(directory, exclusive)]; the lock file itself is not listed. *)
Definition lock (exclusive : bool) : Io unit :=
  if fails (if exclusive then CallLock else CallLockShared) ".retention.lock" then io_err "lock" else mret tt.
(** [read_lease]: the lease, if it was given. *)
Definition read_lease (dir : Directory) : option unit :=
  match lock false dir with (Ok lease, _) => Some lease | _ => None end.

(** ** [prune] *)

(** One child of [read_dir], if the iterator yields it: an abandoned temporary
    is removed, a managed file is counted. *)
Definition scan_child (entries : list Aged) (total : Z) (child : Entry) : Io (list Aged * Z) :=
  if fails CallEntry (e_name child) then io_err "read_dir entry"
  else if fails CallFileType (e_name child) then io_err "file_type"
  else if negb (e_is_file child) then mret (entries, total)
  else
    let name := to_string_lossy (e_name child) in
    if abandoned_name name then _ ← remove_file (e_name child); mret (entries, total)
    else if negb (managed_name name) then mret (entries, total)
    else if fails CallMetadata (e_name child) then io_err "metadata"
    else mret (entries ++ [(default 0%Z (e_modified child), (e_name child, e_length child))],
               u64_saturating_add total (e_length child)).

(** The iterator may also fail where the directory ends. *)
Fixpoint scan_children (children : list Entry) (entries : list Aged) (total : Z) : Io (list Aged * Z) :=
  match children with
  | [] => if fails CallEntry "" then io_err "read_dir entry" else mret (entries, total)
  | child :: rest =>
      '(entries, total) ← scan_child entries total child;
      scan_children rest entries total
  end.

(** The eviction loop; [clock i] is [SystemTime::now()] in its i-th iteration. *)
Fixpoint evict (limits : Limits) (clock : nat -> Z) (i : nat) (entries : list Aged) (total : Z)
  (remaining : nat) : Io unit :=
  match entries with
  | [] => mret tt
  | (used, (path, length)) :: rest =>
      let expired := (lim_age limits <? Z.max (clock i - used) 0)%Z in
      if negb expired && (total <=? lim_bytes limits)%Z && Nat.leb remaining (lim_entries limits)
      then mret tt
      else
        _ ← remove_file path;
        evict limits clock (S i) rest (u64_saturating_sub total length) (remaining - 1)
  end.

Definition prune (limits : Limits) (clock : nat -> Z) : Io unit :=
  children ← (if fails CallReadDir "." then io_err "read_dir" else io_get);
  '(entries, total) ← scan_children children [] 0;
  evict limits clock 0 (sort_by ord_leb entries) total (length entries).

(** ** Publication *)

Definition publish_with_limits (limits : Limits) (clock1 clock2 : nat -> Z)
  (temporary destination : string) : Io bool :=
  _ ← lock true;
  _ ← prune limits clock1;
  refused ← (if Nat.eqb (lim_entries limits) 0 then mret true
             else length ← metadata_len temporary; mret (lim_bytes limits <? length)%Z);
  if (refused : bool) then _ ← remove_file temporary; mret false
  else
    _ ← rename temporary destination;
    _ ← prune limits clock2;
    dir ← io_get;
    mret (bool_decide (is_Some (lookup_entry destination dir))).

(** [publish]: every I/O error is a plain [false]. *)
Definition publish (limits : Limits) (clock1 clock2 : nat -> Z) (temporary destination : string)
  (dir : Directory) : bool * Directory :=
  match publish_with_limits limits clock1 clock2 temporary destination dir with
  | (Ok published, dir) => (published, dir)
  | (_, dir) => (false, dir)
  end.

Definition maintain (limits : Limits) (clock : nat -> Z) : Io unit := _ ← lock true; prune limits clock.
End Retention.
