(* ===== verification/RetentionTheorems.v ===== *)
(** Correctness of the cache's retention: what pruning evicts, what it never
    touches, and the budget a publication leaves. *)

From S2P Require Export Retention.

Lemma io_bind_ok {A B} (m : Io A) (f : A -> Io B) dir b dir' :
  (m ≫= f) dir = (Ok b, dir') <-> exists a dir1, m dir = (Ok a, dir1) /\ f a dir1 = (Ok b, dir').
Proof.
  unfold mbind, io_bind. destruct (m dir) as [[a|e|e] dir1]; split; try done; try (by intros (? & ? & [=] & _)).
  - eauto.
  - by intros (? & ? & [= -> ->] & ?).
Qed.

(** The directory without the entries of the given names. *)
Definition without (names : list string) (dir : Directory) : Directory :=
  List.filter (fun e => bool_decide (e_name e ∉ names)) dir.

Lemma elem_of_without names dir e : e ∈ without names dir <-> e ∈ dir /\ e_name e ∉ names.
Proof. unfold without. by rewrite list_elem_of_In, filter_In, <- list_elem_of_In, bool_decide_eq_true. Qed.

Lemma without_app l k dir : without k (without l dir) = without (l ++ k) dir.
Proof.
  unfold without. induction dir as [|e dir IH]; cbn; [done|].
  destruct (decide (e_name e ∈ l)) as [Hl|Hl].
  - rewrite !(bool_decide_false (_ ∉ _)) by set_solver. done.
  - rewrite (bool_decide_true (e_name e ∉ l)) by done. cbn. rewrite IH.
    destruct (decide (e_name e ∈ k)).
    + by rewrite !bool_decide_false by set_solver.
    + by rewrite !bool_decide_true by set_solver.
Qed.

Lemma without_nil dir : without [] dir = dir.
Proof. unfold without. induction dir as [|e dir IH]; cbn; [done|]. by rewrite IH. Qed.

Section Retention.
Context (fails : IoCall -> string -> bool) (proc_exists : string -> bool) (to_string_lossy : string -> string).

Lemma remove_file_ok name dir u dir' :
  remove_file fails name dir = (Ok u, dir') -> dir' = without [name] dir.
Proof.
  unfold remove_file. destruct (fails _ _); [done|]. intros (d & d1 & [= <- <-] & Hr)%io_bind_ok.
  destruct (lookup_entry name dir) as [e|]; [|done]. destruct (e_is_file e); [|done].
  injection Hr as _ <-. unfold without. apply filter_ext. intros x.
  destruct (String.eqb_spec (e_name x) name) as [->|Hne]; cbn; symmetry.
  - apply bool_decide_eq_false. set_solver.
  - apply bool_decide_eq_true. set_solver.
Qed.

(** ** Scanning *)

Definition is_abandoned (e : Entry) : bool :=
  e_is_file e && abandoned_name proc_exists (to_string_lossy (e_name e)).
Definition is_managed (e : Entry) : bool :=
  e_is_file e && negb (abandoned_name proc_exists (to_string_lossy (e_name e)))
  && managed_name (to_string_lossy (e_name e)).

Definition aged (e : Entry) : Aged := (default 0%Z (e_modified e), (e_name e, e_length e)).

Definition total_length (l : list Entry) : Z := foldr (fun e acc => e_length e + acc)%Z 0%Z l.

Lemma scan_child_ok entries total child dir entries' total' dir' :
  scan_child fails proc_exists to_string_lossy entries total child dir = (Ok (entries', total'), dir') ->
  dir' = without (map e_name (List.filter is_abandoned [child])) dir /\
  entries' = entries ++ map aged (List.filter is_managed [child]) /\
  total' = fold_left u64_saturating_add (map e_length (List.filter is_managed [child])) total.
Proof.
  unfold scan_child, is_abandoned, is_managed. cbn [List.filter].
  destruct (fails CallEntry _); [done|]. destruct (fails CallFileType _); [done|].
  destruct (e_is_file child); cbn [negb andb].
  2: { intros [= <- <- <-]. cbn. by rewrite without_nil, app_nil_r. }
  destruct (abandoned_name _ _); cbn [negb andb].
  - intros (u & d1 & ->%remove_file_ok & [= <- <- <-])%io_bind_ok. cbn. by rewrite app_nil_r.
  - destruct (managed_name _); cbn [negb andb].
    + destruct (fails _ _); [done|]. intros [= <- <- <-]. cbn. by rewrite without_nil.
    + intros [= <- <- <-]. cbn. by rewrite without_nil, app_nil_r.
Qed.

Lemma scan_children_ok children entries total dir entries' total' dir' :
  scan_children fails proc_exists to_string_lossy children entries total dir = (Ok (entries', total'), dir') ->
  dir' = without (map e_name (List.filter is_abandoned children)) dir /\
  entries' = entries ++ map aged (List.filter is_managed children) /\
  total' = fold_left u64_saturating_add (map e_length (List.filter is_managed children)) total.
Proof.
  revert entries total dir. induction children as [|c cs IH]; intros entries total dir; cbn [scan_children].
  - destruct (fails _ _); [done|]. intros [= <- <- <-]. cbn. by rewrite without_nil, app_nil_r.
  - intros ([e1 t1] & d1 & (-> & -> & ->)%scan_child_ok & (-> & -> & ->)%IH)%io_bind_ok.
    rewrite without_app, <- app_assoc. cbn.
    destruct (is_abandoned c), (is_managed c); cbn; by rewrite ?app_nil_r.
Qed.

Lemma saturating_total l acc :
  Forall (fun e => 0 <= e_length e)%Z l -> (0 <= acc)%Z -> (acc + total_length l <= U64_MAX)%Z ->
  fold_left u64_saturating_add (map e_length l) acc = (acc + total_length l)%Z.
Proof.
  revert acc. induction l as [|e l IH]; intros acc Hl Ha Hs; [cbn; lia|].
  apply Forall_cons in Hl as [He Hl].
  assert (0 <= total_length l)%Z by (clear -Hl; unfold total_length; induction Hl; cbn; lia).
  change (total_length (e :: l)) with (e_length e + total_length l)%Z in *. cbn [map fold_left].
  unfold u64_saturating_add at 2. rewrite Z.min_l by lia. rewrite IH by (done || lia). lia.
Qed.

(** ** Eviction *)

Definition aged_total (l : list Aged) : Z := foldr (fun a acc => a.2.2 + acc)%Z 0%Z l.

(** Eviction may stop at the [i]-th entry: it is fresh, and what is left from it
    on is within the budget. *)
Definition may_stop (limits : Limits) (clock : nat -> Z) (l : list Aged) (i : nat) : Prop :=
  exists a, l !! i = Some a /\ (Z.max (clock i - a.1) 0 <= lim_age limits)%Z /\
    (aged_total (drop i l) <= lim_bytes limits)%Z /\ length l - i <= lim_entries limits.

Lemma evict_ok limits clock l j dir dir' :
  Forall (fun a => 0 <= a.2.2)%Z l -> j <= length l ->
  evict fails limits clock j (drop j l) (aged_total (drop j l)) (length l - j) dir = (Ok tt, dir') ->
  exists k, j <= k /\ k <= length l /\ (k = length l \/ may_stop limits clock l k) /\
    (forall i, j <= i -> i < k -> ~ may_stop limits clock l i) /\
    dir' = without (map (fun a => a.2.1) (take (k - j) (drop j l))) dir.
Proof.
  intros Hpos. remember (length l - j) as n eqn:Hn. revert j Hn dir.
  induction n as [|n IH]; intros j Hn dir Hj He.
  - rewrite drop_ge in * by lia. injection He as <-. exists j.
    split_and!; [lia|lia|left; lia|intros; lia|]. by rewrite take_nil, without_nil.
  - destruct (lookup_lt_is_Some_2 l j) as [a Ha]; [lia|].
    rewrite (drop_S _ _ _ Ha) in He |- *. destruct a as [used [path len]] eqn:Ea. cbn [evict aged_total foldr] in He.
    fold (aged_total (drop (S j) l)) in He. cbn [fst snd] in He.
    destruct (negb _ && _ && _) eqn:Hstop in He.
    + injection He as <-. exists j. split_and!; [lia|lia|right|intros; lia|].
      * apply andb_prop in Hstop as [[Hx Hb]%andb_prop Hc]. exists (used, (path, len)). split; [done|].
        apply negb_true_iff, Z.ltb_ge in Hx. apply Z.leb_le in Hb. apply Nat.leb_le in Hc. cbn.
        split_and!; [lia| |lia]. rewrite (drop_S _ _ _ Ha). cbn. exact Hb.
      * by rewrite Nat.sub_diag, without_nil.
    + apply io_bind_ok in He as (u & d1 & ->%remove_file_ok & He).
      assert (0 <= len)%Z as Hlen by (apply (proj1 (Forall_lookup _ _) Hpos j _ Ha)).
      assert (0 <= aged_total (drop (S j) l))%Z as Hrest.
      { clear -Hpos. assert (Forall (fun a => 0 <= a.2.2)%Z (drop (S j) l)) as HF by (by apply Forall_drop).
        unfold aged_total; induction HF; cbn; lia. }
      unfold u64_saturating_sub in He. rewrite Z.max_l in He by lia.
      replace (len + aged_total (drop (S j) l) - len)%Z with (aged_total (drop (S j) l)) in He by lia.
      replace (S n - 1) with n in He by lia.
      destruct (IH (S j)) with (dir := without [path] dir) as (k & ? & ? & Hend & Hmin & ->); [lia|lia|done|].
      exists k. split_and!; [lia|lia|done| |].
      * intros i Hi Hik. destruct (decide (i = j)) as [->|]; [|apply Hmin; lia].
        intros (b & Hb & Hage & Htot & Hcnt). rewrite Ha in Hb. injection Hb as <-. cbn in Hage.
        rewrite (drop_S _ _ _ Ha) in Htot. cbn in Htot.
        apply not_true_iff_false in Hstop. apply Hstop.
        rewrite !andb_true_iff, negb_true_iff, Z.ltb_ge, Z.leb_le, Nat.leb_le. unfold aged_total in *. lia.
      * rewrite without_app. replace (k - j) with (S (k - S j)) by lia. done.
Qed.

(** ** Pruning *)

(** A directory: names are distinct, and the lengths add up to a [u64]. *)
Record wf_dir (dir : Directory) : Prop := {
  wf_names : NoDup (map e_name dir);
  wf_lengths : Forall (fun e => 0 <= e_length e)%Z dir;
  wf_total : (total_length dir <= U64_MAX)%Z
}.

Definition eviction_order (dir : Directory) : list Aged := sort_by ord_leb (map aged (List.filter is_managed dir)).

Lemma total_length_filter (p : Entry -> bool) (l : list Entry) :
  Forall (fun e => 0 <= e_length e)%Z l -> (0 <= total_length (List.filter p l) <= total_length l)%Z.
Proof.
  unfold total_length. induction 1 as [|e l He _ IH]; cbn; [lia|]. destruct (p e); cbn; lia.
Qed.

Lemma wf_dir_without names dir : wf_dir dir -> wf_dir (without names dir).
Proof.
  intros [Hn Hl Ht]. split.
  - eapply sublist_NoDup; [exact Hn|]. apply fmap_sublist, filter_sublist.
  - apply Forall_forall. intros e [He _]%elem_of_without. by eapply Forall_forall in Hl.
  - pose proof (total_length_filter (fun e => bool_decide (e_name e ∉ names)) dir Hl). unfold without. lia.
Qed.

Lemma aged_total_perm l k : l ≡ₚ k -> aged_total l = aged_total k.
Proof. unfold aged_total. induction 1; cbn; lia. Qed.
Lemma aged_total_map l : aged_total (map aged l) = total_length l.
Proof. unfold aged_total, total_length. induction l as [|e l IH]; cbn; [done|]. by rewrite IH. Qed.

Lemma eviction_order_perm dir : eviction_order dir ≡ₚ map aged (List.filter is_managed dir).
Proof. apply sort_by_perm. Qed.

Lemma eviction_order_names dir : wf_dir dir -> NoDup (map (fun a : Aged => a.2.1) (eviction_order dir)).
Proof.
  intros [Hn _ _]. rewrite eviction_order_perm, map_map. cbn.
  eapply sublist_NoDup; [exact Hn|]. apply fmap_sublist, filter_sublist.
Qed.

Lemma same_entry dir e e' : wf_dir dir -> e ∈ dir -> e' ∈ dir -> e_name e = e_name e' -> e = e'.
Proof.
  intros [Hn _ _] [i Hi]%list_elem_of_lookup [j Hj]%list_elem_of_lookup Heq.
  assert (i = j) as ->; [|congruence]. eapply (NoDup_lookup (map e_name dir) i j (e_name e)); [done|..].
  - by rewrite list_lookup_fmap, Hi.
  - by rewrite list_lookup_fmap, Hj, Heq.
Qed.

(** What one successful run of [prune] does. *)
Record Prune (limits : Limits) (clock : nat -> Z) (dir dir' : Directory) (k : nat) : Prop := {
  pn_bound : k <= length (eviction_order dir);
  pn_stop : k = length (eviction_order dir) \/ may_stop limits clock (eviction_order dir) k;
  pn_first : forall i, i < k -> ~ may_stop limits clock (eviction_order dir) i;
  pn_dir : dir' = without (map e_name (List.filter is_abandoned dir)
    ++ map (fun a => a.2.1) (take k (eviction_order dir))) dir
}.

Lemma prune_ok limits clock dir dir' :
  wf_dir dir -> prune fails proc_exists to_string_lossy limits clock dir = (Ok tt, dir') ->
  exists k, Prune limits clock dir dir' k.
Proof.
  intros Hwf. unfold prune. destruct (fails CallReadDir _); [done|]. intros (d & d1 & [= <- <-] & Hp)%io_bind_ok.
  apply io_bind_ok in Hp as ([entries total] & d1 & (-> & He & Ht)%scan_children_ok & Hp).
  cbn in He. subst entries.
  pose proof (total_length_filter is_managed dir (wf_lengths _ Hwf)) as Hb.
  assert (Forall (fun e => 0 <= e_length e)%Z (List.filter is_managed dir)) as Hm.
  { apply Forall_forall. intros e He%list_elem_of_In. apply filter_In in He as [He%list_elem_of_In _].
    by eapply Forall_forall in He; [|apply Hwf]. }
  rewrite saturating_total in Ht by (done || lia || (pose proof (wf_total _ Hwf); lia)).
  assert (total = aged_total (drop 0 (eviction_order dir))) as ->.
  { rewrite drop_0, (aged_total_perm _ _ (eviction_order_perm dir)), aged_total_map. lia. }
  fold (eviction_order dir) in Hp.
  replace (length (map aged (List.filter is_managed dir))) with (length (eviction_order dir) - 0) in Hp
    by (rewrite (Permutation_length (eviction_order_perm dir)); lia).
  apply (evict_ok limits clock (eviction_order dir) 0) in Hp as (k & _ & Hk & Hend & Hmin & ->); [| |lia].
  - exists k. split; [done|done|intros i Hi; apply Hmin; lia|].
    by rewrite without_app, Nat.sub_0_r.
  - rewrite (eviction_order_perm dir). apply Forall_fmap. eapply Forall_impl; [exact Hm|]. done.
Qed.

Section Pruned.
Context limits clock dir dir' k (Hwf : wf_dir dir) (HP : Prune limits clock dir dir' k).

Lemma elem_of_names_take e :
  e ∈ dir -> is_managed e = true ->
  e_name e ∈ map (fun a : Aged => a.2.1) (take k (eviction_order dir)) <-> aged e ∈ take k (eviction_order dir).
Proof.
  intros He Hm. rewrite list_elem_of_fmap. split; [|intros Ha; by exists (aged e)].
  intros (a & Hn & Ha). assert (a ∈ eviction_order dir) as Hin.
  { rewrite <- (take_drop k (eviction_order dir)). apply elem_of_app. by left. }
  rewrite eviction_order_perm in Hin. apply list_elem_of_fmap in Hin as (e' & -> & He').
  apply list_elem_of_In, filter_In in He' as [He'%list_elem_of_In _].
  by rewrite (same_entry dir e e' Hwf He He' Hn).
Qed.

Lemma aged_order e : e ∈ dir -> is_managed e = true -> aged e ∈ eviction_order dir.
Proof.
  intros He Hm. rewrite eviction_order_perm. apply list_elem_of_fmap. exists e. split; [done|].
  apply list_elem_of_In, filter_In. by rewrite <- list_elem_of_In.
Qed.

Lemma evicted_or_kept e :
  e ∈ dir -> is_managed e = true ->
  aged e ∈ drop k (eviction_order dir) <-> aged e ∉ take k (eviction_order dir).
Proof.
  intros He Hm. pose proof (aged_order e He Hm) as Hin.
  assert (NoDup (eviction_order dir)) as Hnd by (eapply NoDup_fmap_1, eviction_order_names; done).
  rewrite <- (take_drop k (eviction_order dir)) in Hin, Hnd.
  apply NoDup_app in Hnd as (_ & Hdis & _). apply elem_of_app in Hin. naive_solver.
Qed.

Lemma elem_of_pruned e :
  e ∈ dir' <-> e ∈ dir /\ is_abandoned e = false /\ (is_managed e = true -> aged e ∈ drop k (eviction_order dir)).
Proof.
  rewrite (pn_dir _ _ _ _ _ HP), elem_of_without, elem_of_app.
  assert (Hab : e ∈ dir -> e_name e ∈ map e_name (List.filter is_abandoned dir) <-> is_abandoned e = true).
  { intros He. rewrite list_elem_of_fmap. split.
    - intros (e' & Hn & He'). apply list_elem_of_In, filter_In in He' as [He'%list_elem_of_In Ha].
      by rewrite (same_entry dir e e' Hwf He He' Hn).
    - intros Ha. exists e. split; [done|]. apply list_elem_of_In, filter_In. by rewrite <- list_elem_of_In. }
  assert (Hmg : e ∈ dir -> e_name e ∈ map (fun a : Aged => a.2.1) (take k (eviction_order dir)) <->
    is_managed e = true /\ aged e ∈ take k (eviction_order dir)).
  { intros He. split; [|intros [? ?]; by apply elem_of_names_take].
    intros Hn. assert (is_managed e = true) as Hm; [|by rewrite <- elem_of_names_take].
    apply list_elem_of_fmap in Hn as (a & Hn & Ha). assert (a ∈ eviction_order dir) as Hin.
    { rewrite <- (take_drop k (eviction_order dir)). apply elem_of_app. by left. }
    rewrite eviction_order_perm in Hin. apply list_elem_of_fmap in Hin as (e' & -> & He').
    apply list_elem_of_In, filter_In in He' as [He'%list_elem_of_In Hm].
    by rewrite (same_entry dir e e' Hwf He He' Hn). }
  split.
  - intros [He Hn]. split; [done|]. rewrite Hab, Hmg in Hn by done.
    split; [destruct (is_abandoned e); tauto|]. intros Hm. apply evicted_or_kept; [done..|]. tauto.
  - intros (He & Ha & Hk). split; [done|]. rewrite Hab, Hmg by done. rewrite Ha.
    intros [?|[Hm Ht]]; [done|]. by apply evicted_or_kept in Ht; [|done..|apply Hk].
Qed.

Lemma pruned_managed : map aged (List.filter is_managed dir') ≡ₚ drop k (eviction_order dir).
Proof.
  assert (wf_dir dir') as Hwf' by (rewrite (pn_dir _ _ _ _ _ HP); by apply wf_dir_without).
  apply NoDup_Permutation.
  - rewrite <- (eviction_order_perm dir'). eapply NoDup_fmap_1, eviction_order_names; done.
  - apply sublist_NoDup with (eviction_order dir); [|apply sublist_drop].
    eapply NoDup_fmap_1, eviction_order_names; done.
  - intros a. rewrite list_elem_of_fmap. split.
    + intros (e & -> & He). apply list_elem_of_In, filter_In in He as [He%list_elem_of_In Hm].
      apply elem_of_pruned in He as (_ & _ & Hk). auto.
    + intros Ha. assert (a ∈ eviction_order dir) as Hin.
      { rewrite <- (take_drop k (eviction_order dir)). apply elem_of_app. by right. }
      rewrite eviction_order_perm in Hin. apply list_elem_of_fmap in Hin as (e & -> & He).
      apply list_elem_of_In, filter_In in He as [He%list_elem_of_In Hm]. exists e. split; [done|].
      apply list_elem_of_In, filter_In. rewrite <- list_elem_of_In. split; [|done].
      apply elem_of_pruned. split; [done|]. split; [|done]. unfold is_managed in Hm. unfold is_abandoned.
      destruct (e_is_file e), (abandoned_name _ _); done.
Qed.

Lemma pruned_budget :
  (0 <= lim_bytes limits)%Z ->
  length (List.filter is_managed dir') <= lim_entries limits /\
  (total_length (List.filter is_managed dir') <= lim_bytes limits)%Z.
Proof.
  intros Hb. pose proof (Permutation_length pruned_managed) as Hlen. rewrite length_map, length_drop in Hlen.
  rewrite Hlen, <- aged_total_map, (aged_total_perm _ _ pruned_managed).
  destruct (pn_stop _ _ _ _ _ HP) as [->|(a & _ & _ & ? & ?)]; [|done].
  rewrite drop_ge by lia. cbn. lia.
Qed.
End Pruned.

(** ** Renaming into place *)

Lemma lookup_entry_some name dir e : lookup_entry name dir = Some e -> e ∈ dir /\ e_name e = name.
Proof.
  unfold lookup_entry. intros [He Hn]%find_some. apply list_elem_of_In in He.
  split; [done|]. by apply String.eqb_eq in Hn.
Qed.

Lemma rename_ok source destination dir u dir' :
  wf_dir dir -> rename fails source destination dir = (Ok u, dir') ->
  wf_dir dir' /\ exists e, lookup_entry source dir = Some e /\
    mkEntry destination (e_is_file e) (e_length e) (e_modified e) (e_content e) ∈ dir'.
Proof.
  intros Hwf. unfold rename. destruct (fails _ _); [done|]. intros (d & d1 & [= <- <-] & Hr)%io_bind_ok.
  destruct (lookup_entry source dir) as [e|] eqn:He; [|done]. injection Hr as _ <-.
  set (p := fun e => String.eqb (e_name e) source || negb (String.eqb (e_name e) destination)).
  set (g := fun e => if String.eqb (e_name e) source
    then mkEntry destination (e_is_file e) (e_length e) (e_modified e) (e_content e) else e).
  assert (Hlen : forall l, total_length (map g l) = total_length l).
  { intros l. induction l as [|x l IH]; [done|]. unfold total_length in *. cbn. rewrite IH.
    unfold g at 1. by destruct (String.eqb _ _). }
  split.
  - destruct Hwf as [Hn Hl Ht]. split.
    + rewrite map_map.
      replace (map (fun x => e_name (g x)) (List.filter p dir)) with
        (map (fun n => if String.eqb n source then destination else n) (map e_name (List.filter p dir))).
      2: { rewrite map_map. apply map_ext. intros x. unfold g. by destruct (String.eqb _ _). }
      apply NoDup_fmap_2_strong.
      * intros x y (ex & -> & Hx)%list_elem_of_fmap (ey & -> & Hy)%list_elem_of_fmap.
        apply list_elem_of_In, filter_In in Hx as [_ Hx], Hy as [_ Hy]. unfold p in Hx, Hy.
        destruct (String.eqb_spec (e_name ex) source) as [Ex|_], (String.eqb_spec (e_name ey) source) as [Ey|_];
          cbn [orb] in Hx, Hy; [congruence| | |done].
        -- intros Heq. by rewrite Heq, String.eqb_refl in Hy.
        -- intros Heq. by rewrite Heq, String.eqb_refl in Hx.
      * eapply sublist_NoDup; [exact Hn|]. apply fmap_sublist, filter_sublist.
    + apply Forall_fmap, Forall_forall. intros x Hx. apply list_elem_of_In, filter_In in Hx as [Hx%list_elem_of_In _].
      eapply Forall_forall in Hl; [|exact Hx]. unfold g. cbn. by destruct (String.eqb _ _).
    + rewrite Hlen. pose proof (total_length_filter p dir Hl). lia.
  - exists e. split; [done|]. apply lookup_entry_some in He as [He Hn].
    apply list_elem_of_fmap. exists e. unfold g. rewrite Hn, String.eqb_refl. split; [done|].
    apply list_elem_of_In, filter_In. rewrite <- list_elem_of_In. split; [done|].
    unfold p. by rewrite Hn, String.eqb_refl.
Qed.
End Retention.

(** Pruning evicts the least recently used.  On a directory with distinct
    names whose lengths fit a [u64], a successful prune removes the files
    abandoned writers left and a prefix of the managed files in order of
    (modification time, path, length) - the shortest prefix after which the
    next file is fresh and what remains is within both limits - and every other
    entry stays. *)
Theorem prune_exact fails proc_exists to_string_lossy limits clock dir dir' :
  wf_dir dir -> prune fails proc_exists to_string_lossy limits clock dir = (Ok tt, dir') ->
  let managed := is_managed proc_exists to_string_lossy in
  let abandoned := is_abandoned proc_exists to_string_lossy in
  let order := eviction_order proc_exists to_string_lossy dir in
  exists k, k <= length order /\
    (k = length order \/ may_stop limits clock order k) /\
    (forall i, i < k -> ~ may_stop limits clock order i) /\
    forall e, e ∈ dir' <-> e ∈ dir /\ abandoned e = false /\ (managed e = true -> aged e ∈ drop k order).
Proof.
  intros Hwf (k & HP)%prune_ok; [|done]. exists k. split_and!; [apply HP|apply HP|apply HP|].
  intros e. eapply elem_of_pruned; [done|exact HP].
Qed.

(** C29: the budget.  After a successful prune the managed files are at most
    [limits.entries] and their lengths add up to at most [limits.bytes], no
    abandoned file is left, and nothing the cache does not manage was touched. *)
Theorem prune_budget fails proc_exists to_string_lossy limits clock dir dir' :
  wf_dir dir -> (0 <= lim_bytes limits)%Z ->
  prune fails proc_exists to_string_lossy limits clock dir = (Ok tt, dir') ->
  let managed := is_managed proc_exists to_string_lossy in
  let abandoned := is_abandoned proc_exists to_string_lossy in
  length (List.filter managed dir') <= lim_entries limits /\
  (total_length (List.filter managed dir') <= lim_bytes limits)%Z /\
  (forall e, e ∈ dir' -> e ∈ dir /\ abandoned e = false) /\
  (forall e, e ∈ dir -> managed e = false -> abandoned e = false -> e ∈ dir').
Proof.
  intros Hwf Hb (k & HP)%prune_ok managed abandoned; [|done].
  destruct (pruned_budget _ _ _ _ _ _ _ Hwf HP Hb) as [Hcount Htotal]. split; [exact Hcount|].
  split; [exact Htotal|]. split.
  - intros e (? & ? & _)%(elem_of_pruned _ _ _ _ _ _ _ Hwf HP). done.
  - intros e He Hm Ha. apply (elem_of_pruned _ _ _ _ _ _ _ Hwf HP).
    split_and!; [done|done|]. intros Hm'. unfold managed in Hm. congruence.
Qed.

(** C30: publication.  If [publish_with_limits] reports an artifact published,
    the destination is in the directory with the content of the temporary file,
    which is no longer than [limits.bytes], and the cache is within its budget. *)
Theorem publish_sound fails proc_exists to_string_lossy limits clock1 clock2 temporary destination dir dir' :
  wf_dir dir -> (0 <= lim_bytes limits)%Z ->
  publish_with_limits fails proc_exists to_string_lossy limits clock1 clock2 temporary destination dir = (Ok true, dir') ->
  (exists source e, source ∈ dir /\ e_name source = temporary /\
     e ∈ dir' /\ e_name e = destination /\ e_length e = e_length source /\ e_content e = e_content source /\
     (e_length e <= lim_bytes limits)%Z) /\
  lim_entries limits <> 0 /\
  length (List.filter (is_managed proc_exists to_string_lossy) dir') <= lim_entries limits /\
  (total_length (List.filter (is_managed proc_exists to_string_lossy) dir') <= lim_bytes limits)%Z.
Proof.
  intros Hwf Hb Hpub. unfold publish_with_limits in Hpub.
  apply io_bind_ok in Hpub as (u & d0 & Hlock & Hpub).
  assert (d0 = dir) as -> by (unfold lock in Hlock; destruct (fails _ _); [done|by injection Hlock]).
  apply io_bind_ok in Hpub as ([] & d1 & (k1 & HP1)%prune_ok & Hpub); [|done].
  assert (wf_dir d1) as Hwf1 by (rewrite (pn_dir _ _ _ _ _ _ _ HP1); by apply wf_dir_without).
  apply io_bind_ok in Hpub as (refused & d2 & Hrefused & Hpub).
  destruct refused; [by apply io_bind_ok in Hpub as (? & ? & _ & [=])|].
  apply io_bind_ok in Hpub as ([] & d3 & Hren & Hpub).
  apply io_bind_ok in Hpub as ([] & d4 & Hprune & Hpub).
  apply io_bind_ok in Hpub as (d & d5 & [= <- <-] & [= Hex <-]).
  destruct (Nat.eqb_spec (lim_entries limits) 0) as [Hz|Hz]; [by injection Hrefused|].
  apply io_bind_ok in Hrefused as (len & d5 & Hmeta & [= Hlen ->]).
  unfold metadata_len in Hmeta. destruct (fails CallMetadata temporary); [done|].
  apply io_bind_ok in Hmeta as (d' & d6 & [= <- <-] & Hmeta).
  destruct (lookup_entry temporary d1) as [source|] eqn:Hsource; [|done]. injection Hmeta as <- <-.
  destruct (rename_ok _ _ _ _ _ _ Hwf1 Hren) as (Hwf3 & e & He & Hin). rewrite Hsource in He. injection He as <-.
  apply prune_ok in Hprune as (k2 & HP2); [|done].
  destruct (pruned_budget _ _ _ _ _ _ _ Hwf3 HP2 Hb) as [Hcount Htotal].
  split; [|by split_and!]. apply lookup_entry_some in Hsource as [Hs Hn].
  exists source. apply bool_decide_eq_true in Hex as [e Hd]. apply lookup_entry_some in Hd as [Hd Hname].
  exists e. assert (e = mkEntry destination (e_is_file source) (e_length source) (e_modified source) (e_content source)) as Heq.
  { apply (same_entry d3); [done| |done|done]. by apply (elem_of_pruned _ _ _ _ _ _ _ Hwf3 HP2) in Hd as [? _]. }
  apply (elem_of_pruned _ _ _ _ _ _ _ Hwf HP1) in Hs as [Hs _].
  apply Z.ltb_ge in Hlen. subst e. by split_and!.
Qed.

(** ** Contents

    However an operation ends, what the directory holds was there before; only a
    publication renames, from its temporary name to its destination. *)
Section Contents.
Context (fails : IoCall -> string -> bool) (proc_exists : string -> bool) (to_string_lossy : string -> string).

Definition renamed_from (temporary destination : string) (dir dir' : Directory) : Prop :=
  forall e, e ∈ dir' -> exists e0, e0 ∈ dir /\ e_content e = e_content e0 /\
    (e_name e = e_name e0 \/ e_name e0 = temporary /\ e_name e = destination).

Lemma renamed_refl temporary destination dir : renamed_from temporary destination dir dir.
Proof. intros e He. exists e. auto. Qed.

Lemma remove_file_subset name dir : (remove_file fails name dir).2 ⊆ dir.
Proof.
  unfold remove_file. destruct (fails _ _); [done|]. unfold mbind, io_bind. cbn.
  destruct (lookup_entry name dir) as [e|]; [|done]. destruct (e_is_file e); [|done].
  intros x Hx%elem_of_filterb. tauto.
Qed.

Lemma io_bind_subset {A B} (m : Io A) (f : A -> Io B) dir :
  (m dir).2 ⊆ dir -> (forall a dir1, (f a dir1).2 ⊆ dir1) -> ((m ≫= f) dir).2 ⊆ dir.
Proof.
  intros Hm Hf. unfold mbind, io_bind. destruct (m dir) as [[a|e|message] dir1]; cbn in *; [|done|done].
  etrans; [apply Hf|done].
Qed.

Lemma scan_children_subset children entries total dir :
  (scan_children fails proc_exists to_string_lossy children entries total dir).2 ⊆ dir.
Proof.
  revert entries total dir. induction children as [|child rest IH]; intros entries total dir; cbn [scan_children].
  { by destruct (fails _ _). }
  apply io_bind_subset; [|by intros [? ?] dir1]. unfold scan_child.
  destruct (fails CallEntry _); [done|]. destruct (fails CallFileType _); [done|]. destruct (negb (e_is_file child)); [done|].
  destruct (abandoned_name _ _).
  - apply io_bind_subset; [apply remove_file_subset|done].
  - destruct (negb (managed_name _)); [done|]. by destruct (fails CallMetadata _).
Qed.

Lemma evict_subset limits clock i entries total remaining dir :
  (evict fails limits clock i entries total remaining dir).2 ⊆ dir.
Proof.
  revert i total remaining dir. induction entries as [|[used [path length]] rest IH]; intros i total remaining dir; [done|].
  cbn [evict]. destruct (_ && _ && _); [done|]. apply io_bind_subset; [apply remove_file_subset|intros _ dir1; apply IH].
Qed.

Lemma prune_subset limits clock dir : (prune fails proc_exists to_string_lossy limits clock dir).2 ⊆ dir.
Proof.
  unfold prune. apply io_bind_subset; [by destruct (fails _ _)|]. intros children dir1.
  apply io_bind_subset; [apply scan_children_subset|]. intros [entries total] dir2. apply evict_subset.
Qed.

Lemma rename_renamed temporary destination dir :
  renamed_from temporary destination dir (rename fails temporary destination dir).2.
Proof.
  unfold rename. destruct (fails _ _); [apply renamed_refl|]. unfold mbind, io_bind. cbn.
  destruct (lookup_entry temporary dir) as [old|]; [|apply renamed_refl]. intros e (e0 & -> & Hin)%list_elem_of_fmap.
  apply elem_of_filterb in Hin as [Hin _]. exists e0. split; [done|].
  destruct (String.eqb_spec (e_name e0) temporary); cbn; auto.
Qed.

Lemma subset_renamed temporary destination dir dir' : dir' ⊆ dir -> renamed_from temporary destination dir dir'.
Proof. intros Hsub e He. exists e. auto. Qed.

Lemma publish_renamed limits clock1 clock2 temporary destination dir :
  renamed_from temporary destination dir
    (publish fails proc_exists to_string_lossy limits clock1 clock2 temporary destination dir).2.
Proof.
  assert (renamed_from temporary destination dir
    (publish_with_limits fails proc_exists to_string_lossy limits clock1 clock2 temporary destination dir).2) as Hp.
  { unfold publish_with_limits. unfold mbind at 1, io_bind at 1. unfold lock. destruct (fails _ _); [apply renamed_refl|].
    cbn [mret io_ret]. unfold mbind at 1, io_bind at 1. pose proof (prune_subset limits clock1 dir) as Hsub.
    destruct (prune _ _ _ limits clock1 dir) as [[[]|err|m] dir1]; cbn [snd] in Hsub; [|by apply subset_renamed..].
    unfold mbind at 1, io_bind at 1. set (check := if Nat.eqb _ _ then _ else _).
    assert ((check dir1).2 = dir1) as Hcheck.
    { unfold check. destruct (Nat.eqb _ _); [done|]. unfold metadata_len. destruct (fails _ _); [done|].
      unfold mbind, io_bind. cbn. by destruct (lookup_entry temporary dir1). }
    destruct (check dir1) as [[refused|err|m] dir2]; cbn [snd] in Hcheck; subst dir2; [|by apply subset_renamed..].
    destruct refused.
    - apply subset_renamed. etrans; [|exact Hsub]. apply io_bind_subset; [apply remove_file_subset|done].
    - unfold mbind at 1, io_bind at 1. pose proof (rename_renamed temporary destination dir1) as Hren.
      destruct (rename _ temporary destination dir1) as [[[]|err|m] dir2]; cbn [snd] in Hren.
      2-3: intros e' He'; destruct (Hren e' He') as (e0 & ? & ? & ?); exists e0; auto.
      assert (forall (k : unit -> Io bool), (forall a d, (k a d).2 ⊆ d) ->
        ((prune fails proc_exists to_string_lossy limits clock2 ≫= k) dir2).2 ⊆ dir2) as Hafter
        by (intros k Hk; apply io_bind_subset; [apply prune_subset|done]).
      intros e' He'. apply Hafter in He'; [|done]. destruct (Hren e' He') as (e0 & ? & ? & ?). exists e0. auto. }
  unfold publish. by destruct (publish_with_limits _ _ _ _ _ _ _ _ dir) as [[b|e|m] dir'].
Qed.
End Contents.

(** ** A cache to apply them at *)
Section Sample.
Local Open Scope string_scope.
Local Open Scope list_scope.

Fixpoint repeated (n : nat) (s : string) : string := match n with O => "" | S n => s +:+ repeated n s end.
Definition digest_name (digit : string) : string := repeated 64 digit +:+ ".json.gz".

(** Two entries, an unrelated file, a temporary of a dead writer and one that
    is about to be published. *)
Definition sample_dir : Directory := [
  mkEntry (digest_name "a") true 4 (Some 10%Z) None;
  mkEntry "evidence.json.gz" true 4 (Some 0%Z) None;
  mkEntry (digest_name "b") true 4 (Some 20%Z) None;
  mkEntry (repeated 64 "d" +:+ ".4294967295.1.json.gz.tmp") true 9 (Some 5%Z) None;
  mkEntry "c.tmp" true 4 (Some 30%Z) None].
Definition sample_limits : Limits := mkLimits 8 2 1000.
Definition no_failure (_ : IoCall) (_ : string) : bool := false.
Definition no_process (_ : string) : bool := false.
Definition at_40 (_ : nat) : Z := 40.

Lemma sample_dir_wf : wf_dir sample_dir.
Proof.
  split.
  - apply (bool_decide_unpack _). vm_compute. exact I.
  - repeat constructor; cbn; lia.
  - vm_compute. discriminate.
Qed.

(** The oldest entry makes room for the new one, and nothing else goes. *)
Definition sample_published : Directory := [
  mkEntry "evidence.json.gz" true 4 (Some 0%Z) None;
  mkEntry (digest_name "b") true 4 (Some 20%Z) None;
  mkEntry (digest_name "c") true 4 (Some 30%Z) None].
Lemma sample_published_ok :
  publish_with_limits no_failure no_process (fun s => s) sample_limits at_40 at_40 "c.tmp" (digest_name "c") sample_dir
  = (Ok true, sample_published).
Proof. vm_compute. reflexivity. Qed.

Lemma publish_sound_witness :
  exists e, e ∈ sample_published /\ e_name e = digest_name "c" /\ (e_length e <= 8)%Z.
Proof.
  destruct (publish_sound no_failure no_process (fun s => s) sample_limits at_40 at_40 "c.tmp" (digest_name "c")
    sample_dir sample_published sample_dir_wf) as [(source & e & _ & _ & He & Hn & _ & _ & Hl) _].
  - cbn. lia.
  - exact sample_published_ok.
  - exists e. split_and!; [exact He|exact Hn|exact Hl].
Defined.

Definition sample_pruned : Directory := [
  mkEntry "evidence.json.gz" true 4 (Some 0%Z) None;
  mkEntry (digest_name "b") true 4 (Some 20%Z) None;
  mkEntry "c.tmp" true 4 (Some 30%Z) None].
Definition one_entry : Limits := mkLimits 8 1 1000.

Lemma prune_exact_witness :
  mkEntry (digest_name "b") true 4 (Some 20%Z) None ∈ sample_pruned /\
  exists k, ~ may_stop one_entry at_40 (eviction_order no_process (fun s => s) sample_dir) 0 \/ k = 0.
Proof.
  assert (prune no_failure no_process (fun s => s) one_entry at_40 sample_dir = (Ok tt, sample_pruned)) as Hp
    by (vm_compute; reflexivity).
  destruct (prune_exact no_failure no_process (fun s => s) one_entry at_40 sample_dir sample_pruned sample_dir_wf Hp)
    as (k & Hk & _ & Hmin & Hin).
  split; [right; left|]. exists k. destruct k; [by right|left; apply Hmin; lia].
Defined.

Lemma prune_budget_witness :
  length (List.filter (is_managed no_process (fun s => s)) sample_pruned) <= 1.
Proof.
  assert (prune no_failure no_process (fun s => s) one_entry at_40 sample_dir = (Ok tt, sample_pruned)) as Hp
    by (vm_compute; reflexivity).
  destruct (prune_budget no_failure no_process (fun s => s) one_entry at_40 sample_dir sample_pruned sample_dir_wf)
    as [Hcount _]; [cbn; lia|exact Hp|exact Hcount].
Defined.
End Sample.
