(* ===== verification/BackendRoots.v ===== *)
(** Selecting backend roots and projecting a program onto them:
    [tools/stage0-probe/src/main.rs], from [parse_backend_root_selection] to
    [backend_program_projection].  Definitions only. *)

From Stdlib Require Import Ascii.
From S2P Require Export Program Text.

Record BackendRootSelection : Type := mkSelection { selectors : list string }.

Record BackendProgramProjection : Type := mkProjection {
  bp_program : Program;
  bp_root_function_identities : list string;
  bp_included_function_identities : list string;
  bp_body_function_count : nat;
  bp_original_function_count : nat;
  bp_retained_specialization_count : nat
}.

Section BackendRoots.
Context `{ModelCrate, ProgramCrate}.
(** [serde_json::to_string] of a list of strings, and [{:?}] of a string. *)
Context (json_strings : list string -> string) (debug : string -> string).
Local Open Scope string_scope.
Local Open Scope list_scope.

(** ** The request *)

Definition parse_backend_root_selection (raw : option string) : option BackendRootSelection :=
  raw ← raw;
  match dedup (sort_by ord_leb (List.filter (fun s => negb (String.eqb s "")) (map trim (split_on ","%char raw)))) with
  | [] => None
  | selectors => Some (mkSelection selectors)
  end.

Definition backend_root_cache_key (base_key : string) (selection : BackendRootSelection) : string :=
  sha256_hex ("probe-backend-root-closure/2" +:+ newline +:+ base_key +:+ newline
    +:+ json_strings (selectors selection)).

(** ** Selection *)

Abbreviation Index := (list (SemanticId * Function) * list (string * list SemanticId))%type.

Definition index_function (p : Program) (st : Index) (f : Function) : Outcome string Index :=
  let '(functions_by_identity, identities_by_name) := st in
  let identity := function_identity p f in
  let '(previous, functions_by_identity) := bm_insert identity f functions_by_identity in
  match previous with
  | Some _ => Err ("Program contains duplicate function identity " +:+ identity)
  | None =>
      Ok (functions_by_identity,
          bm_update (fn_name f) [] (fun identities => identities ++ [identity]) identities_by_name)
  end.

(** The candidates of one selector: all functions of its name, or those of its
    namespace. *)
Definition selector_candidates (p : Program) (functions_by_identity : list (SemanticId * Function))
  (identities_by_name : list (string * list SemanticId)) (selector : string) : Outcome string (list SemanticId) :=
  let '(requested_namespace, requested_name) :=
    match rsplit_once "::" selector with
    | Some (namespace, name) => (Some namespace, name)
    | None => (None, selector)
    end in
  flags ← map_outcome (fun identity =>
      match requested_namespace with
      | None => Ok (identity, true)
      | Some namespace =>
          f ← expect "identity index is consistent" (bm_get identity functions_by_identity);
          Ok (identity, String.eqb (identity_namespace f (p_module p)) namespace)
      end) (default [] (bm_get requested_name identities_by_name));
  Ok (map fst (List.filter snd flags)).

Definition select_root (p : Program) (functions_by_identity : list (SemanticId * Function))
  (identities_by_name : list (string * list SemanticId)) (selected_roots : list SemanticId) (selector : string)
  : Outcome string (list SemanticId) :=
  candidates ← selector_candidates p functions_by_identity identities_by_name selector;
  match candidates with
  | [identity] => Ok (bs_add identity selected_roots)
  | [] => Err ("backend root selector " +:+ debug selector +:+ " does not identify a function in " +:+ p_module p)
  | _ => Err ("backend root selector " +:+ debug selector
           +:+ " is ambiguous; use namespace::function (candidates: " +:+ String.concat ", " candidates +:+ ")")
  end.

Definition select_backend_root_functions (p : Program) (selection : BackendRootSelection)
  : Outcome string (list (SemanticId * Function) * list SemanticId) :=
  '(functions_by_identity, identities_by_name) ← fold_outcome (index_function p) ([], []) (p_functions p);
  selected_roots ← fold_outcome (select_root p functions_by_identity identities_by_name) [] (selectors selection);
  Ok (functions_by_identity, selected_roots).

(** The concrete specializations of a generic. *)
Definition specializations (p : Program) (generic : SemanticId) : list SemanticId :=
  map gs_specialization_function
    (List.filter (fun record => bool_decide (gs_generic_function record = generic)) (p_generic_specializations p)).

Definition no_specialization (root : SemanticId) : string :=
  "generic backend root " +:+ root +:+ " has no concrete specialization in this Program".

Definition executable_root (p : Program) (functions_by_identity : list (SemanticId * Function))
  (executable_roots : list SemanticId) (root : SemanticId) : Outcome string (list SemanticId) :=
  f ← expect "selected root exists" (bm_get root functions_by_identity);
  match fn_generic_params f with
  | [] => Ok (bs_add root executable_roots)
  | _ =>
      match specializations p root with
      | [] => Err (no_specialization root)
      | ids => Ok (bs_extend executable_roots ids)
      end
  end.

Definition executable_backend_root_exports (p : Program) (selection : BackendRootSelection)
  : Outcome string (list (string * string)) :=
  '(functions_by_identity, roots) ← select_backend_root_functions p selection;
  executable_roots ← fold_outcome (executable_root p functions_by_identity) [] roots;
  pairs ← map_outcome (fun identity =>
      f ← ok_or ("backend executable root " +:+ identity +:+ " has no function declaration")
        (bm_get identity functions_by_identity);
      Ok (qualified p f)) executable_roots;
  Ok (bs_of_list pairs).

(** ** Projection *)

(** [metadata_only] and the stack the loop starts from; the top is the head. *)
Definition start_root (p : Program) (functions_by_identity : list (SemanticId * Function))
  (st : list SemanticId * list SemanticId) (root : SemanticId) : Outcome string (list SemanticId * list SemanticId) :=
  let '(metadata_only, pending) := st in
  f ← expect "selected root exists" (bm_get root functions_by_identity);
  match fn_generic_params f with
  | [] => Ok (metadata_only, root :: pending)
  | _ =>
      match specializations p root with
      | [] => Err (no_specialization root)
      | ids => Ok (bs_add root metadata_only, rev ids ++ pending)
      end
  end.

(** The generics a popped specialization belongs to. *)
Definition owners (p : Program) (identity : SemanticId) : list SemanticId :=
  map gs_generic_function
    (List.filter (fun record => bool_decide (gs_specialization_function record = identity))
      (p_generic_specializations p)).

Definition function_callees (f : Function) : list SemanticId :=
  match fn_body f with Some body => body_callees body | None => [] end.

Definition missing_function (identity : SemanticId) : string :=
  "backend call closure references missing function identity " +:+ identity.

Record Closure : Type := mkClosure {
  cl_included : list SemanticId; cl_body_closure : list SemanticId; cl_metadata_only : list SemanticId
}.

Fixpoint close_bodies (fuel : nat) (p : Program) (functions_by_identity : list (SemanticId * Function))
  (pending : list SemanticId) (st : Closure) : Outcome string Closure :=
  match fuel with
  | O => Panic "out of fuel"
  | S fuel =>
      match pending with
      | [] => Ok st
      | identity :: rest =>
          if bs_mem identity (cl_body_closure st) then close_bodies fuel p functions_by_identity rest st
          else
            let body_closure := bs_add identity (cl_body_closure st) in
            let included := bs_add identity (cl_included st) in
            let metadata_only := bs_remove identity (cl_metadata_only st) in
            f ← ok_or (missing_function identity) (bm_get identity functions_by_identity);
            let included := bs_extend included (owners p identity) in
            let metadata_only := bs_extend metadata_only (owners p identity) in
            close_bodies fuel p functions_by_identity (rev (function_callees f) ++ rest)
              (mkClosure included body_closure metadata_only)
      end
  end.

(** What the loop makes of one popped identity, for the bound on its length. *)
Definition expand_body (functions_by_identity : list (SemanticId * Function)) (identity : SemanticId)
  : Outcome string (list SemanticId) :=
  f ← ok_or (missing_function identity) (bm_get identity functions_by_identity);
  Ok (function_callees f).

Definition project_function (p : Program) (st : Closure) (f : Function) : option Function :=
  let identity := function_identity p f in
  if negb (bs_mem identity (cl_included st)) then None
  else if bs_mem identity (cl_metadata_only st) && negb (bs_mem identity (cl_body_closure st))
  then Some (clear_body f) else Some f.

Definition backend_program_projection (p : Program) (selection : BackendRootSelection)
  : Outcome string BackendProgramProjection :=
  '(functions_by_identity, selected_roots) ← select_backend_root_functions p selection;
  '(metadata_only, pending) ← fold_outcome (start_root p functions_by_identity) ([], []) selected_roots;
  st ← close_bodies (enough (expand_body functions_by_identity) (bm_keys functions_by_identity) pending)
         p functions_by_identity pending (mkClosure metadata_only [] metadata_only);
  let projected := {|
    p_module := p_module p;
    p_dependencies := p_dependencies p;
    p_functions := omap (project_function p st) (p_functions p);
    p_record_types := p_record_types p;
    p_finite_types := p_finite_types p;
    p_generic_specializations := List.filter (fun record =>
      bs_mem (gs_generic_function record) (cl_included st)
      && bs_mem (gs_specialization_function record) (cl_included st)) (p_generic_specializations p);
    p_assumptions := p_assumptions p;
    p_rest := p_rest p |} in
  match program_errors projected with
  | Some errors => Err ("backend root closure is not a valid semantic Program: " +:+ errors)
  | None =>
      Ok {| bp_program := projected;
            bp_root_function_identities := selected_roots;
            bp_included_function_identities := cl_included st;
            bp_body_function_count :=
              length (List.filter (fun f => bool_decide (is_Some (fn_body f))) (p_functions projected));
            bp_original_function_count := length (p_functions p);
            bp_retained_specialization_count := length (p_generic_specializations projected) |}
  end.
End BackendRoots.
