(* ===== verification/BackendRootsTheorems.v ===== *)
(** Correctness of backend root selection and projection. *)

From Stdlib Require Import Ascii.
From S2P Require Export BackendRoots AppProgramTheorems.

Section Spec.
Context `{ModelCrate, ProgramCrate}.

(** ** The index *)

Record FunctionIndexed (p : Program) (fs : list Function) (by_id : list (SemanticId * Function))
  (by_name : list (string * list SemanticId)) : Prop := {
  fi_asc : bm_ascending by_id;
  fi_distinct : NoDup (map (function_identity p) fs);
  fi_get : forall id f, bm_get id by_id = Some f <-> f ∈ fs /\ function_identity p f = id;
  fi_name : forall name, default [] (bm_get name by_name) =
    map (function_identity p) (List.filter (fun f => String.eqb (fn_name f) name) fs)
}.

Lemma index_root_step p fs by_id by_name f st :
  FunctionIndexed p fs by_id by_name -> index_function p (by_id, by_name) f = Ok st ->
  FunctionIndexed p (fs ++ [f]) st.1 st.2.
Proof.
  intros [Ha Hd Hg Hn] Hi. unfold index_function in Hi.
  pose proof (bm_insert_old (function_identity p f) f by_id Ha) as Ho.
  pose proof (bm_insert_put (function_identity p f) f by_id) as Hp.
  destruct (bm_insert _ _ _) as [previous by_id']. cbn in Ho, Hp. destruct previous; [done|].
  injection Hi as <-. subst by_id'. symmetry in Ho.
  assert (forall g, g ∈ fs -> function_identity p g <> function_identity p f) as Hfresh.
  { intros g Hin Heq. assert (bm_get (function_identity p f) by_id = Some g) by (apply Hg; split; done). congruence. }
  cbn. split.
  - by apply bm_put_ascending.
  - rewrite map_app. apply NoDup_app. split; [done|]. split; [|repeat constructor; apply not_elem_of_nil].
    intros x (g & -> & Hin)%list_elem_of_fmap Hx%list_elem_of_singleton. by apply (Hfresh g).
  - intros id g. rewrite bm_get_put, elem_of_app, list_elem_of_singleton. case_decide as Hid.
    + subst id. split; [intros [= <-]; auto|]. intros [[Hin| ->] Heq]; [by apply Hfresh in Heq|done].
    + rewrite Hg. split; [tauto|]. intros [[?| ->] ?]; [done|congruence].
  - intros name. unfold bm_update. rewrite bm_get_put, List.filter_app, map_app. cbn.
    case_decide as Hname.
    + subst name. cbn. by rewrite Hn, String.eqb_refl.
    + rewrite Hn. destruct (String.eqb_spec (fn_name f) name); [congruence|]. by rewrite app_nil_r.
Qed.

Lemma index_functions_indexed p fs by_id by_name :
  fold_outcome (index_function p) ([], []) fs = Ok (by_id, by_name) ->
  FunctionIndexed p fs by_id by_name.
Proof.
  revert by_id by_name. induction fs as [|f fs IH] using rev_ind; intros by_id by_name.
  - intros [= <- <-]. split; [constructor|constructor| |done].
    intros id f. split; [done|by intros [?%elem_of_nil _]].
  - rewrite fold_outcome_app. intros ([i n] & Hi & Hf)%outcome_bind_ok. cbn [fold_outcome] in Hf.
    apply outcome_bind_ok in Hf as (st & Hst & [= ->]).
    by apply (index_root_step p fs i n f _ (IH _ _ Hi)) in Hst.
Qed.

Lemma index_roots_no_panic p fs st message : fold_outcome (index_function p) st fs <> Panic message.
Proof.
  apply fold_outcome_no_panic. intros [i n] f m. unfold index_function.
  by destruct (bm_insert _ _ _) as [[|] ?].
Qed.

(** ** Selectors *)

(** What a selector asks for: a name, or a namespace and a name. *)
Definition matches (p : Program) (selector : string) (f : Function) : Prop :=
  match rsplit_once "::" selector with
  | Some (namespace, name) => fn_name f = name /\ identity_namespace f (p_module p) = namespace
  | None => fn_name f = selector
  end.

Section Selected.
Context (p : Program) (by_id : list (SemanticId * Function)) (by_name : list (string * list SemanticId))
  (debug : string -> string) (HI : FunctionIndexed p (p_functions p) by_id by_name).

Lemma candidates_by_name name id :
  id ∈ default [] (bm_get name by_name) <->
  exists f, f ∈ p_functions p /\ fn_name f = name /\ function_identity p f = id.
Proof.
  rewrite (fi_name _ _ _ _ HI), list_elem_of_fmap. split.
  - intros (f & -> & Hf). apply list_elem_of_In, filter_In in Hf as [Hf%list_elem_of_In Hn].
    apply String.eqb_eq in Hn. eauto.
  - intros (f & Hf & Hn & <-). exists f. split; [done|]. apply list_elem_of_In, filter_In.
    rewrite <- list_elem_of_In, Hn, String.eqb_refl. done.
Qed.

Lemma candidates_NoDup name : NoDup (default [] (bm_get name by_name)).
Proof.
  rewrite (fi_name _ _ _ _ HI). eapply sublist_NoDup; [exact (fi_distinct _ _ _ _ HI)|].
  apply fmap_sublist, filter_sublist.
Qed.

(** The candidates are the functions the selector matches. *)
Lemma selector_candidates_ok selector :
  exists l, selector_candidates p by_id by_name selector = Ok l /\ NoDup l /\
    forall id, id ∈ l <-> exists f, f ∈ p_functions p /\ matches p selector f /\ function_identity p f = id.
Proof.
  unfold selector_candidates, matches. destruct (rsplit_once "::" selector) as [[namespace name]|].
  - set (names := default [] (bm_get name by_name)).
    assert (Hall : forall ids, (forall id, id ∈ ids -> id ∈ names) -> NoDup ids -> exists l,
      (flags ← map_outcome (fun identity =>
         f ← expect "identity index is consistent" (bm_get identity by_id);
         Ok (identity, String.eqb (identity_namespace f (p_module p)) namespace)) ids;
       Ok (map fst (List.filter snd flags))) = @Ok string _ l /\ NoDup l /\
      forall id, id ∈ l <-> id ∈ ids /\ exists f, f ∈ p_functions p /\
        identity_namespace f (p_module p) = namespace /\ function_identity p f = id).
    { induction ids as [|id ids IH]; intros Hin Hnd.
      - exists []. split; [done|]. split; [constructor|]. intros id.
        split; [by intros ?%elem_of_nil|by intros [?%elem_of_nil _]].
      - apply NoDup_cons in Hnd as [Hid Hnd].
        destruct IH as (l & Hl & Hndl & Hlin); [intros; apply Hin; by right|done|].
        assert (id ∈ names) as (f & Hf & Hname & Hfid)%candidates_by_name by (apply Hin; by left).
        assert (bm_get id by_id = Some f) as Hget by (apply (fi_get _ _ _ _ HI); done).
        cbn [map_outcome]. rewrite Hget. cbn [expect mbind outcome_bind].
        apply outcome_bind_ok in Hl as (flags & -> & [= <-]). cbn [mbind outcome_bind List.filter snd].
        assert (Hu : forall g, g ∈ p_functions p -> function_identity p g = id -> g = f).
        { intros g Hg Hgid. assert (bm_get id by_id = Some g) by (apply (fi_get _ _ _ _ HI); done). congruence. }
        destruct (String.eqb_spec (identity_namespace f (p_module p)) namespace) as [Hns|Hns].
        + eexists. split; [reflexivity|]. cbn. split.
          * apply NoDup_cons. split; [|done]. rewrite Hlin. tauto.
          * intros x. rewrite !elem_of_cons, Hlin. split; [|tauto].
            intros [->|[? ?]]; [|tauto]. split; [by left|]. eauto.
        + eexists. split; [reflexivity|]. split; [done|]. intros x. rewrite elem_of_cons, Hlin. split; [tauto|].
          intros [[->|?] (g & Hg & Hgns & Hgid)]; [|eauto]. by rewrite (Hu g Hg Hgid) in Hgns. }
    destruct (Hall names) as (l & Hl & Hnd & Hlin); [done|apply candidates_NoDup|].
    exists l. split; [exact Hl|]. split; [done|]. intros id. rewrite Hlin; unfold names; rewrite candidates_by_name. split.
    + intros [(f & Hf & Hn & Hid) (g & Hg & Hns & Hgid)]. exists f. split; [done|]. split; [|done].
      assert (f = g) as ->; [|done].
      assert (bm_get id by_id = Some f) by (apply (fi_get _ _ _ _ HI); done).
      assert (bm_get id by_id = Some g) by (apply (fi_get _ _ _ _ HI); done). congruence.
    + intros (f & Hf & [Hn Hns] & Hid). split; exists f; done.
  - exists (default [] (bm_get selector by_name)). split.
    + assert (Hids : forall ids : list SemanticId,
        (flags ← map_outcome (fun identity : SemanticId => Ok (identity, true)) ids;
         Ok (map fst (List.filter snd flags))) = @Ok string _ ids).
      { induction ids as [|id ids IH]; [done|]. cbn [map_outcome mbind outcome_bind].
        apply outcome_bind_ok in IH as (flags & -> & [= IH]). cbn. by rewrite IH. }
      apply Hids.
    + split; [apply candidates_NoDup|]. intros id. rewrite candidates_by_name. naive_solver.
Qed.

(** *** One selector after the other *)

(** [id] is the one function [selector] matches. *)
Definition resolves (selector : string) (id : SemanticId) : Prop :=
  forall id', (exists f, f ∈ p_functions p /\ matches p selector f /\ function_identity p f = id') <-> id' = id.

Lemma select_root_spec roots selector :
  match select_root debug p by_id by_name roots selector with
  | Ok roots' => exists id, resolves selector id /\ roots' = bs_add id roots
  | Err _ => ~ exists id, resolves selector id
  | Panic _ => False
  end.
Proof.
  unfold select_root. destruct (selector_candidates_ok selector) as (l & -> & Hnd & Hin).
  cbn [mbind outcome_bind]. destruct l as [|id [|id' l]].
  - intros [id Hid]. apply (not_elem_of_nil id), Hin, Hid. done.
  - exists id. split; [|done]. intros id'. rewrite <- Hin. apply list_elem_of_singleton.
  - intros [x Hx]. assert (id = x) as -> by (apply Hx, Hin; left).
    assert (id' = x) as -> by (apply Hx, Hin; right; left). apply NoDup_cons in Hnd as [Hnd _].
    apply Hnd. left.
Qed.

Lemma select_roots_spec sels roots :
  match fold_outcome (select_root debug p by_id by_name) roots sels with
  | Ok roots' => (ascending roots -> ascending roots') /\
      (forall selector, selector ∈ sels -> exists id, resolves selector id) /\
      forall id, id ∈ roots' <-> id ∈ roots \/ exists selector, selector ∈ sels /\ resolves selector id
  | Err _ => exists selector, selector ∈ sels /\ ~ exists id, resolves selector id
  | Panic _ => False
  end.
Proof.
  revert roots. induction sels as [|s sels IH]; intros roots; cbn [fold_outcome].
  - split; [done|]. split; [by intros ? ?%elem_of_nil|]. intros id. split; [by left|].
    by intros [?|(? & ?%elem_of_nil & _)].
  - pose proof (select_root_spec roots s) as Hs.
    destruct (select_root debug p by_id by_name roots s) as [roots1|e|m]; cbn [mbind outcome_bind];
      [|exists s; split; [left|done]|done].
    destruct Hs as (x & Hx & ->). specialize (IH (bs_add x roots)).
    destruct (fold_outcome _ _ sels) as [roots'|e|m]; [| |done].
    + destruct IH as (Ha & Hall & Hex). split; [intros; apply Ha; by apply bs_add_ascending|]. split.
      * intros sel [->|?]%elem_of_cons; eauto.
      * intros id. rewrite Hex, elem_of_bs_add. setoid_rewrite elem_of_cons. split.
        -- intros [[->|?]|(sel & ? & ?)]; [right; exists s; auto|by left|right; exists sel; auto].
        -- intros [?|(sel & [->|?] & Hr)]; [auto| |right; eauto].
           left. left. apply (Hx id), (Hr id). done.
    + destruct IH as (sel & ? & ?). exists sel. split; [by right|done].
Qed.
End Selected.

(** What [select_backend_root_functions] returns. *)
Record Selected (p : Program) (sels : list string) (by_id : list (SemanticId * Function))
  (roots : list SemanticId) : Prop := {
  sl_asc : bm_ascending by_id;
  sl_distinct : NoDup (map (function_identity p) (p_functions p));
  sl_get : forall id f, bm_get id by_id = Some f <-> f ∈ p_functions p /\ function_identity p f = id;
  sl_roots_asc : ascending roots;
  sl_resolve : forall selector, selector ∈ sels -> exists id, resolves p selector id;
  sl_roots : forall id, id ∈ roots <-> exists selector, selector ∈ sels /\ resolves p selector id
}.

Lemma select_functions_spec debug p selection :
  match select_backend_root_functions debug p selection with
  | Ok (by_id, roots) => Selected p (selectors selection) by_id roots
  | Err _ => True
  | Panic _ => False
  end.
Proof.
  unfold select_backend_root_functions.
  destruct (fold_outcome (index_function p) _ _) as [[by_id by_name]|e|m] eqn:Hi; cbn [mbind outcome_bind]; [|done|].
  2: { by destruct (index_roots_no_panic p _ _ _ Hi). }
  apply index_functions_indexed in Hi as HI.
  pose proof (select_roots_spec p by_id by_name debug HI (selectors selection) []) as Hs.
  destruct (fold_outcome (select_root _ _ _ _) _ _) as [roots|e|m]; cbn [mbind outcome_bind]; [|done|done].
  destruct Hs as (Ha & Hall & Hex), HI. split; try done.
  - apply Ha. constructor.
  - intros id. rewrite Hex, elem_of_nil. tauto.
Qed.

Section Projected.
Context (p : Program) (sels : list string) (by_id : list (SemanticId * Function)) (roots : list SemanticId)
  (HS : Selected p sels by_id roots).

Lemma by_id_declared id f : bm_get id by_id = Some f <-> declared p id f.
Proof.
  rewrite (sl_get _ _ _ _ HS). split; [|apply declared_elem].
  intros [Hf <-]. apply (last_filter_unique (function_identity p)); [|done].
  intros g Hg Heq. by apply (NoDup_map_unique _ _ _ _ (sl_distinct _ _ _ _ HS)).
Qed.

Lemma root_declared root : root ∈ roots -> exists f, declared p root f.
Proof.
  intros (sel & _ & Hr)%(sl_roots _ _ _ _ HS). destruct (proj2 (Hr root) eq_refl) as (f & Hf & _ & Hid).
  exists f. by apply by_id_declared, (sl_get _ _ _ _ HS).
Qed.

(** [id] is executed for the selected [root]: the root itself, or one of its
    concrete specializations. *)
Definition executes (root id : SemanticId) : Prop :=
  exists f, declared p root f /\
    ((fn_generic_params f = [] /\ id = root) \/
     (fn_generic_params f <> [] /\ id ∈ specializations p root)).
Definition generic_root (id : SemanticId) : Prop :=
  id ∈ roots /\ exists f, declared p id f /\ fn_generic_params f <> [].

Lemma start_root_spec st root :
  root ∈ roots ->
  match start_root p by_id st root with
  | Ok (metadata, pending) => (ascending st.1 -> ascending metadata) /\
      (forall id, id ∈ metadata <-> id ∈ st.1 \/ (id = root /\ exists f, declared p id f /\ fn_generic_params f <> [])) /\
      (forall id, id ∈ pending <-> id ∈ st.2 \/ executes root id) /\
      exists id, executes root id
  | Err _ => ~ exists id, executes root id
  | Panic _ => False
  end.
Proof.
  intros (f & Hf)%root_declared. unfold start_root. destruct st as [metadata pending].
  rewrite (proj2 (by_id_declared root f) Hf). cbn [expect mbind outcome_bind fst snd].
  assert (Hu : forall g, declared p root g -> g = f) by (intros g Hg; by eapply declared_unique).
  destruct (fn_generic_params f) as [|t ts] eqn:Hg.
  - split; [done|]. split; [|split; [|exists root; exists f; auto]]; intros id.
    + split; [by left|]. intros [?|(-> & g & Hgd & Hgg)]; [done|]. by rewrite (Hu g Hgd) in Hgg.
    + rewrite elem_of_cons. split.
      * intros [->|?]; [right; exists f; auto|by left].
      * intros [?|(g & Hgd & [[_ ->]|[Hgg _]])]; [by right|by left|]. by rewrite (Hu g Hgd) in Hgg.
  - destruct (specializations p root) as [|x l] eqn:Hs.
    + intros (id & g & Hgd & [[Hgg _]|[_ Hin]]); [by rewrite (Hu g Hgd), Hg in Hgg|].
      rewrite Hs in Hin. by apply elem_of_nil in Hin.
    + split; [intros; by apply bs_add_ascending|]. split; [|split; [|]].
      * intros id. rewrite elem_of_bs_add. split; [|naive_solver].
        intros [->|?]; [right|by left]. split; [done|]. exists f. by rewrite Hg.
      * intros id. rewrite elem_of_app. rewrite <- Hs. split.
        -- intros [Hin|?]; [right|by left]. exists f. split; [done|]. right. rewrite Hg. split; [done|].
           by rewrite <- Permutation_rev in Hin.
        -- intros [?|(g & Hgd & [[Hgg _]|[_ Hin]])]; [by right|by rewrite (Hu g Hgd), Hg in Hgg|].
           left. by rewrite <- Permutation_rev.
      * exists x, f. split; [done|]. right. rewrite Hg, Hs. split; [done|by left].
Qed.

Lemma start_roots_spec rs st :
  (forall root, root ∈ rs -> root ∈ roots) ->
  match fold_outcome (start_root p by_id) st rs with
  | Ok (metadata, pending) => (ascending st.1 -> ascending metadata) /\
      (forall id, id ∈ metadata <-> id ∈ st.1 \/ (id ∈ rs /\ exists f, declared p id f /\ fn_generic_params f <> [])) /\
      (forall id, id ∈ pending <-> id ∈ st.2 \/ exists root, root ∈ rs /\ executes root id) /\
      forall root, root ∈ rs -> exists id, executes root id
  | Err _ => exists root, root ∈ rs /\ ~ exists id, executes root id
  | Panic _ => False
  end.
Proof.
  revert st. induction rs as [|r rs IH]; intros st Hin; cbn [fold_outcome].
  - destruct st as [metadata pending]. split; [done|]. cbn. split_and!.
    + intros id. split; [by left|by intros [?|[?%elem_of_nil _]]].
    + intros id. split; [by left|by intros [?|(? & ?%elem_of_nil & _)]].
    + by intros ? ?%elem_of_nil.
  - pose proof (start_root_spec st r (Hin r ltac:(left))) as Hs.
    destruct (start_root p by_id st r) as [[m1 p1]|e|msg]; cbn [mbind outcome_bind];
      [|exists r; split; [left|done]|done].
    destruct Hs as (Ha1 & Hm1 & Hp1 & Hex1).
    specialize (IH (m1, p1) ltac:(intros; apply Hin; by right)). cbn in IH.
    destruct (fold_outcome _ (m1, p1) rs) as [[m2 p2]|e|msg]; [| |done].
    + destruct IH as (Ha2 & Hm2 & Hp2 & Hex2). split; [auto|]. split_and!.
      * intros id. rewrite Hm2, Hm1, elem_of_cons. naive_solver.
      * intros id. rewrite Hp2, Hp1. setoid_rewrite elem_of_cons. naive_solver.
      * intros root [->|?]%elem_of_cons; auto.
    + destruct IH as (root & ? & ?). exists root. split; [by right|done].
Qed.

Lemma executable_root_spec acc root acc' :
  root ∈ roots -> executable_root p by_id acc root = Ok acc' ->
  (forall id, id ∈ acc' <-> id ∈ acc \/ executes root id) /\ exists id, executes root id.
Proof.
  intros (f & Hf)%root_declared. unfold executable_root.
  rewrite (proj2 (by_id_declared root f) Hf). cbn [expect mbind outcome_bind].
  assert (Hu : forall g, declared p root g -> g = f) by (intros g Hg; by eapply declared_unique).
  destruct (fn_generic_params f) as [|t ts] eqn:Hg.
  - intros [= <-]. split; [|exists root; exists f; auto]. intros id. rewrite elem_of_bs_add. split.
    + intros [->|?]; [right; exists f; auto|by left].
    + intros [?|(g & Hgd & [[_ ->]|[Hgg _]])]; [by right|by left|]. by rewrite (Hu g Hgd) in Hgg.
  - destruct (specializations p root) as [|x l] eqn:Hs; [done|]. intros Hok.
    assert (acc' = bs_extend acc (specializations p root)) as -> by (rewrite Hs; congruence). split.
    + intros id. rewrite elem_of_bs_extend. split.
      * intros [Hin|?]; [right|by left]. exists f. rewrite Hg. auto.
      * intros [?|(g & Hgd & [[Hgg _]|[_ Hin]])]; [by right|by rewrite (Hu g Hgd), Hg in Hgg|by left].
    + exists x, f. rewrite Hg, Hs. split; [done|]. right. split; [done|by left].
Qed.

Lemma executable_roots_spec rs acc acc' :
  (forall root, root ∈ rs -> root ∈ roots) ->
  fold_outcome (executable_root p by_id) acc rs = Ok acc' ->
  (forall id, id ∈ acc' <-> id ∈ acc \/ exists root, root ∈ rs /\ executes root id) /\
  forall root, root ∈ rs -> exists id, executes root id.
Proof.
  revert acc. induction rs as [|r rs IH]; intros acc Hin.
  - intros [= <-]. split; [|by intros ? ?%elem_of_nil]. intros id.
    split; [by left|by intros [?|(? & ?%elem_of_nil & _)]].
  - intros (acc1 & Hacc & Hl)%outcome_bind_ok.
    destruct (executable_root_spec acc r acc1 (Hin r ltac:(left)) Hacc) as [Hex1 Hall1].
    destruct (IH acc1 ltac:(intros; apply Hin; by right) Hl) as [Hex2 Hall2]. split.
    + intros id. rewrite Hex2, Hex1. setoid_rewrite elem_of_cons. naive_solver.
    + intros root [->|?]%elem_of_cons; auto.
Qed.

(** *** The loop *)

Lemma close_bodies_drain fuel pending st :
  match close_bodies fuel p by_id pending st with
  | Ok st' => drain_stack Ok (expand_body by_id) fuel pending (cl_body_closure st) = Ok (cl_body_closure st')
  | Err e => drain_stack Ok (expand_body by_id) fuel pending (cl_body_closure st) = Err e
  | Panic m => drain_stack Ok (expand_body by_id) fuel pending (cl_body_closure st) = Panic m
  end.
Proof.
  unfold drain_stack. revert pending st. induction fuel as [|fuel IH]; intros pending st; [done|].
  destruct pending as [|id rest]; [done|]. cbn.
  destruct (bs_mem id (cl_body_closure st)); [apply IH|].
  assert (Hx : expand_body by_id id = (f ← ok_or (missing_function id) (bm_get id by_id); Ok (function_callees f)))
    by done.
  rewrite Hx. destruct (bm_get id by_id) as [f|]; cbn [ok_or mbind outcome_bind]; [|done].
  exact (IH (rev (function_callees f) ++ rest) (mkClosure _ (bs_add id (cl_body_closure st)) _)).
Qed.

(** [included] and [metadata_only] follow from the bodies closed over. *)
Definition owned (body_closure : list SemanticId) (id : SemanticId) : Prop :=
  exists b, b ∈ body_closure /\ id ∈ owners p b.
Record Bookkeeping (metadata : list SemanticId) (st : Closure) : Prop := {
  bk_included : forall id, id ∈ cl_included st <->
    id ∈ metadata \/ id ∈ cl_body_closure st \/ owned (cl_body_closure st) id;
  bk_metadata : forall id, id ∉ cl_body_closure st ->
    id ∈ cl_metadata_only st <-> id ∈ metadata \/ owned (cl_body_closure st) id
}.

Lemma owned_add b l id : owned (bs_add b l) id <-> id ∈ owners p b \/ owned l id.
Proof. unfold owned. setoid_rewrite elem_of_bs_add. naive_solver. Qed.

Lemma close_bodies_bookkeeping metadata fuel pending st st' :
  Bookkeeping metadata st -> close_bodies fuel p by_id pending st = Ok st' -> Bookkeeping metadata st'.
Proof.
  revert pending st. induction fuel as [|fuel IH]; intros pending st HB; [done|]. cbn.
  destruct pending as [|id rest]; [by intros [= <-]|].
  destruct (bs_mem id (cl_body_closure st)) eqn:Hm; [by apply IH|].
  intros (f & _ & Hc)%outcome_bind_ok. eapply IH; [|exact Hc]. destruct HB as [Hi Hmo]. split; cbn.
  - intros x. rewrite elem_of_bs_extend, !elem_of_bs_add, Hi, owned_add. tauto.
  - intros x. rewrite elem_of_bs_add, elem_of_bs_extend, elem_of_bs_remove, owned_add. intros Hx.
    rewrite Hmo by tauto. tauto.
Qed.

Lemma expand_body_ok id next :
  expand_body by_id id = Ok next <-> exists f, declared p id f /\ next = function_callees f.
Proof.
  unfold expand_body. rewrite outcome_bind_ok. setoid_rewrite <- by_id_declared. split.
  - intros (f & Hf & [= <-]). exists f. split; [|done]. destruct (bm_get id by_id); [|done]. by injection Hf as ->.
  - intros (f & Hf & ->). exists f. by rewrite Hf.
Qed.

Lemma elem_of_function_callees f target : target ∈ function_callees f <-> body_calls f target.
Proof.
  unfold function_callees. destruct (fn_body f) as [body|] eqn:Hb.
  - by apply elem_of_body_callees.
  - split; [by intros ?%elem_of_nil|]. intros (body & Hb' & _). congruence.
Qed.

Lemma refers_calls a b : refers Ok (expand_body by_id) a b <-> program_calls p a b.
Proof.
  unfold refers, program_calls. setoid_rewrite expand_body_ok. split.
  - intros (next & k & (f & Hf & ->) & Hk & [= <-]). exists f. by rewrite <- elem_of_function_callees.
  - intros (f & Hf & Hb%elem_of_function_callees). eauto 10.
Qed.

Lemma reachable_live starts id :
  reachable Ok (expand_body by_id) starts id <-> program_live p starts id.
Proof.
  assert (Hrtc : forall a b, rtc (refers Ok (expand_body by_id)) a b <-> rtc (program_calls p) a b).
  { intros a b. split; (induction 1; [done|]); (eapply rtc_l; [by apply refers_calls|done]). }
  unfold reachable, program_live. setoid_rewrite Hrtc. split.
  - intros (k & first & ? & [= <-] & ?). eauto.
  - intros (first & ? & ?). exists first, first. eauto.
Qed.

Lemma close_bodies_total pending metadata :
  (exists st, close_bodies (enough (expand_body by_id) (bm_keys by_id) pending) p by_id pending
     (mkClosure metadata [] metadata) = Ok st) \/
  (exists e, close_bodies (enough (expand_body by_id) (bm_keys by_id) pending) p by_id pending
     (mkClosure metadata [] metadata) = Err e).
Proof.
  pose proof (close_bodies_drain (enough (expand_body by_id) (bm_keys by_id) pending) pending
    (mkClosure metadata [] metadata)) as Hd.
  destruct (close_bodies _ _ _ _ _) as [st|e|msg]; [by eauto|by eauto|]. exfalso. cbn [cl_body_closure] in Hd.
  destruct (drain_with_enough (fun rest next => rev next ++ rest) stack_length Ok (expand_body by_id) (bm_keys by_id))
    with (roots := pending) as [[R HR]|[e He]].
  - apply ascending_NoDup, HS.
  - intros n next (f & Hf & _)%expand_body_ok. apply bm_get_keys. exists f. by apply by_id_declared.
  - done.
  - intros n m. unfold expand_body. by destruct (bm_get n by_id).
  - unfold drain_stack in Hd. congruence.
  - unfold drain_stack in Hd. congruence.
Qed.

Lemma close_bodies_ok fuel pending metadata st :
  close_bodies fuel p by_id pending (mkClosure metadata [] metadata) = Ok st ->
  (forall id, id ∈ cl_body_closure st <-> program_live p pending id) /\
  (forall id, program_live p pending id -> exists f, declared p id f) /\
  Bookkeeping metadata st.
Proof.
  intros Hc. pose proof (close_bodies_drain fuel pending (mkClosure metadata [] metadata)) as Hd.
  rewrite Hc in Hd. cbn [cl_body_closure] in Hd. unfold drain_stack in Hd.
  apply (drain_with_exact _ stack_join) in Hd as (Hex & _ & Hnext).
  split; [intros id; by rewrite Hex, reachable_live|]. split.
  - intros id Hid%reachable_live. destruct (Hnext id Hid) as (next & (f & ? & _)%expand_body_ok & _). eauto.
  - eapply close_bodies_bookkeeping; [|exact Hc]. split; cbn.
    + intros id. unfold owned. setoid_rewrite elem_of_nil. naive_solver.
    + intros id _. unfold owned. setoid_rewrite elem_of_nil. naive_solver.
Qed.
End Projected.
End Spec.

(** ** Where a fold fails *)

Lemma index_function_err `{ModelCrate, ProgramCrate} p e :
  fold_outcome (index_function p) ([], []) (p_functions p) = Err e ->
  ~ NoDup (map (function_identity p) (p_functions p)).
Proof.
  intros (fs1 & f & fs2 & [i n] & Hfs & Hl & Hf)%fold_outcome_err Hnd.
  destruct (index_functions_indexed p fs1 i n Hl) as [Ha _ Hg _].
  unfold index_function in Hf. pose proof (bm_insert_old (function_identity p f) f i Ha) as Ho.
  destruct (bm_insert _ _ _) as [[g|] i']; [|done]. cbn in Ho. symmetry in Ho. apply Hg in Ho as [Hin Heq].
  rewrite Hfs, map_app in Hnd. cbn in Hnd. apply NoDup_app in Hnd as (_ & Hdis & _).
  apply (Hdis (function_identity p f)); [|by left]. apply list_elem_of_fmap. by exists g.
Qed.

(** Selecting roots.  Selection succeeds exactly when no two functions
    share an identity and every selector - a name, or a namespace and a name -
    matches one function; the roots are then those functions, sorted and
    without repetition.  It never panics. *)
Theorem root_selection_exact `{ModelCrate, ProgramCrate} debug p selection :
  match select_backend_root_functions debug p selection with
  | Ok (_, roots) =>
      NoDup (map (function_identity p) (p_functions p)) /\ ascending roots /\
      (forall selector, selector ∈ selectors selection -> exists id, resolves p selector id) /\
      forall id, id ∈ roots <-> exists selector, selector ∈ selectors selection /\ resolves p selector id
  | Err _ =>
      ~ NoDup (map (function_identity p) (p_functions p)) \/
      exists selector, selector ∈ selectors selection /\ ~ exists id, resolves p selector id
  | Panic _ => False
  end.
Proof.
  pose proof (select_functions_spec debug p selection) as Hs.
  destruct (select_backend_root_functions debug p selection) as [[by_id roots]|e|m] eqn:He; [| |done].
  - destruct Hs. by split_and!.
  - unfold select_backend_root_functions in He.
    destruct (fold_outcome (index_function p) _ _) as [[i n]|e'|m] eqn:Hi; cbn [mbind outcome_bind] in He; [| |done].
    + right. apply index_functions_indexed in Hi.
      pose proof (select_roots_spec p i n debug Hi (selectors selection) []) as Hr.
      by destruct (fold_outcome (select_root _ _ _ _) _ _).
    + left. by eapply index_function_err.
Qed.

(** C31: the projection.  The functions whose bodies stay are exactly those
    reached by calls from the executed functions - a selected root, or the
    concrete specializations of a selected generic; the generics that own a
    kept specialization and the selected generics stay without their bodies;
    every other function goes; the names that stay are in their order; the specialization records
    that stay are those whose generic and specialization both stay; and every
    reached function is declared. *)
Theorem backend_projection_exact `{ModelCrate, ProgramCrate} debug p selection proj :
  backend_program_projection debug p selection = Ok proj ->
  exists executed,
    (forall id, id ∈ executed <-> exists root, root ∈ bp_root_function_identities proj /\ executes p root id) /\
    let reached := program_live p executed in
    let provenance id := generic_root p (bp_root_function_identities proj) id \/
      exists record, record ∈ p_generic_specializations p /\
        gs_generic_function record = id /\ reached (gs_specialization_function record) in
    (forall f', f' ∈ p_functions (bp_program proj) <-> exists f, f ∈ p_functions p /\
       ((reached (function_identity p f) /\ f' = f) \/
        (~ reached (function_identity p f) /\ provenance (function_identity p f) /\ f' = clear_body f))) /\
    (forall id, id ∈ bp_included_function_identities proj <-> reached id \/ provenance id) /\
    (forall record, record ∈ p_generic_specializations (bp_program proj) <->
       record ∈ p_generic_specializations p /\
       gs_generic_function record ∈ bp_included_function_identities proj /\
       gs_specialization_function record ∈ bp_included_function_identities proj) /\
    (forall id, reached id -> exists f, declared p id f) /\
    map fn_name (p_functions (bp_program proj)) `sublist_of` map fn_name (p_functions p).
Proof.
  intros Hp. unfold backend_program_projection in Hp.
  apply outcome_bind_ok in Hp as ([by_id roots] & Hsel & Hp).
  pose proof (select_functions_spec debug p selection) as HS. rewrite Hsel in HS.
  apply outcome_bind_ok in Hp as ([metadata pending] & Hstart & Hp).
  pose proof (start_roots_spec p (selectors selection) by_id roots HS roots ([], []) ltac:(done)) as Hst.
  rewrite Hstart in Hst. destruct Hst as (_ & Hmeta & Hpending & _). cbn in Hmeta, Hpending.
  apply outcome_bind_ok in Hp as (st & Hclose & Hp).
  apply (close_bodies_ok p (selectors selection) by_id roots HS) in Hclose as (Hbody & Hdecl & [Hinc Hmo]).
  destruct (program_errors _); [done|]. injection Hp as <-. cbn.
  setoid_rewrite elem_of_nil in Hmeta. setoid_rewrite elem_of_nil in Hpending.
  exists pending. split; [intros id; rewrite Hpending; tauto|].
  set (provenance := fun id => generic_root p roots id \/ exists record, record ∈ p_generic_specializations p /\
    gs_generic_function record = id /\ program_live p pending (gs_specialization_function record)).
  assert (Hprov : forall id, id ∈ metadata \/ owned p (cl_body_closure st) id <-> provenance id).
  { intros id. unfold provenance, generic_root, owned, owners. rewrite Hmeta. f_equiv; [tauto|].
    setoid_rewrite list_elem_of_fmap. split.
    - intros (b & Hb%Hbody & record & -> & Hr). apply list_elem_of_In, filter_In in Hr as [Hr%list_elem_of_In Hs].
      apply bool_decide_eq_true in Hs. exists record. rewrite Hs. done.
    - intros (record & Hr & <- & Hl). exists (gs_specialization_function record). split; [by apply Hbody|].
      exists record. split; [done|]. apply list_elem_of_In, filter_In. rewrite <- list_elem_of_In.
      by rewrite bool_decide_true. }
  assert (Hincluded : forall id, id ∈ cl_included st <-> program_live p pending id \/ provenance id).
  { intros id. rewrite Hinc, <- Hprov, <- Hbody. tauto. }
  split; [|split; [exact Hincluded|split; [|split; [exact Hdecl|]]]].
  - intros f'. rewrite list_elem_of_omap. f_equiv. intros f. f_equiv. unfold project_function.
    rewrite <- Hbody. fold provenance. specialize (Hincluded (function_identity p f)).
    specialize (Hmo (function_identity p f)). rewrite Hprov in Hmo. rewrite <- Hbody in Hincluded.
    destruct (bs_mem (function_identity p f) (cl_included st)) eqn:Hi; cbn [negb].
    + apply bs_mem_spec in Hi. destruct (bs_mem (function_identity p f) (cl_body_closure st)) eqn:Hb.
      * apply bs_mem_spec in Hb. rewrite andb_false_r. naive_solver.
      * assert (function_identity p f ∉ cl_body_closure st) as Hn by (rewrite <- bs_mem_spec; congruence).
        assert (function_identity p f ∈ cl_metadata_only st) as Hm by tauto.
        rewrite (proj2 (bs_mem_spec _ _) Hm). cbn. naive_solver.
    + assert (function_identity p f ∉ cl_included st) as Hn by (rewrite <- bs_mem_spec; congruence).
      split; [done|]. intros [[Hb _]|(_ & Hpv & _)]; destruct Hn; apply Hincluded; [by left|by right].
  - intros record. rewrite list_elem_of_In, filter_In, <- list_elem_of_In, andb_true_iff, !bs_mem_spec. done.
  - clear. induction (p_functions p) as [|f l IH]; [done|]. cbn.
    unfold project_function at 1. destruct (negb _); [by constructor|].
    destruct (_ && _); cbn; by constructor.
Qed.

(** Projecting always returns a projection or an error: the indexes it
    expects to be consistent are, and its stack runs dry. *)
Theorem backend_projection_total `{ModelCrate, ProgramCrate} debug p selection :
  (exists proj, backend_program_projection debug p selection = Ok proj) \/
  (exists e, backend_program_projection debug p selection = Err e).
Proof.
  unfold backend_program_projection. pose proof (select_functions_spec debug p selection) as HS.
  destruct (select_backend_root_functions debug p selection) as [[by_id roots]|e|m]; cbn [mbind outcome_bind];
    [|by eauto|done].
  pose proof (start_roots_spec p (selectors selection) by_id roots HS roots ([], []) ltac:(done)) as Hst.
  destruct (fold_outcome (start_root p by_id) _ _) as [[metadata pending]|e|m]; cbn [mbind outcome_bind];
    [|by eauto|done].
  destruct (close_bodies_total p (selectors selection) by_id roots HS pending metadata) as [[st ->]|[e ->]];
    cbn [mbind outcome_bind]; [|by eauto].
  destruct (program_errors _); by eauto.
Qed.

(** The executable exports of a selection are the functions it executes -
    the same ones the projection closes over - by namespace and name. *)
Theorem executable_exports_exact `{ModelCrate, ProgramCrate} debug p selection exports :
  executable_backend_root_exports debug p selection = Ok exports ->
  exists roots, (exists by_id, select_backend_root_functions debug p selection = Ok (by_id, roots)) /\
  (forall root, root ∈ roots -> exists id, executes p root id) /\
  ascending exports /\
  forall pair, pair ∈ exports <-> exists root id f, root ∈ roots /\ executes p root id /\
    declared p id f /\ pair = qualified p f.
Proof.
  intros Hp. unfold executable_backend_root_exports in Hp.
  apply outcome_bind_ok in Hp as ([by_id roots] & Hsel & Hp).
  pose proof (select_functions_spec debug p selection) as HS. rewrite Hsel in HS.
  apply outcome_bind_ok in Hp as (ids & Hids & Hp). apply outcome_bind_ok in Hp as (pairs & Hpairs & [= <-]).
  exists roots. split; [eauto|].
  destruct (executable_roots_spec p (selectors selection) by_id roots HS roots [] ids ltac:(done) Hids)
    as (Hex & Hall).
  split; [exact Hall|]. split; [apply bs_of_list_ascending|]. intros pair.
  rewrite elem_of_bs_of_list, (elem_of_map_outcome _ _ _ _ Hpairs). setoid_rewrite Hex. split.
  - intros (id & [?%elem_of_nil|(root & Hr & He)] & Hf); [done|].
    apply outcome_bind_ok in Hf as (f & Hf & [= <-]). exists root, id, f. split_and!; try done.
    apply (by_id_declared p (selectors selection) by_id roots HS). destruct (bm_get id by_id); [|done].
    by injection Hf as ->.
  - intros (root & id & f & Hr & He & Hd & ->). exists id. split; [by right; exists root|].
    apply (by_id_declared p (selectors selection) by_id roots HS) in Hd. by rewrite Hd.
Qed.

(** ** Cache keys of root selections *)

(** A root selection's cache key is injective.  With a collision-free digest
    and an injective JSON writer, two keys agree only for the same base key - a
    hexadecimal digest, so without a line break - and the same selectors. *)
Theorem backend_root_key_injective `{ModelCrate} json_strings key key' selection selection' :
  Inj (=) (=) sha256_hex -> Inj (=) (=) json_strings ->
  "010"%char ∉ String.list_ascii_of_string key -> "010"%char ∉ String.list_ascii_of_string key' ->
  backend_root_cache_key json_strings key selection = backend_root_cache_key json_strings key' selection' ->
  key = key' /\ selection = selection'.
Proof.
  intros Hsha Hjson Hk Hk' Heq. unfold backend_root_cache_key in Heq. apply Hsha in Heq.
  apply (inj (String.append _)), (inj (String.append _)) in Heq.
  change (newline +:+ json_strings (selectors selection))%string
    with (String "010" (json_strings (selectors selection))) in Heq.
  change (newline +:+ json_strings (selectors selection'))%string
    with (String "010" (json_strings (selectors selection'))) in Heq.
  apply split_inj in Heq as [-> Heq]; [|done|done]. apply Hjson in Heq.
  destruct selection, selection'. cbn in Heq. by subst.
Qed.

(** ** A selection to apply them at *)
Section Sample.
Local Open Scope string_scope.
Local Open Scope list_scope.

Definition roots_selection : BackendRootSelection :=
  match parse_backend_root_selection (Some "lib::id, , lib::id") with Some s => s | None => mkSelection [] end.

Example parse_roots : roots_selection = mkSelection ["lib::id"].
Proof. vm_compute. reflexivity. Qed.

Definition roots_projection : BackendProgramProjection :=
  Eval vm_compute in
    match backend_program_projection (fun s => s) sample_program roots_selection with
    | Ok proj => proj
    | _ => mkProjection sample_program [] [] 0 0 0
    end.

Lemma roots_projection_ok :
  backend_program_projection (fun s => s) sample_program roots_selection = Ok roots_projection.
Proof. vm_compute. reflexivity. Qed.

(** The generic stays without its body, its instance and what it calls stay. *)
Example roots_projection_bodies :
  map (fun f => (fn_name f, bool_decide (is_Some (fn_body f)))) (p_functions (bp_program roots_projection)) =
  [("id", false); ("id_i32", true); ("inner", true)].
Proof. vm_compute. reflexivity. Qed.

Lemma backend_projection_exact_witness :
  exists f, declared sample_program "lib::id_i32" f.
Proof.
  destruct (backend_projection_exact (fun s => s) sample_program roots_selection roots_projection
    roots_projection_ok) as (executed & Hex & _ & _ & _ & Hdecl & _).
  apply Hdecl. apply program_live_root. apply Hex. exists "lib::id". split; [left|].
  exists (mkDeclaration "id" ["T"] [] [] (calling []) "lib"). split; [vm_compute; reflexivity|].
  right. split; [discriminate|left].
Defined.

Lemma executable_exports_exact_witness :
  ("lib", "id_i32") ∈ [("lib", "id_i32")] /\ ascending [("lib", "id_i32")].
Proof.
  destruct (executable_exports_exact (fun s => s) sample_program roots_selection [("lib", "id_i32")])
    as (roots & (by_id & Hsel) & _ & Hasc & Hex); [vm_compute; reflexivity|].
  split; [|exact Hasc]. apply Hex. vm_compute in Hsel. injection Hsel as _ <-.
  exists "lib::id", "lib::id_i32", (mkDeclaration "id_i32" [] [] [] (calling ["lib::inner"]) "lib").
  split; [left|]. split; [|split; vm_compute; reflexivity].
  exists (mkDeclaration "id" ["T"] [] [] (calling []) "lib"). split; [vm_compute; reflexivity|].
  right. split; [discriminate|left].
Defined.

Definition numbered (l : list string) : string := pretty (Npos (countable.encode l)).
Lemma numbered_inj : Inj (=) (=) numbered.
Proof. intros l k Heq. unfold numbered in Heq. apply (inj (pretty (A:=N))) in Heq. injection Heq as Heq. by apply (inj countable.encode) in Heq. Qed.

Lemma backend_root_key_injective_witness :
  "ab" = "ab" /\ mkSelection ["x"; "y"] = mkSelection ["x"; "y"].
Proof.
  apply (backend_root_key_injective numbered "ab" "ab" (mkSelection ["x"; "y"]) (mkSelection ["x"; "y"])).
  - exact reference_sha_inj.
  - exact numbered_inj.
  - cbn. set_solver.
  - cbn. set_solver.
  - reflexivity.
Defined.
End Sample.
