(* ===== verification/Unicode.v ===== *)
(** The Unicode classifier generator: [tools/generate_unicode_classifier.rs].

    A property is a predicate on characters.  The generator cuts the scalar
    values above ASCII into the maximal ranges that have it, packs them plane by
    plane into tables, and prints one lookup function per table.  [search] and
    [classify] are the functions it prints, as the program they are. *)

From S2P Require Export Text.

Section Unicode.
Local Open Scope Z_scope.

(** ** [property_ranges] *)

(** [char::from_u32(scalar).is_some_and(predicate)]. *)
Definition is_char (scalar : Z) : bool :=
  (0 <=? scalar) && (scalar <=? 1114111) && negb ((55296 <=? scalar) && (scalar <=? 57343)).
Definition included (predicate : Z -> bool) (scalar : Z) : bool := is_char scalar && predicate scalar.

(** The loop's variables: [ranges], [start] and [previous]. *)
Record Scan : Type := mkScan { sc_ranges : list (Z * Z); sc_start : option Z; sc_previous : Z }.

Definition range_step (predicate : Z -> bool) (st : Scan) (scalar : Z) : Scan :=
  match sc_start st, included predicate scalar with
  | None, true => mkScan (sc_ranges st) (Some scalar) scalar
  | Some begin, false => mkScan (sc_ranges st ++ [(begin, sc_previous st)]) None scalar
  | start, _ => mkScan (sc_ranges st) start scalar
  end.

Definition close_scan (st : Scan) : list (Z * Z) :=
  match sc_start st with
  | Some begin => sc_ranges st ++ [(begin, sc_previous st)]
  | None => sc_ranges st
  end.

(** [count] scalars from [scalar] on. *)
Fixpoint scan_from (predicate : Z -> bool) (count : nat) (scalar : Z) (st : Scan) : Scan :=
  match count with
  | O => st
  | S count => scan_from predicate count (scalar + 1) (range_step predicate st scalar)
  end.

(** [for scalar in 128..=0x10ffff]. *)
Definition property_ranges (predicate : Z -> bool) : list (Z * Z) :=
  close_scan (scan_from predicate (Z.to_nat (1114111 - 128 + 1)) 128 (mkScan [] None 0)).

(** ** Tables *)

Definition plane_start (plane : Z) : Z := plane * 65536.
Definition plane_end (plane : Z) : Z := plane_start plane + 65535.

Definition clip (plane : Z) (range : Z * Z) : option (Z * Z) :=
  let clipped_low := Z.max range.1 (plane_start plane) in
  let clipped_high := Z.min range.2 (plane_end plane) in
  if clipped_low <=? clipped_high then Some (clipped_low, clipped_high) else None.

Definition local_ranges (ranges : list (Z * Z)) (plane : Z) : list (Z * Z) :=
  omap (clip plane) (List.filter (fun range => range.1 <=? plane_end plane) ranges).

(** [(u64::from(low) << 21) | u64::from(high)]. *)
Definition packed (range : Z * Z) : Z := Z.lor (Z.shiftl range.1 21) range.2.

Definition plane_table (ranges : list (Z * Z)) (plane : Z) : Outcome string (list (Z * list (Z * Z))) :=
  match local_ranges ranges plane with
  | [] => Ok []
  | local =>
      if Nat.leb (length local) 1024 then Ok [(plane, local)]
      else Panic "plane table exceeds MNCS bounded sequence size"
  end.

Definition planes (ranges : list (Z * Z)) : Outcome string (list (Z * list (Z * Z))) :=
  tables ← map_outcome (plane_table ranges) (seqZ 0 17);
  Ok (concat tables).

(** ** The printed text *)

Local Open Scope string_scope.
Local Open Scope list_scope.

Definition render_header (name : string) (total : nat) : string :=
  "// " +:+ name +:+ " ranges generated from Rust char properties (" +:+ pretty total
    +:+ " intervals above ASCII)." +:+ newline
  +:+ "fn unicode_" +:+ name +:+ "(value: u64) -> (result: bool) {" +:+ newline
  +:+ "    if value < 128 || value > 1114111 { return false; }" +:+ newline
  +:+ "    return match value / 65536 {" +:+ newline.

Definition render_arm (name : string) (plane : Z) : string :=
  "        " +:+ pretty plane +:+ " => unicode_" +:+ name +:+ "_plane" +:+ pretty plane +:+ "(value)," +:+ newline.

(** The numbers of a table, eight to a line. *)
Fixpoint render_rows (index : nat) (local : list (Z * Z)) : string :=
  match local with
  | [] => ""
  | range :: rest =>
      (if Nat.ltb 0 index
       then if Nat.eqb (index mod 8) 0 then "," +:+ newline +:+ "        " else ", "
       else "")
      +:+ pretty (packed range) +:+ render_rows (S index) rest
  end.

Definition SEARCH_LINES : list string :=
  ["    let initial: UnicodeRangeSearch = UnicodeRangeSearch { low: 0, high: ranges.len, found: false };";
   "iterate step up_to 12 carrying state: UnicodeRangeSearch = initial {";
   "let active: bool = state.low < state.high && !state.found;";
   "let midpoint: u64 = select(active, (state.low + state.high) / 2, 0);";
   "let packed: u64 = ranges[midpoint];";
   "let low: u64 = packed / 2097152;";
   "let high: u64 = packed % 2097152;";
   "let updated: UnicodeRangeSearch = match select(active, 1, 0) {";
   "0 => state,";
   "_ => match select(value < low, 1, 0) {";
   "1 => UnicodeRangeSearch { ..state, high: midpoint },";
   "_ => match select(value > high, 1, 0) {";
   "1 => UnicodeRangeSearch { ..state, low: midpoint + 1 },";
   "_ => UnicodeRangeSearch { ..state, found: true }";
   "}"; "}"; "};";
   "next state = updated;";
   "}";
   "return state.found;"].

Definition render_lines (lines : list string) : string :=
  fold_right (fun line rest => line +:+ newline +:+ rest) "" lines.

Definition render_plane (name : string) (table : Z * list (Z * Z)) : string :=
  "fn unicode_" +:+ name +:+ "_plane" +:+ pretty table.1 +:+ "(value: u64) -> (result: bool) {" +:+ newline
  +:+ "    let ranges: [u64; " +:+ pretty (length table.2) +:+ "] = [" +:+ newline +:+ "        "
  +:+ render_rows 0 table.2 +:+ newline +:+ "    ];" +:+ newline
  +:+ render_lines SEARCH_LINES +:+ "}" +:+ newline.

(** The text appended to [output], and [total]. *)
Definition emit_property (name : string) (predicate : Z -> bool) : Outcome string (string * nat) :=
  let ranges := property_ranges predicate in
  planes ← planes ranges;
  Ok (render_header name (length ranges)
      +:+ String.concat "" (map (fun table => render_arm name table.1) planes)
      +:+ "        _ => false" +:+ newline +:+ "    };" +:+ newline +:+ "}" +:+ newline
      +:+ String.concat "" (map (render_plane name) planes), length ranges).

(** [BEGIN] and [END] of the generated region. *)
Definition BEGIN : string := "// BEGIN GENERATED UNICODE CLASSIFIERS".
Definition END : string := "// END GENERATED UNICODE CLASSIFIERS".

Definition identifier_functions : string := render_lines
  ["fn identifier_start_scalar(value: u64) -> (result: bool) {";
   "return value == 95 || (value < 128 && ((value >= 65 && value <= 90) || (value >= 97 && value <= 122))) || unicode_alphabetic(value);";
   "}";
   "fn identifier_continue_scalar(value: u64) -> (result: bool) {";
   "return value == 95 || (value >= 48 && value <= 57) || (value < 128 && ((value >= 65 && value <= 90) || (value >= 97 && value <= 122))) || unicode_alphanumeric(value);";
   "}"].

(** [version] is what [rustc --version] says; the two predicates are the
    standard library's. *)
Definition generate (version : string) (is_alphabetic is_alphanumeric : Z -> bool) : Outcome string string :=
  alphabetic ← emit_property "alphabetic" is_alphabetic;
  alphanumeric ← emit_property "alphanumeric" is_alphanumeric;
  Ok (BEGIN +:+ newline +:+ "// Generated by tools/generate_unicode_classifier.rs using " +:+ version +:+ "." +:+ newline
      +:+ "record UnicodeRangeSearch { low: u64, high: u64, found: bool }" +:+ newline
      +:+ alphabetic.1 +:+ alphanumeric.1 +:+ identifier_functions +:+ END).

(** [str::find]. *)
Fixpoint find (needle s : string) : option nat :=
  match strip_prefix needle s, s with
  | Some _, _ => Some 0%nat
  | None, String _ rest => S <$> find needle rest
  | None, EmptyString => None
  end.

(** The source module with its generated region replaced. *)
Definition replacement (generated current : string) : Outcome string string :=
  begin ← expect "begin marker missing" (find BEGIN current);
  end_ ← expect "end marker missing" (find END current);
  if Nat.ltb begin end_
  then Ok (string_take begin current +:+ generated +:+ string_drop (end_ + String.length END) current)
  else Panic "generated markers are out of order".

(** [--check]: is the module up to date? *)
Definition check (generated current : string) : Outcome string bool :=
  replaced ← replacement generated current; Ok (String.eqb replaced current).

(** ** The printed functions *)

Local Open Scope Z_scope.

Record UnicodeRangeSearch : Type := mkSearch { us_low : Z; us_high : Z; us_found : bool }.

(** One iteration; the table is indexed in every iteration. *)
Definition search_step (value : Z) (ranges : list Z) (state : UnicodeRangeSearch) : Outcome string UnicodeRangeSearch :=
  let active := (us_low state <? us_high state) && negb (us_found state) in
  let midpoint := if active then (us_low state + us_high state) / 2 else 0 in
  packed ← index ranges (Z.to_nat midpoint);
  let low := packed / 2097152 in
  let high := packed mod 2097152 in
  Ok (if active then
        if value <? low then mkSearch (us_low state) midpoint (us_found state)
        else if high <? value then mkSearch (midpoint + 1) (us_high state) (us_found state)
        else mkSearch (us_low state) (us_high state) true
      else state).

Fixpoint iterate_search (steps : nat) (value : Z) (ranges : list Z) (state : UnicodeRangeSearch)
  : Outcome string UnicodeRangeSearch :=
  match steps with
  | O => Ok state
  | S steps => state ← search_step value ranges state; iterate_search steps value ranges state
  end.

(** [unicode_{name}_plane{plane}]. *)
Definition search (value : Z) (ranges : list Z) : Outcome string bool :=
  state ← iterate_search 12 value ranges (mkSearch 0 (Z.of_nat (length ranges)) false);
  Ok (us_found state).

(** [unicode_{name}]. *)
Definition classify (tables : list (Z * list (Z * Z))) (value : Z) : Outcome string bool :=
  if (value <? 128) || (1114111 <? value) then Ok false
  else
    match List.find (fun table => table.1 =? value / 65536) tables with
    | Some table => search value (map packed table.2)
    | None => Ok false
    end.

(** [identifier_start_scalar] and [identifier_continue_scalar]; the disjunction
    evaluates its last operand only when the others are false. *)
Definition ascii_letter (value : Z) : bool :=
  (value <? 128) && (((65 <=? value) && (value <=? 90)) || ((97 <=? value) && (value <=? 122))).
Definition identifier_start_scalar (alphabetic : list (Z * list (Z * Z))) (value : Z) : Outcome string bool :=
  if (value =? 95) || ascii_letter value then Ok true else classify alphabetic value.
Definition identifier_continue_scalar (alphanumeric : list (Z * list (Z * Z))) (value : Z) : Outcome string bool :=
  if (value =? 95) || ((48 <=? value) && (value <=? 57)) || ascii_letter value
  then Ok true else classify alphanumeric value.
End Unicode.

(** A scan of eighty scalars. *)
Example small_table :
  close_scan (scan_from (fun c => (130 <=? c)%Z && (c <=? 140)%Z || (200 <=? c)%Z) 80 128 (mkScan [] None 0))
  = [(130, 140); (200, 207)]%Z.
Proof. vm_compute. reflexivity. Qed.
