(* ===== verification/UnicodeTheorems.v ===== *)
(** Correctness of the generated Unicode classifiers: the ranges are exact, the
    printed binary search decides them within its twelve iterations, and
    regeneration is stable. *)

From Stdlib Require Import Ascii.
From S2P Require Export Unicode.

Section Ranges.
Local Open Scope Z_scope.

Definition covers (ranges : list (Z * Z)) (v : Z) : Prop := exists r, r ∈ ranges /\ r.1 <= v <= r.2.
(** Ascending, with a gap between two ranges. *)
Definition separated (ranges : list (Z * Z)) : Prop := StronglySorted (fun a b => a.2 + 1 < b.1) ranges.
Definition within (lo hi : Z) (ranges : list (Z * Z)) : Prop :=
  Forall (fun r => lo <= r.1 /\ r.1 <= r.2 /\ r.2 <= hi) ranges.

Lemma covers_snoc ranges r v : covers (ranges ++ [r]) v <-> covers ranges v \/ r.1 <= v <= r.2.
Proof.
  unfold covers. setoid_rewrite elem_of_app. setoid_rewrite list_elem_of_singleton. split.
  - intros (x & [?| ->] & ?); eauto.
  - intros [(x & ? & ?)|?]; eauto.
Qed.

Lemma StronglySorted_snoc {A} (R : relation A) l x :
  StronglySorted R l -> Forall (fun y => R y x) l -> StronglySorted R (l ++ [x]).
Proof.
  induction 1 as [|y l Hl IH Hy]; cbn; intros Hx; [repeat constructor|].
  apply Forall_cons in Hx as [? ?]. constructor; [auto|]. apply Forall_app. split; [done|by repeat constructor].
Qed.

Lemma within_le lo hi hi' ranges : hi <= hi' -> within lo hi ranges -> within lo hi' ranges.
Proof. intros Hle Hw. eapply Forall_impl; [exact Hw|]. cbn. lia. Qed.

(** The scan has looked at the scalars from 128 to [s] (exclusive). *)
Record Scanned (predicate : Z -> bool) (s : Z) (st : Scan) : Prop := {
  sd_separated : separated (sc_ranges st);
  sd_within : within 128 (match sc_start st with Some b => b - 2 | None => s - 2 end) (sc_ranges st);
  sd_start : match sc_start st with
             | Some b => 128 <= b < s /\ sc_previous st = s - 1 /\ forall v, b <= v < s -> included predicate v = true
             | None => 128 < s -> included predicate (s - 1) = false
             end;
  sd_covers : forall v, 128 <= v < match sc_start st with Some b => b | None => s end ->
    included predicate v = true <-> covers (sc_ranges st) v
}.

Lemma covers_within lo hi ranges v : within lo hi ranges -> covers ranges v -> lo <= v <= hi.
Proof. intros Hw (r & Hr & Hv). eapply Forall_forall in Hw; [|exact Hr]. cbn in Hw. lia. Qed.

Lemma range_step_scanned predicate s st :
  128 <= s -> Scanned predicate s st -> Scanned predicate (s + 1) (range_step predicate st s).
Proof.
  intros Hs [Hsep Hw Hst Hc]. unfold range_step.
  destruct (sc_start st) as [b|] eqn:Eb, (included predicate s) eqn:Es.
  - destruct Hst as (Hb & Hp & Hin). constructor; cbn; try done.
    split_and!; [lia..|]. intros v Hv. destruct (decide (v = s)) as [->|]; [done|]. apply Hin. lia.
  - destruct Hst as (Hb & Hp & Hin). constructor; cbn.
    + apply StronglySorted_snoc; [done|]. eapply Forall_impl; [exact Hw|]. cbn. lia.
    + apply Forall_app. split; [eapply within_le; [|exact Hw]; lia|]. repeat constructor; cbn; lia.
    + intros _. by replace (s + 1 - 1) with s by lia.
    + intros v Hv. rewrite covers_snoc. cbn. rewrite Hp. split.
      * intros Hi. destruct (decide (v < b)); [left; apply Hc; [lia|done]|]. right.
        destruct (decide (v = s)) as [->|]; [congruence|lia].
      * intros [Hcv|Hv']; [|apply Hin; lia]. apply Hc; [|done].
        apply (covers_within _ _ _ _ Hw) in Hcv. lia.
  - constructor; cbn; try done.
    split_and!; [lia..|]. intros v Hv. by replace v with s by lia.
  - constructor; cbn; try done.
    + eapply within_le; [|exact Hw]. lia.
    + intros _. by replace (s + 1 - 1) with s by lia.
    + intros v Hv. destruct (decide (v = s)) as [->|].
      * rewrite Es. split; [done|]. intros Hcv. apply (covers_within _ _ _ _ Hw) in Hcv. lia.
      * apply Hc. lia.
Qed.

Lemma scan_from_scanned predicate count s st :
  128 <= s -> Scanned predicate s st -> Scanned predicate (s + Z.of_nat count) (scan_from predicate count s st).
Proof.
  revert s st. induction count as [|count IH]; intros s st Hs Hst; [by rewrite Z.add_0_r|].
  cbn [scan_from]. replace (s + Z.of_nat (S count)) with (s + 1 + Z.of_nat count) by lia.
  apply IH; [lia|]. by apply range_step_scanned.
Qed.

(** The ranges are the maximal runs of the property above ASCII. *)
Lemma property_ranges_ok predicate :
  separated (property_ranges predicate) /\ within 128 1114111 (property_ranges predicate) /\
  forall v, covers (property_ranges predicate) v <-> 128 <= v /\ included predicate v = true.
Proof.
  assert (forall v, included predicate v = true -> v <= 1114111) as Hmax.
  { unfold included, is_char. intros v. rewrite !andb_true_iff. lia. }
  assert (Scanned predicate 128 (mkScan [] None 0)) as H0.
  { constructor; cbn; [constructor|constructor|lia|intros v Hv; lia]. }
  apply (scan_from_scanned _ (Z.to_nat (1114111 - 128 + 1))) in H0; [|lia].
  unfold property_ranges, close_scan. destruct (scan_from _ _ _ _) as [ranges start previous].
  replace (128 + Z.of_nat (Z.to_nat (1114111 - 128 + 1))) with 1114112 in H0 by lia.
  destruct H0 as [Hsep Hw Hst Hc]. cbn in *. destruct start as [b|].
  - destruct Hst as (Hb & -> & Hin). split_and!.
    + apply StronglySorted_snoc; [done|]. eapply Forall_impl; [exact Hw|]. cbn. lia.
    + apply Forall_app. split; [eapply within_le; [|exact Hw]; lia|]. repeat constructor; cbn; lia.
    + intros v. rewrite covers_snoc. cbn. split.
      * intros [Hcv|Hv]; [|split; [lia|apply Hin; lia]].
        pose proof (covers_within _ _ _ _ Hw Hcv). split; [lia|]. apply Hc; [lia|done].
      * intros [Hv Hi]. specialize (Hmax v Hi). destruct (decide (v < b)); [left; apply Hc; [lia|done]|]. lia.
  - split_and!; [done|eapply within_le; [|exact Hw]; lia|]. intros v. split.
    + intros Hcv. pose proof (covers_within _ _ _ _ Hw Hcv). split; [lia|]. apply Hc; [lia|done].
    + intros [Hv Hi]. specialize (Hmax v Hi). apply Hc; [lia|done].
Qed.
End Ranges.

(** ** Tables *)
Section Tables.
Local Open Scope Z_scope.

Definition ordered (ranges : list (Z * Z)) : Prop := StronglySorted (fun a b => a.2 < b.1) ranges.

Lemma clip_ok plane r x :
  clip plane r = Some x <->
  x = (Z.max r.1 (plane_start plane), Z.min r.2 (plane_end plane)) /\ x.1 <= x.2.
Proof.
  unfold clip. destruct (_ <=? _) eqn:E; split.
  - intros [= <-]. split; [done|]. cbn. lia.
  - by intros [-> _].
  - done.
  - intros [-> Hle]. cbn in Hle. lia.
Qed.

Lemma elem_of_local_ranges ranges plane x :
  x ∈ local_ranges ranges plane <-> exists r, r ∈ ranges /\ r.1 <= plane_end plane /\ clip plane r = Some x.
Proof.
  unfold local_ranges. rewrite list_elem_of_omap. f_equiv. intros r.
  rewrite list_elem_of_In, filter_In, <- list_elem_of_In, Z.leb_le. tauto.
Qed.

Lemma local_ranges_ok ranges plane lo hi :
  separated ranges -> within lo hi ranges ->
  ordered (local_ranges ranges plane) /\
  within (plane_start plane) (plane_end plane) (local_ranges ranges plane) /\
  forall v, covers (local_ranges ranges plane) v <-> covers ranges v /\ plane_start plane <= v <= plane_end plane.
Proof.
  intros Hsep Hw. split_and!.
  - clear Hw. unfold ordered. induction Hsep as [|r ranges _ IH Hr]; [constructor|].
    assert (local_ranges (r :: ranges) plane =
      match (if r.1 <=? plane_end plane then clip plane r else None) with
      | Some x => x :: local_ranges ranges plane
      | None => local_ranges ranges plane
      end) as ->.
    { unfold local_ranges. cbn. by destruct (_ <=? _). }
    destruct (if r.1 <=? plane_end plane then clip plane r else None) as [x|] eqn:Hx; [|exact IH].
    destruct (r.1 <=? plane_end plane); [|done]. apply clip_ok in Hx as [-> Hle].
    constructor; [exact IH|]. apply Forall_forall. intros y (r' & Hin & _ & [-> Hle']%clip_ok)%elem_of_local_ranges.
    eapply Forall_forall in Hr; [|exact Hin]. cbn in *. lia.
  - apply Forall_forall. intros x (r & Hin & _ & [-> Hle]%clip_ok)%elem_of_local_ranges. cbn in *. lia.
  - intros v. unfold covers. split.
    + intros (x & (r & Hin & _ & [-> Hle]%clip_ok)%elem_of_local_ranges & Hv). cbn in *. split; [|lia].
      exists r. split; [done|lia].
    + intros [(r & Hin & Hv) Hp]. exists (Z.max r.1 (plane_start plane), Z.min r.2 (plane_end plane)).
      split; [|cbn; lia]. apply elem_of_local_ranges. exists r. split_and!; [done|lia|].
      apply clip_ok. cbn. split; [done|lia].
Qed.

(** One word holds both end points. *)
Lemma packed_add low high : 0 <= high < 2 ^ 21 -> packed (low, high) = low * 2 ^ 21 + high.
Proof.
  intros Hh. unfold packed. cbn [fst snd]. rewrite <- Z.shiftl_mul_pow2 by lia.
  symmetry. rewrite <- Z.lxor_lor; [apply Z.add_nocarry_lxor|]; apply Z.bits_inj'; intros n Hn;
    rewrite Z.land_spec, Z.bits_0, Z.shiftl_spec by done;
    (destruct (decide (n < 21)); [by rewrite Z.testbit_neg_r by lia|]);
    rewrite (Z.testbit_eqb high n) by done;
    rewrite Z.div_small; rewrite ?andb_false_r; try done;
    (split; [lia|]; eapply Z.lt_le_trans; [apply Hh|]; apply Z.pow_le_mono_r; lia).
Qed.

Lemma packed_ok r : 0 <= r.1 -> 0 <= r.2 < 2 ^ 21 -> packed r / 2097152 = r.1 /\ packed r mod 2097152 = r.2.
Proof.
  destruct r as [low high]. cbn [fst snd]. intros Hl Hh. rewrite packed_add by done.
  change (2 ^ 21) with 2097152 in *. split; [|by rewrite Z.add_comm, Z_mod_plus_full, Z.mod_small].
  rewrite Z.div_add_l, Z.div_small by lia. lia.
Qed.

(** Both fit a [u64]. *)
Lemma packed_u64 r : 0 <= r.1 < 2 ^ 21 -> 0 <= r.2 < 2 ^ 21 -> 0 <= packed r <= U64_MAX.
Proof. destruct r as [low high]. cbn [fst snd]. intros Hl Hh. rewrite packed_add by done. unfold U64_MAX. lia. Qed.
End Tables.

(** ** The search *)
Section Search.
Local Open Scope Z_scope.
Context (local : list (Z * Z)) (value : Z).
Context (Hordered : ordered local) (Hwithin : within 0 2097151 local) (Hsome : (0 < length local)%nat).

Lemma ordered_lookup i j a b :
  local !! i = Some a -> local !! j = Some b -> (i < j)%nat -> a.2 < b.1.
Proof.
  intros Ha Hb Hij. rewrite <- (take_drop_middle _ _ _ Ha) in Hordered, Hb.
  apply StronglySorted_app in Hordered as (_ & _ & Hs). apply StronglySorted_inv in Hs as [_ Hs].
  rewrite lookup_app_r in Hb by (rewrite length_take; lia).
  assert (length (take i local) = i) as Hlen.
  { rewrite length_take. apply lookup_lt_Some in Ha. lia. }
  rewrite Hlen in Hb. destruct (j - i)%nat as [|n] eqn:E; [lia|]. cbn in Hb.
  eapply Forall_forall in Hs; [exact Hs|]. by eapply list_elem_of_lookup_2.
Qed.

Lemma search_step_index i : 0 <= i < Z.of_nat (length local) ->
  exists r, local !! Z.to_nat i = Some r /\ 0 <= r.1 <= r.2 /\ r.2 < 2 ^ 21 /\
    @index string _ (map packed local) (Z.to_nat i) = Ok (packed r).
Proof.
  intros Hi. destruct (lookup_lt_is_Some_2 local (Z.to_nat i)) as [r Hr]; [lia|].
  exists r. pose proof Hwithin as Hw. eapply Forall_lookup_1 in Hw; [|exact Hr]. cbn in Hw.
  split_and!; [done|lia..|]. apply index_ok. rewrite list_lookup_fmap. by rewrite Hr.
Qed.

Lemma iterate_found steps lo hi :
  exists st, iterate_search steps value (map packed local) (mkSearch lo hi true) = Ok st /\ us_found st = true.
Proof.
  induction steps as [|steps IH]; [by eexists|]. cbn [iterate_search]. unfold search_step. cbn [us_found negb].
  rewrite andb_false_r. destruct (search_step_index 0) as (r & _ & _ & _ & ->); [lia|]. exact IH.
Qed.

(** The window [lo, hi) shrinks below every power of two in turn. *)
Lemma iterate_search_ok steps lo hi :
  0 <= lo <= hi -> hi <= Z.of_nat (length local) -> hi - lo < 2 ^ Z.of_nat steps ->
  (covers local value -> exists i r, lo <= i < hi /\ local !! Z.to_nat i = Some r /\ r.1 <= value <= r.2) ->
  exists st, iterate_search steps value (map packed local) (mkSearch lo hi false) = Ok st /\
    (us_found st = true <-> covers local value).
Proof.
  revert lo hi. induction steps as [|steps IH]; intros lo hi Hlo Hhi Hpow Hc.
  { eexists. split; [done|]. cbn. split; [done|]. intros (i & r & Hi & _)%Hc. cbn in Hpow. lia. }
  rewrite Nat2Z.inj_succ, Z.pow_succ_r in Hpow by lia.
  cbn [iterate_search]. unfold search_step. cbn [us_low us_high us_found negb]. rewrite andb_true_r.
  destruct (lo <? hi) eqn:Hact; last first.
  { destruct (search_step_index 0) as (r & _ & _ & _ & ->); [lia|]. cbn [mbind outcome_bind].
    apply IH; [done|done|lia|done]. }
  assert (lo <= (lo + hi) / 2 < hi) as Hmid.
  { split; [apply Z.div_le_lower_bound|apply Z.div_lt_upper_bound]; lia. }
  assert (2 * ((lo + hi) / 2) <= lo + hi < 2 * ((lo + hi) / 2) + 2) as Hhalf.
  { pose proof (Z.div_mod (lo + hi) 2). pose proof (Z.mod_pos_bound (lo + hi) 2). lia. }
  remember ((lo + hi) / 2) as mid eqn:Emid. clear Emid.
  destruct (search_step_index mid) as (r & Hr & Hr1 & Hr2 & ->); [lia|]. cbn [mbind outcome_bind].
  destruct (packed_ok r) as [-> ->]; [lia|lia|]. destruct (value <? r.1) eqn:E1; [|destruct (r.2 <? value) eqn:E2].
  - apply IH; [lia|lia|lia|]. intros (i & r' & Hi & Hr' & Hv)%Hc. exists i, r'. split; [|done]. split; [lia|].
    destruct (decide (i < mid)); [done|]. destruct (decide (i = mid)) as [->|]; [rewrite Hr in Hr'; injection Hr' as <-; lia|].
    pose proof (ordered_lookup _ _ _ _ Hr Hr' ltac:(lia)). lia.
  - apply IH; [lia|lia|lia|]. intros (i & r' & Hi & Hr' & Hv)%Hc. exists i, r'. split; [|done]. split; [|lia].
    destruct (decide (mid < i)); [lia|]. destruct (decide (i = mid)) as [->|]; [rewrite Hr in Hr'; injection Hr' as <-; lia|].
    pose proof (ordered_lookup _ _ _ _ Hr' Hr ltac:(lia)). lia.
  - destruct (iterate_found steps lo hi) as (st & Hst & Hf). exists st. split; [done|]. split; [|done].
    intros _. exists r. split; [by eapply list_elem_of_lookup_2|]. lia.
Qed.

(** Twelve iterations decide a table of at most 1,024 rows - or 4,095. *)
Lemma search_ok : Z.of_nat (length local) < 2 ^ 12 ->
  exists found, search value (map packed local) = Ok found /\ (found = true <-> covers local value).
Proof.
  intros Hlen. unfold search. rewrite length_map.
  destruct (iterate_search_ok 12 0 (Z.of_nat (length local)) ltac:(lia) ltac:(lia) ltac:(lia)) as (st & -> & Hf).
  - intros (r & [i Hi]%list_elem_of_lookup & Hv). exists (Z.of_nat i), r. rewrite Nat2Z.id.
    apply lookup_lt_Some in Hi as Hl. split_and!; [lia|lia|done|lia|lia].
  - cbn. eauto.
Qed.
End Search.

Section Classifier.
Local Open Scope Z_scope.

Lemma plane_table_ok ranges plane table :
  plane_table ranges plane = Ok table ->
  table = match local_ranges ranges plane with [] => [] | local => [(plane, local)] end /\
  (length (local_ranges ranges plane) <= 1024)%nat.
Proof.
  unfold plane_table. destruct (local_ranges ranges plane) as [|r local]; [intros [= <-]; split; [done|cbn; lia]|].
  destruct (Nat.leb _ _) eqn:E; [|done]. intros [= <-]. apply Nat.leb_le in E. done.
Qed.

Lemma find_table ranges ps ts plane :
  Forall2 (fun p t => plane_table ranges p = Ok t) ps ts -> plane ∈ ps ->
  (length (local_ranges ranges plane) <= 1024)%nat /\
  List.find (fun table => table.1 =? plane) (concat ts) =
  match local_ranges ranges plane with [] => None | local => Some (plane, local) end.
Proof.
  intros Hts. induction Hts as [|p t ps ts [-> Hlen]%plane_table_ok Hrest IH]; intros Hin; [by apply elem_of_nil in Hin|].
  destruct (decide (plane = p)) as [->|Hne].
  - split; [done|]. cbn [concat]. destruct (local_ranges ranges p) as [|r local] eqn:E.
    + cbn. destruct (decide (p ∈ ps)) as [Hps|Hps]; [by apply IH|].
      destruct (List.find _ _) as [[q u]|] eqn:Hf; [|done].
      apply List.find_some in Hf as [Hf Hq]. cbn in Hq. apply Z.eqb_eq in Hq. subst q.
      clear -Hrest Hf Hps E. exfalso. apply in_concat in Hf as (t & Ht & Hf). apply list_elem_of_In in Ht, Hf.
      apply list_elem_of_lookup in Ht as [i Hi]. eapply Forall2_lookup_r in Hrest as (q & Hq & Ht); [|exact Hi].
      apply plane_table_ok in Ht as [-> _].
      destruct (local_ranges ranges q) eqn:E'; [by apply elem_of_nil in Hf|].
      apply list_elem_of_singleton in Hf as [= -> ->]. apply Hps. by eapply list_elem_of_lookup_2.
    + cbn. by rewrite Z.eqb_refl.
  - apply elem_of_cons in Hin as [|Hin]; [done|]. destruct (IH Hin) as [Hl Hf]. split; [done|]. cbn [concat].
    destruct (local_ranges ranges p); cbn; [done|]. rewrite (proj2 (Z.eqb_neq p plane)); [done|congruence].
Qed.

Lemma classify_ok predicate tables value :
  planes (property_ranges predicate) = Ok tables ->
  classify tables value = Ok ((128 <=? value) && included predicate value).
Proof.
  unfold planes. intros Hp. apply outcome_bind_ok in Hp as (ts & Hts%map_outcome_ok & [= <-]).
  destruct (property_ranges_ok predicate) as (Hsep & Hw & Hcov). unfold classify.
  destruct ((value <? 128) || (1114111 <? value)) eqn:E.
  { destruct (128 <=? value) eqn:E1; [|done]. cbn [andb]. f_equal. symmetry. apply not_true_iff_false.
    unfold included, is_char. rewrite !andb_true_iff. lia. }
  rewrite orb_false_iff, !Z.ltb_ge in E.
  assert (0 <= value / 65536 <= 16) as Hplane.
  { split; [apply Z.div_pos; lia|]. apply Z.lt_succ_r, Z.div_lt_upper_bound; lia. }
  destruct (find_table _ _ _ (value / 65536) Hts) as [Hlen Hfind]; [apply elem_of_seqZ; lia|].
  destruct (local_ranges_ok (property_ranges predicate) (value / 65536) 128 1114111 Hsep Hw) as (Ho & Hlw & Hlc).
  assert (plane_start (value / 65536) <= value <= plane_end (value / 65536)) as Hv.
  { unfold plane_end, plane_start. pose proof (Z.div_mod value 65536). pose proof (Z.mod_pos_bound value 65536). lia. }
  assert (covers (local_ranges (property_ranges predicate) (value / 65536)) value <->
    (128 <=? value) && included predicate value = true) as Hiff.
  { rewrite Hlc, Hcov, andb_true_iff, Z.leb_le. tauto. }
  rewrite Hfind. destruct (local_ranges _ _) as [|r local] eqn:El.
  - f_equal. symmetry. apply not_true_iff_false. rewrite <- Hiff. by intros (? & []%elem_of_nil & _).
  - cbn [snd]. destruct (search_ok (r :: local) value Ho) as (found & -> & Hf); [|cbn; lia|lia|].
    + eapply Forall_impl; [exact Hlw|]. cbn. unfold plane_start, plane_end, plane_start. lia.
    + f_equal. apply eq_true_iff_eq. by rewrite Hf.
Qed.

(** C38: the generated classifiers are exact.  Whenever the generator does not
    refuse a table for its size, the ranges it counts are the maximal runs of
    the property above ASCII, and the functions it prints - a dispatch on the
    plane and twelve iterations of a binary search over packed words - index
    every table in bounds and answer, on every [u64], whether the value is a
    scalar above ASCII with the property. *)
Theorem unicode_classifier_exact name predicate text total :
  emit_property name predicate = Ok (text, total) ->
  total = length (property_ranges predicate) /\
  separated (property_ranges predicate) /\
  (forall v, covers (property_ranges predicate) v <-> 128 <= v /\ included predicate v = true) /\
  exists tables, planes (property_ranges predicate) = Ok tables /\
    forall value, 0 <= value <= U64_MAX ->
      classify tables value = Ok ((128 <=? value) && included predicate value) /\
      identifier_start_scalar tables value =
        Ok ((value =? 95) || ascii_letter value || (128 <=? value) && included predicate value).
Proof.
  unfold emit_property. destruct (property_ranges_ok predicate) as (Hsep & _ & Hcov).
  pose proof (classify_ok predicate) as Hclassify.
  generalize dependent (property_ranges predicate). intros ranges Hsep Hcov Hclassify He.
  apply outcome_bind_ok in He as (tables & Ht & [= _ <-]). split_and!; [done..|].
  exists tables. split; [done|]. intros value _. split; [by apply Hclassify|].
  unfold identifier_start_scalar. destruct (_ || ascii_letter value); [done|]. by apply Hclassify.
Qed.
End Classifier.

(** ** Regeneration *)
Section Regeneration.
Local Open Scope string_scope.
Local Open Scope list_scope.

(** A text in which no occurrence of [needle] starts, whatever follows it. *)
Definition without_start (needle a : string) : Prop :=
  forall b, find needle (a +:+ b) = Nat.add (String.length a) <$> find needle b.

Lemma without_start_nil needle : without_start needle "".
Proof. intros b. rewrite string_app_nil. by destruct (find needle b). Qed.

Lemma without_start_app needle a b : without_start needle a -> without_start needle b -> without_start needle (a +:+ b).
Proof.
  intros Ha Hb c. rewrite string_app_assoc, Ha, Hb.
  assert (String.length (a +:+ b) = String.length a + String.length b) as ->.
  { clear. induction a as [|x a IH]; [done|]. rewrite string_app_cons. cbn. by rewrite IH. }
  destruct (find needle c); cbn; [f_equal; lia|done].
Qed.

(** Texts without the needle's first character. *)
Lemma without_start_free c needle a :
  c ∉ String.list_ascii_of_string a -> without_start (String c needle) a.
Proof.
  induction a as [|x a IH]; intros Hc b; [by apply without_start_nil|].
  cbn in Hc. apply not_elem_of_cons in Hc as [Hx Hc]. rewrite string_app_cons. cbn [find].
  assert (strip_prefix (String c needle) (String x (a +:+ b)) = None) as ->.
  { cbn. by destruct (Ascii.eqb_spec c x). }
  rewrite (IH Hc b). by destruct (find _ b).
Qed.

(** Decided on a concrete text: every suffix disagrees with [needle] early. *)
Fixpoint mismatch (needle s : string) : bool :=
  match needle, s with
  | String a needle, String b s => negb (Ascii.eqb a b) || mismatch needle s
  | _, _ => false
  end.
Fixpoint starts_nowhere (needle a : string) : bool :=
  match a with EmptyString => true | String _ rest => mismatch needle a && starts_nowhere needle rest end.

Lemma mismatch_ok needle a b : mismatch needle a = true -> strip_prefix needle (a +:+ b) = None.
Proof.
  revert a. induction needle as [|x needle IH]; intros [|y a] Hm; try done. cbn in Hm.
  rewrite string_app_cons. cbn. destruct (Ascii.eqb x y); [by apply IH|done].
Qed.

Lemma without_start_check needle a : starts_nowhere needle a = true -> without_start needle a.
Proof.
  induction a as [|x a IH]; intros Hs b; [by apply without_start_nil|].
  cbn [starts_nowhere] in Hs. apply andb_prop in Hs as [Hm Hs].
  apply (mismatch_ok _ _ b) in Hm. rewrite string_app_cons in *. cbn [find]. rewrite Hm, (IH Hs b).
  by destruct (find _ b).
Qed.

Lemma pretty_nat_free (n : nat) : "/"%char ∉ String.list_ascii_of_string (pretty n).
Proof. apply pretty_free. intros x. unfold pretty_N_char. by repeat case_match. Qed.

Lemma pretty_Z_free (z : Z) : "/"%char ∉ String.list_ascii_of_string (pretty z).
Proof.
  destruct z as [|q|q]; cbn; [set_solver|apply pretty_free; intros x; unfold pretty_N_char; by repeat case_match|].
  change (pretty (Z.neg q)) with (String "-" (pretty (N.pos q))). cbn. apply not_elem_of_cons. split; [done|].
  apply pretty_free. intros x. unfold pretty_N_char. by repeat case_match.
Qed.

(** [clean]: [END] starts nowhere in the text. *)
Abbreviation clean := (without_start END).

Lemma clean_free a : "/"%char ∉ String.list_ascii_of_string a -> clean a.
Proof. apply without_start_free. Qed.

Lemma clean_nat (n : nat) : clean (pretty n).
Proof. apply clean_free, pretty_nat_free. Qed.
Lemma clean_Z (z : Z) : clean (pretty z).
Proof. apply clean_free, pretty_Z_free. Qed.

Lemma clean_rows index local : clean (render_rows index local).
Proof.
  revert index. induction local as [|r local IH]; intros index; cbn [render_rows]; [apply without_start_nil|].
  apply without_start_app; [|apply without_start_app; [apply clean_Z|apply IH]].
  destruct (Nat.ltb _ _); [destruct (Nat.eqb _ _)|]; apply without_start_check; reflexivity.
Qed.

(** Piece by piece; the pieces are looked at, not unfolded. *)
Ltac clean_text :=
  repeat lazymatch goal with
  | H : without_start _ ?a |- without_start _ ?a => exact H
  | |- without_start _ (String.append _ _) => apply without_start_app
  | |- without_start _ (pretty _) => first [apply clean_Z|apply clean_nat]
  | |- without_start _ (render_rows _ _) => apply clean_rows
  | |- without_start _ _ => apply without_start_check; vm_compute; reflexivity
  end.

Lemma clean_header name total : clean ("// " +:+ name) -> clean name -> clean (render_header name total).
Proof.
  intros Hn Hn'. unfold render_header. rewrite <- string_app_assoc.
  apply without_start_app; [done|]. clean_text.
Qed.

Lemma clean_concat l : Forall clean l -> clean (String.concat "" l).
Proof.
  induction 1 as [|x l Hx Hl IH]; [apply without_start_nil|]. cbn [String.concat].
  destruct l; [done|]. apply without_start_app; [done|]. by rewrite string_app_nil.
Qed.

Lemma clean_property name predicate text total :
  clean ("// " +:+ name) -> clean name -> emit_property name predicate = Ok (text, total) -> clean text.
Proof.
  intros Hn Hn'. unfold emit_property. generalize (property_ranges predicate). intros ranges He.
  apply outcome_bind_ok in He as (tables & _ & [= <- _]).
  assert (forall f : Z * list (Z * Z) -> string, (forall t, clean (f t)) ->
    clean (String.concat "" (map f tables))) as Hmap.
  { intros f Hf. apply clean_concat, Forall_fmap, Forall_true. exact Hf. }
  assert (clean (String.concat "" (map (fun t => render_arm name t.1) tables))) as Harms
    by (apply Hmap; intros t; unfold render_arm; clean_text).
  assert (clean (String.concat "" (map (render_plane name) tables))) as Hplanes
    by (apply Hmap; intros t; unfold render_plane; clean_text).
  pose proof (clean_header name (length ranges) Hn Hn') as Hheader. clean_text.
Qed.

(** The generated region starts with its first marker and its second marker
    ends it; no other text in it looks like the second. *)
Definition region_body (version alphabetic alphanumeric : string) : string :=
  newline +:+ "// Generated by tools/generate_unicode_classifier.rs using " +:+ version +:+ "." +:+ newline
    +:+ "record UnicodeRangeSearch { low: u64, high: u64, found: bool }" +:+ newline
    +:+ alphabetic +:+ alphanumeric +:+ identifier_functions.

Lemma region_body_clean version alphabetic alphanumeric :
  clean version -> clean alphabetic -> clean alphanumeric ->
  clean (BEGIN +:+ region_body version alphabetic alphanumeric).
Proof. intros Hv Ha Hb. unfold region_body. clean_text. Qed.

Lemma region_body_text version alphabetic alphanumeric :
  BEGIN +:+ region_body version alphabetic alphanumeric +:+ END =
  BEGIN +:+ newline +:+ "// Generated by tools/generate_unicode_classifier.rs using " +:+ version +:+ "." +:+ newline
      +:+ "record UnicodeRangeSearch { low: u64, high: u64, found: bool }" +:+ newline
      +:+ alphabetic +:+ alphanumeric +:+ identifier_functions +:+ END.
Proof. unfold region_body. by rewrite !string_app_assoc. Qed.

Lemma generate_shape version is_alphabetic is_alphanumeric text :
  "/"%char ∉ String.list_ascii_of_string version ->
  generate version is_alphabetic is_alphanumeric = Ok text ->
  exists body, text = BEGIN +:+ body +:+ END /\ clean (BEGIN +:+ body).
Proof.
  intros Hv%clean_free.
  assert (forall a, emit_property "alphabetic" is_alphabetic = Ok a -> clean a.1) as Ha
    by (intros [a n] Ha; eapply clean_property; [..|exact Ha]; by apply without_start_check).
  assert (forall b, emit_property "alphanumeric" is_alphanumeric = Ok b -> clean b.1) as Hb
    by (intros [b n] Hb; eapply clean_property; [..|exact Hb]; by apply without_start_check).
  unfold generate. generalize dependent (emit_property "alphabetic" is_alphabetic).
  generalize dependent (emit_property "alphanumeric" is_alphanumeric). intros second Hb first Ha Hg.
  apply outcome_bind_ok in Hg as (alphabetic & Ht%Ha & Hg).
  apply outcome_bind_ok in Hg as (alphanumeric & Ht'%Hb & Hg). rewrite <- region_body_text in Hg.
  exists (region_body version alphabetic.1 alphanumeric.1). split; [by injection Hg|by apply region_body_clean].
Qed.

(** ** Where [find] finds *)

Lemma strip_prefix_app needle p x y :
  String.length needle <= String.length p ->
  strip_prefix needle (p +:+ x) = None <-> strip_prefix needle (p +:+ y) = None.
Proof.
  revert p. induction needle as [|c needle IH]; intros [|d p] Hlen; cbn in Hlen; try done; [lia|].
  rewrite !string_app_cons. cbn. destruct (Ascii.eqb c d); [|done]. apply IH. lia.
Qed.

(** A text before a long marker is searched alike, whatever follows it. *)
Lemma find_skip needle a marker x y n :
  String.length needle <= String.length marker ->
  find needle (a +:+ marker +:+ x) = Some n -> String.length a <= n ->
  find needle (a +:+ marker +:+ y) = Nat.add (String.length a) <$> find needle (marker +:+ y).
Proof.
  intros Hlen. revert n. induction a as [|c a IH]; intros n Hf Hn.
  - rewrite string_app_nil. change (String.length "") with 0. by destruct (find needle (marker +:+ y)).
  - rewrite !string_app_cons in *. cbn [find] in Hf |- *. cbn in Hn.
    destruct (strip_prefix needle (String c (a +:+ marker +:+ x))) eqn:Hs; [injection Hf as <-; lia|].
    assert (strip_prefix needle (String c (a +:+ marker +:+ y)) = None) as ->.
    { rewrite <- string_app_cons, <- string_app_assoc in Hs |- *.
      eapply strip_prefix_app; [|exact Hs]. rewrite string_length_app. cbn. lia. }
    apply fmap_Some in Hf as (m & Hf & ->). rewrite (IH m Hf) by lia.
    by destruct (find needle (marker +:+ y)).
Qed.

Lemma find_self needle b : find needle (needle +:+ b) = Some 0.
Proof. pose proof (strip_prefix_self needle b) as Hs. destruct (needle +:+ b) eqn:E; cbn; by rewrite Hs. Qed.

Lemma strip_prefix_ok needle s rest : strip_prefix needle s = Some rest -> s = needle +:+ rest.
Proof.
  revert s. induction needle as [|c needle IH]; intros [|d s] Hs; cbn in Hs; try done; [by injection Hs as <-..|].
  destruct (Ascii.eqb_spec c d) as [->|]; [|done]. rewrite string_app_cons. by rewrite <- (IH s Hs).
Qed.

Lemma find_ok needle s n :
  find needle s = Some n -> exists a b, s = a +:+ needle +:+ b /\ String.length a = n.
Proof.
  revert n. induction s as [|c s IH]; intros n Hf; cbn [find] in Hf;
    destruct (strip_prefix needle _) as [rest|] eqn:Hs.
  - injection Hf as <-. exists "", rest. apply strip_prefix_ok in Hs. by split.
  - done.
  - injection Hf as <-. exists "", rest. apply strip_prefix_ok in Hs. by split.
  - apply fmap_Some in Hf as (m & (a & b & -> & <-)%IH & ->). exists (String c a), b. done.
Qed.

Lemma string_take_app a b : string_take (String.length a) (a +:+ b) = a.
Proof. induction a as [|c a IH]; [by destruct b|]. rewrite string_app_cons. cbn. by rewrite IH. Qed.
Lemma string_drop_app a b : string_drop (String.length a) (a +:+ b) = b.
Proof. induction a as [|c a IH]; [by destruct b|]. rewrite string_app_cons. cbn. by rewrite IH. Qed.

(** A module with its markers in order, taken apart. *)
Lemma markers_ok current b e :
  find BEGIN current = Some b -> find END current = Some e -> b < e ->
  exists before old after, current = before +:+ BEGIN +:+ old +:+ END +:+ after /\
    b = String.length before /\ e = String.length (before +:+ BEGIN +:+ old).
Proof.
  intros Hb He Hlt. apply find_ok in Hb as (before & rest & -> & <-).
  pose proof (find_skip END before BEGIN rest rest _ ltac:(vm_compute; lia) He ltac:(lia)) as Hs.
  rewrite (without_start_check END BEGIN eq_refl rest) in Hs. rewrite He in Hs.
  destruct (find END rest) as [k|] eqn:Hk; [|done]. cbn [fmap option_fmap option_map] in Hs. injection Hs as ->.
  apply find_ok in Hk as (old & after & -> & <-). exists before, old, after.
  by rewrite !string_length_app.
Qed.

(** The markers of a module with a generated region, whatever follows it. *)
Lemma region_markers before rest body after n m :
  clean (BEGIN +:+ body) ->
  find BEGIN (before +:+ BEGIN +:+ rest) = Some n -> String.length before <= n ->
  find END (before +:+ BEGIN +:+ rest) = Some m -> String.length before <= m ->
  find BEGIN (before +:+ (BEGIN +:+ body +:+ END) +:+ after) = Some (String.length before) /\
  find END (before +:+ (BEGIN +:+ body +:+ END) +:+ after) = Some (String.length (before +:+ BEGIN +:+ body)).
Proof.
  intros Hclean Hn Hbn Hm Hbm. rewrite !string_app_assoc. split.
  - rewrite (find_skip BEGIN before BEGIN rest _ _ ltac:(done) Hn Hbn), find_self. cbn. f_equal. lia.
  - rewrite (find_skip END before BEGIN rest _ _ ltac:(vm_compute; lia) Hm Hbm).
    rewrite <- (string_app_assoc BEGIN body), (Hclean (END +:+ after)), find_self, !string_length_app. cbn. f_equal. lia.
Qed.

Lemma replacement_ok generated before old after :
  find BEGIN (before +:+ BEGIN +:+ old +:+ END +:+ after) = Some (String.length before) ->
  find END (before +:+ BEGIN +:+ old +:+ END +:+ after) = Some (String.length (before +:+ BEGIN +:+ old)) ->
  replacement generated (before +:+ BEGIN +:+ old +:+ END +:+ after) = Ok (before +:+ generated +:+ after).
Proof.
  intros Hb He. unfold replacement. rewrite Hb, He. cbn [expect mbind outcome_bind].
  rewrite (proj2 (Nat.ltb_lt _ _)) by (rewrite !string_length_app; vm_compute (String.length BEGIN); lia).
  rewrite string_take_app, <- string_length_app, !string_app_assoc. do 3 f_equal.
  rewrite <- !string_app_assoc. apply string_drop_app.
Qed.

(** Regeneration is stable.  Writing a module's generated region and then
    checking it finds nothing to change, and the text outside the region stays,
    for every module with its markers in order and every compiler version that
    is printed without a slash. *)
Theorem regeneration_stable version is_alphabetic is_alphanumeric generated current updated :
  "/"%char ∉ String.list_ascii_of_string version ->
  generate version is_alphabetic is_alphanumeric = Ok generated ->
  replacement generated current = Ok updated ->
  check generated updated = Ok true /\
  exists before old after,
    current = before +:+ BEGIN +:+ old +:+ END +:+ after /\ updated = before +:+ generated +:+ after.
Proof.
  intros Hv (body & -> & Hclean)%generate_shape Hr; [|done]. unfold replacement in Hr.
  destruct (find BEGIN current) as [b|] eqn:Hb; [|done]. destruct (find END current) as [e|] eqn:He; [|done].
  cbn [expect mbind outcome_bind] in Hr. destruct (Nat.ltb b e) eqn:Hlt; [|done]. apply Nat.ltb_lt in Hlt.
  destruct (markers_ok _ _ _ Hb He Hlt) as (before & old & after & -> & -> & ->).
  pose proof (replacement_ok (BEGIN +:+ body +:+ END) before old after Hb He) as Hok.
  unfold replacement in Hok. rewrite Hb, He in Hok. cbn [expect mbind outcome_bind] in Hok.
  rewrite (proj2 (Nat.ltb_lt _ _) Hlt) in Hok. rewrite Hok in Hr. injection Hr as <-.
  destruct (region_markers before (old +:+ END +:+ after) body after _ _ Hclean Hb ltac:(lia) He
    ltac:(rewrite string_length_app; lia)) as [Hb' He'].
  split; [|by exists before, old, after]. unfold check.
  rewrite !string_app_assoc in *. rewrite replacement_ok by done. cbn. by rewrite !string_app_assoc, String.eqb_refl.
Qed.
End Regeneration.

(** ** Inputs to apply them at *)
Section Sample.
Local Open Scope Z_scope.

Definition is_lambda (c : Z) : bool := c =? 955.

Lemma lambda_ranges : property_ranges is_lambda = [(955, 955)].
Proof.
  destruct (property_ranges_ok is_lambda) as (Hsep & Hw & Hc). revert Hsep Hw Hc.
  generalize (property_ranges is_lambda). intros ranges Hsep Hw Hc.
  assert (forall r, r ∈ ranges -> r = (955, 955)) as Hall.
  { intros [low high] Hr. eapply Forall_forall in Hw; [|exact Hr]. cbn in Hw.
    assert (covers ranges low /\ covers ranges high) as [Hl Hh] by (split; exists (low, high); cbn; split; done || lia).
    apply Hc in Hl as [_ Hl], Hh as [_ Hh]. unfold included, is_lambda in Hl, Hh.
    apply andb_prop in Hl as [_ Hl%Z.eqb_eq], Hh as [_ Hh%Z.eqb_eq]. congruence. }
  destruct ranges as [|r [|r' ranges]].
  - destruct (proj2 (Hc 955)) as (r & Hr & _); [done|]. by apply elem_of_nil in Hr.
  - by rewrite (Hall r) by left.
  - apply StronglySorted_inv in Hsep as [_ Hsep]. apply Forall_cons in Hsep as [Hlt _].
    rewrite (Hall r), (Hall r') in Hlt by (repeat first [left|right]). cbn in Hlt. lia.
Qed.

Definition lambda_text : string :=
  Eval vm_compute in
    (render_header "lambda" 1 +:+ render_arm "lambda" 0 +:+ "        _ => false" +:+ newline +:+ "    };" +:+ newline
     +:+ "}" +:+ newline +:+ render_plane "lambda" (0, [(955, 955)]))%string.

Lemma lambda_emitted : emit_property "lambda" is_lambda = Ok (lambda_text, 1%nat).
Proof. unfold emit_property. rewrite lambda_ranges. vm_compute. reflexivity. Qed.

Lemma unicode_classifier_exact_witness :
  exists tables, planes (property_ranges is_lambda) = Ok tables /\
    classify tables 955 = Ok true /\ classify tables 956 = Ok false.
Proof.
  destruct (unicode_classifier_exact "lambda" is_lambda lambda_text 1 lambda_emitted)
    as (_ & _ & _ & tables & Ht & Hv).
  exists tables. split; [exact Ht|]. split.
  - rewrite (proj1 (Hv 955 ltac:(unfold U64_MAX; lia))). reflexivity.
  - rewrite (proj1 (Hv 956 ltac:(unfold U64_MAX; lia))). reflexivity.
Defined.
End Sample.

Section SampleRegion.
Local Open Scope string_scope.
Local Open Scope list_scope.

Definition sample_generated : string :=
  Eval vm_compute in
    BEGIN +:+ region_body "rustc 1.90" (render_header "alphabetic" 0 +:+ "        _ => false" +:+ newline
      +:+ "    };" +:+ newline +:+ "}" +:+ newline) (render_header "alphanumeric" 0 +:+ "        _ => false" +:+ newline
      +:+ "    };" +:+ newline +:+ "}" +:+ newline) +:+ END.

Lemma no_ranges : property_ranges (fun _ => false) = [].
Proof.
  destruct (property_ranges_ok (fun _ => false)) as (_ & Hw & Hc). revert Hw Hc.
  generalize (property_ranges (fun _ => false)). intros [|r ranges] Hw Hc; [done|].
  apply Forall_cons in Hw as [Hr _]. destruct (proj1 (Hc r.1)) as [_ Hi].
  - exists r. split; [left|lia].
  - unfold included in Hi. by rewrite andb_false_r in Hi.
Qed.

Lemma sample_generated_ok : generate "rustc 1.90" (fun _ => false) (fun _ => false) = Ok sample_generated.
Proof. unfold generate, emit_property. rewrite no_ranges. vm_compute. reflexivity. Qed.

Definition sample_module : string := "module source;" +:+ newline +:+ BEGIN +:+ "old" +:+ END +:+ newline.
Definition sample_updated : string := "module source;" +:+ newline +:+ sample_generated +:+ newline.

Lemma regeneration_stable_witness : check sample_generated sample_updated = Ok true.
Proof.
  refine (proj1 (regeneration_stable "rustc 1.90" (fun _ => false) (fun _ => false) sample_generated
    sample_module sample_updated _ sample_generated_ok _)).
  - apply (bool_decide_unpack _). vm_compute. exact I.
  - vm_compute. reflexivity.
Defined.
End SampleRegion.
