(* ===== verification/ProbeCache.v ===== *)
(** The probe's cache identities and admission: [tools/stage0-probe/src/main.rs],
    from [VerifiedBackendArtifact] and [hash_tree] to [parse_cache_entry_reader].
    Definitions only. *)

From Stdlib Require Import Ascii.
From S2P Require Export Program Text.

(** ** Toolchain identity *)

Record ToolchainIdentity : Type := mkToolchain {
  ti_schema : string; ti_lock_revision : string; ti_lock_source_profile : string;
  ti_provisioned_revision : string; ti_bootstrap_tree_sha256 : string;
  ti_bootstrap_cargo_lock_sha256 : string; ti_compiler_implementation : string;
  ti_pipeline_identity : string; ti_language_profile : string;
  ti_backend_name : option string; ti_backend_configuration : option string; ti_target : option string;
  ti_compiler_host : string; ti_build_host : string; ti_rustc_version : string
}.
#[export] Instance ToolchainIdentity_eq_dec : EqDecision ToolchainIdentity.
Proof. solve_decision. Defined.

Record HostGenericSeedRequest : Type := mkSeed { seed_module : string; seed_rest : string }.

(** ** Frontend metadata *)

Record FrontendDependencySource : Type := mkDependencySource { ds_module : string; ds_source_sha256 : string }.
Record FrontendResolvedModule : Type := mkResolved {
  rm_requested_module : string; rm_declared_module : string; rm_module_identity : string
}.
#[export] Instance FrontendResolvedModule_eq_dec : EqDecision FrontendResolvedModule.
Proof. solve_decision. Defined.
Record FrontendCacheMetadata : Type := mkMetadata {
  fm_schema : string; fm_module : string; fm_module_source_sha256 : string;
  fm_dependency_semantic_ids : list string; fm_dependency_sources : list FrontendDependencySource;
  fm_resolved_modules : list FrontendResolvedModule
}.
(** [mncs_compiler::ModuleResolution]. *)
Record ModuleResolution : Type := mkResolution {
  mr_requested_module : string; mr_declared_module : string; mr_module_identity : SemanticId;
  mr_semantic_fingerprint : option string
}.

(** ** Cache entries *)

Record BackendArtifact : Type := mkBackendArtifact { ba_identity : string; ba_payload : string }.
(** What is written, and the two shapes it is read in. *)
Record ProbeCacheEntry : Type := mkCacheEntry {
  pc_identity : ToolchainIdentity; pc_program : Program;
  pc_artifact : option BackendArtifact; pc_frontend : option FrontendCacheMetadata
}.
Record ProbeCacheProgramEntry : Type := mkProgramEntry {
  pp_identity : ToolchainIdentity; pp_program : Program; pp_frontend : option FrontendCacheMetadata
}.
Record ProbeCacheBackendEntry : Type := mkBackendEntry {
  pb_identity : ToolchainIdentity; pb_program : Program;
  pb_artifact : option BackendArtifact; pb_frontend : option FrontendCacheMetadata
}.

(** A directory tree as [read_dir], [read] and [read_link] answer; [None] is an
    I/O error. *)
Inductive Tree : Type :=
  | TreeFile (content : option string)
  | TreeDir (entries : option (list (string * Tree)))
  | TreeOther (target : option string).

Section ProbeCache.
Context `{ModelCrate}.
(** [serde_json]'s writers and readers, [mncs_model::module_id],
    [Program::dependencies] and [BackendArtifact::identity_is_valid]. *)
Context (toolchain_json : ToolchainIdentity -> string)
  (seeds_json : list HostGenericSeedRequest -> string)
  (module_id : string -> SemanticId) (dependencies : Program -> list SemanticId)
  (artifact_identity_is_valid : BackendArtifact -> bool)
  (read_program_entry : string -> option ProbeCacheProgramEntry)
  (read_backend_entry : string -> option ProbeCacheBackendEntry).
Local Open Scope string_scope.
Local Open Scope list_scope.

Definition PROBE_CACHE_SCHEMA : string := "probe-cache-v3".
Definition UNKNOWN_IDENTITY_PART : string := "unknown".

(** ** [hash_tree] *)

(** [str::replace('\\', "/")]. *)
Fixpoint slashes (s : string) : string :=
  match s with
  | EmptyString => EmptyString
  | String a rest => String (if Ascii.eqb a "\"%char then "/"%char else a) (slashes rest)
  end.

Definition child_path (rel name : string) : string := if String.eqb rel "" then name else rel +:+ "/" +:+ name.

Definition build_output (name : string) : bool := String.eqb name "target" || String.eqb name "target-verification".

(** [all] rows or [None]: the [bool] the closure returns, and [files]. *)
Fixpoint join_rows (rows : list (string * option (list (string * string)))) : option (list (string * string)) :=
  match rows with
  | [] => Some []
  | (_, row) :: rest =>
      match row, join_rows rest with
      | Some files, Some others => Some (files ++ others)
      | _, _ => None
      end
  end.

Definition name_leb {A} (a b : string * A) : bool := ord_leb a.1 b.1.

(** [visit]: the files below a node, with their relative paths; a directory's
    entries are taken in the order of their names, build outputs skipped. *)
Fixpoint visit_tree (rel : string) (tree : Tree) : option (list (string * string)) :=
  match tree with
  | TreeFile content => content ← content; Some [(slashes rel, content)]
  | TreeOther target => target ← target; Some [(slashes rel, target)]
  | TreeDir None => None
  | TreeDir (Some entries) =>
      join_rows (sort_by name_leb
        ((fix rows (entries : list (string * Tree)) :=
            match entries with
            | [] => []
            | (name, child) :: rest =>
                if build_output name then rows rest
                else (name, visit_tree (child_path rel name) child) :: rows rest
            end) entries))
  end.

Definition nul : string := bytes [0].
Definition tree_buffer (files : list (string * string)) : string :=
  fold_left (fun buffer '(rel, content) => buffer +:+ rel +:+ nul +:+ content +:+ nul) files "".

Definition hash_tree (root : Tree) : string :=
  match visit_tree "" root with
  | Some files => sha256_hex (tree_buffer files)
  | None => UNKNOWN_IDENTITY_PART
  end.

(** ** Keys *)

Definition closure_input (closure : list (string * string)) : string :=
  fold_left (fun input '(name, content) => input +:+ name +:+ newline +:+ content +:+ newline) closure "".

Definition cache_key_hex (toolchain : ToolchainIdentity) (module : string) (closure : list (string * string))
  (seeds_raw : string) : string :=
  sha256_hex (PROBE_CACHE_SCHEMA +:+ newline +:+ toolchain_json toolchain +:+ newline +:+ module +:+ newline
    +:+ closure_input closure +:+ seeds_raw).

Definition frontend_toolchain_identity (t : ToolchainIdentity) : ToolchainIdentity :=
  mkToolchain (ti_schema t) (ti_lock_revision t) (ti_lock_source_profile t) (ti_provisioned_revision t)
    (ti_bootstrap_tree_sha256 t) (ti_bootstrap_cargo_lock_sha256 t) (ti_compiler_implementation t)
    (ti_pipeline_identity t) (ti_language_profile t) None None None
    (ti_compiler_host t) (ti_build_host t) (ti_rustc_version t).

Definition module_seeds_for (module : string) (seeds : list HostGenericSeedRequest) : list HostGenericSeedRequest :=
  List.filter (fun seed => String.eqb (seed_module seed) module) seeds.

Definition frontend_cache_key_hex (toolchain : ToolchainIdentity) (module module_source : string)
  (module_seeds : list HostGenericSeedRequest) : string :=
  sha256_hex ("probe-frontend-program-v2" +:+ newline +:+
    cache_key_hex (frontend_toolchain_identity toolchain) module [(module, module_source)] (seeds_json module_seeds)).

Definition module_source_sha256 (source : string) : string := "sha256:" +:+ sha256_hex source.

(** ** Frontend metadata *)

(** [windows(2).any(|pair| pair[0] == pair[1])]. *)
Fixpoint repeats (l : list string) : bool :=
  match l with
  | x :: (y :: _) as rest => bool_decide (x = y) || repeats rest
  | _ => false
  end.

Definition FRONTEND_SCHEMA : string := "probe-frontend-cache-metadata/1".

Definition add_resolution (sources : list (string * string))
  (resolved : option (list (string * FrontendResolvedModule))) (resolution : ModuleResolution)
  : option (list (string * FrontendResolvedModule)) :=
  resolved ← resolved;
  if negb (bool_decide (module_id (mr_declared_module resolution) = mr_module_identity resolution))
     || bool_decide (bm_get (mr_requested_module resolution) sources = None)
  then None
  else
    let row := mkResolved (mr_requested_module resolution) (mr_declared_module resolution)
      (mr_module_identity resolution) in
    let '(previous, resolved) := bm_insert (mr_requested_module resolution) row resolved in
    match previous with
    | Some previous => if bool_decide (previous <> row) then None else Some resolved
    | None => Some resolved
    end.

Definition dependency_source (sources : list (string * string)) (resolved : FrontendResolvedModule)
  : option FrontendDependencySource :=
  source ← bm_get (rm_requested_module resolved) sources;
  Some (mkDependencySource (rm_requested_module resolved) (module_source_sha256 source)).

Definition source_leb (left right : FrontendDependencySource) : bool := ord_leb (ds_module left) (ds_module right).

Definition frontend_cache_metadata (module module_source : string) (program : Program)
  (module_resolutions : list ModuleResolution) (closure : list (string * string)) : option FrontendCacheMetadata :=
  let sources := bm_of_list closure in
  if bool_decide (bm_get module sources <> Some module_source) then None
  else
  let dependency_semantic_ids := sort_by ord_leb (dependencies program) in
  if repeats dependency_semantic_ids then None
  else
  let dependency_ids := bs_of_list dependency_semantic_ids in
  resolved_modules ← fold_left (add_resolution sources) module_resolutions (Some []);
  let resolved_ids := bs_of_list (map rm_module_identity (bm_values resolved_modules)) in
  if bool_decide (resolved_ids <> dependency_ids) then None
  else
  dependency_sources ← mapM (dependency_source sources) (bm_values resolved_modules);
  Some {| fm_schema := FRONTEND_SCHEMA;
          fm_module := module;
          fm_module_source_sha256 := module_source_sha256 module_source;
          fm_dependency_semantic_ids := dependency_semantic_ids;
          fm_dependency_sources := sort_by source_leb dependency_sources;
          fm_resolved_modules := bm_values resolved_modules |}.

(** The three loops of [frontend_cache_matches]: [None] is [return false]. *)
Definition index_source (current : option (list (string * string))) (row : string * string)
  : option (list (string * string)) :=
  current ← current;
  let '(previous, current) := bm_insert row.1 row.2 current in
  match previous with Some _ => None | None => Some current end.

Definition check_source (current_sources : list (string * string)) (names : option (list string))
  (source : FrontendDependencySource) : option (list string) :=
  names ← names;
  let '(fresh, names) := bs_insert (ds_module source) names in
  if negb fresh
     || match bm_get (ds_module source) current_sources with
        | None => true
        | Some current => negb (String.eqb (module_source_sha256 current) (ds_source_sha256 source))
        end
  then None else Some names.

Definition check_resolved (dependency_names : list string) (st : option (list string * list string))
  (resolved : FrontendResolvedModule) : option (list string * list string) :=
  '(resolved_names, resolved_ids) ← st;
  let '(fresh_name, resolved_names) := bs_insert (rm_requested_module resolved) resolved_names in
  if negb fresh_name
     || negb (bool_decide (module_id (rm_declared_module resolved) = rm_module_identity resolved))
  then None
  else
    let '(fresh_id, resolved_ids) := bs_insert (rm_module_identity resolved) resolved_ids in
    if negb fresh_id || negb (bs_mem (rm_requested_module resolved) dependency_names) then None
    else Some (resolved_names, resolved_ids).

Definition frontend_cache_matches (metadata : option FrontendCacheMetadata) (module module_source : string)
  (program : Program) (closure : list (string * string)) : bool :=
  match metadata with
  | None => false
  | Some metadata =>
      if negb (String.eqb (fm_schema metadata) FRONTEND_SCHEMA)
         || negb (String.eqb (fm_module metadata) module)
         || negb (String.eqb (p_module program) module)
         || negb (String.eqb (fm_module_source_sha256 metadata) (module_source_sha256 module_source))
      then false
      else
      let program_ids := sort_by ord_leb (dependencies program) in
      if repeats program_ids || bool_decide (program_ids <> fm_dependency_semantic_ids metadata) then false
      else
      match fold_left index_source closure (Some []) with
      | None => false
      | Some current_sources =>
          match fold_left (check_source current_sources) (fm_dependency_sources metadata) (Some []) with
          | None => false
          | Some dependency_names =>
              match fold_left (check_resolved dependency_names) (fm_resolved_modules metadata) (Some ([], [])) with
              | None => false
              | Some (resolved_names, resolved_ids) =>
                  bool_decide (resolved_names = dependency_names)
                  && bool_decide (resolved_ids = fm_dependency_semantic_ids metadata)
              end
          end
      end
  end.

(** ** Admission *)

(** [VerifiedBackendArtifact::verify]. *)
Definition verify (artifact : BackendArtifact) : Outcome BackendArtifact BackendArtifact :=
  if artifact_identity_is_valid artifact then Ok artifact else Err artifact.

(** [reader] is the whole decompressed stream. *)
Definition parse_cache_entry_reader (reader : string) (expected : ToolchainIdentity)
  (backend_name : option string) : option (Program * option BackendArtifact * option FrontendCacheMetadata) :=
  match backend_name with
  | None =>
      entry ← read_program_entry reader;
      if bool_decide (pp_identity entry <> expected) then None
      else Some (pp_program entry, None, pp_frontend entry)
  | Some _ =>
      entry ← read_backend_entry reader;
      if bool_decide (pb_identity entry <> expected) then None
      else
      match pb_artifact entry with
      | None => Some (pb_program entry, None, pb_frontend entry)
      | Some artifact =>
          match verify artifact with
          | Ok artifact => Some (pb_program entry, Some artifact, pb_frontend entry)
          | _ => None
          end
      end
  end.
End ProbeCache.
