(* ===== verification/ProbeCacheTheorems.v ===== *)
(** Correctness of the probe's cache identities: when a cached frontend program
    is reused, what the keys bind, and what the tree digest sees. *)

From Stdlib Require Import Ascii.
From S2P Require Export ProbeCache VmReference.

(** ** Loops that stop at the first failure *)

Lemma fold_left_none {A S} (step : option S -> A -> option S) l :
  (forall x, step None x = None) -> fold_left step l None = None.
Proof. intros Hn. induction l as [|x l IH]; cbn; [done|]. by rewrite Hn. Qed.

(** [windows(2)] on a sorted list finds every repetition. *)
Lemma repeats_sorted l : StronglySorted (fun a b => ord_leb a b = true) l -> repeats l = false <-> NoDup l.
Proof.
  induction 1 as [|x l Hl IH Hx]; [split; [constructor|done]|].
  rewrite NoDup_cons, <- IH. destruct l as [|y l]; [split; [split; [set_solver|done]|done]|].
  change (repeats (x :: y :: l)) with (bool_decide (x = y) || repeats (y :: l)).
  rewrite orb_false_iff, bool_decide_eq_false. split; intros [Hxy Hr]; (split; [|done]).
  - intros Hin. apply Forall_cons in Hx as [Hle Hx]. apply ord_leb_not_lt in Hle.
    apply StronglySorted_inv in Hl as [_ Hy]. apply elem_of_cons in Hin as [|Hin]; [done|].
    eapply Forall_forall in Hy; [|exact Hin]. apply ord_leb_not_lt in Hy.
    destruct (ord_total x y) as [?|[?|?]]; done.
  - intros ->. apply Hxy. left.
Qed.

Lemma ord_leb_total {A} `{RustOrd A} (x y : A) : ord_leb x y = false -> ord_leb y x = true.
Proof.
  intros Hxy. apply ord_leb_not_lt. intros Hlt. apply not_true_iff_false in Hxy.
  apply Hxy, ord_leb_not_lt. by apply ord_lt_asym.
Qed.

Lemma sort_ord_sorted {A} `{RustOrd A} (l : list A) :
  StronglySorted (fun a b => ord_leb a b = true) (sort_by ord_leb l).
Proof. apply sort_by_sorted; [done|apply ord_leb_total|intros x y z; apply ord_leb_trans]. Qed.

(** A list sorted by an order has one arrangement. *)
Lemma sorted_perm_eq {A} `{RustOrd A} (l k : list A) :
  StronglySorted (fun a b => ord_leb a b = true) l -> StronglySorted (fun a b => ord_leb a b = true) k ->
  l ≡ₚ k -> l = k.
Proof.
  intros Hl Hk Hp. eapply (StronglySorted_unique_strong (fun a b => ord_leb a b = true)); try done.
  intros x y _ _ Hxy Hyx. apply ord_leb_not_lt in Hxy, Hyx.
  by destruct (ord_total x y) as [?|[?|?]].
Qed.

Lemma sort_perm_eq {A} `{RustOrd A} (l k : list A) : l ≡ₚ k <-> sort_by ord_leb l = sort_by ord_leb k.
Proof.
  split.
  - intros Hp. apply sorted_perm_eq; [apply sort_ord_sorted..|]. by rewrite !sort_by_perm.
  - intros Heq. by rewrite <- (sort_by_perm ord_leb l), Heq, sort_by_perm.
Qed.

Lemma repeats_sort l : repeats (sort_by ord_leb l) = false <-> NoDup l.
Proof. rewrite repeats_sorted by apply sort_ord_sorted. by rewrite sort_by_perm. Qed.

(** ** The closure the caller has now *)

Lemma index_source_ok closure acc cur :
  bm_ascending acc ->
  fold_left index_source closure (Some acc) = Some cur <->
  NoDup closure.*1 /\ (forall name, name ∈ closure.*1 -> bm_get name acc = None) /\
  cur = fold_left (fun m kv => bm_put kv.1 kv.2 m) closure acc.
Proof.
  revert acc. induction closure as [|[name source] closure IH]; intros acc Ha; cbn [fold_left].
  - split; [intros [= ->]; split_and!; [constructor|by intros ? ?%elem_of_nil|done]|by intros (_ & _ & ->)].
  - unfold index_source at 2. cbn [mbind option_bind fst snd].
    destruct (bm_insert name source acc) as [previous acc'] eqn:Hi.
    pose proof (bm_insert_old name source acc Ha) as Hold. rewrite Hi in Hold. cbn in Hold.
    pose proof (bm_insert_put name source acc) as Hput. rewrite Hi in Hput. cbn in Hput.
    rewrite fmap_cons, NoDup_cons. destruct previous as [old|].
    + rewrite fold_left_none by done. split; [done|]. intros (_ & Hd & _).
      rewrite (Hd name) in Hold by (left). done.
    + subst acc'. rewrite IH by auto with btree. setoid_rewrite bm_get_put. cbn. split.
      * intros (Hnd & Hd & ->). split_and!; [|done| |done].
        -- intros Hin. specialize (Hd name Hin). by case_decide.
        -- intros n [->|Hn]%elem_of_cons; [done|]. specialize (Hd n Hn). by case_decide.
      * intros ([Hn Hnd] & Hd & ->). split_and!; [done| |done]. intros n Hin.
        case_decide as E; [by subst|]. apply Hd. by right.
Qed.

Lemma index_source_closure closure cur :
  fold_left index_source closure (Some []) = Some cur <-> NoDup closure.*1 /\ cur = bm_of_list closure.
Proof.
  rewrite index_source_ok by constructor. unfold bm_of_list. split; [tauto|]. intros [Hnd ->].
  split_and!; done.
Qed.

Section Metadata.
Context `{ModelCrate} (module_id : string -> SemanticId) (dependencies : Program -> list SemanticId).

Lemma check_source_ok cur sources names names' :
  ascending names ->
  fold_left (check_source cur) sources (Some names) = Some names' <->
  NoDup (map ds_module sources) /\
  (forall s, s ∈ sources -> ds_module s ∉ names /\
     exists c, bm_get (ds_module s) cur = Some c /\ module_source_sha256 c = ds_source_sha256 s) /\
  names' = bs_extend names (map ds_module sources).
Proof.
  revert names. induction sources as [|s sources IH]; intros names Ha; cbn [fold_left map].
  - split; [intros [= ->]; split_and!; [constructor|by intros ? ?%elem_of_nil|done]|by intros (_ & _ & ->)].
  - unfold check_source at 2. cbn [mbind option_bind].
    pose proof (bs_insert_fresh (ds_module s) names Ha) as Hf.
    destruct (bs_insert (ds_module s) names) as [fresh names1] eqn:Hi. cbn in Hf.
    assert (names1 = bs_add (ds_module s) names) as -> by (unfold bs_add; by rewrite Hi).
    rewrite NoDup_cons. destruct (negb fresh || _) eqn:Hbad.
    + rewrite fold_left_none by done. split; [done|]. intros (_ & Hs & _).
      destruct (Hs s) as [Hn (c & Hc & Hsha)]; [left|]. rewrite Hc, Hsha, String.eqb_refl in Hbad.
      rewrite orb_false_r in Hbad. apply negb_true_iff in Hbad. by apply Hf in Hn; congruence.
    + apply orb_false_iff in Hbad as [Hfresh Hsrc]. apply negb_false_iff, Hf in Hfresh.
      destruct (bm_get (ds_module s) cur) as [c|] eqn:Hc; [|done].
      apply negb_false_iff, String.eqb_eq in Hsrc.
      rewrite IH by auto with btree. split.
      * intros (Hnd & Hs & ->). split_and!; [|done| |done].
        -- intros (s' & Heq & Hin)%list_elem_of_fmap. destruct (Hs s' Hin) as [Hn _].
           apply Hn, elem_of_bs_add. by left.
        -- intros s' [->|Hin]%elem_of_cons; [eauto|]. destruct (Hs s' Hin) as [Hn ?]. split; [|done].
           intros Hin'. apply Hn, elem_of_bs_add. by right.
      * intros ([Hn Hnd] & Hs & ->). split_and!; [done| |done]. intros s' Hin.
        destruct (Hs s') as [Hn' ?]; [by right|]. split; [|done].
        intros [Heq|?]%elem_of_bs_add; [|done]. apply Hn, list_elem_of_fmap. eauto.
Qed.

Lemma check_resolved_ok names rows rn ri rn' ri' :
  ascending rn -> ascending ri ->
  fold_left (check_resolved module_id names) rows (Some (rn, ri)) = Some (rn', ri') <->
  NoDup (map rm_requested_module rows) /\ NoDup (map rm_module_identity rows) /\
  (forall r, r ∈ rows -> rm_requested_module r ∉ rn /\ rm_module_identity r ∉ ri /\
     module_id (rm_declared_module r) = rm_module_identity r /\ rm_requested_module r ∈ names) /\
  rn' = bs_extend rn (map rm_requested_module rows) /\ ri' = bs_extend ri (map rm_module_identity rows).
Proof.
  revert rn ri. induction rows as [|r rows IH]; intros rn ri Hrn Hri; cbn [fold_left map].
  - split; [intros [= -> ->]; split_and!; [by apply NoDup_nil_2..|by intros ? ?%elem_of_nil|done|done]
      |by intros (_ & _ & _ & -> & ->)].
  - unfold check_resolved at 2. cbn [mbind option_bind].
    pose proof (bs_insert_fresh (rm_requested_module r) rn Hrn) as Hf.
    pose proof (bs_insert_fresh (rm_module_identity r) ri Hri) as Hf'.
    destruct (bs_insert (rm_requested_module r) rn) as [fresh rn1] eqn:Hi.
    destruct (bs_insert (rm_module_identity r) ri) as [fresh' ri1] eqn:Hi'. cbn in Hf, Hf'.
    assert (rn1 = bs_add (rm_requested_module r) rn) as -> by (unfold bs_add; by rewrite Hi).
    assert (ri1 = bs_add (rm_module_identity r) ri) as -> by (unfold bs_add; by rewrite Hi').
    rewrite !NoDup_cons.
    destruct (decide (rm_requested_module r ∉ rn /\ rm_module_identity r ∉ ri /\
      module_id (rm_declared_module r) = rm_module_identity r /\ rm_requested_module r ∈ names)) as [Hok|Hbad].
    + destruct Hok as (Hq & Hd & Hid & Hn). apply Hf in Hq as Hq'. apply Hf' in Hd as Hd'.
      subst fresh fresh'. rewrite (bool_decide_true _ Hid), (proj2 (bs_mem_spec _ _) Hn). cbn [negb orb].
      rewrite IH by auto with btree. setoid_rewrite elem_of_bs_add. split.
      * intros (Hnq & Hnd & Hs & -> & ->). split_and!; try done.
        -- intros (r' & Heq & Hin)%list_elem_of_fmap. destruct (Hs r' Hin) as (Hx & _). auto.
        -- intros (r' & Heq & Hin)%list_elem_of_fmap. destruct (Hs r' Hin) as (_ & Hx & _). auto.
        -- intros r' [->|Hin]%elem_of_cons; [done|]. destruct (Hs r' Hin) as (? & ? & ? & ?). naive_solver.
      * intros ([Hnq1 Hnq] & [Hnd1 Hnd] & Hs & -> & ->). split_and!; try done. intros r' Hin.
        destruct (Hs r') as (? & ? & ? & ?); [by right|]. rewrite list_elem_of_fmap in Hnq1, Hnd1.
        split_and!; try done; intros [Heq|?]; eauto.
    + match goal with |- context [fold_left _ rows ?x] => assert (x = None) as -> end.
      { destruct (negb fresh || negb _) eqn:E1; [done|]. destruct (negb fresh' || negb _) eqn:E2; [done|].
        destruct Hbad. apply orb_false_iff in E1 as [E1 E1'], E2 as [E2 E2'].
        apply negb_false_iff in E1, E2, E1', E2'. apply bool_decide_eq_true in E1'. apply bs_mem_spec in E2'.
        apply Hf in E1. apply Hf' in E2. done. }
      rewrite fold_left_none by done. split; [done|]. intros (_ & _ & Hs & _). destruct Hbad. apply Hs. left.
Qed.
Lemma frontend_cache_matches_ok md module source p closure :
  frontend_cache_matches module_id dependencies (Some md) module source p closure = true <->
  (fm_schema md = FRONTEND_SCHEMA /\ fm_module md = module /\ p_module p = module /\
   fm_module_source_sha256 md = module_source_sha256 source) /\
  (NoDup (dependencies p) /\ sort_by ord_leb (dependencies p) = fm_dependency_semantic_ids md) /\
  NoDup closure.*1 /\
  (NoDup (map ds_module (fm_dependency_sources md)) /\
   forall s, s ∈ fm_dependency_sources md ->
     exists c, (ds_module s, c) ∈ closure /\ module_source_sha256 c = ds_source_sha256 s) /\
  (NoDup (map rm_requested_module (fm_resolved_modules md)) /\
   NoDup (map rm_module_identity (fm_resolved_modules md)) /\
   forall r, r ∈ fm_resolved_modules md -> module_id (rm_declared_module r) = rm_module_identity r) /\
  (forall n, n ∈ map rm_requested_module (fm_resolved_modules md) <-> n ∈ map ds_module (fm_dependency_sources md)) /\
  bs_of_list (map rm_module_identity (fm_resolved_modules md)) = fm_dependency_semantic_ids md.
Proof.
  unfold frontend_cache_matches. rewrite <- (repeats_sort (dependencies p)).
  destruct (negb (_ =? _)%string || _ || _ || _) eqn:E1.
  { split; [done|]. intros ((H1 & H2 & H3 & H4) & _). rewrite H1, H2, H3, H4, !String.eqb_refl in E1. done. }
  rewrite !orb_false_iff, !negb_false_iff, !String.eqb_eq in E1. destruct E1 as (((H1 & H2) & H3) & H4).
  destruct (repeats _ || _) eqn:E2.
  { split; [done|]. intros (_ & (H5 & H6) & _). rewrite H5, H6, bool_decide_false in E2 by tauto. done. }
  rewrite orb_false_iff, bool_decide_eq_false in E2. destruct E2 as (H5 & H6). apply dec_stable in H6.
  destruct (fold_left index_source closure (Some [])) as [cur|] eqn:E3; last first.
  { split; [done|]. intros (_ & _ & Hnd & _). by rewrite (proj2 (index_source_closure _ _) (conj Hnd eq_refl)) in E3. }
  apply index_source_closure in E3 as [H7 ->].
  assert (forall s : FrontendDependencySource,
    (exists c, (ds_module s, c) ∈ closure /\ module_source_sha256 c = ds_source_sha256 s) <->
    exists c, bm_get (ds_module s) (bm_of_list closure) = Some c /\ module_source_sha256 c = ds_source_sha256 s) as Hc.
  { intros s. f_equiv. intros c. by rewrite bm_get_unique. }
  setoid_rewrite Hc. clear Hc.
  destruct (fold_left (check_source _) _ _) as [names|] eqn:E4; last first.
  { split; [done|]. intros (_ & _ & _ & [Hnd Hs] & _).
    rewrite (proj2 (check_source_ok _ _ [] _ ltac:(constructor)) (conj Hnd (conj (fun s Hin => conj (not_elem_of_nil _) (Hs s Hin)) eq_refl))) in E4.
    done. }
  apply check_source_ok in E4 as (H8 & H9 & ->); [|constructor].
  assert (forall s, s ∈ fm_dependency_sources md ->
    exists c, bm_get (ds_module s) (bm_of_list closure) = Some c /\ module_source_sha256 c = ds_source_sha256 s) as H9'
    by (intros; by apply H9).
  fold (bs_of_list (map ds_module (fm_dependency_sources md))).
  destruct (fold_left (check_resolved _ _) _ _) as [[rn ri]|] eqn:E5.
  - apply check_resolved_ok in E5 as (H10 & H11 & H12 & -> & ->); [|constructor..].
    fold (bs_of_list (map rm_requested_module (fm_resolved_modules md))).
    fold (bs_of_list (map rm_module_identity (fm_resolved_modules md))).
    rewrite andb_true_iff, !bool_decide_eq_true. split.
    + intros [Hn Hi]. refine (conj (conj H1 (conj H2 (conj H3 H4))) (conj (conj H5 H6) (conj H7
        (conj (conj H8 H9') (conj (conj H10 (conj H11 _)) (conj _ Hi)))))); [intros r Hr; by apply H12|].
      intros n. by rewrite <- (elem_of_bs_of_list n (map rm_requested_module _)), Hn, elem_of_bs_of_list.
    + intros (_ & _ & _ & _ & _ & Hn & Hi). split; [|done]. by apply bs_of_list_ext.
  - split; [done|]. intros (_ & _ & _ & _ & (Hq & Hi & Hm) & Hn & _).
    assert (forall r, r ∈ fm_resolved_modules md -> rm_requested_module r ∉ ([] : list string) /\
      rm_module_identity r ∉ ([] : list string) /\ module_id (rm_declared_module r) = rm_module_identity r /\
      rm_requested_module r ∈ bs_of_list (map ds_module (fm_dependency_sources md))) as Hall.
    { intros r Hr. split_and!; [by apply not_elem_of_nil..|by apply Hm|].
      apply elem_of_bs_of_list, Hn, list_elem_of_fmap. eauto. }
    by rewrite (proj2 (check_resolved_ok _ _ [] [] _ _ ltac:(constructor) ltac:(constructor))
      (conj Hq (conj Hi (conj Hall (conj eq_refl eq_refl))))) in E5.
Qed.
(** ** What the recorded metadata holds *)

Definition resolved_row (r : ModuleResolution) : FrontendResolvedModule :=
  mkResolved (mr_requested_module r) (mr_declared_module r) (mr_module_identity r).

Definition resolves_in (sources : list (string * string)) (r : ModuleResolution) : Prop :=
  module_id (mr_declared_module r) = mr_module_identity r /\ is_Some (bm_get (mr_requested_module r) sources).

Lemma add_resolution_ok sources res acc rows :
  bm_ascending acc -> fold_left (add_resolution module_id sources) res (Some acc) = Some rows ->
  bm_ascending rows /\
  (forall r, r ∈ res -> resolves_in sources r /\ bm_get (mr_requested_module r) rows = Some (resolved_row r)) /\
  (forall k row, bm_get k acc = Some row -> bm_get k rows = Some row) /\
  (forall k row, bm_get k rows = Some row ->
     bm_get k acc = Some row \/ exists r, r ∈ res /\ k = mr_requested_module r /\ row = resolved_row r).
Proof.
  revert acc. induction res as [|r res IH]; intros acc Ha Hf; cbn [fold_left] in Hf.
  { injection Hf as <-. split_and!; eauto. by intros ? ?%elem_of_nil. }
  unfold add_resolution at 2 in Hf. cbn [mbind option_bind] in Hf. fold (resolved_row r) in Hf.
  destruct (negb _ || _) eqn:E1; [by rewrite fold_left_none in Hf|].
  apply orb_false_iff in E1 as [Hid%negb_false_iff%bool_decide_eq_true Hsrc%bool_decide_eq_false].
  pose proof (bm_insert_old (mr_requested_module r) (resolved_row r) acc Ha) as Hold.
  pose proof (bm_insert_put (mr_requested_module r) (resolved_row r) acc) as Hput.
  destruct (bm_insert _ _ acc) as [previous acc'] eqn:Hi. cbn in Hold, Hput. subst acc'.
  assert (forall row, bm_get (mr_requested_module r) acc = Some row -> row = resolved_row r) as Hkeep.
  { intros row Hrow. rewrite Hold, Hrow in Hf. cbn beta iota in Hf. case_bool_decide as E; [by rewrite fold_left_none in Hf|done]. }
  destruct (IH (bm_put (mr_requested_module r) (resolved_row r) acc)) as (Hasc & Hres & Hacc & Hrows).
  { auto with btree. }
  { destruct previous; cbn beta iota in Hf; [|done]. case_bool_decide; [by rewrite fold_left_none in Hf|done]. }
  setoid_rewrite bm_get_put in Hacc. setoid_rewrite bm_get_put in Hrows. split_and!; [done| | |].
  - intros r' [->|Hr']%elem_of_cons; [|auto]. split; [split; [done|by apply not_eq_None_Some]|].
    apply Hacc. by rewrite decide_True.
  - intros k row Hk. apply Hacc. case_decide as E; [|done]. subst k. by rewrite (Hkeep _ Hk).
  - intros k row Hk. destruct (Hrows k row Hk) as [Hk'|(r' & ? & ? & ?)].
    + case_decide as E; [|by left]. right. exists r. split_and!; [left|done|congruence].
    + right. exists r'. split_and!; [by right|done..].
Qed.

Lemma dependency_source_module sources row s :
  dependency_source sources row = Some s ->
  ds_module s = rm_requested_module row /\
  exists c, bm_get (rm_requested_module row) sources = Some c /\ ds_source_sha256 s = module_source_sha256 c.
Proof. unfold dependency_source. intros (c & Hc & [= <-])%bind_Some. eauto. Qed.

Record Recorded (module source : string) (p : Program) (res : list ModuleResolution)
  (closure : list (string * string)) (md : FrontendCacheMetadata) : Prop := {
  rec_schema : fm_schema md = FRONTEND_SCHEMA;
  rec_module : fm_module md = module;
  rec_source : fm_module_source_sha256 md = module_source_sha256 source;
  rec_ids : NoDup (dependencies p) /\ fm_dependency_semantic_ids md = sort_by ord_leb (dependencies p);
  rec_valid : forall r, r ∈ res -> resolves_in (bm_of_list closure) r;
  rec_rows : forall row, row ∈ fm_resolved_modules md <-> exists r, r ∈ res /\ row = resolved_row r;
  rec_requested : NoDup (map rm_requested_module (fm_resolved_modules md));
  rec_identities : forall id, id ∈ map rm_module_identity (fm_resolved_modules md) <-> id ∈ dependencies p;
  rec_modules : map ds_module (fm_dependency_sources md) ≡ₚ map rm_requested_module (fm_resolved_modules md);
  rec_sources : forall s, s ∈ fm_dependency_sources md ->
    exists c, bm_get (ds_module s) (bm_of_list closure) = Some c /\ ds_source_sha256 s = module_source_sha256 c
}.

Lemma frontend_cache_metadata_source module source p res closure md :
  frontend_cache_metadata module_id dependencies module source p res closure = Some md ->
  bm_get module (bm_of_list closure) = Some source.
Proof. unfold frontend_cache_metadata. case_bool_decide as E; [done|]. by destruct (decide (bm_get module (bm_of_list closure) = Some source)). Qed.

Lemma frontend_cache_metadata_ok module source p res closure md :
  frontend_cache_metadata module_id dependencies module source p res closure = Some md ->
  Recorded module source p res closure md.
Proof.
  unfold frontend_cache_metadata. intros Hm.
  case_bool_decide as E1; [done|]. destruct (repeats _) eqn:E2; [done|]. apply repeats_sort in E2.
  apply bind_Some in Hm as (rows & Hrows & Hm). case_bool_decide as E3; [done|].
  apply bind_Some in Hm as (sources & Hs & [= <-]).
  apply add_resolution_ok in Hrows as (Hasc & Hres & _ & Hin); [|constructor].
  assert (forall k row, (k, row) ∈ rows <-> exists r, r ∈ res /\ k = mr_requested_module r /\ row = resolved_row r) as Hrow.
  { intros k row. split.
    - intros Hk%bm_elem_get; [|done]. by apply Hin in Hk as [[=]|].
    - intros (r & Hr & -> & ->). by apply bm_get_elem, Hres. }
  assert (map rm_requested_module (bm_values rows) = bm_keys rows) as Hkeys.
  { unfold bm_values, bm_keys. clear -Hrow. rewrite <- list_fmap_compose. apply list_fmap_ext.
    intros i [k row] Hi. cbn. apply list_elem_of_lookup_2, Hrow in Hi as (r & _ & -> & ->). done. }
  apply mapM_Some in Hs. constructor; cbn; try done.
  - intros r Hr. by apply Hres.
  - intros row. unfold bm_values. rewrite list_elem_of_fmap. split.
    + intros ([k row'] & -> & Hk). apply Hrow in Hk as (r & ? & ? & ?). eauto.
    + intros (r & Hr & ->). exists (mr_requested_module r, resolved_row r). split; [done|]. apply Hrow. eauto.
  - rewrite Hkeys. by apply bm_keys_NoDup.
  - intros id. rewrite <- (elem_of_bs_of_list id (map _ _)), E3, elem_of_bs_of_list. by rewrite sort_by_perm.
  - rewrite sort_by_perm. clear -Hs. induction Hs as [|row s rows' sources Hd _ IH]; [done|]. cbn.
    apply dependency_source_module in Hd as [-> _]. by rewrite IH.
  - intros s Hin'. rewrite sort_by_perm in Hin'. clear -Hs Hin'.
    apply list_elem_of_lookup in Hin' as [i Hi]. eapply Forall2_lookup_r in Hs as (row & _ & Hd); [|exact Hi].
    apply dependency_source_module in Hd as [-> ?]. done.
Qed.
End Metadata.

(** Two labellings of a list, the first without repetitions. *)
Lemma NoDup_map_both {A B C} (f : A -> B) (g : A -> C) (l : list A) :
  NoDup (map f l) -> NoDup (map g l) <-> (forall x y, x ∈ l -> y ∈ l -> g x = g y -> f x = f y).
Proof.
  intros Hf. split.
  - intros Hg x y Hx Hy Heq. by rewrite (NoDup_map_unique g l x y).
  - intros Hfg. apply NoDup_fmap_2_strong; [|by apply (NoDup_fmap_1 f)].
    intros x y Hx Hy Heq. apply (NoDup_map_unique f l); auto.
Qed.

Lemma sort_NoDup_set (l : list string) : NoDup l -> sort_by ord_leb l = bs_of_list l.
Proof.
  intros Hnd. rewrite <- sort_dedup. symmetry.
  assert (forall l : list string, repeats l = false -> dedup l = l) as Hd.
  { clear. induction l as [|x [|y l] IH]; intros Hr; [done|done|].
    change (repeats (x :: y :: l)) with (bool_decide (x = y) || repeats (y :: l)) in Hr.
    apply orb_false_iff in Hr as [Hxy Hr]. change (dedup (x :: y :: l)) with
      (if bool_decide (x = y) then dedup (y :: l) else x :: dedup (y :: l)). by rewrite Hxy, IH. }
  by apply Hd, repeats_sort.
Qed.

(** The text a list of named sources gives a name: the last one. *)
Definition source_of (closure : list (string * string)) (name : string) : option string :=
  snd <$> last (filter (fun row => row.1 = name) closure).

Section Reuse.
Context `{ModelCrate} (module_id : string -> SemanticId) (dependencies : Program -> list SemanticId).

(** What [frontend_cache_matches] accepts of what [frontend_cache_metadata]
    recorded. *)
Lemma recorded_matches (Hsha : Inj (=) (=) sha256_hex) module source p res closure md module' source' p' closure' :
  frontend_cache_metadata module_id dependencies module source p res closure = Some md ->
  frontend_cache_matches module_id dependencies (Some md) module' source' p' closure' = true <->
  module' = module /\ p_module p' = module /\ source' = source /\
  dependencies p' ≡ₚ dependencies p /\ NoDup closure'.*1 /\
  (forall r, r ∈ res -> exists text,
     (mr_requested_module r, text) ∈ closure' /\ source_of closure (mr_requested_module r) = Some text) /\
  (forall r r', r ∈ res -> r' ∈ res -> mr_module_identity r = mr_module_identity r' ->
     mr_requested_module r = mr_requested_module r').
Proof.
  intros [Hsch Hmod Hsrc [Hnd Hids] Hvalid Hrows Hreq Hident Hmods Hsources]%frontend_cache_metadata_ok.
  rewrite frontend_cache_matches_ok, Hsch, Hmod, Hsrc, Hids.
  assert (module_source_sha256 source = module_source_sha256 source' <-> source' = source) as ->.
  { unfold module_source_sha256. split; [|by intros ->]. intros Heq.
    by apply (inj (String.append _)), (inj sha256_hex) in Heq. }
  rewrite <- sort_perm_eq, (NoDup_map_both _ rm_module_identity _ Hreq).
  assert ((forall s, s ∈ fm_dependency_sources md ->
      exists c, (ds_module s, c) ∈ closure' /\ module_source_sha256 c = ds_source_sha256 s) <->
    (forall r, r ∈ res -> exists text, (mr_requested_module r, text) ∈ closure' /\
      source_of closure (mr_requested_module r) = Some text)) as ->.
  { assert (forall name, source_of closure name = bm_get name (bm_of_list closure)) as Hso
      by (intros name; symmetry; apply bm_get_of_list).
    setoid_rewrite Hso. split.
    - intros Hs r Hr. assert (mr_requested_module r ∈ map ds_module (fm_dependency_sources md)) as Hin.
      { rewrite Hmods. apply list_elem_of_fmap. exists (resolved_row r). split; [done|]. apply Hrows. eauto. }
      apply list_elem_of_fmap in Hin as (s & Heq & Hin). rewrite Heq.
      destruct (Hs s Hin) as (c & Hc & Hsc), (Hsources s Hin) as (c' & Hc' & Hsc').
      exists c. split; [done|]. rewrite Hsc' in Hsc. unfold module_source_sha256 in Hsc.
      apply (inj (String.append _)), (inj sha256_hex) in Hsc. by subst c'.
    - intros Hr s Hs. assert (ds_module s ∈ map rm_requested_module (fm_resolved_modules md)) as Hin.
      { rewrite <- Hmods. apply list_elem_of_fmap. eauto. }
      apply list_elem_of_fmap in Hin as (row & Heq & (r & Hres & ->)%Hrows). cbn in Heq.
      destruct (Hr r Hres) as (text & Ht & Hget), (Hsources s Hs) as (c & Hc & Hsc).
      exists text. rewrite Heq. split; [done|]. rewrite Heq, Hget in Hc. injection Hc as ->. done. }
  assert ((forall x y, x ∈ fm_resolved_modules md -> y ∈ fm_resolved_modules md ->
      rm_module_identity x = rm_module_identity y -> rm_requested_module x = rm_requested_module y) <->
    (forall r r', r ∈ res -> r' ∈ res -> mr_module_identity r = mr_module_identity r' ->
      mr_requested_module r = mr_requested_module r')) as ->.
  { split.
    - intros Hx r r' Hr Hr'. apply (Hx (resolved_row r) (resolved_row r')); apply Hrows; eauto.
    - intros Hr x y (r & ? & ->)%Hrows (r' & ? & ->)%Hrows. by apply Hr. }
  split; [naive_solver|]. intros (-> & Hp' & -> & Hperm & Hnd' & Hres & Hinj).
  refine (conj (conj eq_refl (conj eq_refl (conj Hp' eq_refl))) (conj (conj _ Hperm) (conj Hnd'
    (conj (conj _ Hres) (conj (conj Hreq (conj Hinj _)) (conj _ _)))))).
  - by rewrite Hperm.
  - by rewrite Hmods.
  - intros row (r & Hr & ->)%Hrows. by apply Hvalid.
  - intros n. by rewrite Hmods.
  - rewrite sort_NoDup_set by done. by apply bs_of_list_ext.
Qed.

(** A cached frontend program is reused exactly when nothing it was made
    from has changed: the same module with the same source, a stored program
    with the same dependencies, an unambiguous closure, and for every module
    the elaboration resolved the very text it had then - whatever else the
    closure holds - provided no two requests were answered by one module. *)
Theorem frontend_reuse_exact (Hsha : Inj (=) (=) sha256_hex) module source p res closure md module' source' p' closure' :
  frontend_cache_metadata module_id dependencies module source p res closure = Some md ->
  frontend_cache_matches module_id dependencies (Some md) module' source' p' closure' = true <->
  module' = module /\ p_module p' = module /\ source' = source /\
  dependencies p' ≡ₚ dependencies p /\ NoDup closure'.*1 /\
  (forall r, r ∈ res -> exists text,
     (mr_requested_module r, text) ∈ closure' /\ source_of closure (mr_requested_module r) = Some text) /\
  (forall r r', r ∈ res -> r' ∈ res -> mr_module_identity r = mr_module_identity r' ->
     mr_requested_module r = mr_requested_module r').
Proof. by apply recorded_matches. Qed.
End Reuse.

(** ** Keys *)

Definition line_free (s : string) : Prop := "010"%char ∉ String.list_ascii_of_string s.
Definition nul_free (s : string) : Prop := "000"%char ∉ String.list_ascii_of_string s.

Section Keys.
Context `{ModelCrate} (toolchain_json : ToolchainIdentity -> string) (seeds_json : list HostGenericSeedRequest -> string).
Context `{!Inj (=) (=) sha256_hex, !Inj (=) (=) toolchain_json, !Inj (=) (=) seeds_json}.
(** A compact JSON document is one line. *)
Context (toolchain_line : forall t, line_free (toolchain_json t)) (seeds_line : forall s, line_free (seeds_json s)).

(** Everything above the closure, for modules whose names are one line. *)
Lemma cache_key_header t t' m m' closure closure' seeds seeds' :
  line_free m -> line_free m' ->
  cache_key_hex toolchain_json t m closure seeds = cache_key_hex toolchain_json t' m' closure' seeds' ->
  t = t' /\ m = m' /\ (closure_input closure +:+ seeds = closure_input closure' +:+ seeds')%string.
Proof.
  intros Hm Hm' Heq. unfold cache_key_hex in Heq. apply (inj sha256_hex) in Heq.
  apply (inj (String.append _)), (inj (String.append _)) in Heq.
  change newline with (String "010" "") in Heq. rewrite !string_app_cons, !string_app_nil in Heq.
  apply split_inj in Heq as [Ht Heq]; [|apply toolchain_line..]. apply (inj toolchain_json) in Ht.
  by apply split_inj in Heq as [-> Heq].
Qed.

(** The key of a cached frontend program determines everything the
    elaboration depends on: the toolchain up to the backend, the module, its
    whole source text and the module's specialization seeds.  The source may
    contain any number of line breaks. *)
Theorem frontend_key_injective t t' m m' source source' seeds seeds' :
  line_free m -> line_free m' ->
  frontend_cache_key_hex toolchain_json seeds_json t m source seeds =
  frontend_cache_key_hex toolchain_json seeds_json t' m' source' seeds' <->
  frontend_toolchain_identity t = frontend_toolchain_identity t' /\ m = m' /\ source = source' /\ seeds = seeds'.
Proof.
  intros Hm Hm'. split; [|unfold frontend_cache_key_hex; by intros (-> & -> & -> & ->)].
  intros Heq. unfold frontend_cache_key_hex in Heq. apply (inj sha256_hex) in Heq.
  apply (inj (String.append _)), (inj (String.append _)) in Heq.
  apply cache_key_header in Heq as (Ht & -> & Heq); [|done|done].
  unfold closure_input in Heq. cbn [fold_left] in Heq.
  change newline with (String "010" "") in Heq. rewrite !string_app_nil in Heq.
  rewrite <- !string_app_assoc, !(string_app_assoc _ (String "010" "")), !string_app_cons, !string_app_nil in Heq.
  apply last_split_inj in Heq as [Heq Hs%(inj seeds_json)]; [|apply seeds_line..].
  by apply split_inj in Heq as [_ ->].
Qed.
End Keys.

(** The key of a whole closure does not separate a source text from the names
    that follow it. *)
Theorem cache_key_collision `{ModelCrate} toolchain_json t module a b c d seeds :
  cache_key_hex toolchain_json t module [(a, (b +:+ newline +:+ c +:+ newline +:+ d)%string)] seeds =
  cache_key_hex toolchain_json t module [(a, b); (c, d)] seeds.
Proof.
  unfold cache_key_hex, closure_input. cbn [fold_left]. rewrite !string_app_nil.
  by rewrite !string_app_assoc.
Qed.

(** ** The tree digest *)

(** Trees that differ in the order of directory entries and in the entries that
    are skipped. *)
Inductive same_tree : Tree -> Tree -> Prop :=
  | same_refl t : same_tree t t
  | same_sym t u : same_tree t u -> same_tree u t
  | same_trans t u v : same_tree t u -> same_tree u v -> same_tree t v
  | same_order entries entries' : NoDup entries.*1 -> entries ≡ₚ entries' ->
      same_tree (TreeDir (Some entries)) (TreeDir (Some entries'))
  | same_skipped l1 name child l2 : build_output name = true ->
      same_tree (TreeDir (Some (l1 ++ (name, child) :: l2))) (TreeDir (Some (l1 ++ l2)))
  | same_child l1 name child child' l2 : same_tree child child' ->
      same_tree (TreeDir (Some (l1 ++ (name, child) :: l2))) (TreeDir (Some (l1 ++ (name, child') :: l2))).

Definition tree_rows (rel : string) (entries : list (string * Tree)) : list (string * option (list (string * string))) :=
  map (fun entry => (entry.1, visit_tree (child_path rel entry.1) entry.2))
    (List.filter (fun entry => negb (build_output entry.1)) entries).

Lemma visit_tree_dir rel entries :
  visit_tree rel (TreeDir (Some entries)) = join_rows (sort_by name_leb (tree_rows rel entries)).
Proof.
  cbn [visit_tree]. do 2 f_equal. induction entries as [|[name child] entries IH]; [done|].
  unfold tree_rows. cbn. rewrite IH. by destruct (build_output name).
Qed.

Lemma tree_rows_app rel l1 l2 : tree_rows rel (l1 ++ l2) = tree_rows rel l1 ++ tree_rows rel l2.
Proof. unfold tree_rows. by rewrite List.filter_app, map_app. Qed.

Lemma sort_names_perm {A} (l k : list (string * A)) : NoDup l.*1 -> l ≡ₚ k -> sort_by name_leb l = sort_by name_leb k.
Proof.
  intros Hnd Hp.
  assert (forall l : list (string * A), StronglySorted (fun a b => name_leb a b = true) (sort_by name_leb l)) as Hs.
  { clear. intros l. apply sort_by_sorted; [done|intros x y; apply ord_leb_total|intros x y z; apply ord_leb_trans]. }
  eapply (StronglySorted_unique_strong (fun a b => name_leb a b = true)); [|done..|by rewrite !sort_by_perm].
  intros x y Hx Hy Hxy Hyx. rewrite sort_by_perm in Hx, Hy. rewrite <- Hp in Hy.
  apply (NoDup_map_unique fst l); [done..|]. apply ord_leb_not_lt in Hxy, Hyx.
  by destruct (ord_total x.1 y.1) as [?|[?|?]].
Qed.

Lemma tree_rows_names rel entries : (tree_rows rel entries).*1 `sublist_of` entries.*1.
Proof.
  unfold tree_rows. induction entries as [|[name child] entries IH]; [done|]. cbn.
  destruct (build_output name); cbn; by constructor.
Qed.

Lemma filter_perm {A} (keep : A -> bool) (l k : list A) : l ≡ₚ k -> List.filter keep l ≡ₚ List.filter keep k.
Proof.
  induction 1 as [|x l k _ IH|x y l|l k m _ IH1 _ IH2]; cbn; [done|..|by etrans].
  - by destruct (keep x); rewrite IH.
  - destruct (keep x), (keep y); try done. apply Permutation_swap.
Qed.

Lemma visit_same t u : same_tree t u -> forall rel, visit_tree rel t = visit_tree rel u.
Proof.
  induction 1 as [t|t u _ IH|t u v _ IH1 _ IH2|entries entries' Hnd Hp|l1 name child l2 Hb|l1 name c c' l2 _ IH];
    intros rel; [done|done|by rewrite IH1|..]; rewrite !visit_tree_dir.
  - f_equal. apply sort_names_perm.
    + eapply sublist_NoDup; [exact Hnd|apply tree_rows_names].
    + unfold tree_rows. apply Permutation_map. by apply filter_perm.
  - rewrite !tree_rows_app. unfold tree_rows at 2. cbn. by rewrite Hb.
  - rewrite !tree_rows_app. unfold tree_rows at 2 4. cbn. destruct (build_output name); cbn; [done|].
    by rewrite IH.
Qed.

Lemma tree_buffer_acc files acc :
  fold_left (fun buffer '(rel, content) => (buffer +:+ rel +:+ nul +:+ content +:+ nul)%string) files acc
  = (acc +:+ tree_buffer files)%string.
Proof.
  unfold tree_buffer. revert acc. induction files as [|[rel content] files IH]; intros acc; cbn [fold_left].
  - induction acc as [|x acc IHa]; [done|]. by rewrite string_app_cons, <- IHa.
  - rewrite IH, (IH ("" +:+ _)%string), string_app_nil. by rewrite string_app_assoc.
Qed.

Lemma tree_buffer_cons rel content files :
  tree_buffer ((rel, content) :: files) = (rel +:+ String "000" (content +:+ String "000" (tree_buffer files)))%string.
Proof.
  unfold tree_buffer at 1. cbn [fold_left]. rewrite tree_buffer_acc, string_app_nil.
  change nul with (String "000" ""). rewrite !string_app_assoc, !string_app_cons, ?string_app_nil, ?string_app_assoc. reflexivity.
Qed.

Definition rows_nul_free (files : list (string * string)) : Prop :=
  Forall (fun file => nul_free file.1 /\ nul_free file.2) files.

Lemma tree_buffer_inj files files' :
  rows_nul_free files -> rows_nul_free files' -> tree_buffer files = tree_buffer files' -> files = files'.
Proof.
  intros Hf. revert files'. induction Hf as [|[rel content] files [Hr Hc] _ IH]; intros files' Hf' Heq.
  - destruct files' as [|[rel content] files']; [done|]. rewrite tree_buffer_cons in Heq. by destruct rel.
  - destruct files' as [|[rel' content'] files']; [rewrite tree_buffer_cons in Heq; by destruct rel|].
    apply Forall_cons in Hf' as [[Hr' Hc'] Hf']. rewrite !tree_buffer_cons in Heq.
    apply split_inj in Heq as [-> Heq]; [|done..]. apply split_inj in Heq as [-> Heq]; [|done..].
    by rewrite (IH files').
Qed.

(** The digest of the provisioned tree is a digest of its content: it does
    not depend on the order in which directories list their entries, nor on
    anything named [target] or [target-verification], at any depth and of any
    kind; and while no path or content holds a NUL byte, two readable trees
    have one digest only when the same paths hold the same bytes. *)
Theorem hash_tree_exact `{ModelCrate} (Hsha : Inj (=) (=) sha256_hex) t u :
  (same_tree t u -> hash_tree t = hash_tree u) /\
  (forall files files', visit_tree "" t = Some files -> visit_tree "" u = Some files' ->
     rows_nul_free files -> rows_nul_free files' -> hash_tree t = hash_tree u -> files = files').
Proof.
  split.
  - intros Hs. unfold hash_tree. by rewrite (visit_same _ _ Hs).
  - intros files files' Ht Hu Hf Hf' Heq. unfold hash_tree in Heq. rewrite Ht, Hu in Heq.
    apply (inj sha256_hex) in Heq. by apply tree_buffer_inj.
Qed.

(** A content with NUL bytes can imitate the rows that follow it. *)
Theorem hash_tree_collision `{ModelCrate} :
  hash_tree (TreeDir (Some [("a", TreeFile (Some ("x" +:+ nul +:+ "b" +:+ nul +:+ "y")))]))%string =
  hash_tree (TreeDir (Some [("a", TreeFile (Some "x")); ("b", TreeFile (Some "y"))]))%string.
Proof. reflexivity. Qed.

(** Trees that cannot be read have one digest. *)
Example unreadable_trees_alike `{ModelCrate} :
  hash_tree (TreeDir (Some [("a", TreeFile None)]))%string = hash_tree (TreeDir (Some [("b", TreeDir None)]))%string.
Proof. reflexivity. Qed.

(** ** Inputs to apply them at *)
Section Sample.
Local Open Scope string_scope.
Local Open Scope list_scope.

(** A one-line injective rendering of anything countable. *)
Definition rendered {A} `{Countable A} (a : A) : string := pretty (Npos (countable.encode a)).

Lemma rendered_inj {A} `{Countable A} : Inj (=) (=) (rendered (A:=A)).
Proof.
  intros a b Heq. unfold rendered in Heq. apply (inj (pretty (A:=N))) in Heq. injection Heq as Heq.
  by apply (inj countable.encode) in Heq.
Qed.

Lemma rendered_free {A} `{Countable A} (a : A) : line_free (rendered a).
Proof. apply pretty_free. intros x. unfold pretty_N_char. by repeat case_match. Qed.

Definition toolchain_parts (t : ToolchainIdentity) :=
  ([ti_schema t; ti_lock_revision t; ti_lock_source_profile t; ti_provisioned_revision t;
    ti_bootstrap_tree_sha256 t; ti_bootstrap_cargo_lock_sha256 t; ti_compiler_implementation t;
    ti_pipeline_identity t; ti_language_profile t; ti_compiler_host t; ti_build_host t; ti_rustc_version t],
   [ti_backend_name t; ti_backend_configuration t; ti_target t]).
Definition sample_toolchain_json (t : ToolchainIdentity) : string := rendered (toolchain_parts t).
#[local] Instance sample_toolchain_json_inj : Inj (=) (=) sample_toolchain_json.
Proof.
  intros t u Heq. apply rendered_inj in Heq. destruct t, u. unfold toolchain_parts in Heq. cbn in Heq.
  by injection Heq as -> -> -> -> -> -> -> -> -> -> -> -> -> -> ->.
Qed.

Definition sample_seeds_json (l : list HostGenericSeedRequest) : string :=
  rendered (map (fun seed => (seed_module seed, seed_rest seed)) l).
#[local] Instance sample_seeds_json_inj : Inj (=) (=) sample_seeds_json.
Proof.
  intros l k Heq. apply rendered_inj in Heq. revert k Heq.
  induction l as [|[a b] l IH]; intros [|[a' b'] k] Heq; cbn in Heq; try done.
  injection Heq as -> -> Heq. by rewrite (IH k).
Qed.

Definition sample_toolchain (backend : option string) : ToolchainIdentity :=
  mkToolchain "probe-toolchain/1" "r" "p" "r" "t" "c" "i" "l" "0.18" backend None None "h" "b" "rustc".

(** The backend is not part of the frontend key. *)
Lemma frontend_key_injective_witness :
  line_free "app" /\
  frontend_cache_key_hex sample_toolchain_json sample_seeds_json (sample_toolchain (Some "vm")) "app" "text" [] =
  frontend_cache_key_hex sample_toolchain_json sample_seeds_json (sample_toolchain None) "app" "text" [].
Proof.
  assert (line_free "app") as Hm by (unfold line_free; cbn; set_solver).
  split; [exact Hm|].
  apply (@frontend_key_injective reference_crate sample_toolchain_json sample_seeds_json reference_sha_inj
    sample_toolchain_json_inj sample_seeds_json_inj (fun t => rendered_free _) (fun s => rendered_free _)
    (sample_toolchain (Some "vm")) (sample_toolchain None) "app" "app" "text" "text" [] [] Hm Hm).
  split_and!; reflexivity.
Defined.

Definition reuse_program : Program := mkProgram "app" [] [] [] [] [] "" "id:lib".
Definition reuse_dependencies (p : Program) : list SemanticId := [p_rest p].
Definition reuse_closure : list (string * string) := [("app", "module app"); ("lib", "module lib"); ("other", "1")].
Definition reuse_metadata : FrontendCacheMetadata :=
  mkMetadata "probe-frontend-cache-metadata/1" "app" "sha256:module app" ["id:lib"]
    [mkDependencySource "lib" "sha256:module lib"] [mkResolved "lib" "lib" "id:lib"].

(** A change outside the resolved modules does not cost the cached program. *)
Lemma frontend_reuse_exact_witness :
  frontend_cache_matches (fun m => "id:" +:+ m) reuse_dependencies (Some reuse_metadata) "app" "module app"
    reuse_program [("lib", "module lib"); ("app", "module app"); ("other", "2"); ("new", "")] = true.
Proof.
  apply (frontend_reuse_exact (fun m => "id:" +:+ m) reuse_dependencies reference_sha_inj "app" "module app"
    reuse_program [mkResolution "lib" "lib" "id:lib" None] reuse_closure reuse_metadata); [vm_compute; reflexivity|].
  split_and!; try reflexivity.
  - apply (bool_decide_unpack _). vm_compute. exact I.
  - intros r [->|[]%elem_of_nil]%elem_of_cons. exists "module lib". split; [left|vm_compute; reflexivity].
  - intros r r' [->|[]%elem_of_nil]%elem_of_cons [->|[]%elem_of_nil]%elem_of_cons _. reflexivity.
Defined.

Lemma hash_tree_exact_witness :
  hash_tree (TreeDir (Some [("b", TreeFile (Some "2")); ("target", TreeFile (Some "3")); ("a", TreeFile (Some "1"))])) =
  hash_tree (TreeDir (Some [("a", TreeFile (Some "1")); ("b", TreeFile (Some "2"))])).
Proof.
  apply (hash_tree_exact reference_sha_inj). eapply same_trans.
  - apply (same_skipped [("b", TreeFile (Some "2"))] "target" (TreeFile (Some "3")) [("a", TreeFile (Some "1"))]).
    reflexivity.
  - apply same_order; [apply (bool_decide_unpack _); vm_compute; exact I|]. apply Permutation_swap.
Defined.
End Sample.
