(* ===== verification/Json.v ===== *)
(** [serde_json::Value]: the public type, its accessors, and the objects that
    [json!] builds.  Objects are [BTreeMap]s, as in a build without the
    [preserve_order] feature. *)

From Stdlib Require Import String.
From S2P Require Export Text.

Inductive JsonNumber : Type :=
  | PosInt (n : N)
  | NegInt (n : Z)
  | FloatNum (text : string).

Inductive Value : Type :=
  | Null
  | Bool (b : bool)
  | Number (n : JsonNumber)
  | Str (s : string)
  | Array (items : list Value)
  | Object (fields : list (string * Value)).

#[export] Instance JsonNumber_eq_dec : EqDecision JsonNumber.
Proof. solve_decision. Defined.

(** Equality of values is decided; the nested lists need their own recursion. *)
Fixpoint value_eq_dec (v w : Value) {struct v} : {v = w} + {v <> w}.
Proof.
  refine (
    match v, w with
    | Null, Null => left eq_refl
    | Bool b, Bool c => cast_if (decide (b = c))
    | Number n, Number m => cast_if (decide (n = m))
    | Str s, Str t => cast_if (decide (s = t))
    | Array l, Array k => cast_if (List.list_eq_dec value_eq_dec l k)
    | Object l, Object k =>
        cast_if (List.list_eq_dec (fun p q =>
          match p, q return {p = q} + {p <> q} with
          | (a, x), (b, y) => cast_if_and (decide (a = b)) (value_eq_dec x y)
          end) l k)
    | _, _ => right _
    end); abstract congruence.
Defined.
#[export] Instance Value_eq_dec : EqDecision Value := value_eq_dec.

(** ** Reading *)

(** [value.get(key)]. *)
Definition get (key : string) (v : Value) : option Value :=
  match v with Object fields => bm_get key fields | _ => None end.

Definition as_str (v : Value) : option string := match v with Str s => Some s | _ => None end.
Definition as_array (v : Value) : option (list Value) := match v with Array l => Some l | _ => None end.
Definition as_object (v : Value) : option (list (string * Value)) :=
  match v with Object fields => Some fields | _ => None end.
Definition as_u64 (v : Value) : option N :=
  match v with Number (PosInt n) => if (Z.of_N n <=? U64_MAX)%Z then Some n else None | _ => None end.

(** [value.pointer("/a/b")], the keys not being numerals. *)
Fixpoint pointer (keys : list string) (v : Value) : option Value :=
  match keys with
  | [] => Some v
  | key :: keys => v ← get key v; pointer keys v
  end.

Definition get_str (key : string) (v : Value) : option string := get key v ≫= as_str.
Definition get_array (key : string) (v : Value) : option (list Value) := get key v ≫= as_array.
Definition pointer_str (keys : list string) (v : Value) : option string := pointer keys v ≫= as_str.
Definition pointer_array (keys : list string) (v : Value) : option (list Value) := pointer keys v ≫= as_array.

(** ** Building *)

(** [json!({ .. })], [json!([..])] of strings, [json!(n)] and [json!(option)]. *)
Definition object (fields : list (string * Value)) : Value := Object (bm_of_list fields).
Definition strings (l : list string) : Value := Array (map Str l).
Definition count (n : nat) : Value := Number (PosInt (N.of_nat n)).
Definition nullable (v : option Value) : Value := default Null v.

(** [value.as_object_mut()?.insert(key, x)]. *)
Definition insert_field (key : string) (x : Value) (v : Value) : option Value :=
  match v with Object fields => Some (Object (bm_put key x fields)) | _ => None end.

(** [f] on the value at a key or at a pointer, written back. *)
Definition update_field (key : string) (f : Value -> option Value) (v : Value) : option Value :=
  match v with
  | Object fields => x ← bm_get key fields; y ← f x; Some (Object (bm_put key y fields))
  | _ => None
  end.
Fixpoint update_at (keys : list string) (f : Value -> option Value) (v : Value) : option Value :=
  match keys with
  | [] => f v
  | key :: keys => update_field key (update_at keys f) v
  end.

(** [if let Some(field) = x { object.insert(key, field) }] on an object. *)
Definition set_field (key : string) (x : Value) (v : Value) : Value := default v (insert_field key x v).
Definition set_if (key : string) (x : option Value) (v : Value) : Value :=
  match x with Some x => set_field key x v | None => v end.
Definition set_fields (rows : list (string * Value)) (v : Value) : Value :=
  fold_left (fun v '(key, x) => set_field key x v) rows v.

(** ** What writing leaves to be read *)

Lemma get_put (key key' : string) (x : Value) fields :
  bm_get key' (bm_put key x fields) = if String.eqb key' key then Some x else bm_get key' fields.
Proof. rewrite bm_get_put. by case_decide; destruct (String.eqb_spec key' key). Qed.

Lemma get_object key l : get key (object l) = bm_get key (bm_of_list l).
Proof. done. Qed.

Lemma get_insert_field key key' x v w :
  insert_field key x v = Some w -> get key' w = if String.eqb key' key then Some x else get key' v.
Proof. destruct v; intros [= <-]. cbn. apply get_put. Qed.

Lemma get_set_field key key' x fields :
  get key' (set_field key x (Object fields)) = if String.eqb key' key then Some x else get key' (Object fields).
Proof. unfold set_field. cbn. apply get_put. Qed.

Lemma set_field_object key x fields : set_field key x (Object fields) = Object (bm_put key x fields).
Proof. done. Qed.

Lemma get_update_field key key' f v w :
  update_field key f v = Some w ->
  get key' w = if String.eqb key' key then get key v ≫= f else get key' v.
Proof.
  destruct v; try done. cbn. destruct (bm_get key fields) as [x|] eqn:E; [|done]. cbn.
  destruct (f x) as [y|]; [|done]. intros [= <-]. cbn. apply get_put.
Qed.

Lemma update_field_some key f v w :
  update_field key f v = Some w -> exists x y, get key v = Some x /\ f x = Some y /\ get key w = Some y.
Proof.
  intros Hu. pose proof (get_update_field key key f v w Hu) as Hg. rewrite String.eqb_refl in Hg.
  destruct v; try done. cbn in *. destruct (bm_get key fields) as [x|]; [|done]. cbn in *.
  destruct (f x) as [y|] eqn:E; [|done]. eauto.
Qed.

(** Writing below one key leaves what is below the others. *)
Lemma pointer_insert_field key x v w keys key' :
  insert_field key x v = Some w -> key' <> key -> pointer (key' :: keys) w = pointer (key' :: keys) v.
Proof. intros Hi Hk. cbn. by rewrite (get_insert_field _ _ _ _ _ Hi), (proj2 (String.eqb_neq _ _) Hk). Qed.

Lemma pointer_update_field key f v w keys key' :
  update_field key f v = Some w -> key' <> key -> pointer (key' :: keys) w = pointer (key' :: keys) v.
Proof. intros Hu Hk. cbn. by rewrite (get_update_field _ _ _ _ _ Hu), (proj2 (String.eqb_neq _ _) Hk). Qed.

#[export] Instance Str_inj : Inj (=) (=) Str.
Proof. by intros a b [= ->]. Qed.

Lemma map_Str_inj l k : map Str l = map Str k -> l = k.
Proof.
  revert k. induction l as [|a l IH]; intros [|b k] Heq; try done.
  injection Heq as <- Heq. f_equal. by apply IH.
Qed.

(** ** Exact shape *)

(** [has_exact_keys]: an object with these keys and no others. *)
Definition has_exact_keys (v : Value) (keys : list string) : bool :=
  match as_object v with
  | Some fields =>
      Nat.eqb (List.length fields) (List.length keys)
      && forallb (fun key => bool_decide (is_Some (bm_get key fields))) keys
  | None => false
  end.
