(* ===== verification/AppRequest.v ===== *)
(** Application build requests: [tools/stage0-probe/src/application.rs], the
    contract versions, [error_contract], the parsers of seeds and test
    selections, and the admission checks that open [compile_application].

    A rejected request is the response it is answered with, so admission is an
    [Outcome Value]: [Err response] is [return response]. *)

From Stdlib Require Import String.
From S2P Require Export Json ProbeCache.

Local Open Scope string_scope.
Local Open Scope list_scope.

(** ** Contracts *)

Definition CONTRACT_V1 : string := "mncs.compiler.application-build/4".
Definition CONTRACT_V2 : string := "mncs.compiler.application-build/5".
Definition CONTRACT_V3 : string := "mncs.compiler.application-build/6".
Definition CONTRACT_V4 : string := "mncs.compiler.application-build/7".
Definition CONTRACT_V5 : string := "mncs.compiler.application-build/8".
Definition CONTRACT_V6 : string := "mncs.compiler.application-build/9".
Definition CONTRACT_V7 : string := "mncs.compiler.application-build/10".
Definition CONTRACT_V8 : string := "mncs.compiler.application-build/11".
Definition CONTRACT_V9 : string := "mncs.compiler.application-build/12".
Definition CONTRACT_V10 : string := "mncs.compiler.application-build/13".
Definition CONTRACT_V11 : string := "mncs.compiler.application-build/14".
Definition CONTRACT_V12 : string := "mncs.compiler.application-build/15".
Definition CONTRACT_V13 : string := "mncs.compiler.application-build/16".
Definition REQUEST_V1 : string := "mncs.compiler.application-build-request/1".
Definition REQUEST_V2 : string := "mncs.compiler.application-build-request/2".
Definition REQUEST_V3 : string := "mncs.compiler.application-build-request/3".
Definition REQUEST_V4 : string := "mncs.compiler.application-build-request/4".
Definition REQUEST_V5 : string := "mncs.compiler.application-build-request/5".
Definition REQUEST_V6 : string := "mncs.compiler.application-build-request/6".
Definition REQUEST_V7 : string := "mncs.compiler.application-build-request/7".
Definition REQUEST_V8 : string := "mncs.compiler.application-build-request/8".
Definition REQUEST_V9 : string := "mncs.compiler.application-build-request/9".
Definition REQUEST_V10 : string := "mncs.compiler.application-build-request/10".
Definition REQUEST_V11 : string := "mncs.compiler.application-build-request/11".
Definition REQUEST_V12 : string := "mncs.compiler.application-build-request/12".
Definition REQUEST_V13 : string := "mncs.compiler.application-build-request/13".
Definition CAPABILITY_DISPATCH_SCHEMA : string := "mncs.compiler.capability-dispatch/1".
Definition VM_TARGET : string := "mncs-vm-0.1".
Definition MAX_MODULES : nat := 64.
Definition MAX_SOURCE_BYTES : Z := 4 * 1024 * 1024.
Definition MAX_GENERIC_SEEDS : nat := 256.
Definition MAX_CALLABLE_ROOTS : nat := 256.
Definition MAX_SELECTED_TEST_CASES : nat := 256.
Definition MAX_APPLICATION_CACHE_INDEX_BYTES : nat := 8 * 1024.

(** The row of a request version: its contract and the features it switches on. *)
Record RequestContract : Type := mkContract {
  rc_contract : string;
  rc_multiple_callables : bool;
  rc_include_source_test_inventory : bool;
  rc_select_test_cases : bool;
  rc_reuse_declaration_facts : bool;
  rc_reuse_source_parse_cache : bool;
  rc_reuse_finite_type_declaration_facts : bool;
  rc_reuse_record_type_declaration_facts : bool;
  rc_reuse_dependency_summary_cache : bool;
  rc_reuse_module_elaboration_cache : bool
}.

Definition request_contracts : list (string * RequestContract) := [
  (REQUEST_V1, mkContract CONTRACT_V1 false false false false false false false false false);
  (REQUEST_V2, mkContract CONTRACT_V2 true false false false false false false false false);
  (REQUEST_V3, mkContract CONTRACT_V3 true true false false false false false false false);
  (REQUEST_V4, mkContract CONTRACT_V4 true true true false false false false false false);
  (REQUEST_V5, mkContract CONTRACT_V5 true true true true false false false false false);
  (REQUEST_V6, mkContract CONTRACT_V6 true true true true true false false false false);
  (REQUEST_V7, mkContract CONTRACT_V7 true true true true true true false false false);
  (REQUEST_V8, mkContract CONTRACT_V8 true true true true true true true false false);
  (REQUEST_V9, mkContract CONTRACT_V9 true true true true true true true false false);
  (REQUEST_V10, mkContract CONTRACT_V10 true true true true true true true false false);
  (REQUEST_V11, mkContract CONTRACT_V11 true true true true true true true true false);
  (REQUEST_V12, mkContract CONTRACT_V12 true true true true true true true true false);
  (REQUEST_V13, mkContract CONTRACT_V13 true true true true true true true true true)
].

(** [matches!(contract, A | B | ..)]. *)
Definition one_of (s : string) (l : list string) : bool := existsb (String.eqb s) l.

Lemma one_of_elem s l : one_of s l = true <-> s ∈ l.
Proof.
  unfold one_of. rewrite existsb_exists, list_elem_of_In. split.
  - by intros (x & Hx & ->%String.eqb_eq).
  - intros Hs. exists s. by rewrite String.eqb_refl.
Qed.

Fixpoint assoc {A} (key : string) (rows : list (string * A)) : option A :=
  match rows with
  | [] => None
  | (k, a) :: rest => if String.eqb key k then Some a else assoc key rest
  end.

Definition request_contract (request : Value) : option RequestContract :=
  schema ← get_str "schema_version" request; assoc schema request_contracts.

(** Contracts from the n-th on. *)
Definition contracts_from_v4 : list string :=
  [CONTRACT_V4; CONTRACT_V5; CONTRACT_V6; CONTRACT_V7; CONTRACT_V8; CONTRACT_V9; CONTRACT_V10; CONTRACT_V11;
   CONTRACT_V12; CONTRACT_V13].
Definition contracts_from_v3 : list string := CONTRACT_V3 :: contracts_from_v4.

(** ** [error_contract] *)

Definition capability_dispatch_value (status : string) (bindings unresolved : list Value) : Value :=
  object [("schema_version", Str CAPABILITY_DISPATCH_SCHEMA); ("status", Str status);
          ("bindings", Array bindings); ("unresolved_obligations", Array unresolved)].

Definition error_contract (contract status code message : string) : Value :=
  let response := object [
    ("schema_version", Str contract);
    ("status", Str status);
    ("error", object [("code", Str code); ("message", Str message)]);
    ("artifact", Null);
    ("capability_dispatch", capability_dispatch_value "unknown" [] []);
    ("diagnostics", Array []);
    ("unresolved_obligations", Array []);
    ("unselected_unresolved_exports", Array [])] in
  let response :=
    if one_of contract contracts_from_v3 then set_field "source_test_inventory" Null response else response in
  if one_of contract contracts_from_v4 then set_field "test_case_selection" Null response else response.

(** ** Generic seeds *)

Inductive ExecutionTypeArgument : Type := ArgNat (value : Z) | ArgType (ty : string).

(** [HostGenericSeedRequest], a type of the language crates. *)
Class SeedCrate := {
  seed_function : HostGenericSeedRequest -> string;
  seed_type_spellings : HostGenericSeedRequest -> list string;
  from_request : string -> string -> list ExecutionTypeArgument -> HostGenericSeedRequest;
  seed_key : HostGenericSeedRequest -> string;
  seed_value : HostGenericSeedRequest -> Value
}.

Definition parse_type_argument (argument : Value) : option ExecutionTypeArgument :=
  kind ← get_str "kind" argument;
  if String.eqb kind "nat" && has_exact_keys argument ["kind"; "value"] then
    value ← get "value" argument ≫= as_u64;
    if (Z.of_N value <=? U32_MAX)%Z then Some (ArgNat (Z.of_N value)) else None
  else if String.eqb kind "type" && has_exact_keys argument ["kind"; "type"] then
    ty ← get_str "type" argument; Some (ArgType ty)
  else None.

Section Seeds.
Context `{SeedCrate}.

Definition parse_generic_seed (value : Value) : option HostGenericSeedRequest :=
  if negb (has_exact_keys value ["module"; "function"; "type_arguments"]) then None
  else
    module ← get_str "module" value;
    function ← get_str "function" value;
    arguments ← get_array "type_arguments" value;
    type_arguments ← mapM parse_type_argument arguments;
    Some (from_request module function type_arguments).

Definition parse_generic_seeds (value : Value) : option (list HostGenericSeedRequest) :=
  rows ← as_array value; mapM parse_generic_seed rows.
End Seeds.

(** ** Test selections *)

Inductive SourceTestSelection : Type :=
  | AllSourceCases
  | CaseIdentities (identities : list string).

Definition selection_value (selection : SourceTestSelection) : Value :=
  match selection with
  | AllSourceCases => object [("kind", Str "all_source_cases")]
  | CaseIdentities identities =>
      object [("kind", Str "case_identities"); ("test_case_identities", strings identities)]
  end.

(** The loop that collects the identities: [None] for a row that is no string,
    is empty or repeats one. *)
Definition select_identity (selected : option (list string)) (identity : Value) : option (list string) :=
  selected ← selected;
  identity ← as_str identity;
  if String.eqb identity "" then None
  else let '(fresh, selected) := bs_insert identity selected in if fresh then Some selected else None.

Definition parse_source_test_selection (value : Value) : option SourceTestSelection :=
  kind ← get_str "kind" value;
  if String.eqb kind "all_source_cases" && has_exact_keys value ["kind"] then Some AllSourceCases
  else if String.eqb kind "case_identities" && has_exact_keys value ["kind"; "test_case_identities"] then
    identities ← get_array "test_case_identities" value;
    if Nat.eqb (List.length identities) 0 || Nat.ltb MAX_SELECTED_TEST_CASES (List.length identities) then None
    else CaseIdentities <$> fold_left select_identity identities (Some [])
  else None.

Definition has_identity (identity : string) (test : Value) : bool :=
  bool_decide (get_str "test_case_identity" test = Some identity).

Definition declaration_leb (left right : Value) : bool :=
  ord_leb (get_str "declaration_identity" left) (get_str "declaration_identity" right).

(** The one test with an identity. *)
Definition select_case (tests : list Value) (identity : string) : Outcome string Value :=
  match List.filter (has_identity identity) tests with
  | [test] => Ok test
  | [] => Err ("selected test_case_identity is not present in the current Language inventory: " +:+ identity)
  | _ => Err ("selected test_case_identity is not unique in the current Language inventory: " +:+ identity)
  end.

Definition resolve_source_test_selection (selection : SourceTestSelection) (inventory : Value)
  : Outcome string (list Value) :=
  tests ← ok_or "Language frontend did not return a valid source Test inventory" (get_array "tests" inventory);
  match selection with
  | AllSourceCases =>
      if Nat.ltb MAX_SELECTED_TEST_CASES (List.length tests) then
        Err ("source Test inventory contains " +:+ pretty (List.length tests)
          +:+ " cases; the bounded selection limit is " +:+ pretty MAX_SELECTED_TEST_CASES)
      else Ok tests
  | CaseIdentities identities =>
      selected ← map_outcome (select_case tests) identities;
      Ok (sort_by declaration_leb selected)
  end.

(** ** Admission: the checks of [compile_application], in their order *)

Definition reject {A} (contract status code message : string) : Outcome Value A :=
  Err (error_contract contract status code message).

Definition requires_selection (rc : RequestContract) (request : Value)
  : Outcome Value (option SourceTestSelection) :=
  if rc_select_test_cases rc then
    match get "test_selection" request with
    | None =>
        reject (rc_contract rc) "unknown" "MCA113"
          (if one_of (default "" (get_str "schema_version" request))
               [REQUEST_V5; REQUEST_V6; REQUEST_V7; REQUEST_V8; REQUEST_V9; REQUEST_V10; REQUEST_V11; REQUEST_V12;
                REQUEST_V13]
           then "test_selection is required for application-build-request/5 through /13"
           else "test_selection is required for application-build-request/4")
    | Some value =>
        match parse_source_test_selection value with
        | Some selection => Ok (Some selection)
        | None =>
            reject (rc_contract rc) "unknown" "MCA113"
              "test_selection must select all source cases or a bounded unique set of test_case_identity values"
        end
    end
  else Ok None.

Definition requires_seeds `{SeedCrate} (contract : string) (request : Value)
  : Outcome Value (list HostGenericSeedRequest) :=
  match get "generic_seeds" request with
  | None => Ok []
  | Some value =>
      match as_array value with
      | None =>
          reject contract "unknown" "MCA109" "generic_seeds must be an array of specialization requests"
      | Some rows =>
          if Nat.ltb MAX_GENERIC_SEEDS (List.length rows) then
            reject contract "unsupported" "MCA110"
              "generic specialization count exceeds the bounded application input"
          else
          match parse_generic_seeds value with
          | Some seeds => Ok seeds
          | None =>
              reject contract "unknown" "MCA109" "generic_seeds contains a malformed specialization request"
          end
      end
  end.

(** One row of [callable_roots]. *)
Definition add_callable_root (contract : string) (roots : list (string * string)) (row : Value)
  : Outcome Value (list (string * string)) :=
  if negb (has_exact_keys row ["module"; "function"]) then
    reject contract "unknown" "MCA104" "each callable root must contain only module and function"
  else
  match get_str "module" row with
  | None => reject contract "unknown" "MCA104" "each callable root requires a module identity"
  | Some module =>
      match get_str "function" row with
      | None => reject contract "unknown" "MCA104" "each callable root requires a function name"
      | Some function =>
          if String.eqb module "" || String.eqb function "" then
            reject contract "unknown" "MCA104" "callable root module and function must be non-empty"
          else
            let '(fresh, roots) := bs_insert (module, function) roots in
            if fresh then Ok roots
            else reject contract "unknown" "MCA112" "callable_roots contains a duplicate identity"
      end
  end.

Definition multiple_roots (rc : RequestContract) (request : Value) : Outcome Value (list (string * string)) :=
  let contract := rc_contract rc in
  if bool_decide (is_Some (get "entry" request)) then
    reject contract "unknown" "MCA104" "multi-callable requests use callable_roots instead of entry"
  else
  let malformed : Outcome Value (list Value) :=
    reject contract "unknown" "MCA104" "callable_roots must be an array of module and function identities" in
  rows ← match get "callable_roots" request with
         | Some value => match as_array value with Some rows => Ok rows | None => malformed end
         | None => if rc_select_test_cases rc then Ok [] else malformed
         end;
  if Nat.ltb MAX_CALLABLE_ROOTS (List.length rows)
     || (Nat.eqb (List.length rows) 0 && negb (rc_select_test_cases rc))
  then
    reject contract "unsupported" "MCA111"
      "callable root count is outside the bounded application input or no test selection can supply roots"
  else fold_outcome (add_callable_root contract) [] rows.

Definition single_root (contract : string) (request : Value) : Outcome Value (list (string * string)) :=
  match get "entry" request ≫= as_object with
  | Some entry =>
      match get_str "module" (Object entry), get_str "function" (Object entry) with
      | Some module, Some function => Ok [(module, function)]
      | _, _ => reject contract "unknown" "MCA104" "entry module and function are required"
      end
  | None => reject contract "unknown" "MCA104" "entry module and function are required"
  end.

Definition byte_length (s : string) : Z := Z.of_nat (String.length s).

(** One entry of [modules]: the source text and the bytes counted so far. *)
Definition add_module (contract : string) (st : list (string * string) * Z) (row : string * Value)
  : Outcome Value (list (string * string) * Z) :=
  let '(modules, total_bytes) := st in
  match as_str row.2 with
  | None => reject contract "unknown" "MCA107" "module source values must be strings"
  | Some source =>
      Ok (bm_put row.1 source modules,
          u64_saturating_add (u64_saturating_add total_bytes (byte_length row.1)) (byte_length source))
  end.

Definition requires_modules (contract root_source : string) (request : Value)
  : Outcome Value (list (string * string)) :=
  match get "modules" request ≫= as_object with
  | None => reject contract "unknown" "MCA105" "modules must be a module-to-source object"
  | Some raw_modules =>
      if Nat.ltb MAX_MODULES (List.length raw_modules) then
        reject contract "unsupported" "MCA106" "module count exceeds the bounded application input"
      else
      '(modules, total_bytes) ← fold_outcome (add_module contract) ([], byte_length root_source) raw_modules;
      if (MAX_SOURCE_BYTES <? total_bytes)%Z then
        reject contract "unsupported" "MCA108" "source snapshot exceeds the bounded application input"
      else Ok modules
  end.

(** What an admitted request asks for. *)
Record BuildRequest : Type := mkRequest {
  br_contract : RequestContract;
  br_selection : option SourceTestSelection;
  br_seeds : list HostGenericSeedRequest;
  br_root_id : string;
  br_root_source : string;
  br_roots : list (string * string);
  br_modules : list (string * string)
}.

Definition admit_request `{SeedCrate} (request : Value) : Outcome Value BuildRequest :=
  match request_contract request with
  | None => reject CONTRACT_V1 "unknown" "MCA100" "unsupported application build request schema"
  | Some rc =>
      let contract := rc_contract rc in
      selection ← requires_selection rc request;
      if negb (bool_decide (get_str "target" request = Some VM_TARGET)) then
        reject contract "unavailable" "MCA101" "requested execution target is unavailable"
      else
      seeds ← requires_seeds contract request;
      match get_str "root_source_id" request with
      | None => reject contract "unknown" "MCA102" "root_source_id is required"
      | Some root_id =>
          match get_str "root_source" request with
          | None => reject contract "unknown" "MCA103" "root_source is required"
          | Some root_source =>
              roots ← if rc_multiple_callables rc then multiple_roots rc request else single_root contract request;
              modules ← requires_modules contract root_source request;
              Ok (mkRequest rc selection seeds root_id root_source roots modules)
          end
      end
  end.
