(* ===== verification/AppRequestTheorems.v ===== *)
(** Admission of build requests: what an admitted request says, what a rejected
    one is answered with, and what a test selection selects. *)

From Stdlib Require Import String.
From S2P Require Export AppRequest.

Local Open Scope string_scope.
Local Open Scope list_scope.

(** ** Exact keys *)

Definition exact_keys (v : Value) (keys : list string) : Prop :=
  exists fields, v = Object fields /\ bm_keys fields ≡ₚ keys.

Lemma has_exact_keys_spec v keys : NoDup keys -> has_exact_keys v keys = true <-> exact_keys v keys.
Proof.
  intros Hn. unfold has_exact_keys, exact_keys. destruct v; cbn; try (split; [done|by intros (? & ? & _)]).
  rewrite andb_true_iff, Nat.eqb_eq, forallb_forall. split.
  - intros [Hl Hk]. exists fields. split; [done|]. symmetry.
    apply submseteq_length_Permutation; [|unfold bm_keys; by rewrite length_map, Hl].
    apply NoDup_submseteq; [done|]. intros key Hin. apply bm_get_keys.
    by apply (bool_decide_unpack _), Is_true_eq_left, Hk, list_elem_of_In.
  - intros (fields' & [= <-] & Hp). split.
    + apply Permutation_length in Hp. unfold bm_keys in Hp. by rewrite length_map in Hp.
    + intros key Hin%list_elem_of_In. apply bool_decide_eq_true, bm_get_keys. by rewrite Hp.
Qed.

Ltac exact_keys_intro := apply has_exact_keys_spec; [apply (bool_decide_unpack _); vm_compute; exact I|].

(** ** Sets filled from rows that must be fresh *)

Lemma select_identities selected l r :
  ascending selected ->
  fold_left select_identity l (Some selected) = Some r <->
  exists raw, l = map Str raw /\ NoDup raw /\ "" ∉ raw /\ (forall x, x ∈ raw -> x ∉ selected) /\
    r = bs_extend selected raw.
Proof.
  revert selected. induction l as [|v l IH]; intros selected Ha; cbn [fold_left].
  - split.
    + intros [= <-]. exists []. split_and!; try done; [constructor|set_solver|set_solver].
    + intros (raw & Hm & _ & _ & _ & ->). by destruct raw.
  - unfold select_identity at 2. cbn [mbind option_bind].
    assert (Hnone : forall l, fold_left select_identity l None = None) by (intros k; induction k; done).
    destruct v; cbn; try (rewrite Hnone; split; [done|by intros ([|? ?] & ? & _)]).
    destruct (String.eqb_spec s "") as [->|Hs].
    { rewrite Hnone. split; [done|]. intros ([|x raw] & [=] & _ & He & _). subst. set_solver. }
    destruct (bs_insert s selected) as [fresh selected'] eqn:E.
    apply bs_insert_cases in E as [-> Hf]; [|done]. destruct fresh.
    + rewrite IH by by apply bs_add_ascending. pose proof (proj1 Hf eq_refl) as Hs'. split.
      * intros (raw & -> & Hn & He & Hd & ->). exists (s :: raw). split_and!; try done.
        -- constructor; [|done]. intros Hin. by apply (Hd s Hin), elem_of_bs_add; left.
        -- set_solver.
        -- intros x [->|Hx]%elem_of_cons; [done|]. intros Hin. by apply (Hd x Hx), elem_of_bs_add; right.
      * intros ([|x raw] & Hm & Hn & He & Hd & ->); [done|]. cbn in Hm. injection Hm as -> ->.
        apply NoDup_cons in Hn as [Hx Hn]. exists raw. split_and!; try done; [set_solver|].
        intros y Hy [->|Hy']%elem_of_bs_add; [done|]. by apply (Hd y); [right|].
    + rewrite Hnone. split; [done|]. intros ([|x raw] & Hm & Hn & He & Hd & ->); [done|].
      cbn in Hm. injection Hm as -> ->. exfalso.
      assert (x ∉ selected) as Hx by (apply Hd; left). by apply Hf in Hx.
Qed.

(** ** Test selections *)

(** What a [test_selection] value selects. *)
Definition selects (v : Value) (s : SourceTestSelection) : Prop :=
  match s with
  | AllSourceCases => exact_keys v ["kind"] /\ get_str "kind" v = Some "all_source_cases"
  | CaseIdentities ids =>
      exact_keys v ["kind"; "test_case_identities"] /\ get_str "kind" v = Some "case_identities" /\
      exists raw, get_array "test_case_identities" v = Some (map Str raw) /\
        1 <= List.length raw <= MAX_SELECTED_TEST_CASES /\ NoDup raw /\ "" ∉ raw /\ ids = bs_of_list raw
  end.

Lemma parse_selection v s : parse_source_test_selection v = Some s <-> selects v s.
Proof.
  unfold parse_source_test_selection, selects.
  destruct (get_str "kind" v) as [kind|] eqn:Ek; cbn [mbind option_bind]; [|destruct s; split; try done; intros Hs; by destruct_and? Hs].
  destruct (String.eqb_spec kind "all_source_cases") as [->|Ha]; cbn [andb].
  - destruct (has_exact_keys v ["kind"]) eqn:Eh; [|split; [done|]].
    + apply has_exact_keys_spec in Eh; [|apply NoDup_singleton]. split; [by intros [= <-]|].
      destruct s; [done|]. by intros (_ & ? & _).
    + destruct s; [|by intros (_ & ? & _)]. intros [Hk _].
      apply has_exact_keys_spec in Hk; [congruence|apply NoDup_singleton].
  - destruct (String.eqb_spec kind "case_identities") as [->|Hc]; cbn [andb];
      [|split; [done|]; destruct s; [by intros [_ ?]; congruence|by intros (_ & ? & _); congruence]].
    destruct (has_exact_keys v ["kind"; "test_case_identities"]) eqn:Eh; cycle 1.
    { split; [done|]. destruct s; [by intros [_ ?]; congruence|]. intros (Hk & _).
      assert (has_exact_keys v ["kind"; "test_case_identities"] = true) as Hk' by by exact_keys_intro. congruence. }
    apply has_exact_keys_spec in Eh; [|apply (bool_decide_unpack _); vm_compute; exact I].
    destruct (get_array "test_case_identities" v) as [l|]; cbn [mbind option_bind]; cycle 1.
    { split; [done|]. destruct s; [by intros [_ ?]; congruence|]. by intros (_ & _ & raw & ? & _). }
    destruct (Nat.eqb_spec (List.length l) 0) as [Hl|Hl];
      [|destruct (Nat.ltb_spec MAX_SELECTED_TEST_CASES (List.length l)) as [Hm|Hm]]; cbn [orb].
    3: { destruct (fold_left select_identity l (Some [])) as [r|] eqn:Er; cbn.
      - apply select_identities in Er as (raw & -> & Hn & He & _ & ->); [|constructor]. rewrite length_map in *.
        split; [intros [= <-]; split_and!; try done; exists raw; split_and!; try done; lia|].
        destruct s; [by intros [_ ?]; congruence|]. intros (_ & _ & raw' & Heq & _ & _ & _ & ->).
        injection Heq as Heq. by apply map_Str_inj in Heq as ->.
      - split; [done|]. destruct s; [by intros [_ ?]; congruence|]. intros (_ & _ & raw & [= ->] & _ & Hn & He & ->).
        enough (fold_left select_identity (map Str raw) (Some []) = Some (bs_of_list raw)) by congruence.
        apply select_identities; [constructor|]. exists raw. split_and!; try done. set_solver. }
    all: split; [done|]; destruct s; [by intros [_ ?]; congruence|];
      intros (_ & _ & raw & [= ->] & Hr & _); rewrite length_map in *; lia.
Qed.

(** The canonical selections: what [parse_source_test_selection] returns. *)
Definition canonical (s : SourceTestSelection) : Prop :=
  match s with
  | AllSourceCases => True
  | CaseIdentities ids =>
      ascending ids /\ "" ∉ ids /\ 1 <= List.length ids <= MAX_SELECTED_TEST_CASES
  end.

Lemma selects_canonical v s : selects v s -> canonical s.
Proof.
  destruct s as [|ids]; [done|]. intros (_ & _ & raw & _ & Hl & Hn & He & ->). cbn. split_and!.
  - apply bs_of_list_ascending.
  - by rewrite elem_of_bs_of_list.
  - rewrite (Permutation_length (bs_of_list_perm raw Hn)). lia.
  - rewrite (Permutation_length (bs_of_list_perm raw Hn)). lia.
Qed.

(** A test selection survives the trip through the response: every parsed
    selection is canonical (its identities sorted, unique, not empty and
    bounded), and the value written for a selection is parsed back to it
    exactly when it is canonical. *)
Theorem selection_round_trip s :
  (forall v, parse_source_test_selection v = Some s -> canonical s) /\
  (parse_source_test_selection (selection_value s) = Some s <-> canonical s).
Proof.
  assert (forall v, parse_source_test_selection v = Some s -> canonical s) as Hp
    by (intros v Hv%parse_selection; by eapply selects_canonical).
  split; [done|]. split; [apply Hp|]. intros Hc. apply parse_selection. destruct s as [|ids]; cbn.
  - split; [|reflexivity]. eexists. split; [reflexivity|]. reflexivity.
  - destruct Hc as (Ha & He & Hl). split_and!; [|reflexivity|].
    + eexists. split; [reflexivity|]. reflexivity.
    + exists ids. split_and!; try lia; [reflexivity|by apply ascending_NoDup|done|by rewrite bs_of_ascending].
Qed.

(** ** Selected cases *)

(** [identity] names exactly one test of the inventory. *)
Definition unique_case (tests : list Value) (identity : string) (test : Value) : Prop :=
  List.filter (has_identity identity) tests = [test].

Lemma select_case_ok tests identity test :
  select_case tests identity = Ok test <-> unique_case tests identity test.
Proof.
  unfold select_case, unique_case. destruct (List.filter _ tests) as [|t [|t' l]]; split; congruence.
Qed.

Lemma has_identity_spec identity test :
  has_identity identity test = true <-> get_str "test_case_identity" test = Some identity.
Proof. apply bool_decide_eq_true. Qed.

(** The cases selected by distinct identities are the inventory's rows that
    carry one of them. *)
Lemma selected_cases tests ids cases :
  NoDup ids -> Forall2 (unique_case tests) ids cases ->
  cases ≡ₚ List.filter (fun test => existsb (fun identity => has_identity identity test) ids) tests.
Proof.
  intros Hn Hc. induction Hc as [|identity test ids cases Hu _ IH].
  { cbn. induction tests; cbn; done. }
  apply NoDup_cons in Hn as [Hi Hn]. rewrite (IH Hn). clear IH. cbn [existsb]. symmetry.
  unfold unique_case in Hu. revert Hu Hi. clear. intros Hu Hi.
  assert (Hgen : forall k, List.filter (fun t => has_identity identity t || existsb (fun i => has_identity i t) ids) k ≡ₚ
    List.filter (has_identity identity) k ++ List.filter (fun t => existsb (fun i => has_identity i t) ids) k).
  { induction k as [|t k IH]; [done|]. cbn [List.filter].
    destruct (has_identity identity t) eqn:E; cbn [orb].
    - assert (existsb (fun i => has_identity i t) ids = false) as ->.
      { apply not_true_iff_false. intros (i & Hin & Hi')%existsb_exists.
        apply has_identity_spec in E, Hi'. rewrite E in Hi'. injection Hi' as <-.
        by apply Hi, list_elem_of_In. }
      rewrite IH. done.
    - destruct (existsb _ ids); rewrite IH; [|done]. by rewrite Permutation_middle. }
  by rewrite Hgen, Hu.
Qed.

Lemma declaration_sorted l : StronglySorted (fun a b => declaration_leb a b = true) (sort_by declaration_leb l).
Proof.
  apply sort_by_sorted.
  - done.
  - intros x y Hxy. unfold declaration_leb in *. apply ord_leb_not_lt. intros Hlt.
    apply not_true_iff_false in Hxy. apply Hxy, ord_leb_not_lt. by apply ord_lt_asym.
  - intros x y z. apply ord_leb_trans.
Qed.

(** Which inventories a selection can be resolved against. *)
Definition resolvable (selection : SourceTestSelection) (tests : list Value) : Prop :=
  match selection with
  | AllSourceCases => List.length tests <= MAX_SELECTED_TEST_CASES
  | CaseIdentities ids => forall identity, identity ∈ ids -> exists test, unique_case tests identity test
  end.

(** The rows a selection stands for. *)
Definition selected_rows (selection : SourceTestSelection) (tests : list Value) : list Value :=
  match selection with
  | AllSourceCases => tests
  | CaseIdentities ids => List.filter (fun test => existsb (fun identity => has_identity identity test) ids) tests
  end.

(** Resolving a test selection succeeds exactly when the inventory lists its
    tests and every selected identity names one of them and only one (all
    cases: when there are at most 256); the cases are then the inventory's rows
    that carry a selected identity, each once, in the order of their
    declaration identities; resolution never panics. *)
Theorem case_resolution_exact selection inventory :
  canonical selection ->
  (is_ok (resolve_source_test_selection selection inventory) = true <->
     exists tests, get_array "tests" inventory = Some tests /\ resolvable selection tests) /\
  (forall message, resolve_source_test_selection selection inventory <> Panic message) /\
  forall cases, resolve_source_test_selection selection inventory = Ok cases ->
    exists tests, get_array "tests" inventory = Some tests /\ cases ≡ₚ selected_rows selection tests /\
      (selection <> AllSourceCases -> StronglySorted (fun a b => declaration_leb a b = true) cases) /\
      List.length cases <= MAX_SELECTED_TEST_CASES.
Proof.
  intros Hc. unfold resolve_source_test_selection.
  destruct (get_array "tests" inventory) as [tests|]; cbn [ok_or mbind outcome_bind];
    [|split_and!; [split; [done|by intros (? & ? & _)]|done|done]].
  destruct selection as [|ids].
  - destruct (Nat.ltb_spec MAX_SELECTED_TEST_CASES (List.length tests)) as [Hl|Hl]; split_and!; try done.
    + split; [done|]. intros (? & [= <-] & Hr). cbn in Hr. lia.
    + split; [|done]. intros _. by exists tests.
    + intros cases [= <-]. exists tests. split_and!; try done; lia.
  - destruct Hc as (Ha & _ & Hl). apply ascending_NoDup in Ha as Hn.
    assert (Hnp : forall message, map_outcome (select_case tests) ids <> Panic message).
    { apply map_outcome_no_panic. intros i m. unfold select_case. by destruct (List.filter _ tests) as [|t [|t' k]]. }
    destruct (map_outcome (select_case tests) ids) as [cases|e|message] eqn:E; cbn [mbind outcome_bind].
    + apply map_outcome_ok in E. split_and!; try done.
      * split; [|done]. intros _. exists tests. split; [done|]. intros i Hi.
        apply list_elem_of_lookup in Hi as [n Hi]. destruct (Forall2_lookup_l _ _ _ _ _ E Hi) as (test & _ & Ht).
        exists test. by apply select_case_ok.
      * intros cases' [= <-]. exists tests. split_and!; [done| |intros _; apply declaration_sorted|].
        -- cbn [selected_rows]. rewrite <- (selected_cases tests ids cases) by first [done | eapply Forall2_impl; [exact E|apply select_case_ok]].
           apply sort_by_perm.
        -- rewrite length_sort_by, <- (Forall2_length _ _ _ E). lia.
    + split_and!; try done. split; [done|]. intros (? & [= <-] & Hr). cbn in Hr. exfalso.
      enough (exists cases, map_outcome (select_case tests) ids = Ok cases) as [? ?] by congruence.
      clear -Hr. induction ids as [|i ids IH]; cbn; [by eexists|].
      destruct (Hr i) as (test & Ht%select_case_ok); [left|]. rewrite Ht. cbn.
      destruct IH as (cases & ->); [intros; apply Hr; by right|]. by eexists.
    + by destruct (Hnp message).
Qed.

(** ** Admission *)

Definition seed_row `{SeedCrate} (row : Value) (seed : HostGenericSeedRequest) : Prop :=
  exists module function arguments,
    exact_keys row ["module"; "function"; "type_arguments"] /\
    get_str "module" row = Some module /\ get_str "function" row = Some function /\
    get_array "type_arguments" row ≫= mapM parse_type_argument = Some arguments /\
    seed = from_request module function arguments.

Definition root_row (row : Value) (root : string * string) : Prop :=
  exact_keys row ["module"; "function"] /\ get_str "module" row = Some root.1 /\
  get_str "function" row = Some root.2 /\ root.1 <> "" /\ root.2 <> "".

(** What a request with several callables asks for: distinct non-empty roots, at
    most 256, and at least one unless a test selection can supply them. *)
Definition asks_roots (rc : RequestContract) (request : Value) (roots : list (string * string)) : Prop :=
  get "entry" request = None /\
  exists rows named,
    (get_array "callable_roots" request = Some rows \/
     get "callable_roots" request = None /\ rc_select_test_cases rc = true /\ rows = []) /\
    List.length rows <= MAX_CALLABLE_ROOTS /\ (rc_select_test_cases rc = false -> rows <> []) /\
    Forall2 root_row rows named /\ NoDup named /\ roots = bs_of_list named.

Definition asks_modules (request : Value) (root_source : string) (modules : list (string * string)) : Prop :=
  exists sources,
    get "modules" request = Some (Object (map (fun row => (row.1, Str row.2)) sources)) /\
    List.length sources <= MAX_MODULES /\ modules = bm_of_list sources /\
    (byte_length root_source
      + foldr Z.add 0 (map (fun row => byte_length row.1 + byte_length row.2) sources) <= MAX_SOURCE_BYTES)%Z.

(** What an admissible request says. *)
Definition asks `{SeedCrate} (request : Value) (r : BuildRequest) : Prop :=
  let rc := br_contract r in
  request_contract request = Some rc /\
  (if rc_select_test_cases rc
   then exists v s, get "test_selection" request = Some v /\ selects v s /\ br_selection r = Some s
   else br_selection r = None) /\
  get_str "target" request = Some VM_TARGET /\
  (get "generic_seeds" request = None /\ br_seeds r = [] \/
   exists rows, get_array "generic_seeds" request = Some rows /\ List.length rows <= MAX_GENERIC_SEEDS /\
     Forall2 seed_row rows (br_seeds r)) /\
  get_str "root_source_id" request = Some (br_root_id r) /\
  get_str "root_source" request = Some (br_root_source r) /\
  (if rc_multiple_callables rc then asks_roots rc request (br_roots r)
   else exists root entry, get "entry" request = Some (Object entry) /\ br_roots r = [root] /\
     get_str "module" (Object entry) = Some root.1 /\ get_str "function" (Object entry) = Some root.2) /\
  asks_modules request (br_root_source r) (br_modules r).

Lemma parse_seed `{SeedCrate} row seed : parse_generic_seed row = Some seed <-> seed_row row seed.
Proof.
  unfold parse_generic_seed, seed_row.
  assert (NoDup ["module"; "function"; "type_arguments"]) as Hn by (apply (bool_decide_unpack _); vm_compute; exact I).
  destruct (has_exact_keys row _) eqn:E; cbn [negb].
  - apply has_exact_keys_spec in E; [|done].
    destruct (get_str "module" row) as [m|], (get_str "function" row) as [f|],
      (get_array "type_arguments" row) as [l|]; cbn [mbind option_bind];
      try (split; [done|by intros (? & ? & ? & _ & ? & ? & ? & _)]).
    destruct (mapM parse_type_argument l) as [k|] eqn:Ek; cbn [mbind option_bind].
    + split; [intros [= <-]; eauto 8|]. by intros (? & ? & ? & _ & [= <-] & [= <-] & [= <-] & ->).
    + split; [done|by intros (? & ? & ? & _ & ? & ? & ? & _)].
  - split; [done|]. intros (? & ? & ? & Hk & _). apply has_exact_keys_spec in Hk; [congruence|done].
Qed.

Lemma requires_seeds_ok `{SeedCrate} contract request seeds :
  requires_seeds contract request = Ok seeds <->
  get "generic_seeds" request = None /\ seeds = [] \/
  exists rows, get_array "generic_seeds" request = Some rows /\ List.length rows <= MAX_GENERIC_SEEDS /\
    Forall2 seed_row rows seeds.
Proof.
  unfold requires_seeds, get_array, parse_generic_seeds, reject.
  destruct (get "generic_seeds" request) as [v|]; cbn [mbind option_bind]; cycle 1.
  { split; [intros [= <-]; by left|by intros [[_ ->]|(? & ? & _)]]. }
  destruct (as_array v) as [rows|]; cbn [mbind option_bind]; cycle 1.
  { split; [done|by intros [[? _]|(? & ? & _)]]. }
  destruct (Nat.ltb_spec MAX_GENERIC_SEEDS (List.length rows)) as [Hl|Hl].
  { split; [done|]. intros [[? _]|(? & [= <-] & ? & _)]; [done|lia]. }
  destruct (mapM parse_generic_seed rows) as [k|] eqn:E.
  - apply mapM_Some in E. split.
    + intros [= <-]. right. exists rows. split_and!; try done. eapply Forall2_impl; [exact E|].
      intros row seed. apply parse_seed.
    + intros [[? _]|(? & [= <-] & _ & Hf)]; [done|]. f_equal. revert seeds Hf.
      induction E as [|row k' rows k Hr _ IH]; intros seeds Hf; inversion_clear Hf as [|? seed ? seeds' Hs Hf']; [done|].
      apply parse_seed in Hs. f_equal; [congruence|]. apply IH; [cbn in Hl; lia|done].
  - split; [done|]. intros [[? _]|(? & [= <-] & _ & Hf)]; [done|].
    enough (mapM parse_generic_seed rows = Some seeds) by congruence.
    apply mapM_Some. eapply Forall2_impl; [exact Hf|]. intros row seed. apply parse_seed.
Qed.

Lemma add_root_ok contract roots row roots' :
  ascending roots ->
  add_callable_root contract roots row = Ok roots' <->
  exists root, root_row row root /\ root ∉ roots /\ roots' = bs_add root roots.
Proof.
  intros Ha. unfold add_callable_root, root_row, reject.
  assert (NoDup ["module"; "function"]) as Hn by (apply (bool_decide_unpack _); vm_compute; exact I).
  destruct (has_exact_keys row _) eqn:E; cbn [negb]; cycle 1.
  { split; [done|]. intros (? & (Hk & _) & _). apply has_exact_keys_spec in Hk; [congruence|done]. }
  apply has_exact_keys_spec in E; [|done].
  destruct (get_str "module" row) as [m|]; [|split; [done|by intros (? & (_ & ? & _) & _)]].
  destruct (get_str "function" row) as [f|]; [|split; [done|by intros (? & (_ & _ & ? & _) & _)]].
  destruct (String.eqb_spec m "") as [->|Hm]; cbn [orb].
  { split; [done|]. by intros ([? ?] & (_ & [= <-] & _ & ? & _) & _). }
  destruct (String.eqb_spec f "") as [->|Hf].
  { split; [done|]. by intros ([? ?] & (_ & _ & [= <-] & _ & ?) & _). }
  destruct (bs_insert (m, f) roots) as [fresh s] eqn:Ei. apply bs_insert_cases in Ei as [-> Hfresh]; [|done].
  destruct fresh.
  - split; [intros [= <-]; exists (m, f); by split_and!; try apply Hfresh|].
    by intros ([? ?] & (_ & [= <-] & [= <-] & _) & _ & ->).
  - split; [done|]. intros ([? ?] & (_ & [= <-] & [= <-] & _) & Hr%Hfresh & _). done.
Qed.

Lemma add_roots_ok contract rows roots roots' :
  ascending roots ->
  fold_outcome (add_callable_root contract) roots rows = Ok roots' <->
  exists named, Forall2 root_row rows named /\ NoDup named /\ (forall r, r ∈ named -> r ∉ roots) /\
    roots' = bs_extend roots named.
Proof.
  revert roots. induction rows as [|row rows IH]; intros roots Ha; cbn [fold_outcome].
  - split.
    + intros [= <-]. exists []. split_and!; [constructor|constructor|set_solver|done].
    + intros (named & Hf & _ & _ & ->). by inversion_clear Hf.
  - rewrite outcome_bind_ok. setoid_rewrite add_root_ok; [|done]. split.
    + intros (s & (root & Hr & Hn & ->) & Hs). apply IH in Hs as (named & Hf & Hnd & Hd & ->);
        [|by apply bs_add_ascending].
      exists (root :: named). split_and!; [by constructor| | |done].
      * constructor; [|done]. intros Hin. apply (Hd root Hin), elem_of_bs_add. by left.
      * intros r [->|Hin]%elem_of_cons; [done|]. intros ?. apply (Hd r Hin), elem_of_bs_add. by right.
    + intros (named & Hf & Hnd & Hd & ->). apply Forall2_cons_inv_l in Hf as (root & named' & Hr & Hf' & ->).
      apply NoDup_cons in Hnd as [Hr' Hnd]. exists (bs_add root roots). split.
      * exists root. split_and!; [done|apply Hd; left|done].
      * apply IH; [by apply bs_add_ascending|]. exists named'. split_and!; try done.
        intros r Hin [->|?]%elem_of_bs_add; [done|]. by apply (Hd r); [right|].
Qed.

Lemma multiple_roots_ok rc request roots :
  multiple_roots rc request = Ok roots <-> asks_roots rc request roots.
Proof.
  unfold multiple_roots, asks_roots, reject, get_array.
  destruct (get "entry" request) as [e|]; cbn [bool_decide].
  { rewrite bool_decide_true by eauto. split; [done|by intros [? _]]. }
  rewrite bool_decide_false by by intros [? ?].
  assert (Hgo : forall rows,
    (if Nat.ltb MAX_CALLABLE_ROOTS (List.length rows) || (Nat.eqb (List.length rows) 0 && negb (rc_select_test_cases rc))
     then Err (error_contract (rc_contract rc) "unsupported" "MCA111"
       "callable root count is outside the bounded application input or no test selection can supply roots")
     else fold_outcome (add_callable_root (rc_contract rc)) [] rows) = Ok roots <->
    List.length rows <= MAX_CALLABLE_ROOTS /\ (rc_select_test_cases rc = false -> rows <> []) /\
    exists named, Forall2 root_row rows named /\ NoDup named /\ roots = bs_of_list named).
  { intros rows. destruct (Nat.ltb_spec MAX_CALLABLE_ROOTS (List.length rows)) as [Hl|Hl]; cbn [orb].
    { split; [done|intros [? _]; lia]. }
    destruct (rc_select_test_cases rc) eqn:Es, (Nat.eqb_spec (List.length rows) 0) as [He|He]; cbn [andb negb].
    3: { split; [done|]. intros (_ & Hr & _). by destruct rows; [destruct (Hr eq_refl)|]. }
    all: rewrite add_roots_ok by apply SSorted_nil; split;
      [intros (named & ? & ? & _ & ->); split_and!; [done|by intros ? ->|eauto]
      |intros (_ & _ & named & ? & ? & ->); exists named; split_and!; try done; set_solver]. }
  destruct (get "callable_roots" request) as [v|]; cbn [mbind option_bind].
  - destruct (as_array v) as [rows|]; cbn [mbind outcome_bind option_bind]; cycle 1.
    { split; [done|]. by intros (_ & ? & ? & [?|[? _]] & _). }
    rewrite Hgo. split.
    + intros (? & ? & named & ? & ? & ->). split; [done|]. exists rows, named. split_and!; try done. by left.
    + intros (_ & rows' & named & [[= <-]|[? _]] & ? & ? & ? & ? & ->); [|done]. eauto 8.
  - destruct (rc_select_test_cases rc) eqn:Es; cbn [mbind outcome_bind]; cycle 1.
    { split; [done|]. by intros (_ & ? & ? & [?|(_ & ? & _)] & _). }
    rewrite Hgo. split.
    + intros (? & ? & named & ? & ? & ->). split; [done|]. exists [], named. split_and!; try done. by right.
    + intros (_ & rows' & named & [?|(_ & _ & ->)] & ? & ? & ? & ? & ->); [done|]. eauto 8.
Qed.

(** ** Modules *)

Definition source_bytes (sources : list (string * string)) : Z :=
  foldr Z.add 0%Z (map (fun row => byte_length row.1 + byte_length row.2)%Z sources).

Lemma source_bytes_nonneg sources : (0 <= source_bytes sources)%Z.
Proof. unfold source_bytes, byte_length. induction sources; cbn in *; lia. Qed.

(** The counter saturates far above the bound. *)
Lemma add_modules_ok contract fields modules total modules' total' :
  (0 <= total)%Z ->
  fold_outcome (add_module contract) (modules, Z.min total U64_MAX) fields = Ok (modules', total') <->
  exists sources, fields = map (fun row => (row.1, Str row.2)) sources /\
    modules' = fold_left (fun m row => bm_put row.1 row.2 m) sources modules /\
    total' = Z.min (total + source_bytes sources) U64_MAX.
Proof.
  revert modules total. induction fields as [|[k v] fields IH]; intros modules total Ht; cbn [fold_outcome].
  - split.
    + intros [= <- <-]. exists []. split_and!; try done. f_equal. unfold source_bytes. cbn. lia.
    + intros ([|? ?] & ? & -> & ->); [|done]. unfold source_bytes. cbn. by rewrite Z.add_0_r.
  - destruct v; try (split; [done|by intros ([|? ?] & ? & _)]).
    change (add_module contract (modules, Z.min total U64_MAX) (k, Str s)) with
      (@Ok Value _ (bm_put k s modules,
        u64_saturating_add (u64_saturating_add (Z.min total U64_MAX) (byte_length k)) (byte_length s))).
    cbn [mbind outcome_bind].
    replace (u64_saturating_add (u64_saturating_add (Z.min total U64_MAX) (byte_length k)) (byte_length s))
      with (Z.min (total + (byte_length k + byte_length s)) U64_MAX)
      by (unfold u64_saturating_add, byte_length, U64_MAX; lia).
    rewrite IH by (unfold byte_length; lia). split.
    + intros (sources & -> & -> & ->). exists ((k, s) :: sources). split_and!; try done.
      f_equal. unfold source_bytes. cbn [map foldr fst snd]. lia.
    + intros ([|[k' s'] sources] & Hf & -> & ->); [done|]. cbn in Hf. injection Hf as <- <- ->.
      exists sources. split_and!; try done. f_equal. unfold source_bytes. cbn [map foldr fst snd]. lia.
Qed.

Lemma source_rows_inj (l l' : list (string * string)) :
  map (fun row => (row.1, Str row.2)) l = map (fun row => (row.1, Str row.2)) l' -> l = l'.
Proof.
  revert l'. induction l as [|[a b] l IH]; intros [|[a' b'] l'] Hs; try done.
  cbn in Hs. injection Hs as -> -> Hs. f_equal. by apply IH.
Qed.

Lemma requires_modules_ok contract root_source request modules :
  (byte_length root_source <= U64_MAX)%Z ->
  requires_modules contract root_source request = Ok modules <-> asks_modules request root_source modules.
Proof.
  intros Hroot. unfold requires_modules, asks_modules, reject. fold source_bytes.
  destruct (get "modules" request) as [v|]; cbn [mbind option_bind]; [|split; [done|by intros (? & ? & _)]].
  destruct v as [| | | | |fields]; cbn [as_object]; try (split; [done|by intros (? & ? & _)]).
  destruct (Nat.ltb_spec MAX_MODULES (List.length fields)) as [Hl|Hl].
  { split; [done|]. intros (sources & [= ->] & Hn & _). rewrite length_map in Hl. lia. }
  rewrite <- (Z.min_l _ _ Hroot) at 1.
  assert (0 <= byte_length root_source)%Z as Hpos by (unfold byte_length; lia).
  destruct (fold_outcome _ _ _) as [[modules' total]|e|m] eqn:E; cbn [mbind outcome_bind].
  2, 3: split; [done|]; intros (sources & [= ->] & _);
    pose proof (proj2 (add_modules_ok contract _ [] (byte_length root_source) _ _ Hpos)
      (ex_intro _ sources (conj eq_refl (conj eq_refl eq_refl)))); congruence.
  - apply add_modules_ok in E as (sources & -> & -> & ->); [|done]. rewrite length_map in Hl.
    pose proof (source_bytes_nonneg sources). unfold source_bytes in *.
    match goal with |- context [(MAX_SOURCE_BYTES <? ?t)%Z] => destruct (Z.ltb_spec MAX_SOURCE_BYTES t) as [Hm|Hm] end.
    + split; [done|]. intros (sources' & [= Hs] & _ & _ & Hb).
      apply source_rows_inj in Hs as ->. unfold MAX_SOURCE_BYTES, U64_MAX in *; lia.
    + split.
      * intros [= <-]. exists sources. split_and!; try done. unfold MAX_SOURCE_BYTES, U64_MAX in *; lia.
      * intros (sources' & [= Hs] & _ & -> & Hb).
        by apply source_rows_inj in Hs as ->.
Qed.

(** C18: a build request is admitted exactly when it says what [asks] spells out
    -- a known schema version, a well-formed test selection where the version
    has one, the VM target, at most 256 well-formed seeds, root id and source,
    callable roots or an entry as the version demands, and at most 64 modules
    whose text fits the byte bound -- and what is built is what it says: in
    particular the roots are the named ones, sorted and without repetition. *)
Theorem admission_exact `{SeedCrate} request r :
  (forall source, get_str "root_source" request = Some source -> (byte_length source <= U64_MAX)%Z) ->
  admit_request request = Ok r <-> asks request r.
Proof.
  intros Hroot. unfold admit_request, asks, reject.
  destruct (request_contract request) as [rc|]; [|split; [done|by intros [? _]]].
  rewrite outcome_bind_ok. unfold requires_selection, reject. split.
  - intros (selection & Hsel & Hr).
    destruct (bool_decide (get_str "target" request = Some VM_TARGET)) eqn:Et; [|done].
    apply bool_decide_eq_true in Et. cbn [negb] in Hr. apply outcome_bind_ok in Hr as (seeds & Hs & Hr).
    apply requires_seeds_ok in Hs.
    destruct (get_str "root_source_id" request) as [id|]; [|done].
    destruct (get_str "root_source" request) as [source|]; [|done].
    apply outcome_bind_ok in Hr as (roots & Hro & Hr). apply outcome_bind_ok in Hr as (modules & Hm & [= <-]).
    apply requires_modules_ok in Hm; [|by apply Hroot]. cbn. split_and!; try done.
    + destruct (rc_select_test_cases rc); [|by injection Hsel as <-].
      destruct (get "test_selection" request) as [v|]; [|done].
      destruct (parse_source_test_selection v) as [s|] eqn:Es; [|done]. injection Hsel as <-.
      apply parse_selection in Es. eauto.
    + destruct (rc_multiple_callables rc); [by apply multiple_roots_ok|]. unfold single_root, reject in Hro.
      destruct (get "entry" request) as [[| | | | |entry]|]; cbn [mbind option_bind as_object] in Hro; try done.
      destruct (get_str "module" (Object entry)) as [m|] eqn:Em; [|done].
      destruct (get_str "function" (Object entry)) as [f|] eqn:Ef; [|done]. injection Hro as <-.
      by exists (m, f), entry.
  - destruct r as [rc' selection seeds id source roots modules]. cbn.
    intros ([= <-] & Hsel & -> & Hs & Hid & Hsource & Hro & Hm). exists selection. split.
    + destruct (rc_select_test_cases rc); [|by subst].
      destruct Hsel as (v & s & -> & Hv%parse_selection & ->). by rewrite Hv.
    + rewrite bool_decide_true by done. cbn [negb]. apply requires_seeds_ok with (contract := rc_contract rc) in Hs.
      rewrite Hs, Hid, Hsource. cbn [mbind outcome_bind].
      assert ((if rc_multiple_callables rc then multiple_roots rc request
               else single_root (rc_contract rc) request) = Ok roots) as ->.
      { destruct (rc_multiple_callables rc); [by apply multiple_roots_ok|]. unfold single_root.
        destruct Hro as ([m f] & entry & -> & -> & Hmod & Hf). cbn [mbind option_bind as_object fst snd] in *.
        unfold get_str, get. by rewrite Hmod, Hf. }
      cbn [mbind outcome_bind]. apply (requires_modules_ok (rc_contract rc)) in Hm; [|by apply Hroot].
      by rewrite Hm.
Qed.

(** ** Rejections *)

Section Faults.
Context `{SeedCrate} (request : Value).

(** The defects a rejection can name: code and status. *)
Inductive fault : string -> string -> Prop :=
  | fault_schema : request_contract request = None -> fault "MCA100" "unknown"
  | fault_target : get_str "target" request <> Some VM_TARGET -> fault "MCA101" "unavailable"
  | fault_root_id : get_str "root_source_id" request = None -> fault "MCA102" "unknown"
  | fault_root_source : get_str "root_source" request = None -> fault "MCA103" "unknown"
  | fault_roots rc :
      request_contract request = Some rc ->
      (if rc_multiple_callables rc then forall roots, ~ asks_roots rc request roots
       else forall entry root, ~ (get "entry" request = Some (Object entry) /\
         get_str "module" (Object entry) = Some root.1 /\ get_str "function" (Object entry) = Some root.2)) ->
      fault "MCA104" "unknown"
  | fault_modules : (forall fields, get "modules" request <> Some (Object fields)) -> fault "MCA105" "unknown"
  | fault_module_count fields :
      get "modules" request = Some (Object fields) -> MAX_MODULES < List.length fields ->
      fault "MCA106" "unsupported"
  | fault_module_source fields k v :
      get "modules" request = Some (Object fields) -> (k, v) ∈ fields -> as_str v = None ->
      fault "MCA107" "unknown"
  | fault_bytes source sources :
      get_str "root_source" request = Some source ->
      get "modules" request = Some (Object (map (fun row => (row.1, Str row.2)) sources)) ->
      (MAX_SOURCE_BYTES < byte_length source + source_bytes sources)%Z ->
      fault "MCA108" "unsupported"
  | fault_seeds value :
      get "generic_seeds" request = Some value ->
      (forall rows seeds, as_array value = Some rows -> ~ Forall2 seed_row rows seeds) ->
      fault "MCA109" "unknown"
  | fault_seed_count rows :
      get_array "generic_seeds" request = Some rows -> MAX_GENERIC_SEEDS < List.length rows ->
      fault "MCA110" "unsupported"
  | fault_root_count rc rows :
      request_contract request = Some rc -> rc_multiple_callables rc = true ->
      get_array "callable_roots" request = Some rows ->
      MAX_CALLABLE_ROOTS < List.length rows \/ rows = [] /\ rc_select_test_cases rc = false ->
      fault "MCA111" "unsupported"
  | fault_root_twice rows before row after root named :
      get_array "callable_roots" request = Some rows -> rows = before ++ row :: after ->
      Forall2 root_row before named -> root_row row root -> root ∈ named ->
      fault "MCA112" "unknown"
  | fault_selection rc :
      request_contract request = Some rc -> rc_select_test_cases rc = true ->
      (forall v s, get "test_selection" request = Some v -> ~ selects v s) ->
      fault "MCA113" "unknown".

(** The response of a rejection. *)
Definition rejection (response : Value) : Prop :=
  exists status code message, fault code status /\
    response = error_contract (default CONTRACT_V1 (rc_contract <$> request_contract request)) status code message.

Lemma fault_response rc status code message :
  request_contract request = Some rc -> fault code status ->
  rejection (error_contract (rc_contract rc) status code message).
Proof. intros Hrc Hf. exists status, code, message. by rewrite Hrc. Qed.

Lemma selection_faults rc e :
  request_contract request = Some rc -> requires_selection rc request = Err e -> rejection e.
Proof.
  intros Hrc. unfold requires_selection, reject. destruct (rc_select_test_cases rc) eqn:Es; [|done].
  destruct (get "test_selection" request) as [v|] eqn:Ev.
  - destruct (parse_source_test_selection v) as [s|] eqn:Ep; [done|]. intros [= <-]. apply fault_response; [done|].
    eapply fault_selection; [done|done|]. intros v' s. rewrite Ev. intros [= <-] Hs%parse_selection. congruence.
  - intros [= <-]. apply fault_response; [done|]. eapply fault_selection; [done|done|]. by rewrite Ev.
Qed.

Lemma seeds_faults rc e :
  request_contract request = Some rc -> requires_seeds (rc_contract rc) request = Err e -> rejection e.
Proof.
  intros Hrc He. destruct (get "generic_seeds" request) as [v|] eqn:Ev;
    [|unfold requires_seeds in He; by rewrite Ev in He].
  assert (Hbad : get_array "generic_seeds" request ≫= (fun rows =>
      if Nat.ltb MAX_GENERIC_SEEDS (List.length rows) then Some rows else None) = None ->
    forall rows seeds, as_array v = Some rows -> ~ Forall2 seed_row rows seeds).
  { unfold get_array. rewrite Ev. cbn [mbind option_bind]. intros Hl rows seeds Hr Hf. rewrite Hr in Hl. cbn [mbind option_bind] in Hl.
    destruct (Nat.ltb_spec MAX_GENERIC_SEEDS (List.length rows)) as [?|Hle]; [done|].
    enough (requires_seeds (rc_contract rc) request = Ok seeds) by congruence.
    apply requires_seeds_ok. right. exists rows. unfold get_array. by rewrite Ev. }
  unfold requires_seeds, reject in He. rewrite Ev in He.
  unfold get_array in Hbad. rewrite Ev in Hbad. cbn [mbind option_bind] in Hbad.
  destruct (as_array v) as [rows|] eqn:Er.
  - cbn [mbind option_bind] in Hbad. destruct (Nat.ltb_spec MAX_GENERIC_SEEDS (List.length rows)) as [Hl|Hl].
    + injection He as <-. apply fault_response; [done|]. eapply fault_seed_count; [|done].
      unfold get_array. by rewrite Ev.
    + destruct (parse_generic_seeds v); [done|]. injection He as <-. apply fault_response; [done|].
      eapply fault_seeds; [done|]. rewrite Er. by apply Hbad.
  - injection He as <-. apply fault_response; [done|]. eapply fault_seeds; [done|]. by rewrite Er.
Qed.

Lemma add_root_faults rc before named row after roots e :
  request_contract request = Some rc -> rc_multiple_callables rc = true ->
  get_array "callable_roots" request = Some (before ++ row :: after) ->
  Forall2 root_row before named -> roots = bs_of_list named ->
  add_callable_root (rc_contract rc) roots row = Err e -> rejection e.
Proof.
  intros Hrc Hmul Hrows Hb -> He.
  assert (Hbad : (forall root, ~ root_row row root) -> fault "MCA104" "unknown").
  { intros Hno. eapply fault_roots; [done|]. rewrite Hmul.
    intros roots (_ & rows & named' & [Hr|(Hr & _)] & _ & _ & Hf & _).
    - rewrite Hrows in Hr. injection Hr as <-. apply Forall2_app_inv_l in Hf as (? & l & _ & Hf & _).
      apply Forall2_cons_inv_l in Hf as (root & ? & Hf & _). by apply (Hno root).
    - unfold get_array in Hrows. by rewrite Hr in Hrows. }
  assert (NoDup ["module"; "function"]) as Hn by (apply (bool_decide_unpack _); vm_compute; exact I).
  unfold add_callable_root, reject in He.
  destruct (has_exact_keys row _) eqn:Ek; cbn [negb] in He; cycle 1.
  { injection He as <-. apply fault_response; [done|]. apply Hbad. intros root (Hk & _).
    apply has_exact_keys_spec in Hk; [congruence|done]. }
  apply has_exact_keys_spec in Ek; [|done].
  destruct (get_str "module" row) as [m|] eqn:Em; cycle 1.
  { injection He as <-. apply fault_response; [done|]. apply Hbad. intros root (_ & ? & _). congruence. }
  destruct (get_str "function" row) as [f|] eqn:Ef; cycle 1.
  { injection He as <-. apply fault_response; [done|]. apply Hbad. intros root (_ & _ & ? & _). congruence. }
  destruct (String.eqb m "" || String.eqb f "") eqn:Ee.
  { injection He as <-. apply fault_response; [done|]. apply Hbad. intros [m' f'] (_ & Hm & Hf & ? & ?).
    cbn in *. rewrite Em in Hm. rewrite Ef in Hf. injection Hm as <-. injection Hf as <-.
    apply orb_true_iff in Ee as [?%String.eqb_eq|?%String.eqb_eq]; done. }
  apply orb_false_iff in Ee as [Hm%String.eqb_neq Hf%String.eqb_neq].
  destruct (bs_insert (m, f) _) as [fresh s] eqn:Ei. apply bs_insert_cases in Ei as [_ Hfresh];
    [|apply bs_of_list_ascending]. destruct fresh; [done|]. injection He as <-. apply fault_response; [done|].
  eapply (fault_root_twice _ before row after (m, f) named); try done.
  destruct (decide ((m, f) ∈ named)) as [?|Hno]; [done|].
  assert (false = true) as [=]. apply Hfresh. by rewrite elem_of_bs_of_list.
Qed.

Lemma roots_faults rc e :
  request_contract request = Some rc ->
  (if rc_multiple_callables rc then multiple_roots rc request else single_root (rc_contract rc) request) = Err e ->
  rejection e.
Proof.
  intros Hrc He. pose proof (fault_roots rc Hrc) as Hbad. pose proof (fault_response rc "unknown" "MCA104") as H104.
  destruct (rc_multiple_callables rc) eqn:Hmul; cycle 1.
  { unfold single_root, reject in He. unfold rejection. destruct (get "entry" request) as [v|] eqn:Ev;
      cbn [mbind option_bind] in He; [destruct v as [| | | | |entry]; cbn [as_object] in He|];
      try (injection He as <-; apply H104; [done|apply Hbad; by intros entry root (? & _)]).
    destruct (get_str "module" (Object entry)) as [m|] eqn:Em; cycle 1.
    { injection He as <-. apply H104; [done|]. apply Hbad. intros ? ? ([= <-] & ? & _). congruence. }
    destruct (get_str "function" (Object entry)) as [f|] eqn:Ef; [done|].
    injection He as <-. apply H104; [done|]. apply Hbad. intros ? ? ([= <-] & _ & ?). congruence. }
  unfold multiple_roots, reject in He. destruct (get "entry" request) as [v|] eqn:Ev.
  { rewrite bool_decide_true in He by eauto. injection He as <-. apply H104; [done|]. apply Hbad.
    intros roots (? & _). congruence. }
  rewrite bool_decide_false in He by by intros [? ?].
  destruct (get "callable_roots" request) as [v|] eqn:Er; cycle 1.
  { destruct (rc_select_test_cases rc) eqn:Es; cbn in He; [done|]. injection He as <-. apply H104; [done|].
    apply Hbad. unfold asks_roots, get_array. rewrite Er. by intros roots (_ & ? & ? & [?|(_ & ? & _)] & _); try congruence. }
  destruct (as_array v) as [rows|] eqn:Ea; cbn [mbind outcome_bind] in He; cycle 1.
  { injection He as <-. apply H104; [done|]. apply Hbad. unfold asks_roots, get_array. rewrite Er. cbn. rewrite Ea.
    by intros roots (_ & ? & ? & [?|(? & _)] & _). }
  assert (Hrows : get_array "callable_roots" request = Some rows) by (unfold get_array; by rewrite Er).
  destruct (Nat.ltb_spec MAX_CALLABLE_ROOTS (List.length rows)) as [Hl|Hl]; cbn [orb] in He.
  { injection He as <-. apply fault_response; [done|]. eapply fault_root_count; eauto. }
  destruct (Nat.eqb_spec (List.length rows) 0) as [H0|H0]; cbn [andb] in He;
    [destruct (rc_select_test_cases rc) eqn:Es; cbn [negb] in He|].
  - by destruct rows.
  - injection He as <-. apply fault_response; [done|]. eapply fault_root_count; eauto.
    right. by destruct rows.
  - apply fold_outcome_err in He as (before & row & after & roots & -> & Hb & He).
    apply add_roots_ok in Hb as (named & Hf & _ & _ & ->); [|apply SSorted_nil]. by eapply add_root_faults.
Qed.

Lemma modules_faults rc source e :
  request_contract request = Some rc -> get_str "root_source" request = Some source ->
  (byte_length source <= U64_MAX)%Z ->
  requires_modules (rc_contract rc) source request = Err e -> rejection e.
Proof.
  intros Hrc Hs Hu He. unfold requires_modules, reject in He.
  destruct (get "modules" request) as [v|] eqn:Ev; cbn [mbind option_bind] in He; cycle 1.
  { injection He as <-. apply fault_response; [done|]. apply fault_modules. by rewrite Ev. }
  destruct v as [| | | | |fields]; cbn [as_object] in He;
    try (injection He as <-; apply fault_response; [done|]; apply fault_modules; by rewrite Ev).
  destruct (Nat.ltb_spec MAX_MODULES (List.length fields)) as [Hl|Hl].
  { injection He as <-. apply fault_response; [done|]. by eapply fault_module_count. }
  assert (0 <= byte_length source)%Z as Hpos by (unfold byte_length; lia).
  rewrite <- (Z.min_l _ _ Hu) in He at 1.
  destruct (fold_outcome _ _ _) as [[modules total]|e'|m] eqn:E; cbn [mbind outcome_bind] in He; [|injection He as <-|done].
  - apply add_modules_ok in E as (sources & -> & -> & ->); [|done].
    match type of He with context [(MAX_SOURCE_BYTES <? ?t)%Z] => destruct (Z.ltb_spec MAX_SOURCE_BYTES t) as [Hm|Hm] end;
      [|done]. injection He as <-. apply fault_response; [done|]. eapply fault_bytes; [done|done|lia].
  - apply fold_outcome_err in E as (before & [k v] & after & [modules total] & -> & _ & He).
    unfold add_module, reject in He. cbn [fst snd] in He. destruct (as_str v) eqn:Ea; [done|]. injection He as <-.
    apply fault_response; [done|]. eapply fault_module_source; [done| |done]. apply elem_of_app. right. left.
Qed.

Lemma roots_no_panic rc message :
  (if rc_multiple_callables rc then multiple_roots rc request else single_root (rc_contract rc) request)
  <> Panic message.
Proof.
  destruct (rc_multiple_callables rc).
  - unfold multiple_roots, reject. case_match; [done|].
    assert (Hf : forall rows, fold_outcome (add_callable_root (rc_contract rc)) [] rows <> Panic message).
    { intros rows. apply fold_outcome_no_panic. intros s x m. unfold add_callable_root, reject. by repeat case_match. }
    destruct (get "callable_roots" request) as [v|]; [destruct (as_array v)|destruct (rc_select_test_cases rc)];
      cbn [mbind outcome_bind]; try done; case_match; try done; apply Hf.
  - unfold single_root, reject. by repeat case_match.
Qed.

Lemma modules_no_panic contract source message : requires_modules contract source request <> Panic message.
Proof.
  unfold requires_modules, reject. case_match; [|done]. case_match; [done|].
  destruct (fold_outcome _ _ _) as [[modules total]|e|m] eqn:E; cbn [mbind outcome_bind]; [by case_match|done|].
  exfalso. revert E. apply fold_outcome_no_panic. intros [ms t] x m'. unfold add_module, reject. by case_match.
Qed.

Lemma rejected_shape response :
  rejection response ->
  rejection response /\ get "artifact" response = Some Null /\ get_str "status" response <> Some "verified".
Proof.
  intros Hr. split; [done|]. destruct Hr as (status & code & message & Hf & ->).
  assert (Hget : forall contract, get "artifact" (error_contract contract status code message) = Some Null /\
    get "status" (error_contract contract status code message) = Some (Str status)).
  { intros contract. unfold error_contract. destruct (one_of contract contracts_from_v3),
      (one_of contract contracts_from_v4); split; reflexivity. }
  split; [apply Hget|]. unfold get_str. rewrite (proj2 (Hget _)). cbn. intros [= Hs]. inversion Hf; congruence.
Qed.

(** A rejected build request is answered with a response that carries no
    artifact, under the contract of the request's version (the first one's for
    an unknown version), and whose error code and status name a defect the
    request really has; admission never panics. *)
Theorem rejection_names_fault :
  (forall source, get_str "root_source" request = Some source -> (byte_length source <= U64_MAX)%Z) ->
  (forall message, admit_request request <> Panic message) /\
  forall response, admit_request request = Err response ->
    rejection response /\ get "artifact" response = Some Null /\ get_str "status" response <> Some "verified".
Proof.
  intros Hu. unfold admit_request.
  destruct (request_contract request) as [rc|] eqn:Hrc; unfold reject; cycle 1.
  { split; [done|]. intros response [= <-]. split_and!; [|reflexivity|done].
    exists "unknown", "MCA100". eexists. split; [by apply fault_schema|by rewrite Hrc]. }
  destruct (requires_selection rc request) as [sel|e|m] eqn:Esel; cbn [mbind outcome_bind]; cycle 1.
  { split; [done|]. intros response [= <-]. apply rejected_shape. by eapply selection_faults. }
  { exfalso. revert Esel. unfold requires_selection, reject. by repeat case_match. }
  destruct (bool_decide (get_str "target" request = Some VM_TARGET)) eqn:Et; cbn [negb]; cycle 1.
  { split; [done|]. intros response [= <-]. apply rejected_shape, fault_response, fault_target; [done|].
    by apply bool_decide_eq_false in Et. }
  destruct (requires_seeds (rc_contract rc) request) as [seeds|e|m] eqn:Eseed; cbn [mbind outcome_bind]; cycle 1.
  { split; [done|]. intros response [= <-]. apply rejected_shape. by eapply seeds_faults. }
  { exfalso. revert Eseed. unfold requires_seeds, reject. by repeat case_match. }
  destruct (get_str "root_source_id" request) as [id|] eqn:Eid; cycle 1.
  { split; [done|]. intros response [= <-]. by apply rejected_shape, fault_response, fault_root_id. }
  destruct (get_str "root_source" request) as [source|] eqn:Esource; cycle 1.
  { split; [done|]. intros response [= <-]. by apply rejected_shape, fault_response, fault_root_source. }
  match goal with |- context [mbind _ ?o] => destruct o as [roots|e|m] eqn:Eroots end; cbn [mbind outcome_bind]; cycle 1.
  { split; [done|]. intros response [= <-]. apply rejected_shape. by eapply roots_faults. }
  { exfalso. by eapply roots_no_panic. }
  destruct (requires_modules (rc_contract rc) source request) as [modules|e|m] eqn:Em; cbn [mbind outcome_bind]; cycle 1.
  { split; [done|]. intros response [= <-]. apply rejected_shape. eapply modules_faults; eauto. }
  { exfalso. by eapply modules_no_panic. }
  done.
Qed.

End Faults.

(** ** What an admitted request fixes *)

Lemma admit_inv `{SeedCrate} request br :
  admit_request request = Ok br ->
  request_contract request = Some (br_contract br) /\
  requires_selection (br_contract br) request = Ok (br_selection br) /\
  (if rc_multiple_callables (br_contract br) then multiple_roots (br_contract br) request
   else single_root (rc_contract (br_contract br)) request) = Ok (br_roots br).
Proof.
  unfold admit_request. destruct (request_contract request) as [rc|]; [|done]. intros Ha.
  apply outcome_bind_ok in Ha as (selection & Hsel & Ha).
  destruct (negb _); [done|]. apply outcome_bind_ok in Ha as (seeds & _ & Ha).
  destruct (get_str "root_source_id" request) as [id|]; [|done].
  destruct (get_str "root_source" request) as [source|]; [|done].
  apply outcome_bind_ok in Ha as (roots & Hroots & Ha). apply outcome_bind_ok in Ha as (modules & _ & Heq).
  injection Heq as <-. by cbn.
Qed.

(** Admission does not panic. *)
Lemma admit_no_panic `{SeedCrate} request message : admit_request request <> Panic message.
Proof.
  unfold admit_request, reject. destruct (request_contract request) as [rc|]; [|done].
  destruct (requires_selection rc request) as [sel|e|m] eqn:Es; cbn [mbind outcome_bind]; [|done|].
  2: { unfold requires_selection, reject in Es. exfalso. revert Es. by repeat case_match. }
  destruct (negb _); [done|]. destruct (requires_seeds (rc_contract rc) request) as [seeds|e|m] eqn:Ed;
    cbn [mbind outcome_bind]; [|done|].
  2: { unfold requires_seeds, reject in Ed. exfalso. revert Ed. by repeat case_match. }
  destruct (get_str "root_source_id" request); [|done]. destruct (get_str "root_source" request) as [source|]; [|done].
  match goal with |- context [mbind _ ?o] => destruct o as [roots|e|m] eqn:Er end; cbn [mbind outcome_bind]; [|done|].
  2: { by apply roots_no_panic in Er. }
  destruct (requires_modules (rc_contract rc) source request) as [modules|e|m] eqn:Em; cbn [mbind outcome_bind]; [done|done|].
  by apply modules_no_panic in Em.
Qed.

(** A build without a test selection has roots. *)
Lemma admitted_roots `{SeedCrate} request br :
  admit_request request = Ok br -> br_selection br = None -> br_roots br <> [].
Proof.
  intros (_ & Hsel & Hroots)%admit_inv Hnone. rewrite Hnone in Hsel.
  assert (rc_select_test_cases (br_contract br) = false) as Hfalse.
  { unfold requires_selection, reject in Hsel. destruct (rc_select_test_cases (br_contract br)); [|done].
    destruct (get "test_selection" request) as [v|]; [|done]. by destruct (parse_source_test_selection v). }
  destruct (rc_multiple_callables (br_contract br)).
  - apply multiple_roots_ok in Hroots as (_ & rows & named & _ & _ & Hne & Hf & _ & ->). intros Hnil.
    destruct rows as [|row rows]; [by apply Hne|]. apply Forall2_cons_inv_l in Hf as (root & rest & _ & _ & ->).
    assert (root ∈ bs_of_list (root :: rest)) as Hin by (apply elem_of_bs_of_list; left).
    rewrite Hnil in Hin. by apply elem_of_nil in Hin.
  - unfold single_root, reject in Hroots. destruct (get "entry" request ≫= as_object) as [entry|]; [|done].
    destruct (get_str "module" (Object entry)) as [m|]; [|done].
    destruct (get_str "function" (Object entry)) as [f|]; [|done]. by injection Hroots as <-.
Qed.

(** ** The shape of a refusal *)

(** Every early return is an error under one contract. *)
Definition refuses {A} (contract : string) (o : Outcome Value A) : Prop :=
  forall r, o = Err r -> exists status code message,
    r = error_contract contract status code message /\ status ∈ ["unknown"; "unsupported"; "unavailable"].

Lemma refuses_ok {A} contract (a : A) : refuses contract (Ok a).
Proof. done. Qed.
Lemma refuses_reject {A} contract status code message :
  status ∈ ["unknown"; "unsupported"; "unavailable"] -> @refuses A contract (reject contract status code message).
Proof. intros Hs r [= <-]. eauto. Qed.
Lemma refuses_bind {A B} contract (m : Outcome Value A) (f : A -> Outcome Value B) :
  refuses contract m -> (forall a, refuses contract (f a)) -> refuses contract (m ≫= f).
Proof. intros Hm Hf r Hr. destruct m as [a|e|e]; cbn in Hr; [by apply Hf in Hr|apply Hm; congruence|done]. Qed.
Lemma refuses_fold {A S} contract (f : S -> A -> Outcome Value S) l s :
  (forall s a, refuses contract (f s a)) -> refuses contract (fold_outcome f s l).
Proof.
  intros Hf. revert s. induction l as [|a l IH]; intros s; [apply refuses_ok|]. apply refuses_bind; [apply Hf|apply IH].
Qed.

Ltac refuse := repeat first
  [ apply refuses_ok
  | apply refuses_reject; apply (bool_decide_unpack _); vm_compute; exact Logic.I
  | apply refuses_fold; intros
  | apply refuses_bind; [|intros]
  | match goal with |- refuses _ (match ?x with _ => _ end) => destruct x end ].

Lemma refusal_shape `{SeedCrate} request :
  refuses (match request_contract request with Some rc => rc_contract rc | None => CONTRACT_V1 end) (admit_request request).
Proof.
  unfold admit_request. destruct (request_contract request) as [rc|]; [|refuse].
  unfold requires_selection, requires_seeds, multiple_roots, single_root, requires_modules, add_callable_root, add_module.
  refuse.
Qed.

(** ** Witnesses *)

#[export] Instance sample_seed_crate : SeedCrate := {|
  seed_function := seed_rest;
  seed_type_spellings := fun _ => [];
  from_request := fun module function _ => mkSeed module function;
  seed_key := fun seed => seed_module seed +:+ "::" +:+ seed_rest seed;
  seed_value := fun seed => Str (seed_module seed)
|}.

Definition sample_build_request (source : string) : Value := object [
  ("schema_version", Str REQUEST_V4);
  ("test_selection", selection_value (CaseIdentities ["t2"; "t1"]));
  ("target", Str VM_TARGET);
  ("root_source_id", Str "app"); ("root_source", Str source);
  ("callable_roots", Array [object [("module", Str "m"); ("function", Str "g")];
                            object [("module", Str "m"); ("function", Str "f")]]);
  ("generic_seeds", Array [object [("module", Str "m"); ("function", Str "id");
     ("type_arguments", Array [object [("kind", Str "nat"); ("value", count 4)]])]]);
  ("modules", object [("lib", Str "module lib")])].

Lemma admission_exact_witness :
  exists r, asks (sample_build_request "module m") r /\ br_roots r = [("m", "f"); ("m", "g")] /\
    br_selection r = Some (CaseIdentities ["t1"; "t2"]).
Proof.
  eexists. split; [apply admission_exact; [|reflexivity]|split; reflexivity].
  intros source Hs. change (Some "module m" = Some source) in Hs. injection Hs as <-. by apply Z.leb_le.
Defined.

Lemma rejection_names_fault_witness :
  is_ok (admit_request (object [("schema_version", Str REQUEST_V2); ("target", Str "native")])) = false /\
  forall message, admit_request (object [("schema_version", Str REQUEST_V2); ("target", Str "native")]) <> Panic message.
Proof. split; [reflexivity|]. apply rejection_names_fault. by intros source. Defined.

Definition sample_inventory : Value := object [("tests", Array [
  object [("test_case_identity", Str "t1"); ("declaration_identity", Str "d2")];
  object [("test_case_identity", Str "t3"); ("declaration_identity", Str "d3")];
  object [("test_case_identity", Str "t2"); ("declaration_identity", Str "d1")]])].

Lemma case_resolution_exact_witness :
  canonical (CaseIdentities ["t1"; "t2"]) /\
  is_ok (resolve_source_test_selection (CaseIdentities ["t1"; "t2"]) sample_inventory) = true /\
  is_ok (resolve_source_test_selection (CaseIdentities ["t1"; "t4"]) sample_inventory) = false.
Proof.
  assert (canonical (CaseIdentities ["t1"; "t2"])) as Hc.
  { split_and!; [repeat constructor| |vm_compute; lia|vm_compute; lia].
    intros [?|[?|[]%elem_of_nil]%elem_of_cons]%elem_of_cons; done. }
  split_and!; [exact Hc| |reflexivity].
  apply (case_resolution_exact _ _ Hc). eexists. split; [reflexivity|].
  intros i [->|[->|[]%elem_of_nil]%elem_of_cons]%elem_of_cons; eexists; reflexivity.
Defined.
