(* ===== verification/AppKeys.v ===== *)
(** Identities of application builds: [tools/stage0-probe/src/application.rs],
    the framed source snapshot, the three cache keys, and the cache paths they
    select.  Definitions only. *)

From Stdlib Require Import Ascii String.
From S2P Require Export AppRequest.

Local Open Scope string_scope.
Local Open Scope list_scope.

(** ** Framing *)

(** [u64::to_be_bytes]. *)
Definition be_byte (n : Z) (i : Z) : ascii := ascii_of_nat (Z.to_nat (Z.land (Z.shiftr n (8 * i)) 255)).
Definition to_be_bytes (n : Z) : string := string_of_list_ascii (map (be_byte n) [7; 6; 5; 4; 3; 2; 1; 0]%Z).

(** [push_part(&mut output, value)]; a length is a [u64]. *)
Definition push_part (output value : string) : string :=
  output +:+ to_be_bytes (byte_length value mod 2 ^ 64) +:+ value.

(** ** Paths *)

(** [Path::join] with a relative path, and [Path::parent] of a path without
    trailing or repeated separators. *)
Definition path_join (root relative : string) : string :=
  if String.eqb root "" then relative
  else if bool_decide (is_Some (strip_suffix "/" root)) then root +:+ relative
  else root +:+ "/" +:+ relative.
Definition path_parent (path : string) : option string :=
  match rsplit_once "/" path with
  | Some (before, name) =>
      if String.eqb before "" then if String.eqb name "" then None else Some "/" else Some before
  | None => if String.eqb path "" then None else Some ""
  end.

Definition is_ascii_hexdigit (a : ascii) : bool :=
  let n := nat_of_ascii a in
  (Nat.leb 48 n && Nat.leb n 57) || (Nat.leb 65 n && Nat.leb n 70) || (Nat.leb 97 n && Nat.leb n 102).

Definition sha256_cache_key_hex (key : string) : option string :=
  hex ← strip_prefix "sha256:" key;
  if Nat.eqb (String.length hex) 64 && string_forallb is_ascii_hexdigit hex then Some hex else None.

Definition application_cache_path_at (root key : string) : option string :=
  hex ← sha256_cache_key_hex key;
  Some (path_join (path_join root "application-builds") (hex +:+ ".json")).
Definition application_cache_index_path_at (root key : string) : option string :=
  hex ← sha256_cache_key_hex key;
  Some (path_join (path_join root "application-build-indexes") (hex +:+ ".json")).
Definition language_fact_cache_index_path_at (root key : string) : option string :=
  hex ← sha256_cache_key_hex key;
  Some (path_join (path_join root "application-build-fact-indexes") (hex +:+ ".json")).

Definition nonempty (root : string) : option string := if String.eqb root "" then None else Some root.
Definition application_cache_root_from (application_root probe_root : option string) : option string :=
  match application_root ≫= nonempty with
  | Some root => Some root
  | None => probe_root ≫= nonempty
  end.

(** The process environment of the cache. *)
Definition application_cache_root (env : string -> option string) : option string :=
  application_cache_root_from (env "MNCS_PROBE_APPLICATION_CACHE_DIR") (env "MNCS_PROBE_CACHE_DIR").
Definition application_cache_path (env : string -> option string) (key : string) : option string :=
  root ← application_cache_root env; application_cache_path_at root key.
Definition application_cache_index_path (env : string -> option string) (key : string) : option string :=
  root ← application_cache_root env; application_cache_index_path_at root key.
Definition language_fact_cache_index_path (env : string -> option string) (key : string) : option string :=
  root ← application_cache_root env; language_fact_cache_index_path_at root key.

(** ** Keys *)

(** [serde_json]'s writer of a [Value] and [to_value] of the toolchain. *)
Class JsonCrate := {
  to_vec : Value -> option string;
  toolchain_value : ToolchainIdentity -> option Value
}.

Section Keys.
Context `{ModelCrate, SeedCrate, JsonCrate}.

Definition sha256 (s : string) : string := "sha256:" +:+ sha256_hex s.

Definition push_module (bytes : string) (row : string * string) : string :=
  push_part (push_part bytes row.1) row.2.

Definition source_snapshot_identity (root_id root_source : string) (modules : list (string * string)) : string :=
  let bytes := "mncs.compiler.source-snapshot/1" +:+ nul in
  let bytes := push_part bytes root_id in
  let bytes := push_part bytes root_source in
  sha256 (fold_left push_module modules bytes).

(** [request.get(key).cloned().unwrap_or(default)]. *)
Definition setting (request : Value) (key : string) (dflt : Value) : Value := default dflt (get key request).

Definition generic_seed_keys (seeds : list HostGenericSeedRequest) : list string :=
  dedup (sort_by ord_leb (map seed_key seeds)).

Definition pair_value (root : string * string) : Value := Array [Str root.1; Str root.2].
Definition pairs_value (roots : list (string * string)) : Value := Array (map pair_value roots).

(** [serde_json::to_vec(&identity).unwrap_or_default()] below a domain prefix. *)
Definition tagged_hash (tag : string) (identity : Value) : string :=
  sha256 (tag +:+ nul +:+ default "" (to_vec identity)).

Definition module_source_value (row : string * string) : Value :=
  object [("module", Str row.1); ("sha256", Str (sha256 row.2))].

Definition application_cache_key (request : Value) (contract root_id source_identity : string)
  (modules : list (string * string)) (generic_seeds : list HostGenericSeedRequest)
  (callable_roots : list (string * string)) (source_test_selection : option Value)
  (toolchain : option ToolchainIdentity) (probe_identity : string) : string :=
  tagged_hash "mncs.compiler.application-build-cache/6" (object [
    ("schema_version", Str "mncs.compiler.application-build-cache-key/6");
    ("contract", Str contract);
    ("source_snapshot_identity", Str source_identity);
    ("root_source_id", Str root_id);
    ("module_sources", Array (map module_source_value modules));
    ("generic_seeds", strings (generic_seed_keys generic_seeds));
    ("callable_roots", pairs_value callable_roots);
    ("source_test_selection", nullable source_test_selection);
    ("compiler_semantics", nullable (toolchain ≫= toolchain_value));
    ("compiler_implementation", Str probe_identity);
    ("backend", Str "mncs-vm-direct");
    ("target", setting request "target" Null);
    ("capabilities", setting request "capabilities" (Array []));
    ("effect_assumptions", setting request "effect_assumptions" (Array []));
    ("optimization_policy", setting request "optimization_policy" (Str "default"));
    ("verification_policy", setting request "verification_policy" (Str "default"));
    ("entry", setting request "entry" Null)]).

Definition application_cache_index_key (request : Value) (contract root_id : string)
  (generic_seeds : list HostGenericSeedRequest) (callable_roots : list (string * string))
  (source_test_selection : option Value) (toolchain : option ToolchainIdentity) (probe_identity : string) : string :=
  tagged_hash "mncs.compiler.application-build-cache-index/6" (object [
    ("schema_version", Str "mncs.compiler.application-build-cache-index-key/6");
    ("contract", Str contract);
    ("root_source_id", Str root_id);
    ("generic_seeds", strings (generic_seed_keys generic_seeds));
    ("callable_roots", pairs_value callable_roots);
    ("source_test_selection", nullable source_test_selection);
    ("compiler_semantics", nullable (toolchain ≫= toolchain_value));
    ("compiler_implementation", Str probe_identity);
    ("backend", Str "mncs-vm-direct");
    ("target", setting request "target" Null);
    ("capabilities", setting request "capabilities" (Array []));
    ("effect_assumptions", setting request "effect_assumptions" (Array []));
    ("optimization_policy", setting request "optimization_policy" (Str "default"));
    ("verification_policy", setting request "verification_policy" (Str "default"));
    ("entry", setting request "entry" Null)]).

Definition language_fact_cache_index_key (request : Value) (contract : string)
  (callable_roots : list (string * string)) (source_test_selection : option Value)
  (toolchain : option ToolchainIdentity) (probe_identity : string) : string :=
  tagged_hash "mncs.compiler.application-build-language-fact-index/2" (object [
    ("schema_version", Str "mncs.compiler.application-build-language-fact-index-key/2");
    ("contract", Str contract);
    ("callable_roots", pairs_value callable_roots);
    ("source_test_selection", nullable source_test_selection);
    ("compiler_semantics", nullable (toolchain ≫= toolchain_value));
    ("compiler_implementation", Str probe_identity);
    ("backend", Str "mncs-vm-direct");
    ("target", setting request "target" Null);
    ("optimization_policy", setting request "optimization_policy" (Str "default"));
    ("verification_policy", setting request "verification_policy" (Str "default"));
    ("entry", setting request "entry" Null)]).

(** ** The files of a snapshot, as a response lists them *)

Definition file_value (module source_id source : string) : Value :=
  object [("module", Str module); ("source_id", Str source_id); ("sha256", Str (sha256 source))].
Definition source_files (root_id root_source : string) (modules : list (string * string)) : list Value :=
  file_value "root" root_id root_source :: map (fun row => file_value row.1 row.1 row.2) modules.

(** [producer_identity]: the hash of the running executable, or "unknown". *)
Definition producer_identity (executable executable_sha256 : option string) : string * Value :=
  (default "unknown" executable_sha256,
   object [("kind", Str "mncs.stage0-reference-compiler");
           ("probe_executable", nullable (Str <$> executable));
           ("probe_executable_sha256", nullable (Str <$> executable_sha256))]).
End Keys.
