(* ===== verification/AppKeysTheorems.v ===== *)
(** Cache identities are exact, and cache paths stay in their directory. *)

From Stdlib Require Import Ascii String.
From S2P Require Export AppKeys.

Local Open Scope string_scope.
Local Open Scope list_scope.

(** ** Framing *)

Lemma string_of_list_app (l k : list ascii) :
  string_of_list_ascii (l ++ k) = string_of_list_ascii l +:+ string_of_list_ascii k.
Proof. induction l as [|a l IH]; [done|]. cbn [app string_of_list_ascii]. by rewrite IH, string_app_cons. Qed.

(** Parts of one length split in one way. *)
Lemma string_app_inj (a a' b b' : string) :
  String.length a = String.length a' -> a +:+ b = a' +:+ b' -> a = a' /\ b = b'.
Proof.
  revert a'. induction a as [|x a IH]; intros [|y a'] Hl Heq; try done.
  rewrite !string_app_cons in Heq. injection Heq as -> Heq. apply IH in Heq as [-> ->]; [done|]. by injection Hl.
Qed.

Lemma string_app_inv_head (a b b' : string) : a +:+ b = a +:+ b' -> b = b'.
Proof. intros Heq. by apply string_app_inj in Heq as [_ ?]. Qed.

Lemma length_to_be_bytes n : String.length (to_be_bytes n) = 8.
Proof. reflexivity. Qed.

Lemma be_byte_testbit n i k : (0 <= i)%Z -> (0 <= k < 8)%Z ->
  Z.testbit (Z.of_nat (nat_of_ascii (be_byte n i))) k = Z.testbit n (8 * i + k).
Proof.
  intros Hi Hk. unfold be_byte.
  assert (0 <= Z.land (Z.shiftr n (8 * i)) 255 < 256)%Z as Hr.
  { replace 255%Z with (Z.ones 8) by done. rewrite Z.land_ones by lia. by apply Z.mod_pos_bound. }
  rewrite nat_ascii_embedding by lia. rewrite Z2Nat.id by lia.
  replace 255%Z with (Z.ones 8) by done.
  rewrite Z.land_spec, Z.ones_spec_low, andb_true_r, Z.shiftr_spec by lia. f_equal. lia.
Qed.

Lemma to_be_bytes_inj n m : (0 <= n < 2 ^ 64)%Z -> (0 <= m < 2 ^ 64)%Z -> to_be_bytes n = to_be_bytes m -> n = m.
Proof.
  intros Hn Hm Heq. apply Z.bits_inj'. intros k Hk.
  destruct (Z.lt_ge_cases k 64) as [Hlt|Hge].
  - rewrite (Z_div_mod_eq_full k 8) in *. set (i := (k / 8)%Z) in *. set (j := (k mod 8)%Z) in *.
    assert (0 <= j < 8)%Z as Hj by (apply Z.mod_pos_bound; lia). assert (0 <= i < 8)%Z as Hi by lia.
    rewrite <- !be_byte_testbit by lia. f_equal. f_equal. f_equal.
    unfold to_be_bytes in Heq. cbn [map string_of_list_ascii] in Heq. injection Heq as H7 H6 H5 H4 H3 H2 H1 H0.
    assert (i = 0 \/ i = 1 \/ i = 2 \/ i = 3 \/ i = 4 \/ i = 5 \/ i = 6 \/ i = 7)%Z as Hc by lia.
    by destruct Hc as [->|[->|[->|[->|[->|[->|[->| ->]]]]]]].
  - rewrite !Z.bits_above_log2; try lia.
    all: destruct (Z.eq_dec n 0) as [->|?], (Z.eq_dec m 0) as [->|?]; cbn [Z.log2]; try lia.
    all: apply Z.lt_le_trans with 64%Z; [|lia]; apply Z.log2_lt_pow2; lia.
Qed.

Definition frame (part : string) : string := to_be_bytes (byte_length part mod 2 ^ 64) +:+ part.
Definition frames (parts : list string) : string := foldr (fun part rest => frame part +:+ rest) "" parts.

(** A length is a [u64]: so it is on every machine this runs on. *)
Definition short (part : string) : Prop := (byte_length part < 2 ^ 64)%Z.

Lemma frame_inj (p q a b : string) : short p -> short q -> frame p +:+ a = frame q +:+ b -> p = q /\ a = b.
Proof.
  intros Hp Hq Heq. unfold frame, short in *. rewrite !string_app_assoc in Heq.
  assert (0 <= byte_length p)%Z by (unfold byte_length; lia). assert (0 <= byte_length q)%Z by (unfold byte_length; lia).
  apply string_app_inj in Heq as [Hn Heq]; [|reflexivity]. rewrite !Z.mod_small in Hn by lia.
  apply to_be_bytes_inj in Hn; [|lia..]. apply string_app_inj in Heq as [-> ->]; [done|].
  unfold byte_length in Hn. lia.
Qed.

Lemma frames_inj l k : Forall short l -> Forall short k -> frames l = frames k -> l = k.
Proof.
  revert k. induction l as [|p l IH]; intros [|q k] Hl Hk Heq; try done.
  apply Forall_cons in Hl as [Hp Hl]. apply Forall_cons in Hk as [Hq Hk]. cbn [frames foldr] in Heq.
  apply frame_inj in Heq as [-> Heq]; [|done|done]. f_equal. by apply IH.
Qed.

Lemma push_part_frame output part : push_part output part = output +:+ frame part.
Proof. done. Qed.

Definition parts (root_id root_source : string) (modules : list (string * string)) : list string :=
  root_id :: root_source :: flat_map (fun row => [row.1; row.2]) modules.

Lemma push_modules_frames modules bytes :
  fold_left push_module modules bytes = bytes +:+ frames (flat_map (fun row => [row.1; row.2]) modules).
Proof.
  revert bytes. induction modules as [|row modules IH]; intros bytes; cbn [fold_left flat_map app frames foldr].
  - symmetry. induction bytes as [|a bytes IHb]; [done|]. by rewrite string_app_cons, IHb.
  - rewrite IH. unfold push_module. rewrite !push_part_frame. by rewrite !string_app_assoc.
Qed.

Lemma parts_inj id id' source source' (modules modules' : list (string * string)) :
  parts id source modules = parts id' source' modules' -> id = id' /\ source = source' /\ modules = modules'.
Proof.
  unfold parts. intros [= -> -> Hm]. split_and!; try done. revert modules' Hm.
  induction modules as [|[a b] l IH]; intros [|[a' b'] l'] Hm; try done.
  cbn in Hm. injection Hm as -> -> Hm. f_equal. by apply IH.
Qed.

Section Identities.
Context `{ModelCrate, SeedCrate, JsonCrate}.
(** SHA-256 separates the inputs it is given, and [serde_json] writes every
    value, different ones differently. *)
Context `{!Inj (=) (=) sha256_hex} (Hwrites : forall v, is_Some (to_vec v))
  (Hinj : forall v w, to_vec v = to_vec w -> v = w).

#[local] Instance sha256_inj : Inj (=) (=) sha256.
Proof. intros a b Heq. unfold sha256 in Heq. apply string_app_inv_head in Heq. by apply (inj sha256_hex). Qed.

Lemma tagged_hash_inj tag v w : tagged_hash tag v = tagged_hash tag w -> v = w.
Proof.
  intros Heq. apply (inj sha256) in Heq. apply string_app_inv_head, string_app_inv_head in Heq.
  apply Hinj. destruct (Hwrites v) as [s Hs], (Hwrites w) as [t Ht]. rewrite Hs, Ht in *. cbn in Heq. by subst.
Qed.

Lemma pairs_value_inj l k : pairs_value l = pairs_value k -> l = k.
Proof.
  intros [= Heq]. revert k Heq. induction l as [|[a b] l IH]; intros [|[c d] k] Heq; try done.
  cbn in Heq. injection Heq as -> -> Heq. f_equal. by apply IH.
Qed.

Lemma module_source_value_inj row row' : module_source_value row = module_source_value row' -> row = row'.
Proof.
  intros Heq. destruct row as [a b], row' as [c d].
  pose proof (f_equal (get_str "module") Heq) as Ha. pose proof (f_equal (get_str "sha256") Heq) as Hb.
  change (Some a = Some c) in Ha. change (Some (sha256 b) = Some (sha256 d)) in Hb.
  injection Ha as ->. apply (inj Some) in Hb. by apply (inj sha256) in Hb as ->.
Qed.

(** The settings of a request that reach the artifact. *)
Definition same_settings (request request' : Value) : Prop :=
  setting request "target" Null = setting request' "target" Null /\
  setting request "capabilities" (Array []) = setting request' "capabilities" (Array []) /\
  setting request "effect_assumptions" (Array []) = setting request' "effect_assumptions" (Array []) /\
  setting request "optimization_policy" (Str "default") = setting request' "optimization_policy" (Str "default") /\
  setting request "verification_policy" (Str "default") = setting request' "verification_policy" (Str "default") /\
  setting request "entry" Null = setting request' "entry" Null.

Lemma generic_seed_keys_set seeds : generic_seed_keys seeds = bs_of_list (map seed_key seeds).
Proof. apply sort_dedup. Qed.

Lemma selection_nullable_inj (s s' : option SourceTestSelection) :
  nullable (selection_value <$> s) = nullable (selection_value <$> s') -> s = s'.
Proof.
  destruct s as [[|l]|], s' as [[|k]|]; intros Heq; try done; try (apply (f_equal (get_str "kind")) in Heq; done).
  apply (f_equal (get "test_case_identities")) in Heq. change (Some (strings l) = Some (strings k)) in Heq.
  injection Heq as Heq. by apply map_Str_inj in Heq as ->.
Qed.

(** The identity of a source snapshot tells any two snapshots apart: the
    parts are framed by their lengths, so no text can be read as a boundary
    between the root, a module name and a module source. *)
Theorem snapshot_identity_exact id id' source source' (modules modules' : list (string * string)) :
  Forall short (parts id source modules) -> Forall short (parts id' source' modules') ->
  source_snapshot_identity id source modules = source_snapshot_identity id' source' modules' <->
  id = id' /\ source = source' /\ modules = modules'.
Proof.
  intros Hs Hs'. split; [|by intros (-> & -> & ->)]. intros Heq. apply (inj sha256) in Heq.
  rewrite !push_modules_frames, !push_part_frame, !string_app_assoc in Heq.
  apply string_app_inv_head, string_app_inv_head in Heq. apply parts_inj, frames_inj; done.
Qed.

(** C20: the key of a cached application determines the build it caches: two
    admitted builds that share a key have the same contract, snapshot (root id,
    root source and every module), callable roots, test selection, set of
    specialization seeds, toolchain, producer and settings; and builds that
    agree on these share the key. *)
Theorem application_key_exact request request' r r' toolchain toolchain' probe probe' :
  Forall short (parts (br_root_id r) (br_root_source r) (br_modules r)) ->
  Forall short (parts (br_root_id r') (br_root_source r') (br_modules r')) ->
  let key request r toolchain probe :=
    application_cache_key request (rc_contract (br_contract r)) (br_root_id r)
      (source_snapshot_identity (br_root_id r) (br_root_source r) (br_modules r)) (br_modules r) (br_seeds r)
      (br_roots r) (selection_value <$> br_selection r) toolchain probe in
  key request r toolchain probe = key request' r' toolchain' probe' <->
  rc_contract (br_contract r) = rc_contract (br_contract r') /\
  br_root_id r = br_root_id r' /\ br_root_source r = br_root_source r' /\ br_modules r = br_modules r' /\
  br_roots r = br_roots r' /\ br_selection r = br_selection r' /\
  (forall k, k ∈ map seed_key (br_seeds r) <-> k ∈ map seed_key (br_seeds r')) /\
  nullable (toolchain ≫= toolchain_value) = nullable (toolchain' ≫= toolchain_value) /\
  probe = probe' /\ same_settings request request'.
Proof.
  intros Hs Hs'. cbv zeta beta. unfold application_cache_key. rewrite !generic_seed_keys_set. split.
  - intros Heq. apply tagged_hash_inj in Heq.
    assert (E1 : Some (Str (rc_contract (br_contract r))) = Some (Str (rc_contract (br_contract r'))))
      by exact (f_equal (get "contract") Heq).
    assert (E2 : Some (Str (source_snapshot_identity (br_root_id r) (br_root_source r) (br_modules r))) =
      Some (Str (source_snapshot_identity (br_root_id r') (br_root_source r') (br_modules r'))))
      by exact (f_equal (get "source_snapshot_identity") Heq).
    assert (E3 : Some (strings (bs_of_list (map seed_key (br_seeds r)))) =
      Some (strings (bs_of_list (map seed_key (br_seeds r'))))) by exact (f_equal (get "generic_seeds") Heq).
    assert (E4 : Some (pairs_value (br_roots r)) = Some (pairs_value (br_roots r')))
      by exact (f_equal (get "callable_roots") Heq).
    assert (E5 : Some (nullable (selection_value <$> br_selection r)) = Some (nullable (selection_value <$> br_selection r')))
      by exact (f_equal (get "source_test_selection") Heq).
    assert (E6 : Some (nullable (toolchain ≫= toolchain_value)) = Some (nullable (toolchain' ≫= toolchain_value)))
      by exact (f_equal (get "compiler_semantics") Heq).
    assert (E7 : Some (Str probe) = Some (Str probe')) by exact (f_equal (get "compiler_implementation") Heq).
    apply (inj Some) in E1, E2, E3, E4, E5, E6, E7. apply (inj Str) in E1, E2, E7.
    apply snapshot_identity_exact in E2 as (Eid & Esource & Emodules); [|done|done].
    apply pairs_value_inj in E4. apply selection_nullable_inj in E5. injection E3 as E3. apply map_Str_inj in E3.
    unfold same_settings. split_and!; try done.
    + intros k. by rewrite <- (elem_of_bs_of_list k (map seed_key (br_seeds r))), E3, elem_of_bs_of_list.
    + exact (f_equal (fun v => setting v "target" Null) Heq).
    + exact (f_equal (fun v => setting v "capabilities" (Array [])) Heq).
    + exact (f_equal (fun v => setting v "effect_assumptions" (Array [])) Heq).
    + exact (f_equal (fun v => setting v "optimization_policy" (Str "default")) Heq).
    + exact (f_equal (fun v => setting v "verification_policy" (Str "default")) Heq).
    + exact (f_equal (fun v => setting v "entry" Null) Heq).
  - intros (-> & -> & -> & -> & -> & -> & Hk & -> & -> & (-> & -> & -> & -> & -> & ->)).
    by rewrite (bs_of_list_ext _ _ Hk).
Qed.
End Identities.

(** ** Paths *)

Lemma strip_suffix_slash_app a b : b <> "" -> strip_suffix "/" b = None -> strip_suffix "/" (a +:+ b) = None.
Proof.
  intros Hb Hs. induction a as [|x a IH]; [done|]. rewrite string_app_cons. cbn [strip_suffix].
  destruct (String.eqb_spec (String x (a +:+ b)) "/") as [[= -> Hn]|_]; [|by rewrite IH].
  destruct a; [|done]. by destruct Hb.
Qed.

Lemma path_join_app root : root <> "" -> exists prefix, forall d, path_join root d = prefix +:+ d.
Proof.
  intros Hr. unfold path_join. destruct (String.eqb_spec root "") as [->|_]; [done|].
  case_bool_decide; [by exists root|]. exists (root +:+ "/"). intros d'. by rewrite string_app_assoc.
Qed.

Lemma strip_prefix_some p s r : strip_prefix p s = Some r -> s = p +:+ r.
Proof.
  revert s. induction p as [|a p IH]; intros s; [by destruct s; intros [= <-]|].
  destruct s as [|b s]; cbn; [done|]. destruct (Ascii.eqb_spec a b) as [->|]; [|done].
  intros Hs%IH. by rewrite string_app_cons, Hs.
Qed.

(** The last separator is the one before a name without any. *)
Lemma rsplit_once_last (c : ascii) before name :
  c ∉ list_ascii_of_string name -> rsplit_once (String c "") (before +:+ String c name) = Some (before, name).
Proof.
  intros Hn.
  assert (Hnone : rsplit_once (String c "") name = None).
  { induction name as [|a name IH]; [done|]. cbn [rsplit_once list_ascii_of_string] in *.
    rewrite IH by set_solver. cbn [strip_prefix]. destruct (Ascii.eqb_spec c a) as [<-|]; [set_solver|done]. }
  induction before as [|a before IH].
  - rewrite string_app_nil. cbn [rsplit_once]. rewrite Hnone. cbn [strip_prefix]. rewrite Ascii.eqb_refl. by destruct name.
  - rewrite string_app_cons. cbn [rsplit_once]. by rewrite IH.
Qed.

Lemma hexdigits_no_slash hex :
  string_forallb is_ascii_hexdigit hex = true -> "/"%char ∉ list_ascii_of_string (hex +:+ ".json").
Proof.
  unfold string_forallb. induction hex as [|a hex IH]; intros Hh.
  - apply (bool_decide_unpack _). vm_compute. exact I.
  - rewrite string_app_cons. cbn [list_ascii_of_string forallb] in *. apply andb_true_iff in Hh as [Ha Hh].
    intros [<-|Hin]%elem_of_cons; [done|by apply IH].
Qed.

Lemma cache_key_hex_spec key hex :
  sha256_cache_key_hex key = Some hex <->
  key = "sha256:" +:+ hex /\ String.length hex = 64 /\ string_forallb is_ascii_hexdigit hex = true.
Proof.
  unfold sha256_cache_key_hex. split.
  - destruct (strip_prefix "sha256:" key) as [h|] eqn:E; cbn [mbind option_bind]; [|done].
    apply strip_prefix_some in E. destruct (_ && _) eqn:Eb; [|done]. intros [= ->].
    apply andb_true_iff in Eb as [?%Nat.eqb_eq ?]. done.
  - intros (-> & Hl & Hh). rewrite strip_prefix_self. cbn [mbind option_bind]. by rewrite Hl, Hh.
Qed.

(** The directory of each kind of cache file. *)
Definition cache_directories : list string :=
  ["application-builds"; "application-build-indexes"; "application-build-fact-indexes"].
Definition cache_file (i : nat) (root key : string) : option string :=
  match i with
  | 0 => application_cache_path_at root key
  | 1 => application_cache_index_path_at root key
  | _ => language_fact_cache_index_path_at root key
  end.

Lemma cache_paths_dir i root directory key path :
  root <> "" -> cache_directories !! i = Some directory -> cache_file i root key = Some path ->
  exists hex, sha256_cache_key_hex key = Some hex /\ path = path_join (path_join root directory) (hex +:+ ".json").
Proof.
  intros Hr Hd Hf. destruct i as [|[|[|i]]]; [..|done]; injection Hd as <-;
    unfold cache_file, application_cache_path_at, application_cache_index_path_at, language_fact_cache_index_path_at in Hf;
    destruct (sha256_cache_key_hex key) as [h|]; try done; injection Hf as <-; eauto.
Qed.

Lemma cache_file_split i directory root key path :
  root <> "" -> cache_directories !! i = Some directory -> cache_file i root key = Some path ->
  exists hex, sha256_cache_key_hex key = Some hex /\
    rsplit_once "/" path = Some (path_join root directory, hex +:+ ".json").
Proof.
  intros Hr Hd Hf. destruct (path_join_app root Hr) as [prefix Hp].
  destruct (cache_paths_dir i root directory key path Hr Hd Hf) as (hex & Hh & ->).
  exists hex. split; [done|]. apply cache_key_hex_spec in Hh as (_ & _ & Hh).
  assert (Hj : path_join (path_join root directory) (hex +:+ ".json") = path_join root directory +:+ "/" +:+ hex +:+ ".json").
  { unfold path_join at 1. rewrite Hp.
    assert (directory <> "" /\ strip_suffix "/" directory = None) as [Hne Hns]
      by (destruct i as [|[|[|i]]]; [..|done]; injection Hd as <-; done).
    destruct (String.eqb_spec (prefix +:+ directory) "") as [He|_]; [by destruct prefix, directory|].
    by rewrite bool_decide_false by (rewrite strip_suffix_slash_app by done; by intros [? ?]). }
  rewrite Hj. apply (rsplit_once_last "/"%char). by apply hexdigits_no_slash.
Qed.

Lemma cache_file_parent i directory root key path :
  root <> "" -> cache_directories !! i = Some directory -> cache_file i root key = Some path ->
  path_parent path = Some (path_join root directory).
Proof.
  intros Hr Hd Hf. destruct (cache_file_split i directory root key path Hr Hd Hf) as (hex & _ & Hs).
  destruct (path_join_app root Hr) as [prefix Hp]. unfold path_parent. rewrite Hs.
  destruct (String.eqb_spec (path_join root directory) "") as [He|_]; [|done].
  rewrite Hp in He. exfalso. destruct i as [|[|[|i]]]; [..|done]; injection Hd as <-; by destruct prefix.
Qed.

(** Cache files stay where they belong.  A key selects a file only when it
    is "sha256:" and 64 hexadecimal digits; the file is then a direct child of
    the directory of its kind, whatever the key, and two keys, of one kind or
    of two, never share a file. *)
Theorem cache_paths_confined root i j key key' path directory :
  root <> "" -> cache_directories !! i = Some directory -> j < List.length cache_directories ->
  cache_file i root key = Some path ->
  (exists hex, sha256_cache_key_hex key = Some hex) /\
  path_parent path = Some (path_join root directory) /\
  (cache_file j root key' = Some path -> i = j /\ key = key').
Proof.
  intros Hr Hd Hj Hf. destruct (cache_file_split i directory root key path Hr Hd Hf) as (hex & Hh & Hs).
  destruct (path_join_app root Hr) as [prefix Hp].
  split_and!; [eauto|by eapply cache_file_parent|].
  - intros Hf'. apply lookup_lt_is_Some in Hj as [directory' Hd'].
    destruct (cache_file_split j directory' root key' path Hr Hd' Hf') as (hex' & Hh' & Hs').
    rewrite Hs in Hs'. rewrite !Hp in Hs'. apply (inj Some), pair_equal_spec in Hs' as [Hdir Hhex].
    apply string_app_inv_head in Hdir as <-.
    apply cache_key_hex_spec in Hh as (-> & Hl & _), Hh' as (-> & Hl' & _).
    apply string_app_inj in Hhex as [-> _]; [|by rewrite Hl, Hl'].
    split; [|done]. eapply NoDup_lookup; [|exact Hd|exact Hd'].
    apply (bool_decide_unpack _). vm_compute. exact I.
Qed.
