(* ===== verification/AppSamples.v ===== *)
(** Concrete stand-ins for the crates the application builder calls: a JSON
    writer that tells values apart, and the samples the witnesses share. *)

From Stdlib Require Import Ascii String.
From S2P Require Export VmReference AppRequestTheorems AppKeysTheorems.

Local Open Scope string_scope.
Local Open Scope list_scope.

(** ** A prefix-free writer of values, and its reader *)

Fixpoint unary (n : nat) : string := match n with O => ";" | S n => String "x"%char (unary n) end.
Definition write_text (s : string) : string := unary (String.length s) +:+ s.

Fixpoint write_value (v : Value) : string :=
  match v with
  | Null => "n"
  | Bool true => "t"
  | Bool false => "f"
  | Number (PosInt n) => String "p" (unary (N.to_nat n))
  | Number (NegInt n) => String "m" (unary (Z.to_nat n) +:+ unary (Z.to_nat (- n)))
  | Number (FloatNum s) => String "d" (write_text s)
  | Str s => String "s" (write_text s)
  | Array l =>
      String "a" (unary (List.length l) +:+
        (fix items (l : list Value) := match l with [] => "" | v :: l => write_value v +:+ items l end) l)
  | Object l =>
      String "o" (unary (List.length l) +:+
        (fix fields (l : list (string * Value)) :=
           match l with [] => "" | (k, v) :: l => write_text k +:+ write_value v +:+ fields l end) l)
  end.

Fixpoint read_unary (s : string) : option (nat * string) :=
  match s with
  | String "x" s => '(n, s) ← read_unary s; Some (S n, s)
  | String ";" s => Some (O, s)
  | _ => None
  end.
Fixpoint split_at (n : nat) (s : string) : option (string * string) :=
  match n, s with
  | O, _ => Some ("", s)
  | S n, String a s => '(t, s) ← split_at n s; Some (String a t, s)
  | S _, EmptyString => None
  end.
Definition read_text (s : string) : option (string * string) := '(n, s) ← read_unary s; split_at n s.

(** [n] things in a row. *)
Fixpoint read_many {A} (read : string -> option (A * string)) (n : nat) (s : string) : option (list A * string) :=
  match n with
  | O => Some ([], s)
  | S n => '(a, s) ← read s; '(l, s) ← read_many read n s; Some (a :: l, s)
  end.

Fixpoint read_value (fuel : nat) (s : string) : option (Value * string) :=
  match fuel, s with
  | S fuel, String tag s =>
      match tag with
      | "n" => Some (Null, s)
      | "t" => Some (Bool true, s)
      | "f" => Some (Bool false, s)
      | "p" => '(n, s) ← read_unary s; Some (Number (PosInt (N.of_nat n)), s)
      | "m" => '(n, s) ← read_unary s; '(m, s) ← read_unary s;
               Some (Number (NegInt (Z.of_nat n - Z.of_nat m)), s)
      | "d" => '(t, s) ← read_text s; Some (Number (FloatNum t), s)
      | "s" => '(t, s) ← read_text s; Some (Str t, s)
      | "a" => '(n, s) ← read_unary s; '(l, s) ← read_many (read_value fuel) n s; Some (Array l, s)
      | "o" => '(n, s) ← read_unary s;
               '(l, s) ← read_many (fun s => '(k, s) ← read_text s; '(v, s) ← read_value fuel s; Some ((k, v), s)) n s;
               Some (Object l, s)
      | _ => None
      end%char
  | _, _ => None
  end.

Lemma read_unary_app n rest : read_unary (unary n +:+ rest) = Some (n, rest).
Proof. induction n as [|n IH]; [done|]. cbn [unary]. rewrite string_app_cons. cbn [read_unary]. by rewrite IH. Qed.
Lemma split_at_app s rest : split_at (String.length s) (s +:+ rest) = Some (s, rest).
Proof. induction s as [|a s IH]; [done|]. rewrite string_app_cons. cbn. by rewrite IH. Qed.
Lemma read_text_app s rest : read_text (write_text s +:+ rest) = Some (s, rest).
Proof. unfold read_text, write_text. rewrite string_app_assoc, read_unary_app. apply split_at_app. Qed.

Lemma read_many_app {A} (read : string -> option (A * string)) (write : A -> string) l rest :
  Forall (fun a => forall rest, read (write a +:+ rest) = Some (a, rest)) l ->
  read_many read (List.length l) (foldr (fun a text => write a +:+ text) "" l +:+ rest) = Some (l, rest).
Proof.
  intros Hl. induction Hl as [|a l Ha _ IH]; [done|]. cbn [foldr List.length read_many].
  rewrite string_app_assoc, Ha. cbn. by rewrite IH.
Qed.

(** Induction that reaches the values inside arrays and objects. *)
Lemma value_ind' (P : Value -> Prop) :
  P Null -> (forall b, P (Bool b)) -> (forall n, P (Number n)) -> (forall s, P (Str s)) ->
  (forall l, Forall P l -> P (Array l)) -> (forall l, Forall (fun kv => P kv.2) l -> P (Object l)) ->
  forall v, P v.
Proof.
  intros Hn Hb Hnum Hs Ha Ho. fix IH 1. intros [|b|n|s|l|l]; [done|apply Hb|apply Hnum|apply Hs|apply Ha|apply Ho].
  - induction l as [|v l IHl]; constructor; [apply IH|exact IHl].
  - induction l as [|[k v] l IHl]; constructor; [apply IH|exact IHl].
Qed.

(** The nesting depth of a value is the fuel its reader needs. *)
Fixpoint depth (v : Value) : nat :=
  match v with
  | Array l => S (foldr (fun v n => Nat.max (depth v) n) 0 l)
  | Object l => S (foldr (fun kv n => Nat.max (depth kv.2) n) 0 l)
  | _ => 1
  end.

Lemma depth_below {A} (f : A -> nat) l a : a ∈ l -> f a <= foldr (fun a n => Nat.max (f a) n) 0 l.
Proof. induction 1; cbn; lia. Qed.

Lemma read_write_value v fuel rest : depth v <= fuel -> read_value fuel (write_value v +:+ rest) = Some (v, rest).
Proof.
  revert fuel rest. induction v as [|b|n|s|l IH|l IH] using value_ind'; intros [|fuel] rest Hd; try (cbn in Hd; lia).
  - done.
  - by destruct b.
  - destruct n as [n|n|s]; cbn [write_value]; rewrite string_app_cons; cbn [read_value].
    + rewrite read_unary_app. cbn. by rewrite N2Nat.id.
    + rewrite string_app_assoc, read_unary_app. cbn. rewrite read_unary_app. cbn. do 4 f_equal. lia.
    + by rewrite read_text_app.
  - cbn [write_value]. rewrite string_app_cons. cbn [read_value]. by rewrite read_text_app.
  - cbn [write_value]. rewrite string_app_cons. cbn [read_value]. rewrite string_app_assoc, read_unary_app. cbn [mbind option_bind].
    change ((fix items (l : list Value) := match l with [] => "" | v :: l => write_value v +:+ items l end) l)
      with (foldr (fun v text => write_value v +:+ text) "" l).
    rewrite (read_many_app (read_value fuel) write_value l rest); [done|].
    rewrite Forall_forall in *. intros v Hv k. apply IH; [done|]. pose proof (depth_below depth l v Hv). cbn in Hd. lia.
  - cbn [write_value]. rewrite string_app_cons. cbn [read_value]. rewrite string_app_assoc, read_unary_app. cbn [mbind option_bind].
    assert ((fix fields (l : list (string * Value)) :=
      match l with [] => "" | (k, v) :: l => write_text k +:+ write_value v +:+ fields l end) l =
      foldr (fun kv text => (write_text kv.1 +:+ write_value kv.2) +:+ text) "" l) as ->.
    { clear. induction l as [|[k v] l IHl]; [done|]. cbn [foldr fst snd]. rewrite IHl. by rewrite string_app_assoc. }
    rewrite (read_many_app _ (fun kv => write_text kv.1 +:+ write_value kv.2) l rest); [done|].
    rewrite Forall_forall in *. intros [k v] Hv t. rewrite string_app_assoc, read_text_app. cbn [mbind option_bind].
    rewrite (IH (k, v) Hv); [done|]. pose proof (depth_below (fun kv => depth kv.2) l (k, v) Hv). cbn in *. lia.
Qed.

Lemma read_whole_value v fuel : depth v <= fuel -> read_value fuel (write_value v) = Some (v, "").
Proof.
  intros Hd. pose proof (read_write_value v fuel "" Hd) as Hr.
  assert (write_value v +:+ "" = write_value v) as Hw by (clear; induction (write_value v) as [|a s IH]; [done|]; rewrite string_app_cons; by rewrite IH).
  by rewrite Hw in Hr.
Qed.

(** A value nested at most a thousand deep is read back from its text. *)
Definition parse_value (text : string) : option Value :=
  match read_value 1000 text with Some (v, "") => Some v | _ => None end.
Definition print_value (v : Value) : option string :=
  if Nat.leb (depth v) 1000 then Some (write_value v) else None.
Lemma parse_print v text : print_value v = Some text -> parse_value text = Some v.
Proof.
  unfold print_value, parse_value. destruct (Nat.leb_spec (depth v) 1000) as [Hd|]; [|done]. intros [= <-].
  by rewrite read_whole_value.
Qed.

#[export] Instance write_value_inj : Inj (=) (=) write_value.
Proof.
  intros v w Heq. pose proof (read_whole_value v (Nat.max (depth v) (depth w)) ltac:(lia)) as Hv.
  rewrite Heq, read_whole_value in Hv by lia. by injection Hv.
Qed.

#[export] Instance sample_json_crate : JsonCrate := {|
  to_vec := fun v => Some (write_value v);
  toolchain_value := fun t => Some (Str (ti_schema t))
|}.

Lemma sample_writes (v : Value) : is_Some (to_vec v).
Proof. by eexists. Qed.
Lemma sample_writes_inj (v w : Value) : to_vec v = to_vec w -> v = w.
Proof. cbn. intros [= Heq]. by apply (inj write_value) in Heq. Qed.

(** A digest of 64 hexadecimal digits that tells texts apart by their length. *)
Definition hex_digit (n : N) : ascii := ascii_of_N (if (n <? 10)%N then 48 + n else 87 + n).
Fixpoint hex_digits (width : nat) (n : N) : string :=
  match width with O => "" | S width => String (hex_digit (N.land n 15)) (hex_digits width (N.shiftr n 4)) end.
Definition length_digest (s : string) : string := hex_digits 64 (N.of_nat (String.length s)).

(** ** Witnesses of the identity theorems *)

Definition sample_modules : list (string * string) := [("lib", "module lib"); ("util", "module util")].

Lemma sample_short : Forall short (parts "app" "module app" sample_modules).
Proof. repeat constructor; by apply Z.ltb_lt. Defined.

(** A boundary that moves between the root and its source is seen. *)
Lemma snapshot_identity_exact_witness :
  Forall short (parts "app" "module app" sample_modules) /\
  source_snapshot_identity "app" "module app" sample_modules <>
  source_snapshot_identity "app" "module applib" [("", "module lib"); ("util", "module util")].
Proof.
  split; [exact sample_short|]. intros Heq.
  apply (@snapshot_identity_exact reference_crate reference_sha_inj) in Heq as (_ & ? & _);
    [done|exact sample_short|repeat constructor; by apply Z.ltb_lt].
Defined.

Definition sample_request_value (policy : string) : Value :=
  object [("target", Str VM_TARGET); ("optimization_policy", Str policy)].
Definition sample_build (roots : list (string * string)) : BuildRequest :=
  mkRequest (mkContract CONTRACT_V2 true false false false false false false false false) None
    [] "app" "module app" roots sample_modules.

(** Spelling out the default policy does not change the key. *)
Lemma application_key_exact_witness :
  application_cache_key (sample_request_value "default") CONTRACT_V2 "app"
    (source_snapshot_identity "app" "module app" sample_modules) sample_modules [] [("m", "f")] None None "p" =
  application_cache_key (object [("target", Str VM_TARGET)]) CONTRACT_V2 "app"
    (source_snapshot_identity "app" "module app" sample_modules) sample_modules [] [("m", "f")] None None "p".
Proof.
  apply (@application_key_exact reference_crate sample_seed_crate sample_json_crate reference_sha_inj
    sample_writes sample_writes_inj (sample_request_value "default") (object [("target", Str VM_TARGET)])
    (sample_build [("m", "f")]) (sample_build [("m", "f")]) None None "p" "p"); [exact sample_short..|].
  unfold same_settings. split_and!; reflexivity.
Defined.

Definition sample_hex : string := string_of_list_ascii (replicate 64 "a"%char).

Lemma cache_paths_confined_witness :
  application_cache_path_at "/cache" ("sha256:" +:+ sample_hex) = Some ("/cache/application-builds/" +:+ sample_hex +:+ ".json") /\
  path_parent ("/cache/application-builds/" +:+ sample_hex +:+ ".json") = Some "/cache/application-builds".
Proof.
  assert (application_cache_path_at "/cache" ("sha256:" +:+ sample_hex) =
    Some ("/cache/application-builds/" +:+ sample_hex +:+ ".json")) as Hp by reflexivity.
  split; [exact Hp|].
  apply (cache_paths_confined "/cache" 0 0 ("sha256:" +:+ sample_hex) ("sha256:" +:+ sample_hex)
    ("/cache/application-builds/" +:+ sample_hex +:+ ".json") "application-builds");
    [done|reflexivity|vm_compute; lia|exact Hp].
Defined.
