(* ===== verification/AppStore.v ===== *)
(** Files as the application cache writes them: a store of contents by path, the
    system calls that change it, and the sequence of stores other processes can
    observe.

    The calls are those of [publish_application_cache_with_ssa_facts] and
    [publish_application_cache_index] in
    [tools/stage0-probe/src/application.rs]; which of them fail, and what a
    failed write leaves, are parameters. *)

From S2P Require Export Json.

Abbreviation Store := (gmap string string).

(** The store, and every store there was, the last first. *)
Record Disk : Type := mkDisk { disk_store : Store; disk_seen : list Store }.

Definition Fs (A : Type) : Type := Disk -> Outcome string A * Disk.
#[export] Instance fs_ret : MRet Fs := fun A a disk => (Ok a, disk).
#[export] Instance fs_bind : MBind Fs := fun A B f m disk =>
  match m disk with
  | (Ok a, disk) => f a disk
  | (Err e, disk) => (Err e, disk)
  | (Panic message, disk) => (Panic message, disk)
  end.
Definition fs_err {A} (e : string) : Fs A := fun disk => (Err e, disk).
Definition fs_store : Fs Store := fun disk => (Ok (disk_store disk), disk).
Definition fs_put (store : Store) : Fs unit := fun disk => (Ok tt, mkDisk store (store :: disk_seen disk)).

Inductive FsCall : Type := FsRead | FsCreateDir | FsCreate | FsWrite | FsSync | FsRename | FsRemove.

Section Store.
Context (fails : FsCall -> string -> bool) (partial : string -> string).
Local Open Scope string_scope.

(** [fs::create_dir_all]: directories are not part of the store. *)
Definition create_dir_all (path : string) : Fs unit :=
  if fails FsCreateDir path then fs_err "create_dir_all" else mret tt.

(** [OpenOptions::new().write(true).create_new(true).open(path)]. *)
Definition create_new (path : string) : Fs unit :=
  store ← fs_store;
  if fails FsCreate path || bool_decide (is_Some (store !! path)) then fs_err "create_new"
  else fs_put (<[path := ""]> store).

(** A write of the whole content to a new file; one that fails leaves a part. *)
Definition write_all (path content : string) : Fs unit :=
  store ← fs_store;
  if fails FsWrite path then _ ← fs_put (<[path := partial content]> store); fs_err "write"
  else fs_put (<[path := content]> store).

Definition sync_all (path : string) : Fs unit := if fails FsSync path then fs_err "sync" else mret tt.

Definition fs_rename (source destination : string) : Fs unit :=
  store ← fs_store;
  match store !! source with
  | Some content =>
      if fails FsRename source then fs_err "rename"
      else fs_put (<[destination := content]> (delete source store))
  | None => fs_err "rename"
  end.

Definition fs_remove (path : string) : Fs unit :=
  store ← fs_store;
  if fails FsRemove path || negb (bool_decide (is_Some (store !! path))) then fs_err "remove_file"
  else fs_put (delete path store).

(** [fs::read(path).ok()]: no file, or a read that fails, is [None]. *)
Definition fs_read (path : string) (store : Store) : option string :=
  if fails FsRead path then None else store !! path.

(** [map_err(|error| format!("{what}: {error}"))]. *)
Definition map_err {A} (what : string) (m : Fs A) : Fs A := fun disk =>
  match m disk with
  | (Err e, disk) => (Err (what +:+ ": " +:+ e), disk)
  | done => done
  end.

(** Publication: write a new temporary file, rename it over the path; remove the
    temporary when a step failed.  The directory is synchronized on a best
    effort, which changes no file. *)
Definition publish_file (create write sync publish : string) (temp path : string) (content : option string) : Fs unit :=
  fun disk =>
    let steps : Fs unit :=
      _ ← map_err create (create_new temp);
      _ ← map_err write (match content with
                         | Some content => write_all temp content
                         | None => _ ← write_all temp ""; fs_err "serialize"
                         end);
      _ ← map_err sync (sync_all temp);
      map_err publish (fs_rename temp path) in
    match steps disk with
    | (Ok a, disk) => (Ok a, disk)
    | (e, disk) => (e, (fs_remove temp disk).2)
    end.
End Store.
