(* ===== verification/AppCache.v ===== *)
(** The application cache: [tools/stage0-probe/src/application.rs], from
    [ApplicationCacheEntry] and [ApplicationCachePublishEntry] to
    [publish_application_cache_index].  Definitions only.

    Language facts and caches are values of the language crates; a [Codec] is
    their derived [Serialize] and [Deserialize]. *)

From Stdlib Require Import String.
From S2P Require Export AppKeys AppStore.

Local Open Scope string_scope.
Local Open Scope list_scope.

(** [serde_json::to_string] and [serde_json::from_str] of a type: what is
    written is read back. *)
Class Codec (A : Type) := {
  to_json : A -> option string;
  of_json : string -> option A;
  of_to_json : forall a s, to_json a = Some s -> of_json s = Some a
}.

(** A fact about an SSA function, the opaque payload that [Emission] passes on. *)
Definition SsaFunctionVerificationFact : Type := string.

(** The types of the language crates that a cache entry carries. *)
Class FactCrate := {
  VerificationFact : Type;
  DeclarationVerificationFact : Type;
  SourceParseCache : Type;
  SsaFunctionArtifactCache : Type;
  ModuleElaborationCache : Type;
  source_parse_cache_default : SourceParseCache;
  ssa_function_artifact_cache_default : SsaFunctionArtifactCache;
  module_elaboration_cache_default : ModuleElaborationCache;
  VERIFICATION_FACT_SCHEMA_VERSION : string;
  #[global] response_codec :: Codec Value;
  #[global] verification_fact_codec :: Codec (list VerificationFact);
  #[global] declaration_fact_codec :: Codec (list DeclarationVerificationFact);
  #[global] source_parse_cache_codec :: Codec SourceParseCache;
  #[global] ssa_fact_codec :: Codec (list SsaFunctionVerificationFact);
  #[global] ssa_artifact_codec :: Codec SsaFunctionArtifactCache;
  #[global] module_elaboration_codec :: Codec ModuleElaborationCache
}.

(** An entry as it is read: the sections are still text. *)
Record ApplicationCacheEntry : Type := mkAppEntry {
  ae_schema_version : string;
  ae_key : string;
  ae_language_verification_fact_schema : option string;
  ae_response_sha256 : string; ae_response : string;
  ae_verification_facts_sha256 : string; ae_verification_facts : string;
  ae_declaration_verification_facts_sha256 : option string;
  ae_declaration_verification_facts : option string;
  ae_source_parse_cache_sha256 : option string;
  ae_source_parse_cache : option string;
  ae_finite_type_declaration_verification_facts_sha256 : option string;
  ae_finite_type_declaration_verification_facts : option string;
  ae_record_type_declaration_verification_facts_sha256 : option string;
  ae_record_type_declaration_verification_facts : option string;
  ae_ssa_function_verification_facts_sha256 : option string;
  ae_ssa_function_verification_facts : option string;
  ae_ssa_function_artifact_cache_sha256 : option string;
  ae_ssa_function_artifact_cache : option string;
  ae_module_elaboration_cache_sha256 : option string;
  ae_module_elaboration_cache : option string
}.

(** An entry as it is published. *)
Record ApplicationCachePublishEntry `{FactCrate} : Type := mkPublishEntry {
  pe_schema_version : string;
  pe_key : string;
  pe_language_verification_fact_schema : string;
  pe_response_sha256 : string; pe_response : Value;
  pe_verification_facts_sha256 : string; pe_verification_facts : list VerificationFact;
  pe_declaration_verification_facts_sha256 : string;
  pe_declaration_verification_facts : list DeclarationVerificationFact;
  pe_source_parse_cache_sha256 : string; pe_source_parse_cache : SourceParseCache;
  pe_finite_type_declaration_verification_facts_sha256 : option string;
  pe_finite_type_declaration_verification_facts : option (list DeclarationVerificationFact);
  pe_record_type_declaration_verification_facts_sha256 : option string;
  pe_record_type_declaration_verification_facts : option (list DeclarationVerificationFact);
  pe_ssa_function_verification_facts_sha256 : option string;
  pe_ssa_function_verification_facts : option (list SsaFunctionVerificationFact);
  pe_ssa_function_artifact_cache_sha256 : option string;
  pe_ssa_function_artifact_cache : option SsaFunctionArtifactCache;
  pe_module_elaboration_cache_sha256 : option string;
  pe_module_elaboration_cache : option ModuleElaborationCache
}.
Arguments mkPublishEntry {_} &.

(** The text of an optional section: absent, or what its codec writes. *)
Definition section_text {A} `{Codec A} (a : option A) : option (option string) :=
  match a with None => Some None | Some a => Some <$> to_json a end.

(** The entry a reader finds in a published file: each section is the text its
    codec writes, and absent sections are skipped. *)
Definition published_view `{FactCrate} (e : ApplicationCachePublishEntry) : option ApplicationCacheEntry :=
  response ← to_json (pe_response e);
  facts ← to_json (pe_verification_facts e);
  declarations ← to_json (pe_declaration_verification_facts e);
  parse ← to_json (pe_source_parse_cache e);
  finite ← section_text (pe_finite_type_declaration_verification_facts e);
  records ← section_text (pe_record_type_declaration_verification_facts e);
  ssa_facts ← section_text (pe_ssa_function_verification_facts e);
  ssa_artifacts ← section_text (pe_ssa_function_artifact_cache e);
  elaborations ← section_text (pe_module_elaboration_cache e);
  Some (mkAppEntry (pe_schema_version e) (pe_key e) (Some (pe_language_verification_fact_schema e))
    (pe_response_sha256 e) response (pe_verification_facts_sha256 e) facts
    (Some (pe_declaration_verification_facts_sha256 e)) (Some declarations)
    (Some (pe_source_parse_cache_sha256 e)) (Some parse)
    (pe_finite_type_declaration_verification_facts_sha256 e) finite
    (pe_record_type_declaration_verification_facts_sha256 e) records
    (pe_ssa_function_verification_facts_sha256 e) ssa_facts
    (pe_ssa_function_artifact_cache_sha256 e) ssa_artifacts
    (pe_module_elaboration_cache_sha256 e) elaborations).

(** [serde_json] on whole entries and on index records. *)
Class EntryCrate `{FactCrate} := {
  encode_entry : ApplicationCachePublishEntry -> option string;
  decode_entry : string -> option ApplicationCacheEntry;
  from_slice : string -> option Value;
  entry_round_trip : forall e text,
    encode_entry e = Some text -> exists view, published_view e = Some view /\ decode_entry text = Some view
}.

Definition ENTRY_V4 : string := "mncs.compiler.application-build-cache-entry/4".
Definition ENTRY_V5 : string := "mncs.compiler.application-build-cache-entry/5".
Definition ENTRY_V6 : string := "mncs.compiler.application-build-cache-entry/6".
Definition ENTRY_V7 : string := "mncs.compiler.application-build-cache-entry/7".
Definition ENTRY_V8 : string := "mncs.compiler.application-build-cache-entry/8".
Definition ENTRY_V9 : string := "mncs.compiler.application-build-cache-entry/9".
Definition ENTRY_V10 : string := "mncs.compiler.application-build-cache-entry/10".
Definition ENTRY_V11 : string := "mncs.compiler.application-build-cache-entry/11".
Definition ENTRY_V12 : string := "mncs.compiler.application-build-cache-entry/12".
Definition entry_schemas : list string :=
  [ENTRY_V4; ENTRY_V5; ENTRY_V6; ENTRY_V7; ENTRY_V8; ENTRY_V9; ENTRY_V10; ENTRY_V11; ENTRY_V12].

Definition VM_ARTIFACT_SCHEMA : string := "mncs.vm.artifact/1".

(** What a hit returns. *)
Record CachedApplication `{FactCrate} : Type := mkCached {
  ca_response : Value;
  ca_verification_facts : list VerificationFact;
  ca_declaration_verification_facts : list DeclarationVerificationFact;
  ca_record_type_declaration_verification_facts : list DeclarationVerificationFact;
  ca_source_parse_cache : SourceParseCache;
  ca_ssa_function_verification_facts : list SsaFunctionVerificationFact;
  ca_ssa_function_artifact_cache : SsaFunctionArtifactCache;
  ca_module_elaboration_cache : ModuleElaborationCache
}.
Arguments mkCached {_} &.

Section Cache.
Context `{ModelCrate, SeedCrate, JsonCrate, FactCrate, !EntryCrate}.

(** ** Reading *)

(** One optional section: present with its digest in a version of [present],
    absent from a version of [absent]. *)
Definition read_section {A} `{Codec A} (present absent : list string) (dflt : A)
  (schema : string) (digest raw : option string) : option A :=
  match digest, raw with
  | Some expected, Some raw =>
      if one_of schema present then if String.eqb expected (sha256 raw) then of_json raw else None else None
  | None, None => if one_of schema absent then Some dflt else None
  | _, _ => None
  end.

Definition read_declaration_facts (entry : ApplicationCacheEntry) : option (list DeclarationVerificationFact) :=
  read_section entry_schemas [ENTRY_V4] [] (ae_schema_version entry)
    (ae_declaration_verification_facts_sha256 entry) (ae_declaration_verification_facts entry).

Definition read_source_parse_cache (entry : ApplicationCacheEntry) : option SourceParseCache :=
  read_section [ENTRY_V6; ENTRY_V7; ENTRY_V8; ENTRY_V9; ENTRY_V10; ENTRY_V11; ENTRY_V12] [ENTRY_V4; ENTRY_V5]
    source_parse_cache_default (ae_schema_version entry)
    (ae_source_parse_cache_sha256 entry) (ae_source_parse_cache entry).

Definition read_finite_type_facts (entry : ApplicationCacheEntry) : option (list DeclarationVerificationFact) :=
  read_section [ENTRY_V7; ENTRY_V8; ENTRY_V9; ENTRY_V10; ENTRY_V11; ENTRY_V12]
    [ENTRY_V4; ENTRY_V5; ENTRY_V6; ENTRY_V11; ENTRY_V12] [] (ae_schema_version entry)
    (ae_finite_type_declaration_verification_facts_sha256 entry)
    (ae_finite_type_declaration_verification_facts entry).

Definition read_record_type_facts (entry : ApplicationCacheEntry) : option (list DeclarationVerificationFact) :=
  read_section [ENTRY_V8; ENTRY_V9; ENTRY_V10; ENTRY_V11; ENTRY_V12]
    [ENTRY_V4; ENTRY_V5; ENTRY_V6; ENTRY_V7; ENTRY_V11; ENTRY_V12] [] (ae_schema_version entry)
    (ae_record_type_declaration_verification_facts_sha256 entry)
    (ae_record_type_declaration_verification_facts entry).

Definition read_ssa_function_facts (entry : ApplicationCacheEntry) : option (list SsaFunctionVerificationFact) :=
  read_section [ENTRY_V9; ENTRY_V10; ENTRY_V11; ENTRY_V12]
    [ENTRY_V4; ENTRY_V5; ENTRY_V6; ENTRY_V7; ENTRY_V8; ENTRY_V11; ENTRY_V12] [] (ae_schema_version entry)
    (ae_ssa_function_verification_facts_sha256 entry) (ae_ssa_function_verification_facts entry).

Definition read_ssa_artifact_cache (entry : ApplicationCacheEntry) : option SsaFunctionArtifactCache :=
  read_section [ENTRY_V10; ENTRY_V11; ENTRY_V12]
    [ENTRY_V4; ENTRY_V5; ENTRY_V6; ENTRY_V7; ENTRY_V8; ENTRY_V9; ENTRY_V11; ENTRY_V12]
    ssa_function_artifact_cache_default (ae_schema_version entry)
    (ae_ssa_function_artifact_cache_sha256 entry) (ae_ssa_function_artifact_cache entry).

Definition read_module_elaboration_cache (entry : ApplicationCacheEntry) : option ModuleElaborationCache :=
  read_section [ENTRY_V12]
    [ENTRY_V4; ENTRY_V5; ENTRY_V6; ENTRY_V7; ENTRY_V8; ENTRY_V9; ENTRY_V10; ENTRY_V11]
    module_elaboration_cache_default (ae_schema_version entry)
    (ae_module_elaboration_cache_sha256 entry) (ae_module_elaboration_cache entry).

(** The entry is of a known version, under this key, and states the fact schema
    exactly from version 11 on. *)
Definition entry_admissible (entry : ApplicationCacheEntry) (key : string) : bool :=
  one_of (ae_schema_version entry) entry_schemas && String.eqb (ae_key entry) key
  && (if one_of (ae_schema_version entry) [ENTRY_V11; ENTRY_V12]
      then bool_decide (ae_language_verification_fact_schema entry = Some VERIFICATION_FACT_SCHEMA_VERSION)
      else bool_decide (ae_language_verification_fact_schema entry = None)).

(** The final checks on the response. *)
Definition response_admissible (response : Value) (expected_contract : string)
  (expected_source_identity : option string) (probe_identity : string) (toolchain : option ToolchainIdentity) : bool :=
  match pointer_str ["source_snapshot"; "identity"] response with
  | None => false
  | Some cached_source_identity =>
      bool_decide (is_Some (strip_prefix "sha256:" cached_source_identity))
      && bool_decide (get_str "schema_version" response = Some expected_contract)
      && bool_decide (get_str "status" response = Some "verified")
      && match expected_source_identity with
         | Some expected => String.eqb expected cached_source_identity
         | None => true
         end
      && bool_decide (pointer_str ["producer"; "probe"; "probe_executable_sha256"] response = Some probe_identity)
      && bool_decide (pointer_str ["artifact"; "schema_version"] response = Some VM_ARTIFACT_SCHEMA)
      && bool_decide (pointer_str ["artifact"; "value"; "schema_version"] response = Some VM_ARTIFACT_SCHEMA)
      && bool_decide (pointer ["artifact"; "identity"] response = pointer ["artifact"; "value"; "artifact_id"] response)
      && bool_decide (pointer_str ["entry"; "status"] response = Some "verified")
      && bool_decide (pointer ["producer"; "stage0_toolchain"] response = toolchain ≫= toolchain_value)
  end.

Definition read_application_cache_with_facts (fails : FsCall -> string -> bool) (store : Store) (path key expected_contract : string)
  (expected_source_identity : option string) (probe_identity : string) (toolchain : option ToolchainIdentity)
  : option CachedApplication :=
  bytes ← fs_read fails path store;
  entry ← decode_entry bytes;
  if negb (entry_admissible entry key) then None
  else if negb (String.eqb (ae_response_sha256 entry) (sha256 (ae_response entry))) then None
  else if negb (String.eqb (ae_verification_facts_sha256 entry) (sha256 (ae_verification_facts entry))) then None
  else
  verification_facts ← of_json (ae_verification_facts entry);
  declaration_verification_facts ← read_declaration_facts entry;
  source_parse_cache ← read_source_parse_cache entry;
  finite_type_declaration_verification_facts ← read_finite_type_facts entry;
  record_type_declaration_verification_facts ← read_record_type_facts entry;
  ssa_function_verification_facts ← read_ssa_function_facts entry;
  ssa_function_artifact_cache ← read_ssa_artifact_cache entry;
  module_elaboration_cache ← read_module_elaboration_cache entry;
  response ← of_json (ae_response entry);
  if negb (response_admissible response expected_contract expected_source_identity probe_identity toolchain) then None
  else
  Some (mkCached response verification_facts
    (declaration_verification_facts ++ finite_type_declaration_verification_facts)
    record_type_declaration_verification_facts source_parse_cache ssa_function_verification_facts
    ssa_function_artifact_cache module_elaboration_cache).

Definition read_application_cache (fails : FsCall -> string -> bool) (store : Store) (path key expected_contract : string)
  (expected_source_identity : option string) (probe_identity : string) (toolchain : option ToolchainIdentity)
  : option Value :=
  ca_response <$> read_application_cache_with_facts fails store path key expected_contract expected_source_identity
    probe_identity toolchain.

(** ** Publishing *)

Definition sha256_serialized {A} `{Codec A} (what : string) (a : A) : Outcome string string :=
  text ← ok_or (what +:+ ": serialize") (to_json a); Ok (sha256 text).
Definition sha256_optional {A} `{Codec A} (what : string) (a : option A) : Outcome string (option string) :=
  match a with None => Ok None | Some a => Some <$> sha256_serialized what a end.

Definition cache_entry (key : string) (response : Value) (verification_facts : list VerificationFact)
  (declaration_verification_facts : list DeclarationVerificationFact)
  (finite_type_facts record_type_facts : option (list DeclarationVerificationFact))
  (source_parse_cache : SourceParseCache) (ssa_function_facts : option (list SsaFunctionVerificationFact))
  (ssa_artifact_cache : option SsaFunctionArtifactCache) (elaboration_cache : option ModuleElaborationCache)
  : Outcome string ApplicationCachePublishEntry :=
  finite_sha ← sha256_optional "hash cached Language finite-type declaration facts" finite_type_facts;
  ssa_facts_sha ← sha256_optional "hash cached Language SSA function facts" ssa_function_facts;
  ssa_artifacts_sha ← sha256_optional "hash cached Language SSA function artifacts" ssa_artifact_cache;
  elaborations_sha ← sha256_optional "hash cached Language module elaborations" elaboration_cache;
  response_sha ← sha256_serialized "hash cached response" response;
  facts_sha ← sha256_serialized "hash cached Language verification facts" verification_facts;
  declarations_sha ← sha256_serialized "hash cached Language declaration facts" declaration_verification_facts;
  parse_sha ← sha256_serialized "hash cached Language source parse cache" source_parse_cache;
  records_sha ← sha256_optional "hash cached Language record-type declaration facts" record_type_facts;
  Ok (mkPublishEntry (if bool_decide (is_Some elaboration_cache) then ENTRY_V12 else ENTRY_V11) key
    VERIFICATION_FACT_SCHEMA_VERSION response_sha response facts_sha verification_facts
    declarations_sha declaration_verification_facts parse_sha source_parse_cache
    finite_sha finite_type_facts records_sha record_type_facts ssa_facts_sha ssa_function_facts
    ssa_artifacts_sha ssa_artifact_cache elaborations_sha elaboration_cache).

Fixpoint trim_start_matches (fuel : nat) (prefix s : string) : string :=
  match fuel with
  | O => s
  | S fuel => match strip_prefix prefix s with Some s => trim_start_matches fuel prefix s | None => s end
  end.

(** [now] is the clock in nanoseconds, [nonce] the process-wide counter. *)
Definition temp_name (key : string) (pid now nonce : Z) : string :=
  "." +:+ trim_start_matches (String.length key) "sha256:" key +:+ "." +:+ pretty pid +:+ "." +:+ pretty now
    +:+ "." +:+ pretty nonce +:+ ".tmp".

Section Publish.
Context (fails : FsCall -> string -> bool) (partial : string -> string) (pid now nonce : Z).

Definition lift {A} (m : Outcome string A) : Fs A := fun disk => (m, disk).

Definition publish_application_cache_with_ssa_facts (path key : string) (response : Value)
  (verification_facts : list VerificationFact) (declaration_verification_facts : list DeclarationVerificationFact)
  (finite_type_facts record_type_facts : option (list DeclarationVerificationFact))
  (source_parse_cache : SourceParseCache) (ssa_function_facts : option (list SsaFunctionVerificationFact))
  (ssa_artifact_cache : option SsaFunctionArtifactCache) (elaboration_cache : option ModuleElaborationCache) : Fs unit :=
  parent ← lift (ok_or "cache path has no parent" (path_parent path));
  _ ← map_err "create cache directory" (create_dir_all fails parent);
  entry ← lift (cache_entry key response verification_facts declaration_verification_facts finite_type_facts
    record_type_facts source_parse_cache ssa_function_facts ssa_artifact_cache elaboration_cache);
  publish_file fails partial "create temporary cache entry" "write temporary cache entry"
    "sync temporary cache entry" "publish cache entry"
    (path_join parent (temp_name key pid now nonce)) path (encode_entry entry).

Definition INDEX_SCHEMA : string := "mncs.compiler.application-build-cache-index/2".

Definition index_entry (key candidate_key : string) : Value :=
  object [("schema_version", Str INDEX_SCHEMA); ("key", Str key); ("candidate_key", Str candidate_key)].

Definition publish_application_cache_index (path key candidate_key : string) : Fs unit :=
  parent ← lift (ok_or "cache index path has no parent" (path_parent path));
  _ ← map_err "create cache index directory" (create_dir_all fails parent);
  encoded ← lift (ok_or "encode cache index" (to_vec (index_entry key candidate_key)));
  publish_file fails partial "create temporary cache index" "write temporary cache index"
    "sync temporary cache index" "publish cache index"
    (path_join parent (temp_name key pid now nonce)) path (Some encoded).
End Publish.

(** The index is read up to one byte more than an index may have. *)
Definition read_application_cache_index (fails : FsCall -> string -> bool) (store : Store) (path key : string) : option string :=
  file ← fs_read fails path store;
  let bytes := string_take (MAX_APPLICATION_CACHE_INDEX_BYTES + 1) file in
  if Nat.ltb MAX_APPLICATION_CACHE_INDEX_BYTES (String.length bytes) then None
  else
  entry ← from_slice bytes;
  if negb (bool_decide (get_str "schema_version" entry = Some INDEX_SCHEMA))
     || negb (bool_decide (get_str "key" entry = Some key))
  then None
  else
  candidate_key ← get_str "candidate_key" entry;
  _ ← sha256_cache_key_hex candidate_key;
  Some candidate_key.
End Cache.
