(* ===== verification/AppCacheTheorems.v ===== *)
(** The application cache: publication is atomic, what is published is what is
    read, and what is read is authentic. *)

From Stdlib Require Import Ascii String.
From S2P Require Export AppSamples AppCache AppKeysTheorems.

Local Open Scope string_scope.
Local Open Scope list_scope.

(** A codec through JSON values. *)
Definition value_codec {A} (write : A -> Value) (read : Value -> option A) (Hread : forall a, read (write a) = Some a)
  : Codec A.
Proof.
  refine {| to_json := fun a => print_value (write a); of_json := fun text => parse_value text ≫= read |}.
  intros a text Hp%parse_print. by rewrite Hp; cbn.
Defined.

Definition strings_of (v : Value) : option (list string) := l ← as_array v; mapM as_str l.
Lemma strings_of_strings l : strings_of (strings l) = Some l.
Proof. unfold strings_of, strings. cbn. induction l as [|s l IH]; [done|]. cbn. by rewrite IH. Qed.

Definition whole_codec : Codec Value := value_codec id Some (fun _ => eq_refl).
Definition string_codec : Codec string := value_codec Str as_str (fun _ => eq_refl).
Definition strings_codec : Codec (list string) := value_codec strings strings_of strings_of_strings.

Definition sample_fact_crate : FactCrate := {|
  VerificationFact := string; DeclarationVerificationFact := string; SourceParseCache := string;
  SsaFunctionArtifactCache := string; ModuleElaborationCache := string;
  source_parse_cache_default := ""; ssa_function_artifact_cache_default := "";
  module_elaboration_cache_default := ""; VERIFICATION_FACT_SCHEMA_VERSION := "mncs.language-verification-fact/1";
  response_codec := whole_codec; verification_fact_codec := strings_codec;
  declaration_fact_codec := strings_codec; source_parse_cache_codec := string_codec; ssa_fact_codec := strings_codec;
  ssa_artifact_codec := string_codec; module_elaboration_codec := string_codec
|}.

(** An entry as an array of its fields. *)
Definition text_value (s : option string) : Value := match s with Some s => Str s | None => Null end.
Definition value_text (v : Value) : option (option string) :=
  match v with Str s => Some (Some s) | Null => Some None | _ => None end.
Definition view_value (e : ApplicationCacheEntry) : Value := Array (map text_value [
  Some (ae_schema_version e); Some (ae_key e); ae_language_verification_fact_schema e;
  Some (ae_response_sha256 e); Some (ae_response e);
  Some (ae_verification_facts_sha256 e); Some (ae_verification_facts e);
  ae_declaration_verification_facts_sha256 e; ae_declaration_verification_facts e;
  ae_source_parse_cache_sha256 e; ae_source_parse_cache e;
  ae_finite_type_declaration_verification_facts_sha256 e; ae_finite_type_declaration_verification_facts e;
  ae_record_type_declaration_verification_facts_sha256 e; ae_record_type_declaration_verification_facts e;
  ae_ssa_function_verification_facts_sha256 e; ae_ssa_function_verification_facts e;
  ae_ssa_function_artifact_cache_sha256 e; ae_ssa_function_artifact_cache e;
  ae_module_elaboration_cache_sha256 e; ae_module_elaboration_cache e]).
Definition value_view (v : Value) : option ApplicationCacheEntry :=
  l ← as_array v; l ← mapM value_text l;
  match l with
  | [Some schema; Some key; fact_schema; Some a; Some b; Some c; Some d; e; f; g; h; i; j; k; l; m; n; o; p; q; r] =>
      Some (mkAppEntry schema key fact_schema a b c d e f g h i j k l m n o p q r)
  | _ => None
  end.
Lemma view_value_view e : value_view (view_value e) = Some e.
Proof.
  unfold value_view, view_value. cbn [as_array mbind option_bind].
  assert (forall l, mapM value_text (map text_value l) = Some l) as ->.
  { intros l. induction l as [|[s|] l IH]; [done|..]; cbn; by rewrite IH. }
  by destruct e.
Qed.

Definition sample_entry_crate : @EntryCrate sample_fact_crate.
Proof.
  refine {| encode_entry := fun e => view ← published_view e; print_value (view_value view);
            decode_entry := fun text => parse_value text ≫= value_view;
            from_slice := parse_value |}.
  intros e text (view & Hview & Hp%parse_print)%bind_Some. exists view. split; [done|]. rewrite Hp. apply view_value_view.
Defined.

(** ** What is published and read *)

(** ** Publication *)

Section Atomic.
Context (fails : FsCall -> string -> bool) (partial : string -> string) (temp path : string) (content : option string)
  (store : Store).

(** Other processes see the old files, or the old ones and the new content. *)
Definition old_or_new (s : Store) : Prop :=
  delete temp s = delete temp store \/
  exists text, content = Some text /\ delete temp s = <[path := text]> (delete temp store).

Lemma old_or_new_temp s x : delete temp s = delete temp store -> old_or_new (<[temp := x]> s).
Proof. intros Hs. left. by rewrite delete_insert_eq. Qed.

Lemma publish_file_atomic create write sync publish seen :
  temp <> path ->
  let '(r, disk) := publish_file fails partial create write sync publish temp path content (mkDisk store seen) in
  (exists news, disk_seen disk = news ++ seen /\ Forall old_or_new news) /\
  match r with
  | Ok _ => exists text, content = Some text /\ disk_store disk = <[path := text]> store /\ store !! temp = None
  | Err _ =>
      delete temp (disk_store disk) = delete temp store /\
      (fails FsRemove temp = false -> disk_store disk !! temp = None)
  | Panic _ => False
  end.
Proof.
  intros Hne. unfold publish_file, fs_remove.
  set (steps := (_ ← map_err create (create_new fails temp); _)).
  assert (Hsteps : let '(r, disk) := steps (mkDisk store seen) in
    (exists news, disk_seen disk = news ++ seen /\ Forall old_or_new news) /\
    match r with
    | Ok _ => exists text, content = Some text /\ disk_store disk = <[path := text]> store /\ store !! temp = None
    | Err _ => delete temp (disk_store disk) = delete temp store
    | Panic _ => False
    end).
  { unfold steps, map_err, create_new, write_all, sync_all, fs_rename, fs_store, fs_put, fs_err, mbind, fs_bind.
    cbn [disk_store disk_seen].
    destruct (fails FsCreate temp || _) eqn:Ec; [split; [by exists []|done]|].
    apply orb_false_iff in Ec as [_ Hfresh%bool_decide_eq_false]. rewrite <- eq_None_not_Some in Hfresh.
    cbn [disk_store disk_seen].
    assert (Hcreated : old_or_new (<[temp := ""]> store)) by by apply old_or_new_temp.
    assert (Hwrite : forall x y, old_or_new (<[temp := x]> (<[temp := y]> store)))
      by (intros x y; apply old_or_new_temp; by rewrite delete_insert_eq).
    destruct content as [text|] eqn:Econtent; cbn [disk_store disk_seen].
    - destruct (fails FsWrite temp); cbn [disk_store disk_seen].
      { split; [|by rewrite !delete_insert_eq].
        exists [<[temp := partial text]> (<[temp := ""]> store); <[temp := ""]> store]. split; [done|].
        by rewrite ?Forall_cons, Forall_nil; auto. }
      destruct (fails FsSync temp); cbn [disk_store disk_seen mret fs_ret].
      { split; [|by rewrite !delete_insert_eq].
        exists [<[temp := text]> (<[temp := ""]> store); <[temp := ""]> store]. split; [done|].
        by rewrite ?Forall_cons, Forall_nil; auto. }
      rewrite lookup_insert_eq. destruct (fails FsRename temp); cbn [disk_store disk_seen].
      { split; [|by rewrite !delete_insert_eq].
        exists [<[temp := text]> (<[temp := ""]> store); <[temp := ""]> store]. split; [done|].
        by rewrite ?Forall_cons, Forall_nil; auto. }
      rewrite !delete_insert_eq, delete_id by done. split; [|by exists text].
      exists [<[path := text]> store; <[temp := text]> (<[temp := ""]> store); <[temp := ""]> store].
      split; [done|]. rewrite !Forall_cons, Forall_nil. split_and!; auto. right. exists text. split; [done|].
      by rewrite delete_insert_ne.
    - destruct (fails FsWrite temp); cbn [disk_store disk_seen];
        (split; [|by rewrite !delete_insert_eq]).
      + exists [<[temp := partial ""]> (<[temp := ""]> store); <[temp := ""]> store]. split; [done|].
        by rewrite ?Forall_cons, Forall_nil; auto.
      + exists [<[temp := ""]> (<[temp := ""]> store); <[temp := ""]> store]. split; [done|].
        by rewrite ?Forall_cons, Forall_nil; auto. }
  destruct (steps (mkDisk store seen)) as [[a|e|m] [s seen']]; [done| |by destruct Hsteps].
  destruct Hsteps as [(news & Hseen & Hnews) Hs]. cbn [disk_seen disk_store] in *. subst seen'.
  unfold mbind, fs_bind, fs_store, fs_err, fs_put. cbn [disk_store disk_seen].
  destruct (fails FsRemove temp) eqn:Er; cbn [orb snd disk_store disk_seen].
  { split; [by exists news|done]. }
  destruct (bool_decide (is_Some (s !! temp))) eqn:Et; cbn [negb snd disk_store disk_seen].
  - split; [exists (delete temp s :: news); split; [done|constructor; [|done]]|].
    + left. by rewrite delete_delete_eq.
    + rewrite delete_delete_eq, lookup_delete_eq. done.
  - split; [by exists news|]. split; [done|]. intros _.
    apply bool_decide_eq_false in Et. by apply eq_None_not_Some.
Qed.
End Atomic.

Lemma strip_prefix_hex hex :
  string_forallb is_ascii_hexdigit hex = true -> strip_prefix "sha256:" hex = None.
Proof.
  destruct hex as [|a hex]; [done|]. unfold string_forallb. cbn [list_ascii_of_string forallb strip_prefix].
  intros [Ha _]%andb_true_iff. destruct (Ascii.eqb_spec "s"%char a) as [<-|]; [done|done].
Qed.

Lemma trim_key hex fuel :
  string_forallb is_ascii_hexdigit hex = true ->
  trim_start_matches (S fuel) "sha256:" ("sha256:" +:+ hex) = hex.
Proof.
  intros Hh. cbn [trim_start_matches]. rewrite strip_prefix_self.
  destruct fuel; [done|]. cbn [trim_start_matches]. by rewrite strip_prefix_hex.
Qed.

(** The temporary file of a cache file is another file. *)
Lemma temp_name_ne i root directory key path pid now nonce :
  root <> "" -> cache_directories !! i = Some directory -> cache_file i root key = Some path ->
  path_join (path_join root directory) (temp_name key pid now nonce) <> path.
Proof.
  intros Hr Hd Hf Heq. destruct (cache_file_split i directory root key path Hr Hd Hf) as (hex & Hh & Hs).
  pose proof (cache_paths_dir i root directory key path Hr Hd Hf) as (hex' & Hh' & Hp).
  rewrite Hh in Hh'. injection Hh' as <-. subst path.
  destruct (path_join_app (path_join root directory)) as [prefix Hj].
  { destruct (path_join_app root Hr) as [prefix Hj]. rewrite Hj. destruct i as [|[|[|i]]]; [..|done]; injection Hd as <-; by destruct prefix. }
  rewrite !Hj in Hp. apply string_app_inv_head in Hp. unfold temp_name in Hp.
  apply cache_key_hex_spec in Hh as (_ & Hl & Hh). destruct hex as [|a hex]; [done|].
  rewrite string_app_cons in Hp. change "." with (String "."%char "") in Hp.
  rewrite string_app_cons in Hp. injection Hp as <- _. done.
Qed.

(** ** The directories of the cache *)

Definition inside (root directory file : string) : Prop := exists name, file = path_join (path_join root directory) name.

Lemma cache_file_inside i root directory key path :
  root <> "" -> cache_directories !! i = Some directory -> cache_file i root key = Some path -> inside root directory path.
Proof. intros Hr Hd Hf. destruct (cache_paths_dir i root directory key path Hr Hd Hf) as (hex & _ & ->). by eexists. Qed.

Lemma inside_disjoint root i j d d' file :
  root <> "" -> cache_directories !! i = Some d -> cache_directories !! j = Some d' ->
  inside root d file -> inside root d' file -> i = j.
Proof.
  intros Hr Hd Hd' [name ->] [name' Heq]. destruct (path_join_app root Hr) as [prefix Hp].
  assert (Hne : forall i d, cache_directories !! i = Some d -> prefix +:+ d <> "").
  { intros k e He. destruct k as [|[|[|k]]]; [..|done]; injection He as <-; by destruct prefix. }
  assert (Hsplit : forall i d name, cache_directories !! i = Some d -> exists tail,
    path_join (path_join root d) name = prefix +:+ (d +:+ tail)).
  { intros k e n He. rewrite Hp. unfold path_join. rewrite (proj2 (String.eqb_neq _ _) (Hne k e He)).
    case_bool_decide; [exists n|exists ("/" +:+ n)]; by rewrite string_app_assoc. }
  destruct (Hsplit i d name Hd) as [tail Ht]. destruct (Hsplit j d' name' Hd') as [tail' Ht'].
  rewrite Ht, Ht' in Heq. apply string_app_inv_head in Heq.
  destruct i as [|[|[|i]]]; [..|done]; destruct j as [|[|[|j]]]; try done; injection Hd as <-; injection Hd' as <-;
    rewrite !string_app_cons in Heq; discriminate Heq.
Qed.

Section Cache.
Context `{ModelCrate, SeedCrate, JsonCrate, FactCrate, !EntryCrate}.

(** ** What a publication leaves *)

Section Publish.
Context (fails : FsCall -> string -> bool) (partial : string -> string) (pid now nonce : Z).
Context (root key path : string) (response : Value) (facts : list VerificationFact)
  (declarations : list DeclarationVerificationFact) (finite records : option (list DeclarationVerificationFact))
  (parse : SourceParseCache) (ssa_facts : option (list SsaFunctionVerificationFact))
  (ssa_artifacts : option SsaFunctionArtifactCache) (elaborations : option ModuleElaborationCache).

Definition publish : Fs unit :=
  publish_application_cache_with_ssa_facts fails partial pid now nonce path key response facts declarations
    finite records parse ssa_facts ssa_artifacts elaborations.
(** The file's content, if it can be serialized, and its temporary. *)
Definition published_text : option string :=
  match cache_entry key response facts declarations finite records parse ssa_facts ssa_artifacts elaborations with
  | Ok entry => encode_entry entry
  | _ => None
  end.
Definition published_temp : string :=
  path_join (path_join root "application-builds") (temp_name key pid now nonce).

Lemma cache_entry_no_panic message :
  cache_entry key response facts declarations finite records parse ssa_facts ssa_artifacts elaborations
  <> Panic message.
Proof.
  assert (Hs : forall A (c : Codec A) what (a : A) m, sha256_serialized what a <> Panic m)
    by (intros A c what a m; unfold sha256_serialized; by destruct (to_json a)).
  assert (Ho : forall A (c : Codec A) what (a : option A) m, sha256_optional what a <> Panic m).
  { intros A c what [a|] m; [|done]. specialize (Hs A c what a m). unfold sha256_optional.
    destruct (sha256_serialized what a); cbn; congruence. }
  unfold cache_entry.
  repeat match goal with
  | |- mbind _ (sha256_optional ?w ?a) <> _ =>
      pose proof (Ho _ _ w a); destruct (sha256_optional w a); cbn [mbind outcome_bind]; [|done|naive_solver]
  | |- mbind _ (sha256_serialized ?w ?a) <> _ =>
      pose proof (Hs _ _ w a); destruct (sha256_serialized w a); cbn [mbind outcome_bind]; [|done|naive_solver]
  end.
  done.
Qed.

Lemma publish_outcome store seen :
  root <> "" -> application_cache_path_at root key = Some path ->
  let '(r, disk) := publish (mkDisk store seen) in
  (exists news, disk_seen disk = news ++ seen /\ Forall (old_or_new published_temp path published_text store) news) /\
  match r with
  | Ok _ => exists text, published_text = Some text /\ disk_store disk = <[path := text]> store
  | Err _ =>
      delete published_temp (disk_store disk) = delete published_temp store /\
      (fails FsRemove published_temp = false -> store !! published_temp = None -> disk_store disk !! published_temp = None)
  | Panic _ => False
  end.
Proof.
  intros Hr Hp. pose proof (cache_file_parent 0 "application-builds" root key path Hr eq_refl Hp) as Hparent.
  pose proof (temp_name_ne 0 root "application-builds" key path pid now nonce Hr eq_refl Hp) as Hne.
  unfold publish, publish_application_cache_with_ssa_facts, published_text, published_temp.
  rewrite Hparent. unfold mbind, fs_bind, lift, map_err, create_dir_all, fs_err. cbn [ok_or].
  assert (Hnone : (exists news, seen = news ++ seen /\
    Forall (old_or_new (path_join (path_join root "application-builds") (temp_name key pid now nonce)) path
      (match cache_entry key response facts declarations finite records parse ssa_facts ssa_artifacts elaborations with
       | Ok entry => encode_entry entry | _ => None end) store) news)) by by exists [].
  destruct (fails FsCreateDir _); cbn [disk_store disk_seen mret fs_ret]; [done|].
  destruct (cache_entry _ _ _ _ _ _ _ _ _ _) as [entry|e|m] eqn:E; cbn [disk_store disk_seen]; [|done|by apply cache_entry_no_panic in E].
  pose proof (publish_file_atomic fails partial _ _ (encode_entry entry) store "create temporary cache entry"
    "write temporary cache entry" "sync temporary cache entry" "publish cache entry" seen Hne) as Ha.
  destruct (publish_file _ _ _ _ _ _ _ _ _ _) as [[a|e|m] disk]; [|by naive_solver|done].
  destruct Ha as (? & text & ? & ? & _). split; [done|]. by exists text.
Qed.

(** A publication stays in its directory. *)
Lemma publish_frame store seen :
  root <> "" -> application_cache_path_at root key = Some path ->
  let '(r, disk) := publish (mkDisk store seen) in
  (forall message, r <> Panic message) /\
  forall file, ~ inside root "application-builds" file -> disk_store disk !! file = store !! file.
Proof.
  intros Hr Hp. pose proof (publish_outcome store seen Hr Hp) as Ho. destruct (publish _) as [r disk].
  destruct Ho as [_ Ho]. split; [by intros m ->|]. intros file Hf.
  assert (Hin : inside root "application-builds" path) by exact (cache_file_inside 0 root _ key path Hr eq_refl Hp).
  assert (file <> path) as Hfp by by intros ->.
  assert (file <> published_temp) as Hft by (intros ->; apply Hf; by eexists).
  destruct r as [a|e|m]; [|destruct Ho as [Hd _]|done].
  - destruct Ho as (text & _ & ->). by rewrite lookup_insert_ne.
  - by rewrite <- (lookup_delete_ne (disk_store disk) published_temp file), Hd, lookup_delete_ne by done.
Qed.

(** Publishing a cache entry is all or nothing.  Whatever system calls
    fail, every state of the disk that another process can observe has the old
    content in every file but the temporary one -- except that the published
    path may already have the complete new entry.  A publication that reports
    success has written exactly that entry; one that reports failure has
    changed no other file, and leaves no temporary unless removing it failed
    too. *)
Theorem publication_atomic store :
  root <> "" -> application_cache_path_at root key = Some path ->
  let '(r, disk) := publish (mkDisk store []) in
  (forall observed file, observed ∈ disk_seen disk -> file <> published_temp ->
     observed !! file = store !! file \/ file = path /\ is_Some published_text /\ observed !! path = published_text) /\
  (forall message, r <> Panic message) /\
  (r = Ok tt -> is_Some published_text /\ disk_store disk !! path = published_text /\
     forall file, file <> path -> disk_store disk !! file = store !! file) /\
  (is_ok r = false ->
     (forall file, file <> published_temp -> disk_store disk !! file = store !! file) /\
     (fails FsRemove published_temp = false -> store !! published_temp = None ->
        disk_store disk !! published_temp = None)).
Proof.
  intros Hr Hp. pose proof (publish_outcome store [] Hr Hp) as Ho.
  destruct (publish (mkDisk store [])) as [r disk]. destruct Ho as [(news & Hseen & Hnews) Ho].
  rewrite app_nil_r in Hseen. subst news. split_and!.
  - intros observed file Hin Hne. eapply Forall_forall in Hnews as [Hold|(text & Ht & Hnew)]; [..|exact Hin].
    + left. by rewrite <- (lookup_delete_ne observed published_temp file), Hold, lookup_delete_ne by done.
    + destruct (decide (file = path)) as [->|Hf].
      * right. rewrite Ht. split_and!; [done|done|].
        by rewrite <- (lookup_delete_ne observed published_temp path), Hnew, lookup_insert_eq by done.
      * left. by rewrite <- (lookup_delete_ne observed published_temp file), Hnew, lookup_insert_ne, lookup_delete_ne by done.
  - intros message ->. done.
  - intros ->. destruct Ho as (text & Ht & ->). rewrite Ht. split_and!; [done|by rewrite lookup_insert_eq|].
    intros file Hf. by rewrite lookup_insert_ne.
  - intros Hok. destruct r as [[]|e|m]; [done| |done]. destruct Ho as [Hd Ht]. split; [|done].
    intros file Hf. by rewrite <- (lookup_delete_ne (disk_store disk) published_temp file), Hd, lookup_delete_ne by done.
Qed.
End Publish.

(** ** What a hit says *)

Definition entry_versions : list (string * nat) :=
  [(ENTRY_V4, 4); (ENTRY_V5, 5); (ENTRY_V6, 6); (ENTRY_V7, 7); (ENTRY_V8, 8); (ENTRY_V9, 9); (ENTRY_V10, 10);
   (ENTRY_V11, 11); (ENTRY_V12, 12)].

(** A section in an entry of version [v]: present from version [since] on, with
    its digest and a decodable text, or absent where it may be. *)
Definition section_holds {A} `{Codec A} (v since : nat) (optional : Prop) (dflt : A)
  (digest raw : option string) (a : A) : Prop :=
  (exists text, raw = Some text /\ digest = Some (sha256 text) /\ of_json text = Some a /\ since <= v) \/
  (raw = None /\ digest = None /\ a = dflt /\ (v < since \/ optional)).

(** The response was produced for this request by this producer and toolchain,
    and its parts agree. *)
Definition response_holds (response : Value) (contract : string) (source : option string) (probe : string)
  (toolchain : option ToolchainIdentity) : Prop :=
  exists cached, pointer_str ["source_snapshot"; "identity"] response = Some cached /\
    (exists rest, cached = "sha256:" +:+ rest) /\
    get_str "schema_version" response = Some contract /\ get_str "status" response = Some "verified" /\
    (forall expected, source = Some expected -> cached = expected) /\
    pointer_str ["producer"; "probe"; "probe_executable_sha256"] response = Some probe /\
    pointer_str ["artifact"; "schema_version"] response = Some VM_ARTIFACT_SCHEMA /\
    pointer_str ["artifact"; "value"; "schema_version"] response = Some VM_ARTIFACT_SCHEMA /\
    pointer ["artifact"; "identity"] response = pointer ["artifact"; "value"; "artifact_id"] response /\
    pointer_str ["entry"; "status"] response = Some "verified" /\
    pointer ["producer"; "stage0_toolchain"] response = toolchain ≫= toolchain_value.

Definition entry_holds (entry : ApplicationCacheEntry) (v : nat) (key : string) (app : CachedApplication) : Prop :=
  assoc (ae_schema_version entry) entry_versions = Some v /\ ae_key entry = key /\
  ae_language_verification_fact_schema entry =
    (if Nat.leb 11 v then Some VERIFICATION_FACT_SCHEMA_VERSION else None) /\
  ae_response_sha256 entry = sha256 (ae_response entry) /\ of_json (ae_response entry) = Some (ca_response app) /\
  ae_verification_facts_sha256 entry = sha256 (ae_verification_facts entry) /\
  of_json (ae_verification_facts entry) = Some (ca_verification_facts app) /\
  (exists declarations finite,
    ca_declaration_verification_facts app = declarations ++ finite /\
    section_holds v 4 (v = 4) [] (ae_declaration_verification_facts_sha256 entry)
      (ae_declaration_verification_facts entry) declarations /\
    section_holds v 7 (11 <= v) [] (ae_finite_type_declaration_verification_facts_sha256 entry)
      (ae_finite_type_declaration_verification_facts entry) finite) /\
  section_holds v 6 False source_parse_cache_default (ae_source_parse_cache_sha256 entry)
    (ae_source_parse_cache entry) (ca_source_parse_cache app) /\
  section_holds v 8 (11 <= v) [] (ae_record_type_declaration_verification_facts_sha256 entry)
    (ae_record_type_declaration_verification_facts entry) (ca_record_type_declaration_verification_facts app) /\
  section_holds v 9 (11 <= v) [] (ae_ssa_function_verification_facts_sha256 entry)
    (ae_ssa_function_verification_facts entry) (ca_ssa_function_verification_facts app) /\
  section_holds v 10 (11 <= v) ssa_function_artifact_cache_default (ae_ssa_function_artifact_cache_sha256 entry)
    (ae_ssa_function_artifact_cache entry) (ca_ssa_function_artifact_cache app) /\
  section_holds v 12 False module_elaboration_cache_default (ae_module_elaboration_cache_sha256 entry)
    (ae_module_elaboration_cache entry) (ca_module_elaboration_cache app).

Lemma response_admissible_spec response contract source probe toolchain :
  response_admissible response contract source probe toolchain = true <->
  response_holds response contract source probe toolchain.
Proof.
  unfold response_admissible, response_holds.
  destruct (pointer_str ["source_snapshot"; "identity"] response) as [cached|];
    [|split; [done|by intros (? & ? & _)]].
  rewrite !andb_true_iff, !bool_decide_eq_true. split.
  - intros [[[[[[[[[Hp ?] ?] Hs] ?] ?] ?] ?] ?] ?]. exists cached. split_and!; try done.
    + destruct Hp as [rest Hp]. exists rest. by apply strip_prefix_some.
    + intros expected ->. by apply String.eqb_eq in Hs.
  - intros (? & [= <-] & [rest ->] & ? & ? & Hs & ? & ? & ? & ? & ? & ?). split_and!; try done.
    destruct source as [expected|]; [|done]. apply String.eqb_eq. by rewrite (Hs expected).
Qed.

Lemma read_section_spec {A} `{Codec A} present absent dflt schema digest raw (a : A) v since optional :
  (one_of schema present = true <-> since <= v) ->
  (one_of schema absent = true <-> v < since \/ optional) ->
  read_section present absent dflt schema digest raw = Some a <->
  section_holds v since optional dflt digest raw a.
Proof.
  intros Hp Ha. unfold read_section, section_holds. split.
  - destruct digest as [d|], raw as [r|]; try done.
    + destruct (one_of schema present); [|done]. destruct (String.eqb_spec d (sha256 r)) as [->|]; [|done].
      intros Hr. left. exists r. split_and!; try done. by apply Hp.
    + destruct (one_of schema absent); [|done]. intros [= <-]. right. split_and!; try done. by apply Ha.
  - intros [(text & -> & -> & Hr & Hv)|(-> & -> & -> & Hv)].
    + apply Hp in Hv as ->. by rewrite String.eqb_refl.
    + by apply Ha in Hv as ->.
Qed.

Lemma entry_version schema v : assoc schema entry_versions = Some v -> (schema, v) ∈ entry_versions.
Proof.
  generalize entry_versions. intros l. induction l as [|[s n] l IH]; cbn; [done|].
  destruct (String.eqb_spec schema s) as [->|]; [intros [= ->]; left|intros ?; right; auto].
Qed.

(** The version tables of the reader, all at once. *)
Ltac by_version Hv :=
  apply entry_version in Hv; repeat (apply elem_of_cons in Hv as [Hv|Hv]; [injection Hv as -> ->|]);
  [..|by apply elem_of_nil in Hv]; vm_compute; split; intros; try done; lia.

Lemma entry_admissible_spec entry key :
  entry_admissible entry key = true <->
  exists v, assoc (ae_schema_version entry) entry_versions = Some v /\ ae_key entry = key /\
    ae_language_verification_fact_schema entry =
      (if Nat.leb 11 v then Some VERIFICATION_FACT_SCHEMA_VERSION else None).
Proof.
  unfold entry_admissible. rewrite !andb_true_iff, String.eqb_eq.
  assert (Hone : one_of (ae_schema_version entry) entry_schemas = true <->
    is_Some (assoc (ae_schema_version entry) entry_versions)).
  { unfold one_of, entry_schemas, entry_versions. cbn [existsb assoc].
    repeat (destruct (String.eqb (ae_schema_version entry) _); [split; [by eexists|done]|]). split; [done|by intros [? ?]]. }
  assert (Hnew : forall v, assoc (ae_schema_version entry) entry_versions = Some v ->
    one_of (ae_schema_version entry) [ENTRY_V11; ENTRY_V12] = Nat.leb 11 v).
  { intros v Hv. apply entry_version in Hv. revert Hv. generalize (ae_schema_version entry). intros schema Hv.
    repeat (apply elem_of_cons in Hv as [Hv|Hv]; [injection Hv as -> ->; reflexivity|]). by apply elem_of_nil in Hv. }
  rewrite Hone. split.
  - intros [[[v Hv] Hk] Hs]. exists v. split_and!; try done. rewrite (Hnew v Hv) in Hs.
    by destruct (Nat.leb 11 v); apply bool_decide_eq_true in Hs.
  - intros (v & Hv & Hk & Hs). split_and!; [by eexists|done|]. rewrite (Hnew v Hv).
    by destruct (Nat.leb 11 v); apply bool_decide_eq_true.
Qed.

(** The sections, each with its own version table. *)
Lemma sections_spec entry v declarations finite parse records ssa_facts ssa_artifacts elaborations :
  assoc (ae_schema_version entry) entry_versions = Some v ->
  (read_declaration_facts entry = Some declarations <->
    section_holds v 4 (v = 4) [] (ae_declaration_verification_facts_sha256 entry)
      (ae_declaration_verification_facts entry) declarations) /\
  (read_finite_type_facts entry = Some finite <->
    section_holds v 7 (11 <= v) [] (ae_finite_type_declaration_verification_facts_sha256 entry)
      (ae_finite_type_declaration_verification_facts entry) finite) /\
  (read_source_parse_cache entry = Some parse <->
    section_holds v 6 False source_parse_cache_default (ae_source_parse_cache_sha256 entry)
      (ae_source_parse_cache entry) parse) /\
  (read_record_type_facts entry = Some records <->
    section_holds v 8 (11 <= v) [] (ae_record_type_declaration_verification_facts_sha256 entry)
      (ae_record_type_declaration_verification_facts entry) records) /\
  (read_ssa_function_facts entry = Some ssa_facts <->
    section_holds v 9 (11 <= v) [] (ae_ssa_function_verification_facts_sha256 entry)
      (ae_ssa_function_verification_facts entry) ssa_facts) /\
  (read_ssa_artifact_cache entry = Some ssa_artifacts <->
    section_holds v 10 (11 <= v) ssa_function_artifact_cache_default (ae_ssa_function_artifact_cache_sha256 entry)
      (ae_ssa_function_artifact_cache entry) ssa_artifacts) /\
  (read_module_elaboration_cache entry = Some elaborations <->
    section_holds v 12 False module_elaboration_cache_default (ae_module_elaboration_cache_sha256 entry)
      (ae_module_elaboration_cache entry) elaborations).
Proof.
  intros Hv.
  unfold read_declaration_facts, read_finite_type_facts, read_source_parse_cache, read_record_type_facts,
    read_ssa_function_facts, read_ssa_artifact_cache, read_module_elaboration_cache.
  revert Hv. generalize (ae_schema_version entry). intros schema Hv.
  split_and!; apply read_section_spec; by_version Hv.
Qed.

Lemma read_no_failure (P : Prop) : false = false /\ P <-> P.
Proof. tauto. Qed.

Lemma read_cache_spec fails store path key contract source probe toolchain app :
  read_application_cache_with_facts fails store path key contract source probe toolchain = Some app <->
  fails FsRead path = false /\ exists text entry v, store !! path = Some text /\ decode_entry text = Some entry /\
    entry_holds entry v key app /\ response_holds (ca_response app) contract source probe toolchain.
Proof.
  unfold read_application_cache_with_facts, fs_read, entry_holds.
  destruct (fails FsRead path); [split; [done|by intros [[=] _]]|]. rewrite read_no_failure.
  destruct (store !! path) as [text|]; cbn [mbind option_bind]; [|split; [done|by intros (? & ? & ? & ? & _)]].
  destruct (decode_entry text) as [entry|] eqn:Ed; cbn [mbind option_bind];
    [|split; [done|intros (? & ? & ? & [= <-] & ? & _); congruence]].
  destruct (entry_admissible entry key) eqn:Ea; cbn [negb]; cycle 1.
  { split; [done|]. intros (? & ? & v & [= <-] & He & (? & ? & ? & _) & _). rewrite Ed in He. injection He as <-.
    enough (entry_admissible entry key = true) by congruence. apply entry_admissible_spec. by exists v. }
  apply entry_admissible_spec in Ea as (v & Hv & Hk & Hs). split.
  - destruct (String.eqb_spec (ae_response_sha256 entry) (sha256 (ae_response entry))) as [Hr|]; [|done]. cbn [negb].
    destruct (String.eqb_spec (ae_verification_facts_sha256 entry) (sha256 (ae_verification_facts entry))) as [Hf|]; [|done].
    cbn [negb]. intros Hread. repeat match type of Hread with
      | mbind _ ?o = _ => let E := fresh "E" in destruct o eqn:E; cbn [mbind option_bind] in Hread; [|done]
      end.
    destruct (response_admissible _ _ _ _ _) eqn:Eresp; [|done]. apply response_admissible_spec in Eresp.
    injection Hread as <-. cbn. exists text, entry, v. pose proof (sections_spec entry v) as Hsec.
    split_and!; try done; try (eapply Hsec; eassumption).
    do 2 eexists. split; [reflexivity|]. split; eapply Hsec; eassumption.
  - intros (? & ? & v' & [= <-] & He & (Hv' & _ & _ & Hr & Hresp & Hf & Hfacts & (d & f & Hd & Hd' & Hf') & Hp & Hrec & Hsf & Hsa & Hme) & Hok).
    rewrite Ed in He. injection He as <-. rewrite Hv in Hv'. injection Hv' as <-.
    rewrite <- Hr, <- Hf, !String.eqb_refl. cbn [negb].
    destruct (sections_spec entry v d f (ca_source_parse_cache app)
      (ca_record_type_declaration_verification_facts app) (ca_ssa_function_verification_facts app)
      (ca_ssa_function_artifact_cache app) (ca_module_elaboration_cache app) Hv) as (R1 & R2 & R3 & R4 & R5 & R6 & R7).
    apply R1 in Hd'. apply R2 in Hf'. apply R3 in Hp. apply R4 in Hrec. apply R5 in Hsf. apply R6 in Hsa. apply R7 in Hme.
    rewrite Hfacts, Hd', Hp, Hf', Hrec, Hsf, Hsa, Hme, Hresp. cbn [mbind option_bind].
    apply response_admissible_spec in Hok. rewrite Hok. cbn [negb]. f_equal. destruct app. cbn in *. by rewrite Hd.
Qed.
(** C23: reading an application cache entry is exact.  It yields a cached
    application precisely when the file can be read and decodes to an entry of a
    known version, 4 to 12, under the requested key that states the current fact
    schema from version 11 on (and none before); every section that is present
    carries the digest of its own text; a section is absent in the versions
    before the one that introduced it and present from that one on, except that
    version 4 may leave out the declaration facts, and versions 11 and 12 the
    finite-type facts, the record-type facts, the SSA facts and the SSA
    artifacts; and the response inside is verified, for the expected contract,
    snapshot, producer and toolchain, with an artifact that names its own
    identity.  What is returned is what those sections say, and every section
    left out reads as its default. *)
Theorem cache_hit_exact fails store path key contract source probe toolchain app :
  read_application_cache_with_facts fails store path key contract source probe toolchain = Some app <->
  fails FsRead path = false /\ exists text entry v, store !! path = Some text /\ decode_entry text = Some entry /\
    entry_holds entry v key app /\ response_holds (ca_response app) contract source probe toolchain.
Proof. apply read_cache_spec. Qed.

(** ** Round trip *)

Lemma published_section {A} `{Codec A} what (a : option A) digest raw v since optional dflt :
  sha256_optional what a = Ok digest -> section_text a = Some raw ->
  (is_Some a -> since <= v) -> (a = None -> v < since \/ optional) ->
  section_holds v since optional dflt digest raw (default dflt a).
Proof.
  unfold sha256_optional, section_text, section_holds, sha256_serialized. destruct a as [a|].
  - destruct (to_json a) as [text|] eqn:E; cbn; [|done]. intros [= <-] [= <-] Hv _. left. exists text.
    split_and!; [done|done|by apply of_to_json|by apply Hv].
  - intros [= <-] [= <-] _ Hv. right. split_and!; try done. by apply Hv.
Qed.

Lemma published_required {A} `{Codec A} what (a : A) digest raw v since optional dflt :
  sha256_serialized what a = Ok digest -> to_json a = Some raw -> since <= v ->
  section_holds v since optional dflt (Some digest) (Some raw) a.
Proof.
  unfold sha256_serialized, section_holds. intros Hd Hr Hv. rewrite Hr in Hd. injection Hd as <-. left.
  exists raw. split_and!; [done|done|by apply of_to_json|done].
Qed.

(** A published entry holds what was published. *)
Lemma published_holds key response facts declarations finite records parse ssa_facts ssa_artifacts elaborations e view :
  cache_entry key response facts declarations finite records parse ssa_facts ssa_artifacts elaborations = Ok e ->
  published_view e = Some view ->
  entry_holds view (if bool_decide (is_Some elaborations) then 12 else 11) key
    (mkCached response facts (declarations ++ default [] finite) (default [] records) parse
      (default [] ssa_facts) (default ssa_function_artifact_cache_default ssa_artifacts)
      (default module_elaboration_cache_default elaborations)).
Proof.
  intros Ee Hview. set (v := if bool_decide (is_Some elaborations) then 12 else 11). unfold cache_entry in Ee.
  repeat match type of Ee with
  | mbind _ ?o = _ => let E := fresh "D" in destruct o eqn:E; cbn [mbind outcome_bind] in Ee; [|done|done]
  end.
  injection Ee as <-. cbv beta delta [published_view] in Hview.
  cbn [pe_schema_version pe_key pe_language_verification_fact_schema pe_response_sha256 pe_response
    pe_verification_facts_sha256 pe_verification_facts pe_declaration_verification_facts_sha256
    pe_declaration_verification_facts pe_source_parse_cache_sha256 pe_source_parse_cache
    pe_finite_type_declaration_verification_facts_sha256 pe_finite_type_declaration_verification_facts
    pe_record_type_declaration_verification_facts_sha256 pe_record_type_declaration_verification_facts
    pe_ssa_function_verification_facts_sha256 pe_ssa_function_verification_facts
    pe_ssa_function_artifact_cache_sha256 pe_ssa_function_artifact_cache
    pe_module_elaboration_cache_sha256 pe_module_elaboration_cache] in Hview.
  repeat match type of Hview with
  | mbind _ ?o = _ => let E := fresh "V" in destruct o eqn:E; cbn [mbind option_bind] in Hview; [|done]
  end.
  injection Hview as <-. unfold entry_holds. cbn.
  assert (11 <= v) as Hv by (unfold v; case_bool_decide; lia).
  assert (Hser : forall A (c : Codec A) what (x : A) d t, sha256_serialized what x = Ok d -> to_json x = Some t ->
    d = sha256 t /\ of_json t = Some x).
  { intros A c what x d t Hd Ht. unfold sha256_serialized in Hd. rewrite Ht in Hd. injection Hd as <-.
    split; [done|by apply of_to_json]. }
  split_and!.
  - unfold v. by case_bool_decide.
  - done.
  - unfold v. by case_bool_decide.
  - exact (proj1 (Hser _ _ _ _ _ _ D3 V)).
  - exact (proj2 (Hser _ _ _ _ _ _ D3 V)).
  - exact (proj1 (Hser _ _ _ _ _ _ D4 V0)).
  - exact (proj2 (Hser _ _ _ _ _ _ D4 V0)).
  - exists declarations, (default [] finite). split; [done|]. split.
    + eapply published_required; [eassumption|eassumption|lia].
    + eapply published_section; [eassumption|eassumption|lia|auto].
  - eapply published_required; [eassumption|eassumption|lia].
  - eapply published_section; [eassumption|eassumption|lia|auto].
  - eapply published_section; [eassumption|eassumption|lia|auto].
  - eapply published_section; [eassumption|eassumption|lia|auto].
  - eapply published_section; [eassumption|eassumption| |].
    + intros [m ->]. unfold v. rewrite bool_decide_true by by eexists. lia.
    + intros ->. left. unfold v. rewrite bool_decide_false by by intros [? ?]. lia.
Qed.

Lemma read_published reading fails partial pid now nonce root key path response facts declarations finite records
    parse ssa_facts ssa_artifacts elaborations store seen disk contract source probe toolchain :
  root <> "" -> application_cache_path_at root key = Some path ->
  publish fails partial pid now nonce key path response facts declarations finite records parse ssa_facts
    ssa_artifacts elaborations (mkDisk store seen) = (Ok tt, disk) ->
  response_holds response contract source probe toolchain ->
  read_application_cache_with_facts reading (disk_store disk) path key contract source probe toolchain =
  if reading FsRead path then None
  else Some (mkCached response facts (declarations ++ default [] finite) (default [] records) parse
    (default [] ssa_facts) (default ssa_function_artifact_cache_default ssa_artifacts)
    (default module_elaboration_cache_default elaborations)).
Proof.
  intros Hr Hp Hpub Hresp. destruct (reading FsRead path) eqn:Hread;
    [unfold read_application_cache_with_facts, fs_read; by rewrite Hread|]. apply read_cache_spec. split; [done|].
  pose proof (publish_outcome fails partial pid now nonce root key path response facts declarations finite records
    parse ssa_facts ssa_artifacts elaborations store seen Hr Hp) as Ho.
  rewrite Hpub in Ho. destruct Ho as (_ & text & Htext & Hstore). unfold published_text in Htext.
  destruct (cache_entry _ _ _ _ _ _ _ _ _ _) as [e| |] eqn:Ee; [|done|done].
  destruct (entry_round_trip e text Htext) as (view & Hview & Hdecode).
  exists text, view, (if bool_decide (is_Some elaborations) then 12 else 11).
  split_and!; [by rewrite Hstore, lookup_insert_eq|done|by eapply published_holds|done].
Qed.

(** C24: what is published is what is read back.  After a publication that
    reports success, reading the path under the same key yields the response
    and every set of facts that was published -- the finite-type facts joined to
    the other declaration facts, a section left out as its default -- for every
    contract, snapshot, producer and toolchain the response itself names; only a
    read that fails finds nothing. *)
Theorem publish_read_round_trip reading fails partial pid now nonce root key path response facts declarations finite records
    parse ssa_facts ssa_artifacts elaborations store seen disk contract source probe toolchain :
  root <> "" -> application_cache_path_at root key = Some path ->
  publish fails partial pid now nonce key path response facts declarations finite records parse ssa_facts
    ssa_artifacts elaborations (mkDisk store seen) = (Ok tt, disk) ->
  response_holds response contract source probe toolchain ->
  read_application_cache_with_facts reading (disk_store disk) path key contract source probe toolchain =
  if reading FsRead path then None
  else Some (mkCached response facts (declarations ++ default [] finite) (default [] records) parse
    (default [] ssa_facts) (default ssa_function_artifact_cache_default ssa_artifacts)
    (default module_elaboration_cache_default elaborations)).
Proof. apply read_published. Qed.

(** ** The index *)

Lemma string_take_short n s : String.length s <= n -> string_take n s = s.
Proof. revert s. induction n as [|n IH]; intros [|a s] Hl; cbn in *; try done; [lia|]. f_equal. apply IH. lia. Qed.
Lemma length_string_take n s : String.length (string_take n s) = Nat.min n (String.length s).
Proof. revert s. induction n as [|n IH]; intros [|a s]; cbn; try done. by rewrite IH. Qed.

(** An index record is trusted for one thing only.  Reading it yields a
    candidate key exactly when the whole file is at most 8 KiB, is an index
    record of the current version made for this key, and its candidate is a
    well-formed cache key, so that what follows opens a file of the cache
    directory; a longer file is rejected whatever its first bytes say. *)
Theorem index_read_exact fails store path key candidate :
  read_application_cache_index fails store path key = Some candidate <->
  fails FsRead path = false /\ exists text entry, store !! path = Some text /\ String.length text <= MAX_APPLICATION_CACHE_INDEX_BYTES /\
    from_slice text = Some entry /\ get_str "schema_version" entry = Some INDEX_SCHEMA /\
    get_str "key" entry = Some key /\ get_str "candidate_key" entry = Some candidate /\
    is_Some (sha256_cache_key_hex candidate).
Proof.
  unfold read_application_cache_index, fs_read.
  destruct (fails FsRead path); [split; [done|by intros [[=] _]]|]. rewrite read_no_failure.
  destruct (store !! path) as [text|]; cbn [mbind option_bind]; [|split; [done|by intros (? & ? & ? & _)]].
  destruct (Nat.ltb_spec MAX_APPLICATION_CACHE_INDEX_BYTES
    (String.length (string_take (MAX_APPLICATION_CACHE_INDEX_BYTES + 1) text))) as [Hl|Hl].
  { split; [done|]. intros (? & ? & [= <-] & Hlen & _). rewrite length_string_take in Hl. lia. }
  rewrite length_string_take in Hl. assert (String.length text <= MAX_APPLICATION_CACHE_INDEX_BYTES) as Hlen by lia.
  rewrite string_take_short by lia.
  destruct (from_slice text) as [entry|] eqn:Ef; cbn [mbind option_bind];
    [|split; [done|intros (? & ? & [= <-] & _ & ? & _); congruence]].
  destruct (bool_decide (get_str "schema_version" entry = Some INDEX_SCHEMA)) eqn:Es; cbn [negb orb].
  2: { apply bool_decide_eq_false in Es. split; [done|].
       intros (? & ? & [= <-] & _ & He & ? & _). rewrite Ef in He. by injection He as <-. }
  destruct (bool_decide (get_str "key" entry = Some key)) eqn:Ek; cbn [negb].
  2: { apply bool_decide_eq_false in Ek. split; [done|].
       intros (? & ? & [= <-] & _ & He & _ & ? & _). rewrite Ef in He. by injection He as <-. }
  apply bool_decide_eq_true in Es, Ek. split.
  - destruct (get_str "candidate_key" entry) as [c|] eqn:Ec; cbn [mbind option_bind]; [|done].
    destruct (sha256_cache_key_hex c) as [hex|] eqn:Eh; cbn [mbind option_bind]; [|done].
    intros [= <-]. exists text, entry. by split_and!.
  - intros (? & ? & [= <-] & _ & He & _ & _ & Hc & [hex Hh]). rewrite Ef in He. injection He as <-.
    rewrite Hc. cbn [mbind option_bind]. by rewrite Hh.
Qed.

Lemma publish_index_frame fails partial pid now nonce root key path candidate store seen i directory :
  root <> "" -> cache_directories !! i = Some directory -> cache_file i root key = Some path ->
  let '(r, disk) := publish_application_cache_index fails partial pid now nonce path key candidate (mkDisk store seen) in
  (forall message, r <> Panic message) /\
  forall file, ~ inside root directory file -> disk_store disk !! file = store !! file.
Proof.
  intros Hr Hd Hp.
  pose proof (cache_file_parent i directory root key path Hr Hd Hp) as Hparent.
  pose proof (temp_name_ne i root directory key path pid now nonce Hr Hd Hp) as Hne.
  pose proof (cache_file_inside i root directory key path Hr Hd Hp) as Hin.
  unfold publish_application_cache_index. rewrite Hparent.
  unfold mbind, fs_bind, lift, map_err, create_dir_all, fs_err. cbn [ok_or].
  destruct (fails FsCreateDir _); [done|]. cbn [mret fs_ret].
  destruct (to_vec (index_entry key candidate)) as [text|]; [|done]. cbn [ok_or].
  pose proof (publish_file_atomic fails partial _ _ (Some text) store "create temporary cache index"
    "write temporary cache index" "sync temporary cache index" "publish cache index" seen Hne) as Ha.
  destruct (publish_file _ _ _ _ _ _ _ _ _ _) as [r disk]. destruct Ha as [_ Ha].
  split; [by intros m ->|]. intros file Hf.
  assert (file <> path) as Hfp by by intros ->.
  assert (file <> path_join (path_join root directory) (temp_name key pid now nonce)) as Hft
    by (intros ->; apply Hf; by eexists).
  destruct r as [a|e|m]; [|destruct Ha as [Hdel _]|done].
  - destruct Ha as (t & _ & -> & _). by rewrite lookup_insert_ne.
  - by rewrite <- (lookup_delete_ne (disk_store disk) (path_join (path_join root directory) (temp_name key pid now nonce)) file),
      Hdel, lookup_delete_ne by done.
Qed.

Lemma published_index_file fails partial pid now nonce root key path candidate store seen disk i :
  root <> "" -> i = 1 \/ i = 2 -> cache_file i root key = Some path ->
  publish_application_cache_index fails partial pid now nonce path key candidate (mkDisk store seen) = (Ok tt, disk) ->
  exists text, to_vec (index_entry key candidate) = Some text /\ disk_store disk = <[path := text]> store.
Proof.
  intros Hr Hi Hp Hpub.
  assert (is_Some (cache_directories !! i)) as [directory Hd] by (destruct Hi as [->| ->]; by eexists).
  pose proof (cache_file_parent i directory root key path Hr Hd Hp) as Hparent.
  pose proof (temp_name_ne i root directory key path pid now nonce Hr Hd Hp) as Hne.
  unfold publish_application_cache_index in Hpub. rewrite Hparent in Hpub.
  unfold mbind, fs_bind, lift, map_err, create_dir_all, fs_err in Hpub. cbn [ok_or] in Hpub.
  destruct (fails FsCreateDir _); [done|]. cbn [mret fs_ret] in Hpub.
  destruct (to_vec (index_entry key candidate)) as [text|]; [|done]. cbn [ok_or] in Hpub.
  pose proof (publish_file_atomic fails partial _ _ (Some text) store "create temporary cache index"
    "write temporary cache index" "sync temporary cache index" "publish cache index" seen Hne) as Ha.
  rewrite Hpub in Ha. destruct Ha as (_ & text' & [= <-] & ? & _). by exists text.
Qed.
End Cache.

(** ** Witnesses *)



Definition sample_response : Value := object [
  ("schema_version", Str CONTRACT_V2); ("status", Str "verified");
  ("source_snapshot", object [("identity", Str "sha256:snapshot"); ("files", Array [])]);
  ("producer", object [("probe", object [("probe_executable_sha256", Str "p")])]);
  ("artifact", object [("schema_version", Str VM_ARTIFACT_SCHEMA); ("identity", Str "a");
     ("value", object [("schema_version", Str VM_ARTIFACT_SCHEMA); ("artifact_id", Str "a")])]);
  ("entry", object [("status", Str "verified")])].

#[local] Existing Instances sample_fact_crate sample_entry_crate.

Definition sample_cache_key : string := "sha256:" +:+ sample_hex.
Definition sample_cache_path : string := "/cache/application-builds/" +:+ sample_hex +:+ ".json".

Definition sample_publish (fails : FsCall -> string -> bool) : Fs unit :=
  @publish reference_crate sample_fact_crate sample_entry_crate fails (string_take 1) 7 100 0
    sample_cache_key sample_cache_path sample_response ["f"] ["a"; "b"] (Some ["c"]) None "parsed" None None None.

Lemma publish_read_round_trip_witness :
  read_application_cache_with_facts (fun _ _ => false) (disk_store (sample_publish (fun _ _ => false) (mkDisk ∅ [])).2)
    sample_cache_path sample_cache_key CONTRACT_V2 (Some "sha256:snapshot") "p" None =
  Some (mkCached sample_response ["f"] ["a"; "b"; "c"] [] "parsed" [] "" "").
Proof.
  apply (@publish_read_round_trip reference_crate sample_json_crate sample_fact_crate sample_entry_crate (fun _ _ => false) (fun _ _ => false) (string_take 1) 7 100 0 "/cache" sample_cache_key sample_cache_path
    sample_response ["f"] ["a"; "b"] (Some ["c"]) None "parsed" None None None ∅ []); [done|reflexivity|vm_compute; reflexivity|].
  eexists. split_and!; try reflexivity; [by eexists|by intros ? [= <-]].
Defined.

(** A rename that fails leaves the old entry. *)
Lemma publication_atomic_witness :
  is_ok (sample_publish (fun call _ => match call with FsRename => true | _ => false end)
    (mkDisk {[ sample_cache_path := "old" ]} [])).1 = false /\
  disk_store (sample_publish (fun call _ => match call with FsRename => true | _ => false end)
    (mkDisk {[ sample_cache_path := "old" ]} [])).2 !! sample_cache_path = Some "old".
Proof.
  assert (application_cache_path_at "/cache" sample_cache_key = Some sample_cache_path) as Hp by reflexivity.
  pose proof (@publication_atomic reference_crate sample_fact_crate sample_entry_crate
    (fun call _ => match call with FsRename => true | _ => false end) (string_take 1) 7 100 0 "/cache"
    sample_cache_key sample_cache_path sample_response ["f"] ["a"; "b"] (Some ["c"]) None "parsed" None None None
    {[ sample_cache_path := "old" ]} ltac:(done) Hp) as Ha.
  change (@publish _ _ _ _ _ _ _ _ _ _ _ _ _ _ _ _ _ _ _) with
    (sample_publish (fun call _ => match call with FsRename => true | _ => false end)) in Ha.
  assert (is_ok (sample_publish (fun call _ => match call with FsRename => true | _ => false end)
    (mkDisk {[ sample_cache_path := "old" ]} [])).1 = false) as Hf by (vm_compute; reflexivity).
  destruct (sample_publish _ _) as [r disk]. split; [exact Hf|]. destruct Ha as (_ & _ & _ & Ha).
  rewrite (proj1 (Ha Hf)); [reflexivity|]. discriminate.
Defined.
