(* ===== verification/AppReuse.v ===== *)
(** Reuse of a cached application: [tools/stage0-probe/src/application.rs], the
    comparison with the current sources and interfaces, the semantic identity,
    and the rewriting of a cached response for the current snapshot.
    Definitions only. *)

From Stdlib Require Import String.
From S2P Require Export AppKeys.

Local Open Scope string_scope.
Local Open Scope list_scope.

Section Reuse.
Context `{ModelCrate}.

(** ** [cached_application_matches_dependency_closure] *)

(** The loop over the cached files: whether the root was seen, and the other
    modules' hashes. *)
Definition check_file (root_id root_hash : string) (st : option (bool * list (string * string))) (file : Value)
  : option (bool * list (string * string)) :=
  '(found_root, cached_modules) ← st;
  module ← get_str "module" file;
  source_id ← get_str "source_id" file;
  source_hash ← get_str "sha256" file;
  if String.eqb module "root" then
    if found_root || negb (String.eqb source_id root_id) || negb (String.eqb source_hash root_hash) then None
    else Some (true, cached_modules)
  else if negb (String.eqb source_id module) then None
  else
    let '(previous, cached_modules) := bm_insert module source_hash cached_modules in
    match previous with Some _ => None | None => Some (found_root, cached_modules) end.

Definition is_none_or_empty (s : option string) : bool :=
  match s with Some s => String.eqb s "" | None => true end.

(** The loop over the resolutions: the identities and the requested modules. *)
Definition check_resolution (modules cached_modules : list (string * string))
  (st : option (list string * list string)) (resolution : Value) : option (list string * list string) :=
  '(resolved_dependencies, seen_modules) ← st;
  requested_module ← get_str "requested_module" resolution;
  module_identity ← get_str "module_identity" resolution;
  if is_none_or_empty (get_str "source_identity" resolution)
     || is_none_or_empty (get_str "semantic_fingerprint" resolution)
  then None
  else
    let '(fresh, seen_modules) := bs_insert requested_module seen_modules in
    if negb fresh then None
    else
    current_source ← bm_get requested_module modules;
    cached_hash ← bm_get requested_module cached_modules;
    if negb (String.eqb cached_hash (sha256 current_source)) then None
    else Some (bs_add module_identity resolved_dependencies, seen_modules).

Definition cached_application_matches_dependency_closure (response : Value) (root_id root_source : string)
  (modules : list (string * string)) : bool :=
  match pointer_array ["source_snapshot"; "files"] response with
  | None => false
  | Some files =>
      match fold_left (check_file root_id (sha256 root_source)) files (Some (false, [])) with
      | Some (true, cached_modules) =>
          match pointer_array ["dependency_graph"; "details"; "dependencies"] response,
                pointer_array ["dependency_graph"; "details"; "resolutions"] response with
          | Some dependencies, Some resolutions =>
              let declared_dependencies := bs_of_list (omap as_str dependencies) in
              if negb (Nat.eqb (List.length declared_dependencies) (List.length dependencies)) then false
              else
              match fold_left (check_resolution modules cached_modules) resolutions (Some ([], [])) with
              | Some (resolved_dependencies, _) => bool_decide (resolved_dependencies = declared_dependencies)
              | None => false
              end
          | _, _ => false
          end
      | _ => false
      end
  end.

(** ** Rewriting a cached response *)

Definition rebind_cached_source_snapshot (response : Value) (source_identity : string) (files : list Value)
  : option Value :=
  update_field "source_snapshot" (fun snapshot =>
    snapshot ← insert_field "identity" (Str source_identity) snapshot;
    insert_field "files" (Array files) snapshot) response.

Definition row_matches (root : string * string) (identity : string) (row : Value) : bool :=
  bool_decide (get_str "module" row = Some root.1)
  && bool_decide (get_str "function" row = Some root.2)
  && bool_decide (get_str "status" row = Some "verified")
  && bool_decide (pointer_str ["interface"; "status"] row = Some "verified")
  && bool_decide (pointer_str ["interface"; "identity"] row = Some identity).

(** One callable of [cached_callable_interfaces_match]. *)
Definition interface_matches (root : string * string) (current : option Value) (entry scope_entry : Value) : bool :=
  match current with
  | None => false
  | Some current =>
      match get_str "identity" current with
      | None => false
      | Some identity =>
          negb (String.eqb identity "") && bool_decide (get_str "status" current = Some "verified")
          && row_matches root identity entry && row_matches root identity scope_entry
      end
  end.

Fixpoint interfaces_match (roots : list (string * string)) (interfaces : list (option Value))
  (entries scope_entries : list Value) : bool :=
  match roots, interfaces, entries, scope_entries with
  | root :: roots, current :: interfaces, entry :: entries, scope :: scope_entries =>
      interface_matches root current entry scope && interfaces_match roots interfaces entries scope_entries
  | _, _, _, _ => true
  end.

Definition cached_callable_interfaces_match (response : Value) (callable_roots : list (string * string))
  (callable_interfaces : list (option Value)) : bool :=
  match callable_roots, callable_interfaces with
  | (first_module, first_function) :: _, Some first_interface :: _ =>
      Nat.eqb (List.length callable_roots) (List.length callable_interfaces)
      && match get_array "entries" response, pointer_array ["callable_scope"; "callable_roots"] response with
         | Some entries, Some scope_entries =>
             Nat.eqb (List.length entries) (List.length callable_roots)
             && Nat.eqb (List.length scope_entries) (List.length callable_roots)
             && interfaces_match callable_roots callable_interfaces entries scope_entries
         | _, _ => false
         end
      && bool_decide (pointer_str ["entry"; "module"] response = Some first_module)
      && bool_decide (pointer_str ["entry"; "function"] response = Some first_function)
      && bool_decide (pointer_str ["entry"; "status"] response = Some "verified")
      && bool_decide (pointer_str ["entry"; "interface"; "identity"] response = get_str "identity" first_interface)
  | _, _ => false
  end.

Definition rebind_row (row : Value) (root : string * string) (current : option Value) : option Value :=
  current ← current;
  if negb (bool_decide (get_str "module" row = Some root.1))
     || negb (bool_decide (get_str "function" row = Some root.2))
     || negb (bool_decide (get_str "status" row = Some "verified"))
  then None
  else insert_field "interface" current row.

Fixpoint rebind_rows (rows : list Value) (roots : list (string * string)) (interfaces : list (option Value))
  : option (list Value) :=
  match rows, roots, interfaces with
  | row :: rows, root :: roots, current :: interfaces =>
      row ← rebind_row row root current;
      rows ← rebind_rows rows roots interfaces;
      Some (row :: rows)
  | _, _, _ => Some rows
  end.

Definition rebind_callable_interface_rows (rows : list Value) (callable_roots : list (string * string))
  (callable_interfaces : list (option Value)) : option (list Value) :=
  if bool_decide (callable_roots = [])
     || negb (Nat.eqb (List.length rows) (List.length callable_roots))
     || negb (Nat.eqb (List.length callable_interfaces) (List.length callable_roots))
  then None
  else rebind_rows rows callable_roots callable_interfaces.

(** [pointer_mut(..).and_then(Value::as_array_mut)]. *)
Definition update_array (keys : list string) (f : list Value -> option (list Value)) (v : Value) : option Value :=
  update_at keys (fun rows => rows ← as_array rows; Array <$> f rows) v.

Definition rebind_cached_callable_interfaces (response : Value) (callable_roots : list (string * string))
  (callable_interfaces : list (option Value)) : option Value :=
  let rebind rows := rebind_callable_interface_rows rows callable_roots callable_interfaces in
  response ← update_array ["entries"] rebind response;
  update_array ["callable_scope"; "callable_roots"] rebind response.

(** The dependency graph of the current snapshot. *)
Record GraphFacts : Type := mkGraph {
  gf_identity : string; gf_details : Value; gf_semantic_identity : string; gf_executable_closure_identity : string
}.

Definition rebind_graph (graph : GraphFacts) (dependency_graph : Value) : option Value :=
  g ← insert_field "identity" (Str (gf_identity graph)) dependency_graph;
  g ← insert_field "details" (gf_details graph) g;
  g ← insert_field "semantic_identity" (Str (gf_semantic_identity graph)) g;
  insert_field "application_executable_closure_identity" (Str (gf_executable_closure_identity graph)) g.

(** [if let Some(x) = x { response.as_object_mut()?.insert(key, x) }]. *)
Definition insert_if (key : string) (x : option Value) (response : Value) : option Value :=
  match x with Some x => insert_field key x response | None => Some response end.

Definition rebind_cached_application_response (response : Value) (source_identity : string) (files : list Value)
  (graph : GraphFacts) (entry_interface diagnostics : Value) (multiple_callables : bool)
  (callable_roots : list (string * string)) (callable_interfaces : list (option Value))
  (source_test_inventory test_case_selection : option Value) : option Value :=
  response ← rebind_cached_source_snapshot response source_identity files;
  response ← (if multiple_callables
              then rebind_cached_callable_interfaces response callable_roots callable_interfaces
              else Some response);
  response ← update_field "dependency_graph" (rebind_graph graph) response;
  response ← update_field "entry" (insert_field "interface" entry_interface) response;
  response ← insert_field "diagnostics" diagnostics response;
  response ← insert_if "source_test_inventory" source_test_inventory response;
  insert_if "test_case_selection" test_case_selection response.
End Reuse.
