(* ===== verification/AppReuseTheorems.v ===== *)
(** When a cached application may be reused, and what the reused response says. *)

From Stdlib Require Import String.
From S2P Require Export AppReuse AppCacheTheorems.

Local Open Scope string_scope.
Local Open Scope list_scope.

(** ** The dependency closure *)

Section Closure.
Context `{ModelCrate} `{!Inj (=) (=) sha256_hex}.

Lemma sha256_eq a b : sha256 a = sha256 b <-> a = b.
Proof.
  split; [|by intros ->]. intros Heq. unfold sha256 in Heq. apply string_app_inv_head in Heq.
  by apply (inj sha256_hex).
Qed.

(** The hashes of a list of modules. *)
Definition hashed (modules : list (string * string)) : list (string * string) :=
  map (fun row => (row.1, sha256 row.2)) modules.

Lemma check_file_none root_id hash files : fold_left (check_file root_id hash) files None = None.
Proof. induction files; done. Qed.

Lemma check_module_files root_id hash modules cached :
  bm_ascending cached -> NoDup (bm_keys modules) -> (forall m, m ∈ bm_keys modules -> bm_get m cached = None) ->
  fold_left (check_file root_id hash) (map (fun row => file_value row.1 row.1 row.2) modules) (Some (true, cached)) =
  if bool_decide ("root" ∈ bm_keys modules) then None
  else Some (true, fold_left (fun m row => bm_put row.1 row.2 m) (hashed modules) cached).
Proof.
  revert cached. induction modules as [|[m s] modules IH]; intros cached Ha Hn Hd; [done|].
  cbn [bm_keys fmap list_fmap fst] in *. apply NoDup_cons in Hn as [Hm Hn]. cbn [map fold_left hashed fst snd].
  change (check_file root_id hash (Some (true, cached)) (file_value m m s)) with
    (if String.eqb m "root" then
       if true || negb (String.eqb m root_id) || negb (String.eqb (sha256 s) hash) then None else Some (true, cached)
     else if negb (String.eqb m m) then None
     else let '(previous, cached) := bm_insert m (sha256 s) cached in
       match previous with Some _ => None | None => Some (true, cached) end).
  destruct (String.eqb_spec m "root") as [->|Hroot].
  { cbn [orb]. rewrite check_file_none. rewrite bool_decide_true; [done|]. apply elem_of_cons. by left. }
  rewrite String.eqb_refl. cbn [negb].
  pose proof (bm_insert_old m (sha256 s) cached Ha) as Hold. pose proof (bm_insert_put m (sha256 s) cached) as Hput.
  destruct (bm_insert m (sha256 s) cached) as [previous cached']. cbn in Hold, Hput. subst.
  rewrite Hd by left. rewrite IH; [|by apply bm_put_ascending|done|].
  - erewrite (bool_decide_ext ("root" ∈ bm_keys modules)); [reflexivity|]. unfold bm_keys. cbn. rewrite elem_of_cons.
    naive_solver.
  - intros m' Hm'. rewrite bm_get_put, decide_False by (intros ->; done). apply Hd. by right.
Qed.

Lemma source_files_cached root_id root_source id source modules :
  bm_ascending modules ->
  fold_left (check_file root_id (sha256 root_source)) (source_files id source modules) (Some (false, [])) =
  if bool_decide (id = root_id /\ source = root_source /\ "root" ∉ bm_keys modules)
  then Some (true, bm_of_list (hashed modules)) else None.
Proof.
  intros Ha. unfold source_files. cbn [fold_left].
  change (check_file root_id (sha256 root_source) (Some (false, [])) (file_value "root" id source)) with
    (if negb (String.eqb id root_id) || negb (String.eqb (sha256 source) (sha256 root_source)) then None
     else Some (true, @nil (string * string))).
  destruct (String.eqb_spec id root_id) as [->|Hid]; cbn [negb orb].
  2: { rewrite check_file_none, bool_decide_false; [done|]. by intros [? _]. }
  destruct (String.eqb_spec (sha256 source) (sha256 root_source)) as [->%sha256_eq|Hs]; cbn [negb].
  2: { rewrite check_file_none, bool_decide_false; [done|]. intros (_ & -> & _). done. }
  rewrite check_module_files; [|constructor|by apply bm_keys_NoDup|done].
  by repeat case_bool_decide; try done; naive_solver.
Qed.

Lemma hashed_keys modules : (hashed modules).*1 = modules.*1.
Proof. unfold hashed. induction modules; cbn; congruence. Qed.

Lemma hashed_elem modules m h : (m, h) ∈ hashed modules <-> exists s, h = sha256 s /\ (m, s) ∈ modules.
Proof.
  unfold hashed. rewrite list_elem_of_fmap. split.
  - intros ([m' s] & [= -> ->] & Hin). by exists s.
  - intros (s & -> & Hin). by exists (m, s).
Qed.

Lemma hashed_get modules m h :
  bm_ascending modules -> bm_get m (bm_of_list (hashed modules)) = Some h <-> exists s, h = sha256 s /\ bm_get m modules = Some s.
Proof.
  intros Ha. rewrite bm_get_unique, hashed_elem by (rewrite hashed_keys; by apply bm_keys_NoDup).
  split; intros (s & -> & Hs); exists s; (split; [done|]).
  - by apply bm_elem_get.
  - by apply bm_get_elem.
Qed.

(** ** The resolutions *)

(** A resolution whose module is today what it was when it was cached. *)
Definition unchanged (old modules : list (string * string)) (resolution : Value) (requested identity : string) : Prop :=
  get_str "requested_module" resolution = Some requested /\
  get_str "module_identity" resolution = Some identity /\
  is_none_or_empty (get_str "source_identity" resolution) = false /\
  is_none_or_empty (get_str "semantic_fingerprint" resolution) = false /\
  exists source, bm_get requested old = Some source /\ bm_get requested modules = Some source.

Lemma check_resolution_none modules cached l : fold_left (check_resolution modules cached) l None = None.
Proof. induction l; done. Qed.

Lemma check_resolution_spec old modules resolved seen resolution r :
  bm_ascending old -> ascending seen ->
  check_resolution modules (bm_of_list (hashed old)) (Some (resolved, seen)) resolution = Some r <->
  exists requested identity, unchanged old modules resolution requested identity /\ requested ∉ seen /\
    r = (bs_add identity resolved, bs_add requested seen).
Proof.
  intros Ho Ha. unfold check_resolution, unchanged. cbn [mbind option_bind].
  destruct (get_str "requested_module" resolution) as [requested|]; cbn [mbind option_bind];
    [|split; [done|by intros (? & ? & (? & _) & _)]].
  destruct (get_str "module_identity" resolution) as [identity|]; cbn [mbind option_bind];
    [|split; [done|by intros (? & ? & (_ & ? & _) & _)]].
  destruct (is_none_or_empty (get_str "source_identity" resolution)); cbn [orb];
    [split; [done|by intros (? & ? & (_ & _ & ? & _) & _)]|].
  destruct (is_none_or_empty (get_str "semantic_fingerprint" resolution));
    [split; [done|by intros (? & ? & (_ & _ & _ & ? & _) & _)]|].
  destruct (bs_insert requested seen) as [fresh seen'] eqn:E. apply bs_insert_cases in E as [-> Hf]; [|done].
  destruct fresh; cbn [negb]; cycle 1.
  { split; [done|]. intros (? & ? & ([= <-] & _) & Hn & _). by apply Hf in Hn. }
  pose proof (proj1 Hf eq_refl) as Hfresh.
  destruct (bm_get requested modules) as [current|] eqn:Ec; cbn [mbind option_bind];
    [|split; [done|intros (? & ? & ([= <-] & _ & _ & _ & ? & _ & ?) & _); congruence]].
  destruct (bm_get requested (bm_of_list (hashed old))) as [hash|] eqn:Eh; cbn [mbind option_bind]; cycle 1.
  { split; [done|]. intros (? & ? & ([= <-] & _ & _ & _ & s & Hs & _) & _).
    assert (bm_get requested (bm_of_list (hashed old)) = Some (sha256 s)) by (apply hashed_get; eauto). congruence. }
  apply hashed_get in Eh as (s & -> & Hs); [|done].
  destruct (String.eqb_spec (sha256 s) (sha256 current)) as [->%sha256_eq|Hne]; cbn [negb].
  - split.
    + intros [= <-]. exists requested, identity. split_and!; try done. by exists current.
    + by intros (? & ? & ([= <-] & [= <-] & _) & _ & ->).
  - split; [done|]. intros (? & ? & ([= <-] & _ & _ & _ & s' & ? & ?) & _). destruct Hne. congruence.
Qed.

Lemma check_resolutions_spec old modules l resolved seen r :
  bm_ascending old -> ascending seen ->
  fold_left (check_resolution modules (bm_of_list (hashed old))) l (Some (resolved, seen)) = Some r <->
  exists rows : list (string * string),
    Forall2 (fun resolution row => unchanged old modules resolution row.1 row.2) l rows /\
    NoDup rows.*1 /\ (forall m, m ∈ rows.*1 -> m ∉ seen) /\
    r = (bs_extend resolved rows.*2, bs_extend seen rows.*1).
Proof.
  intros Ho. revert resolved seen. induction l as [|x l IH]; intros resolved seen Ha; cbn [fold_left].
  - split.
    + intros [= <-]. exists []. split_and!; [constructor|constructor|by intros m ?%elem_of_nil|done].
    + intros (rows & Hf & _ & _ & ->). by inversion_clear Hf.
  - destruct (check_resolution modules (bm_of_list (hashed old)) (Some (resolved, seen)) x) as [[resolved' seen']|] eqn:E.
    + apply check_resolution_spec in E as (m & i & Hu & Hn & [= -> ->]); [|done|done].
      rewrite IH by by apply bs_add_ascending. split.
      * intros (rows & Hf & Hnd & Hd & ->). exists ((m, i) :: rows). split_and!; [by constructor| | |done].
        -- cbn. constructor; [|done]. intros Hin. apply (Hd m Hin), elem_of_bs_add. by left.
        -- cbn. intros y [->|Hy]%elem_of_cons; [done|]. intros ?. apply (Hd y Hy), elem_of_bs_add. by right.
      * intros (rows & Hf & Hnd & Hd & ->). apply Forall2_cons_inv_l in Hf as ([m' i'] & rows' & Hu' & Hf & ->).
        destruct Hu as (Hm & Hi & _), Hu' as (Hm' & Hi' & _). cbn in Hm', Hi'. rewrite Hm in Hm'. rewrite Hi in Hi'.
        injection Hm' as <-. injection Hi' as <-. cbn in Hnd, Hd. apply NoDup_cons in Hnd as [Hm' Hnd].
        exists rows'. split_and!; try done. intros y Hy [->|Hy']%elem_of_bs_add; [done|]. by apply (Hd y); [right|].
    + rewrite check_resolution_none. split; [done|]. intros (rows & Hf & Hnd & Hd & ->). exfalso.
      apply Forall2_cons_inv_l in Hf as ([m i] & rows' & Hu & _ & ->).
      enough (check_resolution modules (bm_of_list (hashed old)) (Some (resolved, seen)) x =
        Some (bs_add i resolved, bs_add m seen)) by congruence.
      apply check_resolution_spec; [done|done|]. exists m, i. split_and!; try done. apply Hd. cbn. left.
Qed.

Lemma omap_map_Str l : omap as_str (map Str l) = l.
Proof. induction l as [|a l IH]; [done|]. cbn. by rewrite IH. Qed.

Lemma length_bs_of_list (l : list string) : List.length (bs_of_list l) = List.length l <-> NoDup l.
Proof.
  split.
  - intros Hl. assert (bs_of_list l ⊆+ l) as Hs.
    { apply NoDup_submseteq; [apply ascending_NoDup, bs_of_list_ascending|]. intros x. apply elem_of_bs_of_list. }
    apply submseteq_length_Permutation in Hs; [|lia]. rewrite <- Hs. apply ascending_NoDup, bs_of_list_ascending.
  - intros Hn. by rewrite (bs_of_list_perm l Hn).
Qed.

(** C25: the dependency-closure hit is exact.  A cached response that was
    compiled from one snapshot is reused for another, without any frontend run,
    precisely when the root id and the root source are the same, no module of
    the cached snapshot is itself named root, every module
    that some import resolved to is present with the same source text in both
    snapshots, the recorded resolutions are complete (identity and fingerprint
    stated, no import twice), and the resolved identities are exactly the
    recorded dependencies; modules outside the closure may change, come or go. *)
Theorem closure_match_exact response id source old deps resolutions root_id root_source modules :
  bm_ascending old ->
  pointer_array ["source_snapshot"; "files"] response = Some (source_files id source old) ->
  pointer_array ["dependency_graph"; "details"; "dependencies"] response = Some (map Str deps) ->
  pointer_array ["dependency_graph"; "details"; "resolutions"] response = Some resolutions ->
  cached_application_matches_dependency_closure response root_id root_source modules = true <->
  id = root_id /\ source = root_source /\ "root" ∉ bm_keys old /\ NoDup deps /\
  exists rows : list (string * string),
    Forall2 (fun resolution row => unchanged old modules resolution row.1 row.2) resolutions rows /\
    NoDup rows.*1 /\ (forall identity, identity ∈ rows.*2 <-> identity ∈ deps).
Proof.
  intros Ho Hf Hd Hr. unfold cached_application_matches_dependency_closure.
  rewrite Hf, Hd, Hr, source_files_cached by done.
  case_bool_decide as Hroot; [|split; [done|]; intros (? & ? & ? & _); by destruct Hroot].
  rewrite omap_map_Str, length_map.
  destruct (Nat.eqb_spec (List.length (bs_of_list deps)) (List.length deps)) as [Hl|Hl]; cbn [negb]; cycle 1.
  { split; [done|]. intros (_ & _ & _ & Hn & _). by apply length_bs_of_list in Hn. }
  apply length_bs_of_list in Hl.
  destruct (fold_left (check_resolution modules (bm_of_list (hashed old))) resolutions (Some ([], []))) as [[resolved seen]|] eqn:E.
  - apply check_resolutions_spec in E as (rows & Hrows & Hn & _ & [= -> ->]); [|done|constructor].
    rewrite bool_decide_eq_true. split.
    + intros Heq. destruct Hroot as (? & ? & ?). split_and!; try done. exists rows. split_and!; try done.
      intros i. rewrite <- (elem_of_bs_of_list i deps), <- Heq. symmetry. apply elem_of_bs_of_list.
    + intros (_ & _ & _ & _ & rows' & Hrows' & _ & Hi).
      assert (rows = rows') as <-; [|by apply bs_of_list_ext].
      clear -Hrows Hrows'. revert rows' Hrows'. induction Hrows as [|x [m i] l rows Hu _ IH]; intros rows' Hrows'.
      * by inversion_clear Hrows'.
      * apply Forall2_cons_inv_l in Hrows' as ([m' i'] & k & Hu' & Hk & ->). rewrite (IH k Hk).
        destruct Hu as (Hm & Hi & _), Hu' as (Hm' & Hi' & _). cbn in *. congruence.
  - split; [done|]. intros (_ & _ & _ & _ & rows & Hrows & Hn & _). exfalso.
    enough (fold_left (check_resolution modules (bm_of_list (hashed old))) resolutions (Some ([], [])) =
      Some (bs_extend [] rows.*2, bs_extend [] rows.*1)) by congruence.
    apply check_resolutions_spec; [done|constructor|]. exists rows. split_and!; try done. by intros m _ ?%elem_of_nil.
Qed.
End Closure.

(** ** Rewriting *)

Lemma update_at_frame key keys f v w key' rest :
  update_at (key :: keys) f v = Some w -> key' <> key -> pointer (key' :: rest) w = pointer (key' :: rest) v.
Proof. cbn [update_at]. intros Hu Hk. by apply (pointer_update_field _ _ _ _ _ _ Hu). Qed.

Lemma insert_if_frame key x v w key' rest :
  insert_if key x v = Some w -> key' <> key -> pointer (key' :: rest) w = pointer (key' :: rest) v.
Proof.
  destruct x as [x|]; cbn [insert_if]; [|by intros [= ->]]. intros Hi Hk. by apply (pointer_insert_field _ _ _ _ _ _ Hi).
Qed.

Lemma insert_if_get key x v w : insert_if key x v = Some w -> get key w = match x with Some x => Some x | None => get key v end.
Proof.
  destruct x as [x|]; cbn [insert_if]; [|by intros [= ->]]. intros Hi.
  by rewrite (get_insert_field _ _ _ _ _ Hi), String.eqb_refl.
Qed.

(** The fields at a key after the value at it was rewritten. *)
Lemma pointer_updated key f v w rest :
  update_field key f v = Some w -> pointer (key :: rest) w = (x ← get key v; y ← f x; pointer rest y).
Proof.
  intros Hu. cbn. rewrite (get_update_field _ _ _ _ _ Hu), String.eqb_refl. by destruct (get key v).
Qed.

Lemma pointer_inserted key x v w rest : insert_field key x v = Some w -> pointer (key :: rest) w = pointer rest x.
Proof. intros Hi. cbn. by rewrite (get_insert_field _ _ _ _ _ Hi), String.eqb_refl. Qed.

(** The parts of a response that a rebind replaces. *)
Definition rebound_keys : list string :=
  ["source_snapshot"; "entries"; "callable_scope"; "dependency_graph"; "entry"; "diagnostics";
   "source_test_inventory"; "test_case_selection"].

Section Rebind.
Context `{JsonCrate} (response response' : Value) (source_identity : string) (files : list Value) (graph : GraphFacts)
  (entry_interface diagnostics : Value) (multiple : bool) (roots : list (string * string))
  (interfaces : list (option Value)) (inventory selection : option Value).
Hypothesis Hrebind : rebind_cached_application_response response source_identity files graph entry_interface
  diagnostics multiple roots interfaces inventory selection = Some response'.

(** The stages of the rewriting. *)
Lemma rebind_stages : exists r1 r2 r3 r4 r5 r6,
  rebind_cached_source_snapshot response source_identity files = Some r1 /\
  (if multiple then rebind_cached_callable_interfaces r1 roots interfaces else Some r1) = Some r2 /\
  update_field "dependency_graph" (rebind_graph graph) r2 = Some r3 /\
  update_field "entry" (insert_field "interface" entry_interface) r3 = Some r4 /\
  insert_field "diagnostics" diagnostics r4 = Some r5 /\
  insert_if "source_test_inventory" inventory r5 = Some r6 /\
  insert_if "test_case_selection" selection r6 = Some response'.
Proof.
  revert Hrebind. unfold rebind_cached_application_response. intros Hr.
  repeat match type of Hr with
  | mbind _ ?o = Some _ => let E := fresh "E" in destruct o eqn:E; cbn [mbind option_bind] in Hr; [|done]
  end.
  do 6 eexists. by split_and!.
Qed.

Lemma interfaces_frame r1 r2 key rest :
  (if multiple then rebind_cached_callable_interfaces r1 roots interfaces else Some r1) = Some r2 ->
  key <> "entries" -> key <> "callable_scope" -> pointer (key :: rest) r2 = pointer (key :: rest) r1.
Proof.
  destruct multiple; [|by intros [= ->]]. unfold rebind_cached_callable_interfaces, update_array. intros Hr He Hs.
  destruct (update_at ["entries"] _ r1) as [r|] eqn:E; cbn [mbind option_bind] in Hr; [|done].
  rewrite (update_at_frame _ _ _ _ _ _ rest Hr Hs). by apply (update_at_frame _ _ _ _ _ _ _ E).
Qed.

(** The reverse of [rebind_stages] for a pointer that starts elsewhere. *)
Lemma rebind_frame key rest : key ∉ rebound_keys -> pointer (key :: rest) response' = pointer (key :: rest) response.
Proof.
  intros Hk. destruct rebind_stages as (r1 & r2 & r3 & r4 & r5 & r6 & H1 & H2 & H3 & H4 & H5 & H6 & H7).
  assert (Hne : forall k, k ∈ rebound_keys -> key <> k) by by intros k ? ->.
  assert (Hin : forall k, bool_decide (k ∈ rebound_keys) = true -> key <> k) by (intros k Hb; apply Hne; by apply bool_decide_eq_true in Hb).
  rewrite (insert_if_frame _ _ _ _ _ rest H7), (insert_if_frame _ _ _ _ _ rest H6) by by apply Hin.
  rewrite (pointer_insert_field _ _ _ _ rest key H5), (pointer_update_field _ _ _ _ rest key H4),
    (pointer_update_field _ _ _ _ rest key H3) by by apply Hin.
  rewrite (interfaces_frame _ _ key rest H2) by by apply Hin.
  by apply (pointer_update_field _ _ _ _ rest key H1), Hin.
Qed.

Lemma rebind_snapshot rest :
  pointer ("source_snapshot" :: "identity" :: rest) response' = pointer rest (Str source_identity) /\
  pointer ("source_snapshot" :: "files" :: rest) response' = pointer rest (Array files).
Proof.
  destruct rebind_stages as (r1 & r2 & r3 & r4 & r5 & r6 & H1 & H2 & H3 & H4 & H5 & H6 & H7).
  assert (Hf : forall k, pointer ("source_snapshot" :: k :: rest) response' = pointer ("source_snapshot" :: k :: rest) r1).
  { intros k. rewrite (insert_if_frame _ _ _ _ _ _ H7), (insert_if_frame _ _ _ _ _ _ H6) by done.
    rewrite (pointer_insert_field _ _ _ _ _ _ H5), (pointer_update_field _ _ _ _ _ _ H4),
      (pointer_update_field _ _ _ _ _ _ H3) by done. by apply (interfaces_frame _ _ _ _ H2). }
  rewrite !Hf. unfold rebind_cached_source_snapshot in H1.
  destruct (update_field_some _ _ _ _ H1) as (x & y & Hx & Hy & Hg).
  destruct (insert_field "identity" (Str source_identity) x) as [z|] eqn:Ez; cbn [mbind option_bind] in Hy; [|done].
  cbn [pointer]. rewrite Hg. cbn [mbind option_bind]. split.
  - rewrite (get_insert_field _ _ _ _ _ Hy). cbn. by rewrite (get_insert_field _ _ _ _ _ Ez), String.eqb_refl.
  - by rewrite (get_insert_field _ _ _ _ _ Hy), String.eqb_refl.
Qed.

Lemma rebind_entry key rest :
  pointer ("entry" :: key :: rest) response' =
  if String.eqb key "interface" then pointer rest entry_interface else pointer ("entry" :: key :: rest) response.
Proof.
  destruct rebind_stages as (r1 & r2 & r3 & r4 & r5 & r6 & H1 & H2 & H3 & H4 & H5 & H6 & H7).
  assert (Hbefore : forall l, pointer ("entry" :: l) r3 = pointer ("entry" :: l) response).
  { intros l. rewrite (pointer_update_field _ _ _ _ _ _ H3) by done.
    rewrite (interfaces_frame _ _ _ _ H2) by done. by apply (pointer_update_field _ _ _ _ _ _ H1). }
  rewrite (insert_if_frame _ _ _ _ _ _ H7), (insert_if_frame _ _ _ _ _ _ H6) by done.
  rewrite (pointer_insert_field _ _ _ _ _ _ H5) by done. rewrite <- Hbefore.
  destruct (update_field_some _ _ _ _ H4) as (x & y & Hx & Hy & Hg).
  cbn [pointer]. rewrite Hg, Hx. cbn [mbind option_bind]. rewrite (get_insert_field _ _ _ _ _ Hy).
  by destruct (String.eqb key "interface").
Qed.

Lemma rebind_late rest :
  pointer ("diagnostics" :: rest) response' = pointer rest diagnostics /\
  get "source_test_inventory" response' =
    match inventory with Some x => Some x | None => get "source_test_inventory" response end /\
  get "test_case_selection" response' =
    match selection with Some x => Some x | None => get "test_case_selection" response end.
Proof.
  destruct rebind_stages as (r1 & r2 & r3 & r4 & r5 & r6 & H1 & H2 & H3 & H4 & H5 & H6 & H7).
  assert (Hget : forall key v w, pointer [key] v = pointer [key] w -> get key v = get key w).
  { intros key v w Hp. cbn in Hp. by destruct (get key v), (get key w). }
  assert (Hbefore : forall key, key <> "source_snapshot" -> key <> "entries" -> key <> "callable_scope" ->
    key <> "dependency_graph" -> key <> "entry" -> key <> "diagnostics" -> get key r5 = get key response).
  { intros key ? ? ? ? ? ?. apply Hget.
    rewrite (pointer_insert_field _ _ _ _ _ _ H5), (pointer_update_field _ _ _ _ _ _ H4),
      (pointer_update_field _ _ _ _ _ _ H3) by done.
    rewrite (interfaces_frame _ _ _ _ H2) by done. by apply (pointer_update_field _ _ _ _ _ _ H1). }
  split_and!.
  - rewrite (insert_if_frame _ _ _ _ _ _ H7), (insert_if_frame _ _ _ _ _ _ H6) by done. by apply (pointer_inserted _ _ _ _ _ H5).
  - rewrite (Hget _ _ _ (insert_if_frame _ _ _ _ "source_test_inventory" [] H7 ltac:(done))).
    rewrite (insert_if_get _ _ _ _ H6). by rewrite Hbefore.
  - rewrite (insert_if_get _ _ _ _ H7).
    rewrite (Hget _ _ _ (insert_if_frame _ _ _ _ "test_case_selection" [] H6 ltac:(done))). by rewrite Hbefore.
Qed.

Lemma rebind_graph_fields :
  pointer ["dependency_graph"; "identity"] response' = Some (Str (gf_identity graph)) /\
  pointer ["dependency_graph"; "details"] response' = Some (gf_details graph) /\
  pointer ["dependency_graph"; "semantic_identity"] response' = Some (Str (gf_semantic_identity graph)) /\
  pointer ["dependency_graph"; "application_executable_closure_identity"] response' =
    Some (Str (gf_executable_closure_identity graph)).
Proof.
  destruct rebind_stages as (r1 & r2 & r3 & r4 & r5 & r6 & H1 & H2 & H3 & H4 & H5 & H6 & H7).
  assert (Hf : forall k, pointer ["dependency_graph"; k] response' = pointer ["dependency_graph"; k] r3).
  { intros k. rewrite (insert_if_frame _ _ _ _ _ _ H7), (insert_if_frame _ _ _ _ _ _ H6) by done.
    by rewrite (pointer_insert_field _ _ _ _ _ _ H5), (pointer_update_field _ _ _ _ _ _ H4). }
  rewrite !Hf. destruct (update_field_some _ _ _ _ H3) as (x & y & Hx & Hy & Hg). unfold rebind_graph in Hy.
  repeat match type of Hy with
  | mbind _ ?o = Some _ => let E := fresh "E" in destruct o eqn:E; cbn [mbind option_bind] in Hy; [|done]
  end.
  cbn [pointer]. rewrite Hg. cbn [mbind option_bind].
  repeat match goal with H : insert_field _ _ _ = Some _ |- _ =>
    try rewrite !(get_insert_field _ _ _ _ _ H); clear H end.
  done.
Qed.

(** What is below the graph and the snapshot, key by key. *)
Definition graph_field (key : string) : option Value :=
  if String.eqb key "identity" then Some (Str (gf_identity graph))
  else if String.eqb key "details" then Some (gf_details graph)
  else if String.eqb key "semantic_identity" then Some (Str (gf_semantic_identity graph))
  else if String.eqb key "application_executable_closure_identity" then Some (Str (gf_executable_closure_identity graph))
  else pointer ["dependency_graph"; key] response.
Definition snapshot_field (key : string) : option Value :=
  if String.eqb key "identity" then Some (Str source_identity)
  else if String.eqb key "files" then Some (Array files)
  else pointer ["source_snapshot"; key] response.

Lemma rebind_graph_field key : pointer ["dependency_graph"; key] response' = graph_field key.
Proof.
  unfold graph_field. destruct rebind_graph_fields as (Hi & Hd & Hs & Hc).
  destruct (String.eqb_spec key "identity") as [->|N1]; [done|]. destruct (String.eqb_spec key "details") as [->|N2]; [done|].
  destruct (String.eqb_spec key "semantic_identity") as [->|N3]; [done|].
  destruct (String.eqb_spec key "application_executable_closure_identity") as [->|N4]; [done|].
  destruct rebind_stages as (r1 & r2 & r3 & r4 & r5 & r6 & H1 & H2 & H3 & H4 & H5 & H6 & H7).
  rewrite (insert_if_frame _ _ _ _ _ _ H7), (insert_if_frame _ _ _ _ _ _ H6) by done.
  rewrite (pointer_insert_field _ _ _ _ _ _ H5), (pointer_update_field _ _ _ _ _ _ H4) by done.
  assert (pointer ["dependency_graph"; key] r2 = pointer ["dependency_graph"; key] response) as <-.
  { rewrite (interfaces_frame _ _ _ _ H2) by done. by apply (pointer_update_field _ _ _ _ _ _ H1). }
  destruct (update_field_some _ _ _ _ H3) as (x & y & Hx & Hy & Hg). unfold rebind_graph in Hy.
  repeat match type of Hy with
  | mbind _ ?o = Some _ => let E := fresh "E" in destruct o eqn:E; cbn [mbind option_bind] in Hy; [|done]
  end.
  cbn [pointer]. rewrite Hg, Hx. cbn [mbind option_bind]. 
  repeat match goal with H : insert_field ?k _ _ = Some _, Hn : key <> ?k |- _ =>
    rewrite (get_insert_field _ _ _ _ _ H), (proj2 (String.eqb_neq _ _) Hn); clear H end.
  done.
Qed.

Lemma rebind_snapshot_field key : pointer ["source_snapshot"; key] response' = snapshot_field key.
Proof.
  unfold snapshot_field. destruct (rebind_snapshot []) as [Hi Hf].
  destruct (String.eqb_spec key "identity") as [->|N1]; [done|]. destruct (String.eqb_spec key "files") as [->|N2]; [done|].
  destruct rebind_stages as (r1 & r2 & r3 & r4 & r5 & r6 & H1 & H2 & H3 & H4 & H5 & H6 & H7).
  rewrite (insert_if_frame _ _ _ _ _ _ H7), (insert_if_frame _ _ _ _ _ _ H6) by done.
  rewrite (pointer_insert_field _ _ _ _ _ _ H5), (pointer_update_field _ _ _ _ _ _ H4),
    (pointer_update_field _ _ _ _ _ _ H3) by done. rewrite (interfaces_frame _ _ _ _ H2) by done.
  destruct (update_field_some _ _ _ _ H1) as (x & y & Hx & Hy & Hg).
  destruct (insert_field "identity" (Str source_identity) x) as [z|] eqn:Ez; cbn [mbind option_bind] in Hy; [|done].
  cbn [pointer]. rewrite Hg, Hx. cbn [mbind option_bind].
  by rewrite (get_insert_field _ _ _ _ _ Hy), (get_insert_field _ _ _ _ _ Ez), (proj2 (String.eqb_neq _ _) N1), (proj2 (String.eqb_neq _ _) N2).
Qed.

(** The rows of the selected callables, field by field: only their interfaces
    change. *)
Definition rows_rebound (rows rows' : list Value) : Prop :=
  List.length rows = List.length roots /\ List.length rows' = List.length roots /\
  forall i root, roots !! i = Some root -> exists row row' current, rows !! i = Some row /\ rows' !! i = Some row' /\
    interfaces !! i = Some (Some current) /\ get_str "module" row = Some root.1 /\ get_str "function" row = Some root.2 /\
    get_str "status" row = Some "verified" /\
    forall key, get key row' = if String.eqb key "interface" then Some current else get key row.

Lemma rebind_rows_rebound rows rows' :
  rebind_callable_interface_rows rows roots interfaces = Some rows' -> rows_rebound rows rows'.
Proof.
  unfold rebind_callable_interface_rows, rows_rebound. case_bool_decide as Hne; [done|]. cbn [orb].
  destruct (Nat.eqb_spec (List.length rows) (List.length roots)) as [Hl|]; [|done]. cbn [negb orb].
  destruct (Nat.eqb_spec (List.length interfaces) (List.length roots)) as [Hi|]; [|done]. cbn [negb].
  clear Hne Hrebind. revert roots interfaces rows' Hl Hi. induction rows as [|row rows IH];
    intros [|root rs] [|current ifs] rows' Hl Hi Hr; try done.
  - injection Hr as <-. split_and!; [done..|]. by intros [|i] ?.
  - cbn [rebind_rows] in Hr. destruct (rebind_row row root current) as [row'|] eqn:E; cbn [mbind option_bind] in Hr; [|done].
    destruct (rebind_rows rows rs ifs) as [rest|] eqn:Er; cbn [mbind option_bind] in Hr; [|done]. injection Hr as <-.
    destruct (IH rs ifs rest) as (_ & Hlen & Hrows); [by injection Hl|by injection Hi|done|].
    split_and!; [done|by cbn; rewrite Hlen|]. intros [|i] r Hri; [|by apply Hrows]. injection Hri as <-.
    unfold rebind_row in E. destruct current as [current|]; cbn [mbind option_bind] in E; [|done].
    destruct (bool_decide (get_str "module" row = _)) eqn:E1; cbn [negb orb] in E; [|done].
    destruct (bool_decide (get_str "function" row = _)) eqn:E2; cbn [negb orb] in E; [|done].
    destruct (bool_decide (get_str "status" row = _)) eqn:E3; cbn [negb orb] in E; [|done].
    apply bool_decide_eq_true in E1, E2, E3. exists row, row', current. split_and!; [done..|].
    intros key. exact (get_insert_field _ _ _ _ _ E).
Qed.

(** The rows of the selected callables carry the current interfaces. *)
Lemma rebind_rows_matched rows rows' :
  rebind_callable_interface_rows rows roots interfaces = Some rows' ->
  List.length rows' = List.length roots /\ List.length interfaces = List.length roots /\ roots <> [] /\
  forall i root, roots !! i = Some root -> exists row current, rows' !! i = Some row /\
    interfaces !! i = Some (Some current) /\ get_str "module" row = Some root.1 /\
    get_str "function" row = Some root.2 /\ get_str "status" row = Some "verified" /\ get "interface" row = Some current.
Proof.
  unfold rebind_callable_interface_rows. case_bool_decide as Hne; [done|]. cbn [orb].
  destruct (Nat.eqb_spec (List.length rows) (List.length roots)) as [Hl|]; [|done]. cbn [negb orb].
  destruct (Nat.eqb_spec (List.length interfaces) (List.length roots)) as [Hi|]; [|done]. cbn [negb].
  intros Hr. assert (Hgen : List.length rows' = List.length roots /\ forall i root, roots !! i = Some root ->
    exists row current, rows' !! i = Some row /\
      interfaces !! i = Some (Some current) /\ get_str "module" row = Some root.1 /\
      get_str "function" row = Some root.2 /\ get_str "status" row = Some "verified" /\ get "interface" row = Some current);
    [|by destruct Hgen; split_and!].
  clear Hne Hrebind. revert roots interfaces rows' Hl Hi Hr. induction rows as [|row rows IH];
    intros [|root rs] [|current ifs] rows' Hl Hi Hr; try done.
  - injection Hr as <-. split; [done|]. by intros [|i] ?.
  - cbn [rebind_rows] in Hr. destruct (rebind_row row root current) as [row'|] eqn:E; cbn [mbind option_bind] in Hr; [|done].
    destruct (rebind_rows rows rs ifs) as [rest|] eqn:Er; cbn [mbind option_bind] in Hr; [|done]. injection Hr as <-.
    destruct (IH rs ifs rest) as [Hlen Hrows]; [by injection Hl|by injection Hi|done|].
    split; [by cbn; rewrite Hlen|]. intros [|i] r Hri; [|by apply Hrows]. injection Hri as <-.
    unfold rebind_row in E. destruct current as [current|]; cbn [mbind option_bind] in E; [|done].
    destruct (bool_decide (get_str "module" row = _)) eqn:E1; cbn [negb orb] in E; [|done].
    destruct (bool_decide (get_str "function" row = _)) eqn:E2; cbn [negb orb] in E; [|done].
    destruct (bool_decide (get_str "status" row = _)) eqn:E3; cbn [negb orb] in E; [|done].
    apply bool_decide_eq_true in E1, E2, E3. exists row', current. unfold get_str in *.
    rewrite !(get_insert_field _ _ _ _ _ E). by split_and!.
Qed.

Lemma update_array_get keys f v w :
  update_array keys f v = Some w ->
  exists rows rows', pointer_array keys v = Some rows /\ f rows = Some rows' /\ pointer_array keys w = Some rows'.
Proof.
  unfold update_array, pointer_array. revert v w. induction keys as [|key keys IH]; intros v w Hu.
  - cbn in *. destruct v as [| | | |rows|]; cbn in Hu; try done. destruct (f rows) as [rows'|] eqn:E; [|done].
    injection Hu as <-. by exists rows, rows'.
  - cbn [update_at] in Hu. destruct (update_field_some _ _ _ _ Hu) as (x & y & Hx & Hy & Hg).
    apply IH in Hy as (rows & rows' & Hr & Hf & Hr'). exists rows, rows'. cbn [pointer]. rewrite Hx, Hg. done.
Qed.

Lemma rebind_interfaces :
  multiple = true ->
  exists rows rows' scope scope', rebind_callable_interface_rows rows roots interfaces = Some rows' /\
    rebind_callable_interface_rows scope roots interfaces = Some scope' /\
    pointer_array ["entries"] response = Some rows /\ pointer_array ["callable_scope"; "callable_roots"] response = Some scope /\
    pointer_array ["entries"] response' = Some rows' /\
    pointer_array ["callable_scope"; "callable_roots"] response' = Some scope'.
Proof.
  intros Hm. destruct rebind_stages as (r1 & r2 & r3 & r4 & r5 & r6 & H1 & H2 & H3 & H4 & H5 & H6 & H7).
  assert (Hlate : forall key rest, key = "entries" \/ key = "callable_scope" ->
    pointer (key :: rest) response' = pointer (key :: rest) r2).
  { intros key rest Hk.
    rewrite (insert_if_frame _ _ _ _ _ _ H7), (insert_if_frame _ _ _ _ _ _ H6) by by destruct Hk; subst.
    by rewrite (pointer_insert_field _ _ _ _ _ _ H5), (pointer_update_field _ _ _ _ _ _ H4),
      (pointer_update_field _ _ _ _ _ _ H3) by by destruct Hk; subst. }
  rewrite Hm in H2. unfold rebind_cached_callable_interfaces in H2.
  destruct (update_array ["entries"] _ r1) as [r|] eqn:E; cbn [mbind option_bind] in H2; [|done].
  pose proof (update_array_get _ _ _ _ E) as (rows & rows' & Hbefore & Hrows & He).
  pose proof (update_array_get _ _ _ _ H2) as (scope & scope' & Hbefore' & Hscope & Hs).
  exists rows, rows', scope, scope'. split_and!; try done; unfold pointer_array in *.
  { by rewrite <- Hbefore, (pointer_update_field _ _ _ _ [] "entries" H1). }
  { rewrite <- Hbefore'. unfold update_array in E. rewrite (update_at_frame _ _ _ _ _ "callable_scope" ["callable_roots"] E) by done.
    by rewrite (pointer_update_field _ _ _ _ _ "callable_scope" H1). }
  all: rewrite Hlate by auto.
  2: done.
  unfold update_array in H2. by rewrite (update_at_frame _ _ _ _ _ "entries" [] H2).
Qed.

(** Only the roots of the callable scope change. *)
Lemma rebind_scope key rest :
  key <> "callable_roots" ->
  pointer ("callable_scope" :: key :: rest) response' = pointer ("callable_scope" :: key :: rest) response.
Proof.
  intros Hk. destruct rebind_stages as (r1 & r2 & r3 & r4 & r5 & r6 & H1 & H2 & H3 & H4 & H5 & H6 & H7).
  rewrite (insert_if_frame _ _ _ _ _ _ H7), (insert_if_frame _ _ _ _ _ _ H6) by done.
  rewrite (pointer_insert_field _ _ _ _ _ _ H5), (pointer_update_field _ _ _ _ _ _ H4),
    (pointer_update_field _ _ _ _ _ _ H3) by done.
  trans (pointer ("callable_scope" :: key :: rest) r1); [|by apply (pointer_update_field _ _ _ _ _ _ H1)].
  destruct multiple; [|by injection H2 as ->]. unfold rebind_cached_callable_interfaces, update_array in H2.
  destruct (update_at ["entries"] _ r1) as [r|] eqn:E; cbn [mbind option_bind] in H2; [|done].
  rewrite <- (update_at_frame _ _ _ _ _ "callable_scope" (key :: rest) E) by done.
  cbn [update_at] in H2. destruct (update_field_some _ _ _ _ H2) as (x & y & Hx & Hy & Hg).
  cbn [pointer]. rewrite Hg, Hx. cbn [mbind option_bind]. by apply (pointer_update_field _ _ _ _ rest key Hy).
Qed.

Lemma interfaces_match_all rs ifs entries scopes :
  List.length ifs = List.length rs -> List.length entries = List.length rs -> List.length scopes = List.length rs ->
  (forall i root, rs !! i = Some root -> exists current entry scope, ifs !! i = Some current /\
     entries !! i = Some entry /\ scopes !! i = Some scope /\ interface_matches root current entry scope = true) ->
  interfaces_match rs ifs entries scopes = true.
Proof.
  revert ifs entries scopes. induction rs as [|r rs IH]; intros [|c ifs] [|e entries] [|s scopes] Hi He Hs Hall; try done.
  cbn [interfaces_match]. destruct (Hall 0 r eq_refl) as (? & ? & ? & [= <-] & [= <-] & [= <-] & ->). cbn [andb].
  apply IH; [by injection Hi|by injection He|by injection Hs|]. intros i root Hr. by apply (Hall (S i)).
Qed.

(** What a rebind keeps and what it replaces. *)
Lemma rebind_valid contract probe toolchain :
  response_holds response contract None probe toolchain ->
  (exists hash, source_identity = "sha256:" +:+ hash) ->
  response_holds response' contract (Some source_identity) probe toolchain /\
  get "artifact" response' = get "artifact" response /\
  pointer ["source_snapshot"; "files"] response' = Some (Array files) /\
  pointer_str ["dependency_graph"; "application_executable_closure_identity"] response' =
    Some (gf_executable_closure_identity graph) /\
  pointer ["entry"; "interface"] response' = Some entry_interface /\
  get "diagnostics" response' = Some diagnostics /\
  (is_Some inventory -> get "source_test_inventory" response' = inventory) /\
  (is_Some selection -> get "test_case_selection" response' = selection).
Proof.
  intros (cached & _ & _ & Hschema & Hstatus & _ & Hprobe & Ha & Hv & Hid & Hentry & Htool) Hhash.
  assert (Hkey : forall key, key ∉ rebound_keys -> get key response' = get key response).
  { intros key Hk. pose proof (rebind_frame key [] Hk) as Hp. cbn in Hp.
    by destruct (get key response'), (get key response). }
  assert (Hout : forall key, bool_decide (key ∈ rebound_keys) = false -> key ∉ rebound_keys)
    by by intros key Hb%bool_decide_eq_false.
  destruct (rebind_late []) as (Hd & Hi & Hs). destruct rebind_graph_fields as (_ & _ & _ & Hg).
  split_and!.
  - exists source_identity. unfold get_str, pointer_str in *.
    rewrite !(rebind_frame "producer"), !(rebind_frame "artifact") by by apply Hout.
    rewrite (Hkey "schema_version"), (Hkey "status") by by apply Hout.
    rewrite rebind_entry. cbn [String.eqb]. split_and!; try done.
    + by rewrite (proj1 (rebind_snapshot [])).
    + by intros ? [= <-].
  - apply Hkey. by apply Hout.
  - apply rebind_snapshot.
  - unfold pointer_str. by rewrite Hg.
  - by rewrite rebind_entry.
  - cbn in Hd. by destruct (get "diagnostics" response').
  - intros [x Hx]. rewrite Hi, Hx. done.
  - intros [x Hx]. rewrite Hs, Hx. done.
Qed.

(** Without several callables their rows stay. *)
Lemma rebind_single rest :
  multiple = false ->
  pointer ("entries" :: rest) response' = pointer ("entries" :: rest) response /\
  pointer ("callable_scope" :: rest) response' = pointer ("callable_scope" :: rest) response.
Proof.
  intros Hm. destruct rebind_stages as (r1 & r2 & r3 & r4 & r5 & r6 & H1 & H2 & H3 & H4 & H5 & H6 & H7).
  rewrite Hm in H2. injection H2 as <-.
  split; rewrite (insert_if_frame _ _ _ _ _ _ H7), (insert_if_frame _ _ _ _ _ _ H6) by done;
    rewrite (pointer_insert_field _ _ _ _ _ _ H5), (pointer_update_field _ _ _ _ _ _ H4),
      (pointer_update_field _ _ _ _ _ _ H3) by done; by apply (pointer_update_field _ _ _ _ _ _ H1).
Qed.

Lemma pointer_one key v : pointer [key] v = get key v.
Proof. cbn. by destruct (get key v). Qed.

(** C26: bringing a cached response up to date, field by field.  The source
    snapshot gets the current identity and files, the dependency graph the
    current identity, details, semantic identity and closure identity, the entry
    the current interface, and with several callables the row of each of them,
    in the entries and in the callable scope, its current interface; diagnostics
    are replaced, and test inventory and selection where there are current ones.
    Nothing else changes: not another field of these objects -- so the copy of
    the selection below the callable scope stays as it was cached -- and not
    another key of the response.  A cached response the reader accepted for its
    own snapshot is, once rebound and published, one it accepts for the current
    snapshot. *)
Theorem rebound_response_valid contract probe toolchain :
  response_holds response contract None probe toolchain ->
  (exists hash, source_identity = "sha256:" +:+ hash) ->
  response_holds response' contract (Some source_identity) probe toolchain /\
  (forall key, key ∉ rebound_keys -> get key response' = get key response) /\
  (forall key, pointer ["source_snapshot"; key] response' = snapshot_field key) /\
  (forall key, pointer ["dependency_graph"; key] response' = graph_field key) /\
  (forall key, pointer ["entry"; key] response' =
     if String.eqb key "interface" then Some entry_interface else pointer ["entry"; key] response) /\
  get "diagnostics" response' = Some diagnostics /\
  get "source_test_inventory" response' =
    match inventory with Some x => Some x | None => get "source_test_inventory" response end /\
  get "test_case_selection" response' =
    match selection with Some x => Some x | None => get "test_case_selection" response end /\
  (multiple = false ->
     get "entries" response' = get "entries" response /\ get "callable_scope" response' = get "callable_scope" response) /\
  (multiple = true -> exists rows rows' scope scope',
     pointer_array ["entries"] response = Some rows /\ pointer_array ["entries"] response' = Some rows' /\ rows_rebound rows rows' /\
     pointer_array ["callable_scope"; "callable_roots"] response = Some scope /\
     pointer_array ["callable_scope"; "callable_roots"] response' = Some scope' /\ rows_rebound scope scope') /\
  (forall key, key <> "callable_roots" -> pointer ["callable_scope"; key] response' = pointer ["callable_scope"; key] response).
Proof.
  intros Hholds Hhash. destruct (rebind_valid contract probe toolchain Hholds Hhash) as (Hnew & _ & _ & _ & _ & Hdiagnostics & _).
  destruct (rebind_late []) as (_ & Hinventory & Hselection). split_and!; try done.
  - intros key Hk. pose proof (rebind_frame key [] Hk) as Hp. by rewrite !pointer_one in Hp.
  - apply rebind_snapshot_field.
  - apply rebind_graph_field.
  - intros key. by rewrite rebind_entry.
  - intros Hm. destruct (rebind_single [] Hm) as [He Hs]. by rewrite !pointer_one in He, Hs.
  - intros Hm. destruct (rebind_interfaces Hm) as (rows & rows' & scope & scope' & Hr & Hs & He & Hsc & He' & Hsc').
    exists rows, rows', scope, scope'. split_and!; [done|done|by apply rebind_rows_rebound|done|done|by apply rebind_rows_rebound].
  - intros key. apply rebind_scope.
Qed.

(** A rebound response passes the interface check it was admitted by: the
    row of every selected callable, in the entries and in the callable scope,
    carries the callable's current interface. *)
Theorem rebound_interfaces_match first_module first_function first rest_roots rest_interfaces :
  multiple = true -> roots = (first_module, first_function) :: rest_roots ->
  interfaces = Some first :: rest_interfaces -> entry_interface = first ->
  pointer_str ["entry"; "module"] response = Some first_module ->
  pointer_str ["entry"; "function"] response = Some first_function ->
  pointer_str ["entry"; "status"] response = Some "verified" ->
  (forall current, Some current ∈ interfaces ->
     get_str "status" current = Some "verified" /\
     exists identity, get_str "identity" current = Some identity /\ identity <> "") ->
  cached_callable_interfaces_match response' roots interfaces = true.
Proof.
  intros Hm Hroots Hifs Hentry Hmod Hfun Hstatus Hver.
  destruct (rebind_interfaces Hm) as (rows & rows' & scope & scope' & Hr & Hs & _ & _ & He & Hsc).
  destruct (rebind_rows_matched _ _ Hr) as (Hlr & Hli & _ & Hrows).
  destruct (rebind_rows_matched _ _ Hs) as (Hls & _ & _ & Hscope).
  assert (Hmatch : interfaces_match roots interfaces rows' scope' = true).
  { apply interfaces_match_all; [done..|]. intros i root Hi.
    destruct (Hrows i root Hi) as (row & current & Hrow & Hc & M1 & F1 & S1 & I1).
    destruct (Hscope i root Hi) as (row2 & current2 & Hrow2 & Hc2 & M2 & F2 & S2 & I2).
    rewrite Hc in Hc2. injection Hc2 as <-. exists (Some current), row, row2. split_and!; try done.
    destruct (Hver current) as [Hst (identity & Hid & Hne)]; [by eapply list_elem_of_lookup_2|].
    unfold interface_matches, row_matches. rewrite Hid. unfold pointer_str. cbn [pointer]. rewrite I1, I2.
    cbn [mbind option_bind]. unfold get_str in *. rewrite M1, M2, F1, F2, S1, S2, Hst.
    destruct (get "identity" current) as [x|]; [|done]. cbn [mbind option_bind] in *.
    destruct (get "status" current) as [y|]; [|done]. cbn [mbind option_bind] in *. rewrite Hst, Hid.
    rewrite !bool_decide_true by done. by destruct (String.eqb_spec identity ""). }
  unfold cached_callable_interfaces_match. rewrite Hroots, Hifs. rewrite <- Hroots, <- Hifs.
  rewrite Hli, Nat.eqb_refl, Hsc. unfold get_array.
  assert (get "entries" response' ≫= as_array = Some rows') as ->.
  { unfold pointer_array in He. cbn in He. by destruct (get "entries" response'). }
  rewrite Hlr, Hls, Nat.eqb_refl, Hmatch. unfold pointer_str in *. rewrite !rebind_entry. cbn [String.eqb].
  rewrite !bool_decide_true; try done. rewrite Hentry. unfold get_str. cbn. by destruct (get "identity" first).
Qed.

(** The selection that the callable scope repeats is not brought up to date. *)
Theorem rebound_scope_selection_stale :
  pointer ["callable_scope"; "test_case_selection"] response' =
  pointer ["callable_scope"; "test_case_selection"] response.
Proof. by apply rebind_scope. Qed.
End Rebind.

(** ** Witnesses *)

From S2P Require Import AppSamples.

Definition sample_interface (identity : string) : Value :=
  object [("identity", Str identity); ("status", Str "verified")].
Definition sample_row (interface : Value) : Value :=
  object [("module", Str "m"); ("function", Str "f"); ("status", Str "verified"); ("interface", interface)].
Definition old_modules : list (string * string) := [("lib", "module lib"); ("unused", "1")].
Definition sample_resolution : Value := object [
  ("requested_module", Str "lib"); ("module_identity", Str "id:lib"); ("source_identity", Str "s");
  ("semantic_fingerprint", Str "f")].

Definition cached_sample : Value := object [
  ("schema_version", Str CONTRACT_V4); ("status", Str "verified");
  ("source_snapshot", object [("identity", Str "sha256:old");
     ("files", Array (@source_files reference_crate "app" "module app" old_modules))]);
  ("dependency_graph", object [("details", object [("dependencies", strings ["id:lib"]);
     ("resolutions", Array [sample_resolution])])]);
  ("producer", object [("probe", object [("probe_executable_sha256", Str "p")])]);
  ("callable_scope", object [("callable_roots", Array [sample_row (sample_interface "i")]);
     ("test_case_selection", Str "old selection")]);
  ("entries", Array [sample_row (sample_interface "i")]);
  ("artifact", object [("schema_version", Str VM_ARTIFACT_SCHEMA); ("identity", Str "a");
     ("value", object [("schema_version", Str VM_ARTIFACT_SCHEMA); ("artifact_id", Str "a")])]);
  ("entry", sample_row (sample_interface "i"))].

(** Editing a module nothing imports keeps the cached application. *)
Lemma closure_match_exact_witness :
  @cached_application_matches_dependency_closure reference_crate cached_sample "app" "module app"
    [("lib", "module lib"); ("unused", "2")] = true.
Proof.
  apply (@closure_match_exact reference_crate reference_sha_inj cached_sample "app" "module app" old_modules
    ["id:lib"] [sample_resolution]); [repeat constructor|reflexivity..|].
  split_and!; try reflexivity.
  - apply (bool_decide_unpack _). vm_compute. exact I.
  - apply NoDup_singleton.
  - exists [("lib", "id:lib")]. split_and!; [|apply NoDup_singleton|done].
    repeat constructor. by exists "module lib".
Defined.

Definition sample_graph : GraphFacts := mkGraph "sha256:g" (object []) "sha256:s" "sha256:c".
Definition rebound_sample : Value := default Null
  (rebind_cached_application_response cached_sample "sha256:new" [] sample_graph (sample_interface "i2") (Array [])
    true [("m", "f")] [Some (sample_interface "i2")] None (Some (Str "new selection"))).

Lemma rebound_sample_ok :
  rebind_cached_application_response cached_sample "sha256:new" [] sample_graph (sample_interface "i2") (Array [])
    true [("m", "f")] [Some (sample_interface "i2")] None (Some (Str "new selection")) = Some rebound_sample.
Proof. vm_compute. reflexivity. Qed.

Lemma rebound_response_valid_witness :
  @response_holds sample_json_crate rebound_sample CONTRACT_V4 (Some "sha256:new") "p" None.
Proof.
  apply (@rebound_response_valid sample_json_crate cached_sample rebound_sample "sha256:new" [] sample_graph
    (sample_interface "i2") (Array []) true [("m", "f")] [Some (sample_interface "i2")] None
    (Some (Str "new selection")) rebound_sample_ok CONTRACT_V4 "p" None); [|by eexists].
  eexists. split_and!; try reflexivity; [by eexists|done].
Defined.

Lemma rebound_interfaces_match_witness :
  cached_callable_interfaces_match rebound_sample [("m", "f")] [Some (sample_interface "i2")] = true.
Proof.
  apply (rebound_interfaces_match cached_sample rebound_sample "sha256:new" [] sample_graph
    (sample_interface "i2") (Array []) true [("m", "f")] [Some (sample_interface "i2")] None
    (Some (Str "new selection")) rebound_sample_ok "m" "f" (sample_interface "i2") [] []); try reflexivity.
  intros current [[= ->]|[]%elem_of_nil]%elem_of_cons. split; [reflexivity|]. by exists "i2".
Defined.

(** The response then states two selections. *)
Lemma rebound_scope_selection_sample :
  get "test_case_selection" rebound_sample = Some (Str "new selection") /\
  pointer ["callable_scope"; "test_case_selection"] rebound_sample = Some (Str "old selection").
Proof. vm_compute. split; reflexivity. Qed.
