(* ===== verification/AppAnnotate.v ===== *)
(** What a build response reports about its own work:
    [tools/stage0-probe/src/application.rs], from [annotate_cache] to
    [annotate_artifact_emission_failure].  Definitions only. *)

From Stdlib Require Import String.
From S2P Require Export AppKeys.

Local Open Scope string_scope.
Local Open Scope list_scope.

(** Contracts from the n-th on, as [matches!] lists them. *)
Definition contracts_from (n : nat) : list string :=
  drop (n - 1) [CONTRACT_V1; CONTRACT_V2; CONTRACT_V3; CONTRACT_V4; CONTRACT_V5; CONTRACT_V6; CONTRACT_V7;
    CONTRACT_V8; CONTRACT_V9; CONTRACT_V10; CONTRACT_V11; CONTRACT_V12; CONTRACT_V13].
Definition contract_from (n : nat) (contract : option string) : bool :=
  match contract with Some contract => one_of contract (contracts_from n) | None => false end.
Definition is_contract (expected : string) (contract : option string) : bool := bool_decide (contract = Some expected).

(** Names and identities of the language crates. *)
Class WorkCrate := {
  WORK_FACT_SCHEMA : string; WORK_FACT_VERIFIER : string; WORK_FACT_POLICY : string;
  DECLARATION_FACT_SCHEMA_VERSION : string;
  RECORD_TYPE_FACT_VERIFIER_ID : string; RECORD_TYPE_FACT_POLICY_ID : string;
  SSA_FUNCTION_VERIFICATION_FACT_SCHEMA_VERSION : string; SSA_FUNCTION_VERIFICATION_FACT_VERIFIER_ID : string;
  SSA_FUNCTION_VERIFICATION_FACT_POLICY_ID : string; SSA_FUNCTION_VERIFICATION_LANGUAGE_PROFILE : string;
  SSA_FUNCTION_ARTIFACT_CACHE_SCHEMA_VERSION : string;
  SSA_FUNCTION_ARTIFACT_CACHE_OBSERVATION_SCHEMA_VERSION : string;
  SSA_FUNCTION_LOWERER_IDENTITY : string; SSA_FUNCTION_LOWERING_POLICY_IDENTITY : string;
  SOURCE_PARSE_CACHE_SCHEMA_VERSION : string; SOURCE_PARSE_CACHE_OBSERVATION_SCHEMA_VERSION : string;
  SOURCE_PARSE_POLICY_IDENTITY : string;
  VERIFICATION_DEPENDENCY_SUMMARY_CACHE_SCHEMA_VERSION : string;
  VERIFICATION_DEPENDENCY_SUMMARY_OBSERVATION_SCHEMA_VERSION : string;
  VERIFICATION_DEPENDENCY_SUMMARY_POLICY_IDENTITY : string;
  MODULE_ELABORATION_CACHE_SCHEMA_VERSION : string; MODULE_ELABORATION_CACHE_OBSERVATION_SCHEMA_VERSION : string;
  MODULE_ELABORATION_POLICY_IDENTITY : string
}.

(** A reuse observation: the subjects reused, those recomputed, and the rows of
    the latter as [serde_json] writes them, if it can. *)
Record ReuseObservation : Type := mkReuse {
  ro_reused : list string; ro_recomputed : list string; ro_recomputed_value : option Value
}.

(** [SsaFunctionFactWork]: how many facts, and the two observations; the whole
    artifact observation is also written. *)
Record SsaFunctionFactWork : Type := mkSsaWork {
  sw_fact_count : nat; sw_reuse : ReuseObservation; sw_artifact_reuse : ReuseObservation;
  sw_artifact_reuse_value : option Value
}.

Section Annotate.
Context `{WorkCrate}.

(** ** Observations of caches *)

Definition cache_work_value (schema observation_schema policy_key policy : string) (observation : option Value) : Value :=
  object [("schema_version", Str schema); ("observation_schema_version", Str observation_schema);
          (policy_key, Str policy);
          ("status", Str (if bool_decide (is_Some observation) then "observed" else "not_run"));
          ("observation", nullable observation)].

Definition source_parse_cache_work_value (observation : option Value) : Value :=
  cache_work_value SOURCE_PARSE_CACHE_SCHEMA_VERSION SOURCE_PARSE_CACHE_OBSERVATION_SCHEMA_VERSION
    "parser_policy_identity" SOURCE_PARSE_POLICY_IDENTITY observation.
Definition verification_dependency_summary_cache_work_value (observation : option Value) : Value :=
  cache_work_value VERIFICATION_DEPENDENCY_SUMMARY_CACHE_SCHEMA_VERSION
    VERIFICATION_DEPENDENCY_SUMMARY_OBSERVATION_SCHEMA_VERSION
    "policy_identity" VERIFICATION_DEPENDENCY_SUMMARY_POLICY_IDENTITY observation.
Definition module_elaboration_cache_work_value (observation : option Value) : Value :=
  cache_work_value MODULE_ELABORATION_CACHE_SCHEMA_VERSION MODULE_ELABORATION_CACHE_OBSERVATION_SCHEMA_VERSION
    "linker_policy_identity" MODULE_ELABORATION_POLICY_IDENTITY observation.

(** ** [annotate_cache_with_basis] *)

(** The schema of the observation and of the work it contains. *)
Definition observation_schema (contract : option string) : string :=
  if is_contract CONTRACT_V13 contract then "mncs.compiler.application-build-cache-observation/13"
  else if contract_from 11 contract then "mncs.compiler.application-build-cache-observation/12"
  else if contract_from 10 contract then
    if contract_from 11 contract then "mncs.compiler.application-build-cache-observation/10"
    else "mncs.compiler.application-build-cache-observation/9"
  else if contract_from 9 contract then "mncs.compiler.application-build-cache-observation/8"
  else if contract_from 8 contract then "mncs.compiler.application-build-cache-observation/7"
  else if contract_from 6 contract then "mncs.compiler.application-build-cache-observation/6"
  else if contract_from 5 contract then "mncs.compiler.application-build-cache-observation/5"
  else "mncs.compiler.application-build-cache-observation/4".

Definition work_schema (contract : option string) : string :=
  if is_contract CONTRACT_V13 contract then "mncs.compiler.application-build-verification-work/12"
  else if contract_from 11 contract then "mncs.compiler.application-build-verification-work/11"
  else if contract_from 10 contract then
    if contract_from 11 contract then "mncs.compiler.application-build-verification-work/9"
    else "mncs.compiler.application-build-verification-work/8"
  else if contract_from 9 contract then "mncs.compiler.application-build-verification-work/7"
  else if contract_from 5 contract then
    if is_contract CONTRACT_V8 contract then "mncs.compiler.application-build-verification-work/6"
    else if is_contract CONTRACT_V7 contract then "mncs.compiler.application-build-verification-work/5"
    else if contract_from 6 contract then "mncs.compiler.application-build-verification-work/4"
    else "mncs.compiler.application-build-verification-work/3"
  else "mncs.compiler.application-build-verification-work/2".

(** What was run, as the unit lists say. *)
Definition semantic_dependency_closure (frontend_invoked : bool) (reuse_basis : string) : string :=
  if frontend_invoked then "recomputed_by_full_frontend"
  else if String.eqb reuse_basis "verified_dependency_closure" then "reused_verified_dependency_closure"
  else "not_run".
Definition ssa_verification (reused_units recomputed_units : list string) : string :=
  if one_of "verified_vm_artifact" reused_units then "reused_verified_vm_artifact"
  else if one_of "ssa_verification" recomputed_units then "recomputed"
  else if one_of "verified_vm_artifact" recomputed_units then "attempted"
  else "not_run".
Definition backend_artifact (artifact_present : bool) (reused_units recomputed_units : list string) : string :=
  if one_of "verified_application_artifact" reused_units || one_of "verified_vm_artifact" reused_units then "reused"
  else if artifact_present && one_of "verified_vm_artifact" recomputed_units then "generated"
  else "not_generated".
Definition semantic_reverification_reason (frontend_invoked : bool) (reuse_basis : string) : string :=
  if String.eqb reuse_basis "exact_source_snapshot" then "exact_source_snapshot_cache_hit"
  else if String.eqb reuse_basis "verified_dependency_closure" then "source_change_outside_resolved_dependency_closure"
  else if frontend_invoked && String.eqb reuse_basis "verified_application_executable_closure" then
    "source_snapshot_changed; full_frontend_required_before_artifact_reuse"
  else if frontend_invoked then "no_reusable_language_verified_fact_set_selected"
  else "semantic_frontend_not_reached".
Definition artifact_decision_reason (backend_artifact reuse_basis : string) : string :=
  if String.eqb backend_artifact "reused" then
    if String.eqb reuse_basis "verified_application_executable_closure" then
      "executable_closure_and_interfaces_match_after_full_frontend"
    else "verified_cached_application_artifact"
  else if String.eqb backend_artifact "generated" then "no_compatible_verified_vm_artifact_reused"
  else "frontend_or_artifact_emission_did_not_produce_an_artifact".

Definition verification_work (contract : option string) (verifier_identity : Value) (artifact_present : bool)
  (reuse_basis : string) (reused_units recomputed_units : list string) : Value :=
  let frontend_invoked := one_of "source_semantic_check" recomputed_units in
  let source_stage := Str (if frontend_invoked then "recomputed_by_full_frontend" else "not_run") in
  let artifact := backend_artifact artifact_present reused_units recomputed_units in
  object [
    ("schema_version", Str (work_schema contract));
    ("verification_engine_identity", verifier_identity);
    ("source_parsing", source_stage);
    ("declaration_resolution", source_stage);
    ("signature_verification", source_stage);
    ("function_body_verification", source_stage);
    ("semantic_dependency_closure", Str (semantic_dependency_closure frontend_invoked reuse_basis));
    ("ssa_verification", Str (ssa_verification reused_units recomputed_units));
    ("backend_artifact", Str artifact);
    ("front_end_invocations", count (if frontend_invoked then 1 else 0));
    ("front_end_outcome", Str (if frontend_invoked then "not_recorded" else "not_run"));
    ("resolved_module_count", Null);
    ("program_function_count", Null);
    ("reused_semantic_facts", Array []);
    ("recomputed_semantic_facts", Array []);
    ("semantic_fact_recomputation_reasons", Array []);
    ("produced_semantic_fact_count", count 0);
    ("language_verification_fact_schema", Str WORK_FACT_SCHEMA);
    ("semantic_reverification_reason", Str (semantic_reverification_reason frontend_invoked reuse_basis));
    ("artifact_decision_reason", Str (artifact_decision_reason artifact reuse_basis))].

Definition cache_observation (contract : option string) (key status publication reuse_basis : string)
  (reused_from_key : option string) (reused_units recomputed_units : list string) (work : Value) : Value :=
  object [
    ("schema_version", Str (observation_schema contract));
    ("key", Str key);
    ("status", Str status);
    ("publication", Str publication);
    ("reuse_basis", Str reuse_basis);
    ("reused_from_key", nullable (Str <$> reused_from_key));
    ("reused_units", strings reused_units);
    ("recomputed_units", strings recomputed_units);
    ("verification_work", work)].

(** The rows a contract adds, in the order of the source. *)
Definition ssa_artifact_work : list (string * Value) := [
  ("reused_ssa_function_artifacts", Array []);
  ("recomputed_ssa_function_artifacts", Array []);
  ("ssa_function_artifact_recomputation_reasons", object [("status", Str "not_run")]);
  ("language_ssa_function_artifact_cache_schema", Str SSA_FUNCTION_ARTIFACT_CACHE_SCHEMA_VERSION);
  ("ssa_function_artifact_cache_observation_schema", Str SSA_FUNCTION_ARTIFACT_CACHE_OBSERVATION_SCHEMA_VERSION);
  ("ssa_function_lowerer_identity", Str SSA_FUNCTION_LOWERER_IDENTITY);
  ("ssa_function_lowering_policy_identity", Str SSA_FUNCTION_LOWERING_POLICY_IDENTITY)].
Definition dependency_summary_work : list (string * Value) :=
  [("verification_dependency_summary_cache", verification_dependency_summary_cache_work_value None)].
Definition function_body_work : list (string * Value) := [
  ("language_function_body_verification_fact_schema", Str WORK_FACT_SCHEMA);
  ("language_function_body_fact_verifier_identity", Str WORK_FACT_VERIFIER);
  ("language_function_body_fact_policy_identity", Str WORK_FACT_POLICY)].
Definition source_parse_work : list (string * Value) := [("source_parse_cache", source_parse_cache_work_value None)].
Definition module_elaboration_work : list (string * Value) :=
  [("module_elaboration_cache", module_elaboration_cache_work_value None)].
Definition declaration_work : list (string * Value) := [
  ("reused_declaration_facts", Array []);
  ("recomputed_declaration_facts", Array []);
  ("declaration_fact_recomputation_reasons", Array []);
  ("produced_declaration_fact_count", count 0);
  ("language_declaration_verification_fact_schema", Str DECLARATION_FACT_SCHEMA_VERSION)].
Definition not_reported (frontend_invoked : bool) : Value :=
  Str (if frontend_invoked then "not_reported" else "not_run").
Definition finite_type_work (frontend_invoked : bool) : list (string * Value) := [
  ("reused_finite_type_declaration_facts", Array []);
  ("recomputed_finite_type_declaration_facts", Array []);
  ("finite_type_declaration_fact_recomputation_reasons", Array []);
  ("produced_finite_type_declaration_fact_count", count 0);
  ("finite_type_declaration_verification", not_reported frontend_invoked);
  ("language_finite_type_declaration_verification_fact_schema", Str DECLARATION_FACT_SCHEMA_VERSION)].
Definition record_type_work (frontend_invoked : bool) : list (string * Value) := [
  ("reused_record_type_declaration_facts", Array []);
  ("recomputed_record_type_declaration_facts", Array []);
  ("record_type_declaration_fact_recomputation_reasons", Array []);
  ("produced_record_type_declaration_fact_count", count 0);
  ("record_type_declaration_verification", not_reported frontend_invoked);
  ("language_record_type_declaration_verification_fact_schema", Str DECLARATION_FACT_SCHEMA_VERSION);
  ("language_record_type_declaration_fact_verifier_identity", Str RECORD_TYPE_FACT_VERIFIER_ID);
  ("language_record_type_declaration_fact_policy_identity", Str RECORD_TYPE_FACT_POLICY_ID)].
Definition ssa_function_work (frontend_invoked : bool) : list (string * Value) := [
  ("reused_ssa_function_facts", Array []);
  ("recomputed_ssa_function_facts", Array []);
  ("ssa_function_fact_recomputation_reasons", Array []);
  ("produced_ssa_function_fact_count", count 0);
  ("ssa_function_verification", not_reported frontend_invoked);
  ("language_ssa_function_verification_fact_schema", Str SSA_FUNCTION_VERIFICATION_FACT_SCHEMA_VERSION);
  ("language_ssa_function_fact_verifier_identity", Str SSA_FUNCTION_VERIFICATION_FACT_VERIFIER_ID);
  ("language_ssa_function_fact_policy_identity", Str SSA_FUNCTION_VERIFICATION_FACT_POLICY_ID);
  ("language_ssa_function_profile", Str SSA_FUNCTION_VERIFICATION_LANGUAGE_PROFILE)].

Definition rows_if (b : bool) (rows : list (string * Value)) : list (string * Value) := if b then rows else [].

Definition contract_work (contract : option string) (frontend_invoked : bool) : list (string * Value) :=
  rows_if (contract_from 10 contract) ssa_artifact_work
  ++ rows_if (contract_from 11 contract) dependency_summary_work
  ++ rows_if (contract_from 11 contract) function_body_work
  ++ rows_if (contract_from 6 contract) source_parse_work
  ++ rows_if (is_contract CONTRACT_V13 contract) module_elaboration_work
  ++ rows_if (contract_from 5 contract) declaration_work
  ++ rows_if (contract_from 7 contract) (finite_type_work frontend_invoked)
  ++ rows_if (contract_from 8 contract) (record_type_work frontend_invoked)
  ++ rows_if (contract_from 9 contract) (ssa_function_work frontend_invoked).

Definition annotate_cache_with_basis (response : Value) (key status publication reuse_basis : string)
  (reused_from_key : option string) (reused_units recomputed_units : list string) : Value :=
  let artifact_present := bool_decide (is_Some (pointer ["artifact"; "value"] response)) in
  let verifier_identity := nullable (pointer ["producer"; "probe"; "probe_executable_sha256"] response) in
  let contract := get_str "schema_version" response in
  let frontend_invoked := one_of "source_semantic_check" recomputed_units in
  let work := set_fields (contract_work contract frontend_invoked)
    (verification_work contract verifier_identity artifact_present reuse_basis reused_units recomputed_units) in
  default response (insert_field "cache"
    (cache_observation contract key status publication reuse_basis reused_from_key reused_units recomputed_units work)
    response).

Definition annotate_cache (response : Value) (key status publication : string)
  (reused_units recomputed_units : list string) : Value :=
  let '(reuse_basis, reused_from_key) :=
    if String.eqb status "hit" then ("exact_source_snapshot", Some key) else ("none", None) in
  annotate_cache_with_basis response key status publication reuse_basis reused_from_key reused_units recomputed_units.

(** [if let Some(work) = response.pointer_mut("/cache/verification_work") ..]. *)
Definition update_work (f : Value -> Value) (response : Value) : Value :=
  default response (update_at ["cache"; "verification_work"] (fun work =>
    match work with Object fields => Some (f (Object fields)) | _ => None end) response).

Definition annotate_frontend_work (response : Value) (resolved_module_count : nat) (program_function_count : option nat)
  (frontend_outcome : string) : Value :=
  update_work (set_fields [
    ("resolved_module_count", count resolved_module_count);
    ("program_function_count", nullable (count <$> program_function_count));
    ("front_end_outcome", Str frontend_outcome)]) response.

Definition annotate_artifact_emission_failure (response : Value) (key : string) (resolved_module_count : nat)
  (program_function_count : option nat) : Value :=
  annotate_frontend_work
    (annotate_cache response key "bypass" "not_published" [] ["source_semantic_check"; "verified_vm_artifact"])
    resolved_module_count program_function_count "verified".

(** ** [annotate_language_fact_work] *)

(** The schemas of verification work from the n-th on, 3 to 12. *)
Definition work_schemas_from (n : nat) : list string :=
  drop (n - 3) [
    "mncs.compiler.application-build-verification-work/3"; "mncs.compiler.application-build-verification-work/4";
    "mncs.compiler.application-build-verification-work/5"; "mncs.compiler.application-build-verification-work/6";
    "mncs.compiler.application-build-verification-work/7"; "mncs.compiler.application-build-verification-work/8";
    "mncs.compiler.application-build-verification-work/9"; "mncs.compiler.application-build-verification-work/10";
    "mncs.compiler.application-build-verification-work/11"; "mncs.compiler.application-build-verification-work/12"].
Definition work_from (n : nat) (schema : option string) : bool :=
  match schema with Some schema => one_of schema (work_schemas_from n) | None => false end.

Definition nothing_reused (reuse : option ReuseObservation) : bool :=
  match reuse with Some reuse => bool_decide (ro_reused reuse = []) | None => true end.

(** The four rows every observation writes. *)
Definition reuse_rows (reused recomputed reasons produced : string) (reuse : ReuseObservation) (facts : nat)
  : list (string * Value) := [
  (reused, strings (ro_reused reuse));
  (recomputed, strings (ro_recomputed reuse));
  (reasons, default (Array []) (ro_recomputed_value reuse));
  (produced, count facts)].

Definition verification_label (all some : string) (reuse : ReuseObservation) : Value :=
  Str (match ro_reused reuse, ro_recomputed reuse with
       | _ :: _, [] => all
       | _ :: _, _ :: _ => some
       | [], _ :: _ => "recomputed"
       | [], [] => "not_applicable"
       end).

Definition reason_row (reason : string) : list (string * Value) :=
  [("semantic_reverification_reason", Str reason)].

Definition record_type_rows (reuse declaration finite record : option ReuseObservation) (facts : nat)
  : list (string * Value) :=
  match record with
  | None => []
  | Some record_reuse =>
      reuse_rows "reused_record_type_declaration_facts" "recomputed_record_type_declaration_facts"
        "record_type_declaration_fact_recomputation_reasons" "produced_record_type_declaration_fact_count"
        record_reuse facts
      ++ [("record_type_declaration_verification",
           verification_label "reused_with_language_record_type_facts"
             "recomputed_with_language_record_type_fact_reuse" record_reuse);
          ("language_record_type_declaration_verification_fact_schema", Str DECLARATION_FACT_SCHEMA_VERSION);
          ("language_record_type_declaration_fact_verifier_identity", Str RECORD_TYPE_FACT_VERIFIER_ID);
          ("language_record_type_declaration_fact_policy_identity", Str RECORD_TYPE_FACT_POLICY_ID)]
      ++ rows_if (negb (bool_decide (ro_reused record_reuse = [])) && nothing_reused declaration
                  && nothing_reused finite && nothing_reused reuse)
           (reason_row "current_language_record_type_facts_checked_and_independent_units_recomputed")
  end.

Definition function_fact_rows (reuse : option ReuseObservation) (facts : nat) : list (string * Value) :=
  match reuse with
  | None => []
  | Some reuse =>
      reuse_rows "reused_semantic_facts" "recomputed_semantic_facts" "semantic_fact_recomputation_reasons"
        "produced_semantic_fact_count" reuse facts
  end.

Definition declaration_rows (reuse declaration : option ReuseObservation) (facts : nat) : list (string * Value) :=
  match declaration with
  | None => []
  | Some declaration_reuse =>
      reuse_rows "reused_declaration_facts" "recomputed_declaration_facts" "declaration_fact_recomputation_reasons"
        "produced_declaration_fact_count" declaration_reuse facts
      ++ rows_if (negb (bool_decide (ro_reused declaration_reuse = [])))
           (("signature_verification", Str "recomputed_with_language_declaration_fact_reuse")
            :: rows_if (nothing_reused reuse)
                 (reason_row "current_language_declaration_facts_checked_and_independent_units_recomputed"))
  end.

(** The finite-type rows read the function facts already written. *)
Definition finite_type_rows (declaration finite : option ReuseObservation) (facts : nat) (work : Value)
  : list (string * Value) :=
  match finite with
  | None => []
  | Some reuse =>
      reuse_rows "reused_finite_type_declaration_facts" "recomputed_finite_type_declaration_facts"
        "finite_type_declaration_fact_recomputation_reasons" "produced_finite_type_declaration_fact_count" reuse facts
      ++ [("finite_type_declaration_verification",
           verification_label "reused_with_language_finite_type_facts"
             "recomputed_with_language_finite_type_fact_reuse" reuse)]
      ++ rows_if (negb (bool_decide (ro_reused reuse = [])) && nothing_reused declaration
                  && match get_array "reused_semantic_facts" work with
                     | Some facts => bool_decide (facts = []) | None => true end)
           (reason_row "current_language_finite_type_facts_checked_and_independent_units_recomputed")
  end.

Definition function_body_rows (reuse : option ReuseObservation) : list (string * Value) :=
  match reuse with
  | None => []
  | Some reuse =>
      if negb (bool_decide (ro_reused reuse = [])) then
        ("function_body_verification", Str "recomputed_with_language_fact_reuse")
        :: reason_row "current_language_facts_checked_and_independent_units_recomputed"
      else rows_if (negb (bool_decide (ro_recomputed reuse = [])))
        (reason_row "no_prior_language_function_body_fact_matched_current_inputs")
  end.

Definition ssa_fact_rows (work : option SsaFunctionFactWork) : list (string * Value) :=
  match work with
  | None => []
  | Some ssa =>
      reuse_rows "reused_ssa_function_facts" "recomputed_ssa_function_facts" "ssa_function_fact_recomputation_reasons"
        "produced_ssa_function_fact_count" (sw_reuse ssa) (sw_fact_count ssa)
      ++ [("ssa_function_verification",
           verification_label "reused_with_language_ssa_function_facts"
             "recomputed_with_language_ssa_function_fact_reuse" (sw_reuse ssa));
          ("language_ssa_function_verification_fact_schema", Str SSA_FUNCTION_VERIFICATION_FACT_SCHEMA_VERSION);
          ("language_ssa_function_fact_verifier_identity", Str SSA_FUNCTION_VERIFICATION_FACT_VERIFIER_ID);
          ("language_ssa_function_fact_policy_identity", Str SSA_FUNCTION_VERIFICATION_FACT_POLICY_ID);
          ("language_ssa_function_profile", Str SSA_FUNCTION_VERIFICATION_LANGUAGE_PROFILE)]
  end.

Definition ssa_artifact_rows (work : option SsaFunctionFactWork) : list (string * Value) :=
  match work with
  | Some ssa => [
      ("reused_ssa_function_artifacts", strings (ro_reused (sw_artifact_reuse ssa)));
      ("recomputed_ssa_function_artifacts", strings (ro_recomputed (sw_artifact_reuse ssa)));
      ("ssa_function_artifact_recomputation_reasons", default (object []) (sw_artifact_reuse_value ssa))]
  | None => [
      ("reused_ssa_function_artifacts", Array []);
      ("recomputed_ssa_function_artifacts", Array []);
      ("ssa_function_artifact_recomputation_reasons", object [("status", Str "not_run")])]
  end
  ++ [("language_ssa_function_artifact_cache_schema", Str SSA_FUNCTION_ARTIFACT_CACHE_SCHEMA_VERSION);
      ("ssa_function_artifact_cache_observation_schema", Str SSA_FUNCTION_ARTIFACT_CACHE_OBSERVATION_SCHEMA_VERSION);
      ("ssa_function_lowerer_identity", Str SSA_FUNCTION_LOWERER_IDENTITY);
      ("ssa_function_lowering_policy_identity", Str SSA_FUNCTION_LOWERING_POLICY_IDENTITY)].

(** What the frontend reports: the counts of facts and the observations. *)
Record LanguageWork : Type := mkLanguageWork {
  lw_facts : nat; lw_reuse : option ReuseObservation;
  lw_declaration_facts : nat; lw_declaration_reuse : option ReuseObservation;
  lw_finite_type_facts : nat; lw_finite_type_reuse : option ReuseObservation;
  lw_record_type_facts : nat; lw_record_type_reuse : option ReuseObservation;
  lw_source_parse_cache : option Value; lw_dependency_summary_cache : option Value;
  lw_module_elaboration_cache : option Value; lw_ssa : option SsaFunctionFactWork
}.

Definition language_fact_work (w : LanguageWork) (work : Value) : Value :=
  let schema := get_str "schema_version" work in
  let work := set_fields (rows_if (work_from 6 schema)
    (record_type_rows (lw_reuse w) (lw_declaration_reuse w) (lw_finite_type_reuse w) (lw_record_type_reuse w)
       (lw_record_type_facts w))) work in
  let work := set_fields (function_fact_rows (lw_reuse w) (lw_facts w)) work in
  let work := set_fields (rows_if (work_from 3 schema)
    (declaration_rows (lw_reuse w) (lw_declaration_reuse w) (lw_declaration_facts w))) work in
  let work := set_fields (rows_if (work_from 5 schema)
    (finite_type_rows (lw_declaration_reuse w) (lw_finite_type_reuse w) (lw_finite_type_facts w) work)) work in
  let work := set_fields (function_body_rows (lw_reuse w)) work in
  let work := set_fields (rows_if (work_from 4 schema)
    [("source_parse_cache", source_parse_cache_work_value (lw_source_parse_cache w))]) work in
  let work := set_fields (rows_if (work_from 12 schema)
    [("module_elaboration_cache", module_elaboration_cache_work_value (lw_module_elaboration_cache w))]) work in
  let work := set_fields (rows_if (work_from 7 schema) (ssa_fact_rows (lw_ssa w))) work in
  let work := set_fields (rows_if (work_from 9 schema)
    [("verification_dependency_summary_cache",
      verification_dependency_summary_cache_work_value (lw_dependency_summary_cache w))]) work in
  let work := set_fields (rows_if (work_from 10 schema) function_body_work) work in
  set_fields (rows_if (work_from 8 schema) (ssa_artifact_rows (lw_ssa w))) work.

Definition annotate_language_fact_work (response : Value) (w : LanguageWork) : Value :=
  update_work (language_fact_work w) response.
End Annotate.
