(* ===== verification/AppAnnotateTheorems.v ===== *)
(** Annotations describe the build and change nothing else of its response. *)

From Stdlib Require Import String.
From S2P Require Export AppAnnotate.

Local Open Scope string_scope.
Local Open Scope list_scope.

(** ** Reading written fields *)

Fixpoint last_row (key : string) (rows : list (string * Value)) : option Value :=
  match rows with
  | [] => None
  | (k, x) :: rows => match last_row key rows with Some y => Some y | None => if String.eqb key k then Some x else None end
  end.

Lemma last_row_app key l k :
  last_row key (l ++ k) = match last_row key k with Some y => Some y | None => last_row key l end.
Proof.
  induction l as [|[a x] l IH]; cbn; [by destruct (last_row key k)|]. rewrite IH. by destruct (last_row key k).
Qed.

Lemma last_row_if key b rows : last_row key (rows_if b rows) = if b then last_row key rows else None.
Proof. by destruct b. Qed.

Lemma set_fields_object rows fields :
  exists fields', set_fields rows (Object fields) = Object fields' /\
    forall key, get key (Object fields') = match last_row key rows with Some x => Some x | None => get key (Object fields) end.
Proof.
  unfold set_fields. revert fields. induction rows as [|[k x] rows IH]; intros fields; cbn [fold_left last_row].
  - by exists fields.
  - rewrite set_field_object. destruct (IH (bm_put k x fields)) as (fields' & -> & Hg). exists fields'. split; [done|].
    intros key. rewrite Hg. destruct (last_row key rows) as [y|]; [done|]. cbn [get]. rewrite get_put.
    by destruct (String.eqb key k).
Qed.

Lemma get_set_fields rows fields key :
  get key (set_fields rows (Object fields)) =
  match last_row key rows with Some x => Some x | None => get key (Object fields) end.
Proof. destruct (set_fields_object rows fields) as (fields' & -> & Hg). apply Hg. Qed.

(** Objects on which only fields are set. *)
Definition is_object (v : Value) : Prop := exists fields, v = Object fields.
Lemma set_fields_is_object rows v : is_object v -> is_object (set_fields rows v).
Proof. intros [fields ->]. destruct (set_fields_object rows fields) as (f & -> & _). by exists f. Qed.

Lemma get_set_fields' rows v key :
  is_object v -> get key (set_fields rows v) = match last_row key rows with Some x => Some x | None => get key v end.
Proof. intros [fields ->]. apply get_set_fields. Qed.

(** A field that no row writes. *)
Lemma last_row_none key rows : Forall (fun row => String.eqb key row.1 = false) rows -> last_row key rows = None.
Proof. induction 1 as [|[k x] rows Hk _ IH]; cbn in *; [done|]. by rewrite IH, Hk. Qed.

Lemma rows_if_forall (P : string * Value -> Prop) b rows : Forall P rows -> Forall P (rows_if b rows).
Proof. intros Hr. destruct b; [exact Hr|apply Forall_nil_2]. Qed.

Ltac no_row :=
  repeat first
    [ apply Forall_nil_2
    | apply Forall_cons_2; [reflexivity|]
    | apply Forall_app_2
    | apply rows_if_forall
    | progress unfold record_type_rows, function_fact_rows, declaration_rows, finite_type_rows, ssa_fact_rows,
        ssa_artifact_rows, reuse_rows, reason_row, ssa_artifact_work, dependency_summary_work, function_body_work,
        source_parse_work, module_elaboration_work, declaration_work, function_body_rows, finite_type_work, record_type_work,
        ssa_function_work
    | match goal with |- Forall _ (match ?x with _ => _ end) => destruct x end ].

Section Annotate.
Context `{WorkCrate}.

(** ** The frame *)

Lemma update_work_frame f response key rest :
  key <> "cache" -> pointer (key :: rest) (update_work f response) = pointer (key :: rest) response.
Proof.
  intros Hk. unfold update_work. destruct (update_at _ _ response) as [w|] eqn:E; [|done]. cbn [default].
  cbn [update_at] in E. by apply (pointer_update_field _ _ _ _ rest key E).
Qed.

Lemma annotate_cache_frame response key status publication basis from reused recomputed k rest :
  k <> "cache" ->
  pointer (k :: rest) (annotate_cache_with_basis response key status publication basis from reused recomputed) =
  pointer (k :: rest) response.
Proof.
  intros Hk. unfold annotate_cache_with_basis. cbv zeta. destruct (insert_field "cache" _ response) as [w|] eqn:E; [|done].
  cbn [default]. by apply (pointer_insert_field _ _ _ _ rest k E).
Qed.

(** ** The work of a pipeline of annotations *)

Definition annotated (response : Value) (key status publication basis : string) (from : option string)
  (reused recomputed : list string) (modules : nat) (functions : option nat) (outcome : string) (w : LanguageWork) : Value :=
  annotate_language_fact_work
    (annotate_frontend_work (annotate_cache_with_basis response key status publication basis from reused recomputed)
       modules functions outcome) w.

Lemma update_work_get f fields work :
  get "cache" (Object fields) ≫= get "verification_work" = Some work -> is_object work ->
  exists fields', update_work f (Object fields) = Object fields' /\
    get "cache" (Object fields') ≫= get "verification_work" = Some (f work) /\
    forall key, key <> "verification_work" ->
      get "cache" (Object fields') ≫= get key = get "cache" (Object fields) ≫= get key.
Proof.
  intros Hw [work_fields ->]. unfold update_work. cbn [update_at update_field]. cbn [get] in Hw.
  destruct (bm_get "cache" fields) as [cache|] eqn:Ec; cbn [mbind option_bind] in *; [|done].
  destruct cache as [| | | | |cache]; try done. cbn [get] in Hw. cbn [update_field]. rewrite Hw.
  cbn [mbind option_bind default].
  eexists. split; [reflexivity|]. cbn [get]. rewrite get_put, String.eqb_refl. cbn [mbind option_bind get].
  rewrite Ec. cbn [mbind option_bind get].
  split; [by rewrite get_put, String.eqb_refl|]. intros key Hk. by rewrite get_put, (proj2 (String.eqb_neq _ _) Hk).
Qed.

(** ** Versions *)

Definition all_contracts : list string := contracts_from 1.

Lemma contract_from_sub n s : one_of s all_contracts = false -> one_of s (contracts_from n) = false.
Proof.
  intros Ha. apply not_true_iff_false. intros Hin. apply not_true_iff_false in Ha. apply Ha.
  unfold one_of in *. apply existsb_exists in Hin as (x & Hx & He). apply existsb_exists. exists x. split; [|done].
  unfold all_contracts, contracts_from in *. apply list_elem_of_In. apply list_elem_of_In in Hx.
  rewrite <- (take_drop (n - 1)). apply elem_of_app. right. exact Hx.
Qed.

(** The fact families of a contract are those of the work schema it announces. *)
Lemma work_schema_families contract :
  work_from 3 (Some (work_schema contract)) = contract_from 5 contract /\
  work_from 4 (Some (work_schema contract)) = contract_from 6 contract /\
  work_from 5 (Some (work_schema contract)) = contract_from 7 contract /\
  work_from 6 (Some (work_schema contract)) = contract_from 8 contract /\
  work_from 7 (Some (work_schema contract)) = contract_from 9 contract /\
  work_from 8 (Some (work_schema contract)) = contract_from 10 contract /\
  work_from 9 (Some (work_schema contract)) = contract_from 11 contract /\
  work_from 12 (Some (work_schema contract)) = is_contract CONTRACT_V13 contract.
Proof.
  destruct contract as [s|]; [|by vm_compute].
  destruct (one_of s all_contracts) eqn:E.
  - unfold one_of in E. apply existsb_exists in E as (x & Hx & ->%String.eqb_eq).
    apply list_elem_of_In in Hx. unfold all_contracts, contracts_from in Hx. cbn [Nat.sub drop] in Hx.
    repeat (apply elem_of_cons in Hx as [->|Hx]; [by vm_compute|]). by apply elem_of_nil in Hx.
  - assert (Hf : forall n, contract_from n (Some s) = false) by (intros n; by apply contract_from_sub).
    assert (Hi : forall c, one_of c all_contracts = true -> is_contract c (Some s) = false).
    { intros c Hc. apply bool_decide_eq_false. intros [= ->]. congruence. }
    unfold work_schema. rewrite !Hf, !Hi by reflexivity. by vm_compute.
Qed.

(** ** Reports *)

Section Report.
Context (fields : list (string * Value)) (key status publication basis : string) (from : option string)
  (reused recomputed : list string) (modules : nat) (functions : option nat) (outcome : string) (w : LanguageWork).

Let response : Value := Object fields.
Let contract : option string := get_str "schema_version" response.
Let invoked : bool := one_of "source_semantic_check" recomputed.
Let report : Value := annotated response key status publication basis from reused recomputed modules functions outcome w.

(** The work before the language's own report. *)
Definition base_work : Value :=
  set_fields [("resolved_module_count", count modules);
              ("program_function_count", nullable (count <$> functions));
              ("front_end_outcome", Str outcome)]
    (set_fields (contract_work contract invoked)
      (verification_work contract (nullable (pointer ["producer"; "probe"; "probe_executable_sha256"] response))
        (bool_decide (is_Some (pointer ["artifact"; "value"] response))) basis reused recomputed)).

Lemma base_work_object : is_object base_work.
Proof. apply set_fields_is_object, set_fields_is_object. by eexists. Qed.

Lemma observation_get c k work work' :
  k <> "verification_work" ->
  get k (cache_observation c key status publication basis from reused recomputed work) =
  get k (cache_observation c key status publication basis from reused recomputed work').
Proof.
  intros Hk. unfold cache_observation.
  assert (Hsnoc : forall l x, get k (object (l ++ [("verification_work", x)])) = get k (object l)).
  { intros l x. rewrite !get_object, bm_of_list_snoc. cbn [fst snd]. by rewrite get_put, (proj2 (String.eqb_neq _ _) Hk). }
  match goal with |- get k (object (?a :: ?b :: ?d :: ?e :: ?f :: ?g :: ?h :: ?i :: _)) = _ =>
    exact (eq_trans (Hsnoc [a; b; d; e; f; g; h; i] work) (eq_sym (Hsnoc [a; b; d; e; f; g; h; i] work'))) end.
Qed.

Lemma report_work :
  (exists fields', report = Object fields') /\
  pointer ["cache"; "verification_work"] report = Some (language_fact_work w base_work) /\
  forall k, k <> "verification_work" -> pointer ["cache"; k] report =
    get k (cache_observation contract key status publication basis from reused recomputed Null).
Proof.
  unfold report, annotated, annotate_language_fact_work, annotate_frontend_work.
  set (work := set_fields (contract_work contract invoked)
      (verification_work contract (nullable (pointer ["producer"; "probe"; "probe_executable_sha256"] response))
        (bool_decide (is_Some (pointer ["artifact"; "value"] response))) basis reused recomputed)).
  set (obs := cache_observation contract key status publication basis from reused recomputed work).
  change (annotate_cache_with_basis response key status publication basis from reused recomputed) with
    (Object (bm_put "cache" obs fields)).
  assert (Hobs : get "verification_work" obs = Some work) by reflexivity.
  assert (Hput : get "cache" (Object (bm_put "cache" obs fields)) = Some obs)
    by (cbn [get]; by rewrite get_put, String.eqb_refl).
  assert (is_object work) as Hwork by (apply set_fields_is_object; by eexists).
  destruct (update_work_get (set_fields [("resolved_module_count", count modules);
      ("program_function_count", nullable (count <$> functions)); ("front_end_outcome", Str outcome)])
    (bm_put "cache" obs fields) work) as (f1 & E1 & W1 & K1); [by rewrite Hput|done|].
  rewrite E1. destruct (update_work_get (language_fact_work w) f1 _ W1) as (f2 & E2 & W2 & K2);
    [by apply set_fields_is_object|].
  rewrite E2. split_and!; [by exists f2| |].
  - cbn [pointer]. revert W2. destruct (get "cache" (Object f2)) as [c|]; cbn [mbind option_bind]; [|done]. by intros ->.
  - intros k Hk. specialize (K2 k Hk). specialize (K1 k Hk). rewrite K1, Hput in K2. cbn [mbind option_bind] in K2.
    unfold obs in K2. rewrite (observation_get contract k work Null) in K2 by done.
    cbn [pointer]. destruct (get "cache" (Object f2)) as [c|]; cbn [mbind option_bind] in *; [|done].
    by destruct (get k c).
Qed.

Lemma base_schema : get_str "schema_version" base_work = Some (work_schema contract).
Proof.
  unfold get_str, base_work. rewrite !get_set_fields' by first [by eexists | apply set_fields_is_object; by eexists].
  rewrite !last_row_none by (unfold contract_work; no_row). reflexivity.
Qed.

(** The last writer of a field decides. *)
Ltac read_work :=
  unfold language_fact_work; cbv zeta;
  rewrite !get_set_fields' by auto 20 using set_fields_is_object, base_work_object;
  rewrite base_schema;
  destruct (work_schema_families contract) as (-> & -> & -> & -> & -> & -> & -> & ->).

Definition reused_of (o : option ReuseObservation) : list string := match o with Some r => ro_reused r | None => [] end.

Ltac skip_rows :=
  repeat match goal with |- context [last_row ?k ?rows] => rewrite (last_row_none k rows) by no_row end.
Ltac read_base :=
  unfold base_work; rewrite !get_set_fields' by first [by eexists | apply set_fields_is_object; by eexists];
  unfold contract_work; skip_rows; rewrite ?last_row_app; skip_rows; rewrite ?last_row_if.

(** What each family reports as reused is what the language observed, and
    nothing where it observed nothing. *)
Lemma reported_reuse :
  get "reused_semantic_facts" (language_fact_work w base_work) = Some (strings (reused_of (lw_reuse w))) /\
  (contract_from 5 contract = true ->
     get "reused_declaration_facts" (language_fact_work w base_work) =
     Some (strings (reused_of (lw_declaration_reuse w)))) /\
  (contract_from 7 contract = true ->
     get "reused_finite_type_declaration_facts" (language_fact_work w base_work) =
     Some (strings (reused_of (lw_finite_type_reuse w)))) /\
  (contract_from 8 contract = true ->
     get "reused_record_type_declaration_facts" (language_fact_work w base_work) =
     Some (strings (reused_of (lw_record_type_reuse w)))) /\
  (contract_from 9 contract = true ->
     get "reused_ssa_function_facts" (language_fact_work w base_work) =
     Some (strings (reused_of (sw_reuse <$> lw_ssa w)))) /\
  (contract_from 10 contract = true ->
     get "reused_ssa_function_artifacts" (language_fact_work w base_work) =
     Some (strings (reused_of (sw_artifact_reuse <$> lw_ssa w)))).
Proof.
  split_and!; [|intros Hc..]; read_work; rewrite ?Hc; cbn [rows_if].
  - skip_rows. destruct (lw_reuse w) as [r|]; [reflexivity|]. cbn [function_fact_rows last_row]. read_base. reflexivity.
  - destruct (lw_declaration_reuse w) as [r|]; skip_rows.
    + unfold declaration_rows. rewrite !last_row_app; skip_rows; rewrite ?last_row_if; reflexivity.
    + read_base. rewrite Hc. reflexivity.
  - destruct (lw_finite_type_reuse w) as [r|]; skip_rows.
    + unfold finite_type_rows. rewrite !last_row_app; skip_rows; rewrite ?last_row_if; reflexivity.
    + read_base. rewrite Hc. reflexivity.
  - destruct (lw_record_type_reuse w) as [r|]; skip_rows.
    + unfold record_type_rows. rewrite !last_row_app; skip_rows; rewrite ?last_row_if; reflexivity.
    + read_base. rewrite Hc. reflexivity.
  - destruct (lw_ssa w) as [r|]; skip_rows.
    + unfold ssa_fact_rows. rewrite !last_row_app. skip_rows. reflexivity.
    + read_base. rewrite Hc. reflexivity.
  - destruct (lw_ssa w) as [r|]; unfold ssa_artifact_rows; rewrite last_row_app; skip_rows; reflexivity.
Qed.

(** A build reports its work truthfully and changes nothing else.  Every
    part of the response but its cache observation is left as it was; the
    observation records the key, the status, the publication and the basis of
    the reuse, one frontend invocation exactly when the source check is among
    the recomputed units, and the frontend's outcome; and the facts reported as
    reused, family by family as the contract has them, are those the language
    observed -- none for a family it did not observe, so that a hit that skips
    the frontend claims no fact reuse. *)
Theorem report_exact :
  (forall k rest, k <> "cache" -> pointer (k :: rest) report = pointer (k :: rest) response) /\
  pointer ["cache"; "key"] report = Some (Str key) /\
  pointer ["cache"; "status"] report = Some (Str status) /\
  pointer ["cache"; "publication"] report = Some (Str publication) /\
  pointer ["cache"; "reuse_basis"] report = Some (Str basis) /\
  let work k := pointer ["cache"; "verification_work"; k] report in
  work "front_end_invocations" =
    Some (count (if bool_decide ("source_semantic_check" ∈ recomputed) then 1 else 0)) /\
  work "front_end_outcome" = Some (Str outcome) /\
  work "reused_semantic_facts" = Some (strings (reused_of (lw_reuse w))) /\
  (contract_from 5 contract = true ->
     work "reused_declaration_facts" = Some (strings (reused_of (lw_declaration_reuse w)))) /\
  (contract_from 7 contract = true ->
     work "reused_finite_type_declaration_facts" = Some (strings (reused_of (lw_finite_type_reuse w)))) /\
  (contract_from 8 contract = true ->
     work "reused_record_type_declaration_facts" = Some (strings (reused_of (lw_record_type_reuse w)))) /\
  (contract_from 9 contract = true ->
     work "reused_ssa_function_facts" = Some (strings (reused_of (sw_reuse <$> lw_ssa w)))) /\
  (contract_from 10 contract = true ->
     work "reused_ssa_function_artifacts" = Some (strings (reused_of (sw_artifact_reuse <$> lw_ssa w)))).
Proof.
  destruct report_work as (_ & Hwork & Hobs). destruct reported_reuse as (R1 & R2 & R3 & R4 & R5 & R6).
  assert (Hk : forall k x, get k (language_fact_work w base_work) = Some x ->
    pointer ["cache"; "verification_work"; k] report = Some x).
  { intros k x Hx. revert Hwork. cbn [pointer]. destruct (get "cache" report) as [c|]; cbn [mbind option_bind]; [|done].
    destruct (get "verification_work" c) as [v|]; cbn [mbind option_bind]; [|done]. intros [= ->]. by rewrite Hx. }
  cbv zeta beta.
  split_and!.
  - intros k rest Hne. unfold report, annotated, annotate_language_fact_work, annotate_frontend_work.
    by rewrite !update_work_frame, annotate_cache_frame.
  - rewrite Hobs by done. reflexivity.
  - rewrite Hobs by done. reflexivity.
  - rewrite Hobs by done. reflexivity.
  - rewrite Hobs by done. reflexivity.
  - apply Hk. read_work. skip_rows. read_base. unfold verification_work.
    assert (Hinv : bool_decide ("source_semantic_check" ∈ recomputed) = one_of "source_semantic_check" recomputed)
      by (apply Bool.eq_iff_eq_true; by rewrite bool_decide_eq_true, one_of_elem).
    rewrite Hinv. reflexivity.
  - apply Hk. read_work. skip_rows. read_base. reflexivity.
  - by apply Hk.
  - intros Hc. by apply Hk, R2.
  - intros Hc. by apply Hk, R3.
  - intros Hc. by apply Hk, R4.
  - intros Hc. by apply Hk, R5.
  - intros Hc. by apply Hk, R6.
Qed.
End Report.
End Annotate.
