(* ===== verification/AppClosure.v ===== *)
(** Semantic identities of an application: [tools/stage0-probe/src/application.rs],
    [application_semantic_identity], [collect_nominal_type_identities] and
    [application_executable_closure_identity].  Definitions only.

    [None] of the source is [Err tt]; the loops over worklists carry fuel, and
    running out of it is a [Panic] that the theorems exclude. *)

From Stdlib Require Import String.
From S2P Require Export AppKeys AppProgram.

Local Open Scope string_scope.
Local Open Scope list_scope.

(** What the builder asks of the language crates about a program. *)
Class ProgramFacts := {
  module_id : string -> SemanticId;
  body_type_of : Program -> string -> BodyType;
  SemanticIdentities : Type;
  identity_fingerprint : SemanticIdentities -> SemanticId -> option string;
  specialization_value : GenericSpecialization -> option Value;
  assumptions_value : string -> Value
}.

(** [option?] in a function that returns [Option]. *)
Definition try_some {A} (o : option A) : Outcome unit A := ok_or tt o.
Definition try_if (b : bool) : Outcome unit unit := if b then Ok tt else Err tt.

Section Closure.
Context `{ModelCrate, SeedCrate, JsonCrate, ProgramCrate, ProgramFacts}.

(** ** [application_semantic_identity] *)

Definition resolution_row (resolution : ModuleResolution) (semantic_fingerprint : string) : Value :=
  object [
    ("requested_module", Str (mr_requested_module resolution));
    ("declared_module", Str (mr_declared_module resolution));
    ("module_identity", Str (mr_module_identity resolution));
    ("semantic_fingerprint", Str semantic_fingerprint)].

(** One resolution: the rows so far, and the identities they cover. *)
Definition resolve_module (st : list (string * Value) * list SemanticId) (resolution : ModuleResolution)
  : Outcome unit (list (string * Value) * list SemanticId) :=
  let '(resolved_modules, resolved_identities) := st in
  semantic_fingerprint ← try_some (mr_semantic_fingerprint resolution);
  _ ← try_if (negb (String.eqb semantic_fingerprint "")
    && bool_decide (module_id (mr_declared_module resolution) = mr_module_identity resolution));
  let requested_identity := module_id (mr_requested_module resolution) in
  let '(fresh, resolved_identities) := bs_insert (mr_module_identity resolution) resolved_identities in
  _ ← try_if (negb (bool_decide (is_Some (bm_get (mr_requested_module resolution) resolved_modules))) && fresh);
  Ok (bm_put (mr_requested_module resolution) (resolution_row resolution semantic_fingerprint) resolved_modules,
      bs_add requested_identity resolved_identities).

Definition semantic_identity_value (module fingerprint : string) (rows : list Value) (seed_keys : list string) : Value :=
  object [
    ("schema_version", Str "mncs.compiler.application-semantic-identity/1");
    ("root_module", Str module);
    ("root_semantic_fingerprint", Str fingerprint);
    ("resolved_modules", Array rows);
    ("generic_seed_keys", strings seed_keys)].

(** The hash of a JSON value below a domain prefix, when it can be written. *)
Definition tagged_identity (tag : string) (identity : Value) : Outcome unit string :=
  bytes ← try_some (to_vec identity); Ok (sha256 (tag +:+ nul +:+ bytes)).

Definition application_semantic_identity (program : Program) (root_semantic_fingerprint : string)
  (module_resolutions : list ModuleResolution) (generic_seeds : list HostGenericSeedRequest) : Outcome unit string :=
  _ ← try_if (negb (String.eqb root_semantic_fingerprint ""));
  let program_dependencies := bs_of_list (p_dependencies program) in
  _ ← try_if (Nat.eqb (List.length program_dependencies) (List.length (p_dependencies program)));
  '(resolved_modules, resolved_identities) ← fold_outcome resolve_module ([], []) module_resolutions;
  _ ← try_if (forallb (fun id => bs_mem id resolved_identities) program_dependencies);
  tagged_identity "mncs.compiler.application-semantic-identity/1"
    (semantic_identity_value (p_module program) root_semantic_fingerprint (bm_values resolved_modules)
       (generic_seed_keys generic_seeds)).

(** ** [application_executable_closure_identity] *)

(** The nominal type a type mentions, through sequences and vectors. *)
Fixpoint nominal_type (ty : BodyType) : list SemanticId :=
  match ty with
  | TyRecord identity _ | TyFinite identity _ => [identity]
  | TySequence element _ | TyVector element _ => nominal_type element
  | _ => []
  end.
Definition collect_nominal_type_identities (ty : BodyType) (identities : list SemanticId) : list SemanticId :=
  bs_extend identities (nominal_type ty).

(** The functions by identity; two with one identity are an error. *)
Definition index_declaration (program : Program) (by_identity : list (SemanticId * Function)) (f : Function)
  : Outcome unit (list (SemanticId * Function)) :=
  let '(previous, by_identity) := bm_insert (function_identity program f) f by_identity in
  match previous with Some _ => Err tt | None => Ok by_identity end.

Definition value_types (program : Program) (values : list TypedValue) : list BodyType :=
  map (fun value => body_type_of program (tv_type value)) values.

Definition operation_types (op : BodyOperation) : list SemanticId :=
  flat_map nominal_type (op_results op)
  ++ match op_kind op with OpNominal type_identity _ => [type_identity] | _ => [] end.
Definition block_types (block : BodyBlock) : list SemanticId :=
  flat_map nominal_type (bb_parameters block) ++ flat_map operation_types (bb_operations block).

(** The nominal types a function mentions, in the order of the source. *)
Definition function_types (program : Program) (f : Function) (body : Body) : list SemanticId :=
  flat_map nominal_type (value_types program (fn_inputs f ++ fn_outputs f))
  ++ flat_map nominal_type (bd_parameters body)
  ++ flat_map (fun iteration => nominal_type (bi_state_type iteration)) (bd_bounded_iterations body)
  ++ flat_map block_types (bd_blocks body).

(** What a function queues: its iteration callees, its calls, and the
    specializations of it. *)
Definition specializations_of (program : Program) (identity : SemanticId) : list SemanticId :=
  map gs_specialization_function
    (List.filter (fun row => String.eqb (gs_generic_function row) identity) (p_generic_specializations program)).
Definition function_links (program : Program) (identity : SemanticId) (body : Body) : list SemanticId :=
  flat_map bi_callees (bd_bounded_iterations body)
  ++ flat_map (fun block => flat_map operation_callee (bb_operations block)) (bd_blocks body)
  ++ specializations_of program identity.

Record FunctionFact : Type := mkFunctionFact {
  ff_fingerprint : string; ff_types : list SemanticId; ff_links : list SemanticId
}.

(** The facts of one function, or the [?] that gives up. *)
Definition function_fact (program : Program) (identities : SemanticIdentities)
  (by_identity : list (SemanticId * Function)) (identity : SemanticId) : Outcome unit FunctionFact :=
  f ← try_some (bm_get identity by_identity);
  fingerprint ← try_some (identity_fingerprint identities identity);
  body ← try_some (fn_body f);
  Ok (mkFunctionFact fingerprint (function_types program f body) (function_links program identity body)).

(** [while let Some(identity) = pending.pop_first()]. *)
Fixpoint close_functions (fact : SemanticId -> Outcome unit FunctionFact) (fuel : nat)
  (pending : list SemanticId) (function_facts : list (string * string)) (nominal_types : list SemanticId)
  : Outcome unit (list (string * string) * list SemanticId) :=
  match fuel with
  | O => Panic "out of fuel"
  | S fuel =>
      match pending with
      | [] => Ok (function_facts, nominal_types)
      | identity :: pending =>
          if bool_decide (is_Some (bm_get identity function_facts))
          then close_functions fact fuel pending function_facts nominal_types
          else
            f ← fact identity;
            close_functions fact fuel (bs_extend pending (ff_links f))
              (bm_put identity (ff_fingerprint f) function_facts) (bs_extend nominal_types (ff_types f))
      end
  end.

(** The types the fields of a declaration mention. *)
Definition field_types (program : Program) (fields : list TypedValue) : list SemanticId :=
  flat_map nominal_type (value_types program fields).

Definition type_links (program : Program) (identity : SemanticId) : option (list SemanticId) :=
  match List.find (fun row => String.eqb (rd_identity row) identity) (p_record_types program) with
  | Some record => Some (field_types program (rd_fields record))
  | None =>
      finite ← List.find (fun row => String.eqb (fd_identity row) identity) (p_finite_types program);
      Some (flat_map (field_types program) (fd_variants finite))
  end.

Definition type_fact (program : Program) (identities : SemanticIdentities) (identity : SemanticId)
  : Outcome unit (string * list SemanticId) :=
  fingerprint ← try_some (identity_fingerprint identities identity);
  links ← try_some (type_links program identity);
  Ok (fingerprint, links).

(** [while let Some(identity) = nominal_types.pop_first()]. *)
Fixpoint close_types (fact : SemanticId -> Outcome unit (string * list SemanticId)) (fuel : nat)
  (nominal_types : list SemanticId) (type_facts : list (string * string)) : Outcome unit (list (string * string)) :=
  match fuel with
  | O => Panic "out of fuel"
  | S fuel =>
      match nominal_types with
      | [] => Ok type_facts
      | identity :: nominal_types =>
          if bool_decide (is_Some (bm_get identity type_facts)) then close_types fact fuel nominal_types type_facts
          else
            '(fingerprint, links) ← fact identity;
            close_types fact fuel (bs_extend nominal_types links) (bm_put identity fingerprint type_facts)
      end
  end.

(** The type arguments of the specializations of selected functions. *)
Definition selected_specializations (program : Program) (function_facts : list (string * string))
  : list GenericSpecialization :=
  List.filter (fun row => bs_mem (gs_generic_function row) (bm_keys function_facts))
    (p_generic_specializations program).
Definition argument_types (arg : GenericArg) : list SemanticId :=
  match arg with GaType ty => nominal_type ty | GaOther _ => [] end.

(** The fuel: how much the loops can queue. *)
Definition function_keys (fact : SemanticId -> Outcome unit FunctionFact) (identity : SemanticId)
  : Outcome unit (list SemanticId) := ff_links <$> fact identity.
Definition type_keys (fact : SemanticId -> Outcome unit (string * list SemanticId)) (identity : SemanticId)
  : Outcome unit (list SemanticId) := snd <$> fact identity.
Definition declared_types (program : Program) : list SemanticId :=
  dedup (sort_by ord_leb (map rd_identity (p_record_types program) ++ map fd_identity (p_finite_types program))).

Definition facts_value (facts : list (string * string)) : Value := Object (map (fun '(k, v) => (k, Str v)) facts).

Definition closure_identity_value (module : string) (roots seed_keys : list string)
  (function_facts type_facts : list (string * string)) (specializations : list Value) (assumptions : Value) : Value :=
  object [
    ("schema_version", Str "mncs.compiler.application-executable-closure-identity/2");
    ("root_module", Str module);
    ("callable_roots", strings roots);
    ("generic_seed_keys", strings seed_keys);
    ("function_semantic_facts", facts_value function_facts);
    ("nominal_type_semantic_facts", facts_value type_facts);
    ("generic_specializations", Array specializations);
    ("program_assumptions", assumptions)].

(** The selected roots: the callables and the seeded generics. *)
Definition closure_roots (callable_roots : list (string * string)) (generic_seeds : list HostGenericSeedRequest)
  : list SemanticId :=
  bs_extend (bs_of_list (map (fun root => function_id root.1 root.2) callable_roots))
    (map (fun seed => function_id (seed_module seed) (seed_function seed)) generic_seeds).

Definition application_executable_closure_identity (program : Program) (semantic_identities : SemanticIdentities)
  (callable_roots : list (string * string)) (generic_seeds : list HostGenericSeedRequest) : Outcome unit string :=
  _ ← try_if (negb (bool_decide (callable_roots = [])));
  functions_by_identity ← fold_outcome (index_declaration program) [] (p_functions program);
  let roots := closure_roots callable_roots generic_seeds in
  let seed_keys := generic_seed_keys generic_seeds in
  let fact := function_fact program semantic_identities functions_by_identity in
  '(function_facts, nominal_types) ←
    close_functions fact (enough (function_keys fact) (bm_keys functions_by_identity) roots) roots [] [];
  let specializations := selected_specializations program function_facts in
  let nominal_types := bs_extend nominal_types
    (flat_map (fun row => flat_map argument_types (gs_args row)) specializations) in
  let type_fact := type_fact program semantic_identities in
  type_facts ← close_types type_fact (enough (type_keys type_fact) (declared_types program) nominal_types)
    nominal_types [];
  specialization_values ← map_outcome (fun row => try_some (specialization_value row)) specializations;
  tagged_identity "mncs.compiler.application-executable-closure-identity/2"
    (closure_identity_value (p_module program) roots seed_keys function_facts type_facts specialization_values
       (assumptions_value (p_assumptions program))).
End Closure.
