(* ===== verification/AppClosureTheorems.v ===== *)
(** What the identities of [AppClosure] stand for: the closures they collect,
    that they are always computed or refused, and that they are equal exactly
    for equal closures. *)

From Stdlib Require Import String.
From S2P Require Export AppClosure AppKeysTheorems.

Local Open Scope string_scope.
Local Open Scope list_scope.

(** ** The loops *)

Section Loops.
Context (fact : SemanticId -> Outcome unit FunctionFact).

(** What the loop has collected: a fingerprint of each key, and the types of
    all of them on top of those it started with. *)
Record Collected (types0 : list SemanticId) (facts : list (string * string)) (types : list SemanticId) : Prop := {
  co_ascending : bm_ascending facts;
  co_types_ascending : ascending types;
  co_fact : forall k fp, bm_get k facts = Some fp -> exists f, fact k = Ok f /\ fp = ff_fingerprint f;
  co_types : forall t, t ∈ types <-> t ∈ types0 \/ exists k f, k ∈ bm_keys facts /\ fact k = Ok f /\ t ∈ ff_types f
}.

Lemma Collected_start types0 : ascending types0 -> Collected types0 [] types0.
Proof.
  intros Ha. split; [constructor|done|done|]. intros t. split; [by left|].
  by intros [|(k & f & []%elem_of_nil & _)].
Qed.

Lemma Collected_put types0 facts types k f :
  Collected types0 facts types -> fact k = Ok f ->
  Collected types0 (bm_put k (ff_fingerprint f) facts) (bs_extend types (ff_types f)).
Proof.
  intros [Ha Hta Hf Ht] Hk. split; [by apply bm_put_ascending|by apply bs_extend_ascending| |].
  - intros k' fp. rewrite bm_get_put. case_decide as E; [subst; intros [= <-]; eauto|apply Hf].
  - intros t. rewrite elem_of_bs_extend, Ht. setoid_rewrite bm_keys_put. split.
    + intros [?|[?|(k' & f' & ? & ? & ?)]]; [right; exists k, f; auto|by left|right; exists k', f'; auto].
    + intros [?|(k' & f' & [->|?] & Hk' & ?)]; [auto| |right; right; eauto].
      left. rewrite Hk in Hk'. by injection Hk' as ->.
Qed.

(** The loop is the worklist, with the facts of what it reaches. *)
Lemma close_functions_drain types0 fuel pending facts types :
  Collected types0 facts types ->
  match close_functions fact fuel pending facts types with
  | Ok (facts', types') =>
      drain_with bs_extend Ok (function_keys fact) fuel pending (bm_keys facts) = Ok (bm_keys facts') /\
      Collected types0 facts' types'
  | Err e => drain_with bs_extend Ok (function_keys fact) fuel pending (bm_keys facts) = Err e
  | Panic m => drain_with bs_extend Ok (function_keys fact) fuel pending (bm_keys facts) = Panic m
  end.
Proof.
  revert pending facts types. induction fuel as [|fuel IH]; intros pending facts types HC; [done|].
  cbn [close_functions drain_with]. destruct pending as [|k pending]; [done|]. cbn [mbind outcome_bind].
  rewrite bm_mem_keys. destruct (bs_mem k (bm_keys facts)) eqn:Hm; [by apply IH|].
  change (function_keys fact k) with (ff_links <$> fact k). destruct (fact k) as [f|e|m] eqn:Hk; cbn [mbind outcome_bind fmap outcome_fmap]; [|done..].
  rewrite <- (bm_keys_bs_add k (ff_fingerprint f)). by apply IH, Collected_put.
Qed.

Lemma close_functions_ok fuel roots types0 facts types :
  ascending types0 -> close_functions fact fuel roots [] types0 = Ok (facts, types) ->
  drain_with bs_extend Ok (function_keys fact) fuel roots [] = Ok (bm_keys facts) /\ Collected types0 facts types.
Proof.
  intros Ha Hc. pose proof (close_functions_drain types0 fuel roots [] types0 (Collected_start _ Ha)) as Hd.
  by rewrite Hc in Hd.
Qed.

(** It ends like the worklist does. *)
Lemma close_functions_end fuel roots types0 :
  ascending types0 ->
  (exists R, drain_with bs_extend Ok (function_keys fact) fuel roots [] = Ok R) ->
  exists facts types, close_functions fact fuel roots [] types0 = Ok (facts, types).
Proof.
  intros Ha [R HR]. pose proof (close_functions_drain types0 fuel roots [] types0 (Collected_start _ Ha)) as Hd.
  destruct (close_functions _ _ _ _ _) as [[facts types]|e|m]; [eauto|cbn in Hd; congruence..].
Qed.

Lemma close_functions_err fuel roots types0 :
  ascending types0 ->
  (exists e, drain_with bs_extend Ok (function_keys fact) fuel roots [] = Err e) ->
  exists e, close_functions fact fuel roots [] types0 = Err e.
Proof.
  intros Ha [e HR]. pose proof (close_functions_drain types0 fuel roots [] types0 (Collected_start _ Ha)) as Hd.
  destruct (close_functions _ _ _ _ _) as [[facts types]|e'|m]; [destruct Hd; cbn in *; congruence|eauto|cbn in Hd; congruence].
Qed.
End Loops.

(** The loop over types is the loop over functions, without types to collect. *)
Definition as_function_fact (fact : SemanticId -> Outcome unit (string * list SemanticId)) (t : SemanticId)
  : Outcome unit FunctionFact := '(fingerprint, links) ← fact t; Ok (mkFunctionFact fingerprint [] links).

Lemma close_types_functions fact fuel pending facts :
  close_types fact fuel pending facts = fst <$> close_functions (as_function_fact fact) fuel pending facts [].
Proof.
  revert pending facts. induction fuel as [|fuel IH]; intros pending facts; [done|].
  cbn [close_types close_functions]. destruct pending as [|t pending]; [done|].
  case_bool_decide; [apply IH|].
  change (as_function_fact fact t) with ('(fingerprint, links) ← fact t; Ok (mkFunctionFact fingerprint [] links)).
  destruct (fact t) as [[fp links]|[]|m]; [|done..]. apply IH.
Qed.

Lemma as_function_keys fact t : function_keys (as_function_fact fact) t = type_keys fact t.
Proof. unfold function_keys, type_keys, as_function_fact. by destruct (fact t) as [[]| |]. Qed.

Lemma drain_with_ext {E K A} `{EqDecision A, RustOrd A} (join : list K -> list K -> list K)
  (resolve : K -> Outcome E A) (f g : A -> Outcome E (list K)) fuel pending reached :
  (forall n, f n = g n) -> drain_with join resolve f fuel pending reached = drain_with join resolve g fuel pending reached.
Proof.
  intros Hfg. revert pending reached. induction fuel as [|fuel IH]; intros pending reached; [done|].
  cbn. destruct pending as [|k pending]; [done|]. destruct (resolve k) as [n| |]; cbn; [|done..].
  destruct (bs_mem n reached); [apply IH|]. rewrite Hfg. destruct (g n); cbn; [apply IH|done..].
Qed.

(** ** The closure, as a set *)

Section Spec.
Context `{ModelCrate, SeedCrate, JsonCrate, ProgramCrate, ProgramFacts}.

Definition function_of (p : Program) (id : SemanticId) (f : Function) : Prop :=
  f ∈ p_functions p /\ function_identity p f = id.

(** A function refers to what it calls and to the specializations of it. *)
Definition closure_refers (p : Program) (a b : SemanticId) : Prop :=
  exists f, function_of p a f /\
    (body_calls f b \/
     exists row, row ∈ p_generic_specializations p /\ gs_generic_function row = a /\ gs_specialization_function row = b).
Definition closure_live (p : Program) (roots : list SemanticId) : SemanticId -> Prop := live (closure_refers p) roots.

(** The nominal types the live functions mention, and the arguments of their
    specializations. *)
Definition mentioned (p : Program) (roots : list SemanticId) (t : SemanticId) : Prop :=
  (exists id f body, closure_live p roots id /\ function_of p id f /\ fn_body f = Some body /\
     t ∈ function_types p f body) \/
  (exists row ty, row ∈ p_generic_specializations p /\ closure_live p roots (gs_generic_function row) /\
     GaType ty ∈ gs_args row /\ t ∈ nominal_type ty).
Definition type_refers (p : Program) (a b : SemanticId) : Prop := exists links, type_links p a = Some links /\ b ∈ links.
Definition type_live (p : Program) (roots : list SemanticId) (t : SemanticId) : Prop :=
  exists s, mentioned p roots s /\ rtc (type_refers p) s t.

(** A map of the fingerprints of a set. *)
Definition FactsOf (ids : SemanticIdentities) (P : SemanticId -> Prop) (facts : list (string * string)) : Prop :=
  bm_ascending facts /\
  (forall k fp, bm_get k facts = Some fp <-> P k /\ identity_fingerprint ids k = Some fp) /\
  (forall k, P k -> is_Some (identity_fingerprint ids k)).

Lemma FactsOf_key ids P facts k : FactsOf ids P facts -> k ∈ bm_keys facts <-> P k.
Proof.
  intros (_ & Hg & Hf). rewrite <- bm_get_keys. split; [by intros [fp [? _]%Hg]|].
  intros Hk. destruct (Hf k Hk) as [fp ?]. exists fp. by apply Hg.
Qed.

Lemma FactsOf_iff ids P Q facts : (forall k, P k <-> Q k) -> FactsOf ids P facts -> FactsOf ids Q facts.
Proof.
  intros Hpq (Ha & Hg & Hf). split_and!; [done|intros; by rewrite Hg, Hpq|].
  intros k Hk%Hpq. by apply Hf.
Qed.

Lemma FactsOf_unique ids P facts facts' : FactsOf ids P facts -> FactsOf ids P facts' -> facts = facts'.
Proof.
  intros (Ha & Hg & _) (Ha' & Hg' & _). apply bm_ext; [done..|]. intros k.
  apply option_eq. intros fp. by rewrite Hg, Hg'.
Qed.

(** ** The index of declarations *)

Lemma index_declarations p l m :
  fold_outcome (index_declaration p) [] l = Ok m ->
  NoDup (map (function_identity p) l) /\ bm_ascending m /\
  (forall id f, bm_get id m = Some f <-> f ∈ l /\ function_identity p f = id).
Proof.
  revert m. induction l as [|g l IH] using rev_ind; intros m; cbn [fold_outcome].
  { intros [= <-]. split_and!; [constructor..|]. intros id f. cbn. set_solver. }
  rewrite fold_outcome_app. intros (m0 & Hm0 & Hm)%outcome_bind_ok. destruct (IH _ Hm0) as (Hnd & Ha & Hg).
  cbn [fold_outcome] in Hm. unfold index_declaration in Hm.
  destruct (bm_insert (function_identity p g) g m0) as [old m1] eqn:E.
  pose proof (bm_insert_old (function_identity p g) g m0 Ha) as Ho.
  assert (Hp : bm_put (function_identity p g) g m0 = m1) by (unfold bm_put; by rewrite E).
  rewrite E in Ho. cbn in Ho. destruct old as [|]; [done|]. injection Hm as <-. subst m1.
  assert (Hfresh : function_identity p g ∉ map (function_identity p) l).
  { intros (f & Hf & Hin)%list_elem_of_fmap. assert (bm_get (function_identity p g) m0 = Some f) as Hx by (by apply Hg).
    congruence. }
  split_and!; [rewrite map_app; apply NoDup_app; split_and!; [done|set_solver|apply NoDup_singleton]|by apply bm_put_ascending|].
  intros id f. rewrite bm_get_put. setoid_rewrite elem_of_app. case_decide as Hid.
  - subst id. split; [intros [= ->]; split; [right; by left|done]|].
    intros [[Hin| ->%list_elem_of_singleton] Heq]; [|done]. destruct Hfresh. rewrite <- Heq. by apply list_elem_of_fmap_2.
  - rewrite Hg. split; [intros [? ?]; split; [by left|done]|].
    intros [[Hin| ->%list_elem_of_singleton] Heq]; [done|congruence].
Qed.

Lemma index_declarations_ok p l :
  NoDup (map (function_identity p) l) -> exists m, fold_outcome (index_declaration p) [] l = Ok m.
Proof.
  induction l as [|g l IH] using rev_ind; [by eexists|]. rewrite map_app.
  intros (Hnd & Hd & _)%NoDup_app. destruct (IH Hnd) as [m0 Hm0]. rewrite fold_outcome_app, Hm0.
  destruct (index_declarations _ _ _ Hm0) as (_ & Ha & Hg). cbn [mbind outcome_bind fold_outcome]. unfold index_declaration.
  destruct (bm_insert (function_identity p g) g m0) as [[f|] m1] eqn:E; [|by eexists].
  pose proof (bm_insert_old (function_identity p g) g m0 Ha) as Ho. rewrite E in Ho. cbn in Ho.
  symmetry in Ho. apply Hg in Ho as [Hf Hi]. destruct (Hd (function_identity p g)); [|by left].
  rewrite <- Hi. by apply list_elem_of_fmap_2.
Qed.

Lemma index_declarations_no_panic p m l message : fold_outcome (index_declaration p) m l <> Panic message.
Proof.
  apply fold_outcome_no_panic. intros by_id g msg. unfold index_declaration. by destruct (bm_insert _ g by_id) as [[|] ?].
Qed.

(** ** The facts of one function and of one type *)

Section Facts.
Context (p : Program) (ids : SemanticIdentities) (by_identity : list (SemanticId * Function)).
Context (Hby : forall id f, bm_get id by_identity = Some f <-> function_of p id f).

Lemma function_fact_ok id ff :
  function_fact p ids by_identity id = Ok ff <->
  exists f body fp, function_of p id f /\ fn_body f = Some body /\ identity_fingerprint ids id = Some fp /\
    ff = mkFunctionFact fp (function_types p f body) (function_links p id body).
Proof.
  unfold function_fact, try_some. split.
  - destruct (bm_get id by_identity) as [f|] eqn:Hf; cbn; [|done]. apply Hby in Hf.
    destruct (identity_fingerprint ids id) as [fp|]; cbn; [|done].
    destruct (fn_body f) as [body|] eqn:Hb; cbn; [|done]. intros [= <-]. by exists f, body, fp.
  - intros (f & body & fp & Hf%Hby & Hb & Hi & ->). rewrite Hf, Hi. cbn. by rewrite Hb.
Qed.

Lemma function_of_unique id f g : function_of p id f -> function_of p id g -> f = g.
Proof. intros Hf%Hby Hg%Hby. congruence. Qed.

Lemma elem_of_function_links id f body target :
  function_of p id f -> fn_body f = Some body ->
  target ∈ function_links p id body <-> closure_refers p id target.
Proof.
  intros Hf Hb. 
  assert (Hs : target ∈ specializations_of p id <-> exists row, row ∈ p_generic_specializations p /\
    gs_generic_function row = id /\ gs_specialization_function row = target).
  { unfold specializations_of. rewrite list_elem_of_fmap. setoid_rewrite elem_of_filterb.
    setoid_rewrite String.eqb_eq. split; intros (row & ?); exists row; naive_solver. }
  pose proof (elem_of_body_callees f body target Hb) as Hc. unfold body_callees in Hc. rewrite elem_of_app in Hc.
  unfold function_links, closure_refers. rewrite !elem_of_app, Hs. split.
  - intros Hor. exists f. split; [done|]. tauto.
  - intros (g & Hg & Hor). rewrite (function_of_unique _ _ _ Hg Hf) in Hor. tauto.
Qed.

Lemma function_keys_ok id next :
  function_keys (function_fact p ids by_identity) id = Ok next <->
  exists f body fp, function_of p id f /\ fn_body f = Some body /\ identity_fingerprint ids id = Some fp /\
    next = function_links p id body.
Proof.
  unfold function_keys. split.
  - destruct (function_fact _ _ _ _) as [ff| |] eqn:E; intros [= <-]. apply function_fact_ok in E as (f & body & fp & ? & ? & ? & ->).
    by exists f, body, fp.
  - intros (f & body & fp & Hf & Hb & Hi & ->).
    assert (function_fact p ids by_identity id =
      Ok (mkFunctionFact fp (function_types p f body) (function_links p id body))) as ->
      by (apply function_fact_ok; by exists f, body, fp).
    done.
Qed.
End Facts.

Lemma type_fact_ok p ids t fp links :
  type_fact p ids t = Ok (fp, links) <-> identity_fingerprint ids t = Some fp /\ type_links p t = Some links.
Proof.
  unfold type_fact, try_some. split.
  - destruct (identity_fingerprint ids t) as [f|]; cbn; [|done].
    destruct (type_links p t) as [l|]; cbn; [|done]. by intros [= -> ->].
  - intros [-> ->]. done.
Qed.

Lemma type_keys_ok p ids t links :
  type_keys (type_fact p ids) t = Ok links <-> is_Some (identity_fingerprint ids t) /\ type_links p t = Some links.
Proof.
  unfold type_keys. destruct (type_fact p ids t) as [[fp l]|e|m] eqn:E.
  - apply type_fact_ok in E as [Hi Hl]. rewrite Hl. cbn. split; [intros [= <-]; eauto|by intros [_ [= ->]]].
  - split; [done|]. intros [[fp Hi] Hl].
    assert (type_fact p ids t = Ok (fp, links)) as Hx by (by apply type_fact_ok). congruence.
  - split; [done|]. intros [[fp Hi] Hl].
    assert (type_fact p ids t = Ok (fp, links)) as Hx by (by apply type_fact_ok). congruence.
Qed.

Lemma type_links_declared p t links : type_links p t = Some links -> t ∈ declared_types p.
Proof.
  unfold type_links, declared_types. rewrite sort_dedup, elem_of_bs_of_list, elem_of_app, !list_elem_of_fmap.
  destruct (List.find _ (p_record_types p)) as [r|] eqn:Er.
  - intros _. apply find_some in Er as [Hr He%String.eqb_eq]. left. exists r. by rewrite list_elem_of_In.
  - destruct (List.find _ (p_finite_types p)) as [r|] eqn:Ef; [|done].
    intros _. apply find_some in Ef as [Hr He%String.eqb_eq]. right. exists r. by rewrite list_elem_of_In.
Qed.

(** ** The two loops, together *)

Section Loop.
Context (p : Program) (ids : SemanticIdentities) (by_identity : list (SemanticId * Function)).
Context (Hasc : bm_ascending by_identity) (Hby : forall id f, bm_get id by_identity = Some f <-> function_of p id f).
Let fact := function_fact p ids by_identity.
Let fuel roots := enough (function_keys fact) (bm_keys by_identity) roots.

Definition supported (id : SemanticId) : Prop :=
  exists f body, function_of p id f /\ fn_body f = Some body /\ is_Some (identity_fingerprint ids id).

Lemma function_keys_edge n next m : function_keys fact n = Ok next -> closure_refers p n m <-> m ∈ next.
Proof.
  intros (f & body & fp & Hf & Hb & _ & ->)%(function_keys_ok p ids by_identity Hby).
  by rewrite (elem_of_function_links p by_identity Hby n f body).
Qed.

Lemma function_keys_universe n next : function_keys fact n = Ok next -> n ∈ bm_keys by_identity.
Proof.
  intros (f & _ & _ & Hf & _)%(function_keys_ok p ids by_identity Hby). apply bm_get_keys. exists f. by apply Hby.
Qed.

Lemma function_keys_no_panic n m : function_keys fact n <> Panic m.
Proof.
  unfold fact, function_keys, function_fact, try_some. destruct (bm_get n by_identity) as [f|]; cbn; [|done].
  destruct (identity_fingerprint ids n); cbn; [|done]. by destruct (fn_body f).
Qed.

Lemma functions_loop_total roots :
  (exists R, close_functions fact (fuel roots) roots [] [] = Ok R) \/
  (exists e, close_functions fact (fuel roots) roots [] [] = Err e).
Proof.
  destruct (drain_keys_total bs_extend set_length (function_keys fact) (bm_keys by_identity)
    (ascending_NoDup _ Hasc) function_keys_universe function_keys_no_panic roots) as [HR|HR].
  - left. apply (close_functions_end fact (fuel roots) roots []) in HR as (? & ? & ?); [by eauto|constructor].
  - right. apply (close_functions_err fact (fuel roots) roots []) in HR as (? & ?); [by eauto|constructor].
Qed.

(** What a run that succeeds has collected. *)
Lemma functions_loop_ok roots facts types :
  close_functions fact (fuel roots) roots [] [] = Ok (facts, types) ->
  FactsOf ids (closure_live p roots) facts /\ ascending types /\
  (forall id, closure_live p roots id -> supported id) /\
  (forall t, t ∈ types <-> exists id f body, closure_live p roots id /\ function_of p id f /\
     fn_body f = Some body /\ t ∈ function_types p f body).
Proof.
  intros Hc. apply close_functions_ok in Hc as [Hd [Ha Hta Hf Ht]]; [|constructor].
  apply (drained_live_keys bs_extend set_join _ (closure_refers p) function_keys_edge) in Hd as [Hlive Hexp].
  assert (Hsup : forall id, closure_live p roots id -> supported id).
  { intros id Hid%Hlive. destruct (Hexp _ Hid) as (next & Hn).
    apply (function_keys_ok p ids by_identity Hby) in Hn as (f & body & fp & ? & ? & ? & _). exists f, body. eauto. }
  split_and!; [split_and!; [done| |]|done|done|].
  - intros k fp. split.
    + intros Hk. split; [apply Hlive, bm_get_keys; eauto|].
      destruct (Hf _ _ Hk) as (ff & Hff & ->). by apply (function_fact_ok p ids by_identity Hby) in Hff as (? & ? & ? & _ & _ & ? & ->).
    + intros [Hk%Hlive Hfp]. apply bm_get_keys in Hk as [fp' Hk]. rewrite Hk. f_equal.
      destruct (Hf _ _ Hk) as (ff & Hff & ->). apply (function_fact_ok p ids by_identity Hby) in Hff as (? & ? & ? & _ & _ & ? & ->).
      cbn. congruence.
  - intros k Hk%Hsup. by destruct Hk as (? & ? & _ & _ & ?).
  - intros t. rewrite Ht. split.
    + intros [[]%elem_of_nil|(k & ff & Hk%Hlive & Hff & Hin)].
      apply (function_fact_ok p ids by_identity Hby) in Hff as (f & body & fp & ? & ? & _ & ->). by exists k, f, body.
    + intros (id & f & body & Hid & Hfo & Hb & Hin). right. destruct (Hsup _ Hid) as (f' & body' & Hfo' & Hb' & [fp Hfp]).
      exists id, (mkFunctionFact fp (function_types p f body) (function_links p id body)). split; [by apply Hlive|].
      split; [|done]. apply (function_fact_ok p ids by_identity Hby). by exists f, body, fp.
Qed.

Lemma functions_loop_defined roots :
  (forall id, closure_live p roots id -> supported id) ->
  exists facts types, close_functions fact (fuel roots) roots [] [] = Ok (facts, types).
Proof.
  intros Hsup. apply close_functions_end; [constructor|].
  apply (drain_keys_defined bs_extend set_join set_length _ (closure_refers p) function_keys_edge
    (bm_keys by_identity) (ascending_NoDup _ Hasc) function_keys_universe function_keys_no_panic).
  intros n (f & body & Hf & Hb & [fp Hfp])%Hsup. eexists. apply (function_keys_ok p ids by_identity Hby). by exists f, body, fp.
Qed.
End Loop.

Section TypeLoop.
Context (p : Program) (ids : SemanticIdentities).
Let fact := type_fact p ids.
Let fuel seeds := enough (type_keys fact) (declared_types p) seeds.

Lemma type_function_edge n next m : function_keys (as_function_fact fact) n = Ok next -> type_refers p n m <-> m ∈ next.
Proof.
  rewrite as_function_keys. intros [_ Hl]%type_keys_ok. unfold type_refers. rewrite Hl. split.
  - by intros (links & [= ->] & ?).
  - eauto.
Qed.

Lemma type_fuel seeds : fuel seeds = enough (function_keys (as_function_fact fact)) (declared_types p) seeds.
Proof.
  unfold fuel, enough. f_equal. f_equal. induction (declared_types p) as [|t l IH]; [done|]. cbn. rewrite IH.
  f_equal. unfold fan_out. by rewrite as_function_keys.
Qed.

Lemma declared_types_NoDup : NoDup (declared_types p).
Proof. unfold declared_types. rewrite sort_dedup. apply ascending_NoDup, bs_of_list_ascending. Qed.
Lemma type_universe n next : function_keys (as_function_fact fact) n = Ok next -> n ∈ declared_types p.
Proof. rewrite as_function_keys. intros [_ Hl]%type_keys_ok. by eapply type_links_declared. Qed.
Lemma type_no_panic n m : function_keys (as_function_fact fact) n <> Panic m.
Proof.
  rewrite as_function_keys. unfold type_keys, fact, type_fact, try_some.
  destruct (identity_fingerprint ids n); cbn; [|done]. by destruct (type_links p n).
Qed.

Lemma types_loop_total seeds :
  (exists R, close_types fact (fuel seeds) seeds [] = Ok R) \/
  (exists e, close_types fact (fuel seeds) seeds [] = Err e).
Proof.
  rewrite close_types_functions, type_fuel.
  destruct (drain_keys_total bs_extend set_length _ _ declared_types_NoDup type_universe type_no_panic seeds) as [HR|HR].
  - left. apply (close_functions_end _ _ _ []) in HR as (facts & types & ->); [by eauto|constructor].
  - right. apply (close_functions_err _ _ _ []) in HR as (e & ->); [by eauto|constructor].
Qed.

Lemma types_loop_ok seeds facts :
  close_types fact (fuel seeds) seeds [] = Ok facts ->
  FactsOf ids (live (type_refers p) seeds) facts /\
  (forall t, live (type_refers p) seeds t -> is_Some (type_links p t)).
Proof.
  rewrite close_types_functions, type_fuel.
  destruct (close_functions _ _ seeds [] []) as [[facts' types]| |] eqn:Hc; intros [= <-].
  apply close_functions_ok in Hc as [Hd [Ha _ Hf _]]; [|constructor].
  apply (drained_live_keys bs_extend set_join _ (type_refers p) type_function_edge) in Hd as [Hlive Hexp].
  assert (Hsup : forall t, live (type_refers p) seeds t -> is_Some (identity_fingerprint ids t) /\ is_Some (type_links p t)).
  { intros t Ht%Hlive. destruct (Hexp _ Ht) as (next & Hn). rewrite as_function_keys in Hn.
    apply type_keys_ok in Hn as [? ->]. eauto. }
  assert (Hff : forall k ff, as_function_fact fact k = Ok ff -> identity_fingerprint ids k = Some (ff_fingerprint ff)).
  { intros k ff. unfold as_function_fact. destruct (fact k) as [[fp l]| |] eqn:E; intros [= <-].
    by apply type_fact_ok in E as [? _]. }
  split; [split_and!; [done| |intros k Hk; by apply Hsup]|intros t Ht; by apply Hsup]. intros k fp. split.
  - intros Hk. split; [apply Hlive, bm_get_keys; eauto|]. destruct (Hf _ _ Hk) as (ff & Hx & ->). by apply Hff.
  - intros [Hk%Hlive Hfp]. apply bm_get_keys in Hk as [fp' Hk]. rewrite Hk. f_equal.
    destruct (Hf _ _ Hk) as (ff & Hx%Hff & ->). congruence.
Qed.

Lemma types_loop_defined seeds :
  (forall t, live (type_refers p) seeds t -> is_Some (identity_fingerprint ids t) /\ is_Some (type_links p t)) ->
  exists facts, close_types fact (fuel seeds) seeds [] = Ok facts.
Proof.
  intros Hsup. rewrite close_types_functions, type_fuel.
  destruct (drain_keys_defined bs_extend set_join set_length _ (type_refers p) type_function_edge _
    declared_types_NoDup type_universe type_no_panic seeds) as [R HR].
  - intros n [? [links ?]]%Hsup. exists links. rewrite as_function_keys. by apply type_keys_ok.
  - destruct (close_functions_end (as_function_fact fact) _ seeds [] ltac:(constructor) (ex_intro _ R HR)) as (facts & types & ->).
    by exists facts.
Qed.
End TypeLoop.

(** ** The executable closure *)

(** What the closure identity hashes, without its encoding. *)
Record ExecutableClosure : Type := mkExecutableClosure {
  ec_functions : list (string * string);
  ec_types : list (string * string);
  ec_specializations : list Value
}.

(** The closure of a program whose identities are unique. *)
Record ClosureOf (p : Program) (ids : SemanticIdentities) (roots : list SemanticId) (c : ExecutableClosure) : Prop := {
  cl_unique : NoDup (map (function_identity p) (p_functions p));
  cl_supported : forall id, closure_live p roots id -> exists f body, function_of p id f /\ fn_body f = Some body;
  cl_functions : FactsOf ids (closure_live p roots) (ec_functions c);
  cl_declared : forall t, type_live p roots t -> is_Some (type_links p t);
  cl_types : FactsOf ids (type_live p roots) (ec_types c);
  cl_specializations : Forall2 (fun row v => specialization_value row = Some v)
    (filter (fun row => gs_generic_function row ∈ bm_keys (ec_functions c)) (p_generic_specializations p))
    (ec_specializations c)
}.

Definition closure_identity_of (p : Program) (roots : list SemanticId) (seeds : list HostGenericSeedRequest)
  (c : ExecutableClosure) : Outcome unit string :=
  tagged_identity "mncs.compiler.application-executable-closure-identity/2"
    (closure_identity_value (p_module p) roots (generic_seed_keys seeds) (ec_functions c) (ec_types c)
       (ec_specializations c) (assumptions_value (p_assumptions p))).

Lemma selected_filter p facts :
  selected_specializations p facts =
  filter (fun row => gs_generic_function row ∈ bm_keys facts) (p_generic_specializations p).
Proof.
  unfold selected_specializations. induction (p_generic_specializations p) as [|row l IH]; [done|].
  rewrite filter_cons. cbn [List.filter]. unfold bs_mem at 1. case_bool_decide; [rewrite decide_True by done|rewrite decide_False by done];
    by rewrite IH.
Qed.

(** The types the second loop starts with. *)
Lemma seeds_mentioned p ids roots facts types t :
  FactsOf ids (closure_live p roots) facts ->
  (forall t, t ∈ types <-> exists id f body, closure_live p roots id /\ function_of p id f /\
     fn_body f = Some body /\ t ∈ function_types p f body) ->
  t ∈ bs_extend types (flat_map (fun row => flat_map argument_types (gs_args row)) (selected_specializations p facts)) <->
  mentioned p roots t.
Proof.
  intros Hf Ht. rewrite elem_of_bs_extend, Ht, selected_filter. unfold mentioned.
  rewrite list_elem_of_In, in_flat_map. setoid_rewrite in_flat_map. setoid_rewrite <- list_elem_of_In.
  setoid_rewrite list_elem_of_filter. setoid_rewrite (FactsOf_key ids _ facts _ Hf). split.
  - intros [(row & [Hl Hr] & [ty|] & Ha & Hin)|?]; [right; exists row, ty; auto|by apply elem_of_nil in Hin|by left].
  - intros [?|(row & ty & Hr & Hl & Ha & Hin)]; [by right|left]. exists row. split; [done|]. by exists (GaType ty).
Qed.

Lemma type_live_seeds p roots seeds t :
  (forall t, t ∈ seeds <-> mentioned p roots t) -> live (type_refers p) seeds t <-> type_live p roots t.
Proof. intros Hs. unfold live, type_live. by setoid_rewrite Hs. Qed.

Lemma specialization_values_ok rows values :
  map_outcome (fun row => try_some (specialization_value row)) rows = Ok values <->
  Forall2 (fun row v => specialization_value row = Some v) rows values.
Proof.
  rewrite map_outcome_ok. split; intros HF; (eapply Forall2_impl; [exact HF|]); intros row v;
    unfold try_some, ok_or; destruct (specialization_value row); congruence.
Qed.

Lemma closure_of_ok p ids roots seeds identity :
  application_executable_closure_identity p ids roots seeds = Ok identity ->
  roots <> [] /\ exists c, ClosureOf p ids (closure_roots roots seeds) c /\
    closure_identity_of p (closure_roots roots seeds) seeds c = Ok identity.
Proof.
  unfold application_executable_closure_identity. case_bool_decide as Hr; [done|]. cbn [negb try_if mbind outcome_bind].
  intros (by_id & Hi & Hx)%outcome_bind_ok. split; [done|]. destruct (index_declarations p _ _ Hi) as (Hnd & Ha & Hby).
  apply outcome_bind_ok in Hx as ([facts types] & Hf & Hx).
  apply functions_loop_ok in Hf as (Hf & _ & Hsup & Ht); [|done..].
  apply outcome_bind_ok in Hx as (tfacts & Htf & Hx). apply types_loop_ok in Htf as [Htf Hdecl].
  pose proof (fun t => seeds_mentioned p ids _ facts types t Hf Ht) as Hseeds.
  apply outcome_bind_ok in Hx as (values & Hv%specialization_values_ok & Hx). rewrite selected_filter in Hv.
  exists (mkExecutableClosure facts tfacts values). split; [|done]. split; cbn [ec_functions ec_types ec_specializations]; try done.
  - intros id (f & body & ? & ? & _)%Hsup. eauto.
  - intros t Hl. apply Hdecl. by apply (type_live_seeds p _ _ t Hseeds).
  - eapply FactsOf_iff; [|exact Htf]. intros t. by apply type_live_seeds.
Qed.

Lemma closure_of_defined p ids roots seeds c identity :
  roots <> [] -> ClosureOf p ids (closure_roots roots seeds) c ->
  closure_identity_of p (closure_roots roots seeds) seeds c = Ok identity ->
  application_executable_closure_identity p ids roots seeds = Ok identity.
Proof.
  intros Hr [Hnd Hsup Hf Hdecl Ht Hv] Hid. unfold application_executable_closure_identity.
  rewrite bool_decide_false by done. cbn [negb try_if mbind outcome_bind].
  destruct (index_declarations_ok p _ Hnd) as [by_id Hi]. rewrite Hi. cbn [mbind outcome_bind].
  destruct (index_declarations p _ _ Hi) as (_ & Ha & Hby).
  assert (Hsup' : forall id, closure_live p (closure_roots roots seeds) id -> supported p ids id).
  { intros id Hl. destruct (Hsup id Hl) as (f & body & ? & ?). exists f, body. split_and!; [done..|]. by apply Hf. }
  destruct (functions_loop_defined p ids by_id Ha Hby _ Hsup') as (facts & types & Hc). rewrite Hc. cbn [mbind outcome_bind].
  apply functions_loop_ok in Hc as (Hf' & _ & _ & Htypes); [|done..].
  pose proof (fun t => seeds_mentioned p ids _ facts types t Hf' Htypes) as Hseeds.
  match goal with |- context [close_types _ (enough _ _ ?s) ?s []] =>
    destruct (types_loop_defined p ids s) as [tfacts Hc];
    [intros t Hl%(type_live_seeds p (closure_roots roots seeds) s t Hseeds); split; [by apply Ht|by apply Hdecl]|] end.
  rewrite Hc. cbn [mbind outcome_bind]. apply types_loop_ok in Hc as [Htf _].
  apply (FactsOf_iff _ _ (type_live p (closure_roots roots seeds))) in Htf; [|intros t; by apply type_live_seeds].
  rewrite (FactsOf_unique _ _ _ _ Htf Ht), (FactsOf_unique _ _ _ _ Hf' Hf).
  rewrite (proj2 (specialization_values_ok _ (ec_specializations c))) by (by rewrite selected_filter). exact Hid.
Qed.

(** The executable closure of a build is what its roots reach.  The identity
    is computed exactly when the selected callables are not empty, no two
    functions share an identity, every function the callables and seeds reach
    -- through calls, iteration callees and the specializations of a generic --
    has a body and a fingerprint, and every nominal type those functions mention,
    or a specialization of them is applied to, directly or through the fields of
    other types, is declared and has one.  It is then the hash of the
    fingerprints of precisely these functions and types. *)
Theorem closure_identity_exact p ids roots seeds identity :
  application_executable_closure_identity p ids roots seeds = Ok identity <->
  roots <> [] /\ exists c, ClosureOf p ids (closure_roots roots seeds) c /\
    closure_identity_of p (closure_roots roots seeds) seeds c = Ok identity.
Proof.
  split; [apply closure_of_ok|]. intros [Hr (c & Hc & Hid)]. by apply (closure_of_defined p ids roots seeds c).
Qed.

(** The closure identity is always computed or refused: both worklists run
    to their end, however the functions call each other and the types nest. *)
Theorem closure_identity_total p ids roots seeds :
  (exists identity, application_executable_closure_identity p ids roots seeds = Ok identity) \/
  application_executable_closure_identity p ids roots seeds = Err tt.
Proof.
  unfold application_executable_closure_identity. case_bool_decide; [by right|]. cbn [negb try_if mbind outcome_bind].
  destruct (fold_outcome _ _ _) as [by_id|[]|m] eqn:Hi; [|by right|by apply index_declarations_no_panic in Hi].
  destruct (index_declarations p _ _ Hi) as (_ & Ha & Hby). cbn [mbind outcome_bind].
  destruct (functions_loop_total p ids by_id Ha Hby (closure_roots roots seeds)) as [[[facts types] ->]|[[] ->]]; [|by right].
  cbn [mbind outcome_bind].
  match goal with |- context [close_types _ (enough _ _ ?s) ?s []] =>
    destruct (types_loop_total p ids s) as [[tfacts ->]|[[] ->]] end; [|by right].
  cbn [mbind outcome_bind]. unfold tagged_identity, try_some.
  destruct (map_outcome _ _) as [values|[]|m] eqn:Hv; cbn [mbind outcome_bind].
  - destruct (to_vec _); cbn; eauto.
  - by right.
  - exfalso. eapply map_outcome_no_panic; [|exact Hv]. intros row msg. unfold ok_or. by destruct (specialization_value row).
Qed.
End Spec.

(** ** Equal identities *)

Section Binding.
Context `{ModelCrate, SeedCrate, JsonCrate, ProgramCrate, ProgramFacts}.
(** SHA-256 separates the inputs it is given, and [serde_json] writes different
    values differently. *)
Context `{!Inj (=) (=) sha256_hex} (Hinj : forall v w, to_vec v = to_vec w -> v = w).

Lemma tagged_identity_inj tag v w i : tagged_identity tag v = Ok i -> tagged_identity tag w = Ok i -> v = w.
Proof.
  unfold tagged_identity, try_some. destruct (to_vec v) as [s|] eqn:Hv; cbn; [|done].
  destruct (to_vec w) as [t|] eqn:Hw; cbn; [|done]. intros Hi Hj. rewrite <- Hj in Hi.
  apply (f_equal (fun o => match o with Ok x => x | _ => "" end)) in Hi. apply sha256_inj in Hi.
  apply string_app_inv_head, string_app_inv_head in Hi. apply Hinj. congruence.
Qed.

Lemma facts_value_inj l k : facts_value l = facts_value k -> l = k.
Proof.
  intros [= Heq]. revert k Heq. induction l as [|[a b] l IH]; intros [|[c d] k] Heq; try done.
  cbn in Heq. injection Heq as -> -> Heq. f_equal. by apply IH.
Qed.

Lemma closure_identity_value_inj m m' r r' k k' f f' t t' s s' a a' :
  closure_identity_value m r k f t s a = closure_identity_value m' r' k' f' t' s' a' ->
  m = m' /\ r = r' /\ k = k' /\ f = f' /\ t = t' /\ s = s' /\ a = a'.
Proof.
  intros Heq.
  assert (E1 : Some (Str m) = Some (Str m')) by exact (f_equal (get "root_module") Heq).
  assert (E2 : Some (strings r) = Some (strings r')) by exact (f_equal (get "callable_roots") Heq).
  assert (E3 : Some (strings k) = Some (strings k')) by exact (f_equal (get "generic_seed_keys") Heq).
  assert (E4 : Some (facts_value f) = Some (facts_value f')) by exact (f_equal (get "function_semantic_facts") Heq).
  assert (E5 : Some (facts_value t) = Some (facts_value t')) by exact (f_equal (get "nominal_type_semantic_facts") Heq).
  assert (E6 : Some (Array s) = Some (Array s')) by exact (f_equal (get "generic_specializations") Heq).
  assert (E7 : Some a = Some a') by exact (f_equal (get "program_assumptions") Heq).
  apply (inj Some) in E4, E5. apply facts_value_inj in E4, E5. injection E1 as E1. injection E2 as E2. injection E3 as E3.
  apply map_Str_inj in E2, E3. injection E6 as E6. injection E7 as E7. done.
Qed.

Lemma ClosureOf_unique p ids roots c c' : ClosureOf p ids roots c -> ClosureOf p ids roots c' -> c = c'.
Proof.
  intros [_ _ Hf _ Ht Hs] [_ _ Hf' _ Ht' Hs']. destruct c as [f t s], c' as [f' t' s']. cbn in *.
  pose proof (FactsOf_unique _ _ _ _ Hf Hf') as <-. pose proof (FactsOf_unique _ _ _ _ Ht Ht') as <-. f_equal.
  revert s' Hs'. induction Hs as [|row v l s Hv _ IH]; intros s' Hs'; inversion Hs'; subst; [done|]. f_equal; [congruence|auto].
Qed.

(** C21: the closure identity decides the reuse of an artifact soundly and
    completely.  Two builds have the same identity exactly when they have the
    same root module, roots, seeds and assumptions and the same closure: the
    same reachable functions and nominal types with the same fingerprints, and
    the same specializations.  An edit that changes the fingerprint of anything
    reachable changes the identity; an edit of anything else does not. *)
Theorem closure_identity_binds p p' ids ids' roots roots' seeds seeds' i i' :
  application_executable_closure_identity p ids roots seeds = Ok i ->
  application_executable_closure_identity p' ids' roots' seeds' = Ok i' ->
  i = i' <->
  p_module p = p_module p' /\ assumptions_value (p_assumptions p) = assumptions_value (p_assumptions p') /\
  (forall id, id ∈ closure_roots roots seeds <-> id ∈ closure_roots roots' seeds') /\
  (forall k, k ∈ map seed_key seeds <-> k ∈ map seed_key seeds') /\
  exists c, ClosureOf p ids (closure_roots roots seeds) c /\ ClosureOf p' ids' (closure_roots roots' seeds') c.
Proof.
  intros (_ & c & Hc & Hi)%closure_of_ok (_ & c' & Hc' & Hi')%closure_of_ok. unfold closure_identity_of in *.
  rewrite !generic_seed_keys_set in *.
  assert (Hasc : forall r s, ascending (closure_roots r s)) by (intros; apply bs_extend_ascending, bs_of_list_ascending).
  split.
  - intros <-. pose proof (tagged_identity_inj _ _ _ _ Hi Hi') as Heq.
    apply closure_identity_value_inj in Heq as (Hm & Hr & Hk & Hf & Ht & Hs & Ha).
    split_and!; [done|done|intros id; by rewrite Hr| |].
    + intros k. by rewrite <- (elem_of_bs_of_list k (map seed_key seeds)), Hk, elem_of_bs_of_list.
    + exists c. split; [done|]. destruct c, c'. cbn in *. by subst.
  - intros (Hm & Ha & Hr & Hk & d & Hd & Hd').
    apply (ClosureOf_unique _ _ _ _ _ Hc) in Hd as <-. apply (ClosureOf_unique _ _ _ _ _ Hc') in Hd' as ->.
    rewrite Hm, Ha, (bs_of_list_ext _ _ Hk), (ascending_ext _ _ (Hasc _ _) (Hasc _ _) Hr) in Hi. congruence.
Qed.

(** ** The semantic identity *)

Lemma resolve_module_ok rows ids r rows' ids' :
  resolve_module (rows, ids) r = Ok (rows', ids') ->
  exists fp, mr_semantic_fingerprint r = Some fp /\ fp <> "" /\
    module_id (mr_declared_module r) = mr_module_identity r /\
    bm_get (mr_requested_module r) rows = None /\
    rows' = bm_put (mr_requested_module r) (resolution_row r fp) rows /\
    ids' = bs_add (module_id (mr_requested_module r)) (bs_add (mr_module_identity r) ids).
Proof.
  unfold resolve_module. destruct (mr_semantic_fingerprint r) as [fp|]; [|done]. cbn [try_some ok_or mbind outcome_bind].
  destruct (String.eqb fp "") eqn:Efp; [done|]. apply String.eqb_neq in Efp.
  destruct (bool_decide (module_id (mr_declared_module r) = _)) eqn:Hid; [|done]. apply bool_decide_eq_true in Hid.
  cbn [negb andb try_if mbind outcome_bind]. destruct (bs_insert (mr_module_identity r) ids) as [fresh ids1] eqn:Ei.
  assert (E1 : ids1 = bs_add (mr_module_identity r) ids) by (unfold bs_add; by rewrite Ei).
  case_bool_decide as Hk; [done|]. destruct fresh; [|done]. intros [= <- <-]. exists fp. subst ids1. split_and!; try done.
  destruct (bm_get _ rows) eqn:Eg; [|done]. destruct Hk. eauto.
Qed.

(** The rows of the resolutions, by requested module. *)
Lemma resolve_modules l rows identities :
  fold_outcome resolve_module ([], []) l = Ok (rows, identities) ->
  bm_ascending rows /\ ascending identities /\ NoDup (map mr_requested_module l) /\
  Forall (fun r => exists fp, mr_semantic_fingerprint r = Some fp /\ fp <> "" /\
    module_id (mr_declared_module r) = mr_module_identity r) l /\
  (forall k v, bm_get k rows = Some v <->
     exists r fp, r ∈ l /\ mr_requested_module r = k /\ mr_semantic_fingerprint r = Some fp /\ v = resolution_row r fp) /\
  (forall id, id ∈ identities <-> exists r, r ∈ l /\ (id = mr_module_identity r \/ id = module_id (mr_requested_module r))).
Proof.
  revert rows identities. induction l as [|r l IH] using rev_ind; intros rows identities.
  { intros [= <- <-]. split_and!; [constructor..| |]; [intros k v|intros id]; set_solver. }
  rewrite fold_outcome_app. intros ([rows0 ids0] & Hrows & Hr)%outcome_bind_ok.
  destruct (IH _ _ Hrows) as (Ha & Hai & Hnd & Hall & Hg & Hin).
  apply outcome_bind_ok in Hr as ([rows1 ids1] & Hr & [= <- <-]).
  apply resolve_module_ok in Hr as (fp & Hfp & Hne & Hid & Hk & -> & ->).
  assert (Hfresh : mr_requested_module r ∉ map mr_requested_module l).
  { intros (r' & Hq & Hr')%list_elem_of_fmap. rewrite Forall_forall in Hall.
    destruct (Hall r' Hr') as (fp' & Hfp' & _).
    assert (bm_get (mr_requested_module r) rows0 = Some (resolution_row r' fp')) by (apply Hg; by exists r', fp').
    congruence. }
  split_and!.
  - by apply bm_put_ascending.
  - by apply bs_add_ascending, bs_add_ascending.
  - rewrite map_app. apply NoDup_app. split_and!; [done|set_solver|apply NoDup_singleton].
  - apply Forall_app. split; [done|]. constructor; [eauto|constructor].
  - intros k v. rewrite bm_get_put. setoid_rewrite elem_of_app. setoid_rewrite list_elem_of_singleton.
    case_decide as Ek; [subst k|rewrite Hg].
    + split; [intros [= <-]; exists r, fp; auto|]. intros (r' & fp' & [Hr'| ->] & Hq & Hf' & ->); [|congruence].
      destruct Hfresh. rewrite <- Hq. by apply list_elem_of_fmap_2.
    + split; [intros (r' & fp' & ? & ?); exists r', fp'; auto|]. intros (r' & fp' & [Hr'| ->] & Hq & Hf' & ->); [|congruence].
      by exists r', fp'.
  - intros id. rewrite !elem_of_bs_add, Hin. setoid_rewrite elem_of_app. setoid_rewrite list_elem_of_singleton. split.
    + intros [->|[->|(r' & ? & ?)]]; [exists r; auto|exists r; auto|exists r'; auto].
    + intros (r' & [?| ->] & Hor); [right; right; by exists r'|tauto].
Qed.

Lemma resolution_row_inj r r' fp fp' :
  mr_semantic_fingerprint r = Some fp -> mr_semantic_fingerprint r' = Some fp' ->
  resolution_row r fp = resolution_row r' fp' -> r = r'.
Proof.
  intros Hf Hf' Heq. destruct r as [a b c f], r' as [a' b' c' f']. cbn in Hf, Hf'. subst f f'.
  assert (E1 : Some (Str a) = Some (Str a')) by exact (f_equal (get "requested_module") Heq).
  assert (E2 : Some (Str b) = Some (Str b')) by exact (f_equal (get "declared_module") Heq).
  assert (E3 : Some (Str c) = Some (Str c')) by exact (f_equal (get "module_identity") Heq).
  assert (E4 : Some (Str fp) = Some (Str fp')) by exact (f_equal (get "semantic_fingerprint") Heq).
  congruence.
Qed.

Lemma semantic_identity_ok p fp resolutions seeds i :
  application_semantic_identity p fp resolutions seeds = Ok i ->
  fp <> "" /\ exists rows identities, fold_outcome resolve_module ([], []) resolutions = Ok (rows, identities) /\
    (forall d, d ∈ p_dependencies p -> d ∈ identities) /\
    tagged_identity "mncs.compiler.application-semantic-identity/1"
      (semantic_identity_value (p_module p) fp (bm_values rows) (generic_seed_keys seeds)) = Ok i.
Proof.
  unfold application_semantic_identity. destruct (String.eqb_spec fp "") as [|Hfp]; [done|].
  cbn [negb try_if mbind outcome_bind]. destruct (Nat.eqb _ _); [|done]. cbn [try_if mbind outcome_bind].
  intros ([rows ids] & Hf & Hx)%outcome_bind_ok. split; [done|]. exists rows, ids. split; [done|].
  destruct (forallb _ _) eqn:Hd; [|done]. split; [|exact Hx]. intros d Hin.
  rewrite forallb_forall in Hd. apply bs_mem_spec, Hd, list_elem_of_In, elem_of_bs_of_list, Hin.
Qed.

Lemma resolved_values l rows identities r :
  fold_outcome resolve_module ([], []) l = Ok (rows, identities) ->
  (exists fp, mr_semantic_fingerprint r = Some fp /\ resolution_row r fp ∈ bm_values rows) <-> r ∈ l.
Proof.
  intros (Ha & _ & _ & Hall & Hg & _)%resolve_modules. rewrite Forall_forall in Hall. unfold bm_values.
  setoid_rewrite list_elem_of_fmap. split.
  - intros (fp & Hfp & [k v] & Heq & Hin). cbn in Heq. subst v. apply (bm_elem_get _ _ _ Ha) in Hin.
    apply Hg in Hin as (r' & fp' & Hr' & _ & Hfp' & Heq). by rewrite (resolution_row_inj r r' fp fp').
  - intros Hr. destruct (Hall r Hr) as (fp & Hfp & _). exists fp. split; [done|].
    exists (mr_requested_module r, resolution_row r fp). split; [done|]. apply bm_get_elem, Hg. by exists r, fp.
Qed.

(** The semantic identity of an application stands for its verified sources.
    It is only given to a program all of whose imports are among the resolved
    modules, every one of them with a fingerprint; and two builds have the same
    one exactly when their root modules, root fingerprints, resolutions (in any
    order) and specialization seeds agree.  Source identities, and with them
    comments and layout, do not enter. *)
Theorem semantic_identity_binds p p' fp fp' resolutions resolutions' seeds seeds' i i' :
  application_semantic_identity p fp resolutions seeds = Ok i ->
  application_semantic_identity p' fp' resolutions' seeds' = Ok i' ->
  (forall d, d ∈ p_dependencies p -> exists r, r ∈ resolutions /\ is_Some (mr_semantic_fingerprint r) /\
     (d = mr_module_identity r \/ d = module_id (mr_requested_module r))) /\
  (i = i' <->
   p_module p = p_module p' /\ fp = fp' /\ (forall r, r ∈ resolutions <-> r ∈ resolutions') /\
   (forall k, k ∈ map seed_key seeds <-> k ∈ map seed_key seeds')).
Proof.
  intros (_ & rows & ids & Hf & Hd & Hi)%semantic_identity_ok (_ & rows' & ids' & Hf' & _ & Hi')%semantic_identity_ok.
  pose proof (resolve_modules _ _ _ Hf) as (Ha & _ & _ & Hall & Hg & Hin).
  pose proof (resolve_modules _ _ _ Hf') as (Ha' & _ & _ & _ & Hg' & _). split.
  - intros d (r & Hr & Hor)%Hd%Hin. exists r. rewrite Forall_forall in Hall. destruct (Hall r Hr) as (f & ? & _).
    split_and!; [done|by exists f|done].
  - rewrite !generic_seed_keys_set in *. split.
    + intros <-. pose proof (tagged_identity_inj _ _ _ _ Hi Hi') as Heq.
      assert (E1 : Some (Str (p_module p)) = Some (Str (p_module p'))) by exact (f_equal (get "root_module") Heq).
      assert (E2 : Some (Str fp) = Some (Str fp')) by exact (f_equal (get "root_semantic_fingerprint") Heq).
      assert (E3 : Some (Array (bm_values rows)) = Some (Array (bm_values rows'))) by exact (f_equal (get "resolved_modules") Heq).
      assert (E4 : Some (strings (bs_of_list (map seed_key seeds))) = Some (strings (bs_of_list (map seed_key seeds'))))
        by exact (f_equal (get "generic_seed_keys") Heq).
      injection E1 as E1. injection E2 as E2. injection E3 as E3. injection E4 as E4. apply map_Str_inj in E4.
      split_and!; [done|done| |].
      * intros r. by rewrite <- (resolved_values _ _ _ r Hf), <- (resolved_values _ _ _ r Hf'), E3.
      * intros k. by rewrite <- (elem_of_bs_of_list k (map seed_key seeds)), E4, elem_of_bs_of_list.
    + intros (Hm & -> & Hr & Hk). assert (rows = rows') as <-.
      { apply bm_ext; [done..|]. intros k. apply option_eq. intros v. rewrite Hg, Hg'. by setoid_rewrite Hr. }
      rewrite Hm, (bs_of_list_ext _ _ Hk) in Hi. congruence.
Qed.
End Binding.

(** ** Witnesses *)

From S2P Require Import AppProgramTheorems AppSamples.

Section Sample.

#[local] Instance sample_program_facts : ProgramFacts := {|
  module_id := fun module => "module:" +:+ module;
  body_type_of := fun _ ty => if String.eqb ty "i32" then TyInteger u64_integer else TyRecord ty ty;
  SemanticIdentities := list (string * string);
  identity_fingerprint := fun ids id => assoc id ids;
  specialization_value := fun row => Some (Str (gs_canonical_args row));
  assumptions_value := Str
|}.

(** [main] takes a [Pair] and calls a generic, whose one specialization is
    applied to [Color]; [Pair] has a field of type [Inner]. *)
Definition closure_program (unused : string) : Program := {|
  p_module := "app";
  p_dependencies := [];
  p_functions := [
    mkDeclaration "main" [] [mkTypedValue "Pair" ""] [] (calling ["lib::id"]) "";
    mkDeclaration "unused" [] [mkTypedValue unused ""] [] (calling []) "";
    mkDeclaration "id" ["T"] [] [] (calling []) "lib";
    mkDeclaration "id_color" [] [] [mkTypedValue "i32" ""] (calling []) "lib"];
  p_record_types := [
    mkRecordDeclaration "Inner" "Inner" [] "";
    mkRecordDeclaration "Pair" "Pair" [mkTypedValue "Inner" ""; mkTypedValue "i32" ""] ""];
  p_finite_types := [mkFiniteDeclaration "Color" "Color" [[]; []] ""];
  p_generic_specializations := [mkSpecialization "lib::id" "lib::id_color" "Color" [] [GaType (TyFinite "Color" "Color")] ""];
  p_assumptions := "";
  p_rest := "" |}.
Definition closure_fingerprints (unused : string) : list (string * string) := [
  ("app::main", "f1"); ("app::unused", unused); ("lib::id", "f3"); ("lib::id_color", "f4");
  ("Inner", "t1"); ("Pair", "t2"); ("Color", "t3")].
Definition closure_sample_roots : list (string * string) := [("app", "main")].

Definition closure_sample_identity : string :=
  Eval vm_compute in
    match application_executable_closure_identity (closure_program "i32") (closure_fingerprints "f2")
            closure_sample_roots [] with Ok i => i | _ => "" end.

Lemma closure_sample_computed unused :
  application_executable_closure_identity (closure_program unused) (closure_fingerprints unused) closure_sample_roots [] =
  Ok closure_sample_identity.
Proof. vm_compute. reflexivity. Qed.

(** The closure holds the field of a field and the argument of a specialization,
    but not the function nothing calls. *)
Lemma closure_identity_exact_witness :
  exists c, ClosureOf (closure_program "i32") (closure_fingerprints "f2") (closure_roots closure_sample_roots []) c /\
    closure_identity_of (closure_program "i32") (closure_roots closure_sample_roots []) [] c = Ok closure_sample_identity.
Proof.
  apply (@closure_identity_exact reference_crate sample_seed_crate sample_json_crate reference_program_crate sample_program_facts
    (closure_program "i32") (closure_fingerprints "f2") closure_sample_roots []
    closure_sample_identity). vm_compute. reflexivity.
Defined.

(** An edit of a function nothing calls keeps the identity, though it changes its
    fingerprint and its types. *)
Lemma closure_identity_binds_witness :
  exists c, ClosureOf (closure_program "i32") (closure_fingerprints "i32") (closure_roots closure_sample_roots []) c /\
    ClosureOf (closure_program "Pair") (closure_fingerprints "Pair") (closure_roots closure_sample_roots []) c.
Proof.
  apply (proj1 (@closure_identity_binds reference_crate sample_seed_crate sample_json_crate reference_program_crate sample_program_facts
    reference_sha_inj sample_writes_inj (closure_program "i32") (closure_program "Pair")
    (closure_fingerprints "i32") (closure_fingerprints "Pair") closure_sample_roots closure_sample_roots [] []
    closure_sample_identity closure_sample_identity (closure_sample_computed "i32") (closure_sample_computed "Pair")) eq_refl).
Defined.

Definition sample_resolution (name : string) : ModuleResolution :=
  mkResolution name (name +:+ ".v1") ("module:" +:+ name +:+ ".v1") (Some ("fp:" +:+ name)).

(** The order in which modules were resolved does not matter. *)
Lemma semantic_identity_binds_witness :
  application_semantic_identity (closure_program "i32") "root" [sample_resolution "a"; sample_resolution "b"] [] =
  application_semantic_identity (closure_program "i32") "root" [sample_resolution "b"; sample_resolution "a"] [].
Proof.
  destruct (application_semantic_identity (closure_program "i32") "root"
    [sample_resolution "a"; sample_resolution "b"] []) as [i| |] eqn:Hi; [|by vm_compute in Hi..].
  destruct (application_semantic_identity (closure_program "i32") "root"
    [sample_resolution "b"; sample_resolution "a"] []) as [j| |] eqn:Hj; [|by vm_compute in Hj..].
  f_equal. apply (semantic_identity_binds sample_writes_inj _ _ _ _ _ _ _ _ _ _ Hi Hj).
  split_and!; [done|done| |done]. intros r. rewrite !elem_of_cons. tauto.
Defined.
End Sample.
