(* ===== verification/AppInterface.v ===== *)
(** Interfaces of callables: [tools/stage0-probe/src/application.rs],
    [enqueue_interface_type], [is_builtin_interface_type] and
    [callable_interface].  Definitions only. *)

From Stdlib Require Import Ascii String.
From S2P Require Export Program AppKeys.

Local Open Scope string_scope.
Local Open Scope list_scope.

(** The [Serialize] of the parts of a program an interface shows. *)
Class InterfaceCrate := {
  typed_values_value : list TypedValue -> Value;
  contracts_value : Function -> Value;
  effects_value : Function -> Value;
  capabilities_value : Function -> Value;
  failure_value : Function -> Value;
  record_value : RecordDeclaration -> Value;
  finite_value : FiniteDeclaration -> Value
}.

(** ** Names of types *)

(** The text between a prefix and a suffix, up to the last separator in it. *)
Definition bracketed (prefix suffix separator current : string) : option string :=
  inner ← strip_prefix prefix current;
  inner ← strip_suffix suffix inner;
  element ← rsplit_once separator inner;
  Some (trim element.1).

(** One turn of the loop: [[element; bound]] or [vec<element, lanes>]. *)
Definition element_type (current : string) : option string :=
  match bracketed "[" "]" ";" current with
  | Some element => Some element
  | None => bracketed "vec<" ">" "," current
  end.

Fixpoint innermost_type (fuel : nat) (current : string) : string :=
  match fuel with
  | O => current
  | S fuel => match element_type current with Some element => innermost_type fuel element | None => current end
  end.

(** Every turn shortens the name, so its length is fuel enough. *)
Definition interface_type (type_name : string) : string := innermost_type (S (String.length type_name)) (trim type_name).
Definition enqueue_interface_type (type_name : string) (pending : list string) : list string :=
  bs_add (interface_type type_name) pending.

Definition is_ascii_digit (a : ascii) : bool :=
  (N.leb (N_of_ascii "0") (N_of_ascii a) && N.leb (N_of_ascii a) (N_of_ascii "9"))%bool.

Definition is_builtin_interface_type (type_name : string) : bool :=
  existsb (String.eqb type_name) ["bool"; "byte"; "unit"; "never"]
  || match strip_prefix "mask<" type_name ≫= strip_suffix ">" with
     | Some lanes => bool_decide (is_Some (parse_unsigned U32_MAX lanes))
     | None => false
     end
  || existsb (fun prefix =>
       match strip_prefix prefix type_name with
       | Some width => negb (String.eqb width "") && string_forallb is_ascii_digit width
       | None => false
       end) ["i"; "u"; "f"].

(** ** [callable_interface] *)

Section Interface.
Context `{ModelCrate, JsonCrate, ProgramCrate, InterfaceCrate}.

Definition named_record (type_name : string) (record : RecordDeclaration) : bool :=
  String.eqb (rd_name record) type_name || String.eqb (rd_identity record) type_name.
Definition named_finite (type_name : string) (finite : FiniteDeclaration) : bool :=
  String.eqb (fd_name finite) type_name || String.eqb (fd_identity finite) type_name.

Definition matching_records (program : Program) (type_name : string) : list RecordDeclaration :=
  List.filter (named_record type_name) (p_record_types program).
Definition matching_finite (program : Program) (type_name : string) : list FiniteDeclaration :=
  List.filter (named_finite type_name) (p_finite_types program).

(** The names the declarations a name matches refer to. *)
Definition value_names (values : list TypedValue) : list string := map (fun value => interface_type (tv_type value)) values.
Definition type_references (program : Program) (type_name : string) : list string :=
  flat_map (fun record => value_names (rd_fields record)) (matching_records program type_name)
  ++ flat_map (fun finite => flat_map value_names (fd_variants finite)) (matching_finite program type_name).

Definition ambiguous (type_name : string) : string := "ambiguous type reference: " +:+ type_name.

Record InterfaceTypes : Type := mkInterfaceTypes {
  it_visited : list string;
  it_unresolved : list string;
  it_records : list RecordDeclaration;
  it_finite : list FiniteDeclaration
}.

(** The body of the loop for one name that was not visited before. *)
Definition visit_type (program : Program) (type_name : string) (st : InterfaceTypes) : InterfaceTypes :=
  let records := matching_records program type_name in
  let finites := matching_finite program type_name in
  let unresolved :=
    if Nat.ltb 1 (List.length records + List.length finites) then bs_add (ambiguous type_name) (it_unresolved st)
    else it_unresolved st in
  let record_types := it_records st ++ records in
  let finite_types := it_finite st ++ finites in
  let unresolved :=
    if negb (existsb (named_record type_name) record_types) && negb (existsb (named_finite type_name) finite_types)
       && negb (is_builtin_interface_type type_name)
    then bs_add type_name unresolved else unresolved in
  mkInterfaceTypes (bs_add type_name (it_visited st)) unresolved record_types finite_types.

Fixpoint collect_types (program : Program) (fuel : nat) (needed_types : list string) (st : InterfaceTypes)
  : Outcome unit InterfaceTypes :=
  match fuel with
  | O => Panic "out of fuel"
  | S fuel =>
      match needed_types with
      | [] => Ok st
      | type_name :: needed_types =>
          if bs_mem type_name (it_visited st) then collect_types program fuel needed_types st
          else collect_types program fuel (bs_extend needed_types (type_references program type_name))
                 (visit_type program type_name st)
      end
  end.

(** The fuel: the names of the signature and of all fields of the program. *)
Definition field_names (program : Program) : list string :=
  flat_map (fun record => value_names (rd_fields record)) (p_record_types program)
  ++ flat_map (fun finite => flat_map value_names (fd_variants finite)) (p_finite_types program).
Definition interface_universe (program : Program) (needed_types : list string) : list string :=
  bs_extend needed_types (field_names program).
Definition interface_fuel (program : Program) (needed_types : list string) : nat :=
  enough (E:=unit) (fun type_name => Ok (type_references program type_name))
    (interface_universe program needed_types) needed_types.

Definition record_leb (left right : RecordDeclaration) : bool := ord_leb (rd_identity left) (rd_identity right).
Definition finite_leb (left right : FiniteDeclaration) : bool := ord_leb (fd_identity left) (fd_identity right).

Definition signature_value (identity module name : string) (f : Function) : Value :=
  object [
    ("function_identity", Str identity);
    ("module", Str module);
    ("name", Str name);
    ("inputs", typed_values_value (fn_inputs f));
    ("outputs", typed_values_value (fn_outputs f));
    ("contracts", contracts_value f);
    ("effects", effects_value f);
    ("capabilities", capabilities_value f);
    ("failure", failure_value f)].

Definition interface_status (st : InterfaceTypes) : string :=
  if bool_decide (it_unresolved st = []) then "verified" else "unknown".
Definition types_value (st : InterfaceTypes) : Value :=
  object [
    ("status", Str (interface_status st));
    ("unresolved_references", strings (it_unresolved st));
    ("records", Array (map record_value (sort_by record_leb (it_records st))));
    ("finite", Array (map finite_value (sort_by finite_leb (it_finite st))))].

(** [Err tt] is [None]. *)
Definition callable_interface (program : Program) (module name : string) : Outcome unit Value :=
  f ← ok_or tt (List.find (fun f =>
        String.eqb (fn_name f) name && String.eqb (identity_namespace f (p_module program)) module)
        (p_functions program));
  let identity := function_id module name in
  let needed_types := bs_of_list (value_names (fn_inputs f ++ fn_outputs f)) in
  st ← collect_types program (interface_fuel program needed_types) needed_types (mkInterfaceTypes [] [] [] []);
  let signature := signature_value identity module name f in
  let types := types_value st in
  bytes ← ok_or tt (to_vec (object [("signature", signature); ("types", types)]));
  Ok (object [
    ("schema_version", Str "mncs.compiler.callable-interface/1");
    ("status", Str (interface_status st));
    ("identity", Str (sha256 bytes));
    ("signature", signature);
    ("types", types)]).
End Interface.
