(* ===== verification/AppInterfaceTheorems.v ===== *)
(** What a callable interface shows: the names [enqueue_interface_type] unwraps,
    the declarations the signature reaches, and when the interface counts as
    verified. *)

From Stdlib Require Import Ascii String.
From S2P Require Export AppInterface AppKeysTheorems.

Local Open Scope string_scope.
Local Open Scope list_scope.

(** ** The types a signature reaches *)

Section Types.
Context `{ModelCrate, JsonCrate, ProgramCrate, InterfaceCrate}.

(** One declaration or a builtin stands for the name. *)
Definition declarations (p : Program) (n : string) : nat :=
  List.length (matching_records p n) + List.length (matching_finite p n).
Definition resolved (p : Program) (n : string) : Prop :=
  declarations p n = 1 \/ (declarations p n = 0 /\ is_builtin_interface_type n = true).

Definition name_refers (p : Program) (a b : string) : Prop := b ∈ type_references p a.
Definition name_live (p : Program) (names : list string) : string -> Prop := live (name_refers p) names.

(** What the loop has collected from the names it visited. *)
Record Visited (p : Program) (st : InterfaceTypes) : Prop := {
  vi_ascending : ascending (it_visited st);
  vi_records : it_records st ≡ₚ flat_map (matching_records p) (it_visited st);
  vi_finite : it_finite st ≡ₚ flat_map (matching_finite p) (it_visited st);
  vi_unresolved : forall x, x ∈ it_unresolved st <->
    exists n, n ∈ it_visited st /\
      ((1 < declarations p n /\ x = ambiguous n) \/
       (declarations p n = 0 /\ is_builtin_interface_type n = false /\ x = n))
}.

Lemma Visited_start p : Visited p (mkInterfaceTypes [] [] [] []).
Proof. split; cbn; [constructor|done|done|]. intros x. set_solver. Qed.

(** Adding a fresh key to a set, up to order. *)
Lemma bs_add_perm (x : string) (s : list string) : x ∉ s -> bs_add x s ≡ₚ x :: s.
Proof.
  induction s as [|y s IH]; intros Hx; [done|]. rewrite bs_add_cons. destruct (ord_cmp x y) eqn:E; [|done|].
  - apply ord_cmp_eq in E as ->. set_solver.
  - rewrite IH by set_solver. apply Permutation_swap.
Qed.

Lemma existsb_matching {A} (f : A -> bool) (l : list A) : existsb f l = negb (Nat.eqb (List.length (List.filter f l)) 0).
Proof. induction l as [|x l IH]; [done|]. cbn. destruct (f x); [done|exact IH]. Qed.

Lemma existsb_subset {A} (f : A -> bool) (l k : list A) :
  (forall x, x ∈ k -> x ∈ l) -> existsb f (k ++ List.filter f l) = negb (Nat.eqb (List.length (List.filter f l)) 0).
Proof.
  intros Hk. rewrite <- existsb_matching. apply Bool.eq_iff_eq_true. rewrite !existsb_exists.
  setoid_rewrite <- list_elem_of_In. setoid_rewrite elem_of_app. setoid_rewrite elem_of_filterb. split.
  - intros (x & [Hx|[? _]] & Hf); exists x; auto.
  - intros (x & Hx & Hf). exists x. auto.
Qed.

Lemma visit_type_unresolved p st n :
  Visited p st -> it_unresolved (visit_type p n st) =
  let unresolved := if Nat.ltb 1 (declarations p n) then bs_add (ambiguous n) (it_unresolved st) else it_unresolved st in
  if Nat.eqb (declarations p n) 0 && negb (is_builtin_interface_type n) then bs_add n unresolved else unresolved.
Proof.
  intros [_ Hr Hf _]. unfold visit_type. cbn [it_unresolved]. cbv zeta. unfold declarations, matching_records, matching_finite.
  rewrite !existsb_subset.
  - by destruct (List.length (List.filter (named_record n) _)) as [|a], (List.length (List.filter (named_finite n) _)) as [|b].
  - intros x. rewrite Hf, list_elem_of_In, in_flat_map. intros (? & _ & Hx%list_elem_of_In). by apply elem_of_filterb in Hx as [].
  - intros x. rewrite Hr, list_elem_of_In, in_flat_map. intros (? & _ & Hx%list_elem_of_In). by apply elem_of_filterb in Hx as [].
Qed.

Lemma Visited_visit p st n : Visited p st -> n ∉ it_visited st -> Visited p (visit_type p n st).
Proof.
  intros HV Hn. pose proof (visit_type_unresolved p st n HV) as Hu. destruct HV as [Ha Hr Hf Hun]. split.
  - cbn. by apply bs_add_ascending.
  - cbn. rewrite (bs_add_perm n _ Hn). cbn. by rewrite Hr, Permutation_app_comm.
  - cbn. rewrite (bs_add_perm n _ Hn). cbn. by rewrite Hf, Permutation_app_comm.
  - intros x. rewrite Hu. cbn [it_visited visit_type]. setoid_rewrite elem_of_bs_add. clear Hu. cbv zeta.
    assert (Hsplit : (exists m, (m = n \/ m ∈ it_visited st) /\
        ((1 < declarations p m /\ x = ambiguous m) \/ (declarations p m = 0 /\ is_builtin_interface_type m = false /\ x = m))) <->
      ((1 < declarations p n /\ x = ambiguous n) \/ (declarations p n = 0 /\ is_builtin_interface_type n = false /\ x = n)) \/
      x ∈ it_unresolved st) by (rewrite Hun; naive_solver).
    rewrite Hsplit. destruct (Nat.ltb_spec 1 (declarations p n)), (Nat.eqb_spec (declarations p n) 0); try lia; cbn [andb].
    + rewrite elem_of_bs_add. split; [intros [->|?]; tauto|]. intros [[[_ ->]|[? _]]|?]; [tauto|lia|tauto].
    + destruct (is_builtin_interface_type n) eqn:Eb; cbn [negb].
      * split; [tauto|]. intros [[[? _]|(_ & [=] & _)]|?]; [lia|done].
      * rewrite elem_of_bs_add. split; [intros [->|?]; tauto|]. intros [[[? _]|(_ & _ & ->)]|?]; [lia|tauto|tauto].
    + split; [tauto|]. intros [[[? _]|[? _]]|?]; [lia|lia|done].
Qed.

(** Sorting by a key sorts by it. *)
Lemma sort_by_key_sorted {A} (key : A -> string) (le : A -> A -> bool) (l : list A) :
  (forall x y, le x y = ord_leb (key x) (key y)) -> StronglySorted (fun x y => le x y = true) (sort_by le l).
Proof.
  intros Hle. apply sort_by_sorted; [done| |].
  - intros x y. rewrite !Hle. intros Hxy. apply ord_leb_not_lt. intros Hlt. apply not_true_iff_false in Hxy.
    apply Hxy, ord_leb_not_lt. by apply ord_lt_asym.
  - intros x y z. rewrite !Hle. apply ord_leb_trans.
Qed.

(** ** The loop *)

Section Loop.
Context (p : Program) (needed : list string).
Let universe := interface_universe p needed.

(** The worklist, on the names the program can refer to. *)
Definition expand_name (n : string) : Outcome unit (list string) :=
  if bs_mem n universe then Ok (type_references p n) else Err tt.

Lemma references_fields n m : m ∈ type_references p n -> m ∈ field_names p.
Proof.
  unfold type_references, field_names. rewrite !elem_of_app. rewrite !list_elem_of_In, !in_flat_map.
  setoid_rewrite <- list_elem_of_In. intros [(x & Hx%elem_of_filterb & Hm)|(x & Hx%elem_of_filterb & Hm)]; [left|right];
    exists x; tauto.
Qed.

Lemma references_universe n m : m ∈ type_references p n -> m ∈ universe.
Proof. intros Hm. apply set_join. right. by eapply references_fields. Qed.

Lemma expand_name_ok n next : expand_name n = Ok next <-> n ∈ universe /\ next = type_references p n.
Proof.
  unfold expand_name. destruct (bs_mem n universe) eqn:E.
  - apply bs_mem_spec in E. split; [by intros [= <-]|by intros [_ ->]].
  - split; [done|]. intros [Hn%bs_mem_spec _]. congruence.
Qed.

Lemma expand_name_edge n next m : expand_name n = Ok next -> name_refers p n m <-> m ∈ next.
Proof. by intros [_ ->]%expand_name_ok. Qed.

Lemma live_universe n : name_live p needed n -> n ∈ universe.
Proof.
  intros (root & Hroot & Hr).
  assert (root ∈ universe) as Hu by (apply set_join; by left). clear Hroot.
  induction Hr as [|a b c Hab _ IH]; [done|]. by eapply IH, references_universe.
Qed.

Lemma collect_types_drain fuel pending st :
  (forall n, n ∈ pending -> n ∈ universe) -> Visited p st ->
  match collect_types p fuel pending st with
  | Ok st' => drain_with bs_extend Ok expand_name fuel pending (it_visited st) = Ok (it_visited st') /\ Visited p st'
  | Err _ => False
  | Panic m => drain_with bs_extend Ok expand_name fuel pending (it_visited st) = Panic m
  end.
Proof.
  revert pending st. induction fuel as [|fuel IH]; intros pending st Hp HV; [done|].
  cbn [collect_types drain_with]. destruct pending as [|n pending]; [done|]. cbn [mbind outcome_bind].
  destruct (bs_mem n (it_visited st)) eqn:Hm; [apply IH; [set_solver|done]|].
  rewrite (proj2 (expand_name_ok n (type_references p n))) by (split; [apply Hp; by left|done]). cbn [mbind outcome_bind].
  apply IH.
  - intros m [?|?%references_universe]%set_join; [|done]. apply Hp. by right.
  - apply Visited_visit; [done|]. intros Hn%bs_mem_spec. congruence.
Qed.

Lemma interface_fuel_enough : interface_fuel p needed = enough expand_name universe needed.
Proof.
  unfold interface_fuel, enough. do 2 f_equal. fold universe.
  enough (Haux : forall l, (forall n, n ∈ l -> n ∈ universe) ->
    sum_list_with (fan_out (E:=unit) (fun n => Ok (type_references p n))) l = sum_list_with (fan_out expand_name) l)
    by by apply Haux.
  induction l as [|n l IH]; intros Hu; [done|]. cbn [sum_list_with]. rewrite IH by set_solver. f_equal.
  unfold fan_out. by rewrite (proj2 (expand_name_ok n (type_references p n))) by (split; [apply Hu; by left|done]).
Qed.

Lemma collect_types_ok :
  ascending needed ->
  exists st, collect_types p (interface_fuel p needed) needed (mkInterfaceTypes [] [] [] []) = Ok st /\
    Visited p st /\ (forall n, n ∈ it_visited st <-> name_live p needed n).
Proof.
  intros Ha.
  pose proof (collect_types_drain (interface_fuel p needed) needed _ ltac:(intros n Hn; apply set_join; by left)
    (Visited_start p)) as Hd. rewrite interface_fuel_enough in *.
  assert (Hu : ascending universe) by (by apply bs_extend_ascending).
  destruct (drain_keys_defined bs_extend set_join set_length expand_name (name_refers p) expand_name_edge universe
    (ascending_NoDup _ Hu)) with (roots := needed) as [R HR].
  - by intros n next [? _]%expand_name_ok.
  - intros n m. unfold expand_name. by destruct (bs_mem n universe).
  - intros n Hn%live_universe. eexists. by apply expand_name_ok.
  - cbn [it_visited] in Hd. destruct (collect_types _ _ _ _) as [st|[]|m]; [|done|congruence].
    destruct Hd as [Hd HV]. exists st. split_and!; [done|done|].
    by apply (drained_live_keys bs_extend set_join _ (name_refers p) expand_name_edge) in Hd as [? _].
Qed.
End Loop.

(** ** The interface *)

Definition selected_callable (p : Program) (module name : string) : option Function :=
  List.find (fun f => String.eqb (fn_name f) name && String.eqb (identity_namespace f (p_module p)) module) (p_functions p).
Definition signature_names (f : Function) : list string := bs_of_list (value_names (fn_inputs f ++ fn_outputs f)).

Lemma interface_status_verified p st :
  Visited p st -> interface_status st = "verified" <-> forall n, n ∈ it_visited st -> resolved p n.
Proof.
  intros [_ _ _ Hu]. unfold interface_status, resolved. case_bool_decide as Hb; split; try done.
  - intros _ n Hn. destruct (decide (1 < declarations p n)) as [Hd|Hd].
    + assert (ambiguous n ∈ it_unresolved st) as Hx by (apply Hu; exists n; auto). rewrite Hb in Hx. by apply elem_of_nil in Hx.
    + destruct (is_builtin_interface_type n) eqn:Eb; [lia|].
      destruct (decide (declarations p n = 0)); [|lia].
      assert (n ∈ it_unresolved st) as Hx by (apply Hu; exists n; auto). rewrite Hb in Hx. by apply elem_of_nil in Hx.
  - intros Hr. destruct Hb. apply elem_of_nil_inv. intros x (n & Hn & Hx)%Hu. specialize (Hr n Hn).
    destruct Hx as [[? _]|(? & ? & _)]; [lia|]. destruct Hr as [?|[_ ?]]; [lia|congruence].
Qed.

Lemma callable_interface_ok p module name :
  callable_interface p module name =
  match selected_callable p module name with
  | None => Err tt
  | Some f =>
      st ← collect_types p (interface_fuel p (signature_names f)) (signature_names f) (mkInterfaceTypes [] [] [] []);
      let signature := signature_value (function_id module name) module name f in
      bytes ← ok_or tt (to_vec (object [("signature", signature); ("types", types_value st)]));
      Ok (object [
        ("schema_version", Str "mncs.compiler.callable-interface/1"); ("status", Str (interface_status st));
        ("identity", Str (sha256 bytes)); ("signature", signature); ("types", types_value st)])
  end.
Proof. unfold callable_interface, selected_callable. by destruct (List.find _ _). Qed.

(** C22: an interface shows what its callable mentions, and is verified exactly
    when that is settled.  The interface of the first function with the name and
    module has its signature, and the declarations -- in the order of their
    identities -- of precisely the type names the inputs and outputs reach
    through sequences, vectors, record fields and variant payloads; its status
    is "verified" when each of these names is a builtin or names exactly one
    declaration, and "unknown" otherwise. *)
Theorem interface_exact p module name v :
  callable_interface p module name = Ok v ->
  exists f names records finites,
    selected_callable p module name = Some f /\
    (forall n, n ∈ names <-> name_live p (signature_names f) n) /\ NoDup names /\
    records ≡ₚ flat_map (matching_records p) names /\ StronglySorted (fun r s => record_leb r s = true) records /\
    finites ≡ₚ flat_map (matching_finite p) names /\ StronglySorted (fun r s => finite_leb r s = true) finites /\
    get "signature" v = Some (signature_value (function_id module name) module name f) /\
    pointer ["types"; "records"] v = Some (Array (map record_value records)) /\
    pointer ["types"; "finite"] v = Some (Array (map finite_value finites)) /\
    (get_str "status" v = Some "verified" <-> forall n, name_live p (signature_names f) n -> resolved p n) /\
    (get_str "status" v = Some "verified" \/ get_str "status" v = Some "unknown").
Proof.
  rewrite callable_interface_ok. destruct (selected_callable p module name) as [f|]; [|done].
  destruct (collect_types_ok p (signature_names f)) as (st & -> & HV & Hn); [apply bs_of_list_ascending|].
  cbn [mbind outcome_bind]. intros (bytes & _ & Hv)%outcome_bind_ok. injection Hv as <-.
  exists f, (it_visited st), (sort_by record_leb (it_records st)), (sort_by finite_leb (it_finite st)).
  split_and!; try done.
  - apply ascending_NoDup, (vi_ascending p _ HV).
  - by rewrite sort_by_perm, (vi_records p _ HV).
  - by apply (sort_by_key_sorted rd_identity).
  - by rewrite sort_by_perm, (vi_finite p _ HV).
  - by apply (sort_by_key_sorted fd_identity).
  - change (Some (interface_status st) = Some "verified" <-> forall n, name_live p (signature_names f) n -> resolved p n).
    setoid_rewrite <- Hn. rewrite <- (interface_status_verified p st HV).
    split; [by intros [= ->]|by intros ->].
  - change (Some (interface_status st) = Some "verified" \/ Some (interface_status st) = Some "unknown").
    unfold interface_status. case_bool_decide; auto.
Qed.

(** An interface is always computed: collecting its types ends, however the
    declarations refer to each other, so the only callable without an interface
    is one the program does not have, or one that cannot be written as JSON. *)
Theorem interface_total p module name :
  match selected_callable p module name with
  | None => callable_interface p module name = Err tt
  | Some f =>
      (exists v, callable_interface p module name = Ok v) \/
      (callable_interface p module name = Err tt /\ exists types,
         to_vec (object [("signature", signature_value (function_id module name) module name f); ("types", types)]) = None)
  end.
Proof.
  rewrite callable_interface_ok. destruct (selected_callable p module name) as [f|]; [|done].
  destruct (collect_types_ok p (signature_names f)) as (st & -> & _); [apply bs_of_list_ascending|].
  cbn [mbind outcome_bind]. cbv zeta.
  destruct (to_vec _) as [bytes|] eqn:Hw; [left; by eexists|right; split; [done|by eexists]].
Qed.

Context `{!Inj (=) (=) sha256_hex} (Hinj : forall v w, to_vec v = to_vec w -> v = w).

(** The identity of an interface stands for all of it: two interfaces with
    the same identity are the same, signature, types and status. *)
Theorem interface_identity_binds p p' module module' name name' v v' :
  callable_interface p module name = Ok v -> callable_interface p' module' name' = Ok v' ->
  get_str "identity" v = get_str "identity" v' <-> v = v'.
Proof.
  rewrite !callable_interface_ok. destruct (selected_callable p module name) as [f|]; [|done].
  destruct (selected_callable p' module' name') as [f'|]; [|done].
  destruct (collect_types_ok p (signature_names f)) as (st & -> & HV & _); [apply bs_of_list_ascending|].
  destruct (collect_types_ok p' (signature_names f')) as (st' & -> & HV' & _); [apply bs_of_list_ascending|].
  cbn [mbind outcome_bind]. cbv zeta. set (sig := signature_value _ _ _ f). set (sig' := signature_value _ _ _ f').
  intros (b & Hb & Hv)%outcome_bind_ok (b' & Hb' & Hv')%outcome_bind_ok. split; [|by intros ->].
  destruct (to_vec (object [("signature", sig); ("types", types_value st)])) as [w|] eqn:Hw; [|done]. injection Hb as ->.
  destruct (to_vec (object [("signature", sig'); ("types", types_value st')])) as [w'|] eqn:Hw'; [|done]. injection Hb' as ->.
  injection Hv as <-. injection Hv' as <-. intros Hi.
  change (Some (sha256 b) = Some (sha256 b')) in Hi. apply (inj Some) in Hi. apply sha256_inj in Hi as ->.
  rewrite <- Hw' in Hw. apply Hinj in Hw.
  assert (E1 : Some sig = Some sig') by exact (f_equal (get "signature") Hw).
  assert (E2 : Some (types_value st) = Some (types_value st')) by exact (f_equal (get "types") Hw).
  assert (E3 : Some (interface_status st) = Some (interface_status st')).
  { apply (f_equal (fun o => o ≫= get_str "status")) in E2. exact E2. }
  apply (inj Some) in E1, E2, E3. by rewrite E1, E2, E3.
Qed.
End Types.

(** ** Names *)

Lemma strip_prefix_length p s r : strip_prefix p s = Some r -> String.length s = String.length p + String.length r.
Proof. intros ->%strip_prefix_some. by rewrite string_length_app. Qed.

Lemma strip_suffix_some p s r : strip_suffix p s = Some r -> s = r +:+ p.
Proof.
  revert r. induction s as [|a s IH]; intros r; cbn [strip_suffix].
  - destruct (String.eqb_spec "" p) as [<-|]; [by intros [= <-]|done].
  - destruct (String.eqb_spec (String a s) p) as [<-|]; [by intros [= <-]|].
    destruct (strip_suffix p s) as [q|]; [|done]. intros [= <-]. rewrite string_app_cons. f_equal. by apply IH.
Qed.

Lemma strip_suffix_self p s : strip_suffix p (s +:+ p) = Some s.
Proof.
  induction s as [|a s IH]; [rewrite string_app_nil; destruct p; cbn [strip_suffix]; by rewrite String.eqb_refl|].
  rewrite string_app_cons. cbn [strip_suffix]. destruct (String.eqb_spec (String a (s +:+ p)) p) as [Heq|_].
  - apply (f_equal String.length) in Heq. cbn in Heq. rewrite string_length_app in Heq. lia.
  - by rewrite IH.
Qed.

Lemma find_map_some {A B} (f : A -> option B) l y : find_map f l = Some y -> exists x, x ∈ l /\ f x = Some y.
Proof.
  induction l as [|x l IH]; cbn; [done|]. destruct (f x) as [z|] eqn:E.
  - intros [= <-]. exists x. split; [left|done].
  - intros (x' & ? & ?)%IH. exists x'. split; [by right|done].
Qed.

Lemma trim_with_length strip fuel s :
  (forall w s r, strip w s = Some r -> String.length r <= String.length s) ->
  String.length (trim_with strip fuel s) <= String.length s.
Proof.
  intros Hs. revert s. induction fuel as [|fuel IH]; intros s; [done|]. cbn [trim_with].
  destruct (find_map _ _) as [r|] eqn:E; [|done]. apply find_map_some in E as (w & _ & Hw). apply Hs in Hw.
  specialize (IH r). lia.
Qed.

Lemma trim_length s : String.length (trim s) <= String.length s.
Proof.
  unfold trim, trim_end, trim_start. etrans; apply trim_with_length; intros w x r.
  - intros ->%strip_suffix_some. rewrite string_length_app. lia.
  - intros Hr%strip_prefix_length. lia.
Qed.

Lemma rsplit_once_some sep s a b : rsplit_once sep s = Some (a, b) -> s = a +:+ sep +:+ b.
Proof.
  revert a b. induction s as [|x s IH]; intros a b; cbn [rsplit_once].
  - destruct (strip_prefix sep "") as [r|] eqn:E; [|done]. intros [= <- <-]. rewrite string_app_nil. by apply strip_prefix_some.
  - destruct (rsplit_once sep s) as [[a' b']|].
    + intros [= <- <-]. rewrite string_app_cons. f_equal. by apply IH.
    + destruct (strip_prefix sep (String x s)) as [r|] eqn:E; [|done]. intros [= <- <-]. rewrite string_app_nil.
      by apply strip_prefix_some.
Qed.

Lemma bracketed_shorter prefix suffix separator s e :
  0 < String.length prefix -> bracketed prefix suffix separator s = Some e -> String.length e < String.length s.
Proof.
  intros Hp. unfold bracketed. destruct (strip_prefix prefix s) as [inner|] eqn:E1; cbn; [|done].
  destruct (strip_suffix suffix inner) as [inner'|] eqn:E2; cbn; [|done].
  destruct (rsplit_once separator inner') as [[a b]|] eqn:E3; [|done].
  intros He. assert (e = trim a) as -> by (change (Some (trim a) = Some e) in He; congruence). clear He.
  apply strip_prefix_length in E1. apply strip_suffix_some in E2 as ->. apply rsplit_once_some in E3 as ->.
  rewrite !string_length_app in E1. cbn [fst]. pose proof (trim_length a). lia.
Qed.

Lemma element_type_shorter s e : element_type s = Some e -> String.length e < String.length s.
Proof.
  unfold element_type. destruct (bracketed "[" _ _ s) as [x|] eqn:E.
  - intros [= <-]. eapply bracketed_shorter; [|exact E]. cbn. lia.
  - intros E'. eapply bracketed_shorter; [|exact E']. cbn. lia.
Qed.

Lemma innermost_type_done fuel s : String.length s < fuel -> element_type (innermost_type fuel s) = None.
Proof.
  revert s. induction fuel as [|fuel IH]; intros s Hf; [lia|]. cbn [innermost_type].
  destruct (element_type s) as [e|] eqn:E; [|done]. apply IH. apply element_type_shorter in E. lia.
Qed.

(** A type as the language writes it: a name inside sequences and vectors. *)
Inductive Wrap : Type := InSequence (bound : string) | InVector (lanes : string).
Definition wrapped (w : Wrap) (element : string) : string :=
  match w with
  | InSequence bound => "[" +:+ element +:+ "; " +:+ bound +:+ "]"
  | InVector lanes => "vec<" +:+ element +:+ ", " +:+ lanes +:+ ">"
  end.
Definition written_type (wraps : list Wrap) (name : string) : string := fold_right wrapped name wraps.
Definition plain_wrap (w : Wrap) : Prop :=
  match w with
  | InSequence bound => ";"%char ∉ list_ascii_of_string bound
  | InVector lanes => ","%char ∉ list_ascii_of_string lanes
  end.

Lemma last_char_inj a b (c d : ascii) : a +:+ String c "" = b +:+ String d "" -> c = d.
Proof.
  intros Heq. apply (f_equal (fun s => last (list_ascii_of_string s))) in Heq.
  rewrite !string_chars_app, !last_app in Heq. by injection Heq.
Qed.

Lemma white_space_last : Forall (fun w => exists a c, w = a +:+ String c "" /\ c <> "]"%char /\ c <> ">"%char) white_space.
Proof.
  unfold white_space, bytes. cbn [map app string_of_list_ascii].
  repeat (constructor; [
    first [exists ""; eexists; split; [reflexivity|split; discriminate]
          |eexists (String _ ""), _; split; [reflexivity|split; discriminate]
          |eexists (String _ (String _ "")), _; split; [reflexivity|split; discriminate]]|]).
  constructor.
Qed.

Lemma trim_wrapped w element : trim (wrapped w element) = wrapped w element.
Proof.
  assert (Hs : trim_start (wrapped w element) = wrapped w element) by (by destruct w).
  unfold trim. rewrite Hs. unfold trim_end. destruct (String.length _) as [|n]; [done|]. cbn [trim_with].
  destruct (find_map _ _) as [r|] eqn:E; [|done]. exfalso. apply find_map_some in E as (ws & Hin & Hr).
  pose proof white_space_last as Hl. rewrite Forall_forall in Hl. destruct (Hl ws Hin) as (a & c & -> & H1 & H2).
  apply strip_suffix_some in Hr. rewrite <- string_app_assoc in Hr.
  destruct w as [k|k]; cbn [wrapped] in Hr; rewrite <- !string_app_assoc in Hr.
  - by apply last_char_inj in Hr as <-.
  - by apply last_char_inj in Hr as <-.
Qed.

Lemma element_type_wrapped w element : plain_wrap w -> element_type (wrapped w element) = Some (trim element).
Proof.
  intros Hp. unfold element_type. destruct w as [k|k]; cbn [wrapped plain_wrap] in *.
  - unfold bracketed at 1. rewrite strip_prefix_self. cbn [mbind option_bind].
    rewrite <- !string_app_assoc, strip_suffix_self. cbn [mbind option_bind]. rewrite !string_app_assoc.
    change ("; " +:+ k) with (String ";" (String " " k)). rewrite rsplit_once_last; [done|].
    cbn [list_ascii_of_string]. by intros [[=]|?]%elem_of_cons.
  - assert (bracketed "[" "]" ";" ("vec<" +:+ element +:+ ", " +:+ k +:+ ">") = None) as -> by done.
    unfold bracketed. rewrite strip_prefix_self. cbn [mbind option_bind].
    rewrite <- !string_app_assoc, strip_suffix_self. cbn [mbind option_bind]. rewrite !string_app_assoc.
    change (", " +:+ k) with (String "," (String " " k)). rewrite rsplit_once_last; [done|].
    cbn [list_ascii_of_string]. by intros [[=]|?]%elem_of_cons.
Qed.

(** The name an interface looks up is the element at the bottom of a type.
    Whatever sequences and vectors are written around a name, in any nesting,
    the lookup unwraps all of them and nothing more; and on any text at all the
    unwrapping ends, at a text with no brackets left to remove. *)
Theorem interface_type_innermost :
  (forall wraps name, Forall plain_wrap wraps -> trim name = name -> element_type name = None ->
     interface_type (written_type wraps name) = name) /\
  (forall text, element_type (interface_type text) = None).
Proof.
  split.
  - intros wraps name Hw Ht He. unfold interface_type.
    assert (Htrim : trim (written_type wraps name) = written_type wraps name)
      by (destruct wraps; [done|apply trim_wrapped]).
    rewrite Htrim. clear Htrim.
    generalize (Nat.lt_succ_diag_r (String.length (written_type wraps name))).
    generalize (S (String.length (written_type wraps name))) as fuel. revert Hw.
    induction wraps as [|w wraps IH]; intros Hw fuel Hf; (destruct fuel as [|fuel]; [lia|]); cbn [innermost_type].
    + cbn [written_type fold_right] in *. by rewrite He.
    + apply Forall_cons in Hw as [Hw Hws].
      pose proof (element_type_wrapped w (written_type wraps name) Hw) as Hel.
      cbn [written_type fold_right] in *. fold (written_type wraps name) in *. rewrite Hel.
      assert (Htrim : trim (written_type wraps name) = written_type wraps name)
        by (destruct wraps; [done|apply trim_wrapped]).
      rewrite Htrim in *. apply IH; [done|]. apply element_type_shorter in Hel. lia.
  - intros text. apply innermost_type_done. pose proof (trim_length text). lia.
Qed.

(** ** Witnesses *)

From S2P Require Import AppProgramTheorems AppSamples.

Section Sample.

#[local] Instance sample_interface_crate : InterfaceCrate := {|
  typed_values_value := fun l => strings (map tv_type l);
  contracts_value := fun _ => Null;
  effects_value := fun _ => Null;
  capabilities_value := fun _ => Null;
  failure_value := fun _ => Null;
  record_value := fun r => Str (rd_identity r);
  finite_value := fun r => Str (fd_identity r)
|}.

(** [main] takes a sequence of pairs and returns a mask; [odd] takes a type that
    is not declared. *)
Definition interface_program : Program := {|
  p_module := "app";
  p_dependencies := [];
  p_functions := [
    mkDeclaration "main" [] [mkTypedValue "[ [Pair; 2] ; 4]" ""] [mkTypedValue "mask<8>" ""] (calling []) "";
    mkDeclaration "odd" [] [mkTypedValue "vec<Missing, 4>" ""] [] (calling []) ""];
  p_record_types := [
    mkRecordDeclaration "id:pair" "Pair" [mkTypedValue "Inner" ""; mkTypedValue "u32" ""] "";
    mkRecordDeclaration "id:inner" "Inner" [mkTypedValue "[Pair; 3]" ""] ""];
  p_finite_types := [];
  p_generic_specializations := [];
  p_assumptions := "";
  p_rest := "" |}.

Definition sample_interface (name : string) : Value :=
  match callable_interface interface_program "app" name with Ok v => v | _ => Null end.

Lemma interface_type_sample : interface_type " [ [Pair; 2] ; 4]" = "Pair" /\ interface_type "vec<[u8; 4], 2>" = "u8".
Proof. split; vm_compute; reflexivity. Qed.

(** The interface of [main] is verified, so each name it reaches is settled. *)
Lemma interface_exact_witness :
  (forall n, name_live interface_program
     (signature_names (mkDeclaration "main" [] [mkTypedValue "[ [Pair; 2] ; 4]" ""] [mkTypedValue "mask<8>" ""] (calling []) "")) n ->
   resolved interface_program n) /\
  get_str "status" (sample_interface "odd") = Some "unknown".
Proof.
  split; [|vm_compute; reflexivity].
  assert (Hm : callable_interface interface_program "app" "main" = Ok (sample_interface "main")) by (vm_compute; reflexivity).
  destruct (interface_exact interface_program "app" "main" (sample_interface "main") Hm)
    as (f & names & records & finites & Hf & _ & _ & _ & _ & _ & _ & _ & _ & _ & Hs & _).
  vm_compute in Hf. injection Hf as <-. apply Hs. vm_compute. reflexivity.
Defined.

Lemma interface_identity_binds_witness :
  get_str "identity" (sample_interface "main") <> get_str "identity" (sample_interface "odd").
Proof.
  assert (Hm : callable_interface interface_program "app" "main" = Ok (sample_interface "main")) by (vm_compute; reflexivity).
  assert (Ho : callable_interface interface_program "app" "odd" = Ok (sample_interface "odd")) by (vm_compute; reflexivity).
  intros Heq. apply (@interface_identity_binds reference_crate sample_json_crate reference_program_crate sample_interface_crate
    reference_sha_inj sample_writes_inj _ _ _ _ _ _ _ _ Hm Ho) in Heq.
  apply (f_equal (get_str "status")) in Heq. by vm_compute in Heq.
Defined.
End Sample.
