(* ===== verification/AppSelect.v ===== *)
(** The selection of source tests in a build:
    [tools/stage0-probe/src/application.rs], [generic_seed_functions] and the
    stage of [compile_application] that turns a test selection into callable
    roots, with the responses it is refused with.  Definitions only. *)

From Stdlib Require Import String.
From S2P Require Export AppAnnotate AppClosure.

Local Open Scope string_scope.
Local Open Scope list_scope.

(** The seeded functions of a request, as its rows name them. *)
Definition seed_function_row (row : Value) : option (string * string) :=
  module ← get_str "module" row; function ← get_str "function" row; Some (module, function).
Definition generic_seed_functions (request : Value) : list (string * string) :=
  default [] (rows ← get_array "generic_seeds" request; Some (bs_of_list (omap seed_function_row rows))).

(** The status, code and message of a refused selection. *)
Record SelectionFault : Type := mkFault { sf_status : string; sf_code : string; sf_message : string }.
Definition rejected (message : string) : SelectionFault := mkFault "rejected" "MCA115" message.
Definition unsupported (message : string) : SelectionFault := mkFault "unsupported" "MCA114" message.

(** What an accepted selection gives the build. *)
Record SelectedTests : Type := mkSelected {
  st_roots : list (string * string);
  st_entry : string * string;
  st_output : Value
}.

Definition TEST_CASE_SELECTION_SCHEMA : string := "mncs.compiler.source-test-case-selection/1".

(** [json!({ "module": module, "function": function })]. *)
Definition root_value (root : string * string) : Value := object [("module", Str root.1); ("function", Str root.2)].

Section Response.
Context `{WorkCrate}.

Definition snapshot_value (source_identity : string) (source_files : list Value) : Value :=
  object [("identity", Str source_identity); ("files", Array source_files)].

(** [test_case_selection] of a build that did not run the selection. *)
Definition unselected_value (status : string) (selection : Value) : Value :=
  object [("schema_version", Str TEST_CASE_SELECTION_SCHEMA); ("status", Str status);
          ("selection", selection); ("cases", Null)].

Definition source_test_selection_error_response (contract : string) (fault : SelectionFault)
  (source_identity : string) (source_files : list Value) (source_test_inventory : option Value) (selection : Value)
  (cache_key : string) (resolved_module_count : nat) (program_function_count : option nat) : Value :=
  let response := error_contract contract (sf_status fault) (sf_code fault) (sf_message fault) in
  let response := set_field "source_snapshot" (snapshot_value source_identity source_files) response in
  let response := set_field "test_case_selection" (unselected_value (sf_status fault) selection) response in
  let response := set_if "source_test_inventory" source_test_inventory response in
  let response := annotate_cache response cache_key "bypass" "not_published" [] ["source_semantic_check"] in
  annotate_frontend_work response resolved_module_count program_function_count
    (if String.eqb (sf_status fault) "rejected" then "rejected" else "verified").
End Response.

Section Select.
Context `{ModelCrate, ProgramCrate}.

Definition has_generic_params (test : Value) : bool :=
  match get_array "generic_params" test with Some params => negb (bool_decide (params = [])) | None => false end.

(** The root of one selected case. *)
Definition case_root (seed_functions : list (string * string)) (test : Value)
  : Outcome SelectionFault (string * string) :=
  module ← ok_or (rejected "Language Test inventory entry is missing its module identity") (get_str "module" test);
  function ← ok_or (rejected "Language Test inventory entry is missing its function name") (get_str "name" test);
  if negb (bool_decide (get_str "function_identity" test = Some (function_id module function))) then
    Err (rejected "Language Test inventory function identity does not match its module and name")
  else if has_generic_params test && negb (bs_mem (module, function) seed_functions) then
    Err (unsupported ("selected generic Test " +:+ module +:+ "::" +:+ function
      +:+ " requires an explicit matching generic_seeds specialization"))
  else Ok (module, function).

(** The body of the loop: the roots of the build, and those of the tests. *)
Definition add_case (seed_functions : list (string * string))
  (st : list (string * string) * list (string * string)) (test : Value)
  : Outcome SelectionFault (list (string * string) * list (string * string)) :=
  root ← case_root seed_functions test;
  Ok (bs_add root st.1, bs_add root st.2).

(** The inventory is of the current root module. *)
Definition inventory_current (module : string) (inventory : Value) : bool :=
  bool_decide (get_str "schema_version" inventory = Some "mncs.test-inventory/1")
  && bool_decide (get_str "scope" inventory = Some "source_module")
  && bool_decide (get_str "module" inventory = Some module).

Definition too_many_tests (selection : SourceTestSelection) (inventory : Value) : bool :=
  match selection, get_array "tests" inventory with
  | AllSourceCases, Some tests => Nat.ltb MAX_SELECTED_TEST_CASES (List.length tests)
  | _, _ => false
  end.

Definition selection_output (selection_value : Value) (selected_cases : list Value)
  (selected_test_roots : list (string * string)) : Value :=
  object [
    ("schema_version", Str TEST_CASE_SELECTION_SCHEMA);
    ("status", Str "verified");
    ("selection", selection_value);
    ("selected_test_case_identities", Array (omap (get "test_case_identity") selected_cases));
    ("selected_test_roots", Array (map root_value selected_test_roots));
    ("cases", Array selected_cases)].

Definition select_test_cases (module : string) (inventory : option Value) (selection : SourceTestSelection)
  (selection_value : Value) (seed_functions callable_roots : list (string * string))
  : Outcome SelectionFault SelectedTests :=
  inventory ← ok_or (rejected
    "Language frontend did not return a source Test inventory for the current valid program") inventory;
  if negb (inventory_current module inventory) then
    Err (rejected "Language source Test inventory does not match the verified root module")
  else if too_many_tests selection inventory then
    Err (unsupported "source Test inventory exceeds the bounded test selection count")
  else
  selected_cases ← match resolve_source_test_selection selection inventory with
                   | Ok cases => Ok cases
                   | Err message => Err (rejected message)
                   | Panic message => Panic message
                   end;
  '(roots, selected_test_roots) ←
    fold_outcome (add_case seed_functions) (bs_of_list callable_roots, []) selected_cases;
  match roots with
  | [] => Err (unsupported "test_selection resolved no callable roots")
  | entry :: _ =>
      if Nat.ltb MAX_CALLABLE_ROOTS (List.length roots) then
        Err (unsupported "combined callable roots and selected source tests exceed the bounded callable count")
      else Ok (mkSelected roots entry (selection_output selection_value selected_cases selected_test_roots))
  end.
End Select.
