(* ===== verification/AppSelectTheorems.v ===== *)
(** Source test selections: which are accepted, with which callable roots. *)

From Stdlib Require Import String.
From S2P Require Export AppSelect AppRequestTheorems AppAnnotateTheorems.

Local Open Scope string_scope.
Local Open Scope list_scope.

Section Select.
Context `{ModelCrate, ProgramCrate}.

(** The inventory lists [root] under its own identity, and a seed if it is
    generic. *)
Definition admitted_case (seed_functions : list (string * string)) (test : Value) (root : string * string) : Prop :=
  get_str "module" test = Some root.1 /\ get_str "name" test = Some root.2 /\
  get_str "function_identity" test = Some (function_id root.1 root.2) /\
  (has_generic_params test = true -> root ∈ seed_functions).

Lemma case_root_ok seeds test root :
  ascending seeds -> case_root seeds test = Ok root <-> admitted_case seeds test root.
Proof.
  intros Hs. unfold case_root, admitted_case.
  destruct (get_str "module" test) as [module|]; cbn [ok_or mbind outcome_bind]; [|split; [done|by intros (? & _)]].
  destruct (get_str "name" test) as [function|]; cbn [ok_or mbind outcome_bind]; [|split; [done|by intros (_ & ? & _)]].
  destruct (bool_decide (get_str "function_identity" test = _)) eqn:Ei; cbn [negb].
  - apply bool_decide_eq_true in Ei. destruct (has_generic_params test) eqn:Eg; cbn [andb].
    + destruct (bs_mem (module, function) seeds) eqn:Em; cbn [negb].
      * apply bs_mem_spec in Em. split; [by intros [= <-]|].
        destruct root. cbn. by intros ([= ->] & [= ->] & _).
      * apply not_true_iff_false in Em. rewrite bs_mem_spec in Em. split; [done|].
        destruct root. cbn. intros ([= ->] & [= ->] & _ & Hg). by destruct Em; apply Hg.
    + split; [intros [= <-]; by split_and!|]. destruct root. cbn. by intros ([= ->] & [= ->] & _).
  - apply bool_decide_eq_false in Ei. split; [done|]. destruct root. cbn. by intros ([= ->] & [= ->] & ? & _).
Qed.

Lemma add_cases_ok seeds tests st st' :
  ascending seeds -> fold_outcome (add_case seeds) st tests = Ok st' <->
  exists roots, Forall2 (admitted_case seeds) tests roots /\
    st' = (fold_left (fun s x => bs_add x s) roots st.1, fold_left (fun s x => bs_add x s) roots st.2).
Proof.
  intros Hs. revert st. induction tests as [|test tests IH]; intros [roots selected]; cbn [fold_outcome].
  - split; [intros [= <-]; by exists []|]. intros (r & Hr%Forall2_nil_inv_l & ->). by subst.
  - rewrite outcome_bind_ok. split.
    + intros (s1 & Hstep & Hrest). apply outcome_bind_ok in Hstep as (root & Hroot & Heq). injection Heq as <-.
      apply (case_root_ok seeds test root Hs) in Hroot.
      apply IH in Hrest as (r & Hr & ->). exists (root :: r). by split; [constructor|].
    + intros (r & Hr & ->). apply Forall2_cons_inv_l in Hr as (root & r' & Hroot & Hr & ->).
      exists (bs_add root roots, bs_add root selected). split; [|apply IH; by exists r'].
      apply outcome_bind_ok. exists root. by split; [apply case_root_ok|].
Qed.

Lemma case_root_no_panic seeds test message : case_root seeds test <> Panic message.
Proof.
  unfold case_root. destruct (get_str "module" test); [|done]. destruct (get_str "name" test); [|done]. cbn.
  repeat case_if; done.
Qed.

(** The roots of the build and of the tests, as the loop leaves them. *)
Lemma select_cases_ok seeds callable tests st :
  ascending seeds -> fold_outcome (add_case seeds) (bs_of_list callable, []) tests = Ok st <->
  exists roots, Forall2 (admitted_case seeds) tests roots /\ st = (bs_of_list (callable ++ roots), bs_of_list roots).
Proof.
  intros Hs. rewrite add_cases_ok by done. cbn [fst snd].
  assert (forall roots, fold_left (fun s x => bs_add x s) roots (bs_of_list callable) = bs_of_list (callable ++ roots)) as Hr.
  { intros roots. change (bs_extend (bs_of_list callable) roots = bs_of_list (callable ++ roots)).
    apply ascending_ext; [apply bs_extend_ascending, bs_of_list_ascending|apply bs_of_list_ascending|].
    intros x. rewrite elem_of_bs_extend, !elem_of_bs_of_list, elem_of_app. tauto. }
  split; intros (roots & Hf & ->); exists roots; (split; [done|]); by rewrite Hr.
Qed.

Lemma inventory_current_spec module inventory :
  inventory_current module inventory = true <->
  get_str "schema_version" inventory = Some "mncs.test-inventory/1" /\
  get_str "scope" inventory = Some "source_module" /\ get_str "module" inventory = Some module.
Proof. unfold inventory_current. rewrite !andb_true_iff, !bool_decide_eq_true. tauto. Qed.

(** Resolution has its own bound, so the first one only changes the fault. *)
Lemma too_many_unresolved selection inventory cases :
  too_many_tests selection inventory = true -> resolve_source_test_selection selection inventory <> Ok cases.
Proof.
  unfold too_many_tests, resolve_source_test_selection. destruct selection; [|done].
  destruct (get_array "tests" inventory) as [tests|]; [|done]. intros Hl. unfold ok_or, mbind, outcome_bind. by rewrite Hl.
Qed.

(** C19: a test selection is accepted exactly when the frontend's inventory is of
    the current root module, it resolves the selection, and every resolved case
    is listed under the identity of its own module and name and, when generic,
    seeded by the request; and when the roots so selected, with the callables
    asked for, are at least one and at most 256.  The build then has precisely
    these roots, in order and without repetition, its entry is the first of
    them, and the response reports the cases and their roots. *)
Theorem selection_exact module inventory selection value seeds callable s :
  ascending seeds ->
  select_test_cases module inventory selection value seeds callable = Ok s <->
  exists rows cases roots, inventory = Some rows /\
    get_str "schema_version" rows = Some "mncs.test-inventory/1" /\
    get_str "scope" rows = Some "source_module" /\ get_str "module" rows = Some module /\
    resolve_source_test_selection selection rows = Ok cases /\ Forall2 (admitted_case seeds) cases roots /\
    1 <= List.length (bs_of_list (callable ++ roots)) <= MAX_CALLABLE_ROOTS /\
    st_roots s = bs_of_list (callable ++ roots) /\ head (st_roots s) = Some (st_entry s) /\
    st_output s = selection_output value cases (bs_of_list roots).
Proof.
  intros Hs. unfold select_test_cases. split.
  - intros Hok. destruct inventory as [rows|]; [|done]. cbn [ok_or mbind outcome_bind] in Hok.
    destruct (inventory_current module rows) eqn:Ec; [|done]. apply inventory_current_spec in Ec as (H1 & H2 & H3).
    cbn [negb] in Hok. destruct (too_many_tests selection rows); [done|].
    destruct (resolve_source_test_selection selection rows) as [cases|e|e] eqn:Er; try done.
    cbn [mbind outcome_bind] in Hok.
    destruct (fold_outcome _ _ cases) as [st|e|e] eqn:Ef; try done. cbn [mbind outcome_bind] in Hok.
    apply select_cases_ok in Ef as (roots & Hf & ->); [|done].
    destruct (bs_of_list (callable ++ roots)) as [|entry rest] eqn:Eb; [done|].
    destruct (Nat.ltb_spec MAX_CALLABLE_ROOTS (List.length (entry :: rest))) as [|Hl]; [done|]. injection Hok as <-.
    exists rows, cases, roots. cbn [st_roots st_entry st_output head]. rewrite Eb. split_and!; try done. cbn. lia.
  - intros (rows & cases & roots & -> & H1 & H2 & H3 & Hr & Hf & Hl & E1 & E2 & E3). cbn [ok_or mbind outcome_bind].
    rewrite (proj2 (inventory_current_spec module rows)) by done. cbn [negb].
    destruct (too_many_tests selection rows) eqn:Et; [by apply (too_many_unresolved _ _ cases) in Et|]. rewrite Hr. cbn [mbind outcome_bind].
    rewrite (proj2 (select_cases_ok seeds callable cases _ Hs)) by by exists roots. cbn [mbind outcome_bind].
    destruct s as [r entry out]. cbn in E1, E2, E3. subst. destruct (bs_of_list (callable ++ roots)) as [|e rest]; [done|].
    injection E2 as <-. destruct (Nat.ltb_spec MAX_CALLABLE_ROOTS (List.length (e :: rest))); [lia|done].
Qed.

Lemma select_no_panic module inventory selection value seeds callable message :
  select_test_cases module inventory selection value seeds callable <> Panic message.
Proof.
  unfold select_test_cases. destruct inventory as [rows|]; [|done]. cbn [ok_or mbind outcome_bind].
  destruct (inventory_current module rows); [|done]. destruct (too_many_tests selection rows); [done|]. cbn [negb].
  destruct (resolve_source_test_selection selection rows) as [cases|e|e] eqn:Er; cbn [mbind outcome_bind]; [|done|].
  - destruct (fold_outcome _ _ cases) as [[[|entry roots] tests]|e|e] eqn:Ef; cbn [mbind outcome_bind]; [done| |done|].
    + by destruct (Nat.ltb _ _).
    + exfalso. revert Ef. apply fold_outcome_no_panic. intros st test m Hm.
      unfold add_case in Hm. destruct (case_root seeds test) eqn:Ec; [done|done|]. by apply case_root_no_panic in Ec.
  - intros _. revert Er. unfold resolve_source_test_selection. destruct (get_array "tests" rows); [|done]. cbn [ok_or mbind outcome_bind].
    destruct selection; [by case_if|]. destruct (map_outcome _ _) eqn:Em; cbn; [done|done|]. intros _.
    revert Em. apply map_outcome_no_panic. intros i m. unfold select_case. by destruct (List.filter _ _) as [|t [|t' k]].
Qed.

(** A selection has roots. *)
Lemma selected_roots module inventory selection value seeds callable s :
  select_test_cases module inventory selection value seeds callable = Ok s -> st_roots s <> [].
Proof.
  unfold select_test_cases. destruct inventory as [rows|]; [|done]. cbn [ok_or mbind outcome_bind].
  destruct (negb _); [done|]. destruct (too_many_tests selection rows); [done|].
  destruct (resolve_source_test_selection selection rows); [|done|done]. cbn [mbind outcome_bind].
  destruct (fold_outcome _ _ _) as [[[|entry roots] tests]| |]; cbn [mbind outcome_bind]; [done| |done|done].
  destruct (Nat.ltb _ _); [done|]. by intros [= <-].
Qed.

(** A refused selection is rejected or unsupported. *)
Lemma select_fault_status module inventory selection value seeds callable fault :
  select_test_cases module inventory selection value seeds callable = Err fault ->
  sf_status fault = "rejected" \/ sf_status fault = "unsupported".
Proof.
  unfold select_test_cases. destruct inventory as [rows|]; cbn [ok_or mbind outcome_bind]; [|intros [= <-]; by left].
  destruct (inventory_current module rows); cbn [negb]; [|intros [= <-]; by left].
  destruct (too_many_tests selection rows); [intros [= <-]; by right|].
  destruct (resolve_source_test_selection selection rows) as [cases|e|e]; cbn [mbind outcome_bind];
    [|intros [= <-]; by left|done].
  destruct (fold_outcome _ _ cases) as [[[|entry roots] tests]|e|e] eqn:Ef; cbn [mbind outcome_bind].
  - intros [= <-]. by right.
  - destruct (Nat.ltb _ _); [intros [= <-]; by right|done].
  - intros [= <-]. revert Ef. generalize (bs_of_list callable, @nil (string * string)). 
    induction cases as [|test cases IH]; intros st; cbn [fold_outcome]; [done|].
    destruct (add_case seeds st test) as [st'|e'|e'] eqn:Ea; cbn [mbind outcome_bind]; [apply IH| |done].
    intros [= <-]. unfold add_case, case_root in Ea.
    repeat match type of Ea with
    | context [get_str ?k test] => destruct (get_str k test); cbn [ok_or mbind outcome_bind] in Ea; [|injection Ea as <-; by left]
    | context [if ?c then _ else _] => destruct c; cbn [mbind outcome_bind] in Ea; [injection Ea as <-; auto|]
    end. done.
  - done.
Qed.
End Select.

(** ** A selection with a generic test *)

From S2P Require Import AppProgramTheorems AppSamples.

Definition sample_test (name : string) (generic : bool) : Value :=
  object [("module", Str "app"); ("name", Str name); ("test_case_identity", Str ("case:" +:+ name));
          ("declaration_identity", Str name); ("generic_params", strings (if generic then ["n"] else []));
          ("function_identity", Str (function_id "app" name))].
Definition sample_inventory : Value :=
  object [("schema_version", Str "mncs.test-inventory/1"); ("scope", Str "source_module"); ("module", Str "app");
          ("tests", Array [sample_test "t1" false; sample_test "t2" true; sample_test "t3" true])].
Definition sample_selected : SelectedTests :=
  mkSelected [("app", "main"); ("app", "t1"); ("app", "t2")] ("app", "main")
    (selection_output Null [sample_test "t1" false; sample_test "t2" true] [("app", "t1"); ("app", "t2")]).

(** [t2] is seeded, so it can be selected; [t3] is not. *)
Lemma selection_exact_witness :
  select_test_cases "app" (Some sample_inventory) (CaseIdentities ["case:t1"; "case:t2"]) Null
    [("app", "t2")] [("app", "main")] = Ok sample_selected.
Proof.
  apply selection_exact; [repeat constructor|].
  exists sample_inventory, [sample_test "t1" false; sample_test "t2" true], [("app", "t1"); ("app", "t2")].
  split_and!; try reflexivity; [|vm_compute; lia..].
  repeat constructor; try reflexivity; intros; discriminate.
Defined.
