(* ===== verification/AppArtifact.v ===== *)
(** The JSON of an emitted artifact: the derived [Serialize] implementations of
    [tools/vm_emit.rs] and of [Graph] and [Node] in
    [tools/vm-artifact-codec/src/lib.rs], as [serde_json::to_value] runs them.
    Definitions only. *)

From Stdlib Require Import String.
From S2P Require Export Emission Json.

Local Open Scope string_scope.
Local Open Scope list_scope.

(** What the crates contribute: a JSON number, a test binding, and the target
    contract as a value. *)
Class ArtifactCrate `{SerdeNumber} := {
  number_value : CodecModel.Number -> Value;
  test_binding_value : BackendCallableBinding -> Value;
  target_contract_value : string -> Value
}.

(** [#[serde(skip_serializing_if = "..")]]: a field that may be left out. *)
Definition field_if {A} (keep : bool) (key : string) (f : A -> Value) (a : A) : list (string * Value) :=
  if keep then [(key, f a)] else [].
Definition field_some {A} (key : string) (f : A -> Value) (a : option A) : list (string * Value) :=
  match a with Some a => [(key, f a)] | None => [] end.

Definition unsigned (n : N) : Value := Number (PosInt n).

Section Artifact.
Context `{ArtifactCrate}.

Definition node_value (node : Node) : Value :=
  match node with
  | NodeN => Str "N"
  | NodeB b => object [("B", Bool b)]
  | NodeI n => object [("I", number_value n)]
  | NodeS s => object [("S", Str s)]
  | NodeA refs => object [("A", Array (map unsigned refs))]
  | NodeO fields => object [("O", Array (map (fun '(k, v) => Array [unsigned k; unsigned v]) fields))]
  end.
Definition graph_value (graph : Graph) : Value :=
  object [("nodes", Array (map node_value (g_nodes graph))); ("root", unsigned (g_root graph))].

Definition source_value (source : ArtifactSource) : Value :=
  object ([("backend_name", Str (as_backend_name source));
           ("backend_version", Str (as_backend_version source));
           ("selected_ssa_identity", Str (as_selected_ssa_identity source));
           ("selected_ssa_fingerprint", Str (as_selected_ssa_fingerprint source));
           ("target", target_contract_value (as_target source));
           ("lowering_refs", strings (as_lowering_refs source))]
          ++ field_some "interface_identity" Str (as_interface_identity source)).

Definition callable_value (entry : CallableEntry) : Value :=
  object ([("module", Str (ce_module entry)); ("name", Str (ce_name entry)); ("function", Str (ce_function entry))]
          ++ field_some "semantic" Str (ce_semantic entry)
          ++ field_some "test_binding" test_binding_value (ce_test_binding entry)).

Definition entrypoint_value (entry : GenericEntrypoint) : Value :=
  object [("generic_module", Str (ge_generic_module entry)); ("generic_function", Str (ge_generic_function entry));
          ("args_spellings", strings (ge_args_spellings entry)); ("canonical_args", Str (ge_canonical_args entry));
          ("function", Str (ge_function entry))].

(** An enum variant renamed to kebab case, tagged from outside. *)
Definition code_value (code : CodeSection) : Value :=
  object [("mncs-selected-ssa",
           object [("ssa_schema", Str (cs_ssa_schema code)); ("module", graph_value (cs_module code))])].

Definition bound_value (bound : BoundDecl) : Value :=
  object [("dimension", Str (bd_dimension bound)); ("limit", unsigned (Z.to_N (bd_limit bound)))].
Definition requirements_value (requirements : ArtifactRequirements) : Value :=
  object [("capabilities", strings (rq_capabilities requirements));
          ("bounds", Array (map bound_value (rq_bounds requirements)));
          ("vm_contract", Str (rq_vm_contract requirements))].

Definition artifact_value (artifact : VmArtifact) : Value :=
  object ([("schema_version", Str (va_schema_version artifact))]
          ++ field_if (negb (String.eqb (va_artifact_id artifact) "")) "artifact_id" Str (va_artifact_id artifact)
          ++ [("source", source_value (va_source artifact));
              ("callables", Array (map callable_value (va_callables artifact)))]
          ++ field_if (negb (bool_decide (va_generic_entrypoints artifact = []))) "generic_entrypoints"
               (fun rows => Array (map entrypoint_value rows)) (va_generic_entrypoints artifact)
          ++ [("code", code_value (va_code artifact));
              ("requirements", requirements_value (va_requirements artifact));
              ("exports", strings (va_exports artifact));
              ("assumptions", strings (va_assumptions artifact));
              ("unsupported", strings (va_unsupported artifact))]).
End Artifact.

Definition binding_value (binding : CapabilityDispatchBinding) : Value :=
  object ([("capability_identity", Str (db_capability_identity binding));
           ("runtime_capability_key", Str (db_runtime_capability_key binding));
           ("runtime_key_kind", Str (db_runtime_key_kind binding));
           ("operation", Str (db_operation binding));
           ("function_identity", Str (db_function_identity binding));
           ("instruction_identity", Str (db_instruction_identity binding))]
          ++ field_some "source_operation_identity" Str (db_source_operation_identity binding)).
