(* ===== verification/AppRespond.v ===== *)
(** The responses of a build that reached the language frontend:
    [tools/stage0-probe/src/application.rs], the response of a rejected
    program, of an artifact that could not be emitted, and the assembly of the
    response around an emitted artifact.  Definitions only. *)

From Stdlib Require Import String.
From S2P Require Export AppArtifact AppSelect.

Local Open Scope string_scope.
Local Open Scope list_scope.

(** What every response repeats of the request and of the frontend run. *)
Record BuildFacts : Type := mkFacts {
  bf_contract : RequestContract;
  bf_toolchain : option ToolchainIdentity;
  bf_probe_identity : string; bf_probe_details : Value;
  bf_source_identity : string; bf_source_files : list Value;
  bf_cache_key : string;
  bf_diagnostics : Value;
  bf_resolved_module_count : nat; bf_program_function_count : option nat;
  bf_inventory : option Value;
  bf_work : LanguageWork
}.

(** A program that passed the frontend, with what the build computed of it. *)
Record VerifiedBuild : Type := mkVerified {
  vb_seeds : list HostGenericSeedRequest; vb_seed_functions : list (string * string);
  vb_roots : list (string * string); vb_entry : string * string; vb_interfaces : list (option Value);
  vb_semantic_identity : option string; vb_closure_identity : option string;
  vb_graph_identity : string; vb_graph : Value;
  vb_selection : option Value
}.
Definition vb_entry_interface (v : VerifiedBuild) : option Value := mjoin (head (vb_interfaces v)).

Definition set_when (b : bool) (key : string) (x : Value) (v : Value) : Value := if b then set_field key x v else v.

Section Respond.
Context `{JsonCrate, WorkCrate, SeedCrate}.

Definition contract_of (b : BuildFacts) : string := rc_contract (bf_contract b).
Definition callable_roots_value (roots : list (string * string)) : Value := Array (map root_value roots).
Definition producer_rows (b : BuildFacts) : list (string * Value) :=
  [("stage0_toolchain", nullable (bf_toolchain b ≫= toolchain_value)); ("probe", bf_probe_details b)].
Definition snapshot_of (b : BuildFacts) : Value := snapshot_value (bf_source_identity b) (bf_source_files b).

(** ** Responses without an artifact *)

Definition rejected_response (b : BuildFacts) (resolutions : Value) (callable_roots : list (string * string))
  (selection : option Value) : Value :=
  let '(entry_module, entry_function) := default ("", "") (head callable_roots) in
  let response := object [
    ("schema_version", Str (contract_of b));
    ("status", Str "rejected");
    ("source_snapshot", snapshot_of b);
    ("dependency_graph", object [("identity", Null); ("resolutions", resolutions)]);
    ("producer", object (producer_rows b));
    ("entry", if String.eqb entry_module "" then Null else root_value (entry_module, entry_function));
    ("artifact", Null);
    ("capability_dispatch", capability_dispatch_value "unknown" [] []);
    ("diagnostics", bf_diagnostics b);
    ("unresolved_obligations", Array []);
    ("unselected_unresolved_exports", Array [])] in
  let response := set_when (rc_multiple_callables (bf_contract b)) "callable_roots"
    (callable_roots_value callable_roots) response in
  let response := set_if "source_test_inventory" (bf_inventory b) response in
  let response := set_if "test_case_selection" (unselected_value "rejected" <$> selection) response in
  let response := annotate_cache response (bf_cache_key b) "bypass" "not_published" [] ["source_semantic_check"] in
  let response := annotate_frontend_work response (bf_resolved_module_count b) (bf_program_function_count b) "rejected" in
  annotate_language_fact_work response (bf_work b).

Definition emission_failed_response (b : BuildFacts) (v : VerifiedBuild) (obligation : string) : Value :=
  let response := object [
    ("schema_version", Str (contract_of b));
    ("status", Str "unsupported");
    ("source_snapshot", snapshot_of b);
    ("dependency_graph", object [("identity", Str (vb_graph_identity v)); ("details", vb_graph v)]);
    ("producer", object (producer_rows b));
    ("entry", root_value (vb_entry v));
    ("artifact", Null);
    ("capability_dispatch", capability_dispatch_value "unsupported" [] [Str obligation]);
    ("diagnostics", bf_diagnostics b);
    ("unresolved_obligations", Array [Str obligation]);
    ("unselected_unresolved_exports", Array [])] in
  let response := set_when (rc_multiple_callables (bf_contract b)) "callable_roots"
    (callable_roots_value (vb_roots v)) response in
  let response := set_if "source_test_inventory" (bf_inventory b) response in
  let response := set_if "test_case_selection" (vb_selection v) response in
  annotate_artifact_emission_failure response (bf_cache_key b) (bf_resolved_module_count b) (bf_program_function_count b).

(** ** Availability *)

Definition rows_of (key : string) (artifact : Value) : list Value := default [] (get_array key artifact).

Definition direct_callable (artifact_callables : list Value) (root : string * string) : bool :=
  existsb (fun row => bool_decide (get_str "module" row = Some root.1) && bool_decide (get_str "name" row = Some root.2))
    artifact_callables.

Definition entrypoint_of (seed : HostGenericSeedRequest) (root : string * string) (row : Value) : bool :=
  bool_decide (get_str "generic_module" row = Some root.1)
  && bool_decide (get_str "generic_function" row = Some root.2)
  && bool_decide (get "args_spellings" row = Some (strings (seed_type_spellings seed))).
Definition seeded_generic_callable (generic_seeds : list HostGenericSeedRequest) (entrypoints : list Value)
  (root : string * string) : bool :=
  existsb (fun seed =>
    String.eqb (seed_module seed) root.1 && String.eqb (seed_function seed) root.2
    && existsb (entrypoint_of seed root) entrypoints) generic_seeds.

Definition callable_available (generic_seeds : list HostGenericSeedRequest) (artifact : Value) (root : string * string) : bool :=
  direct_callable (rows_of "callables" artifact) root
  || seeded_generic_callable generic_seeds (rows_of "generic_entrypoints" artifact) root.

(** ** Statuses *)

Definition producer_unknown (b : BuildFacts) : bool :=
  bool_decide (bf_toolchain b = None) || String.eqb (bf_probe_identity b) "unknown".
Definition interface_verified (interface : option Value) : bool :=
  bool_decide (interface ≫= get_str "status" = Some "verified").

Definition callable_status (b : BuildFacts) (available : bool) (interface : option Value) : string :=
  if negb available then "unsupported"
  else if producer_unknown b || negb (interface_verified interface) then "unknown" else "verified".

Definition build_status (b : BuildFacts) (unresolved : list Value) (availability : list bool)
  (interfaces : list (option Value)) (entry_status : string) : string :=
  if negb (bool_decide (unresolved = [])) || negb (forallb id availability) then "unsupported"
  else if producer_unknown b || negb (forallb interface_verified interfaces) || String.eqb entry_status "unknown"
  then "unknown" else "verified".

(** The obligations of the artifact, and one for each callable it lacks. *)
Definition missing_callable (row : (string * string) * bool) : option Value :=
  let '((module, function), available) := row in
  if available then None
  else Some (Str ("selected callable " +:+ module +:+ "::" +:+ function +:+ " has no admitted callable")).
Definition unresolved_obligations (artifact : Value) (roots : list (string * string)) (availability : list bool) : list Value :=
  rows_of "unsupported" artifact ++ omap missing_callable (zip roots availability).

(** ** The response around an artifact *)

Definition callable_entry (b : BuildFacts) (row : (string * string) * option Value * bool) : Value :=
  let '((module, function), interface, available) := row in
  object [("module", Str module); ("function", Str function);
          ("status", Str (callable_status b available interface)); ("interface", nullable interface)].

Definition callable_scope (b : BuildFacts) (v : VerifiedBuild) (entries : list Value) : Value :=
  if rc_select_test_cases (bf_contract b) then object [
    ("kind", Str "source_test_case_selection_and_explicit_callable_roots_and_generic_seeds");
    ("callable_roots", Array entries);
    ("generic_seed_functions", pairs_value (vb_seed_functions v));
    ("test_case_selection", nullable (vb_selection v))]
  else if rc_multiple_callables (bf_contract b) then object [
    ("kind", Str "selected_callable_roots_and_explicit_generic_seeds");
    ("callable_roots", Array entries);
    ("generic_seed_functions", pairs_value (vb_seed_functions v))]
  else object [
    ("kind", Str "entry_and_explicit_generic_seeds");
    ("entry", root_value (vb_entry v));
    ("generic_seed_functions", pairs_value (vb_seed_functions v))].

Definition build_assumptions (request : Value) (generic_seeds : list HostGenericSeedRequest) : Value := object [
  ("backend", Str "mncs-vm-direct");
  ("target", setting request "target" Null);
  ("capabilities", setting request "capabilities" (Array []));
  ("effect_assumptions", setting request "effect_assumptions" (Array []));
  ("generic_seeds", Array (map seed_value generic_seeds));
  ("optimization_policy", setting request "optimization_policy" (Str "default"));
  ("verification_policy", setting request "verification_policy" (Str "default"))].

Definition artifact_section (artifact : Value) (unresolved : list Value) : Value := object [
  ("schema_version", nullable (get "schema_version" artifact));
  ("identity", nullable (get "artifact_id" artifact));
  ("vm_contract", nullable (pointer ["requirements"; "vm_contract"] artifact));
  ("target", nullable (pointer ["source"; "target"] artifact));
  ("interface_identity", nullable (pointer ["source"; "interface_identity"] artifact));
  ("required_capabilities", default (Array []) (pointer ["requirements"; "capabilities"] artifact));
  ("unresolved_obligations", Array unresolved);
  ("value", artifact)].

Definition resource_intent : Value := object [
  ("compile_cpu_ms", Str "unknown");
  ("compile_peak_memory_bytes", Str "unknown");
  ("execution_step_budget", Str "unknown");
  ("uncertainty", Str "this producer contract records no resource estimate; measure the admitted Forge/VM execution")].

(** The statuses and obligations of a build with an artifact. *)
Record Assessment : Type := mkAssessment {
  as_availability : list bool; as_unresolved : list Value; as_entry_status : string; as_status : string
}.
Definition assess (b : BuildFacts) (v : VerifiedBuild) (artifact : Value) : Assessment :=
  let availability := map (callable_available (vb_seeds v) artifact) (vb_roots v) in
  let unresolved := unresolved_obligations artifact (vb_roots v) availability in
  let entry_status := callable_status b (default false (head availability)) (vb_entry_interface v) in
  mkAssessment availability unresolved entry_status
    (build_status b unresolved availability (vb_interfaces v) entry_status).

Definition callable_entries (b : BuildFacts) (v : VerifiedBuild) (a : Assessment) : list Value :=
  map (callable_entry b) (zip (zip (vb_roots v) (vb_interfaces v)) (as_availability a)).

Definition artifact_object (request : Value) (b : BuildFacts) (v : VerifiedBuild) (artifact : Value)
  (capability_bindings : list CapabilityDispatchBinding) (unselected_unresolved : list string) : Value :=
  let a := assess b v artifact in
  let compatibility_status := if rc_multiple_callables (bf_contract b) then as_status a else as_entry_status a in
  object [
    ("schema_version", Str (contract_of b));
    ("status", Str (as_status a));
    ("source_snapshot", snapshot_of b);
    ("dependency_graph", object [
      ("identity", Str (vb_graph_identity v));
      ("semantic_identity", nullable (Str <$> vb_semantic_identity v));
      ("application_executable_closure_identity", nullable (Str <$> vb_closure_identity v));
      ("details", vb_graph v)]);
    ("producer", object (producer_rows b ++
      [("artifact_backend", nullable (pointer ["source"; "backend_name"] artifact))]));
    ("build_assumptions", build_assumptions request (vb_seeds v));
    ("callable_scope", callable_scope b v (callable_entries b v a));
    ("artifact", artifact_section artifact (as_unresolved a));
    ("capability_dispatch", capability_dispatch_value "verified" (map binding_value capability_bindings) []);
    ("entry", object [
      ("module", Str (vb_entry v).1);
      ("function", Str (vb_entry v).2);
      ("status", Str (as_entry_status a));
      ("interface", nullable (vb_entry_interface v))]);
    ("execution_target_compatibility", object [
      ("target", Str VM_TARGET);
      ("status", Str compatibility_status);
      ("compatible", Bool (String.eqb compatibility_status "verified"));
      ("execution_status", Str "not_run")]);
    ("resource_intent", resource_intent);
    ("diagnostics", bf_diagnostics b);
    ("unresolved_obligations", Array (as_unresolved a));
    ("unselected_unresolved_exports", strings unselected_unresolved)].

(** The response before it is annotated: what is published. *)
Definition artifact_response (request : Value) (b : BuildFacts) (v : VerifiedBuild) (artifact : Value)
  (capability_bindings : list CapabilityDispatchBinding) (unselected_unresolved : list string) : Value :=
  let response := artifact_object request b v artifact capability_bindings unselected_unresolved in
  let response := set_if "source_test_inventory" (bf_inventory b) response in
  let response := set_if "test_case_selection" (vb_selection v) response in
  set_when (rc_multiple_callables (bf_contract b)) "entries" (Array (callable_entries b v (assess b v artifact))) response.

(** What is reported of the finished build. *)
Definition finished_response (b : BuildFacts) (work : LanguageWork) (response : Value)
  (cache_status publication : string) : Value :=
  let response := annotate_cache response (bf_cache_key b) cache_status publication []
    ["source_semantic_check"; "ssa_verification"; "verified_vm_artifact"] in
  let response := annotate_frontend_work response (bf_resolved_module_count b) (bf_program_function_count b) "verified" in
  annotate_language_fact_work response work.
End Respond.
