(* ===== verification/AppBuild.v ===== *)
(** The build of an application: [tools/stage0-probe/src/application.rs],
    [compile_application] from the admitted request to its response.
    Definitions only.

    The language frontend and the compiler are members of [BuildCrate]; the
    state of a build is the disk, the frontend's process-wide summary cache and
    the counter of temporary names. *)

From Stdlib Require Import String.
From S2P Require Export AppRespond AppCache AppReuse AppInterface.

Local Open Scope string_scope.
Local Open Scope list_scope.

(** ** The language frontend *)

Record FactRequest `{FactCrate} : Type := mkFactRequest {
  fr_prior_facts : list VerificationFact;
  fr_prior_declaration_facts : list DeclarationVerificationFact;
  fr_prior_record_type_declaration_facts : list DeclarationVerificationFact
}.
Arguments mkFactRequest {_} &.

(** [SourceFrontEndResult].  [fe_test_inventory], [fe_diagnostics] and
    [fe_resolutions_value] are what [serde_json::to_value] makes of them, if it
    can; the observations of caches are already values. *)
Record SourceFrontEndResult `{FactCrate, ProgramFacts} : Type := mkFrontEnd {
  fe_is_valid : bool;
  fe_program : option Program;
  fe_identities : option SemanticIdentities;
  fe_module_resolutions : list ModuleResolution; fe_resolutions_value : option Value;
  fe_artifacts : list ArtifactRef;
  fe_test_inventory : option Value;
  fe_diagnostics : option Value;
  fe_facts : list VerificationFact; fe_fact_reuse : option ReuseObservation;
  fe_declaration_facts : list DeclarationVerificationFact; fe_declaration_reuse : option ReuseObservation;
  fe_finite_type_facts : list DeclarationVerificationFact; fe_finite_type_reuse : option ReuseObservation;
  fe_record_type_facts : list DeclarationVerificationFact; fe_record_type_reuse : option ReuseObservation;
  fe_source_parse_cache_reuse : option Value; fe_dependency_summary_cache_reuse : option Value;
  fe_module_elaboration_cache_reuse : option Value
}.

(** The entry points of the frontend, by the caches they are lent, and the
    compilation of a lowering program with an artifact cache. *)
Class BuildCrate `{FactCrate, ProgramFacts} := {
  SourceEnvelope : Type;
  inline_program : string -> string -> SourceEnvelope;
  DependencySummaryCache : Type;
  front_end_with_verified_facts :
    SourceEnvelope -> list (string * SourceEnvelope) -> list HostGenericSeedRequest -> FactRequest ->
    SourceFrontEndResult;
  front_end_with_verified_facts_and_source_parse_cache :
    SourceEnvelope -> list (string * SourceEnvelope) -> list HostGenericSeedRequest -> FactRequest ->
    SourceParseCache -> SourceFrontEndResult * SourceParseCache;
  front_end_with_verified_facts_and_dependency_summary_cache :
    SourceEnvelope -> list (string * SourceEnvelope) -> list HostGenericSeedRequest -> FactRequest ->
    DependencySummaryCache -> SourceFrontEndResult * DependencySummaryCache;
  front_end_with_verified_facts_and_caches :
    SourceEnvelope -> list (string * SourceEnvelope) -> list HostGenericSeedRequest -> FactRequest ->
    SourceParseCache -> DependencySummaryCache ->
    SourceFrontEndResult * SourceParseCache * DependencySummaryCache;
  front_end_with_verified_facts_and_caches_and_module_elaboration_cache :
    SourceEnvelope -> list (string * SourceEnvelope) -> list HostGenericSeedRequest -> FactRequest ->
    SourceParseCache -> DependencySummaryCache -> ModuleElaborationCache ->
    SourceFrontEndResult * SourceParseCache * DependencySummaryCache * ModuleElaborationCache;
  compile_with_ssa_facts_and_artifact_cache :
    Program -> list SsaFunctionVerificationFact -> SsaFunctionArtifactCache ->
    CompilationResult * option Emission.SsaFunctionFactWork * SsaFunctionArtifactCache;
  (** the observations an SSA work record carries in its payload *)
  work_reuse : string -> ReuseObservation * ReuseObservation * option Value
}.

(** ** The state and the environment of a build *)

Record BuildState `{BuildCrate} : Type := mkBuildState {
  ws_disk : Disk; ws_summaries : DependencySummaryCache; ws_nonce : Z
}.
Arguments mkBuildState {_ _ _} &.

(** What the process is given: its variables, its own executable, the stage-0
    toolchain, and how its system calls behave; the clock by nonce. *)
Record BuildEnv : Type := mkBuildEnv {
  en_variables : string -> option string;
  en_toolchain : option ToolchainIdentity;
  en_executable : option string; en_executable_sha256 : option string;
  en_fails : FsCall -> string -> bool; en_partial : string -> string;
  en_pid : Z; en_clock : Z -> Z
}.

(** A step of the build: it may return the response early. *)
Definition Build `{BuildCrate} (A : Type) : Type := BuildState -> Outcome Value A * BuildState.

Section Build.
Context `{ModelCrate, SeedCrate, JsonCrate, FactCrate, !EntryCrate, WorkCrate}.
Context `{ProgramCrate, ProgramFacts, InterfaceCrate, SerdeNumber, !NodeHasher, !Toolchain, !ArtifactCrate, !BuildCrate}.

#[export] Instance build_ret : MRet Build := fun A a st => (Ok a, st).
#[export] Instance build_bind : MBind Build := fun A B f m st =>
  match m st with
  | (Ok a, st) => f a st
  | (Err response, st) => (Err response, st)
  | (Panic message, st) => (Panic message, st)
  end.
Definition settle {A} (o : Outcome Value A) : Build A := fun st => (o, st).

(** A step that reads the files as they are. *)
Definition look {A} (f : Store -> Outcome Value A) : Build A := fun st => (f (disk_store (ws_disk st)), st).

(** [Ok(())] or the error of an operation on the disk, which takes a nonce. *)
Definition run_fs {A} (m : Z -> Fs A) : Build bool := fun st =>
  match m (ws_nonce st) (ws_disk st) with
  | (Panic message, disk) => (Panic message, mkBuildState disk (ws_summaries st) (ws_nonce st + 1)%Z)
  | (o, disk) => (Ok (is_ok o), mkBuildState disk (ws_summaries st) (ws_nonce st + 1)%Z)
  end.

(** ** Identities of the build *)

Record BuildKeys : Type := mkKeys {
  bk_source_identity : string; bk_source_files : list Value;
  bk_probe_identity : string; bk_probe_details : Value;
  bk_cache_key : string; bk_index_key : string; bk_fact_key : string;
  bk_cache_path : option string; bk_index_path : option string; bk_fact_path : option string
}.

Definition build_keys (env : BuildEnv) (request : Value) (br : BuildRequest) : BuildKeys :=
  let contract := rc_contract (br_contract br) in
  let selection := selection_value <$> br_selection br in
  let source_identity := source_snapshot_identity (br_root_id br) (br_root_source br) (br_modules br) in
  let '(probe_identity, probe_details) := producer_identity (en_executable env) (en_executable_sha256 env) in
  let cache_key := application_cache_key request contract (br_root_id br) source_identity (br_modules br)
    (br_seeds br) (br_roots br) selection (en_toolchain env) probe_identity in
  let index_key := application_cache_index_key request contract (br_root_id br) (br_seeds br) (br_roots br)
    selection (en_toolchain env) probe_identity in
  let fact_key := language_fact_cache_index_key request contract (br_roots br) selection (en_toolchain env)
    probe_identity in
  mkKeys source_identity (source_files (br_root_id br) (br_root_source br) (br_modules br))
    probe_identity probe_details cache_key index_key fact_key
    (application_cache_path (en_variables env) cache_key)
    (application_cache_index_path (en_variables env) index_key)
    (if rc_reuse_declaration_facts (br_contract br)
     then language_fact_cache_index_path (en_variables env) fact_key else None).

(** ** Reuse before the frontend *)

Section Lookup.
Context (env : BuildEnv) (br : BuildRequest) (keys : BuildKeys) (store : Store).
Let contract : string := rc_contract (br_contract br).

Definition exact_hit : option Value :=
  path ← bk_cache_path keys;
  response ← read_application_cache (en_fails env) store path (bk_cache_key keys) contract (Some (bk_source_identity keys))
    (bk_probe_identity keys) (en_toolchain env);
  Some (annotate_cache response (bk_cache_key keys) "hit" "previously_published"
    ["verified_application_artifact"] []).

(** A published build that an index names. *)
Definition indexed_candidate (index_path : option string) (index_key : string) : option (string * CachedApplication) :=
  index_path ← index_path;
  _ ← bk_cache_path keys;
  candidate_key ← read_application_cache_index (en_fails env) store index_path index_key;
  candidate_path ← application_cache_path (en_variables env) candidate_key;
  cached ← read_application_cache_with_facts (en_fails env) store candidate_path candidate_key contract None
    (bk_probe_identity keys) (en_toolchain env);
  Some (candidate_key, cached).

Definition dependency_closure_hit (candidate_key : string) (cached : CachedApplication) : option Value :=
  if cached_application_matches_dependency_closure (ca_response cached) (br_root_id br) (br_root_source br) (br_modules br)
  then
    response ← rebind_cached_source_snapshot (ca_response cached) (bk_source_identity keys) (bk_source_files keys);
    Some (annotate_cache_with_basis response (bk_cache_key keys) "hit" "previously_published"
      "verified_dependency_closure" (Some candidate_key) ["verified_application_artifact"]
      ["request_source_snapshot_identity"])
  else None.

(** The candidate, its key, and whether its artifact may be reused. *)
Record Candidate : Type := mkCandidate { cd_key : string; cd_cached : CachedApplication; cd_artifact_eligible : bool }.

Definition find_candidate : Outcome Value (option Candidate) :=
  match indexed_candidate (bk_index_path keys) (bk_index_key keys) with
  | Some (candidate_key, cached) =>
      match dependency_closure_hit candidate_key cached with
      | Some response => Err response
      | None => Ok (Some (mkCandidate candidate_key cached true))
      end
  | None =>
      Ok ((fun '(candidate_key, cached) => mkCandidate candidate_key cached false)
          <$> indexed_candidate (bk_fact_path keys) (bk_fact_key keys))
  end.

(** The exact entry first, then the candidate of an index. *)
Definition reuse_before_frontend : Outcome Value (option Candidate) :=
  match exact_hit with Some response => Err response | None => find_candidate end.
End Lookup.

(** ** The frontend *)

Definition envelope (source : string) : SourceEnvelope := inline_program "application" source.

Definition fact_request (rc : RequestContract) (candidate : option Candidate) : FactRequest :=
  let prior {A} (facts : CachedApplication -> list A) : list A :=
    match candidate with Some c => facts (cd_cached c) | None => [] end in
  mkFactRequest (prior ca_verification_facts)
    (if rc_reuse_declaration_facts rc || rc_reuse_finite_type_declaration_facts rc
     then prior ca_declaration_verification_facts else [])
    (if rc_reuse_record_type_declaration_facts rc
     then prior ca_record_type_declaration_verification_facts else []).

(** What the frontend leaves: its result and the caches it was lent. *)
Record FrontEndRun : Type := mkRun {
  rn_result : SourceFrontEndResult;
  rn_source_parse_cache : SourceParseCache; rn_module_elaboration_cache : ModuleElaborationCache
}.

Definition run_front_end (br : BuildRequest) (candidate : option Candidate) : Build FrontEndRun := fun st =>
  let rc := br_contract br in
  let root := envelope (br_root_source br) in
  let resolver := map (fun row => (row.1, envelope row.2)) (br_modules br) in
  let facts := fact_request rc candidate in
  let parse := default source_parse_cache_default (ca_source_parse_cache ∘ cd_cached <$> candidate) in
  let elaborations := default module_elaboration_cache_default (ca_module_elaboration_cache ∘ cd_cached <$> candidate) in
  let done result parse elaborations summaries :=
    (Ok (mkRun result parse elaborations), mkBuildState (ws_disk st) summaries (ws_nonce st)) in
  if rc_reuse_module_elaboration_cache rc then
    let '(result, parse, summaries, elaborations) :=
      front_end_with_verified_facts_and_caches_and_module_elaboration_cache root resolver (br_seeds br) facts parse
        (ws_summaries st) elaborations in
    done result parse elaborations summaries
  else if rc_reuse_dependency_summary_cache rc then
    if rc_reuse_source_parse_cache rc then
      let '(result, parse, summaries) :=
        front_end_with_verified_facts_and_caches root resolver (br_seeds br) facts parse (ws_summaries st) in
      done result parse elaborations summaries
    else
      let '(result, summaries) :=
        front_end_with_verified_facts_and_dependency_summary_cache root resolver (br_seeds br) facts (ws_summaries st) in
      done result parse elaborations summaries
  else if rc_reuse_source_parse_cache rc then
    let '(result, parse) :=
      front_end_with_verified_facts_and_source_parse_cache root resolver (br_seeds br) facts parse in
    done result parse elaborations (ws_summaries st)
  else done (front_end_with_verified_facts root resolver (br_seeds br) facts) parse elaborations (ws_summaries st).

Definition language_work (fe : SourceFrontEndResult) (ssa : option SsaFunctionFactWork) : LanguageWork :=
  mkLanguageWork (List.length (fe_facts fe)) (fe_fact_reuse fe)
    (List.length (fe_declaration_facts fe)) (fe_declaration_reuse fe)
    (List.length (fe_finite_type_facts fe)) (fe_finite_type_reuse fe)
    (List.length (fe_record_type_facts fe)) (fe_record_type_reuse fe)
    (fe_source_parse_cache_reuse fe) (fe_dependency_summary_cache_reuse fe) (fe_module_elaboration_cache_reuse fe) ssa.

Definition resolutions_of (fe : SourceFrontEndResult) : Value := default (Array []) (fe_resolutions_value fe).

Definition build_facts (env : BuildEnv) (br : BuildRequest) (keys : BuildKeys) (fe : SourceFrontEndResult) : BuildFacts :=
  mkFacts (br_contract br) (en_toolchain env) (bk_probe_identity keys) (bk_probe_details keys)
    (bk_source_identity keys) (bk_source_files keys) (bk_cache_key keys)
    (default (Array []) (fe_diagnostics fe))
    (List.length (fe_module_resolutions fe) + 1)
    ((fun program => List.length (p_functions program)) <$> fe_program fe)
    (if rc_include_source_test_inventory (br_contract br) then Some (nullable (fe_test_inventory fe)) else None)
    (language_work fe None).

(** ** The verified program *)

(** A function that gives up with [None]; it does not panic. *)
Definition ok_of {E A} (o : Outcome E A) : option A := match o with Ok a => Some a | _ => None end.

Definition selection_step (b : BuildFacts) (br : BuildRequest) (request : Value) (program : Program)
  : Outcome Value (option SelectedTests) :=
  match br_selection br with
  | None => Ok None
  | Some selection =>
      match select_test_cases (p_module program) (bf_inventory b) selection (selection_value selection)
              (generic_seed_functions request) (br_roots br) with
      | Ok selected => Ok (Some selected)
      | Err fault => Err (source_test_selection_error_response (contract_of b) fault (bf_source_identity b)
          (bf_source_files b) (bf_inventory b) (selection_value selection) (bf_cache_key b)
          (bf_resolved_module_count b) (bf_program_function_count b))
      | Panic message => Panic message
      end
  end.

Definition verified_build (br : BuildRequest) (request : Value) (program : Program) (fe : SourceFrontEndResult)
  (selected : option SelectedTests) : VerifiedBuild :=
  let roots := match selected with Some s => st_roots s | None => br_roots br end in
  let entry := match selected with Some s => st_entry s | None => default ("", "") (head (br_roots br)) end in
  let interfaces := map (fun root => ok_of (callable_interface program root.1 root.2)) roots in
  let semantic_identity :=
    artifact ← List.find (fun artifact => String.eqb (rf_representation artifact) "Semantic") (fe_artifacts fe);
    ok_of (application_semantic_identity program (rf_fingerprint artifact) (fe_module_resolutions fe) (br_seeds br)) in
  let closure_identity :=
    identities ← fe_identities fe;
    ok_of (application_executable_closure_identity program identities roots (br_seeds br)) in
  let graph := object [
    ("root_module", Str (p_module program));
    ("dependencies", strings (p_dependencies program));
    ("resolutions", resolutions_of fe)] in
  mkVerified (br_seeds br) (generic_seed_functions request) roots entry interfaces semantic_identity closure_identity
    (sha256 (default "" (to_vec graph))) graph (st_output <$> selected).

(** ** Reuse of a candidate's artifact *)

Definition selected_interfaces_match (rc : RequestContract) (candidate : Value) (v : VerifiedBuild) (interface : Value) : bool :=
  if rc_multiple_callables rc then cached_callable_interfaces_match candidate (vb_roots v) (vb_interfaces v)
  else
    let current := get_str "identity" interface in
    bool_decide (is_Some current) && bool_decide (current = pointer_str ["entry"; "interface"; "identity"] candidate).

Definition candidate_admitted (rc : RequestContract) (c : Candidate) (program : Program) (v : VerifiedBuild)
  (closure_identity : string) (interface : Value) : bool :=
  let candidate := ca_response (cd_cached c) in
  cd_artifact_eligible c
  && bool_decide (get_str "status" candidate = Some "verified")
  && bool_decide (pointer_str ["dependency_graph"; "application_executable_closure_identity"] candidate
                  = Some closure_identity)
  && bool_decide (get_str "status" interface = Some "verified")
  && selected_interfaces_match rc candidate v interface
  && bool_decide (pointer_str ["artifact"; "value"; "source"; "interface_identity"] candidate
                  = Some (language_owned_interface_identity program)).

Definition rebound_candidate (b : BuildFacts) (candidate : option Candidate) (program : Program) (v : VerifiedBuild)
  : option (Candidate * Value) :=
  c ← candidate;
  semantic_identity ← vb_semantic_identity v;
  closure_identity ← vb_closure_identity v;
  interface ← vb_entry_interface v;
  if candidate_admitted (bf_contract b) c program v closure_identity interface then
    response ← rebind_cached_application_response (ca_response (cd_cached c)) (bf_source_identity b) (bf_source_files b)
      (mkGraph (vb_graph_identity v) (vb_graph v) semantic_identity closure_identity) interface (bf_diagnostics b)
      (rc_multiple_callables (bf_contract b)) (vb_roots v) (vb_interfaces v) (bf_inventory b) (vb_selection v);
    Some (c, response)
  else None.

Definition reused_response (b : BuildFacts) (c : Candidate) (response : Value) (publication : string) : Value :=
  let response := annotate_cache_with_basis response (bf_cache_key b) "hit" publication
    "verified_application_executable_closure" (Some (cd_key c)) ["verified_vm_artifact"]
    ["source_semantic_check"; "application_executable_closure_verification"] in
  let response := annotate_frontend_work response (bf_resolved_module_count b) (bf_program_function_count b) "verified" in
  annotate_language_fact_work response (bf_work b).

(** ** Publication *)

Section Publication.
Context (env : BuildEnv) (br : BuildRequest) (keys : BuildKeys).
Let rc : RequestContract := br_contract br.

Definition publish_index (path : option string) (key : string) : Build unit :=
  match path with
  | Some path =>
      _ ← run_fs (fun nonce => publish_application_cache_index (en_fails env) (en_partial env) (en_pid env)
            (en_clock env nonce) nonce path key (bk_cache_key keys));
      mret tt
  | None => mret tt
  end.

(** From the n-th contract on. *)
Definition since {A} (n : nat) (a : option A) : option A :=
  if one_of (rc_contract rc) (contracts_from n) then a else None.

(** The entry of this build. *)
Definition publish_entry (path : string) (run : FrontEndRun) (response : Value)
  (ssa_facts : list SsaFunctionVerificationFact) (ssa_artifacts : SsaFunctionArtifactCache) (nonce : Z) : Fs unit :=
  let fe := rn_result run in
  publish_application_cache_with_ssa_facts (en_fails env) (en_partial env) (en_pid env) (en_clock env nonce) nonce
    path (bk_cache_key keys) response (fe_facts fe) (fe_declaration_facts fe)
    (if rc_reuse_finite_type_declaration_facts rc then Some (fe_finite_type_facts fe) else None)
    (if rc_reuse_record_type_declaration_facts rc then Some (fe_record_type_facts fe) else None)
    (rn_source_parse_cache run) (since 9 (Some ssa_facts)) (since 10 (Some ssa_artifacts))
    (if rc_reuse_module_elaboration_cache rc then Some (rn_module_elaboration_cache run) else None).

Definition publish_build (path : string) (run : FrontEndRun) (response : Value)
  (ssa_facts : list SsaFunctionVerificationFact) (ssa_artifacts : SsaFunctionArtifactCache) : Build string :=
  stored ← run_fs (publish_entry path run response ssa_facts ssa_artifacts);
  if (stored : bool) then
    _ ← publish_index (bk_index_path keys) (bk_index_key keys);
    _ ← publish_index (bk_fact_path keys) (bk_fact_key keys);
    mret "stored"
  else mret "write_failed".
End Publication.

(** ** Emission *)

Definition prior_artifacts (candidate : option Candidate) : SsaFunctionArtifactCache :=
  default ssa_function_artifact_cache_default (ca_ssa_function_artifact_cache ∘ cd_cached <$> candidate).
Definition prior_ssa_facts (br : BuildRequest) (candidate : option Candidate) : list SsaFunctionVerificationFact :=
  default [] (since br 9 (ca_ssa_function_verification_facts ∘ cd_cached <$> candidate)).

Abbreviation EmittedApplication := (VmArtifact * list string * list CapabilityDispatchBinding * Emission.SsaFunctionFactWork)%type.

Definition emit_build (br : BuildRequest) (keys : BuildKeys) (candidate : option Candidate) (program : Program)
  (v : VerifiedBuild) : Outcome string EmittedApplication * SsaFunctionArtifactCache :=
  let producer := Some ("stage0-probe:" +:+ bk_probe_identity keys) in
  let callable_root_set := bs_of_list (vb_roots v) in
  let facts := prior_ssa_facts br candidate in
  let artifacts := prior_artifacts candidate in
  if one_of (rc_contract (br_contract br)) (contracts_from 10) then
    match application_lowering_program_for_callables program callable_root_set (vb_seed_functions v) with
    | Ok lowering_program =>
        let '(result, work, artifacts) := compile_with_ssa_facts_and_artifact_cache lowering_program facts artifacts in
        match work with
        | Some work => (emit_vm_application_artifact_for_callables_with_precompiled_ssa program producer
                          callable_root_set (vb_seed_functions v) result work, artifacts)
        | None => (Err "Language SSA verification produced no complete fact result", artifacts)
        end
    | Err error => (Err error, artifacts)
    | Panic message => (Panic message, artifacts)
    end
  else (emit_vm_application_artifact_for_callables_with_producer_and_ssa_facts program producer callable_root_set
          (vb_seed_functions v) facts, artifacts).

Definition reported_work (work : Emission.SsaFunctionFactWork) : SsaFunctionFactWork :=
  let '(reuse, artifact_reuse, artifact_reuse_value) := work_reuse (fw_rest work) in
  mkSsaWork (List.length (fw_facts work)) reuse artifact_reuse artifact_reuse_value.

(** ** The build *)

Definition finish_build (env : BuildEnv) (br : BuildRequest) (keys : BuildKeys) (request : Value) (run : FrontEndRun)
  (b : BuildFacts) (v : VerifiedBuild) (emission : EmittedApplication) (artifacts : SsaFunctionArtifactCache) : Build Value :=
  let '(artifact, unselected_unresolved, capability_bindings, work) := emission in
  let artifact := artifact_value artifact in
  let response := artifact_response request b v artifact capability_bindings unselected_unresolved in
  '(cache_status, publication) ←
    match bk_cache_path keys with
    | Some path =>
        if String.eqb (as_status (assess b v artifact)) "verified" then
          publication ← publish_build env br keys path run response (fw_facts work) artifacts;
          mret ("miss", publication)
        else mret ("bypass", "not_published")
    | None => mret ("disabled", "not_configured")
    end;
  mret (finished_response b (language_work (rn_result run) (Some (reported_work work))) response cache_status publication).

Definition reuse_artifact (env : BuildEnv) (br : BuildRequest) (keys : BuildKeys) (run : FrontEndRun) (b : BuildFacts)
  (c : Candidate) (response : Value) : Build Value :=
  publication ←
    match bk_cache_path keys with
    | Some path => publish_build env br keys path run response
        (ca_ssa_function_verification_facts (cd_cached c)) (prior_artifacts (Some c))
    | None => mret "not_configured"
    end;
  mret (reused_response b c response publication).

(** From the program the frontend verified to the response. *)
Definition build_program (env : BuildEnv) (br : BuildRequest) (keys : BuildKeys) (request : Value)
  (candidate : option Candidate) (run : FrontEndRun) : Build Value :=
  let fe := rn_result run in
  let b := build_facts env br keys fe in
  program ← settle (expect "valid frontend results contain a semantic program" (fe_program fe));
  selected ← settle (selection_step b br request program);
  let v := verified_build br request program fe selected in
  match rebound_candidate b candidate program v with
  | Some (c, response) => reuse_artifact env br keys run b c response
  | None =>
      match emit_build br keys candidate program v with
      | (Ok emission, artifacts) => finish_build env br keys request run b v emission artifacts
      | (Err obligation, _) => settle (Err (emission_failed_response b v obligation))
      | (Panic message, _) => settle (Panic message)
      end
  end.

Definition build_application (env : BuildEnv) (request : Value) (br : BuildRequest) : Build Value :=
  let keys := build_keys env request br in
  candidate ← look (reuse_before_frontend env br keys);
  run ← run_front_end br candidate;
  let fe := rn_result run in
  if negb (fe_is_valid fe) then
    settle (Err (rejected_response (build_facts env br keys fe) (resolutions_of fe) (br_roots br)
      (selection_value <$> br_selection br)))
  else build_program env br keys request candidate run.

(** Every early return is a response. *)
Definition compile_application (env : BuildEnv) (request : Value) (st : BuildState) : Outcome string Value * BuildState :=
  let '(o, st) := (br ← settle (admit_request request); build_application env request br) st in
  (match o with Ok response | Err response => Ok response | Panic message => Panic message end, st).
End Build.
