(* ===== verification/AppRespondTheorems.v ===== *)
(** Responses around an artifact: their fields, and which builds are verified. *)

From Stdlib Require Import String.
From S2P Require Export EmissionTheorems AppAnnotateTheorems AppRespond Json.

Local Open Scope string_scope.
Local Open Scope list_scope.

(** ** Fields of objects *)

Lemma object_set_fields l : object l = set_fields l (Object []).
Proof.
  unfold object, set_fields, bm_of_list. generalize (@nil (string * Value)). induction l as [|[k v] l IH]; intros m; [done|].
  cbn [fold_left fst snd]. by rewrite IH.
Qed.
Lemma get_object_row key l : get key (object l) = last_row key l.
Proof. rewrite object_set_fields, get_set_fields. by destruct (last_row key l). Qed.
Lemma object_is_object l : is_object (object l).
Proof. by eexists. Qed.

Lemma set_if_object key x v : is_object v -> is_object (set_if key x v).
Proof. intros [fields ->]. destruct x; eexists; reflexivity. Qed.
Lemma set_when_object b key x v : is_object v -> is_object (set_when b key x v).
Proof. intros [fields ->]. destruct b; eexists; reflexivity. Qed.
Lemma get_set_if key key' x v :
  is_object v -> key' <> key -> get key' (set_if key x v) = get key' v.
Proof.
  intros [fields ->] Hk. destruct x; [|done]. cbn [set_if]. by rewrite get_set_field, (proj2 (String.eqb_neq _ _) Hk).
Qed.
Lemma get_set_when b key key' x v :
  is_object v -> key' <> key -> get key' (set_when b key x v) = get key' v.
Proof.
  intros [fields ->] Hk. destruct b; [|done]. cbn [set_when]. by rewrite get_set_field, (proj2 (String.eqb_neq _ _) Hk).
Qed.

(** The optional fields a response gets last. *)
#[export] Hint Resolve object_is_object set_if_object set_when_object : object.
Ltac get_field := repeat first
  [ rewrite get_set_when by (first [discriminate | auto with object])
  | rewrite get_set_if by (first [discriminate | auto with object]) ].

(** ** The artifact as JSON *)

Section Artifact.
Context `{ArtifactCrate}.

Lemma last_row_field_if {A} keep key k f (a : A) :
  last_row k (field_if keep key f a) = if keep && String.eqb k key then Some (f a) else None.
Proof. destruct keep; cbn; [|done]. by destruct (String.eqb k key). Qed.
Lemma last_row_field_some {A} key k f (a : option A) :
  last_row k (field_some key f a) = if String.eqb k key then f <$> a else None.
Proof. destruct a; cbn; by destruct (String.eqb k key). Qed.

Ltac read_artifact := unfold artifact_value, callable_value, source_value, binding_value; rewrite get_object_row, !last_row_app,
  ?last_row_field_if, ?last_row_field_some; cbn -[negb]; rewrite ?andb_false_r, ?andb_true_r.

Lemma artifact_callables a : get "callables" (artifact_value a) = Some (Array (map callable_value (va_callables a))).
Proof. by read_artifact. Qed.
Lemma artifact_unsupported a : get "unsupported" (artifact_value a) = Some (strings (va_unsupported a)).
Proof. by read_artifact. Qed.
Lemma artifact_schema a : get "schema_version" (artifact_value a) = Some (Str (va_schema_version a)).
Proof. by read_artifact. Qed.
Lemma artifact_identity a :
  va_artifact_id a <> "" -> get "artifact_id" (artifact_value a) = Some (Str (va_artifact_id a)).
Proof. intros Hid. read_artifact. by rewrite (proj2 (String.eqb_neq _ _) Hid). Qed.
Lemma artifact_source a : get "source" (artifact_value a) = Some (source_value (va_source a)).
Proof. by read_artifact. Qed.
Lemma artifact_interface a :
  pointer_str ["source"; "interface_identity"] (artifact_value a) = as_interface_identity (va_source a).
Proof.
  unfold pointer_str. cbn [pointer]. rewrite artifact_source. cbn [mbind option_bind].
  assert (get "interface_identity" (source_value (va_source a)) = Str <$> as_interface_identity (va_source a)) as ->
    by (read_artifact; by destruct (as_interface_identity (va_source a))).
  by destruct (as_interface_identity (va_source a)).
Qed.
Lemma artifact_entrypoints a :
  rows_of "generic_entrypoints" (artifact_value a) = map entrypoint_value (va_generic_entrypoints a).
Proof.
  unfold rows_of, get_array.
  assert (get "generic_entrypoints" (artifact_value a) =
    if bool_decide (va_generic_entrypoints a = []) then None
    else Some (Array (map entrypoint_value (va_generic_entrypoints a)))) as ->
    by (read_artifact; by destruct (bool_decide (va_generic_entrypoints a = []))).
  case_bool_decide as Hn; [by rewrite Hn|done].
Qed.
Lemma rows_of_callables a : rows_of "callables" (artifact_value a) = map callable_value (va_callables a).
Proof. unfold rows_of, get_array. by rewrite artifact_callables. Qed.
Lemma rows_of_unsupported a : rows_of "unsupported" (artifact_value a) = map Str (va_unsupported a).
Proof. unfold rows_of, get_array. by rewrite artifact_unsupported. Qed.

Lemma callable_row_names e :
  get_str "module" (callable_value e) = Some (ce_module e) /\ get_str "name" (callable_value e) = Some (ce_name e).
Proof. unfold get_str. split; by read_artifact. Qed.
End Artifact.

(** ** Availability and status *)

Section Status.
Context `{JsonCrate, WorkCrate, SeedCrate, ArtifactCrate}.

(** The artifact has an entry for a root: the function itself, or a
    specialization of it that the request asks for. *)
Definition provides (a : VmArtifact) (seeds : list HostGenericSeedRequest) (root : string * string) : Prop :=
  (exists entry, entry ∈ va_callables a /\ (ce_module entry, ce_name entry) = root) \/
  (exists seed entry, seed ∈ seeds /\ entry ∈ va_generic_entrypoints a /\
     (seed_module seed, seed_function seed) = root /\
     (ge_generic_module entry, ge_generic_function entry) = root /\
     ge_args_spellings entry = seed_type_spellings seed).

Lemma existsb_elem {A} (f : A -> bool) l : existsb f l = true <-> exists x, x ∈ l /\ f x = true.
Proof. rewrite existsb_exists. by setoid_rewrite list_elem_of_In. Qed.

Lemma direct_callable_spec a root :
  direct_callable (map callable_value (va_callables a)) root = true <->
  exists entry, entry ∈ va_callables a /\ (ce_module entry, ce_name entry) = root.
Proof.
  unfold direct_callable. rewrite existsb_elem. split.
  - intros (row & (entry & -> & Hin)%list_elem_of_fmap & Hb). exists entry. split; [done|].
    destruct (callable_row_names entry) as [Hm Hn]. rewrite Hm, Hn, andb_true_iff, !bool_decide_eq_true in Hb.
    destruct root. by destruct Hb as [[= ->] [= ->]].
  - intros (entry & Hin & <-). exists (callable_value entry). split; [by apply list_elem_of_fmap_2|].
    destruct (callable_row_names entry) as [Hm Hn]. by rewrite Hm, Hn, andb_true_iff, !bool_decide_eq_true.
Qed.

Lemma entrypoint_of_spec seed root entry :
  entrypoint_of seed root (entrypoint_value entry) = true <->
  (ge_generic_module entry, ge_generic_function entry) = root /\ ge_args_spellings entry = seed_type_spellings seed.
Proof.
  unfold entrypoint_of. rewrite !andb_true_iff, !bool_decide_eq_true.
  change (get_str "generic_module" (entrypoint_value entry)) with (Some (ge_generic_module entry)).
  change (get_str "generic_function" (entrypoint_value entry)) with (Some (ge_generic_function entry)).
  change (get "args_spellings" (entrypoint_value entry)) with (Some (strings (ge_args_spellings entry))).
  destruct root as [module function]. cbn. split.
  - intros [[[= ->] [= ->]] Hs]. split; [done|]. unfold strings in Hs. injection Hs as Hs. by apply map_Str_inj.
  - intros [[= -> ->] ->]. done.
Qed.

Lemma callable_available_spec a seeds root :
  callable_available seeds (artifact_value a) root = true <-> provides a seeds root.
Proof.
  unfold callable_available, provides. rewrite rows_of_callables, artifact_entrypoints, orb_true_iff, direct_callable_spec.
  apply or_iff_compat_l. unfold seeded_generic_callable. rewrite existsb_elem. split.
  - intros (seed & Hs & [[Hm%String.eqb_eq Hf%String.eqb_eq]%andb_true_iff Hb]%andb_true_iff).
    apply existsb_elem in Hb as (row & (entry & -> & He)%list_elem_of_fmap & [Hr Hsp]%entrypoint_of_spec).
    exists seed, entry. split_and!; try done. destruct root. cbn in *. by subst.
  - intros (seed & entry & Hs & He & <- & Hr & Hsp). exists seed. split; [done|]. cbn [fst snd].
    rewrite !String.eqb_refl. cbn [andb]. apply existsb_elem. exists (entrypoint_value entry).
    split; [by apply list_elem_of_fmap_2|]. by apply entrypoint_of_spec.
Qed.

(** Nothing the selection asks for is missing. *)
Definition complete (a : VmArtifact) (v : VerifiedBuild) : Prop :=
  va_unsupported a = [] /\ forall root, root ∈ vb_roots v -> provides a (vb_seeds v) root.
(** The compiler is identified and every selected interface is verified. *)
Definition accountable (b : BuildFacts) (v : VerifiedBuild) : Prop :=
  bf_toolchain b <> None /\ bf_probe_identity b <> "unknown" /\
  Forall (fun interface => interface ≫= get_str "status" = Some "verified") (vb_interfaces v).

Lemma availability_spec a v :
  forallb id (map (callable_available (vb_seeds v) (artifact_value a)) (vb_roots v)) = true <->
  forall root, root ∈ vb_roots v -> provides a (vb_seeds v) root.
Proof.
  rewrite forallb_forall. setoid_rewrite <- list_elem_of_In. split.
  - intros Hall root Hr. apply callable_available_spec. apply (Hall _ (list_elem_of_fmap_2 _ _ _ Hr)).
  - intros Hall x (root & -> & Hr)%list_elem_of_fmap. by apply callable_available_spec, Hall.
Qed.

Lemma missing_none roots availability :
  forallb id availability = true -> omap missing_callable (zip roots availability) = [].
Proof.
  revert availability. induction roots as [|[m f] roots IH]; intros [|[] l] Hl; try done. cbn in *. by apply IH.
Qed.

Lemma producer_unknown_spec b :
  producer_unknown b = false <-> bf_toolchain b <> None /\ bf_probe_identity b <> "unknown".
Proof. unfold producer_unknown. by rewrite orb_false_iff, bool_decide_eq_false, String.eqb_neq. Qed.

Lemma interfaces_verified_spec l :
  forallb interface_verified l = true <-> Forall (fun i => i ≫= get_str "status" = Some "verified") l.
Proof.
  rewrite forallb_forall, Forall_forall. setoid_rewrite <- list_elem_of_In. unfold interface_verified.
  by setoid_rewrite bool_decide_eq_true.
Qed.

Lemma not_complete_spec a v :
  let availability := map (callable_available (vb_seeds v) (artifact_value a)) (vb_roots v) in
  negb (bool_decide (unresolved_obligations (artifact_value a) (vb_roots v) availability = [])) || negb (forallb id availability)
  = false <-> complete a v.
Proof.
  cbv zeta. unfold complete, unresolved_obligations. rewrite rows_of_unsupported, orb_false_iff, !negb_false_iff, bool_decide_eq_true.
  rewrite <- availability_spec. split.
  - intros [Hu Hall]. split; [|done]. apply app_nil in Hu as [Hu _]. by destruct (va_unsupported a).
  - intros [Hu Hall]. split; [|done]. by rewrite Hu, missing_none.
Qed.

Lemma entry_unknown b v availability :
  List.length (vb_interfaces v) = List.length availability -> producer_unknown b = false ->
  forallb interface_verified (vb_interfaces v) = true ->
  callable_status b (default false (head availability)) (vb_entry_interface v) =
  if default false (head availability) then "verified" else "unsupported".
Proof.
  intros Hl Hp Hi. unfold callable_status, vb_entry_interface. rewrite Hp.
  destruct availability as [|available l]; [done|]. destruct (vb_interfaces v) as [|i interfaces]; [done|].
  cbn [head default mjoin option_join forallb] in *. apply andb_true_iff in Hi as [-> _]. by destruct available.
Qed.

(** The statuses of a build, by what is missing. *)
Lemma status_cases b v a :
  List.length (vb_interfaces v) = List.length (vb_roots v) ->
  (as_status (assess b v (artifact_value a)) = "unsupported" /\ ~ complete a v) \/
  (as_status (assess b v (artifact_value a)) = "unknown" /\ complete a v /\ ~ accountable b v) \/
  (as_status (assess b v (artifact_value a)) = "verified" /\ complete a v /\ accountable b v).
Proof.
  intros Hl. cbn [assess as_status]. unfold build_status. pose proof (not_complete_spec a v) as Hc. cbv zeta in Hc.
  set (availability := map _ (vb_roots v)) in *.
  assert (Ha : negb (forallb interface_verified (vb_interfaces v)) = false /\ producer_unknown b = false <-> accountable b v).
  { unfold accountable. rewrite negb_false_iff, interfaces_verified_spec, producer_unknown_spec. tauto. }
  destruct (negb (bool_decide _) || _) eqn:E; [left; split; [done|]; intros Hn; apply Hc in Hn; congruence|right].
  pose proof (proj1 Hc eq_refl) as Hcomplete.
  destruct (producer_unknown b) eqn:Ep; [left; split_and!; [done|done|intros [_ ?]%Ha; congruence]|].
  destruct (forallb interface_verified (vb_interfaces v)) eqn:Ei; cbn [negb orb] in *;
    [|left; split_and!; [done|done|intros [? _]%Ha; congruence]].
  right. rewrite entry_unknown; [|subst availability; by rewrite length_map|done|done].
  destruct (default false (head availability)); (split_and!; [done|done|by apply Ha]).
Qed.

Lemma response_base request b v artifact bindings unselected key :
  key ∉ ["source_test_inventory"; "test_case_selection"; "entries"] ->
  get key (artifact_response request b v artifact bindings unselected) =
  get key (artifact_object request b v artifact bindings unselected).
Proof.
  intros Hk. unfold artifact_response. cbv zeta.
  assert (is_object (artifact_object request b v artifact bindings unselected)) by apply object_is_object.
  rewrite get_set_when, !get_set_if; auto with object; intros ->; apply Hk; set_solver.
Qed.

Ltac response_field :=
  unfold get_str, get_array, pointer_str; cbn [pointer]; rewrite response_base by (apply (bool_decide_unpack _); vm_compute; exact Logic.I); reflexivity.

(** Fields that the reader of a cached response checks. *)
Lemma response_status request b v artifact bindings unselected :
  get_str "status" (artifact_response request b v artifact bindings unselected) = Some (as_status (assess b v artifact)).
Proof. response_field. Qed.
Lemma response_schema request b v artifact bindings unselected :
  get_str "schema_version" (artifact_response request b v artifact bindings unselected) = Some (contract_of b).
Proof. response_field. Qed.
Lemma response_entry_status request b v artifact bindings unselected :
  pointer_str ["entry"; "status"] (artifact_response request b v artifact bindings unselected) =
  Some (as_entry_status (assess b v artifact)).
Proof. response_field. Qed.
Lemma response_snapshot request b v artifact bindings unselected :
  pointer_str ["source_snapshot"; "identity"] (artifact_response request b v artifact bindings unselected) =
  Some (bf_source_identity b).
Proof. response_field. Qed.
Lemma response_producer request b v artifact bindings unselected :
  pointer ["producer"; "stage0_toolchain"] (artifact_response request b v artifact bindings unselected) =
    Some (nullable (bf_toolchain b ≫= toolchain_value)) /\
  pointer_str ["producer"; "probe"; "probe_executable_sha256"] (artifact_response request b v artifact bindings unselected) =
    get_str "probe_executable_sha256" (bf_probe_details b).
Proof.
  split; [response_field|]. unfold pointer_str. cbn [pointer].
  rewrite response_base by (apply (bool_decide_unpack _); vm_compute; exact Logic.I).
  transitivity (pointer ["probe_executable_sha256"] (bf_probe_details b) ≫= as_str); [reflexivity|].
  unfold get_str. cbn [pointer]. by destruct (get _ (bf_probe_details b)).
Qed.
Lemma response_artifact request b v artifact bindings unselected rest :
  pointer ("artifact" :: rest) (artifact_response request b v artifact bindings unselected) =
  pointer rest (artifact_section artifact (as_unresolved (assess b v artifact))).
Proof. cbn [pointer]. rewrite response_base by (apply (bool_decide_unpack _); vm_compute; exact Logic.I). reflexivity. Qed.

(** What a verified build has. *)
Lemma verified_assessment b v a :
  List.length (vb_interfaces v) = List.length (vb_roots v) ->
  as_status (assess b v (artifact_value a)) = "verified" -> vb_roots v <> [] ->
  accountable b v /\ as_entry_status (assess b v (artifact_value a)) = "verified" /\
  as_unresolved (assess b v (artifact_value a)) = [].
Proof.
  intros Hl Hv Hr. pose proof (status_cases b v a Hl) as Hs. rewrite Hv in Hs.
  destruct Hs as [[[=] _]|[[[=] _]|(_ & [Hu Hprov] & Hacc)]]. split; [done|].
  assert (forallb id (map (callable_available (vb_seeds v) (artifact_value a)) (vb_roots v)) = true) as Hall by by apply availability_spec.
  destruct Hacc as (Ht & Hp & Hi). split; cbn [assess as_entry_status as_unresolved].
  - rewrite entry_unknown.
    + destruct (vb_roots v); [done|]. cbn in Hall |- *. by apply andb_true_iff in Hall as [-> _].
    + by rewrite length_map.
    + by apply producer_unknown_spec.
    + by apply interfaces_verified_spec.
  - unfold unresolved_obligations. by rewrite rows_of_unsupported, Hu, missing_none.
Qed.

(** C16: what the status of a build says.  The response around an artifact is
    "unsupported" exactly when the artifact reports something it does not
    support, or lacks an entry for a selected callable -- the function itself,
    or the specialization a seed of the request asks for; otherwise "unknown"
    exactly when the toolchain or the compiler's own executable is not
    identified, or an interface of a selected callable is not verified; and
    otherwise "verified".  A verified build has a verified entry, no unresolved
    obligation, and is compatible with its execution target. *)
Theorem build_status_exact request b v a bindings unselected :
  List.length (vb_interfaces v) = List.length (vb_roots v) ->
  let r := artifact_response request b v (artifact_value a) bindings unselected in
  (get_str "status" r = Some "unsupported" <-> ~ complete a v) /\
  (get_str "status" r = Some "unknown" <-> complete a v /\ ~ accountable b v) /\
  (get_str "status" r = Some "verified" <-> complete a v /\ accountable b v) /\
  (get_str "status" r = Some "verified" -> vb_roots v <> [] ->
     pointer_str ["entry"; "status"] r = Some "verified" /\
     get "unresolved_obligations" r = Some (Array []) /\
     pointer ["execution_target_compatibility"; "compatible"] r = Some (Bool true)).
Proof.
  intros Hl r.
  assert (get_str "status" r = Some (as_status (assess b v (artifact_value a)))) as -> by (subst r; response_field).
  pose proof (status_cases b v a Hl) as Hs.
  split_and!; [destruct Hs as [[-> ?]|[(-> & ? & ?)|(-> & ? & ?)]]; tauto || (split; [congruence|tauto])..|].
  intros Hv%(inj Some) Hr. destruct (verified_assessment b v a Hl Hv Hr) as (_ & He & Hun).
  split_and!; subst r.
  - transitivity (Some (as_entry_status (assess b v (artifact_value a)))); [response_field|by rewrite He].
  - transitivity (Some (Array (as_unresolved (assess b v (artifact_value a))))); [response_field|by rewrite Hun].
  - transitivity (Some (Bool (String.eqb (if rc_multiple_callables (bf_contract b)
      then as_status (assess b v (artifact_value a)) else as_entry_status (assess b v (artifact_value a))) "verified"))); [response_field|].
    rewrite Hv, He. by destruct (rc_multiple_callables _).
Qed.
End Status.
