(* ===== verification/AppBuildTheorems.v ===== *)
(** The build flow: how each stage ends, and what a build publishes. *)

From Stdlib Require Import String.
From S2P Require Export AppCacheTheorems AppReuseTheorems AppSelectTheorems AppRespondTheorems AppBuild Json.

Local Open Scope string_scope.
Local Open Scope list_scope.

Section Flow.
Context `{ModelCrate, SeedCrate, JsonCrate, FactCrate, !EntryCrate, WorkCrate}.
Context `{ProgramCrate, ProgramFacts, InterfaceCrate, SerdeNumber, !NodeHasher, !Toolchain, !ArtifactCrate, !BuildCrate}.

(** ** The steps *)

Lemma build_bind_inv {A B} (m : Build A) (f : A -> Build B) st o st' :
  (m ≫= f) st = (o, st') ->
  (exists a st1, m st = (Ok a, st1) /\ f a st1 = (o, st')) \/
  (exists response, m st = (Err response, st') /\ o = Err response) \/
  (exists message, m st = (Panic message, st') /\ o = Panic message).
Proof.
  unfold mbind, build_bind. destruct (m st) as [[a|e|e] st1].
  - intros Hf. left. by exists a, st1.
  - intros [= <- <-]. right. left. by exists e.
  - intros [= <- <-]. right. right. by exists e.
Qed.

(** The frontend changes neither the disk nor the counter. *)
Definition same_files (st st' : BuildState) : Prop := ws_disk st' = ws_disk st /\ ws_nonce st' = ws_nonce st.

Lemma run_front_end_ok br candidate st :
  exists run st', run_front_end br candidate st = (Ok run, st') /\ same_files st st'.
Proof.
  unfold run_front_end, same_files. cbv zeta.
  repeat match goal with |- context [if ?c then _ else _] => destruct c end;
    repeat match goal with |- context [let '(_, _) := ?p in _] => destruct p end; eauto.
Qed.

(** ** How a build ends *)

(** The frontend ran for an admitted request, after no reuse was possible. *)
Definition reached (env : BuildEnv) (request : Value) (st : BuildState) (br : BuildRequest)
  (candidate : option Candidate) (run : FrontEndRun) (st' : BuildState) : Prop :=
  admit_request request = Ok br /\
  reuse_before_frontend env br (build_keys env request br) (disk_store (ws_disk st)) = Ok candidate /\
  run_front_end br candidate st = (Ok run, st') /\ same_files st st'.

(** The frontend accepted the program, and the selection its tests. *)
Definition verified (env : BuildEnv) (request : Value) (st : BuildState) (br : BuildRequest)
  (candidate : option Candidate) (run : FrontEndRun) (program : Program) (v : VerifiedBuild) (st' : BuildState) : Prop :=
  reached env request st br candidate run st' /\ fe_is_valid (rn_result run) = true /\
  fe_program (rn_result run) = Some program /\
  exists selected, selection_step (build_facts env br (build_keys env request br) (rn_result run)) br request program = Ok selected /\
    v = verified_build br request program (rn_result run) selected.

(** Every way a build can end, with its response. *)
Inductive Ends (env : BuildEnv) (request : Value) (st : BuildState) : Value -> BuildState -> Prop :=
  | ends_refused response :
      admit_request request = Err response -> Ends env request st response st
  | ends_hit br response :
      admit_request request = Ok br ->
      reuse_before_frontend env br (build_keys env request br) (disk_store (ws_disk st)) = Err response ->
      Ends env request st response st
  | ends_rejected br candidate run st' :
      reached env request st br candidate run st' -> fe_is_valid (rn_result run) = false ->
      Ends env request st
        (rejected_response (build_facts env br (build_keys env request br) (rn_result run)) (resolutions_of (rn_result run))
           (br_roots br) (selection_value <$> br_selection br)) st'
  | ends_unselected br candidate run program response st' :
      reached env request st br candidate run st' -> fe_is_valid (rn_result run) = true ->
      fe_program (rn_result run) = Some program ->
      selection_step (build_facts env br (build_keys env request br) (rn_result run)) br request program = Err response ->
      Ends env request st response st'
  | ends_reused br candidate run program v st1 c rebound response st' :
      verified env request st br candidate run program v st1 ->
      rebound_candidate (build_facts env br (build_keys env request br) (rn_result run)) candidate program v = Some (c, rebound) ->
      reuse_artifact env br (build_keys env request br) run (build_facts env br (build_keys env request br) (rn_result run))
        c rebound st1 = (Ok response, st') ->
      Ends env request st response st'
  | ends_no_artifact br candidate run program v obligation artifacts st' :
      verified env request st br candidate run program v st' ->
      rebound_candidate (build_facts env br (build_keys env request br) (rn_result run)) candidate program v = None ->
      emit_build br (build_keys env request br) candidate program v = (Err obligation, artifacts) ->
      Ends env request st
        (emission_failed_response (build_facts env br (build_keys env request br) (rn_result run)) v obligation) st'
  | ends_finished br candidate run program v emission artifacts st1 response st' :
      verified env request st br candidate run program v st1 ->
      rebound_candidate (build_facts env br (build_keys env request br) (rn_result run)) candidate program v = None ->
      emit_build br (build_keys env request br) candidate program v = (Ok emission, artifacts) ->
      finish_build env br (build_keys env request br) request run
        (build_facts env br (build_keys env request br) (rn_result run)) v emission artifacts st1 = (Ok response, st') ->
      Ends env request st response st'.

(** Steps that do not return early. *)
Definition no_return {A} (m : Build A) : Prop := forall st response st', m st <> (Err response, st').

Lemma no_return_ret {A} (a : A) : no_return (mret a).
Proof. done. Qed.
Lemma no_return_bind {A B} (m : Build A) (f : A -> Build B) :
  no_return m -> (forall a, no_return (f a)) -> no_return (m ≫= f).
Proof.
  intros Hm Hf st response st' Hb. apply build_bind_inv in Hb as [(a & st1 & _ & Ha)|[(r & Hr & _)|(e & _ & He)]]; [|by apply Hm in Hr|done].
  by apply Hf in Ha.
Qed.
Lemma no_return_fs {A} (m : Z -> Fs A) : no_return (run_fs m).
Proof. intros st response st'. unfold run_fs. by destruct (m _ _) as [[| |] disk]. Qed.
Hint Resolve no_return_ret no_return_bind no_return_fs : build.

Lemma no_return_publish env br keys path run response facts artifacts :
  no_return (publish_build env br keys path run response facts artifacts).
Proof.
  assert (forall path key, no_return (publish_index env keys path key)) as Hi.
  { intros [p|] key; [|apply no_return_ret]. apply no_return_bind; [apply no_return_fs|intros; apply no_return_ret]. }
  apply no_return_bind; [apply no_return_fs|]. intros []; [|apply no_return_ret].
  repeat (apply no_return_bind; [apply Hi|intros]). apply no_return_ret.
Qed.

Lemma no_return_reuse env br keys run b c response : no_return (reuse_artifact env br keys run b c response).
Proof.
  apply no_return_bind; [|intros; apply no_return_ret].
  destruct (bk_cache_path keys); [apply no_return_publish|apply no_return_ret].
Qed.

Lemma no_return_finish env br keys request run b v emission artifacts :
  no_return (finish_build env br keys request run b v emission artifacts).
Proof.
  destruct emission as [[[artifact missing] bindings] work]. apply no_return_bind.
  - destruct (bk_cache_path keys); [|apply no_return_ret]. destruct (String.eqb _ _); [|apply no_return_ret].
    apply no_return_bind; [apply no_return_publish|intros; apply no_return_ret].
  - intros [status publication]. apply no_return_ret.
Qed.

(** Every response of the builder is one of these. *)
Lemma compile_ends env request st response st' :
  compile_application env request st = (Ok response, st') -> Ends env request st response st'.
Proof.
  unfold compile_application.
  destruct ((br ← settle (admit_request request); build_application env request br) st) as [o st1] eqn:Ho.
  intros Heq. assert (st1 = st' /\ (o = Ok response \/ o = Err response)) as [-> Hor]
    by (destruct o as [x|x|x]; [injection Heq as -> ->; auto..|discriminate Heq]). clear Heq.
  apply build_bind_inv in Ho as [(br & st1 & Ha & Ho)|[(r & Ha & ->)|(e & _ & ->)]]; [| |by destruct Hor].
  2: { injection Ha as Ha <-. destruct Hor as [|[= ->]]; [done|]. by apply ends_refused. }
  injection Ha as Ha <-. unfold build_application in Ho. cbv zeta in Ho.
  apply build_bind_inv in Ho as [(candidate & st1 & Hc & Ho)|[(r & Hc & ->)|(e & _ & ->)]]; [| |by destruct Hor].
  2: { injection Hc as Hc <-. destruct Hor as [|[= ->]]; [done|]. by apply (ends_hit _ _ _ br). }
  injection Hc as Hc <-. destruct (run_front_end_ok br candidate st) as (run & st1 & Hrun & Hfiles).
  apply build_bind_inv in Ho as [(run' & st2 & Hrun' & Ho)|[(r & Hr & ->)|(e & Hr & ->)]]; [|congruence|by destruct Hor].
  rewrite Hrun in Hrun'. injection Hrun' as <- <-.
  assert (reached env request st br candidate run st1) as Hreached by done.
  destruct (fe_is_valid (rn_result run)) eqn:Hvalid; cbn [negb] in Ho; cycle 1.
  { injection Ho as <- <-. destruct Hor as [|[= <-]]; [done|]. by apply (ends_rejected _ _ _ br candidate). }
  unfold build_program in Ho. cbv zeta in Ho.
  apply build_bind_inv in Ho as [(program & st2 & Hp & Ho)|[(r & Hr & ->)|(e & _ & ->)]]; [| |by destruct Hor].
  2: { unfold settle in Hr. injection Hr as Hr _. by destruct (fe_program _). }
  unfold settle in Hp. injection Hp as Hp <-. destruct (fe_program (rn_result run)) as [p|] eqn:Hprogram; [|done].
  injection Hp as ->.
  apply build_bind_inv in Ho as [(selected & st2 & Hs & Ho)|[(r & Hs & ->)|(e & _ & ->)]]; [| |by destruct Hor].
  2: { injection Hs as Hs <-. destruct Hor as [|[= ->]]; [done|]. by apply (ends_unselected _ _ _ br candidate run program). }
  injection Hs as Hs <-. set (v := verified_build br request program (rn_result run) selected) in *.
  assert (verified env request st br candidate run program v st1) as Hv by (split_and!; eauto).
  destruct (rebound_candidate _ candidate program v) as [[c rebound]|] eqn:Hre.
  { destruct o as [r|r|e]; [|by apply no_return_reuse in Ho|by destruct Hor].
    destruct Hor as [[= ->]|]; [|done]. by eapply ends_reused. }
  destruct (emit_build _ _ candidate program v) as [[emission|obligation|e] artifacts] eqn:He.
  - destruct o as [r|r|e]; [|by apply no_return_finish in Ho|by destruct Hor].
    destruct Hor as [[= ->]|]; [|done]. by eapply ends_finished.
  - injection Ho as <- <-. destruct Hor as [|[= <-]]; [done|]. by eapply ends_no_artifact.
  - injection Ho as <- <-. by destruct Hor.
Qed.

(** ** What a build publishes *)

Definition store_of (st : BuildState) : Store := disk_store (ws_disk st).

Lemma cache_root_nonempty env root : application_cache_root env = Some root -> root <> "".
Proof.
  unfold application_cache_root, application_cache_root_from, nonempty. intros Hr ->.
  destruct (env "MNCS_PROBE_APPLICATION_CACHE_DIR") as [a|]; cbn [mbind option_bind] in Hr.
  - destruct (String.eqb_spec a ""); [|congruence].
    destruct (env "MNCS_PROBE_CACHE_DIR") as [p|]; [cbn in Hr; destruct (String.eqb_spec p ""); congruence|done].
  - destruct (env "MNCS_PROBE_CACHE_DIR") as [p|]; [cbn in Hr; destruct (String.eqb_spec p ""); congruence|done].
Qed.

(** The paths of a build are cache files of one root. *)
Lemma build_paths env request br :
  let keys := build_keys env request br in
  (forall path, bk_cache_path keys = Some path -> exists root, application_cache_root (en_variables env) = Some root /\
     root <> "" /\ cache_file 0 root (bk_cache_key keys) = Some path) /\
  (forall path, bk_index_path keys = Some path -> exists root, application_cache_root (en_variables env) = Some root /\
     root <> "" /\ cache_file 1 root (bk_index_key keys) = Some path) /\
  (forall path, bk_fact_path keys = Some path -> exists root, application_cache_root (en_variables env) = Some root /\
     root <> "" /\ cache_file 2 root (bk_fact_key keys) = Some path).
Proof.
  cbv zeta. unfold build_keys. destruct (producer_identity _ _) as [probe details]. cbn [bk_cache_path bk_index_path bk_fact_path
    bk_cache_key bk_index_key bk_fact_key].
  unfold application_cache_path, application_cache_index_path, language_fact_cache_index_path, cache_file.
  destruct (application_cache_root (en_variables env)) as [root|] eqn:Hr; cbn [mbind option_bind].
  - apply cache_root_nonempty in Hr as Hne. split_and!; try (intros path Hp; by exists root).
    intros path Hp. destruct (rc_reuse_declaration_facts _); [by exists root|done].
  - split_and!; try done. by destruct (rc_reuse_declaration_facts _).
Qed.

(** Files outside some directories of the cache are kept. *)
Definition keeps (outside : string -> Prop) (st st' : BuildState) : Prop :=
  forall file, outside file -> store_of st' !! file = store_of st !! file.
Definition outside_indexes (root file : string) : Prop :=
  ~ inside root "application-build-indexes" file /\ ~ inside root "application-build-fact-indexes" file.

Lemma publish_index_keeps env keys i root directory path key st o st' :
  root <> "" -> cache_directories !! i = Some directory -> cache_file i root key = Some path ->
  publish_index env keys (Some path) key st = (o, st') -> o = Ok tt /\ keeps (fun file => ~ inside root directory file) st st'.
Proof.
  intros Hr Hd Hf Hp. unfold publish_index in Hp. destruct st as [[store seen] summaries nonce].
  pose proof (publish_index_frame (en_fails env) (en_partial env) (en_pid env) (en_clock env nonce) nonce root key path
    (bk_cache_key keys) store seen i directory Hr Hd Hf) as Hframe.
  unfold mbind, build_bind, run_fs in Hp. cbn [ws_nonce ws_disk ws_summaries] in Hp.
  destruct (publish_application_cache_index _ _ _ _ _ _ _ _ _) as [r disk]. destruct Hframe as [Hnp Hframe].
  destruct r as [a|e|m]; [| |by destruct (Hnp m)]; injection Hp as <- <-; (split; [done|exact Hframe]).
Qed.

Lemma publish_indexes_keeps env request br root st o st' :
  let keys := build_keys env request br in application_cache_root (en_variables env) = Some root ->
  (_ ← publish_index env keys (bk_index_path keys) (bk_index_key keys);
   _ ← publish_index env keys (bk_fact_path keys) (bk_fact_key keys);
   mret "stored") st = (o, st') ->
  o = Ok "stored" /\ keeps (outside_indexes root) st st'.
Proof.
  intros keys Hroot Hp. destruct (build_paths env request br) as (_ & Hindex & Hfact).
  assert (Hstep : forall i directory path key st o st',
    cache_directories !! i = Some directory ->
    (forall p, path = Some p -> exists root, application_cache_root (en_variables env) = Some root /\ root <> "" /\ cache_file i root key = Some p) ->
    publish_index env keys path key st = (o, st') -> o = Ok tt /\ keeps (fun file => ~ inside root directory file) st st').
  { intros i directory [p|] key s r s' Hd Hpath Hrun.
    - destruct (Hpath p eq_refl) as (root' & Hroot' & Hne & Hf). rewrite Hroot in Hroot'. injection Hroot' as <-.
      by apply (publish_index_keeps env keys i root directory p key).
    - injection Hrun as <- <-. split; [done|]. by intros file _. }
  apply build_bind_inv in Hp as [(a & st1 & Hs1 & Hp)|[(r & Hs1 & _)|(e & Hs1 & _)]];
    apply (Hstep 1 "application-build-indexes") in Hs1 as [Ho1 Hk1]; try done.
  apply build_bind_inv in Hp as [(a' & st2 & Hs2 & Hp)|[(r & Hs2 & _)|(e & Hs2 & _)]];
    apply (Hstep 2 "application-build-fact-indexes") in Hs2 as [Ho2 Hk2]; try done.
  injection Hp as <- <-. split; [done|]. intros file [Hf1 Hf2]. by rewrite Hk2, Hk1.
Qed.

Lemma publish_entry_frame env br keys root path run response facts artifacts nonce store seen :
  root <> "" -> cache_file 0 root (bk_cache_key keys) = Some path ->
  let '(r, disk) := publish_entry env br keys path run response facts artifacts nonce (mkDisk store seen) in
  (forall message, r <> Panic message) /\
  forall file, ~ inside root "application-builds" file -> disk_store disk !! file = store !! file.
Proof. intros Hr Hf. exact (publish_frame _ _ _ _ _ root _ path _ _ _ _ _ _ _ _ _ store seen Hr Hf). Qed.

(** A publication of a build stays below the cache root; when it reports that
    the entry is stored, the entry is in its file. *)
Lemma publish_build_spec env request br path run response facts artifacts st o st' :
  let keys := build_keys env request br in bk_cache_path keys = Some path ->
  publish_build env br keys path run response facts artifacts st = (o, st') ->
  exists root, application_cache_root (en_variables env) = Some root /\ root <> "" /\
    cache_file 0 root (bk_cache_key keys) = Some path /\
    keeps (fun file => ~ inside root "application-builds" file /\ outside_indexes root file) st st' /\
    (o = Ok "write_failed" \/
     o = Ok "stored" /\ exists disk, publish_entry env br keys path run response facts artifacts (ws_nonce st) (ws_disk st) = (Ok tt, disk) /\
       store_of st' !! path = disk_store disk !! path).
Proof.
  intros keys Hpath Hp. destruct (build_paths env request br) as (Hcache & _).
  destruct (Hcache path Hpath) as (root & Hroot & Hne & Hf). exists root. do 3 (split; [done|]).
  destruct st as [[store seen] summaries nonce]. unfold publish_build in Hp.
  pose proof (publish_entry_frame env br keys root path run response facts artifacts nonce store seen Hne Hf) as Hframe.
  unfold mbind at 1, build_bind at 1, run_fs at 1 in Hp. cbn [ws_nonce ws_disk ws_summaries] in *.
  destruct (publish_entry _ _ _ _ _ _ _ _ _ _) as [r disk]. destruct Hframe as [Hnp Hframe].
  destruct r as [[]|e|m]; cbn [is_ok] in Hp; [| |by destruct (Hnp m)].
  - apply (publish_indexes_keeps env request br root) in Hp as [-> Hk]; [|done]. split.
    + intros file [Hfile Hout]. rewrite (Hk file Hout). exact (Hframe file Hfile).
    + right. split; [done|]. exists disk. split; [done|]. apply Hk.
      pose proof (cache_file_inside 0 root _ _ path Hne eq_refl Hf) as Hin.
      split; intros Hin'.
      * by apply (inside_disjoint root 0 1 _ _ path Hne eq_refl eq_refl Hin) in Hin'.
      * by apply (inside_disjoint root 0 2 _ _ path Hne eq_refl eq_refl Hin) in Hin'.
  - injection Hp as <- <-. split; [|by left]. intros file [Hfile _]. exact (Hframe file Hfile).
Qed.

(** ** Annotations of finished responses *)

Lemma annotate_frame response key status pub reused recomputed k rest :
  k <> "cache" -> pointer (k :: rest) (annotate_cache response key status pub reused recomputed) = pointer (k :: rest) response.
Proof.
  intros Hk. unfold annotate_cache. destruct (String.eqb status "hit"); by apply annotate_cache_frame.
Qed.
Lemma finished_frame b work response status pub k rest :
  k <> "cache" -> pointer (k :: rest) (finished_response b work response status pub) = pointer (k :: rest) response.
Proof.
  intros Hk. unfold finished_response, annotate_language_fact_work, annotate_frontend_work. cbv zeta.
  rewrite !update_work_frame by done. by apply annotate_frame.
Qed.
Lemma reused_frame b c response pub k rest :
  k <> "cache" -> pointer (k :: rest) (reused_response b c response pub) = pointer (k :: rest) response.
Proof.
  intros Hk. unfold reused_response, annotate_language_fact_work, annotate_frontend_work. cbv zeta.
  rewrite !update_work_frame by done. by apply annotate_cache_frame.
Qed.

Lemma pointer_get key v : pointer [key] v = get key v.
Proof. cbn. by destruct (get key v). Qed.
(** Equal pointers from a key are equal fields. *)
Lemma frame_get key v w : (forall rest, pointer (key :: rest) v = pointer (key :: rest) w) -> get key v = get key w.
Proof. intros Hp. by rewrite <- !pointer_get, Hp. Qed.
Lemma frame_get_str key v w : (forall rest, pointer (key :: rest) v = pointer (key :: rest) w) -> get_str key v = get_str key w.
Proof. intros Hp. unfold get_str. by rewrite (frame_get key v w Hp). Qed.

(** ** Reuse of a candidate *)

(** What it takes to reuse the artifact of a candidate. *)
Lemma rebound_inv b candidate program v c response :
  rebound_candidate b candidate program v = Some (c, response) ->
  exists semantic closure interface,
    candidate = Some c /\ vb_semantic_identity v = Some semantic /\ vb_closure_identity v = Some closure /\
    vb_entry_interface v = Some interface /\ cd_artifact_eligible c = true /\
    get_str "status" (ca_response (cd_cached c)) = Some "verified" /\
    pointer_str ["dependency_graph"; "application_executable_closure_identity"] (ca_response (cd_cached c)) = Some closure /\
    get_str "status" interface = Some "verified" /\
    selected_interfaces_match (bf_contract b) (ca_response (cd_cached c)) v interface = true /\
    pointer_str ["artifact"; "value"; "source"; "interface_identity"] (ca_response (cd_cached c)) =
      Some (language_owned_interface_identity program) /\
    rebind_cached_application_response (ca_response (cd_cached c)) (bf_source_identity b) (bf_source_files b)
      (mkGraph (vb_graph_identity v) (vb_graph v) semantic closure) interface (bf_diagnostics b)
      (rc_multiple_callables (bf_contract b)) (vb_roots v) (vb_interfaces v) (bf_inventory b) (vb_selection v) = Some response.
Proof.
  unfold rebound_candidate. intros Hr.
  destruct candidate as [c'|]; [|done]. destruct (vb_semantic_identity v) as [semantic|]; [|done].
  destruct (vb_closure_identity v) as [closure|]; [|done]. destruct (vb_entry_interface v) as [interface|]; [|done].
  cbn [mbind option_bind] in Hr.
  destruct (candidate_admitted _ _ _ _ _ _) eqn:Ha; [|done].
  destruct (rebind_cached_application_response _ _ _ _ _ _ _ _ _ _ _) as [r|] eqn:E; [|done]. injection Hr as -> ->.
  unfold candidate_admitted in Ha. cbv zeta in Ha. rewrite !andb_true_iff, !bool_decide_eq_true in Ha.
  destruct Ha as [[[[[Hel Hst] Hcl] Hint] Hsel] Hiface]. exists semantic, closure, interface. by split_and!.
Qed.

(** A candidate is an entry of the store that the reader accepted. *)
Lemma candidate_read env request br store c :
  reuse_before_frontend env br (build_keys env request br) store = Ok (Some c) ->
  exists path, application_cache_path (en_variables env) (cd_key c) = Some path /\
    read_application_cache_with_facts (en_fails env) store path (cd_key c) (rc_contract (br_contract br)) None
      (bk_probe_identity (build_keys env request br)) (en_toolchain env) = Some (cd_cached c).
Proof.
  set (keys := build_keys env request br). unfold reuse_before_frontend.
  destruct (exact_hit env br keys store); [done|]. unfold find_candidate.
  assert (Hindexed : forall path key k cached, indexed_candidate env br keys store path key = Some (k, cached) ->
    exists path, application_cache_path (en_variables env) k = Some path /\
    read_application_cache_with_facts (en_fails env) store path k (rc_contract (br_contract br)) None (bk_probe_identity keys) (en_toolchain env) = Some cached).
  { intros path key k cached. unfold indexed_candidate.
    destruct path as [path|]; [|done]. destruct (bk_cache_path keys); [|done]. cbn [mbind option_bind].
    destruct (read_application_cache_index (en_fails env) store path key) as [k'|]; [|done]. cbn [mbind option_bind].
    destruct (application_cache_path (en_variables env) k') as [p|] eqn:Ep; [|done]. cbn [mbind option_bind].
    destruct (read_application_cache_with_facts _ _ _ _ _ _ _ _) as [x|] eqn:Er; [|done].
    intros [= -> ->]. by exists p. }
  destruct (indexed_candidate env br keys store (bk_index_path keys) _) as [[k cached]|] eqn:Ei.
  - destruct (dependency_closure_hit br keys k cached); [done|]. intros [= <-]. by eapply Hindexed.
  - destruct (indexed_candidate env br keys store (bk_fact_path keys) _) as [[k cached]|] eqn:Ef; [|done].
    intros [= <-]. by eapply Hindexed.
Qed.

(** ** Publication *)

(** What a finished build leaves on the disk and says of its status. *)
Lemma finish_inv env request br run v emission artifacts st response st' :
  let keys := build_keys env request br in let b := build_facts env br keys (rn_result run) in
  finish_build env br keys request run b v emission artifacts st = (Ok response, st') ->
  exists artifact missing bindings work cache_status pub,
    emission = (artifact, missing, bindings, work) /\
    let base := artifact_response request b v (artifact_value artifact) bindings missing in
    response = finished_response b (language_work (rn_result run) (Some (reported_work work))) base cache_status pub /\
    ((exists path, bk_cache_path keys = Some path /\ get_str "status" base = Some "verified" /\ cache_status = "miss" /\
        publish_build env br keys path run base (fw_facts work) artifacts st = (Ok pub, st')) \/
     (st' = st /\ (bk_cache_path keys = None \/ get_str "status" base <> Some "verified") /\
      ((cache_status, pub) = ("bypass", "not_published") \/ (cache_status, pub) = ("disabled", "not_configured")))).
Proof.
  intros keys b Hf. destruct emission as [[[artifact missing] bindings] work]. unfold finish_build in Hf. cbv zeta in Hf.
  set (base := artifact_response request b v (artifact_value artifact) bindings missing) in *.
  assert (get_str "status" base = Some (as_status (assess b v (artifact_value artifact)))) as Hstatus by apply response_status.
  apply build_bind_inv in Hf as [([status pub] & st1 & Hp & Hf)|[(r & _ & ?)|(e & _ & ?)]]; [|done|done].
  injection Hf as <- <-. exists artifact, missing, bindings, work, status, pub. split; [done|]. cbv zeta. fold base. split; [done|].
  destruct (bk_cache_path keys) as [path|] eqn:Epath.
  - destruct (String.eqb_spec (as_status (assess b v (artifact_value artifact))) "verified") as [Hv|Hv].
    + apply build_bind_inv in Hp as [(pub' & st2 & Hp & Heq)|[(r & _ & ?)|(e & _ & ?)]]; [|done|done].
      injection Heq as <- <- <-. left. exists path. split_and!; [done|by rewrite Hstatus, Hv|done|done].
    + injection Hp as <- <- <-. right. split; [done|]. split; [right; rewrite Hstatus; congruence|by left].
  - injection Hp as <- <- <-. right. split; [done|]. split; [by left|by right].
Qed.

Lemma reuse_inv env request br run c rebound st response st' :
  let keys := build_keys env request br in let b := build_facts env br keys (rn_result run) in
  reuse_artifact env br keys run b c rebound st = (Ok response, st') ->
  exists pub, response = reused_response b c rebound pub /\
    ((exists path, bk_cache_path keys = Some path /\
        publish_build env br keys path run rebound (ca_ssa_function_verification_facts (cd_cached c))
          (prior_artifacts (Some c)) st = (Ok pub, st')) \/
     (bk_cache_path keys = None /\ st' = st /\ pub = "not_configured")).
Proof.
  intros keys b Hr. unfold reuse_artifact in Hr.
  apply build_bind_inv in Hr as [(pub & st1 & Hp & Hr)|[(r & _ & ?)|(e & _ & ?)]]; [|done|done].
  injection Hr as <- <-. exists pub. split; [done|]. destruct (bk_cache_path keys) as [path|].
  - left. by exists path.
  - right. by injection Hp as <- <-.
Qed.

Lemma reused_status b candidate program v c rebound pub :
  rebound_candidate b candidate program v = Some (c, rebound) ->
  get_str "status" (reused_response b c rebound pub) = Some "verified".
Proof.
  intros (semantic & closure & interface & _ & _ & _ & _ & _ & Hst & _ & _ & _ & _ & Hre)%rebound_inv.
  rewrite <- Hst, (frame_get_str "status" _ rebound) by (intros rest; by apply reused_frame).
  apply frame_get_str. intros rest. by eapply rebind_frame; [exact Hre|apply (bool_decide_unpack _)].
Qed.

End Flow.
