(* ===== verification/AppFlowTheorems.v ===== *)
(** What a build answers: the type of its responses, the reuse of published
    builds, and that a published build is found again. *)

From Stdlib Require Import String.
From S2P Require Export AppBuildTheorems.

Local Open Scope string_scope.
Local Open Scope list_scope.

(** ** The cache observation of a response *)

(** The response records this key, status, publication and basis of reuse. *)
Definition observed (response : Value) (key status pub basis : string) : Prop :=
  is_object response /\
  pointer_str ["cache"; "key"] response = Some key /\ pointer_str ["cache"; "status"] response = Some status /\
  pointer_str ["cache"; "publication"] response = Some pub /\ pointer_str ["cache"; "reuse_basis"] response = Some basis.

Section Observed.
Context `{WorkCrate}.

Lemma observed_basis response key status pub basis from reused recomputed :
  is_object response -> observed (annotate_cache_with_basis response key status pub basis from reused recomputed) key status pub basis.
Proof.
  intros [fields ->]. unfold annotate_cache_with_basis. cbv zeta.
  match goal with |- context [insert_field "cache" ?o _] => set (obs := o) end.
  change (observed (Object (bm_put "cache" obs fields)) key status pub basis).
  split; [by eexists|]. unfold pointer_str. cbn [pointer].
  assert (get "cache" (Object (bm_put "cache" obs fields)) = Some obs) as -> by (cbn [get]; by rewrite get_put, String.eqb_refl).
  split_and!; reflexivity.
Qed.

Lemma observed_cache response key status pub reused recomputed :
  is_object response ->
  observed (annotate_cache response key status pub reused recomputed) key status pub
    (if String.eqb status "hit" then "exact_source_snapshot" else "none").
Proof. intros Ho. unfold annotate_cache. destruct (String.eqb status "hit"); by apply observed_basis. Qed.

Lemma update_work_cache f response key :
  is_object response -> key <> "verification_work" ->
  is_object (update_work f response) /\ pointer ["cache"; key] (update_work f response) = pointer ["cache"; key] response.
Proof.
  intros [fields ->] Hk. unfold update_work. destruct (update_at _ _ _) as [w|] eqn:E; [|split; [by eexists|done]].
  cbn [default]. cbn [update_at update_field] in E.
  destruct (bm_get "cache" fields) as [cache|] eqn:Ec; [|done]. cbn [mbind option_bind] in E.
  destruct (update_field "verification_work" _ cache) as [y|] eqn:Ey; [|done]. injection E as <-.
  split; [by eexists|]. cbn [pointer id].
  assert (get "cache" (Object (bm_put "cache" y fields)) = Some y) as -> by (cbn [get]; by rewrite get_put, String.eqb_refl).
  assert (get "cache" (Object fields) = Some cache) as -> by done. cbn [mbind option_bind].
  by rewrite (get_update_field _ _ _ _ _ Ey), (proj2 (String.eqb_neq _ _) Hk).
Qed.

Lemma observed_work f response key status pub basis :
  observed response key status pub basis -> observed (update_work f response) key status pub basis.
Proof.
  intros (Ho & Hk & Hs & Hp & Hb). unfold observed, pointer_str in *.
  destruct (update_work_cache f response "key" Ho) as [Hobj Hkey]; [done|].
  destruct (update_work_cache f response "status" Ho) as [_ Hst]; [done|].
  destruct (update_work_cache f response "publication" Ho) as [_ Hpub]; [done|].
  destruct (update_work_cache f response "reuse_basis" Ho) as [_ Hbas]; [done|].
  by rewrite Hkey, Hst, Hpub, Hbas.
Qed.
End Observed.

(** ** The responses, by how the build ended *)

Section Responses.
Context `{ModelCrate, SeedCrate, JsonCrate, FactCrate, !EntryCrate, WorkCrate}.
Context `{ProgramCrate, ProgramFacts, InterfaceCrate, SerdeNumber, !NodeHasher, !Toolchain, !ArtifactCrate, !BuildCrate}.

Lemma get_is_object key v w : get key v = Some w -> is_object v.
Proof. destruct v; try done. by eexists. Qed.
Lemma get_str_object key v s : get_str key v = Some s -> is_object v.
Proof. unfold get_str. destruct (get key v) eqn:E; [|done]. intros _. by eapply get_is_object. Qed.

(** Fields other than the cache observation are those of the response observed. *)
Lemma pointer_frontend_work response modules functions outcome k rest :
  k <> "cache" -> pointer (k :: rest) (annotate_frontend_work response modules functions outcome) = pointer (k :: rest) response.
Proof. apply update_work_frame. Qed.
Lemma pointer_fact_work response work k rest :
  k <> "cache" -> pointer (k :: rest) (annotate_language_fact_work response work) = pointer (k :: rest) response.
Proof. apply update_work_frame. Qed.

(** A refused build has no observation. *)
Lemma error_contract_fields contract status code message :
  get_str "schema_version" (error_contract contract status code message) = Some contract /\
  get_str "status" (error_contract contract status code message) = Some status /\
  get "cache" (error_contract contract status code message) = None /\
  is_object (error_contract contract status code message).
Proof.
  unfold error_contract. cbv zeta.
  destruct (one_of contract contracts_from_v3), (one_of contract contracts_from_v4); split_and!; try reflexivity; by eexists.
Qed.

(** What an admitted build answers: under its contract, with an observation of
    its key, a status of these. *)
Definition answers (contract key : string) (statuses : list string) (cache pub basis : string) (response : Value) : Prop :=
  observed response key cache pub basis /\ get_str "schema_version" response = Some contract /\
  exists status, get_str "status" response = Some status /\ status ∈ statuses.

Lemma answers_work f contract key statuses cache pub basis response :
  answers contract key statuses cache pub basis response -> answers contract key statuses cache pub basis (update_work f response).
Proof.
  intros (Hobs & Hschema & status & Hst & Hin). split; [by apply observed_work|].
  assert (forall k, k <> "cache" -> get_str k (update_work f response) = get_str k response) as Hget
    by (intros k Hk; apply frame_get_str; intros rest; by apply update_work_frame).
  rewrite !Hget by done. eauto.
Qed.

Lemma answers_basis contract key statuses cache pub basis from reused recomputed response :
  get_str "schema_version" response = Some contract ->
  (exists status, get_str "status" response = Some status /\ status ∈ statuses) ->
  answers contract key statuses cache pub basis
    (annotate_cache_with_basis response key cache pub basis from reused recomputed).
Proof.
  intros Hschema Hst. split; [apply observed_basis; by eapply get_str_object|].
  assert (forall k, k <> "cache" -> get_str k (annotate_cache_with_basis response key cache pub basis from reused recomputed) =
    get_str k response) as Hget by (intros k Hk; apply frame_get_str; intros rest; by apply annotate_cache_frame).
  by rewrite !Hget by done.
Qed.

Lemma answers_cache contract key statuses cache pub basis reused recomputed response :
  get_str "schema_version" response = Some contract ->
  (exists status, get_str "status" response = Some status /\ status ∈ statuses) ->
  basis = (if String.eqb cache "hit" then "exact_source_snapshot" else "none") ->
  answers contract key statuses cache pub basis (annotate_cache response key cache pub reused recomputed).
Proof. intros Hschema Hst ->. unfold annotate_cache. destruct (String.eqb cache "hit"); by apply answers_basis. Qed.

(** A field that the optional fields of a response leave alone. *)
Ltac optional_fields :=
  unfold get_str; cbv zeta; repeat first [rewrite get_set_if by auto with object | rewrite get_set_when by auto with object];
  reflexivity.

Lemma rejected_answers b resolutions roots selection :
  answers (contract_of b) (bf_cache_key b) ["rejected"] "bypass" "not_published" "none"
    (rejected_response b resolutions roots selection).
Proof.
  unfold rejected_response. destruct (default ("", "") (head roots)) as [m f].
  apply answers_work, answers_work, answers_cache; [optional_fields| |done].
  exists "rejected". split; [optional_fields|by left].
Qed.

Lemma emission_failed_answers b v obligation :
  answers (contract_of b) (bf_cache_key b) ["unsupported"] "bypass" "not_published" "none"
    (emission_failed_response b v obligation).
Proof.
  apply answers_work, answers_cache; [optional_fields| |done].
  exists "unsupported". split; [optional_fields|by left].
Qed.

Lemma unselected_answers contract fault source files inventory selection key modules functions :
  sf_status fault = "rejected" \/ sf_status fault = "unsupported" ->
  answers contract key ["rejected"; "unsupported"] "bypass" "not_published" "none"
    (source_test_selection_error_response contract fault source files inventory selection key modules functions).
Proof.
  intros Hf. destruct (error_contract_fields contract (sf_status fault) (sf_code fault) (sf_message fault))
    as (Hschema & Hst & _ & [fields Heq]).
  unfold source_test_selection_error_response. rewrite Heq in *. cbv zeta.
  assert (forall k, k ∉ ["source_snapshot"; "test_case_selection"; "source_test_inventory"] ->
    get_str k (set_if "source_test_inventory" inventory (set_field "test_case_selection" (unselected_value (sf_status fault) selection)
      (set_field "source_snapshot" (snapshot_value source files) (Object fields)))) = get_str k (Object fields)) as Hget.
  { intros k Hk. unfold get_str.
    change (set_field "test_case_selection" ?x ?v) with (set_if "test_case_selection" (Some x) v).
    change (set_field "source_snapshot" ?x ?v) with (set_if "source_snapshot" (Some x) v).
    assert (is_object (Object fields)) by by eexists.
    rewrite !get_set_if by first [by auto with object | intros ->; set_solver]. done. }
  apply answers_work, answers_cache; [|exists (sf_status fault)|done].
  - rewrite Hget; [done|]. apply (bool_decide_unpack _); vm_compute; exact Logic.I.
  - rewrite Hget; [|apply (bool_decide_unpack _); vm_compute; exact Logic.I]. split; [done|].
    destruct Hf as [-> | ->]; set_solver.
Qed.

Lemma reused_answers b candidate program v c rebound pub store env request br :
  reuse_before_frontend env br (build_keys env request br) store = Ok candidate ->
  contract_of b = rc_contract (br_contract br) ->
  rebound_candidate b candidate program v = Some (c, rebound) ->
  answers (contract_of b) (bf_cache_key b) ["verified"] "hit" pub "verified_application_executable_closure"
    (reused_response b c rebound pub).
Proof.
  intros Hc Hcontract (semantic & closure & interface & -> & _ & _ & _ & _ & Hst & _ & _ & _ & _ & Hre)%rebound_inv.
  apply candidate_read in Hc as (path & _ & Hread). apply read_cache_spec in Hread as (_ & _ & _ & _ & _ & _ & _ & Hresp).
  destruct Hresp as (_ & _ & _ & Hschema & _).
  assert (Hget : forall k, k ∉ rebound_keys -> get_str k rebound = get_str k (ca_response (cd_cached c))).
  { intros k Hk. apply frame_get_str. intros rest. by eapply rebind_frame. }
  apply answers_work, answers_work, answers_basis; [|exists "verified"; split; [|by left]].
  - rewrite Hget by (apply (bool_decide_unpack _); vm_compute; exact Logic.I). by rewrite Hcontract.
  - by rewrite Hget by (apply (bool_decide_unpack _); vm_compute; exact Logic.I).
Qed.

Lemma finished_answers request b v artifact bindings missing work cache pub :
  cache <> "hit" ->
  answers (contract_of b) (bf_cache_key b) ["verified"; "unknown"; "unsupported"] cache pub "none"
    (finished_response b work (artifact_response request b v artifact bindings missing) cache pub).
Proof.
  intros Hhit. apply answers_work, answers_work, answers_cache; [apply response_schema| |by rewrite (proj2 (String.eqb_neq _ _) Hhit)].
  eexists. split; [apply response_status|]. cbn [assess as_status]. unfold build_status.
  repeat case_if; set_solver.
Qed.

(** A reused response names the key it was reused from. *)
Lemma reused_key b c rebound pub :
  is_object rebound -> pointer_str ["cache"; "reused_from_key"] (reused_response b c rebound pub) = Some (cd_key c).
Proof.
  intros Ho. unfold reused_response, annotate_language_fact_work, annotate_frontend_work. cbv zeta.
  assert (Hbasis : forall key status basis reused recomputed,
    is_object (annotate_cache_with_basis rebound key status pub basis (Some (cd_key c)) reused recomputed) /\
    pointer_str ["cache"; "reused_from_key"] (annotate_cache_with_basis rebound key status pub basis (Some (cd_key c)) reused recomputed)
      = Some (cd_key c)).
  { intros key status basis reused recomputed. split; [by apply observed_basis|]. destruct Ho as [fields ->].
    unfold annotate_cache_with_basis. cbv zeta. unfold insert_field. unfold default, pointer_str. cbn [pointer get id].
    rewrite get_put, String.eqb_refl. reflexivity. }
  destruct (Hbasis (bf_cache_key b) "hit" "verified_application_executable_closure" ["verified_vm_artifact"]
    ["source_semantic_check"; "application_executable_closure_verification"]) as [Hobj Hkey]. unfold pointer_str in *.
  destruct (update_work_cache (set_fields [
    ("resolved_module_count", count (bf_resolved_module_count b));
    ("program_function_count", nullable (count <$> bf_program_function_count b));
    ("front_end_outcome", Str "verified")]) _ "reused_from_key" Hobj) as [Hobj' Hkey']; [done|].
  rewrite (proj2 (update_work_cache _ _ "reused_from_key" Hobj' ltac:(done))), Hkey'. exact Hkey.
Qed.

(** A hit before the frontend is an accepted entry, observed as a hit. *)
Lemma hit_answers env request br store response :
  let keys := build_keys env request br in
  reuse_before_frontend env br keys store = Err response ->
  exists basis, basis ∈ ["exact_source_snapshot"; "verified_dependency_closure"] /\
    answers (rc_contract (br_contract br)) (bk_cache_key keys) ["verified"] "hit" "previously_published" basis response.
Proof.
  intros keys. assert (Hread : forall path key source cached,
    read_application_cache_with_facts (en_fails env) store path key (rc_contract (br_contract br)) source (bk_probe_identity keys) (en_toolchain env) = Some cached ->
    get_str "schema_version" (ca_response cached) = Some (rc_contract (br_contract br)) /\
    exists status, get_str "status" (ca_response cached) = Some status /\ status ∈ ["verified"]).
  { intros path key source cached (_ & _ & _ & _ & _ & _ & _ & _ & _ & _ & Hschema & Hst & _)%read_cache_spec.
    split; [done|]. exists "verified". split; [done|by left]. }
  unfold reuse_before_frontend. destruct (exact_hit env br keys store) as [hit|] eqn:Eh.
  - intros [= <-]. unfold exact_hit in Eh. destruct (bk_cache_path keys) as [path|]; [|done]. cbn [mbind option_bind] in Eh.
    unfold read_application_cache in Eh.
    destruct (read_application_cache_with_facts _ _ _ _ _ _ _ _) as [cached|] eqn:Er; [|done]. injection Eh as <-.
    apply Hread in Er as [Hschema Hst]. exists "exact_source_snapshot". split; [by left|]. by apply answers_cache.
  - unfold find_candidate. destruct (indexed_candidate _ _ _ _ _ _) as [[key cached]|] eqn:Ei; [|done].
    destruct (dependency_closure_hit _ _ _ _) as [hit|] eqn:Ed; [|done]. intros [= <-].
    exists "verified_dependency_closure". split; [by right; left|].
    assert (exists path, read_application_cache_with_facts (en_fails env) store path key (rc_contract (br_contract br)) None (bk_probe_identity keys)
      (en_toolchain env) = Some cached) as (path & Er).
    { unfold indexed_candidate in Ei. destruct (bk_index_path keys) as [p|]; [|done]. destruct (bk_cache_path keys); [|done].
      cbn [mbind option_bind] in Ei. destruct (read_application_cache_index (en_fails env) store p _) as [k|]; [|done]. cbn [mbind option_bind] in Ei.
      destruct (application_cache_path (en_variables env) k) as [q|]; [|done]. cbn [mbind option_bind] in Ei.
      destruct (read_application_cache_with_facts _ _ _ _ _ _ _ _) as [x|] eqn:Er; [|done]. injection Ei as <- <-. eauto. }
    apply Hread in Er as [Hschema (status & Hst & Hin)]. unfold dependency_closure_hit in Ed.
    destruct (cached_application_matches_dependency_closure _ _ _ _); [|done].
    destruct (rebind_cached_source_snapshot _ _ _) as [rebound|] eqn:Er; [|done]. injection Ed as <-.
    assert (forall k, k <> "source_snapshot" -> get_str k rebound = get_str k (ca_response cached)) as Hget.
    { intros k Hk. apply frame_get_str. intros rest. unfold rebind_cached_source_snapshot in Er.
      by apply (pointer_update_field _ _ _ _ rest k Er). }
    apply answers_basis; rewrite Hget by done; eauto.
Qed.

(** A candidate is found only below a configured cache. *)
Lemma candidate_path env request br store c :
  let keys := build_keys env request br in
  reuse_before_frontend env br keys store = Ok (Some c) -> bk_cache_path keys <> None.
Proof.
  intros keys Hc Hp. unfold reuse_before_frontend, exact_hit, find_candidate, indexed_candidate in Hc. rewrite Hp in Hc.
  cbn [mbind option_bind] in Hc. by destruct (bk_index_path keys), (bk_fact_path keys).
Qed.

Definition cache_outcomes : list (string * string * string) := [
  ("hit", "previously_published", "exact_source_snapshot");
  ("hit", "previously_published", "verified_dependency_closure");
  ("hit", "stored", "verified_application_executable_closure");
  ("hit", "write_failed", "verified_application_executable_closure");
  ("miss", "stored", "none"); ("miss", "write_failed", "none");
  ("bypass", "not_published", "none"); ("disabled", "not_configured", "none")].
Definition build_statuses : list string := ["verified"; "unknown"; "unsupported"; "rejected"].

(** Names the outcome of a build, one of [cache_outcomes]. *)
Ltac outcome cache pub basis := exists cache, pub, basis; split; [apply (bool_decide_unpack _); vm_compute; exact Logic.I|].

(** A build that was admitted answers so. *)
Lemma admitted_answers env request st br response st' :
  admit_request request = Ok br -> compile_application env request st = (Ok response, st') ->
  exists cache pub basis, (cache, pub, basis) ∈ cache_outcomes /\
    answers (rc_contract (br_contract br)) (bk_cache_key (build_keys env request br))
      (if String.eqb cache "hit" then ["verified"] else build_statuses) cache pub basis response.
Proof.
  intros Hadmit Hends%compile_ends.
  assert (Hmono : forall key contract statuses statuses' cache pub basis r, statuses ⊆ statuses' ->
    answers contract key statuses cache pub basis r -> answers contract key statuses' cache pub basis r).
  { intros key contract statuses statuses' cache pub basis r Hsub (? & ? & s & ? & ?). split_and!; [done|done|]. exists s. auto. }
  assert (Hpub : forall path run base facts artifacts st1 o st2, bk_cache_path (build_keys env request br) = Some path ->
    publish_build env br (build_keys env request br) path run base facts artifacts st1 = (Ok o, st2) -> o = "stored" \/ o = "write_failed").
  { intros path run base facts artifacts st1 o st2 Hpath (root & _ & _ & _ & _ & [[= ->]|[[= ->] _]])%(publish_build_spec env request br); auto. }
  destruct Hends as [response Ha|br' response Ha Hhit|br' candidate run st' (Ha & _)|br' candidate run program response st' (Ha & _) _ _ Hsel
    |br' candidate run program v st1 c rebound response st' ((Ha & Hcand & _) & _) Hre Hrun
    |br' candidate run program v obligation artifacts st' ((Ha & _) & _)
    |br' candidate run program v emission artifacts st1 response st' ((Ha & _) & _) _ _ Hf];
    rewrite Ha in Hadmit; [discriminate Hadmit|injection Hadmit as ->..].
  - apply hit_answers in Hhit as (basis & Hb & Hans). exists "hit", "previously_published", basis. split; [|done].
    unfold cache_outcomes. set_solver.
  - outcome "bypass" "not_published" "none". eapply Hmono; [|apply rejected_answers].
    apply (bool_decide_unpack _); vm_compute; exact Logic.I.
  - outcome "bypass" "not_published" "none". unfold selection_step in Hsel. destruct (br_selection br) as [selection|]; [|done].
    destruct (select_test_cases _ _ _ _ _ _) as [s|fault|e] eqn:Es; [done| |done]. injection Hsel as <-.
    eapply Hmono; [|by eapply unselected_answers, select_fault_status].
    apply (bool_decide_unpack _); vm_compute; exact Logic.I.
  - destruct (reuse_inv env request br run c rebound st1 response st' Hrun) as (pub & -> & Hp).
    exists "hit", pub, "verified_application_executable_closure". split.
    + destruct Hp as [(path & Hpath & [-> | ->]%(Hpub _ _ _ _ _ _ _ _ Hpath))|(Hno & _)]; [set_solver..|].
      apply rebound_inv in Hre as (? & ? & ? & -> & _). by apply candidate_path in Hcand.
    + by eapply reused_answers.
  - outcome "bypass" "not_published" "none". eapply Hmono; [|apply emission_failed_answers].
    apply (bool_decide_unpack _); vm_compute; exact Logic.I.
  - destruct (finish_inv env request br run v emission artifacts st1 response st' Hf)
      as (artifact & missing & bindings & work & cache & pub & _ & -> & Hp).
    assert ((cache, pub, "none") ∈ cache_outcomes /\ cache <> "hit") as [Hin Hhit].
    { unfold cache_outcomes. destruct Hp as [(path & Hpath & _ & -> & [-> | ->]%(Hpub _ _ _ _ _ _ _ _ Hpath))|(_ & _ & [[= -> ->]|[= -> ->]])];
        (split; [set_solver|done]). }
    exists cache, pub, "none". split; [done|]. rewrite (proj2 (String.eqb_neq _ _) Hhit).
    eapply Hmono; [|by apply finished_answers]. apply (bool_decide_unpack _); vm_compute; exact Logic.I.
Qed.

(** A request that is not admitted is answered with its refusal. *)
Lemma refused_answer env request st response st' :
  compile_application env request st = (Ok response, st') ->
  (exists br, admit_request request = Ok br) \/ admit_request request = Err response /\ st' = st.
Proof.
  unfold compile_application, mbind, build_bind, settle. intros Hc. destruct (admit_request request) as [br|r|m].
  - left. by exists br.
  - injection Hc as <- <-. by right.
  - done.
Qed.

(** C13: only verified builds are published, and only below the cache root.
    Whatever a request asks for, however the frontend, the compiler and the
    system calls behave, a build that changes the disk answers with status
    "verified" and reports an attempted publication, and no file changes outside
    the three directories of the configured cache root.  So a refused, rejected,
    unsupported or unknown build leaves the disk as it was, and so does a hit
    that was found before the frontend ran; a hit that reuses the executable
    closure of other sources is published as an entry of its own. *)
Theorem only_verified_published env request st response st' :
  compile_application env request st = (Ok response, st') ->
  ws_disk st' = ws_disk st \/
  get_str "status" response = Some "verified" /\
  (exists publication, pointer_str ["cache"; "publication"] response = Some publication /\
     (publication = "stored" \/ publication = "write_failed")) /\
  exists root, application_cache_root (en_variables env) = Some root /\
    forall file, (forall directory, directory ∈ cache_directories -> ~ inside root directory file) ->
      store_of st' !! file = store_of st !! file.
Proof.
  intros Hends%compile_ends.
  assert (Hout : forall st1 root,
    keeps (fun file => ~ inside root "application-builds" file /\ outside_indexes root file) st1 st' -> same_files st st1 ->
    forall file, (forall directory, directory ∈ cache_directories -> ~ inside root directory file) ->
      store_of st' !! file = store_of st !! file).
  { intros st1 root Hkeeps [Hdisk _] file Hno. unfold store_of in *. rewrite <- Hdisk. apply Hkeeps.
    unfold cache_directories in Hno. split; [|split]; apply Hno; set_solver. }
  assert (Hpub : forall r contract key statuses cache pub basis, answers contract key statuses cache pub basis r ->
    pointer_str ["cache"; "publication"] r = Some pub) by by intros r contract key statuses cache pub basis ((_ & _ & _ & ? & _) & _).
  destruct Hends as [| |br candidate run st' Hr|br candidate run program response st' Hr
    |br candidate run program v st1 c rebound response st' Hv Hre Hrun|br candidate run program v obligation artifacts st' Hv
    |br candidate run program v emission artifacts st1 response st' Hv Hre He Hf].
  - by left.
  - by left.
  - left. by destruct Hr as (_ & _ & _ & ? & _).
  - left. by destruct Hr as (_ & _ & _ & ? & _).
  - pose proof Hv as ((_ & Hcand & _) & _).
    destruct (reuse_inv env request br run c rebound st1 response st') as (pub & -> & [(path & Hpath & Hp)|(_ & -> & _)]); [done| |].
    + right. split; [by eapply reused_status|].
      apply (publish_build_spec env request br) in Hp as (root & Hroot & _ & _ & Hkeeps & Ho); [|done]. split.
      * exists pub. split; [by eapply Hpub, reused_answers|]. destruct Ho as [[= ->]|[[= ->] _]]; auto.
      * exists root. split; [done|]. eapply Hout; [exact Hkeeps|]. by destruct Hv as ((_ & _ & _ & ?) & _).
    + left. by destruct Hv as ((_ & _ & _ & ? & _) & _).
  - left. by destruct Hv as ((_ & _ & _ & ? & _) & _).
  - destruct (finish_inv env request br run v emission artifacts st1 response st')
      as (artifact & missing & bindings & work & status & pub & _ & -> & [(path & Hpath & Hst & -> & Hp)|(-> & _)]); [done| |].
    + right. split; [rewrite <- Hst; apply frame_get_str; intros rest; by apply finished_frame|].
      apply (publish_build_spec env request br) in Hp as (root & Hroot & _ & _ & Hkeeps & Ho); [|done]. split.
      * exists pub. split; [by eapply Hpub, finished_answers|]. destruct Ho as [[= ->]|[[= ->] _]]; auto.
      * exists root. split; [done|]. eapply Hout; [exact Hkeeps|]. by destruct Hv as ((_ & _ & _ & ?) & _).
    + left. by destruct Hv as ((_ & _ & _ & ? & _) & _).
Qed.

(** C12: the type of a response.  Whatever the request, the frontend, the
    compiler and the file system do, a build that answers at all answers an
    object under the contract the request named -- the first contract when it
    named none that is known -- with a status of the protocol.  An admitted
    build records its cache key with one of eight combinations of status,
    publication and basis of reuse, and only a verified response is ever a hit;
    a refused request has no cache observation and is never verified. *)
Theorem response_typed env request st response st' :
  compile_application env request st = (Ok response, st') ->
  is_object response /\
  get_str "schema_version" response =
    Some (match request_contract request with Some rc => rc_contract rc | None => CONTRACT_V1 end) /\
  match admit_request request with
  | Ok br => exists status cache pub basis,
      get_str "status" response = Some status /\ status ∈ build_statuses /\
      observed response (bk_cache_key (build_keys env request br)) cache pub basis /\
      (cache, pub, basis) ∈ cache_outcomes /\ (cache = "hit" -> status = "verified")
  | _ => get "cache" response = None /\
      exists status, get_str "status" response = Some status /\ status ∈ ["unknown"; "unsupported"; "unavailable"]
  end.
Proof.
  intros Hc. destruct (admit_request request) as [br|refusal|message] eqn:Ha.
  - apply admit_inv in Ha as Hinv. destruct Hinv as [-> _].
    destruct (admitted_answers env request st br response st' Ha Hc) as (cache & pub & basis & Hin & Hobs & Hschema & status & Hst & Hs).
    split; [apply Hobs|]. split; [done|]. exists status, cache, pub, basis. split_and!; try done.
    + destruct (String.eqb cache "hit"); [|done]. unfold build_statuses. set_solver.
    + intros ->. cbn in Hs. set_solver.
  - destruct (refused_answer env request st response st' Hc) as [[br Hbr]|[Hrefused _]]; [congruence|].
    rewrite Ha in Hrefused. injection Hrefused as ->. apply refusal_shape in Ha as (status & code & message & -> & Hs).
    destruct (error_contract_fields (match request_contract request with Some rc => rc_contract rc | None => CONTRACT_V1 end) status code message)
      as (Hschema & Hst & Hno & Ho). eauto 6.
  - destruct (refused_answer env request st response st' Hc) as [[br Hbr]|[Hrefused _]]; congruence.
Qed.

(** ** A published build is found again *)

(** The verified programs of a build have roots, each with its interface. *)
Lemma verified_roots env request st br candidate run program v st' :
  verified env request st br candidate run program v st' ->
  vb_roots v <> [] /\ List.length (vb_interfaces v) = List.length (vb_roots v).
Proof.
  intros ((Ha & _) & _ & _ & selected & Hsel & ->). split; [|cbn; by rewrite length_map].
  unfold selection_step in Hsel. destruct (br_selection br) as [selection|] eqn:Eb.
  - destruct (select_test_cases _ _ _ _ _ _) as [s|fault|e] eqn:Es; [|done|done]. injection Hsel as <-. cbn. by eapply selected_roots.
  - injection Hsel as <-. cbn. by eapply admitted_roots.
Qed.

(** The facts of a build state its keys. *)
Lemma build_identities env request br fe :
  let keys := build_keys env request br in let b := build_facts env br keys fe in
  contract_of b = rc_contract (br_contract br) /\ bf_source_identity b = bk_source_identity keys /\
  (exists hash, bk_source_identity keys = "sha256:" +:+ hash) /\
  bf_probe_identity b = bk_probe_identity keys /\ bf_toolchain b = en_toolchain env /\
  (bf_probe_identity b <> "unknown" -> get_str "probe_executable_sha256" (bf_probe_details b) = Some (bk_probe_identity keys)).
Proof.
  cbv zeta. unfold build_keys, producer_identity. cbn. split_and!; try done.
  - unfold source_snapshot_identity. by eexists.
  - by destruct (en_executable_sha256 env).
Qed.

Lemma section_fields artifact unresolved :
  pointer ["schema_version"] (artifact_section artifact unresolved) = Some (nullable (get "schema_version" artifact)) /\
  pointer ["identity"] (artifact_section artifact unresolved) = Some (nullable (get "artifact_id" artifact)) /\
  forall rest, pointer ("value" :: rest) (artifact_section artifact unresolved) = pointer rest artifact.
Proof. split_and!; reflexivity. Qed.

(** The response of a verified build is one the cache reader accepts. *)
Lemma emitted_response_holds env request br fe v a bindings missing :
  let keys := build_keys env request br in let b := build_facts env br keys fe in
  (forall t, is_Some (toolchain_value t)) -> vb_roots v <> [] -> List.length (vb_interfaces v) = List.length (vb_roots v) ->
  va_schema_version a = VM_ARTIFACT_SCHEMA_VERSION -> va_artifact_id a <> "" ->
  let base := artifact_response request b v (artifact_value a) bindings missing in
  get_str "status" base = Some "verified" ->
  response_holds base (rc_contract (br_contract br)) (Some (bk_source_identity keys)) (bk_probe_identity keys) (en_toolchain env).
Proof.
  intros keys b Htool Hroots Hl Hschema Hid base Hst. subst base.
  destruct (build_identities env request br fe) as (Hcontract & Hsource & Hhash & Hprobe & Ht & Hdetails).
  fold keys b in Hcontract, Hsource, Hhash, Hprobe, Ht, Hdetails.
  rewrite response_status in Hst. apply (inj Some) in Hst.
  destruct (verified_assessment b v a Hl Hst Hroots) as ((Hacct & Haccp & _) & Hentry & _).
  destruct (response_producer request b v (artifact_value a) bindings missing) as [Hprod Hprobe'].
  exists (bk_source_identity keys). split_and!.
  - by rewrite response_snapshot, Hsource.
  - done.
  - by rewrite response_schema, Hcontract.
  - by rewrite response_status, Hst.
  - by intros ? [= <-].
  - rewrite Hprobe'. by apply Hdetails.
  - unfold pointer_str. by rewrite response_artifact, (proj1 (section_fields _ _)), artifact_schema, Hschema.
  - unfold pointer_str. rewrite response_artifact, (proj2 (proj2 (section_fields _ _))), pointer_get, artifact_schema. by rewrite Hschema.
  - rewrite !response_artifact, (proj2 (proj2 (section_fields _ _))), (proj1 (proj2 (section_fields _ _))), pointer_get.
    by rewrite (artifact_identity a Hid).
  - by rewrite response_entry_status, Hentry.
  - rewrite Hprod, Ht. rewrite Ht in Hacct. destruct (en_toolchain env) as [t|]; [|done]. cbn.
    destruct (Htool t) as [x Hx]. by rewrite Hx.
Qed.

Lemma read_cache_file fails store store' path key contract source probe toolchain :
  store' !! path = store !! path ->
  read_application_cache_with_facts fails store' path key contract source probe toolchain =
  read_application_cache_with_facts fails store path key contract source probe toolchain.
Proof. intros Heq. unfold read_application_cache_with_facts, fs_read. by rewrite Heq. Qed.

(** A stored publication is read back under its key. *)
Lemma published_read fails env request br path run base facts artifacts st st' :
  let keys := build_keys env request br in bk_cache_path keys = Some path ->
  publish_build env br keys path run base facts artifacts st = (Ok "stored", st') ->
  response_holds base (rc_contract (br_contract br)) (Some (bk_source_identity keys)) (bk_probe_identity keys) (en_toolchain env) ->
  read_application_cache fails (store_of st') path (bk_cache_key keys) (rc_contract (br_contract br))
    (Some (bk_source_identity keys)) (bk_probe_identity keys) (en_toolchain env) = if fails FsRead path then None else Some base.
Proof.
  intros keys Hpath Hpub Hholds. unfold keys in *.
  destruct (publish_build_spec env request br path run base facts artifacts st _ st' Hpath Hpub)
    as (root & _ & Hne & Hfile & _ & [[=]|(_ & disk & Hentry & Hsame)]).
  unfold read_application_cache. rewrite (read_cache_file fails (disk_store disk)) by exact Hsame.
  destruct st as [[store seen] summaries nonce].
  unfold publish_entry in Hentry. cbv zeta in Hentry.
  erewrite read_published; [by destruct (fails FsRead path)|exact Hne|exact Hfile|exact Hentry|exact Hholds].
Qed.

(** What a build depends on of its environment when it looks for a hit. *)
Definition same_producer (env env' : BuildEnv) : Prop :=
  en_variables env' = en_variables env /\ en_toolchain env' = en_toolchain env /\
  en_executable env' = en_executable env /\ en_executable_sha256 env' = en_executable_sha256 env.

Lemma same_producer_keys env env' request br :
  same_producer env env' ->
  build_keys env' request br = build_keys env request br.
Proof. intros (Hv & Ht & He & Hs). unfold build_keys. by rewrite Hv, Ht, He, Hs. Qed.

Lemma exact_hit_ends env request br st base path :
  let keys := build_keys env request br in
  admit_request request = Ok br -> bk_cache_path keys = Some path ->
  read_application_cache (en_fails env) (store_of st) path (bk_cache_key keys) (rc_contract (br_contract br))
    (Some (bk_source_identity keys)) (bk_probe_identity keys) (en_toolchain env) = Some base ->
  compile_application env request st =
    (Ok (annotate_cache base (bk_cache_key keys) "hit" "previously_published" ["verified_application_artifact"] []), st).
Proof.
  intros keys Ha Hpath Hread. unfold compile_application, mbind at 1, build_bind at 1, settle at 1. rewrite Ha.
  unfold build_application. cbv zeta. fold keys. unfold mbind at 1, build_bind at 1, look at 1, reuse_before_frontend, exact_hit.
  rewrite Hpath. cbn [mbind option_bind]. unfold store_of in Hread. rewrite Hread. reflexivity.
Qed.

(** A stored build left its response, but for the observation, in its entry. *)
Lemma stored_response env request st response st' br :
  (forall t, is_Some (toolchain_value t)) ->
  admit_request request = Ok br -> compile_application env request st = (Ok response, st') ->
  pointer_str ["cache"; "publication"] response = Some "stored" ->
  let keys := build_keys env request br in
  exists path base, bk_cache_path keys = Some path /\
    (forall fails, read_application_cache fails (store_of st') path (bk_cache_key keys) (rc_contract (br_contract br))
      (Some (bk_source_identity keys)) (bk_probe_identity keys) (en_toolchain env) = if fails FsRead path then None else Some base) /\
    is_object base /\ forall key rest, key <> "cache" -> pointer (key :: rest) response = pointer (key :: rest) base.
Proof.
  intros Htool Hadmit Hends%compile_ends Hstored keys.
  assert (Hpub : forall r contract key statuses cache pub basis, answers contract key statuses cache pub basis r ->
    pointer_str ["cache"; "publication"] r = Some "stored" -> pub = "stored").
  { intros r contract key statuses cache pub basis ((_ & _ & _ & Hp & _) & _). congruence. }
  destruct Hends as [response Ha|br' response Ha Hhit|br' candidate run st' (Ha & _)|br' candidate run program response st' (Ha & _) _ _ Hsel
    |br' candidate run program v st1 c rebound response st' Hv Hre Hrun
    |br' candidate run program v obligation artifacts st' ((Ha & _) & _)
    |br' candidate run program v emission artifacts st1 response st' Hv _ He Hf];
    [congruence|rewrite Ha in Hadmit; injection Hadmit as ->..| | |].
  - apply hit_answers in Hhit as (basis & _ & Hans). by apply Hpub in Hans.
  - by eapply (Hpub _ _ _ _ _ _ _ (rejected_answers _ _ _ _)) in Hstored.
  - unfold selection_step in Hsel. destruct (br_selection br) as [selection|]; [|done].
    destruct (select_test_cases _ _ _ _ _ _) as [s|fault|e] eqn:Es; [done| |done]. injection Hsel as <-.
    by eapply (Hpub _ _ _ _ _ _ _ (unselected_answers _ _ _ _ _ _ _ _ _ (select_fault_status _ _ _ _ _ _ _ Es))) in Hstored.
  - pose proof Hv as ((Ha & Hcand & _) & _). rewrite Ha in Hadmit. injection Hadmit as ->.
    destruct (reuse_inv env request br run c rebound st1 response st' Hrun) as (pub & -> & Hp).
    assert (pub = "stored") as -> by (eapply (Hpub _ _ _ _ _ _ _ (reused_answers (build_facts env br keys (rn_result run)) _ _ _ _ _ _ _ env request br Hcand eq_refl Hre)); done).
    destruct Hp as [(path & Hpath & Hp)|(_ & _ & [=])]. exists path, rebound.
    apply rebound_inv in Hre as (semantic & closure & interface & -> & _ & _ & _ & _ & _ & _ & _ & _ & _ & Hre).
    apply candidate_read in Hcand as (path' & _ & Hread). apply read_cache_spec in Hread as (_ & _ & _ & _ & _ & _ & _ & Hresp).
    destruct (build_identities env request br (rn_result run)) as (_ & Hsource & Hhash & _).
    eapply rebind_valid in Hre as [Hholds _]; [|exact Hresp|by rewrite Hsource].
    rewrite Hsource in Hholds. split; [done|]. split; [intros fails; by eapply published_read|]. split.
    + destruct Hholds as (? & _ & _ & Hschema & _). by eapply get_str_object.
    + intros key rest Hk. by apply reused_frame.
  - by eapply (Hpub _ _ _ _ _ _ _ (emission_failed_answers _ _ _)) in Hstored.
  - pose proof Hv as ((Ha & _) & _). rewrite Ha in Hadmit. injection Hadmit as ->.
    destruct (finish_inv env request br run v emission artifacts st1 response st' Hf)
      as (artifact & missing & bindings & work & cache & pub & -> & -> & Hp).
    destruct Hp as [(path & Hpath & Hst & -> & Hp)|(_ & _ & Hno)].
    + assert ("miss" <> "hit") as Hmiss by done.
      assert (pub = "stored") as -> by (eapply (Hpub _ _ _ _ _ _ _ (finished_answers _ _ _ _ _ _ _ "miss" _ Hmiss)); exact Hstored).
      destruct (verified_roots _ _ _ _ _ _ _ _ _ Hv) as [Hroots Hl].
      assert (va_schema_version artifact = VM_ARTIFACT_SCHEMA_VERSION /\ va_artifact_id artifact <> "") as [Hschema Hid].
      { unfold emit_build in He. cbv zeta in He.
        destruct (one_of _ _); [|injection He as He _; by eapply emitted_application].
        destruct (application_lowering_program_for_callables _ _ _); [|done|done].
        destruct (compile_with_ssa_facts_and_artifact_cache _ _ _) as [[result [w|]] arts]; [|done].
        injection He as He _. by eapply emitted_application. }
      pose proof (emitted_response_holds env request br (rn_result run) v artifact bindings missing Htool Hroots Hl Hschema Hid Hst) as Hholds.
      eexists path, _. split; [done|]. split; [intros fails; by eapply published_read|]. split.
      * destruct Hholds as (? & _ & _ & Hs & _). by eapply get_str_object.
      * intros key rest Hk. by apply finished_frame.
    + assert (cache <> "hit") as Hmiss by by destruct Hno as [[= -> ->]|[= -> ->]].
      assert (pub = "stored") by (eapply (Hpub _ _ _ _ _ _ _ (finished_answers _ _ _ _ _ _ _ cache _ Hmiss)); exact Hstored).
      by destruct Hno as [[= -> ->]|[= -> ->]].
Qed.

(** C14: a published build is found again.  When a build reports that its entry
    was stored, the same request, answered by the same compiler with the same
    toolchain over the same files -- in this process or another, whatever its
    clock and its process id -- returns at once if it can read that entry,
    without running the frontend, emitting or writing anything, whatever its
    other system calls would do: the response is a hit on the exact snapshot, and
    says outside its cache observation precisely what the stored build said.  A
    process that cannot read the entry has no hit on the exact snapshot. *)
Theorem published_build_hits env env' request st response st' st2 :
  (forall t, is_Some (toolchain_value t)) ->
  compile_application env request st = (Ok response, st') ->
  pointer_str ["cache"; "publication"] response = Some "stored" ->
  same_producer env env' -> store_of st2 = store_of st' ->
  exists br path, admit_request request = Ok br /\ bk_cache_path (build_keys env' request br) = Some path /\
    (en_fails env' FsRead path = false ->
     exists key hit, compile_application env' request st2 = (Ok hit, st2) /\
       observed hit key "hit" "previously_published" "exact_source_snapshot" /\
       pointer_str ["cache"; "key"] response = Some key /\
       forall field rest, field <> "cache" -> pointer (field :: rest) hit = pointer (field :: rest) response) /\
    (en_fails env' FsRead path = true -> exact_hit env' br (build_keys env' request br) (store_of st2) = None).
Proof.
  intros Htool Hc Hstored Hsame Hfiles.
  assert (exists br, admit_request request = Ok br) as (br & Ha).
  { destruct (refused_answer env request st response st' Hc) as [|(Ha & _)]; [done|]. apply refusal_shape in Ha as (status & code & message & -> & _).
    destruct (error_contract_fields (match request_contract request with Some rc => rc_contract rc | None => CONTRACT_V1 end) status code message)
      as (_ & _ & Hno & _). unfold pointer_str in Hstored. cbn [pointer] in Hstored. by rewrite Hno in Hstored. }
  destruct (stored_response env request st response st' br Htool Ha Hc Hstored) as (path & base & Hpath & Hread & Hobj & Hframe).
  pose proof (same_producer_keys env env' request br Hsame) as Hkeys. destruct Hsame as (_ & Ht & _).
  destruct (admitted_answers env request st br response st' Ha Hc) as (_ & _ & _ & _ & (_ & Hkey & _) & _).
  exists br, path. split; [done|]. split; [by rewrite Hkeys|]. specialize (Hread (en_fails env')). split; intros Hfails; rewrite Hfails in Hread.
  - exists (bk_cache_key (build_keys env request br)). eexists. split_and!.
    + apply (exact_hit_ends env' request br st2 base path); [done|by rewrite Hkeys|]. by rewrite Hkeys, Ht, Hfiles.
    + rewrite Hkeys. by apply observed_cache.
    + done.
    + intros field rest Hf. rewrite annotate_frame by done. symmetry. by apply Hframe.
  - unfold exact_hit. rewrite Hkeys, Hpath, Ht, Hfiles. cbn [mbind option_bind]. by rewrite Hread.
Qed.

(** ** Reuse of a candidate *)

(** The callables of a candidate have today's interfaces. *)
Definition interfaces_current (rc : RequestContract) (candidate : Value) (v : VerifiedBuild) : Prop :=
  if rc_multiple_callables rc then cached_callable_interfaces_match candidate (vb_roots v) (vb_interfaces v) = true
  else exists interface, vb_entry_interface v = Some interface /\ is_Some (get_str "identity" interface) /\
    pointer_str ["entry"; "interface"; "identity"] candidate = get_str "identity" interface.

(** C15: an artifact is reused for other sources only when what it was built from
    is the same.  When a response says that it reuses an executable closure,
    the frontend has accepted the current sources, and the cache holds, under
    the key the response says it was reused from, a verified entry of the same contract, compiler
    and toolchain whose executable-closure identity, module interface identity
    and callable interfaces are the current program's; the response carries
    that entry's artifact unchanged, under the current snapshot, with the
    current diagnostics. *)
Theorem candidate_reuse_sound env request st response st' :
  compile_application env request st = (Ok response, st') ->
  pointer_str ["cache"; "reuse_basis"] response = Some "verified_application_executable_closure" ->
  exists br c run program v st1 path, verified env request st br (Some c) run program v st1 /\
    pointer_str ["cache"; "reused_from_key"] response = Some (cd_key c) /\
    application_cache_path (en_variables env) (cd_key c) = Some path /\
    read_application_cache_with_facts (en_fails env) (store_of st) path (cd_key c) (rc_contract (br_contract br)) None
      (bk_probe_identity (build_keys env request br)) (en_toolchain env) = Some (cd_cached c) /\
    is_Some (vb_closure_identity v) /\
    pointer_str ["dependency_graph"; "application_executable_closure_identity"] (ca_response (cd_cached c)) = vb_closure_identity v /\
    pointer_str ["artifact"; "value"; "source"; "interface_identity"] (ca_response (cd_cached c)) =
      Some (language_owned_interface_identity program) /\
    interfaces_current (br_contract br) (ca_response (cd_cached c)) v /\
    get "artifact" response = get "artifact" (ca_response (cd_cached c)) /\
    pointer_str ["source_snapshot"; "identity"] response = Some (bk_source_identity (build_keys env request br)) /\
    get "diagnostics" response = Some (default (Array []) (fe_diagnostics (rn_result run))).
Proof.
  intros Hends%compile_ends Hbasis.
  assert (Hno : forall r contract key statuses cache pub basis, answers contract key statuses cache pub basis r ->
    pointer_str ["cache"; "reuse_basis"] r = Some "verified_application_executable_closure" ->
    basis = "verified_application_executable_closure").
  { intros r contract key statuses cache pub basis ((_ & _ & _ & _ & Hb) & _). congruence. }
  destruct Hends as [response Ha|br response Ha Hhit|br candidate run st' (Ha & _)|br candidate run program response st' (Ha & _) _ _ Hsel
    |br candidate run program v st1 c rebound response st' Hv Hre Hrun
    |br candidate run program v obligation artifacts st' ((Ha & _) & _)
    |br candidate run program v emission artifacts st1 response st' Hv _ He Hf].
  - apply refusal_shape in Ha as (status & code & message & -> & _).
    destruct (error_contract_fields (match request_contract request with Some rc => rc_contract rc | None => CONTRACT_V1 end) status code message)
      as (_ & _ & Hn & _). unfold pointer_str in Hbasis. cbn [pointer] in Hbasis. by rewrite Hn in Hbasis.
  - apply hit_answers in Hhit as (basis & Hin & Hans). apply Hno in Hans; [|done]. subst. set_solver.
  - by eapply (Hno _ _ _ _ _ _ _ (rejected_answers _ _ _ _)) in Hbasis.
  - unfold selection_step in Hsel. destruct (br_selection br) as [selection|]; [|done].
    destruct (select_test_cases _ _ _ _ _ _) as [s|fault|e] eqn:Es; [done| |done]. injection Hsel as <-.
    by eapply (Hno _ _ _ _ _ _ _ (unselected_answers _ _ _ _ _ _ _ _ _ (select_fault_status _ _ _ _ _ _ _ Es))) in Hbasis.
  - pose proof Hv as ((Ha & Hcand & _) & _).
    destruct (reuse_inv env request br run c rebound st1 response st' Hrun) as (pub & -> & _).
    apply rebound_inv in Hre as (semantic & closure & interface & -> & _ & Hclosure & Hint & _ & Hst & Hcl & _ & Hsel & Hiface & Hre).
    destruct (candidate_read _ _ _ _ _ Hcand) as (path & Hpath & Hread).
    exists br, c, run, program, v, st1, path. rewrite Hclosure. split_and!; try done.
    + apply reused_key, (get_str_object "status" rebound "verified"). rewrite <- Hst. apply frame_get_str. intros rest.
      eapply rebind_frame; [exact Hre|]. apply (bool_decide_unpack _); vm_compute; exact Logic.I.
    + unfold interfaces_current. unfold selected_interfaces_match in Hsel. cbn [bf_contract build_facts] in Hsel.
      destruct (rc_multiple_callables (br_contract br)); [done|]. cbv zeta in Hsel.
      apply andb_true_iff in Hsel as [Hs1%bool_decide_eq_true Hs2%bool_decide_eq_true]. by exists interface.
    + transitivity (get "artifact" rebound); [apply frame_get; intros rest; by apply reused_frame|].
      apply frame_get. intros rest. eapply rebind_frame; [exact Hre|]. apply (bool_decide_unpack _); vm_compute; exact Logic.I.
    + unfold pointer_str. rewrite reused_frame by done. rewrite (proj1 (rebind_snapshot _ _ _ _ _ _ _ _ _ _ _ _ Hre [])).
      destruct (build_identities env request br (rn_result run)) as (_ & Hsource & _). exact (f_equal Some Hsource).
    + transitivity (get "diagnostics" rebound); [apply frame_get; intros rest; by apply reused_frame|].
      pose proof (rebind_late _ _ _ _ _ _ _ _ _ _ _ _ Hre []) as (Hd & _). by rewrite !pointer_get in Hd.
  - by eapply (Hno _ _ _ _ _ _ _ (emission_failed_answers _ _ _)) in Hbasis.
  - destruct (finish_inv env request br run v emission artifacts st1 response st' Hf)
      as (artifact & missing & bindings & work & cache & pub & -> & -> & Hp).
    assert (cache <> "hit") as Hmiss by by destruct Hp as [(? & _ & _ & -> & _)|(_ & _ & [[= -> ->]|[= -> ->]])].
    by eapply (Hno _ _ _ _ _ _ _ (finished_answers _ _ _ _ _ _ _ cache _ Hmiss)) in Hbasis.
Qed.

(** ** Panics *)

Lemma publish_no_panic env request br path run base facts artifacts st message st' :
  let keys := build_keys env request br in bk_cache_path keys = Some path ->
  publish_build env br keys path run base facts artifacts st <> (Panic message, st').
Proof.
  intros keys Hpath Hp. by apply (publish_build_spec env request br) in Hp as (_ & _ & _ & _ & _ & [[=]|[[=] _]]).
Qed.

(** C17: when a build panics.  No request, no content of the cache and no failure
    of a system call makes the builder panic: it does so only when the frontend
    calls a program valid and returns none, or when the emission of a verified
    program panics; and then nothing was written. *)
Theorem build_panics_only env request st message st' :
  compile_application env request st = (Panic message, st') ->
  ws_disk st' = ws_disk st /\
  ((exists br candidate run, reached env request st br candidate run st' /\ fe_is_valid (rn_result run) = true /\
      fe_program (rn_result run) = None /\ message = "valid frontend results contain a semantic program") \/
   (exists br candidate run program v artifacts, verified env request st br candidate run program v st' /\
      rebound_candidate (build_facts env br (build_keys env request br) (rn_result run)) candidate program v = None /\
      emit_build br (build_keys env request br) candidate program v = (Panic message, artifacts))).
Proof.
  unfold compile_application.
  destruct ((br ← settle (admit_request request); build_application env request br) st) as [o st1] eqn:Ho.
  intros Heq. assert (o = Panic message /\ st1 = st') as [-> ->] by (destruct o; [done|done|by injection Heq as -> ->]). clear Heq.
  apply build_bind_inv in Ho as [(br & st1 & Ha & Ho)|[(r & _ & ?)|(e & Ha & _)]]; [|done|].
  2: { unfold settle in Ha. injection Ha as Ha _. by apply admit_no_panic in Ha. }
  injection Ha as Ha <-. unfold build_application in Ho. cbv zeta in Ho.
  apply build_bind_inv in Ho as [(candidate & st1 & Hc & Ho)|[(r & _ & ?)|(e & Hc & _)]]; [|done|].
  2: { unfold look, reuse_before_frontend, find_candidate in Hc. injection Hc as Hc _. by repeat case_match. }
  injection Hc as Hc <-. destruct (run_front_end_ok br candidate st) as (run & st1 & Hrun & Hfiles).
  apply build_bind_inv in Ho as [(run' & st2 & Hrun' & Ho)|[(r & _ & ?)|(e & Hr & _)]]; [|done|congruence].
  rewrite Hrun in Hrun'. injection Hrun' as <- <-.
  assert (reached env request st br candidate run st1) as Hreached by done.
  destruct (fe_is_valid (rn_result run)) eqn:Hvalid; cbn [negb] in Ho; [|done].
  unfold build_program in Ho. cbv zeta in Ho.
  apply build_bind_inv in Ho as [(program & st2 & Hp & Ho)|[(r & _ & ?)|(e & Hr & Hm)]]; [|done|].
  2: { injection Hr as Hr <-. injection Hm as <-. split; [by destruct Hfiles|]. left. exists br, candidate, run.
    destruct (fe_program (rn_result run)); [done|]. by injection Hr as <-. }
  unfold settle in Hp. injection Hp as Hp <-. destruct (fe_program (rn_result run)) as [p|] eqn:Hprogram; [|done].
  injection Hp as ->.
  apply build_bind_inv in Ho as [(selected & st2 & Hs & Ho)|[(r & _ & ?)|(e & Hs & _)]]; [|done|].
  2: { unfold settle, selection_step in Hs. injection Hs as Hs _. destruct (br_selection br); [|done].
    destruct (select_test_cases _ _ _ _ _ _) eqn:Es; [done|done|]. by apply select_no_panic in Es. }
  injection Hs as Hs <-. set (v := verified_build br request program (rn_result run) selected) in *.
  assert (verified env request st br candidate run program v st1) as Hv by (split_and!; eauto).
  destruct (rebound_candidate _ candidate program v) as [[c rebound]|] eqn:Hre.
  { exfalso. unfold reuse_artifact in Ho. apply build_bind_inv in Ho as [(pub & st2 & _ & ?)|[(r & _ & ?)|(e & Hp & _)]]; [done|done|].
    destruct (bk_cache_path _) as [path|] eqn:Hpath; [|done]. by apply (publish_no_panic env request br) in Hp. }
  destruct (emit_build _ _ candidate program v) as [[emission|obligation|e] artifacts] eqn:He; [|done|].
  - exfalso. destruct emission as [[[artifact missing] bindings] work]. unfold finish_build in Ho. cbv zeta in Ho.
    apply build_bind_inv in Ho as [([cache pub] & st2 & _ & ?)|[(r & _ & ?)|(e & Hp & _)]]; [done|done|].
    destruct (bk_cache_path _) as [path|] eqn:Hpath; [|done]. destruct (String.eqb _ _); [|done].
    apply build_bind_inv in Hp as [(pub & st2 & _ & ?)|[(r & _ & ?)|(e' & Hp & _)]]; [done|done|].
    by apply (publish_no_panic env request br) in Hp.
  - injection Ho as -> <-. split; [by destruct Hfiles|]. right. exists br, candidate, run, program, v, artifacts.
    split; [exact Hv|]. by split.
Qed.
End Responses.
