(* ===== verification/AppFlowSamples.v ===== *)
(** A concrete builder: instances of every interface of the build flow, and the
    builds that its theorems are applied at. *)

From Stdlib Require Import Ascii String.
From S2P Require Import Prelude Codec VmReference EmissionTheorems AppProgramTheorems AppCacheTheorems.
From S2P Require Export AppFlowTheorems.

Local Open Scope string_scope.
Local Open Scope list_scope.

(** ** The instances *)

#[local] Instance build_model : ModelCrate := {|
  sha256_hex := length_digest;
  function_id := @function_id reference_crate;
  transformation_new := @transformation_new reference_crate;
  OBLIGATION_SCHEMA_VERSION := "1";
  identity_is_valid := fun _ => true;
  fingerprint := fun _ => Ok "fingerprint"
|}.

#[local] Existing Instances sample_fact_crate sample_entry_crate serde_Z colliding EmissionTheorems.reference_toolchain.

#[local] Instance build_work : WorkCrate := {|
  WORK_FACT_SCHEMA := "f"; WORK_FACT_VERIFIER := "v"; WORK_FACT_POLICY := "p";
  DECLARATION_FACT_SCHEMA_VERSION := "d"; RECORD_TYPE_FACT_VERIFIER_ID := "rv"; RECORD_TYPE_FACT_POLICY_ID := "rp";
  SSA_FUNCTION_VERIFICATION_FACT_SCHEMA_VERSION := "sf"; SSA_FUNCTION_VERIFICATION_FACT_VERIFIER_ID := "sv";
  SSA_FUNCTION_VERIFICATION_FACT_POLICY_ID := "sp"; SSA_FUNCTION_VERIFICATION_LANGUAGE_PROFILE := "sl";
  SSA_FUNCTION_ARTIFACT_CACHE_SCHEMA_VERSION := "ac"; SSA_FUNCTION_ARTIFACT_CACHE_OBSERVATION_SCHEMA_VERSION := "ao";
  SSA_FUNCTION_LOWERER_IDENTITY := "l"; SSA_FUNCTION_LOWERING_POLICY_IDENTITY := "lp";
  SOURCE_PARSE_CACHE_SCHEMA_VERSION := "pc"; SOURCE_PARSE_CACHE_OBSERVATION_SCHEMA_VERSION := "po";
  SOURCE_PARSE_POLICY_IDENTITY := "pp"; VERIFICATION_DEPENDENCY_SUMMARY_CACHE_SCHEMA_VERSION := "dc";
  VERIFICATION_DEPENDENCY_SUMMARY_OBSERVATION_SCHEMA_VERSION := "do";
  VERIFICATION_DEPENDENCY_SUMMARY_POLICY_IDENTITY := "dp"; MODULE_ELABORATION_CACHE_SCHEMA_VERSION := "mc";
  MODULE_ELABORATION_CACHE_OBSERVATION_SCHEMA_VERSION := "mo"; MODULE_ELABORATION_POLICY_IDENTITY := "mp"
|}.

#[local] Instance build_program_facts : ProgramFacts := {|
  module_id := fun module => "module:" +:+ module;
  body_type_of := fun _ ty => TyRecord ty ty;
  SemanticIdentities := list (string * string);
  identity_fingerprint := fun ids id => AppRequest.assoc id ids;
  specialization_value := fun row => Some (Str (gs_canonical_args row));
  assumptions_value := Str
|}.

#[local] Instance build_interfaces : InterfaceCrate := {|
  typed_values_value := fun l => strings (map tv_type l);
  contracts_value := fun _ => Null; effects_value := fun _ => Null;
  capabilities_value := fun _ => Null; failure_value := fun _ => Null;
  record_value := fun r => Str (rd_identity r); finite_value := fun r => Str (fd_identity r)
|}.

#[local] Instance build_artifacts : ArtifactCrate := {|
  number_value := fun _ => count 0; test_binding_value := fun _ => Null; target_contract_value := Str
|}.

(** The frontend accepts every source as one program, of which it knows the
    fingerprints of all declarations. *)
Definition build_front_end (program : option Program) : SourceFrontEndResult := {|
  fe_is_valid := true;
  fe_program := program;
  fe_identities := Some [("app::main", "f1"); ("app::unused", "f2"); ("lib::id", "f3"); ("lib::id_i32", "f4"); ("lib::inner", "f5")];
  fe_module_resolutions := []; fe_resolutions_value := Some (Array []);
  fe_artifacts := [mkRef "Semantic" "s" "fingerprint"];
  fe_test_inventory := None; fe_diagnostics := Some (Array []);
  fe_facts := []; fe_fact_reuse := None; fe_declaration_facts := []; fe_declaration_reuse := None;
  fe_finite_type_facts := []; fe_finite_type_reuse := None; fe_record_type_facts := []; fe_record_type_reuse := None;
  fe_source_parse_cache_reuse := None; fe_dependency_summary_cache_reuse := None; fe_module_elaboration_cache_reuse := None
|}.

Definition build_crate_of (program : option Program) : BuildCrate := let result := build_front_end program in {|
  SourceEnvelope := string; inline_program := fun _ source => source;
  DependencySummaryCache := unit;
  front_end_with_verified_facts := fun _ _ _ _ => result;
  front_end_with_verified_facts_and_source_parse_cache := fun _ _ _ _ parse => (result, parse);
  front_end_with_verified_facts_and_dependency_summary_cache := fun _ _ _ _ summaries => (result, summaries);
  front_end_with_verified_facts_and_caches := fun _ _ _ _ parse summaries => (result, parse, summaries);
  front_end_with_verified_facts_and_caches_and_module_elaboration_cache :=
    fun _ _ _ _ parse summaries elaborations => (result, parse, summaries, elaborations);
  compile_with_ssa_facts_and_artifact_cache := fun p facts cache =>
    let '(result, work) := @compile_with_ssa_facts _ EmissionTheorems.reference_toolchain p facts in (result, work, cache);
  work_reuse := fun _ => (mkReuse [] [] None, mkReuse [] [] None, None)
|}.

#[local] Instance build_crate : BuildCrate := build_crate_of (Some sample_program).

(** ** The builds *)

Definition build_request (source : string) : Value := object [
  ("schema_version", Str REQUEST_V1); ("target", Str VM_TARGET);
  ("root_source_id", Str "app"); ("root_source", Str source);
  ("entry", object [("module", Str "app"); ("function", Str "main")]);
  ("modules", object [])].

(** The cache is configured; every system call behaves, and the clock stands. *)
Definition build_env (pid : Z) : BuildEnv := {|
  en_variables := fun name => if String.eqb name "MNCS_PROBE_CACHE_DIR" then Some "/cache" else None;
  en_toolchain := Some (mkToolchain "t/1" "r" "p" "r" "t" "c" "i" "l" "0.18" None None None "h" "b" "rustc");
  en_executable := Some "/bin/probe"; en_executable_sha256 := Some "sha256:probe";
  en_fails := fun _ _ => false; en_partial := fun s => s; en_pid := pid; en_clock := fun _ => 100%Z
|}.

Definition build_start : BuildState := mkBuildState (mkDisk ∅ []) tt 0.
Definition first_build : Outcome string Value * BuildState :=
  compile_application (build_env 7) (build_request "fn main") build_start.
Definition response_of (run : Outcome string Value * BuildState) : Value := match run.1 with Ok r => r | _ => Null end.

Definition second_build : Outcome string Value * BuildState :=
  compile_application (build_env 8) (build_request "fn main // edited") first_build.2.

Lemma first_built : first_build = (Ok (response_of first_build), first_build.2).
Proof.
  assert (is_ok first_build.1 = true) as Hok by (vm_compute; reflexivity).
  unfold response_of. by destruct first_build as [[r|r|m] st].
Qed.
Lemma second_built : second_build = (Ok (response_of second_build), second_build.2).
Proof.
  assert (is_ok second_build.1 = true) as Hok by (vm_compute; reflexivity).
  unfold response_of. by destruct second_build as [[r|r|m] st].
Qed.
Lemma first_stored : pointer_str ["cache"; "publication"] (response_of first_build) = Some "stored".
Proof. vm_compute. reflexivity. Qed.
Lemma second_reused :
  pointer_str ["cache"; "reuse_basis"] (response_of second_build) = Some "verified_application_executable_closure".
Proof. vm_compute. reflexivity. Qed.

Lemma response_typed_witness : is_object (response_of first_build) /\ get_str "schema_version" (response_of first_build) = Some CONTRACT_V1.
Proof.
  destruct (response_typed (build_env 7) (build_request "fn main") build_start (response_of first_build) first_build.2 first_built)
    as (Ho & Hs & _). split; [exact Ho|exact Hs].
Defined.

(** The first build wrote below the cache root. *)
Lemma only_verified_published_witness : get_str "status" (response_of first_build) = Some "verified".
Proof.
  destruct (only_verified_published (build_env 7) (build_request "fn main") build_start (response_of first_build) first_build.2 first_built)
    as [Hsame|[Hst _]]; [|exact Hst]. exfalso.
  apply (f_equal (fun disk => Nat.eqb (List.length (disk_seen disk)) 0)) in Hsame. vm_compute in Hsame. discriminate Hsame.
Defined.

(** Another process finds the first build. *)
Lemma published_build_hits_witness :
  exists hit, compile_application (build_env 9) (build_request "fn main") first_build.2 = (Ok hit, first_build.2) /\
    get "artifact" hit = get "artifact" (response_of first_build).
Proof.
  assert (forall t : ToolchainIdentity, is_Some (toolchain_value t)) as known by (intros t; by eexists).
  destruct (published_build_hits (build_env 7) (build_env 9) (build_request "fn main") build_start (response_of first_build)
    first_build.2 first_build.2 known first_built first_stored) as (br & path & _ & _ & Hhit & _);
    [by split_and!|reflexivity|]. destruct (Hhit eq_refl) as (key & hit & Hc & _ & _ & Hframe).
  exists hit. split; [exact Hc|]. rewrite <- !pointer_get. by apply Hframe.
Defined.

(** An edited comment: the frontend runs again, and the artifact is reused. *)
Lemma candidate_reuse_sound_witness :
  exists c : Candidate, pointer_str ["cache"; "reused_from_key"] (response_of second_build) = Some (cd_key c) /\
    get "artifact" (response_of second_build) = get "artifact" (ca_response (cd_cached c)).
Proof.
  destruct (candidate_reuse_sound (build_env 8) (build_request "fn main // edited") first_build.2 (response_of second_build)
    second_build.2 second_built second_reused) as (br & c & run & program & v & st1 & path & _ & Hkey & _ & _ & _ & _ & _ & _ & Ha & _).
  exists c. split; [exact Hkey|exact Ha].
Defined.

(** The artifact of a sample emission provides its callables. *)
Definition status_facts (toolchain : option ToolchainIdentity) : BuildFacts :=
  mkFacts (mkContract CONTRACT_V1 false false false false false false false false false) toolchain "sha256:probe" Null "s" [] "key"
    (Array []) 1 (Some 5) None (language_work (build_front_end None) None).
Definition status_build : VerifiedBuild :=
  mkVerified [] [] [("app", "main")] ("app", "main") [Some (object [("status", Str "verified")])] None None "g" Null None.

Definition status_toolchain : ToolchainIdentity := mkToolchain "t/1" "r" "p" "r" "t" "c" "i" "l" "0.18" None None None "h" "b" "rustc".
Definition status_artifact : VmArtifact := em_artifact EmissionTheorems.emission_result.
Definition status_response (toolchain : option ToolchainIdentity) : Value :=
  artifact_response (build_request "fn main") (status_facts toolchain) status_build (artifact_value status_artifact) [] [].

Lemma status_complete : complete status_artifact status_build.
Proof.
  split; [vm_compute; reflexivity|]. intros root ->%list_elem_of_singleton. left.
  assert (match va_callables status_artifact with entry :: _ => (ce_module entry, ce_name entry) | [] => ("", "") end = ("app", "main"))
    as He by (vm_compute; reflexivity).
  destruct (va_callables status_artifact) as [|entry rest]; [discriminate He|]. exists entry. split; [left|exact He].
Qed.

(** Without the identity of the toolchain the same build is unknown. *)
Lemma build_status_exact_witness :
  get_str "status" (status_response (Some status_toolchain)) = Some "verified" /\ get_str "status" (status_response None) = Some "unknown".
Proof.
  destruct (build_status_exact (build_request "fn main") (status_facts (Some status_toolchain)) status_build status_artifact [] [] eq_refl)
    as (_ & _ & Hv & _).
  destruct (build_status_exact (build_request "fn main") (status_facts None) status_build status_artifact [] [] eq_refl)
    as (_ & Hu & _).
  split.
  - apply (proj2 Hv). split; [exact status_complete|]. split; [discriminate|]. split; [discriminate|].
    constructor; [reflexivity|constructor].
  - apply (proj2 Hu). split; [exact status_complete|]. intros [Hn _]. by apply Hn.
Defined.

(** A frontend that calls a source valid and returns no program. *)
#[local] Instance broken_crate : BuildCrate := build_crate_of None.
Definition failed_build : Outcome string Value * BuildState :=
  compile_application (build_env 7) (build_request "fn main") (mkBuildState (mkDisk ∅ []) tt 0).

Lemma failed_built : failed_build = (Panic "valid frontend results contain a semantic program", failed_build.2).
Proof.
  assert (match failed_build.1 with Panic m => m | _ => "" end = "valid frontend results contain a semantic program") as Hm
    by (vm_compute; reflexivity).
  by destruct failed_build as [[r|r|m] st]; [..|rewrite <- Hm].
Qed.
Lemma build_panics_only_witness : ws_disk failed_build.2 = mkDisk ∅ [].
Proof.
  exact (proj1 (build_panics_only (build_env 7) (build_request "fn main") (mkBuildState (mkDisk ∅ []) tt 0)
    "valid frontend results contain a semantic program" failed_build.2 failed_built)).
Defined.
