(* ===== verification/RunnerText.v ===== *)
(** What the native VM runner uses of Rust's standard library on bytes: UTF-8
    decoding with its error, and paths as sequences of components. *)

From Stdlib Require Import Ascii String.
From S2P Require Export Text.

Local Open Scope string_scope.
Local Open Scope list_scope.

(** ** Messages *)

(** A formatted message: literal text, and strings printed with [{:?}]. *)
Inductive Fragment : Type := Lit (s : string) | Debug (s : string).
Definition Message : Type := list Fragment.
Definition fail {A} (s : string) : Outcome Message A := Err [Lit s].

(** ** [String::from_utf8] *)

Definition byte_value (a : ascii) : Z := Z.of_nat (nat_of_ascii a).
Definition byte_in (lo hi : Z) (a : ascii) : bool := (lo <=? byte_value a)%Z && (byte_value a <=? hi)%Z.
Definition continuation : ascii -> bool := byte_in 128 191.

(** The length of the sequence a first byte opens, and the range of its second
    byte; [None] where no sequence can start. *)
Definition utf8_first (a : ascii) : option (nat * (ascii -> bool)) :=
  if byte_in 0 127 a then Some (1, continuation)
  else if byte_in 194 223 a then Some (2, continuation)
  else if byte_in 224 224 a then Some (3, byte_in 160 191)
  else if byte_in 225 236 a then Some (3, continuation)
  else if byte_in 237 237 a then Some (3, byte_in 128 159)
  else if byte_in 238 239 a then Some (3, continuation)
  else if byte_in 240 240 a then Some (4, byte_in 144 191)
  else if byte_in 241 243 a then Some (4, continuation)
  else if byte_in 244 244 a then Some (4, byte_in 128 143)
  else None.

(** [Utf8Error]: where the valid prefix ends, and how many bytes are wrong;
    [None] when the text stops inside a sequence. *)
Record Utf8Error : Type := mkUtf8Error { valid_up_to : nat; error_len : option nat }.

(** The bytes after the first: [inl n] when the n-th of them is wrong or [inr]
    the rest of the text; [None] when there are too few. *)
Fixpoint utf8_tail (second : ascii -> bool) (missing seen : nat) (l : list ascii) : option (nat + list ascii) :=
  match missing with
  | O => Some (inr l)
  | S missing =>
      match l with
      | [] => None
      | a :: l => if second a then utf8_tail continuation missing (S seen) l else Some (inl seen)
      end
  end.

Fixpoint utf8_check (fuel index : nat) (l : list ascii) : option Utf8Error :=
  match fuel, l with
  | S fuel, a :: rest =>
      match utf8_first a with
      | None => Some (mkUtf8Error index (Some 1))
      | Some (length, second) =>
          match utf8_tail second (length - 1) 1 rest with
          | None => Some (mkUtf8Error index None)
          | Some (inl wrong) => Some (mkUtf8Error index (Some wrong))
          | Some (inr rest) => utf8_check fuel (index + length) rest
          end
      end
  | _, _ => None
  end.

Definition utf8_message (e : Utf8Error) : string :=
  match error_len e with
  | Some length => "invalid utf-8 sequence of " +:+ pretty length +:+ " bytes from index " +:+ pretty (valid_up_to e)
  | None => "incomplete utf-8 byte sequence from index " +:+ pretty (valid_up_to e)
  end.

Definition from_utf8 (bytes : list ascii) : Outcome Message string :=
  match utf8_check (List.length bytes) 0 bytes with
  | None => Ok (string_of_list_ascii bytes)
  | Some e => fail (utf8_message e)
  end.

Example utf8_example :
  from_utf8 (list_ascii_of_string (Text.bytes [97; 195; 169; 240; 159; 152; 128])) =
    Ok (Text.bytes [97; 195; 169; 240; 159; 152; 128]) /\
  utf8_check 3 0 (list_ascii_of_string (Text.bytes [97; 237; 160])) = Some (mkUtf8Error 1 (Some 1)) /\
  utf8_check 3 0 (list_ascii_of_string (Text.bytes [97; 226; 130])) = Some (mkUtf8Error 1 None).
Proof. split_and!; reflexivity. Qed.

(** ** [PathBuf] *)

(** A path as [Path::components] lists it on Unix, which is what [==] compares:
    repeated and trailing separators and [.] disappear, a leading [.] of a
    relative path excepted. *)
Record FilePath : Type := mkPath { fp_root : bool; fp_components : list string }.
#[export] Instance FilePath_eq_dec : EqDecision FilePath.
Proof. solve_decision. Defined.
#[export] Instance FilePath_countable : Countable FilePath.
Proof.
  refine (inj_countable' (fun p => (fp_root p, fp_components p)) (fun p => mkPath p.1 p.2) _). by intros [].
Defined.

Definition is_absolute (path : string) : bool := bool_decide (is_Some (strip_prefix "/" path)).
Definition skipped (piece : string) : bool := String.eqb piece "" || String.eqb piece ".".
Definition components (path : string) : FilePath :=
  let pieces := split_on "/" path in
  let kept := List.filter (fun piece => negb (skipped piece)) in
  if is_absolute path then mkPath true (kept pieces)
  else match pieces with
       | first :: rest => mkPath false (if String.eqb first "." then "." :: kept rest else kept pieces)
       | [] => mkPath false []
       end.

Example components_example :
  components "/tmp//a/./b/" = components "/tmp/a/b" /\ components "./a" <> components "a" /\ components "/a" <> components "a".
Proof. split_and!; vm_compute; congruence. Qed.

(** ** Files *)

Abbreviation Files := (gmap FilePath string).

(** How the operating system answers: reads and writes that fail, with what a
    failed write leaves, and the paths that are directories. *)
Record Io : Type := mkIo {
  io_read_error : FilePath -> option string; io_missing : string;
  io_write_error : FilePath -> option (string * option string);
  io_directory : FilePath -> bool
}.

(** A step of the runner: it may fail, and leaves files. *)
Definition Run (A : Type) : Type := Files -> Outcome Message A * Files.
#[export] Instance run_ret : MRet Run := fun A a files => (Ok a, files).
#[export] Instance run_bind : MBind Run := fun A B f m files =>
  match m files with
  | (Ok a, files) => f a files
  | (Err e, files) => (Err e, files)
  | (Panic message, files) => (Panic message, files)
  end.
Definition outcome {A} (o : Outcome Message A) : Run A := fun files => (o, files).

Section Io.
Context (io : Io).

Definition read_file (path : string) : Run string := fun files =>
  (match io_read_error io (components path) with
   | Some e => fail e
   | None => match files !! components path with Some text => Ok text | None => fail (io_missing io) end
   end, files).

Definition write_file (path text : string) : Run unit := fun files =>
  match io_write_error io (components path) with
  | None => (Ok tt, <[components path := text]> files)
  | Some (e, partial) => (fail e, match partial with Some text => <[components path := text]> files | None => files end)
  end.

(** [Path::exists]. *)
Definition path_exists (path : string) (files : Files) : bool :=
  bool_decide (is_Some (files !! components path)) || io_directory io (components path).
End Io.

(** [map_err(|e| format!("{what}: {e}"))]. *)
Definition context {A} (what : string) (m : Run A) : Run A := fun files =>
  match m files with
  | (Err e, files) => (Err (Lit (what +:+ ": ") :: e), files)
  | other => other
  end.
