(* ===== verification/Runner.v ===== *)
(** The native application VM runner: [tools/native_app_vm_runner.rs].
    Definitions only.

    The VM, the wire format and [serde_json] are members of [RunnerCrate]; a
    call of the VM session is the tree of the effects it performs. *)

From Stdlib Require Import Ascii String.
From S2P Require Export Ssa RunnerText AppKeys Json.

Local Open Scope string_scope.
Local Open Scope list_scope.

(** ** Values of the VM *)

(** [mncs_vm::value::Value], every variant the runner matches on; [rest] is
    what it leaves out with [..]. *)
Inductive VmValue : Type :=
  | VRecord (type_id name : string) (fields : list (string * VmValue))
  | VFinite (type_id variant_id : string) (payload : list VmValue) (rest : string)
  | VSequence (elements : list VmValue)
  | VInteger (value bits : Z) (signed : bool)
  | VBoolean (b : bool)
  | VByte (b : ascii)
  | VFloatBits (bits : Z)
  | VVector (rest : string)
  | VMask (rest : string).

Record EffectRequest : Type := mkEffect { er_capability : string; er_operation : string; er_inputs : list VmValue }.
Record EffectResponse : Type := mkResponse { ef_provider : string; ef_outputs : list VmValue; ef_note : string }.
(** [Outcome::ProviderFailure]. *)
Record ProviderFailure : Type := mkFailure { pf_provider : string; pf_detail : Message }.

(** A call of a session: it performs an effect through a bound capability and
    goes on with the provider's answer -- [None] when nothing is bound -- until
    it has an outcome. *)
Inductive VmRun (Session : Type) : Type :=
  | Finished (session : Session) (outcome record : Value) (returned : list VmValue)
  | Perform (capability : string) (request : EffectRequest)
      (resume : option (EffectResponse + ProviderFailure) -> VmRun Session).
Arguments Finished {_}. Arguments Perform {_}.

(** What the runner reads of an admitted artifact. *)
Record AdmittedArtifact : Type := mkAdmitted {
  ad_artifact_id : string; ad_capabilities : list string; ad_ssa_module : option SsaModule; ad_rest : string
}.

Class RunnerCrate := {
  (** [serde_json] and the wire format *)
  ExecutionValue : Type;
  wire_from_slice : string -> Outcome Message ExecutionValue;
  wire_to_vec : ExecutionValue -> Outcome Message string;
  wire_value : ExecutionValue -> Value;
  from_wire : ExecutionValue -> VmValue;
  to_wire : VmValue -> ExecutionValue;
  json_from_slice : string -> Outcome Message Value;
  json_to_vec : Value -> Outcome Message string;
  (** the digits of a finite [f64] *)
  float_text : Z -> string;
  (** [mncs_model] *)
  MAX_SEQUENCE_BOUND : Z;
  FloatType_f64 : string;
  semantic_name : BodyType -> string;
  (** [mncs_vm] *)
  admit_owned : string -> Outcome Message AdmittedArtifact;
  Session : Type; CallSpec : Type;
  spec_from_slice : string -> Outcome Message CallSpec;
  open_session : AdmittedArtifact -> Session;
  call : Session -> list string -> CallSpec -> VmRun Session;
  (** the provider a capability environment answers with is one bound under
      that name *)
  resolve : forall {P : Type}, list (string * P) -> string -> option P;
  resolve_bound : forall P (caps : list (string * P)) name p, resolve caps name = Some p -> (name, p) ∈ caps
}.

Definition PROVIDER_ID : string := "mncs.compiler.test-structured-file-provider/1".
Definition INPUT_SCHEMA : string := "mncs.test-digest-request/1".
Definition PROVIDER_REQUEST_SCHEMA : string := "mncs.test-provider-request/1".
Definition OUTPUT_SCHEMA : string := "mncs.test-digest/1".
Definition PROVIDER_RESULT_SCHEMA : string := "mncs.test-provider-result/1".
Definition PROVIDER_CHECK_SCHEMA : string := "mncs.test-provider-check/1".

Record StructuredFileProvider : Type := mkProvider {
  sp_capability : string; sp_input_path : string; sp_output_path : string; sp_check_path : option string;
  sp_fail_write : bool; sp_allowed_operations : list string; sp_ssa_module : SsaModule
}.

Record DispatchBinding : Type := mkDispatch {
  db_authorized_identity : string; db_dispatch_alias : string; db_mapped_host_calls : nat;
  db_operations : list string; db_call_authority_identities : list string
}.

(** [map_err(|e| format!("{what}: {e}"))] of a result. *)
Definition context_of {A} (what : string) (o : Outcome Message A) : Outcome Message A :=
  match o with Err e => Err (Lit (what +:+ ": ") :: e) | _ => o end.

(** The last piece of [s.rsplit("::")]. *)
Definition last_segment (s : string) : string := match rsplit_once "::" s with Some (_, after) => after | None => s end.

(** Lower-case hexadecimal of a byte, and [u8::from_str_radix(.., 16)] of two
    characters. *)
Definition nibble (n : Z) : ascii := ascii_of_nat (Z.to_nat (if (n <? 10)%Z then 48 + n else 87 + n)%Z).
Definition hex_byte (a : ascii) : string :=
  String (nibble (Z.shiftr (byte_value a) 4)) (String (nibble (Z.land (byte_value a) 15)) "").
Definition hex_digit_value (a : ascii) : option Z :=
  if byte_in 48 57 a then Some (byte_value a - 48)%Z
  else if byte_in 97 102 a then Some (byte_value a - 87)%Z
  else if byte_in 65 70 a then Some (byte_value a - 55)%Z else None.
Definition from_hex_pair (a b : ascii) : option ascii :=
  low ← hex_digit_value b;
  match hex_digit_value a with
  | Some high => Some (ascii_of_nat (Z.to_nat (16 * high + low)))
  | None => if Ascii.eqb a "+"%char then Some (ascii_of_nat (Z.to_nat low)) else None
  end.
Fixpoint digest_bytes (n : nat) (hex : string) : Outcome Message (list ascii) :=
  match n, hex with
  | O, _ => Ok []
  | S n, String a (String b hex) =>
      byte ← expect "sha256_hex always returns lowercase hexadecimal" (from_hex_pair a b);
      rest ← digest_bytes n hex; Ok (byte :: rest)
  | S _, _ => Panic "byte index is out of bounds"
  end.

Section Runner.
Context `{ModelCrate, RunnerCrate}.

(** ** Values as bytes and as JSON *)

Definition byte_item (message : string) (item : VmValue) : Outcome Message ascii :=
  match item with VByte b => Ok b | _ => fail message end.

Definition value_bytes (value : VmValue) : Outcome Message (list ascii) :=
  match value with
  | VSequence elements => map_outcome (byte_item "sequence contains a non-byte value") elements
  | _ => fail "expected a byte sequence"
  end.

Fixpoint infer_value_type (module : SsaModule) (value : VmValue) : Outcome Message BodyType :=
  match value with
  | VRecord type_id name _ =>
      match List.find (fun record => String.eqb (r_identity record) type_id && String.eqb (r_name record) name)
              (m_record_types module) with
      | Some declaration => Ok (TyRecord (r_identity declaration) (r_name declaration))
      | None => fail ("structured digest has no SSA record declaration for " +:+ name)
      end
  | VFinite type_id _ _ _ => Ok (TyFinite type_id (last_segment type_id))
  | VSequence [] => fail "structured digest cannot infer the type of an empty top-level sequence"
  | VSequence (first :: _) =>
      element ← infer_value_type module first; Ok (TySequence element (UpTo MAX_SEQUENCE_BOUND))
  | VInteger _ bits signed =>
      if (1 <=? bits)%Z && (bits <=? 65535)%Z then Ok (TyInteger {| Ssa.bits := bits; Ssa.signed := signed |})
      else fail ("invalid structured integer width " +:+ pretty bits)
  | VBoolean _ => Ok TyBool
  | VByte _ => Ok TyByte
  | VFloatBits _ => Ok (TyFloat FloatType_f64)
  | VVector _ => fail "structured digest cannot infer an untyped top-level vector"
  | VMask _ => fail "structured digest cannot infer an untyped top-level mask"
  end.

(** [serde_json::Number::from_i128] and [from_f64]. *)
Definition number_from_i128 (value : Z) : option JsonNumber :=
  if (0 <=? value)%Z && (value <=? U64_MAX)%Z then Some (PosInt (Z.to_N value))
  else if (- 2 ^ 63 <=? value)%Z && (value <? 0)%Z then Some (NegInt value) else None.
Definition float_is_finite (bits : Z) : bool := negb (Z.land (Z.shiftr bits 52) 2047 =? 2047)%Z.
Definition number_from_f64 (bits : Z) : option JsonNumber :=
  if float_is_finite bits then Some (FloatNum (float_text bits)) else None.
Definition byte_number (b : ascii) : Value := Number (PosInt (Z.to_N (byte_value b))).

(** The bound of a sequence, against its length. *)
Definition check_bound (bound : SequenceBound) (length : Z) : Outcome Message unit :=
  match bound with
  | Exact expected =>
      if (length =? expected)%Z then Ok tt else fail "typed sequence does not match its exact bound"
  | UpTo maximum => if (length <=? maximum)%Z then Ok tt else fail "typed sequence exceeds its declared bound"
  | Param _ | UpToParam _ => fail "structured digest refuses unresolved sequence bounds"
  end.

(** A byte sequence: 32 bytes exactly are a digest, valid UTF-8 is text. *)
Definition external_bytes (bound : SequenceBound) (bytes : list ascii) : Value :=
  if bool_decide (bound = Exact 32) then Str (String.concat "" (map hex_byte bytes))
  else match from_utf8 bytes with Ok text => Str text | _ => Array (map byte_number bytes) end.

(** [depth > 64] is the end of the fuel of 65. *)
Fixpoint external_value (fuel : nat) (module : SsaModule) (expected : BodyType) (value : VmValue)
  : Outcome Message Value :=
  match fuel with
  | O => fail "structured digest input exceeds the nesting bound"
  | S fuel =>
      let mismatch := fail ("typed value does not satisfy " +:+ semantic_name expected) in
      match expected, value with
      | TyBool, VBoolean b => Ok (Bool b)
      | TyInteger ty, VInteger v bits signed =>
          if (Ssa.bits ty =? bits mod 65536)%Z && Bool.eqb (Ssa.signed ty) signed then
            Number <$> ok_or [Lit "typed integer cannot be represented as JSON"] (number_from_i128 v)
          else mismatch
      | TyFloat _, VFloatBits bits =>
          Number <$> ok_or [Lit "typed float is not a finite JSON number"] (number_from_f64 bits)
      | TyByte, VByte b => Ok (byte_number b)
      | TySequence element bound, VSequence elements =>
          _ ← check_bound bound (Z.of_nat (List.length elements));
          if bool_decide (element = TyByte) then
            bytes ← map_outcome (byte_item "typed byte sequence contains a non-byte value") elements;
            Ok (external_bytes bound bytes)
          else Array <$> map_outcome (external_value fuel module element) elements
      | TyRecord identity name, VRecord type_id value_name fields =>
          if negb (String.eqb identity type_id && String.eqb name value_name) then mismatch
          else
          declaration ← ok_or [Lit ("structured digest has no SSA record declaration for " +:+ name)]
            (List.find (fun record => String.eqb (r_identity record) identity) (m_record_types module));
          if negb (Nat.eqb (List.length fields) (List.length (r_fields declaration))) then
            fail ("typed record " +:+ name +:+ " does not match its declared fields")
          else
          Object <$> fold_outcome (fun object '(field_name, field_type) =>
            field ← ok_or [Lit ("typed record " +:+ name +:+ " is missing field " +:+ field_name)]
              (List.find (fun field => String.eqb field.1 field_name) fields);
            external ← external_value fuel module field_type field.2;
            Ok (bm_put field_name external object)) [] (r_fields declaration)
      | TyFinite identity _, VFinite type_id variant_id [] _ =>
          if String.eqb identity type_id then
            let variant := last_segment variant_id in
            if String.eqb variant "" then fail "typed finite variant has no external name" else Ok (Str variant)
          else mismatch
      | TyVector _ _, VVector _ | TyMask _, VMask _ =>
          fail "structured digest vector or mask projection is not implemented by this bounded provider"
      | TyNamed name, _ => Err [Lit "structured digest refuses unresolved type "; Debug name]
      | TyGenericParam name, _ => Err [Lit "structured digest refuses unspecialized type "; Debug name]
      | _, _ => mismatch
      end
  end.
Definition EXTERNAL_DEPTH : nat := 65.

(** ** The provider *)

Definition response (outputs : list VmValue) : EffectResponse :=
  mkResponse PROVIDER_ID outputs "bounded temporary structured file transport".
Definition status_value (status : Z) : VmValue := VInteger status 64 false.

(** A byte sequence of the request that is UTF-8 text. *)
Definition text_input (what : string) (value : VmValue) : Outcome Message string :=
  context_of what (bytes ← value_bytes value; from_utf8 bytes).

Section Provider.
Context (io : Io) (p : StructuredFileProvider).

Definition structured_read (inputs : list VmValue) : Run EffectResponse :=
  match inputs with
  | [path; schema] =>
      path ← outcome (text_input "bad read path" path);
      if negb (bool_decide (components path = components (sp_input_path p))) then
        outcome (fail "read path is outside the admitted fixture")
      else
      schema ← outcome (text_input "bad read schema" schema);
      if negb (String.eqb schema INPUT_SCHEMA) && negb (String.eqb schema PROVIDER_REQUEST_SCHEMA) then
        outcome (fail "unexpected structured read schema")
      else
      bytes ← context "read input" (read_file io (sp_input_path p));
      wire ← outcome (context_of "decode input" (wire_from_slice bytes));
      mret (response [from_wire wire])
  | _ => outcome (fail "structured_read arity mismatch")
  end.

(** The file a schema is written to. *)
Definition expected_path (schema : string) : option string :=
  if String.eqb schema OUTPUT_SCHEMA || String.eqb schema PROVIDER_RESULT_SCHEMA then Some (sp_output_path p)
  else if String.eqb schema PROVIDER_CHECK_SCHEMA then sp_check_path p
  else None.

Definition structured_write (inputs : list VmValue) : Run EffectResponse :=
  match inputs with
  | [path; schema; value] =>
      path ← outcome (text_input "bad write path" path);
      schema ← outcome (text_input "bad write schema" schema);
      match expected_path schema with
      | None => outcome (fail "unexpected structured write schema")
      | Some expected =>
          if negb (bool_decide (components path = components expected)) then
            outcome (fail "write path is outside the admitted fixture")
          else if sp_fail_write p then mret (response [status_value 0])
          else
          bytes ← outcome (context_of "encode output" (wire_to_vec (to_wire value)));
          _ ← context "write output" (write_file io expected bytes);
          mret (response [status_value 1])
      end
  | _ => outcome (fail "structured_write arity mismatch")
  end.

Definition structured_digest (inputs : list VmValue) : Outcome Message EffectResponse :=
  match inputs with
  | [operand] =>
      operand_type ← infer_value_type (sp_ssa_module p) operand;
      external ← external_value EXTERNAL_DEPTH (sp_ssa_module p) operand_type operand;
      canonical ← context_of "encode digest input" (json_to_vec external);
      if (64 * 1024 <? byte_length canonical)%Z then fail "structured digest input exceeds 65536 bytes"
      else
      digest ← digest_bytes 32 (sha256_hex canonical);
      Ok (response [VSequence (map VByte digest)])
  | _ => fail "structured_digest arity mismatch"
  end.

(** [Provider::invoke]; an error is the detail of a [ProviderFailure]. *)
Definition invoke (request : EffectRequest) : Run EffectResponse :=
  if negb (String.eqb (er_capability request) (sp_capability p)) then
    outcome (fail "capability identity mismatch")
  else if negb (bs_mem (er_operation request) (sp_allowed_operations p)) then
    outcome (fail ("operation " +:+ er_operation request +:+ " is not bound to this dispatch alias"))
  else if String.eqb (er_operation request) "structured_read" then structured_read (er_inputs request)
  else if String.eqb (er_operation request) "structured_write" then structured_write (er_inputs request)
  else if String.eqb (er_operation request) "structured_digest" then outcome (structured_digest (er_inputs request))
  else outcome (fail ("unsupported operation " +:+ er_operation request)).
End Provider.

(** ** Dispatch bindings *)

Definition split_binding_values (value label : string) : Outcome Message (list string) :=
  let values := map trim (split_on ";"%char value) in
  if bool_decide (values = []) || existsb (fun value => String.eqb value "") values then
    fail (label +:+ " must contain nonempty semicolon-separated values")
  else if negb (bool_decide (NoDup values)) then fail (label +:+ " contains duplicate values")
  else Ok values.

(** The maps that the loop over the instructions fills. *)
Record HostCalls : Type := mkHostCalls {
  hc_identities_by_alias : list (string * list string);
  hc_aliases_by_identity : list (string * list (string * nat));
  hc_operations_by_alias : list (string * list string);
  hc_call_authorities_by_alias : list (string * list string);
  hc_count : nat
}.
Definition no_host_calls : HostCalls := mkHostCalls [] [] [] [] 0.

(** [map.entry(key).or_default().insert(x)]. *)
Definition add_to (key x : string) (m : list (string * list string)) : list (string * list string) :=
  bm_update key [] (bs_add x) m.

Definition add_instruction (requirements : list string) (st : HostCalls) (instruction : SsaInstruction)
  : Outcome Message HostCalls :=
  match i_kind instruction with
  | HostCall capability operation =>
      match i_capability_uses instruction with
      | [use] =>
          let identity := cu_capability use in
          if negb (bs_mem identity requirements) then
            Err [Lit "HostCall "; Debug capability;
                 Lit (" uses capability identity " +:+ identity +:+ " absent from artifact requirements")]
          else Ok (mkHostCalls
            (add_to capability identity (hc_identities_by_alias st))
            (bm_update identity [] (bm_update capability 0 S) (hc_aliases_by_identity st))
            (add_to capability operation (hc_operations_by_alias st))
            (hc_call_authorities_by_alias st) (S (hc_count st)))
      | uses =>
          Err [Lit "HostCall "; Debug capability; Lit (" has " +:+ pretty (List.length uses)
                 +:+ " canonical capability uses; expected exactly one")]
      end
  | Call _ required_capabilities _ =>
      authorities ← fold_outcome (fun authorities identity =>
        if negb (bs_mem identity requirements) then
          fail ("Call uses capability identity " +:+ identity +:+ " absent from artifact requirements")
        else
        let alias := last_segment identity in
        if String.eqb alias "" then fail ("Call capability identity " +:+ identity +:+ " has no source alias")
        else Ok (add_to alias identity authorities)) (hc_call_authorities_by_alias st) required_capabilities;
      Ok (mkHostCalls (hc_identities_by_alias st) (hc_aliases_by_identity st) (hc_operations_by_alias st)
        authorities (hc_count st))
  | _ => Ok st
  end.

Definition module_instructions_of (ssa : SsaModule) : list SsaInstruction :=
  f ← m_functions ssa; b ← f_blocks f; b_instructions b.

(** The binding of one authorized identity. *)
Definition dispatch_binding (capabilities : list string) (st : HostCalls) (identity declared_alias : string)
  : Outcome Message DispatchBinding :=
  if negb (bool_decide (identity ∈ capabilities)) then
    fail ("artifact does not require authorized capability " +:+ identity)
  else
  aliases ← ok_or [Lit ("expected HostCalls for authorized identity " +:+ identity +:+ ", found none")]
    (bm_get identity (hc_aliases_by_identity st));
  match aliases with
  | [(actual_alias, mapped_host_calls)] =>
      if negb (String.eqb actual_alias declared_alias) then
        fail "application contract dispatch alias differs from admitted SSA"
      else
      identities ← expect "runtime alias collected" (bm_get actual_alias (hc_identities_by_alias st));
      if negb (bool_decide (identities = [identity])) then
        Err [Lit "runtime alias "; Debug actual_alias; Lit " maps to multiple canonical capability identities"]
      else Ok (mkDispatch identity actual_alias mapped_host_calls
        (default [] (bm_get actual_alias (hc_operations_by_alias st)))
        (default [] (bm_get actual_alias (hc_call_authorities_by_alias st))))
  | _ =>
      fail ("authorized identity " +:+ identity +:+ " maps to " +:+ pretty (List.length aliases) +:+ " runtime aliases")
  end.

Definition capability_dispatch_bindings (admitted : AdmittedArtifact) (authorized_identities declared_dispatch_aliases : string)
  : Outcome Message (list DispatchBinding) :=
  authorized_identities ← split_binding_values authorized_identities "authorized capability identities";
  declared_dispatch_aliases ← split_binding_values declared_dispatch_aliases "declared VM dispatch aliases";
  if negb (Nat.eqb (List.length authorized_identities) (List.length declared_dispatch_aliases)) then
    fail "authorized capability identity count differs from declared dispatch alias count"
  else
  ssa ← ok_or [Lit "admitted artifact does not contain selected SSA"] (ad_ssa_module admitted);
  host_calls ← fold_outcome (add_instruction (bs_of_list (ad_capabilities admitted))) no_host_calls
    (module_instructions_of ssa);
  if Nat.eqb (hc_count host_calls) 0 then fail "admitted SSA contains no HostCalls"
  else map_outcome (fun '(identity, alias) => dispatch_binding (ad_capabilities admitted) host_calls identity alias)
    (zip authorized_identities declared_dispatch_aliases).

(** ** One call *)

Section Calls.
Context (io : Io).

Definition call_provider (binding : DispatchBinding) (input_path output_path : string) (check_path : option string)
  (mode : string) (ssa_module : SsaModule) : StructuredFileProvider :=
  mkProvider (db_dispatch_alias binding) input_path output_path check_path (String.eqb mode "fail-write")
    (db_operations binding) ssa_module.

(** The capability environment: a provider under the alias of each binding and
    under each of its call authorities. *)
Definition call_capabilities (bindings : list DispatchBinding) (input_path output_path : string)
  (check_path : option string) (mode : string) (ssa_module : SsaModule) : list (string * StructuredFileProvider) :=
  if String.eqb mode "none" then []
  else binding ← bindings;
    (fun name => (name, call_provider binding input_path output_path check_path mode ssa_module))
      <$> db_dispatch_alias binding :: db_call_authority_identities binding.

(** [session.call]: every effect goes through the provider it is bound to. *)
Fixpoint perform (caps : list (string * StructuredFileProvider)) (run : VmRun Session)
  : Run (Session * Value * Value * list VmValue) :=
  match run with
  | Finished session outcome record returned => mret (session, outcome, record, returned)
  | Perform capability request resume => fun files =>
      match resolve caps capability with
      | None => perform caps (resume None) files
      | Some provider =>
          match invoke io provider request files with
          | (Ok answer, files) => perform caps (resume (Some (inl answer))) files
          | (Err detail, files) => perform caps (resume (Some (inr (mkFailure PROVIDER_ID detail)))) files
          | (Panic message, files) => (Panic message, files)
          end
      end
  end.

Definition binding_row (binding : DispatchBinding) : Value := object [
  ("authorized_capability_identity", Str (db_authorized_identity binding));
  ("runtime_dispatch_alias", Str (db_dispatch_alias binding));
  ("mapped_host_call_count", count (db_mapped_host_calls binding));
  ("operations", strings (db_operations binding));
  ("call_authority_identities", strings (db_call_authority_identities binding))].

Definition call_document (bindings : list DispatchBinding) (outcome record : Value) (returned : list VmValue) : Value :=
  object [
    ("outcome", outcome);
    ("record", record);
    ("returned_wire", Array (map (fun value => wire_value (to_wire value)) returned));
    ("capability_binding", object [
      ("authorized_capability_identity", Str (String.concat ";" (map db_authorized_identity bindings)));
      ("runtime_dispatch_alias", Str (String.concat ";" (map db_dispatch_alias bindings)));
      ("contract_dispatch_alias", Str (String.concat ";" (map db_dispatch_alias bindings)));
      ("mapped_host_call_count", count (list_sum (map db_mapped_host_calls bindings)));
      ("bindings", Array (map binding_row bindings))])].

Definition execute_call (session : Session) (request_path input_path output_path : string) (check_path : option string)
  (bindings : list DispatchBinding) (ssa_module : SsaModule) (mode : string) : Run (Session * Value) := fun files =>
  if negb (String.eqb mode "none") && negb (String.eqb mode "success") && negb (String.eqb mode "fail-write") then
    (fail ("unsupported provider mode " +:+ mode), files)
  else if negb (String.eqb mode "none")
    && (path_exists io output_path files || match check_path with Some path => path_exists io path files | None => false end)
  then (fail "output path already exists", files)
  else
  (bytes ← read_file io request_path;
   spec ← outcome (spec_from_slice bytes);
   let caps := call_capabilities bindings input_path output_path check_path mode ssa_module in
   '(session, outcome, record, returned) ← perform caps (call session (map fst caps) spec);
   mret (session, call_document bindings outcome record returned)) files.

(** ** The invocation modes *)

Definition take_arg (args : list string) (label : string) : Run (string * list string) :=
  match args with arg :: args => mret (arg, args) | [] => outcome (fail ("missing " +:+ label)) end.

Definition absolute_path (row : Value) (key : string) : Outcome Message string :=
  value ← ok_or [Lit ("batch call is missing " +:+ key)] (get_str key row);
  if is_absolute value then Ok value else fail ("batch call " +:+ key +:+ " must be an absolute path").

Definition run_single (args : list string) (admitted : AdmittedArtifact) (authorized_identity declared_dispatch_alias : string)
  : Run Value :=
  '(request_path, args) ← take_arg args "execution request path";
  '(input_path, args) ← take_arg args "input path";
  '(output_path, args) ← take_arg args "output path";
  '(mode, args) ← take_arg args "provider mode";
  bindings ← outcome (capability_dispatch_bindings admitted authorized_identity declared_dispatch_alias);
  ssa_module ← outcome (ok_or [Lit "admitted artifact does not contain selected SSA"] (ad_ssa_module admitted));
  '(_, document) ← execute_call (open_session admitted) request_path input_path output_path (head args) bindings
    ssa_module mode;
  mret document.

(** The paths of one call, each new. *)
Definition claim_paths (unique_paths call_paths : list string) : Outcome Message (list string) :=
  fold_outcome (fun unique_paths path =>
    let '(fresh, unique_paths) := bs_insert path unique_paths in
    if fresh then Ok unique_paths
    else fail "batch calls must use distinct request, input, and output paths") unique_paths call_paths.

Definition batch_call (bindings : list DispatchBinding) (ssa_module : SsaModule)
  (st : Session * list string * list Value) (row : Value) : Run (Session * list string * list Value) :=
  let '(session, unique_paths, calls) := st in
  request_path ← outcome (absolute_path row "request_path");
  input_path ← outcome (absolute_path row "input_path");
  output_path ← outcome (absolute_path row "output_path");
  let check_path := get_str "check_path" row in
  if match check_path with Some path => negb (is_absolute path) | None => false end then
    outcome (fail "batch call check_path must be absolute")
  else
  unique_paths ← outcome (claim_paths unique_paths ([request_path; input_path; output_path] ++ option_list check_path));
  mode ← outcome (ok_or [Lit "batch call is missing provider_mode"] (get_str "provider_mode" row));
  '(session, result) ← execute_call session request_path input_path output_path check_path bindings ssa_module mode;
  mret (session, unique_paths,
    calls ++ [object [("call_index", count (List.length calls)); ("result", result)]]).

Fixpoint batch_calls (bindings : list DispatchBinding) (ssa_module : SsaModule)
  (st : Session * list string * list Value) (rows : list Value) : Run (Session * list string * list Value) :=
  match rows with
  | [] => mret st
  | row :: rows => st ← batch_call bindings ssa_module st row; batch_calls bindings ssa_module st rows
  end.

Definition run_batch (args : list string) (admitted : AdmittedArtifact) (authorized_identity declared_dispatch_alias : string)
  : Run Value :=
  '(manifest_path, _) ← take_arg args "batch manifest path";
  bytes ← read_file io manifest_path;
  manifest ← outcome (json_from_slice bytes);
  if negb (bool_decide (get_str "schema_version" manifest = Some "mncs.compiler.native-application-batch-request/1")) then
    outcome (fail "unsupported application batch request schema")
  else
  rows ← outcome (ok_or [Lit "batch request calls must be an array"] (get_array "calls" manifest));
  if bool_decide (rows = []) || Nat.ltb 64 (List.length rows) then
    outcome (fail "batch request must contain 1 to 64 calls")
  else
  bindings ← outcome (capability_dispatch_bindings admitted authorized_identity declared_dispatch_alias);
  ssa_module ← outcome (ok_or [Lit "admitted artifact does not contain selected SSA"] (ad_ssa_module admitted));
  '(_, _, calls) ← batch_calls bindings ssa_module (open_session admitted, [], []) rows;
  mret (object [
    ("schema_version", Str "mncs.compiler.native-application-batch-result/1");
    ("artifact_id", Str (ad_artifact_id admitted));
    ("runtime_id", Str ("mncs-vm-runtime:" +:+ ad_artifact_id admitted));
    ("call_count", count (List.length calls));
    ("calls", Array calls)]).

(** [main]: the text it prints. *)
Definition runner_main (args : list string) : Run string :=
  '(artifact_path, args) ← take_arg args "artifact path";
  '(authorized_identity, args) ← take_arg args "authorized capability identity";
  '(declared_dispatch_alias, args) ← take_arg args "declared VM dispatch alias";
  '(invocation_mode, args) ← take_arg args "invocation mode";
  artifact ← read_file io artifact_path;
  admitted ← outcome (admit_owned artifact);
  document ← (if String.eqb invocation_mode "single" then
                run_single args admitted authorized_identity declared_dispatch_alias
              else if String.eqb invocation_mode "batch" then
                run_batch args admitted authorized_identity declared_dispatch_alias
              else outcome (fail "invocation mode must be single or batch"));
  outcome (json_to_vec document).
End Calls.
End Runner.
