(* ===== verification/RunnerTheorems.v ===== *)
(** What the runner's providers, a call and a batch may read and write, and what a
    structured digest tells apart. *)

From Stdlib Require Import Ascii String.
From S2P Require Export Runner.

Local Open Scope string_scope.
Local Open Scope list_scope.

Lemma run_bind_inv {A B} (m : Run A) (f : A -> Run B) files o files' :
  (m ≫= f) files = (o, files') ->
  (exists a files1, m files = (Ok a, files1) /\ f a files1 = (o, files')) \/
  (exists e, m files = (Err e, files') /\ o = Err e) \/
  (exists message, m files = (Panic message, files') /\ o = Panic message).
Proof.
  unfold mbind, run_bind. destruct (m files) as [[a|e|e] files1].
  - intros Hf. left. by exists a, files1.
  - intros [= <- <-]. right. left. by exists e.
  - intros [= <- <-]. right. right. by exists e.
Qed.

(** ** Footprints *)

(** A step that leaves every file outside some set as it was, and does not look
    at a file outside another: on files that agree where it reads, it answers
    the same, and the files that agreed still do. *)
Record footprint {A} (reads writes : FilePath -> Prop) (m : Run A) : Prop := mkFootprint {
  fp_frame : forall files p, ~ writes p -> (m files).2 !! p = files !! p;
  fp_local : forall files other, (forall p, reads p -> other !! p = files !! p) ->
    (m other).1 = (m files).1 /\ forall p, other !! p = files !! p -> (m other).2 !! p = (m files).2 !! p
}.

Section Footprint.
Context (reads writes : FilePath -> Prop).

Lemma footprint_outcome {A} (o : Outcome Message A) : footprint reads writes (outcome o).
Proof. split; intros; [done|]. by split. Qed.
Lemma footprint_ret {A} (a : A) : footprint reads writes (mret a).
Proof. exact (footprint_outcome (Ok a)). Qed.

Lemma footprint_bind {A B} (m : Run A) (f : A -> Run B) :
  footprint reads writes m -> (forall a, footprint reads writes (f a)) -> footprint reads writes (m ≫= f).
Proof.
  intros [Hframe Hlocal] Hf. split.
  - intros files p Hp. unfold mbind, run_bind. specialize (Hframe files p Hp).
    destruct (m files) as [[a|e|e] files1]; cbn in *; [|done|done]. by rewrite (fp_frame _ _ _ (Hf a)).
  - intros files other Hagree. unfold mbind, run_bind. specialize (Hlocal files other Hagree).
    destruct (m files) as [o files1], (m other) as [o' files2]. cbn in Hlocal. destruct Hlocal as [-> Hsame].
    destruct o as [a|e|e]; [|by split|by split]. cbn [snd] in Hsame.
    destruct (fp_local _ _ _ (Hf a) files1 files2) as [Ho Hs]; [intros p Hp; by apply Hsame, Hagree|].
    split; [done|]. intros p Hp. by apply Hs, Hsame.
Qed.

Lemma footprint_context {A} what (m : Run A) : footprint reads writes m -> footprint reads writes (context what m).
Proof.
  intros [Hframe Hlocal]. split.
  - intros files p Hp. unfold context. specialize (Hframe files p Hp). by destruct (m files) as [[a|e|e] files1].
  - intros files other Hagree. unfold context. specialize (Hlocal files other Hagree).
    destruct (m files) as [o files1], (m other) as [o' files2]. cbn in Hlocal. destruct Hlocal as [-> Hsame]. by destruct o.
Qed.

Lemma footprint_if {A} (b : bool) (m k : Run A) :
  footprint reads writes m -> footprint reads writes k -> footprint reads writes (if b then m else k).
Proof. by destruct b. Qed.

Lemma footprint_read io path : reads (components path) -> footprint reads writes (read_file io path).
Proof.
  intros Hr. split; [done|]. intros files other Hagree. unfold read_file. cbn [fst snd]. rewrite (Hagree (components path)) by done. by split.
Qed.

Lemma footprint_write io path text : writes (components path) -> footprint reads writes (write_file io path text).
Proof.
  intros Hw. unfold write_file.
  assert (Hput : forall text (files : Files) p, ~ writes p -> <[components path := text]> files !! p = files !! p)
    by (intros t files p Hp; rewrite lookup_insert_ne; [done|by intros <-]).
  assert (Hsame : forall text (files other : Files) p, other !! p = files !! p ->
    <[components path := text]> other !! p = <[components path := text]> files !! p).
  { intros t files other p Hp. destruct (decide (components path = p)) as [->|Hne];
      [by rewrite !lookup_insert_eq|by rewrite !lookup_insert_ne]. }
  destruct (io_write_error io (components path)) as [[e [partial|]]|]; split; cbn [fst snd]; auto.
Qed.

Lemma footprint_mono {A} (reads' writes' : FilePath -> Prop) (m : Run A) :
  (forall p, reads p -> reads' p) -> (forall p, writes p -> writes' p) ->
  footprint reads writes m -> footprint reads' writes' m.
Proof.
  intros Hr Hw [Hframe Hlocal]. split; [intros files p Hp; apply Hframe; auto|].
  intros files other Hagree. apply Hlocal. auto.
Qed.
End Footprint.
#[export] Hint Resolve footprint_outcome footprint_ret footprint_bind footprint_context footprint_if footprint_read
  footprint_write : footprint.

Section Confinement.
Context `{ModelCrate, RunnerCrate} (io : Io).

(** What a provider may read and write. *)
Definition provider_reads (p : StructuredFileProvider) (path : FilePath) : Prop := path = components (sp_input_path p).
Definition provider_writes (p : StructuredFileProvider) (path : FilePath) : Prop :=
  sp_fail_write p = false /\
  (path = components (sp_output_path p) \/ exists check, sp_check_path p = Some check /\ path = components check).

Lemma expected_path_writes p schema path :
  expected_path p schema = Some path -> sp_fail_write p = false -> provider_writes p (components path).
Proof.
  unfold expected_path, provider_writes. intros Hp Hf. split; [done|].
  destruct (_ || _); [injection Hp as ->; by left|]. destruct (String.eqb _ _); [|done]. right. by exists path.
Qed.

Lemma footprint_invoke p request : footprint (provider_reads p) (provider_writes p) (invoke io p request).
Proof.
  unfold invoke. repeat apply footprint_if; auto with footprint.
  - unfold structured_read. destruct (er_inputs request) as [|path [|schema [|]]]; auto with footprint.
    repeat (first [apply footprint_bind|apply footprint_if]; intros; auto with footprint).
    apply footprint_context, footprint_read. done.
  - unfold structured_write. destruct (er_inputs request) as [|path [|schema [|value [|]]]]; auto with footprint.
    apply footprint_bind; [auto with footprint|intros text]. apply footprint_bind; [auto with footprint|intros name].
    destruct (expected_path p name) as [expected|] eqn:He; [|auto with footprint].
    apply footprint_if; [auto with footprint|]. destruct (sp_fail_write p) eqn:Hf; [auto with footprint|].
    apply footprint_bind; [auto with footprint|intros bytes].
    apply footprint_bind; [|auto with footprint]. apply footprint_context, footprint_write. by eapply expected_path_writes.
Qed.

(** The providers of one call share their files. *)
Definition call_reads (input_path : string) (path : FilePath) : Prop := path = components input_path.
Definition call_writes (output_path : string) (check_path : option string) (mode : string) (path : FilePath) : Prop :=
  mode = "success" /\
  (path = components output_path \/ exists check, check_path = Some check /\ path = components check).

Lemma call_provider_paths bindings input output check mode ssa name p :
  (name, p) ∈ call_capabilities bindings input output check mode ssa ->
  mode <> "none" /\ sp_input_path p = input /\ sp_output_path p = output /\ sp_check_path p = check /\
  sp_fail_write p = String.eqb mode "fail-write".
Proof.
  unfold call_capabilities. destruct (String.eqb_spec mode "none") as [->|Hm]; [by intros ?%elem_of_nil|].
  intros Hin. apply list_elem_of_bind in Hin as (binding & (n & [= -> ->] & _)%list_elem_of_fmap & _).
  by split_and!.
Qed.

Lemma footprint_perform reads writes caps run :
  (forall name p, (name, p) ∈ caps -> forall path, provider_reads p path -> reads path) ->
  (forall name p, (name, p) ∈ caps -> forall path, provider_writes p path -> writes path) ->
  footprint reads writes (perform io caps run).
Proof.
  intros Hr Hw. induction run as [session outcome record returned|capability request resume IH]; [apply footprint_ret|].
  cbn [perform]. destruct (resolve caps capability) as [p|] eqn:Hres; [|exact (IH None)].
  apply resolve_bound in Hres. pose proof (footprint_invoke p request) as Hinvoke.
  apply (footprint_mono _ _ reads writes) in Hinvoke; [|by eapply Hr|by eapply Hw]. destruct Hinvoke as [Hframe Hlocal]. split.
  - intros files q Hq. specialize (Hframe files q Hq). destruct (invoke io p request files) as [[a|e|e] files1]; cbn [snd] in *.
    + rewrite <- Hframe. by apply (fp_frame _ _ _ (IH _)).
    + rewrite <- Hframe. by apply (fp_frame _ _ _ (IH _)).
    + done.
  - intros files other Hagree. specialize (Hlocal files other Hagree).
    destruct (invoke io p request files) as [o files1], (invoke io p request other) as [o' files2].
    cbn [fst snd] in Hlocal. destruct Hlocal as [-> Hsame]. destruct o as [a|e|e]; [| |by split].
    + destruct (fp_local _ _ _ (IH (Some (inl a))) files1 files2) as [Ho Hs]; [intros q Hq; by apply Hsame, Hagree|].
      split; [done|]. intros q Hq. by apply Hs, Hsame.
    + destruct (fp_local _ _ _ (IH (Some (inr (mkFailure PROVIDER_ID e)))) files1 files2) as [Ho Hs]; [intros q Hq; by apply Hsame, Hagree|].
      split; [done|]. intros q Hq. by apply Hs, Hsame.
Qed.

(** The files a call looks at: its request, its input, and whether its outputs
    are there. *)
Definition execute_reads (request_path input_path output_path : string) (check_path : option string) (path : FilePath) : Prop :=
  path = components request_path \/ path = components input_path \/ path = components output_path \/
  exists check, check_path = Some check /\ path = components check.

Lemma footprint_execute session request_path input_path output_path check_path bindings ssa mode :
  footprint (execute_reads request_path input_path output_path check_path) (call_writes output_path check_path mode)
    (execute_call io session request_path input_path output_path check_path bindings ssa mode).
Proof.
  set (reads := execute_reads _ _ _ _). set (writes := call_writes _ _ _).
  assert (Hbody : negb (String.eqb mode "none") && negb (String.eqb mode "success") && negb (String.eqb mode "fail-write") = false ->
    footprint reads writes
    (bytes ← read_file io request_path;
     spec ← outcome (spec_from_slice bytes);
     let caps := call_capabilities bindings input_path output_path check_path mode ssa in
     '(session, outcome, record, returned) ← perform io caps (call session (map fst caps) spec);
     mret (session, call_document bindings outcome record returned))).
  { intros Hmode. apply footprint_bind; [apply footprint_read; by left|intros bytes].
    apply footprint_bind; [apply footprint_outcome|intros spec]. cbv zeta.
    apply footprint_bind; [|intros [[[s o] r] l]; apply footprint_ret].
    apply footprint_perform; intros name p (Hnone & Hin & Hout & Hcheck & Hfail)%call_provider_paths path.
    - intros ->. right. left. by rewrite Hin.
    - intros [Hf Hp]. rewrite Hfail in Hf. apply String.eqb_neq in Hf. rewrite Hout, Hcheck in Hp. split; [|done].
      apply String.eqb_neq in Hnone. rewrite Hnone, (proj2 (String.eqb_neq _ _) Hf) in Hmode. cbn [negb andb] in Hmode.
      rewrite andb_true_r, negb_false_iff in Hmode. by apply String.eqb_eq. }
  split.
  - intros files p Hp. unfold execute_call. destruct (negb _ && negb _ && _) eqn:Hmode; [done|]. destruct (negb _ && (_ || _)); [done|].
    by apply (fp_frame _ _ _ (Hbody eq_refl)).
  - intros files other Hagree. unfold execute_call. destruct (negb _ && negb _ && _) eqn:Hmode; [by split|].
    assert (forall path, reads (components path) -> path_exists io path other = path_exists io path files) as Hex
      by (intros path Hpath; unfold path_exists; by rewrite (Hagree _ Hpath)).
    rewrite (Hex output_path) by by right; right; left.
    assert (match check_path with Some path => path_exists io path other | None => false end =
      match check_path with Some path => path_exists io path files | None => false end) as ->.
    { destruct check_path as [path|]; [|done]. apply Hex. right. right. right. by exists path. }
    destruct (negb _ && (_ || _)); [by split|]. by apply (fp_local _ _ _ (Hbody eq_refl)).
Qed.

(** What a call may touch.  Whatever the VM asks its providers for, one call
    of the runner changes no file other than its output and check paths, and
    those only in mode "success"; and its answer depends on no file other than
    its request, its input, and these two: over files that agree there it gives
    the same answer and makes the same changes. *)
Theorem call_confined session request_path input_path output_path check_path bindings ssa mode files other :
  let run := execute_call io session request_path input_path output_path check_path bindings ssa mode in
  (forall p, ~ call_writes output_path check_path mode p -> (run files).2 !! p = files !! p) /\
  ((forall p, execute_reads request_path input_path output_path check_path p -> other !! p = files !! p) ->
   (run other).1 = (run files).1 /\ forall p, other !! p = files !! p -> (run other).2 !! p = (run files).2 !! p).
Proof.
  cbv zeta. pose proof (footprint_execute session request_path input_path output_path check_path bindings ssa mode) as [Hframe Hlocal].
  split; [apply Hframe|apply Hlocal].
Qed.

(** A call writes only paths at which nothing was. *)
Lemma execute_fresh session request_path input_path output_path check_path bindings ssa mode files q :
  (execute_call io session request_path input_path output_path check_path bindings ssa mode files).2 !! q <> files !! q ->
  mode = "success" /\ exists path, (path = output_path \/ check_path = Some path) /\ q = components path /\
    path_exists io path files = false.
Proof.
  intros Hne.
  assert (mode = "success" /\ (q = components output_path \/ exists check, check_path = Some check /\ q = components check)) as [Hm Hq].
  { destruct (decide (mode = "success")) as [Hm|Hm].
    - split; [done|]. destruct (decide (q = components output_path)) as [|Ho]; [by left|].
      destruct check_path as [check|]; [destruct (decide (q = components check)) as [|Hc]; [right; by exists check|]|];
        exfalso; apply Hne, (fp_frame _ _ _ (footprint_execute _ _ _ _ _ _ _ _)); intros [_ [?|(c & [= <-] & ?)]]; done.
    - exfalso. apply Hne, (fp_frame _ _ _ (footprint_execute _ _ _ _ _ _ _ _)). by intros [? _]. }
  split; [done|]. unfold execute_call in Hne. rewrite Hm in Hne. cbn [String.eqb Ascii.eqb Bool.eqb negb andb] in Hne.
  destruct (path_exists io output_path files) eqn:Ho; [done|]. cbn [orb] in Hne.
  destruct Hq as [->|(check & -> & ->)]; [exists output_path; auto|].
  destruct (path_exists io check files) eqn:Hc; [done|]. exists check. auto.
Qed.

(** The path of a row at which a batch may create a file. *)
Definition row_creates (row : Value) (q : FilePath) : Prop :=
  get_str "provider_mode" row = Some "success" /\
  exists path, (get_str "output_path" row = Some path \/ get_str "check_path" row = Some path) /\
    is_absolute path = true /\ q = components path.

Lemma absolute_path_ok row key path : absolute_path row key = Ok path -> get_str key row = Some path /\ is_absolute path = true.
Proof.
  unfold absolute_path. destruct (get_str key row) as [value|]; [|done]. cbn [ok_or mbind outcome_bind].
  destruct (is_absolute value) eqn:E; [|done]. by intros [= <-].
Qed.

Lemma batch_call_fresh bindings ssa st row files q :
  (batch_call io bindings ssa st row files).2 !! q <> files !! q ->
  row_creates row q /\ files !! q = None /\ io_directory io q = false.
Proof.
  destruct st as [[session unique] calls]. unfold batch_call.
  destruct (absolute_path row "request_path") as [request|e|e]; [|done|done].
  destruct (absolute_path row "input_path") as [input|e|e]; [|done|done].
  destruct (absolute_path row "output_path") as [output|e|e] eqn:Ho; [|done|done].
  apply absolute_path_ok in Ho as [Hout Habs].
  unfold mbind, run_bind. cbn [RunnerText.outcome].
  destruct (match get_str "check_path" row with Some path => negb (is_absolute path) | None => false end) eqn:Hcheck; [done|].
  destruct (claim_paths _ _) as [paths|e|e]; [|done|done]. cbn [RunnerText.outcome].
  destruct (get_str "provider_mode" row) as [mode|] eqn:Hmode; [|done]. cbn [ok_or RunnerText.outcome].
  destruct (execute_call _ _ _ _ _ _ _ _ _ files) as [o files'] eqn:He. intros Hne.
  assert (files' !! q <> files !! q) as Hch by (destruct o as [[s d]|e|e]; exact Hne).
  replace files' with (execute_call io session request input output (get_str "check_path" row) bindings ssa mode files).2 in Hch
    by by rewrite He.
  apply execute_fresh in Hch as (-> & path & Hpath & -> & Hex). unfold path_exists in Hex. apply orb_false_iff in Hex as [Hfile Hdir].
  apply bool_decide_eq_false in Hfile. split; [|split; [by apply eq_None_not_Some|done]].
  split; [done|]. exists path. destruct Hpath as [->|Hc]; [auto|]. rewrite Hc in Hcheck. apply negb_false_iff in Hcheck. auto.
Qed.

Lemma batch_calls_fresh bindings ssa st rows files q :
  (batch_calls io bindings ssa st rows files).2 !! q <> files !! q ->
  (exists row, row ∈ rows /\ row_creates row q) /\ files !! q = None /\ io_directory io q = false.
Proof.
  revert st files. induction rows as [|row rows IH]; intros st files; [done|]. cbn [batch_calls]. intros Hne.
  unfold mbind, run_bind in Hne. pose proof (batch_call_fresh bindings ssa st row files q) as Hfirst.
  destruct (batch_call io bindings ssa st row files) as [o files1]. cbn [snd] in Hfirst.
  destruct (decide (files1 !! q = files !! q)) as [Heq|Hn].
  - destruct o as [st'|e|e]; cbn [snd] in Hne; [|by rewrite Heq in Hne..]. rewrite <- Heq in Hne.
    apply IH in Hne as ((row' & Hin & Hc) & Hnone & Hd). rewrite <- Heq. split; [|done]. exists row'. split; [by right|done].
  - destruct (Hfirst Hn) as (Hc & Hnone). split; [|done]. exists row. split; [by left|done].
Qed.

(** C40: what a batch may touch.  However the VM, the operating system and the
    manifest behave, and whether it succeeds, fails or panics, a batch leaves
    every file that was there as it was.  It creates files only at absolute
    paths that rows of its manifest name as output or check and run in mode
    "success", at which there was neither a file nor a directory; and it changes
    nothing unless the manifest has between 1 and 64 rows. *)
Theorem batch_confined args admitted authorized alias files q :
  (run_batch io args admitted authorized alias files).2 !! q <> files !! q ->
  files !! q = None /\ io_directory io q = false /\
  exists manifest_path text manifest rows row, head args = Some manifest_path /\
    files !! components manifest_path = Some text /\ json_from_slice text = Ok manifest /\
    get_array "calls" manifest = Some rows /\ 1 <= List.length rows <= 64 /\ row ∈ rows /\ row_creates row q.
Proof.
  intros Hne. unfold run_batch in Hne. destruct args as [|manifest_path args]; [done|].
  unfold mbind, run_bind in Hne. cbn [take_arg mret run_ret] in Hne.
  destruct (read_file io manifest_path files) as [[text|e|e] files0] eqn:Hread; unfold read_file in Hread;
    [|injection Hread as _ <-; done..].
  assert (files !! components manifest_path = Some text /\ files0 = files) as [Htext ->].
  { destruct (io_read_error io _); [done|]. destruct (files !! components manifest_path); [|done]. by injection Hread as -> ->. }
  destruct (json_from_slice text) as [manifest|e|e] eqn:Hj; [|done|done]. cbn [RunnerText.outcome] in Hne.
  destruct (negb _); [done|]. destruct (get_array "calls" manifest) as [rows|] eqn:Hrows; [|done]. cbn [ok_or RunnerText.outcome] in Hne.
  destruct (bool_decide (rows = [])) eqn:Hempty; [done|]. destruct (Nat.ltb_spec 64 (List.length rows)) as [|Hl]; [done|].
  cbn [orb] in Hne. destruct (capability_dispatch_bindings admitted authorized alias) as [bindings|e|e]; [|done|done].
  cbn [RunnerText.outcome] in Hne. destruct (ad_ssa_module admitted) as [ssa|]; [|done]. cbn [ok_or RunnerText.outcome] in Hne.
  pose proof (batch_calls_fresh bindings ssa (open_session admitted, [], []) rows files q) as Hcalls.
  destruct (batch_calls io bindings ssa _ rows files) as [o files']. cbn [snd] in Hcalls.
  destruct Hcalls as ((row & Hin & Hc) & Hnone & Hdir); [destruct o as [[[s u] c]|e|e]; exact Hne|].
  split; [done|]. split; [done|]. exists manifest_path, text, manifest, rows, row. split_and!; try done.
  apply bool_decide_eq_false in Hempty. destruct rows; [done|]. cbn. lia.
Qed.
End Confinement.

(** ** Digests *)

(** ** Bytes as text *)

Lemma from_hex_byte a : match hex_byte a with String x (String y "") => from_hex_pair x y = Some a | _ => False end.
Proof. by destruct a as [[] [] [] [] [] [] [] []]. Qed.

Lemma hex_byte_shape a : exists x y, hex_byte a = String x (String y "") /\ from_hex_pair x y = Some a.
Proof. pose proof (from_hex_byte a) as Ha. unfold hex_byte in *. eauto. Qed.

Lemma hex_bytes_inj l k :
  List.length l = List.length k -> String.concat "" (map hex_byte l) = String.concat "" (map hex_byte k) -> l = k.
Proof.
  assert (Hcons : forall x y l, String.concat "" (map hex_byte (x :: y :: l)) = hex_byte x +:+ String.concat "" (map hex_byte (y :: l)))
    by done.
  revert k. induction l as [|a [|a' l] IH]; intros [|b [|b' k]] Hl Heq; try done.
  - change (hex_byte a = hex_byte b) in Heq. destruct (hex_byte_shape a) as (x & y & Ha & Hx), (hex_byte_shape b) as (x' & y' & Hb & Hy).
    rewrite Ha, Hb in Heq. injection Heq as -> ->. congruence.
  - rewrite !Hcons in Heq. destruct (hex_byte_shape a) as (x & y & Ha & Hx), (hex_byte_shape b) as (x' & y' & Hb & Hy).
    rewrite Ha, Hb in Heq. cbn [String.append] in Heq. change (String x (String y "") +:+ ?s) with (String x (String y s)) in Heq.
    change (String x' (String y' "") +:+ ?s) with (String x' (String y' s)) in Heq. injection Heq as -> -> Heq.
    f_equal; [congruence|]. apply IH; [cbn in *; lia|done].
Qed.

(** Hexadecimal text is the digits of the bytes it is read as. *)
Definition lower_hex_digits : list ascii := list_ascii_of_string "0123456789abcdef".
Lemma lower_hex_pairs :
  forallb (fun a => forallb (fun b =>
    match from_hex_pair a b with Some c => String.eqb (hex_byte c) (String a (String b "")) | None => false end) lower_hex_digits)
    lower_hex_digits = true.
Proof. vm_compute. reflexivity. Qed.
Lemma is_lower_hex_digit a : is_lower_hex a = true -> a ∈ lower_hex_digits.
Proof.
  intros Ha. apply (bool_decide_unpack _). revert Ha. by destruct a as [[] [] [] [] [] [] [] []].
Qed.
Lemma from_hex_pair_lower a b :
  is_lower_hex a = true -> is_lower_hex b = true -> exists c, from_hex_pair a b = Some c /\ hex_byte c = String a (String b "").
Proof.
  intros Ha%is_lower_hex_digit Hb%is_lower_hex_digit. pose proof lower_hex_pairs as Hall. rewrite forallb_forall in Hall.
  specialize (Hall a (proj1 (list_elem_of_In _ _) Ha)). rewrite forallb_forall in Hall.
  specialize (Hall b (proj1 (list_elem_of_In _ _) Hb)). destruct (from_hex_pair a b) as [c|]; [|done].
  exists c. split; [done|]. by apply String.eqb_eq.
Qed.

Definition lower_hex (n : nat) (s : string) : Prop := String.length s = n /\ string_forallb is_lower_hex s = true.
Lemma digest_bytes_inj n s t bytes :
  lower_hex (2 * n) s -> lower_hex (2 * n) t -> digest_bytes n s = Ok bytes -> digest_bytes n t = Ok bytes -> s = t.
Proof.
  revert s t bytes. induction n as [|n IH]; intros s t bytes [Hs Hs'] [Ht Ht'] Hd Hd'.
  - destruct s; [|done]. by destruct t.
  - destruct s as [|a [|b s]]; [cbn in Hs; lia..|]. destruct t as [|a' [|b' t]]; [cbn in Ht; lia..|].
    unfold string_forallb in Hs', Ht'. cbn [list_ascii_of_string forallb] in Hs', Ht'.
    rewrite !andb_true_iff in Hs', Ht'. destruct Hs' as (Ha & Hb & Hs'), Ht' as (Ha' & Hb' & Ht').
    destruct (from_hex_pair_lower a b Ha Hb) as (c & Hc & Hcb), (from_hex_pair_lower a' b' Ha' Hb') as (c' & Hc' & Hcb').
    cbn [digest_bytes] in Hd, Hd'. rewrite Hc in Hd. rewrite Hc' in Hd'. cbn [expect mbind outcome_bind] in Hd, Hd'.
    apply outcome_bind_ok in Hd as (l & Hl & [= <-]). apply outcome_bind_ok in Hd' as (l' & Hl' & [= <- <-]).
    rewrite Hcb in Hcb'. injection Hcb' as <- <-. do 2 f_equal. eapply (IH s t l'); [split|split| |]; try done; cbn in Hs, Ht; lia.
Qed.

Lemma from_utf8_text bytes text : from_utf8 bytes = Ok text -> text = string_of_list_ascii bytes.
Proof. unfold from_utf8. destruct (utf8_check _ _ _); [done|]. by intros [= <-]. Qed.

#[local] Instance byte_number_inj : Inj (=) (=) byte_number.
Proof.
  intros a b [= Heq]. unfold byte_value in Heq. apply (f_equal Z.of_N) in Heq. rewrite !Z2N.id in Heq by lia.
  apply Nat2Z.inj in Heq. by rewrite <- (ascii_nat_embedding a), <- (ascii_nat_embedding b), Heq.
Qed.

(** Text, digests and arrays of bytes are told apart by their bytes. *)
Lemma external_bytes_inj bound l k :
  (bound = Exact 32 -> List.length l = List.length k) -> external_bytes bound l = external_bytes bound k <-> l = k.
Proof.
  intros Hl. split; [|by intros ->]. unfold external_bytes. case_bool_decide as Hb.
  - intros [= Heq]. apply hex_bytes_inj; auto.
  - destruct (from_utf8 l) as [text|e|e] eqn:El, (from_utf8 k) as [text'|e'|e'] eqn:Ek; try done.
    { intros [= <-]. apply from_utf8_text in El, Ek. subst.
      by rewrite <- (list_ascii_of_string_of_list_ascii l), Ek, list_ascii_of_string_of_list_ascii. }
    all: intros [= Heq]; by apply (inj (fmap byte_number)) in Heq.
Qed.

(** ** Values with the same data *)

Section Digest.
Context `{ModelCrate, RunnerCrate} (module : SsaModule).

Definition declared (identity : string) : option RecordType :=
  List.find (fun record => String.eqb (r_identity record) identity) (m_record_types module).
Definition field_of (name : string) (fields : list (string * VmValue)) : option (string * VmValue) :=
  List.find (fun field => String.eqb field.1 name) fields.

(** Two values of a type carry the same data: the widths integers were stored
    at, the order of fields and how a variant is qualified do not count. *)
Inductive same_data : BodyType -> VmValue -> VmValue -> Prop :=
  | same_bool b : same_data TyBool (VBoolean b) (VBoolean b)
  | same_integer ty n bits bits' signed signed' : same_data (TyInteger ty) (VInteger n bits signed) (VInteger n bits' signed')
  | same_float rest bits : same_data (TyFloat rest) (VFloatBits bits) (VFloatBits bits)
  | same_byte b : same_data TyByte (VByte b) (VByte b)
  | same_sequence element bound l k :
      Forall2 (same_data element) l k -> same_data (TySequence element bound) (VSequence l) (VSequence k)
  | same_record identity name declaration type_id type_id' value_name value_name' l k :
      declared identity = Some declaration ->
      (forall row, row ∈ r_fields declaration -> exists v w,
         field_of row.1 l = Some v /\ field_of row.1 k = Some w /\ same_data row.2 v.2 w.2) ->
      same_data (TyRecord identity name) (VRecord type_id value_name l) (VRecord type_id' value_name' k)
  | same_finite identity name type_id type_id' variant variant' rest rest' :
      last_segment variant = last_segment variant' ->
      same_data (TyFinite identity name) (VFinite type_id variant [] rest) (VFinite type_id' variant' [] rest').

(** ** Objects of fields *)

Section Fields.
Context (external : BodyType -> VmValue -> Outcome Message Value) (name : string) (fields : list (string * VmValue)).

(** The row of a declared field, as it is written. *)
Definition external_row (row : string * BodyType) (j : Value) : Prop :=
  exists field, field_of row.1 fields = Some field /\ external row.2 field.2 = Ok j.

Lemma external_fields rows object object' :
  fold_outcome (fun object '(field_name, field_type) =>
    field ← ok_or [Lit ("typed record " +:+ name +:+ " is missing field " +:+ field_name)]
      (List.find (fun field => String.eqb field.1 field_name) fields);
    j ← external field_type field.2;
    Ok (bm_put field_name j object)) object rows = Ok object' <->
  exists values, Forall2 external_row rows values /\
    object' = fold_left (fun m kv => bm_put kv.1 kv.2 m) (zip rows.*1 values) object.
Proof.
  revert object. induction rows as [|[key ty] rows IH]; intros object; cbn [fold_outcome].
  - split; [intros [= <-]; exists []; by split|]. intros (values & Hf & ->). by inversion Hf.
  - split.
    + intros Ho. apply outcome_bind_ok in Ho as (object1 & Hstep & (values & Hf & ->)%IH).
      apply outcome_bind_ok in Hstep as (field & Hfield & Hstep). apply outcome_bind_ok in Hstep as (j & Hj & [= <-]).
      destruct (List.find _ fields) as [x|] eqn:Ex; [|done]. injection Hfield as ->.
      exists (j :: values). split; [constructor; [by exists field|done]|done].
    + intros (values & Hf & ->). apply Forall2_cons_inv_l in Hf as (j & values' & (field & Hfield & Hj) & Hf & ->).
      unfold field_of in Hfield. cbn [fst snd] in Hfield, Hj. rewrite Hfield. cbn [ok_or mbind outcome_bind]. rewrite Hj.
      cbn [mbind outcome_bind]. apply IH. by exists values'.
Qed.
End Fields.

Lemma zip_fst {X Y} (l : list X) (k : list Y) : List.length l = List.length k -> (zip l k).*1 = l.
Proof. revert k. induction l as [|x l IH]; intros [|y k] Hl; try done. cbn. f_equal. apply IH. by injection Hl. Qed.

(** With distinct names, equal objects have equal rows. *)
Lemma objects_eq (names : list string) (values values' : list Value) :
  NoDup names -> List.length values = List.length names -> List.length values' = List.length names ->
  bm_of_list (zip names values) = bm_of_list (zip names values') <-> values = values'.
Proof.
  intros Hn Hl Hl'. split; [|by intros ->]. intros Heq. apply list_eq. intros i.
  assert (Hat : forall (l : list Value) name x, List.length l = List.length names -> names !! i = Some name -> l !! i = Some x ->
    bm_get name (bm_of_list (zip names l)) = Some x).
  { intros l name x Hlen Hname Hx. apply bm_get_unique; [by rewrite zip_fst|]. apply (list_elem_of_lookup_2 _ i).
    apply lookup_zip_Some. by split. }
  destruct (names !! i) as [name|] eqn:Hname.
  - apply lookup_lt_Some in Hname as Hi. destruct (lookup_lt_is_Some_2 values i ltac:(lia)) as [x Hx].
    destruct (lookup_lt_is_Some_2 values' i ltac:(lia)) as [y Hy]. rewrite Hx, Hy.
    pose proof (Hat _ _ _ Hl eq_refl Hx) as H1'. pose proof (Hat _ _ _ Hl' eq_refl Hy) as H2'. congruence.
  - apply lookup_ge_None in Hname. rewrite !lookup_ge_None_2 by lia. done.
Qed.

Context (float_text_inj : forall bits bits', float_is_finite bits = true -> float_is_finite bits' = true ->
  float_text bits = float_text bits' -> bits = bits').
(** The names of a record's fields are distinct. *)
Context (field_names : Forall (fun record => NoDup (r_fields record).*1) (m_record_types module)).

Lemma declared_names identity declaration : declared identity = Some declaration -> NoDup (r_fields declaration).*1.
Proof.
  intros Hd%find_some. rewrite Forall_forall in field_names. apply field_names, list_elem_of_In, Hd.
Qed.

Lemma forall2_external (f : VmValue -> Outcome Message Value) (R : VmValue -> VmValue -> Prop) l k js js' :
  (forall v w j j', v ∈ l -> w ∈ k -> f v = Ok j -> f w = Ok j' -> j = j' <-> R v w) ->
  Forall2 (fun v j => f v = Ok j) l js -> Forall2 (fun w j => f w = Ok j) k js' -> js = js' <-> Forall2 R l k.
Proof.
  intros Hf Hl. revert k js' Hf. induction Hl as [|v j l js Hv Hl IH]; intros k js' Hf Hk.
  - inversion Hk; subst; split; try done. intros Hr. by inversion Hr.
  - inversion Hk as [|w j' k' js'' Hw Hk']; subst; [split; [done|]; intros Hr; by inversion Hr|].
    pose proof (Hf v w j j' ltac:(by left) ltac:(by left) Hv Hw) as Hhead.
    pose proof (IH k' js'' (fun a b c d Ha Hb => Hf a b c d ltac:(by right) ltac:(by right)) Hk') as Htail.
    split.
    + intros [= -> ->]. constructor; [by apply Hhead|by apply Htail].
    + intros Hr. apply Forall2_cons in Hr as [Ha%Hhead Hb%Htail]. by subst.
Qed.

(** External values of one type are equal exactly when the data is. *)
Lemma external_separates fuel ty v w j j' :
  external_value fuel module ty v = Ok j -> external_value fuel module ty w = Ok j' -> j = j' <-> same_data ty v w.
Proof.
  revert ty v w j j'. induction fuel as [|fuel IH]; intros ty v w j j' Hv Hw; [done|]. cbn [external_value] in Hv, Hw.
  destruct ty as [identity name|element bound|element rest| |ity|rest| |rest|identity name|name|rest]; try done.
  - destruct v as [type_id value_name l| | | | | | | |]; try done. destruct w as [type_id' value_name' k| | | | | | | |]; try done.
    destruct (negb _); [done|]. destruct (negb (String.eqb identity type_id' && _)); [done|].
    fold (declared identity) in Hv, Hw. destruct (declared identity) as [declaration|] eqn:Hd; [|done].
    cbn [ok_or mbind outcome_bind] in Hv, Hw. destruct (negb _); [done|]. destruct (negb (Nat.eqb (List.length k) _)); [done|].
    destruct (fold_outcome _ [] (r_fields declaration)) as [object|e|e] eqn:Eo in Hv; [|done|done]. injection Hv as <-.
    destruct (fold_outcome _ [] (r_fields declaration)) as [object'|e|e] eqn:Eo' in Hw; [|done|done]. injection Hw as <-.
    apply (external_fields (external_value fuel module)) in Eo as (values & Hf & ->), Eo' as (values' & Hf' & ->).
    pose proof (declared_names identity declaration Hd) as Hn.
    assert (List.length values = List.length (r_fields declaration).*1 /\ List.length values' = List.length (r_fields declaration).*1) as [Hl Hl'].
    { rewrite length_fmap. apply Forall2_length in Hf, Hf'. by split. }
    pose proof (objects_eq _ values values' Hn Hl Hl') as Hobj. unfold bm_of_list in Hobj.
    assert (Hrows : values = values' <-> forall row, row ∈ r_fields declaration -> exists x y,
      field_of row.1 l = Some x /\ field_of row.1 k = Some y /\ same_data row.2 x.2 y.2).
    { clear Hobj Hn Hl Hl' Hd. revert values' Hf'. induction Hf as [|row j rows values (x & Hx & Hj) Hf IHf]; intros values' Hf'.
      - inversion Hf'; subst. split; [by intros _ row ?%elem_of_nil|done].
      - apply Forall2_cons_inv_l in Hf' as (j' & values'' & (y & Hy & Hj') & Hf' & ->).
        pose proof (IH _ _ _ _ _ Hj Hj') as Hhead. specialize (IHf values'' Hf'). split.
        + intros [= -> ->] row' [->|Hin]%elem_of_cons; [exists x, y; split_and!; [done|done|by apply Hhead]|by apply IHf].
        + intros Hall. destruct (Hall row ltac:(by left)) as (x' & y' & Hx' & Hy' & Hsame).
          rewrite Hx in Hx'. rewrite Hy in Hy'. injection Hx' as <-. injection Hy' as <-.
          rewrite (proj2 Hhead Hsame). f_equal. apply IHf. intros row' Hin. apply Hall. by right. }
    split.
    + intros [= Heq]. econstructor; [exact Hd|]. by apply Hrows, Hobj.
    + intros Hsame. inversion Hsame as [| | | | |? ? declaration' ? ? ? ? ? ? Hd' Hall|]; subst.
      rewrite Hd in Hd'. injection Hd' as <-. f_equal. by apply Hobj, Hrows.
  - destruct v as [| |l| | | | | |]; try done. destruct w as [| |k| | | | | |]; try done.
    destruct (check_bound bound (Z.of_nat (List.length l))) as [[]|e|e] eqn:Hb; [|done|done].
    destruct (check_bound bound (Z.of_nat (List.length k))) as [[]|e|e] eqn:Hb'; [|done|done].
    cbn [mbind outcome_bind] in Hv, Hw. case_bool_decide as Hbyte.
    + subst element. destruct (map_outcome _ l) as [bytes|e|e] eqn:El; [|done|done]. injection Hv as <-.
      destruct (map_outcome _ k) as [bytes'|e|e] eqn:Ek; [|done|done]. injection Hw as <-.
      apply map_outcome_ok in El, Ek.
      assert (Hbytes : forall l bytes, Forall2 (fun v b => byte_item "typed byte sequence contains a non-byte value" v = Ok b) l bytes ->
        l = map VByte bytes).
      { clear. intros l bytes Hf. induction Hf as [|v b l bytes Hv _ IHf]; [done|]. cbn. f_equal; [|done].
        destruct v; try done. by injection Hv as ->. }
      apply Hbytes in El, Ek. subst. rewrite !length_map in Hb, Hb'. rewrite external_bytes_inj.
      * split.
        -- intros ->. constructor. clear. induction bytes' as [|b bytes IHb]; constructor; [constructor|done].
        -- intros Hsame. inversion Hsame as [| | | |? ? ? ? Hall| |]; subst. clear - Hall. revert bytes' Hall.
           induction bytes as [|b bytes IHb]; intros [|b' bytes'] Hall; inversion Hall as [|? ? ? ? Hone Hrest]; try done; subst.
           inversion Hone; subst. f_equal. by apply IHb.
      * intros ->. cbn [check_bound] in Hb, Hb'. destruct (Z.eqb_spec (Z.of_nat (List.length bytes)) 32); [|done].
        destruct (Z.eqb_spec (Z.of_nat (List.length bytes')) 32); [lia|done].
    + destruct (map_outcome _ l) as [js|e|e] eqn:El; [|done|done]. injection Hv as <-.
      destruct (map_outcome _ k) as [js'|e|e] eqn:Ek; [|done|done]. injection Hw as <-.
      apply map_outcome_ok in El, Ek.
      pose proof (forall2_external (external_value fuel module element) (same_data element) l k js js'
        (fun a b c d _ _ Ha Hb => IH element a b c d Ha Hb) El Ek) as Hall.
      split; [intros [= Heq]; constructor; by apply Hall|].
      intros Hsame. inversion Hsame as [| | | |? ? ? ? Hf| |]; subst. f_equal. by apply Hall.
  - by destruct v.
  - destruct v as [| | | |b| | | |]; try done. destruct w as [| | | |b'| | | |]; try done. injection Hv as <-. injection Hw as <-.
    split; [intros [= ->]; constructor|]. intros Hsame. by inversion Hsame.
  - destruct v as [| | |n bits signed| | | | |]; try done. destruct w as [| | |n' bits' signed'| | | | |]; try done.
    destruct (_ && _); [|done]. destruct ((Ssa.bits ity =? bits' mod 65536)%Z && _); [|done].
    destruct (number_from_i128 n) as [x|] eqn:Hx; [|done]. destruct (number_from_i128 n') as [y|] eqn:Hy; [|done].
    injection Hv as <-. injection Hw as <-. split.
    + intros [= Heq]. subst y. assert (n = n') as ->; [|constructor]. unfold number_from_i128 in Hx, Hy.
      destruct ((0 <=? n)%Z && (n <=? U64_MAX)%Z) eqn:En, ((0 <=? n')%Z && (n' <=? U64_MAX)%Z) eqn:En'.
      * injection Hx as <-. injection Hy as Hy. apply andb_true_iff in En as [?%Z.leb_le _], En' as [?%Z.leb_le _].
        apply (f_equal Z.of_N) in Hy. rewrite !Z2N.id in Hy by lia. done.
      * injection Hx as <-. by destruct (_ && (n' <? 0)%Z).
      * injection Hy as <-. by destruct (_ && (n <? 0)%Z).
      * destruct (_ && (n <? 0)%Z); [|done]. destruct (_ && (n' <? 0)%Z); [|done]. congruence.
    + intros Hsame. inversion Hsame; subst. congruence.
  - destruct v as [| | | | | |bits| |]; try done. destruct w as [| | | | | |bits'| |]; try done.
    unfold number_from_f64 in Hv, Hw. destruct (float_is_finite bits) eqn:Hb; [|done]. destruct (float_is_finite bits') eqn:Hb'; [|done].
    injection Hv as <-. injection Hw as <-. split.
    + intros [= Heq]. rewrite (float_text_inj _ _ Hb Hb' Heq). constructor.
    + intros Hsame. by inversion Hsame.
  - destruct v as [| | | | |b| | |]; try done. destruct w as [| | | | |b'| | |]; try done. injection Hv as <-. injection Hw as <-.
    split; [intros Heq%(inj byte_number); subst; constructor|]. intros Hsame. by inversion Hsame.
  - by destruct v.
  - destruct v as [|type_id variant [|] rest| | | | | | |]; try done. destruct w as [|type_id' variant' [|] rest'| | | | | | |]; try done.
    destruct (String.eqb identity type_id); [|done]. destruct (String.eqb identity type_id'); [|done].
    destruct (String.eqb (last_segment variant) ""); [done|]. destruct (String.eqb (last_segment variant') ""); [done|].
    injection Hv as <-. injection Hw as <-. split; [intros [= Heq]; by constructor|]. intros Hsame. inversion Hsame; subst. congruence.
Qed.

(** The steps of a digest. *)
Lemma digest_steps p v r :
  structured_digest p [v] = Ok r -> exists ty j text bytes, infer_value_type (sp_ssa_module p) v = Ok ty /\
    external_value EXTERNAL_DEPTH (sp_ssa_module p) ty v = Ok j /\ json_to_vec j = Ok text /\
    digest_bytes 32 (sha256_hex text) = Ok bytes /\ r = response [VSequence (map VByte bytes)].
Proof.
  unfold structured_digest. generalize EXTERNAL_DEPTH, 32, (64 * 1024)%Z. intros depth width bound.
  intros (ty & Hty & (j & Hj & (text & Htext & Hr)%outcome_bind_ok)%outcome_bind_ok)%outcome_bind_ok.
  destruct (bound <? byte_length text)%Z; [done|]. apply outcome_bind_ok in Hr as (bytes & Hb & [= <-]).
  exists ty, j, text, bytes. split_and!; try done. by destruct (json_to_vec j).
Qed.

(** The text of which a digest of [v] is the hash. *)
Definition CanonicalText (v : VmValue) (text : string) : Prop :=
  exists ty j, infer_value_type module v = Ok ty /\ external_value EXTERNAL_DEPTH module ty v = Ok j /\ json_to_vec j = Ok text.

(** What a digest tells apart.  Over operands of one inferred type, the
    provider's digests are equal exactly when the operands carry the same data
    -- the same numbers, bytes, texts, variants and elements in order, and the
    same declared fields in any order -- given that SHA-256 is printed as 64
    hexadecimal digits and does not collide on the texts of the two operands,
    that JSON and the digits of finite floats are written one-to-one, and that
    the fields of a record have distinct names.  No two encodings of different
    data run together: bytes that are text, bytes that are not and digests of
    32 bytes are kept apart. *)
Theorem digest_separates p v w ty r r' :
  sp_ssa_module p = module -> (forall s, lower_hex 64 (sha256_hex s)) ->
  (forall s t, CanonicalText v s -> CanonicalText w t -> sha256_hex s = sha256_hex t -> s = t) ->
  (forall a b text, json_to_vec a = Ok text -> json_to_vec b = Ok text -> a = b) ->
  infer_value_type module v = Ok ty -> infer_value_type module w = Ok ty ->
  structured_digest p [v] = Ok r -> structured_digest p [w] = Ok r' -> r = r' <-> same_data ty v w.
Proof.
  intros Hmodule Hhex Hsha Hjson Hv Hw (ty1 & j & text & bytes & Hty1 & Ej & Et & Hb & ->)%digest_steps
    (ty2 & j' & text' & bytes' & Hty2 & Ej' & Et' & Hb' & ->)%digest_steps.
  rewrite Hmodule in Hty1, Ej, Hty2, Ej'. rewrite Hv in Hty1. injection Hty1 as <-. rewrite Hw in Hty2. injection Hty2 as <-.
  rewrite <- (external_separates EXTERNAL_DEPTH ty v w j j' Ej Ej'). split.
  - intros Heq. assert (bytes = bytes') as <-.
    { assert (map VByte bytes = map VByte bytes') as Hmap by (by injection Heq). clear - Hmap. revert bytes' Hmap.
      induction bytes as [|b bytes IHb]; intros [|b' bytes'] Hmap; try done. injection Hmap as -> Hmap. f_equal. by apply IHb. }
    assert (text = text') as <-; [|by eapply Hjson].
    apply Hsha; [by exists ty, j|by exists ty, j'|]. exact (digest_bytes_inj 32 _ _ bytes (Hhex text) (Hhex text') Hb Hb').
  - intros ->. rewrite Et in Et'. injection Et' as <-. congruence.
Qed.
End Digest.
