(* ===== verification/RunnerBindingTheorems.v ===== *)
(** Which dispatch bindings the runner accepts. *)

From Stdlib Require Import Ascii String.
From S2P Require Export Runner.

Local Open Scope string_scope.
Local Open Scope list_scope.

(** ** Maps filled by a loop *)

Section Grouping.
Context {K : Type} `{RustOrd K, EqDecision K}.

(** What a loop over rows leaves at one key of a map. *)
Definition values_at {X} (k : K) (rows : list (K * X)) : list X := (List.filter (fun row => bool_decide (row.1 = k)) rows).*2.

Lemma fold_update_get {X V} (dflt : V) (f : X -> V -> V) (rows : list (K * X)) m k :
  bm_get k (fold_left (fun m row => bm_update row.1 dflt (f row.2) m) rows m) =
  match values_at k rows with
  | [] => bm_get k m
  | values => Some (fold_left (fun v x => f x v) values (default dflt (bm_get k m)))
  end.
Proof.
  revert m. induction rows as [|[k' x] rows IH]; intros m; [done|]. cbn [fold_left]. rewrite IH. unfold values_at, bm_update.
  cbn [List.filter fst snd]. rewrite bm_get_put. case_decide as Hk.
  - subst k'. rewrite (bool_decide_true (k = k)) by done. cbn [fmap list_fmap snd fold_left default].
    destruct (List.filter _ rows) as [|row l]; [done|]. done.
  - rewrite (bool_decide_false (k' = k)) by congruence. done.
Qed.

Lemma fold_update_ascending {X V} (dflt : V) (f : X -> V -> V) (rows : list (K * X)) m :
  bm_ascending m -> bm_ascending (fold_left (fun m row => bm_update row.1 dflt (f row.2) m) rows m).
Proof. revert m. induction rows as [|row rows IH]; intros m Hm; [done|]. cbn. by apply IH, bm_put_ascending. Qed.

Lemma elem_of_values_at {X} k (rows : list (K * X)) x : x ∈ values_at k rows <-> (k, x) ∈ rows.
Proof.
  unfold values_at. rewrite list_elem_of_fmap. split.
  - intros ([k' y] & -> & Hin%list_elem_of_In). apply filter_In in Hin as [Hin Hk].
    apply bool_decide_eq_true in Hk. cbn in Hk. subst. by apply list_elem_of_In.
  - intros Hin. exists (k, x). split; [done|]. apply list_elem_of_In, filter_In. split; [by apply list_elem_of_In|].
    by apply bool_decide_eq_true.
Qed.
End Grouping.

Lemma fold_bs_add {X} `{RustOrd X, EqDecision X} (l s : list X) : fold_left (fun v x => bs_add x v) l s = bs_extend s l.
Proof. done. Qed.

Lemma values_at_map {A K X} `{EqDecision K} (f : A -> K) (g : A -> X) (k : K) (l : list A) :
  values_at k (map (fun a => (f a, g a)) l) = map g (List.filter (fun a => bool_decide (f a = k)) l).
Proof. unfold values_at. induction l as [|a l IH]; [done|]. cbn. case_bool_decide; cbn; by rewrite IH. Qed.

(** Counting by key: one key only, when all are equal. *)
Lemma counted_single {K} `{RustOrd K, EqDecision K} (l : list K) k n :
  fold_left (fun m x => bm_update x 0 S m) l [] = [(k, n)] <-> l <> [] /\ n = List.length l /\ forall x, x ∈ l -> x = k.
Proof.
  assert (Hget : forall k', bm_get k' (fold_left (fun m x => bm_update x 0 S m) l []) =
    match List.filter (fun x => bool_decide (x = k')) l with [] => None | values => Some (List.length values) end).
  { intros k'. pose proof (fold_update_get 0 (fun _ : unit => S) (map (fun x => (x, tt)) l) [] k') as Hg.
    assert (fold_left (fun m row => bm_update row.1 0 S m) (map (fun x => (x, tt)) l) [] =
      fold_left (fun m x => bm_update x 0 S m) l []) as Heq.
    { generalize (@nil (K * nat)). clear. induction l as [|x l IH]; intros m; [done|]. cbn. apply IH. }
    cbv beta in Hg. rewrite Heq in Hg. rewrite Hg, values_at_map. destruct (List.filter _ l) as [|x values]; [done|]. cbn [map default].
    f_equal. cbn. clear. assert (forall n, fold_left (fun v (_ : unit) => S v) (map (fun _ : K => tt) values) n = n + List.length values) as Hf
      by (induction values as [|y values IH]; intros m; cbn; [lia|rewrite IH; lia]). rewrite Hf. lia. }
  assert (Hasc : bm_ascending (fold_left (fun m x => bm_update x 0 S m) l [])).
  { assert (forall m : list (K * nat), bm_ascending m -> bm_ascending (fold_left (fun m x => bm_update x 0 S m) l m)) as Ha
      by (clear Hget; induction l as [|x l IH]; intros m Hm; [done|]; cbn; apply IH, bm_put_ascending, Hm).
    apply Ha. constructor. }
  assert (Hall : (forall x, x ∈ l -> x = k) -> List.filter (fun x => bool_decide (x = k)) l = l).
  { intros Hx. apply filter_all. intros x Hin. apply bool_decide_eq_true. auto. }
  split.
  - intros Heq. rewrite Heq in Hget. assert (forall x, x ∈ l -> x = k) as Hx.
    { intros x Hin. specialize (Hget x). destruct (decide (x = k)) as [|Hne]; [done|]. exfalso.
      assert (bm_get x [(k, n)] = None) as Hnone.
      { apply eq_None_not_Some. rewrite bm_get_keys. cbn. by rewrite list_elem_of_singleton. }
      rewrite Hnone in Hget. assert (x ∈ List.filter (fun y => bool_decide (y = x)) l) as Hf.
      { apply list_elem_of_In, filter_In. split; [by apply list_elem_of_In|by apply bool_decide_eq_true]. }
      destruct (List.filter _ l); [by apply elem_of_nil in Hf|done]. }
    specialize (Hget k). rewrite (Hall Hx) in Hget.
    assert (bm_get k [(k, n)] = Some n) as Hk by (apply bm_elem_get; [repeat constructor|by left]).
    rewrite Hk in Hget. destruct l; [done|]. injection Hget as ->. by split_and!.
  - intros (Hne & -> & Hx). apply bm_ext; [done|repeat constructor|]. intros k'. rewrite Hget.
    destruct (decide (k' = k)) as [->|Hk].
    + rewrite (Hall Hx). assert (bm_get k [(k, List.length l)] = Some (List.length l)) as ->
        by (apply bm_elem_get; [repeat constructor|by left]). by destruct l.
    + assert (List.filter (fun x => bool_decide (x = k')) l = []) as ->.
      { destruct (List.filter (fun y => bool_decide (y = k')) l) as [|x values] eqn:E; [done|]. assert (x ∈ List.filter (fun y => bool_decide (y = k')) l) as Hin
          by (rewrite E; left). apply list_elem_of_In, filter_In in Hin as [Hin Hb]. apply bool_decide_eq_true in Hb. subst.
        apply list_elem_of_In, Hx in Hin. congruence. }
      symmetry. apply eq_None_not_Some. rewrite bm_get_keys. cbn. by rewrite list_elem_of_singleton.
Qed.

(** ** The loop over the instructions *)

Section Bindings.
Context `{ModelCrate, RunnerCrate}.

(** A host call: its alias, its operation and the identity it uses. *)
Record HostCallRow : Type := mkRow { hr_alias : string; hr_operation : string; hr_identity : string }.
Definition host_call (i : SsaInstruction) : option HostCallRow :=
  match i_kind i, i_capability_uses i with
  | HostCall capability operation, [use] => Some (mkRow capability operation (cu_capability use))
  | _, _ => None
  end.
Definition call_authorities (i : SsaInstruction) : list string :=
  match i_kind i with Call _ required_capabilities _ => required_capabilities | _ => [] end.

(** Every capability the instruction uses is a requirement of the artifact; a
    host call uses exactly one, an authority of a call ends in an alias. *)
Definition admissible_instruction (capabilities : list string) (i : SsaInstruction) : Prop :=
  match i_kind i with
  | HostCall _ _ => exists use, i_capability_uses i = [use] /\ cu_capability use ∈ capabilities
  | Call _ required_capabilities _ =>
      Forall (fun identity => identity ∈ capabilities /\ last_segment identity <> "") required_capabilities
  | _ => True
  end.

Definition add_authority (m : list (string * list string)) (identity : string) : list (string * list string) :=
  add_to (last_segment identity) identity m.
Definition host_call_step (st : HostCalls) (i : SsaInstruction) : HostCalls :=
  let st := match host_call i with
    | Some (mkRow capability operation identity) =>
        mkHostCalls (add_to capability identity (hc_identities_by_alias st))
          (bm_update identity [] (bm_update capability 0 S) (hc_aliases_by_identity st))
          (add_to capability operation (hc_operations_by_alias st))
          (hc_call_authorities_by_alias st) (S (hc_count st))
    | None => st
    end in
  mkHostCalls (hc_identities_by_alias st) (hc_aliases_by_identity st) (hc_operations_by_alias st)
    (fold_left add_authority (call_authorities i) (hc_call_authorities_by_alias st)) (hc_count st).

Lemma authorities_ok capabilities l m m' :
  fold_outcome (fun authorities identity =>
    if negb (bs_mem identity (bs_of_list capabilities)) then
      fail ("Call uses capability identity " +:+ identity +:+ " absent from artifact requirements")
    else if String.eqb (last_segment identity) "" then fail ("Call capability identity " +:+ identity +:+ " has no source alias")
    else Ok (add_to (last_segment identity) identity authorities)) m l = Ok m' <->
  Forall (fun identity => identity ∈ capabilities /\ last_segment identity <> "") l /\ m' = fold_left add_authority l m.
Proof.
  revert m. induction l as [|identity l IH]; intros m; cbn [fold_outcome fold_left].
  - split; [intros [= ->]; by split|by intros [_ ->]].
  - rewrite Forall_cons. destruct (bs_mem identity (bs_of_list capabilities)) eqn:Hm; cbn [negb mbind outcome_bind].
    + apply bs_mem_spec in Hm. rewrite elem_of_bs_of_list in Hm. destruct (String.eqb_spec (last_segment identity) "") as [He|He]; cbn [mbind outcome_bind].
      * split; [done|]. by intros [[[_ ?] _] _].
      * rewrite IH. change (add_authority m identity) with (add_to (last_segment identity) identity m). split; [intros [? ?]|intros [[_ ?] ?]]; by split.
    + split; [done|]. intros [[[Hin _] _] _]. apply elem_of_bs_of_list, bs_mem_spec in Hin. congruence.
Qed.

Lemma add_instruction_ok capabilities st i st' :
  add_instruction (bs_of_list capabilities) st i = Ok st' <-> admissible_instruction capabilities i /\ st' = host_call_step st i.
Proof.
  unfold add_instruction, admissible_instruction, host_call_step, host_call, call_authorities.
  destruct (i_kind i) eqn:Hk; try (split; [intros [= <-]; split; [done|by destruct st]|intros [_ ->]; by destruct st]).
  - split.
    + intros Ha. apply outcome_bind_ok in Ha as (m & Hm & [= <-]). apply authorities_ok in Hm as [Hf ->]. by split.
    + intros [Hf ->]. pose proof (proj2 (authorities_ok capabilities required_capabilities (hc_call_authorities_by_alias st) _)
        (conj Hf eq_refl)) as Hok. cbv zeta. rewrite Hok. done.
  - destruct (i_capability_uses i) as [|use [|use' uses]]; try (split; [done|]; by intros [(u & [=] & _) _]).
    destruct (bs_mem (cu_capability use) (bs_of_list capabilities)) eqn:Hm; cbn [negb].
    + apply bs_mem_spec in Hm. rewrite elem_of_bs_of_list in Hm. split; [intros [= <-]; split; [by exists use|done]|by intros [_ ->]].
    + split; [done|]. intros [(u & [= <-] & Hin) _]. apply elem_of_bs_of_list, bs_mem_spec in Hin. congruence.
Qed.

Lemma add_instructions_ok capabilities l st st' :
  fold_outcome (add_instruction (bs_of_list capabilities)) st l = Ok st' <->
  Forall (admissible_instruction capabilities) l /\ st' = fold_left host_call_step l st.
Proof.
  revert st. induction l as [|i l IH]; intros st; cbn [fold_outcome fold_left].
  - split; [intros [= ->]; by split|by intros [_ ->]].
  - rewrite Forall_cons. split.
    + intros Ha. apply outcome_bind_ok in Ha as (st1 & [Hi ->]%add_instruction_ok & [Hl ->]%IH). by split.
    + intros [[Hi Hl] ->]. rewrite (proj2 (add_instruction_ok capabilities st i _) (conj Hi eq_refl)). cbn [mbind outcome_bind].
      by apply IH.
Qed.

(** What the loop collects, field by field. *)
Definition grouped (rows : list (string * string)) : list (string * list string) :=
  fold_left (fun m row => bm_update row.1 [] (bs_add row.2) m) rows [].
Definition counted (rows : list (string * string)) : list (string * list (string * nat)) :=
  fold_left (fun m row => bm_update row.1 [] (bm_update row.2 0 S) m) rows [].

Lemma collected l :
  let rows := omap host_call l in
  fold_left host_call_step l no_host_calls = mkHostCalls
    (grouped (map (fun row => (hr_alias row, hr_identity row)) rows))
    (counted (map (fun row => (hr_identity row, hr_alias row)) rows))
    (grouped (map (fun row => (hr_alias row, hr_operation row)) rows))
    (grouped (map (fun identity => (last_segment identity, identity)) (l ≫= call_authorities)))
    (List.length rows).
Proof.
  cbv zeta. unfold grouped, counted.
  assert (Hgen : forall l st, fold_left host_call_step l st = mkHostCalls
    (fold_left (fun m row => bm_update row.1 [] (bs_add row.2) m) (map (fun row => (hr_alias row, hr_identity row)) (omap host_call l))
      (hc_identities_by_alias st))
    (fold_left (fun m row => bm_update row.1 [] (bm_update row.2 0 S) m)
      (map (fun row => (hr_identity row, hr_alias row)) (omap host_call l)) (hc_aliases_by_identity st))
    (fold_left (fun m row => bm_update row.1 [] (bs_add row.2) m) (map (fun row => (hr_alias row, hr_operation row)) (omap host_call l))
      (hc_operations_by_alias st))
    (fold_left (fun m row => bm_update row.1 [] (bs_add row.2) m)
      (map (fun identity => (last_segment identity, identity)) (l ≫= call_authorities)) (hc_call_authorities_by_alias st))
    (List.length (omap host_call l) + hc_count st)).
  { clear l. induction l as [|i l IH]; intros st; [by destruct st|].
    assert (Happ : map (fun identity => (last_segment identity, identity)) ((i :: l) ≫= call_authorities) =
      map (fun identity => (last_segment identity, identity)) (call_authorities i) ++
      map (fun identity => (last_segment identity, identity)) (l ≫= call_authorities)) by (cbn; by rewrite map_app).
    assert (Hauth : forall m, fold_left (fun m row => bm_update row.1 [] (bs_add row.2) m)
      (map (fun identity => (last_segment identity, identity)) (call_authorities i)) m = fold_left add_authority (call_authorities i) m).
    { generalize (call_authorities i). clear. induction l as [|x l IH]; intros m; [done|]. cbn. apply IH. }
    cbn [fold_left]. rewrite IH, Happ, fold_left_app, Hauth. unfold host_call_step. cbn [omap list_omap].
    destruct (host_call i) as [[capability operation identity]|]; cbn; f_equal; lia. }
  rewrite Hgen. cbn. f_equal. lia.
Qed.

Lemma grouped_get rows k :
  bm_get k (grouped rows) = match values_at k rows with [] => None | values => Some (bs_of_list values) end.
Proof. unfold grouped. rewrite (fold_update_get [] bs_add rows [] k). by destruct (values_at k rows). Qed.

Lemma counted_get rows k :
  bm_get k (counted rows) =
  match values_at k rows with [] => None | values => Some (fold_left (fun m x => bm_update x 0 S m) values []) end.
Proof. unfold counted. rewrite (fold_update_get [] (fun alias => bm_update alias 0 S) rows [] k). by destruct (values_at k rows). Qed.

Lemma grouped_default rows k : default [] (bm_get k (grouped rows)) = bs_of_list (values_at k rows).
Proof. rewrite grouped_get. by destruct (values_at k rows). Qed.

(** The host calls of a module, and the authorities of its other calls. *)
Definition host_calls (ssa : SsaModule) : list HostCallRow := omap host_call (module_instructions_of ssa).
Definition authorities (ssa : SsaModule) : list string := module_instructions_of ssa ≫= call_authorities.

(** What the binding of an identity to an alias states of the module. *)
Definition binds (capabilities : list string) (ssa : SsaModule) (identity alias : string) (b : DispatchBinding) : Prop :=
  identity ∈ capabilities /\
  (exists row, row ∈ host_calls ssa /\ hr_identity row = identity) /\
  (forall row, row ∈ host_calls ssa -> hr_alias row = alias <-> hr_identity row = identity) /\
  b = mkDispatch identity alias
    (List.length (List.filter (fun row => bool_decide (hr_identity row = identity)) (host_calls ssa)))
    (bs_of_list (map hr_operation (List.filter (fun row => bool_decide (hr_alias row = alias)) (host_calls ssa))))
    (bs_of_list (List.filter (fun identity => bool_decide (last_segment identity = alias)) (authorities ssa))).

Lemma single_identity rows alias identity :
  bm_get alias (grouped (map (fun row => (hr_alias row, hr_identity row)) rows)) = Some [identity] <->
  (exists row, row ∈ rows /\ hr_alias row = alias) /\ forall row, row ∈ rows -> hr_alias row = alias -> hr_identity row = identity.
Proof.
  rewrite grouped_get.
  assert (Hin : forall x, x ∈ values_at alias (map (fun row => (hr_alias row, hr_identity row)) rows) <->
    exists row, row ∈ rows /\ hr_alias row = alias /\ hr_identity row = x).
  { intros x. rewrite elem_of_values_at, list_elem_of_fmap. split.
    - intros (row & [= -> ->] & Hr). by exists row.
    - intros (row & Hr & <- & <-). by exists row. }
  destruct (values_at alias _) as [|v values] eqn:Ev.
  - split; [done|]. intros [(row & Hr & Ha) _]. assert (hr_identity row ∈ @nil string) as He by (apply Hin; by exists row).
    by apply elem_of_nil in He.
  - split.
    + intros [= Heq]. split.
      * destruct (proj1 (Hin v)) as (row & Hr & Ha & _); [left|]. by exists row.
      * intros row Hr Ha. assert (hr_identity row ∈ bs_of_list (v :: values)) as Hb by (apply elem_of_bs_of_list, Hin; by exists row).
        rewrite Heq in Hb. by apply list_elem_of_singleton in Hb.
    + intros [_ Hall]. f_equal. apply ascending_ext; [apply bs_of_list_ascending|repeat constructor|].
      intros x. rewrite elem_of_bs_of_list, list_elem_of_singleton, Hin. split.
      * intros (row & Hr & Ha & <-). by apply Hall.
      * intros ->. destruct (proj1 (Hin v)) as (row & Hr & Ha & _); [left|]. exists row. split_and!; [done|done|by apply Hall].
Qed.

Lemma single_alias rows identity alias n :
  bm_get identity (counted (map (fun row => (hr_identity row, hr_alias row)) rows)) = Some [(alias, n)] <->
  (exists row, row ∈ rows /\ hr_identity row = identity) /\
  (forall row, row ∈ rows -> hr_identity row = identity -> hr_alias row = alias) /\
  n = List.length (List.filter (fun row => bool_decide (hr_identity row = identity)) rows).
Proof.
  rewrite counted_get, values_at_map. set (chosen := List.filter _ rows).
  assert (Hin : forall row, row ∈ chosen <-> row ∈ rows /\ hr_identity row = identity).
  { intros row. subst chosen. rewrite !list_elem_of_In, filter_In. by rewrite bool_decide_eq_true. }
  assert (Hval : match map hr_alias chosen with
    | [] => None | values => Some (fold_left (fun m x => bm_update x 0 S m) values []) end = Some [(alias, n)] <->
    fold_left (fun m x => bm_update x 0 S m) (map hr_alias chosen) [] = [(alias, n)]).
  { destruct (map hr_alias chosen) as [|a l]; [done|]. split; [by intros [= Heq]|by intros ->]. }
  rewrite Hval, counted_single, length_map. clear Hval. split.
  - intros (Hne & -> & Hall). split_and!; [|intros row Hr Hi; apply Hall; apply list_elem_of_fmap_2, Hin; by split|done].
    destruct chosen as [|row l]; [done|]. exists row. apply Hin. left.
  - intros ((row & Hr & Hi) & Hall & ->). split_and!.
    + intros Hnil. assert (row ∈ chosen) as Hrow by (apply Hin; by split). destruct chosen; [by apply elem_of_nil in Hrow|done].
    + done.
    + intros a (row' & -> & [Hr' Hi']%Hin)%list_elem_of_fmap. auto.
Qed.

Lemma dispatch_binding_ok capabilities ssa identity alias b :
  dispatch_binding capabilities (fold_left host_call_step (module_instructions_of ssa) no_host_calls) identity alias = Ok b <->
  binds capabilities ssa identity alias b.
Proof.
  rewrite collected. cbv zeta. fold (host_calls ssa). fold (authorities ssa). unfold dispatch_binding, binds.
  cbn [hc_identities_by_alias hc_aliases_by_identity hc_operations_by_alias hc_call_authorities_by_alias].
  set (rows := host_calls ssa).
  case_bool_decide as Hreq; cbn [negb]; [|split; [done|by intros [? _]]].
  pose proof (single_alias rows identity) as Hone.
  destruct (bm_get identity (counted _)) as [[|[actual n] [|other more]]|] eqn:Ea; cbn [ok_or mbind outcome_bind].
  - split; [done|]. intros (_ & Hex & Hall & _). pose proof (proj2 (Hone alias _) (conj Hex (conj (fun r Hr => proj2 (Hall r Hr)) eq_refl))) as Hn.
    congruence.
  - destruct (proj1 (Hone actual n) eq_refl) as (Hex & Hactual & ->).
    destruct (String.eqb_spec actual alias) as [->|Hne]; cbn [negb]; cycle 1.
    { split; [done|]. intros (_ & (row & Hr & Hi) & Hall & _). destruct Hne. rewrite <- (Hactual row Hr Hi). by apply Hall. }
    pose proof (single_identity rows alias identity) as Hsingle.
    destruct (bm_get alias (grouped _)) as [identities|] eqn:Ei; cbn [expect mbind outcome_bind]; cycle 1.
    { exfalso. destruct Hex as (row & Hr & Hi). specialize (Hactual row Hr Hi). rewrite grouped_get in Ei.
      destruct (values_at alias _) as [|v values] eqn:Ev; [|done].
      assert (hr_identity row ∈ @nil string) as He.
      { rewrite <- Ev. apply elem_of_values_at, list_elem_of_fmap. exists row. by rewrite Hactual. }
      by apply elem_of_nil in He. }
    case_bool_decide as Hid; cbn [negb].
    + rewrite !grouped_default, !values_at_map, map_id.
      destruct Hsingle as [Hs _]. rewrite Hid in Hs. destruct (Hs eq_refl) as [_ Hback]. split.
      * intros [= <-]. split_and!; try done. intros row Hr. split; [by apply Hback|by apply Hactual].
      * by intros (_ & _ & _ & ->).
    + split; [done|]. intros (_ & (row & Hr & Hi) & Hall & _). destruct Hid. apply (inj Some), Hsingle.
      split; [exists row; split; [done|by apply Hall]|]. intros r Hr'. by apply Hall.
  - split; [done|]. intros (_ & Hex & Hall & _). pose proof (proj2 (Hone alias _) (conj Hex (conj (fun r Hr => proj2 (Hall r Hr)) eq_refl))) as Hn.
    congruence.
  - split; [done|]. intros (_ & Hex & Hall & _). pose proof (proj2 (Hone alias _) (conj Hex (conj (fun r Hr => proj2 (Hall r Hr)) eq_refl))) as Hn.
    congruence.
Qed.

Lemma dispatch_binding_no_panic capabilities l identity alias message :
  dispatch_binding capabilities (fold_left host_call_step l no_host_calls) identity alias <> Panic message.
Proof.
  rewrite collected. cbv zeta. unfold dispatch_binding. cbn [hc_identities_by_alias hc_aliases_by_identity].
  destruct (negb _); [done|]. pose proof (single_alias (omap host_call l) identity) as Hone.
  destruct (bm_get identity (counted _)) as [[|[actual n] [|other more]]|]; cbn [ok_or mbind outcome_bind]; try done.
  destruct (negb _); [done|]. destruct (proj1 (Hone actual n) eq_refl) as ((row & Hr & Hi) & Hactual & _).
  destruct (bm_get actual (grouped _)) as [identities|] eqn:Ei; cbn [expect mbind outcome_bind]; [by destruct (negb _)|].
  exfalso. specialize (Hactual row Hr Hi). rewrite grouped_get in Ei.
  destruct (values_at actual _) as [|v values] eqn:Ev; [|done].
  assert (hr_identity row ∈ @nil string) as He.
  { rewrite <- Ev. apply elem_of_values_at, list_elem_of_fmap. exists row. by rewrite Hactual. }
  by apply elem_of_nil in He.
Qed.

(** C39: the runner accepts a contract exactly when it describes the admitted
    module.  The authorized identities and their aliases must be two lists of
    distinct nonempty values of the same length; every capability a host call or
    a call of the module uses must be a requirement of the artifact, a host call
    using exactly one and a call's authority ending in an alias; there must be a
    host call; and for each pair, the identity must be required and used, and
    the host calls through the alias must be precisely those that use the
    identity.  Each binding then counts these host calls and lists, each once
    and in order, the operations of the alias and the authorities named after
    it.  The check never panics. *)
Theorem runner_bindings_exact admitted authorized declared bindings :
  (capability_dispatch_bindings admitted authorized declared = Ok bindings <->
   exists identities aliases ssa,
     split_binding_values authorized "authorized capability identities" = Ok identities /\
     split_binding_values declared "declared VM dispatch aliases" = Ok aliases /\
     List.length identities = List.length aliases /\ ad_ssa_module admitted = Some ssa /\
     Forall (admissible_instruction (ad_capabilities admitted)) (module_instructions_of ssa) /\ host_calls ssa <> [] /\
     Forall2 (fun pair b => binds (ad_capabilities admitted) ssa pair.1 pair.2 b) (zip identities aliases) bindings) /\
  forall message, capability_dispatch_bindings admitted authorized declared <> Panic message.
Proof.
  assert (Hsplit : forall value label m, split_binding_values value label <> Panic m).
  { intros value label m. unfold split_binding_values. destruct (_ || _); [done|]. by destruct (negb _). }
  unfold capability_dispatch_bindings.
  destruct (split_binding_values authorized _) as [identities|e|e] eqn:Eids;
    [|split; [split; [done|by intros (? & ? & ? & [=] & _)]|done]|by apply Hsplit in Eids].
  destruct (split_binding_values declared _) as [aliases|e|e] eqn:Eals;
    [|split; [split; [done|by intros (? & ? & ? & _ & [=] & _)]|done]|by apply Hsplit in Eals].
  cbn [mbind outcome_bind]. destruct (Nat.eqb_spec (List.length identities) (List.length aliases)) as [Hl|Hl]; cbn [negb]; cycle 1.
  { split; [|done]. split; [done|]. by intros (? & ? & ? & [= <-] & [= <-] & ? & _). }
  destruct (ad_ssa_module admitted) as [ssa|] eqn:Essa; cbn [ok_or mbind outcome_bind]; cycle 1.
  { split; [|done]. split; [done|]. by intros (? & ? & ? & _ & _ & _ & [=] & _). }
  pose proof (add_instructions_ok (ad_capabilities admitted) (module_instructions_of ssa) no_host_calls) as Hloop.
  destruct (fold_outcome _ no_host_calls _) as [st|e|e] eqn:Eloop; cbn [mbind outcome_bind]; cycle 1.
  { split; [|done]. split; [done|]. intros (? & ? & ssa' & _ & _ & _ & [= <-] & Hadm & _). discriminate (proj2 (Hloop _) (conj Hadm eq_refl)). }
  { exfalso. revert Eloop. apply fold_outcome_no_panic. intros st i m. unfold add_instruction.
    destruct (i_kind i); try done.
    - match goal with |- mbind _ ?o <> _ => destruct o as [x|x|x] eqn:Ea end; cbn [mbind outcome_bind]; [done|done|].
      exfalso. revert Ea. apply fold_outcome_no_panic. intros s x' m'. destruct (negb _); [done|]. by destruct (String.eqb _ _).
    - destruct (i_capability_uses i) as [|use [|use' uses]]; try done. by destruct (negb _). }
  destruct (proj1 (Hloop st) eq_refl) as [Hadm ->].
  assert (hc_count (fold_left host_call_step (module_instructions_of ssa) no_host_calls) = List.length (host_calls ssa)) as Hcount
    by by rewrite collected.
  rewrite Hcount. destruct (Nat.eqb_spec (List.length (host_calls ssa)) 0) as [Hz|Hz].
  { split; [|done]. split; [done|]. intros (? & ? & ssa' & _ & _ & _ & [= <-] & _ & Hne & _). by destruct (host_calls ssa). }
  split; [|apply map_outcome_no_panic; intros [identity alias]; apply dispatch_binding_no_panic].
  rewrite map_outcome_ok. split.
  - intros Hf. exists identities, aliases, ssa. split_and!; try done; [by destruct (host_calls ssa)|].
    eapply Forall2_impl; [exact Hf|]. intros [identity alias] b Hb. by apply dispatch_binding_ok.
  - intros (? & ? & ssa' & [= <-] & [= <-] & _ & [= <-] & _ & _ & Hf). eapply Forall2_impl; [exact Hf|].
    intros [identity alias] b Hb. by apply dispatch_binding_ok.
Qed.
End Bindings.
