(* ===== verification/RunnerSamples.v ===== *)
(** A concrete runner: instances of its interfaces, and the batches and digests
    that its theorems are applied at. *)

From Stdlib Require Import Ascii String.
From S2P Require Import VmReference AppSamples.
From S2P Require Export RunnerTheorems.

Local Open Scope string_scope.
Local Open Scope list_scope.

(** ** The instances *)

Lemma hex_digit_lower n : is_lower_hex (hex_digit (N.land n 15)) = true.
Proof.
  change 15%N with (N.ones 4). rewrite N.land_ones. assert (n mod 2 ^ 4 < 16)%N as Hn by (apply N.mod_lt; done).
  assert (forall k, k < 16 -> is_lower_hex (hex_digit (N.of_nat k)) = true) as Hall.
  { intros k Hk. do 16 (destruct k as [|k]; [reflexivity|]). lia. }
  rewrite <- (N2Nat.id (n mod 2 ^ 4)). apply Hall. lia.
Qed.
Lemma length_digest_hex s : lower_hex 64 (length_digest s).
Proof.
  unfold length_digest. generalize (N.of_nat (String.length s)). generalize 64. intros width.
  induction width as [|width IH]; intros n; [by split|]. destruct (IH (N.shiftr n 4)) as [Hl Hd]. split; cbn [hex_digits].
  - cbn [String.length]. by rewrite Hl.
  - unfold string_forallb in *. cbn [list_ascii_of_string forallb]. by rewrite hex_digit_lower.
Qed.

#[local] Instance runner_model : ModelCrate := {|
  sha256_hex := length_digest;
  function_id := @function_id reference_crate;
  transformation_new := @transformation_new reference_crate;
  OBLIGATION_SCHEMA_VERSION := "1";
  identity_is_valid := fun _ => true;
  fingerprint := fun _ => Ok "fingerprint"
|}.

Definition find_bound {P} (caps : list (string * P)) (name : string) : option P :=
  snd <$> List.find (fun cap => String.eqb cap.1 name) caps.
Lemma find_bound_member P (caps : list (string * P)) name p : find_bound caps name = Some p -> (name, p) ∈ caps.
Proof.
  unfold find_bound. destruct (List.find _ caps) as [[n q]|] eqn:Hf; [|done]. intros [= <-].
  apply find_some in Hf as [Hin Hn%String.eqb_eq]. cbn in Hn. subst. by apply list_elem_of_In.
Qed.

(** A session writes one byte to the path of its specification. *)
Definition write_call (path : string) : VmRun unit :=
  let text s := VSequence (map VByte (list_ascii_of_string s)) in
  Perform "files" (mkEffect "files" "structured_write" [text path; text OUTPUT_SCHEMA; VByte "!"]) (fun answer =>
    Finished tt (Str (match answer with Some (inl _) => "complete" | _ => "failed" end)) Null []).

#[local] Instance runner_crate : RunnerCrate := {|
  ExecutionValue := VmValue;
  wire_from_slice := fun _ => fail "not a value";
  wire_to_vec := fun _ => Ok "!";
  wire_value := fun _ => Null;
  from_wire := fun v => v;
  to_wire := fun v => v;
  json_from_slice := fun text => match parse_value text with Some v => Ok v | None => fail "not JSON" end;
  json_to_vec := fun v => Ok (write_value v);
  float_text := pretty;
  MAX_SEQUENCE_BOUND := 65536;
  FloatType_f64 := "f64";
  semantic_name := fun _ => "type";
  admit_owned := fun _ => fail "not an artifact";
  Session := unit; CallSpec := string;
  spec_from_slice := Ok;
  open_session := fun _ => tt;
  call := fun _ _ spec => write_call spec;
  resolve := fun P => find_bound;
  resolve_bound := find_bound_member
|}.

(** ** A batch *)

Definition io : Io := mkIo (fun _ => None) "No such file" (fun _ => None) (fun path => bool_decide (path = components "/tmp")).

Definition write_instruction : SsaInstruction :=
  mkInstruction "w" None None (HostCall "files" "structured_write") [] [] [] [mkUse "capability::files" ""] [] [] [] None [] None.
Definition runner_module : SsaModule :=
  mkModule [mkFunction "f" "f" [] [] [mkBlock "b" None [] [write_instruction] ""] [] ""]
    [mkRecordType "r" "Point" [("x", TyByte); ("on", TyBool)] ""] [] [] [] [] None [] "".
Definition runner_artifact : AdmittedArtifact := mkAdmitted "artifact" ["capability::files"] (Some runner_module) "".

Definition batch_row (mode output : string) : Value := object [
  ("request_path", Str ("/tmp/request" +:+ output)); ("input_path", Str ("/tmp/input" +:+ output));
  ("output_path", Str output); ("provider_mode", Str mode)].
Definition batch_manifest (rows : list Value) : Value := object [
  ("schema_version", Str "mncs.compiler.native-application-batch-request/1"); ("calls", Array rows)].
Definition batch_files (rows : list Value) : Files :=
  <[components "/tmp/batch" := write_value (batch_manifest rows)]>
  (<[components "/tmp/request/tmp/out" := "/tmp//out"]> ∅).
Definition batch_rows : list Value := [batch_row "success" "/tmp/out"].
Definition batch_run (rows : list Value) : Outcome Message Value * Files :=
  run_batch io ["/tmp/batch"] runner_artifact "capability::files" "files" (batch_files rows).

(** The batch wrote its output, and nothing was there. *)
Lemma batch_confined_witness :
  (batch_run batch_rows).2 !! components "/tmp/out" = Some "!" /\ batch_files batch_rows !! components "/tmp/out" = None /\
  exists (rows : list Value) (row : Value), row ∈ rows /\ row_creates row (components "/tmp/out").
Proof.
  assert ((batch_run batch_rows).2 !! components "/tmp/out" = Some "!") as Hafter by (vm_compute; reflexivity).
  destruct (batch_confined io ["/tmp/batch"] runner_artifact "capability::files" "files" (batch_files batch_rows)
    (components "/tmp/out")) as (Hnone & _ & path & text & manifest & rows & row & _ & _ & _ & _ & _ & Hin & Hc).
  - unfold batch_run in Hafter. rewrite Hafter. vm_compute. discriminate.
  - split; [exact Hafter|]. split; [exact Hnone|]. by exists rows, row.
Defined.

(** A second run of the same batch refuses the output it finds. *)
Example batch_rerun :
  (run_batch io ["/tmp/batch"] runner_artifact "capability::files" "files" (batch_run batch_rows).2).1 =
  fail "output path already exists".
Proof. vm_compute. reflexivity. Qed.

(** Paths are told apart as strings: two spellings of one file count as two. *)
Example claimed_as_strings :
  claim_paths [] ["/tmp/in"; "/tmp//in"] = Ok ["/tmp//in"; "/tmp/in"] /\ components "/tmp/in" = components "/tmp//in".
Proof. split; vm_compute; reflexivity. Qed.

(** ** Digests *)

Definition point (fields : list (string * VmValue)) : VmValue := VRecord "r" "Point" fields.
Definition point_type : BodyType := TyRecord "r" "Point".
Definition digest_provider : StructuredFileProvider := mkProvider "files" "/tmp/in" "/tmp/out" None false [] runner_module.

Definition written (v : VmValue) : option string :=
  match external_value EXTERNAL_DEPTH runner_module point_type v with Ok j => Some (write_value j) | _ => None end.
Lemma canonical_written v text :
  infer_value_type runner_module v = Ok point_type -> CanonicalText runner_module v text -> written v = Some text.
Proof.
  intros Hty (ty & j & Hty' & Hj & Ht). rewrite Hty in Hty'. injection Hty' as <-. unfold written. rewrite Hj.
  cbn in Ht. congruence.
Qed.

Lemma float_text_pretty bits bits' :
  float_is_finite bits = true -> float_is_finite bits' = true -> float_text bits = float_text bits' -> bits = bits'.
Proof. intros _ _ Heq. by apply (inj pretty) in Heq. Qed.
Lemma runner_fields : Forall (fun record => NoDup (r_fields record).*1) (m_record_types runner_module).
Proof. constructor; [|constructor]. apply (bool_decide_unpack _). vm_compute. exact Logic.I. Qed.
Lemma runner_json a b text : json_to_vec a = Ok text -> json_to_vec b = Ok text -> a = b.
Proof. intros [= <-] [= Heq]. by apply (inj write_value). Qed.

Definition on : list (string * VmValue) := [("x", VByte "a"); ("on", VBoolean true)].
Definition swapped : list (string * VmValue) := [("on", VBoolean true); ("x", VByte "a")].
Definition off : list (string * VmValue) := [("x", VByte "b"); ("on", VBoolean true)].
Definition digest_of (fields : list (string * VmValue)) : EffectResponse :=
  match structured_digest digest_provider [point fields] with Ok r => r | _ => response [] end.

(** The order of the fields does not matter to a digest, their values do. *)
Lemma digest_separates_witness : digest_of on = digest_of swapped /\ ~ same_data runner_module point_type (point on) (point off).
Proof.
  assert (forall fields, fields = swapped \/ fields = off ->
    digest_of on = digest_of fields <-> same_data runner_module point_type (point on) (point fields)) as Hdigest.
  { intros fields Hfields.
    apply (digest_separates runner_module float_text_pretty runner_fields digest_provider (point on) (point fields)
      point_type); [reflexivity|exact length_digest_hex| |exact runner_json|reflexivity..| |].
    - assert (infer_value_type runner_module (point fields) = Ok point_type) as Hty by (destruct Hfields as [-> | ->]; reflexivity).
      intros s t Hs Ht Heq. apply canonical_written in Hs, Ht; [|exact Hty|reflexivity..].
      destruct Hfields as [-> | ->]; vm_compute in Hs, Ht; injection Hs as <-; injection Ht as <-;
        [reflexivity|vm_compute in Heq; discriminate Heq].
    - destruct Hfields as [-> | ->]; vm_compute; reflexivity.
    - destruct Hfields as [-> | ->]; vm_compute; reflexivity. }
  split.
  - apply Hdigest; [by left|]. econstructor; [vm_compute; reflexivity|].
    intros row [-> | ->%list_elem_of_singleton]%elem_of_cons.
    + exists ("x", VByte "a"), ("x", VByte "a"). split_and!; constructor.
    + exists ("on", VBoolean true), ("on", VBoolean true). split_and!; constructor.
  - intros Hsame. apply (Hdigest off) in Hsame; [|by right]. vm_compute in Hsame. discriminate Hsame.
Defined.
