(* ===== verification/ProbeSources.v ===== *)
(** The sources a probe works on: [tools/stage0-probe/src/main.rs],
    [library_module_relative_path], [load_probe_library_modules] and the part
    of [main] that loads the compiler's own modules and collects the closure.
    Definitions only. *)

From Stdlib Require Import Ascii String.
From S2P Require Export AppKeys.

Local Open Scope string_scope.
Local Open Scope list_scope.

(** What the process reads: its environment, its arguments with its own name
    first, its files -- an unreadable one is
    [inr] of the error's text -- and whether [rustc --version] succeeds, with
    what it prints. *)
Record ProbeInputs : Type := mkInputs {
  pi_var : string -> option string;
  pi_args : list string;
  pi_is_file : string -> bool;
  pi_read : string -> string + string;
  pi_bytes : string -> option string;
  pi_tree : string -> Tree;
  pi_rustc : option (bool * string)
}.

(** ** Text *)

Definition is_ascii_alphanumeric (a : ascii) : bool :=
  let n := nat_of_ascii a in
  (Nat.leb 48 n && Nat.leb n 57) || (Nat.leb 65 n && Nat.leb n 90) || (Nat.leb 97 n && Nat.leb n 122).
Definition all_digits (s : string) : bool := string_forallb (fun a => bool_decide (is_Some (digit_value a))) s.

(** [str::lines]: pieces between line feeds, a last empty piece dropped, one
    carriage return before a line feed with it. *)
Definition strip_cr (s : string) : string := default s (strip_suffix (bytes [13]) s).
Definition lines (s : string) : list string :=
  match rev (split_on (ascii_of_nat 10) s) with
  | "" :: rest => map strip_cr (rev rest)
  | last :: rest => map strip_cr (rev rest) ++ [last]
  | [] => []
  end.

(** The first of [s.split_whitespace()], or the empty string. *)
Definition starts_white (s : string) : bool := existsb (fun w => bool_decide (is_Some (strip_prefix w s))) white_space.
Fixpoint word (s : string) : string :=
  match s with
  | EmptyString => ""
  | String a rest => if starts_white s then "" else String a (word rest)
  end.
Definition first_word (s : string) : string := word (trim_start s).

(** [s.trim_end_matches(';')]. *)
Fixpoint trim_semicolons (s : string) : string :=
  match s with
  | EmptyString => ""
  | String a rest =>
      match trim_semicolons rest with
      | "" => if Ascii.eqb a ";"%char then "" else String a ""
      | rest => String a rest
      end
  end.

(** The nonempty parts of a list between commas. *)
Definition comma_list (raw : string) : list string :=
  List.filter (fun part => negb (String.eqb part "")) (map trim (split_on ","%char raw)).

(** A path printed with [{:?}]; the paths printed here need no escapes. *)
Definition quoted (s : string) : string := bytes [34] +:+ s +:+ bytes [34].

(** ** Library modules *)

Definition library_part (part : string) : bool :=
  negb (String.eqb part "") && string_forallb (fun a => is_ascii_alphanumeric a || Ascii.eqb a "_"%char) part.

Definition library_module_relative_path (module : string) : option string :=
  suffix ← strip_prefix "mncs." module;
  let parts := split_on "."%char suffix in
  version ← last parts;
  if Nat.ltb (List.length parts) 3
     || negb match strip_prefix "v" version with Some digits => all_digits digits | None => false end
     || negb (forallb library_part parts)
  then None
  else Some (String.concat "/" (removelast parts) +:+ ".mncs").

(** The modules a text imports with [use], library modules only. *)
Definition imported_module (line : string) : option string :=
  declaration ← strip_prefix "use " (trim line);
  let imported := trim_semicolons (first_word declaration) in
  if bool_decide (is_Some (strip_prefix "mncs." imported)) then Some imported else None.
Definition library_imports (text : string) : list string := omap imported_module (lines text).

Abbreviation SourceMap := (list (string * string)).

Record LibraryLoad : Type := mkLibraryLoad {
  ll_pending : list string; ll_sources : SourceMap; ll_loaded : SourceMap
}.

Section Sources.
Context (inputs : ProbeInputs).

(** [inl] of the text of a library module. *)
Definition read_library_module (roots : list string) (module relative : string) : Outcome string string :=
  path ← expect ("MNCS probe library module " +:+ module +:+ " not found at " +:+ quoted relative)
    (List.find (pi_is_file inputs) (map (fun root => path_join root relative) roots));
  match pi_read inputs path with
  | inl text => Ok text
  | inr error => Panic ("read MNCS probe library module " +:+ module +:+ ": " +:+ error)
  end.

Definition has_module (m : SourceMap) (module : string) : bool := bool_decide (is_Some (bm_get module m)).

(** The body of the loop, for the module that was popped. *)
Definition load_module (roots : list string) (module : string) (st : LibraryLoad) : Outcome string LibraryLoad :=
  if has_module (ll_loaded st) module || has_module (ll_sources st) module then Ok st
  else
  match library_module_relative_path module with
  | None => Ok st
  | Some relative =>
      text ← read_library_module roots module relative;
      let sources := bm_put module text (ll_sources st) in
      let fresh imported := negb (has_module sources imported) && negb (has_module (ll_loaded st) imported) in
      Ok (mkLibraryLoad (bs_extend (ll_pending st) (List.filter fresh (library_imports text)))
            sources (bm_put module text (ll_loaded st)))
  end.

(** [while let Some(module) = pending.pop_first()]. *)
Fixpoint load_modules (fuel : nat) (roots : list string) (st : LibraryLoad) : Outcome string LibraryLoad :=
  match fuel with
  | O => Panic "out of fuel"
  | S fuel =>
      match ll_pending st with
      | [] => Ok st
      | module :: pending =>
          st ← load_module roots module (mkLibraryLoad pending (ll_sources st) (ll_loaded st));
          load_modules fuel roots st
      end
  end.

Definition library_roots : list string :=
  match pi_var inputs "MNCS_LIBRARY_PATH" with Some value => split_on ":"%char value | None => [] end.
Definition requested_modules : list string :=
  bs_of_list (comma_list (default "" (pi_var inputs "MNCS_PROBE_LIBRARY_MODULES"))).

(** The sources with the library modules added, and these alone. *)
Definition load_probe_library_modules (fuel : nat) (sources : SourceMap) : Outcome string (SourceMap * SourceMap) :=
  if bool_decide (requested_modules = []) then Ok (sources, [])
  else if bool_decide (library_roots = []) then Panic "MNCS_PROBE_LIBRARY_MODULES needs MNCS_LIBRARY_PATH"
  else
  st ← load_modules fuel library_roots (mkLibraryLoad requested_modules sources []);
  Ok (ll_sources st, ll_loaded st).

(** ** The compiler's modules *)

Definition COMPILER_FILES : list string :=
  ["source"; "lexer"; "parser"; "kernel"; "segment"; "decl"; "flow"; "ssa"; "project"].
Definition optional_file (file : string) : bool :=
  String.eqb file "flow" || String.eqb file "ssa" || String.eqb file "project".
Definition compiler_module (file : string) : string := "mncs.compiler." +:+ file +:+ ".v1".
Definition compiler_path (file : string) : string := "src/compiler/" +:+ file +:+ ".mncs".

(** The modules the environment asks for; [None] asks for the default ones. *)
Definition wanted_modules : option (list string) := comma_list <$> pi_var inputs "MNCS_PROBE_MODULES".
Definition include_flow (wanted : option (list string)) : bool :=
  match wanted with Some names => existsb optional_file names | None => false end.
Definition selected_file (wanted : option (list string)) (file : string) : bool :=
  negb (optional_file file && negb (include_flow wanted))
  && match wanted with Some names => existsb (String.eqb file) names | None => true end.

(** [read_to_string(..).unwrap()]. *)
Definition read_unwrap (path : string) : Outcome string string :=
  match pi_read inputs path with
  | inl text => Ok text
  | inr error => Panic error
  end.

Definition compiler_sources : Outcome string SourceMap :=
  fold_outcome (fun sources file =>
    text ← read_unwrap (compiler_path file); Ok (bm_put (compiler_module file) text sources))
    [] (List.filter (selected_file wanted_modules) COMPILER_FILES).

(** The loaded texts as pairs, in the order of their names: the compiler's
    modules are read again. *)
Definition compiler_closure (sources : SourceMap) : Outcome string SourceMap :=
  map_outcome (fun file => text ← read_unwrap (compiler_path file); Ok (compiler_module file, text))
    (List.filter (fun file => has_module sources (compiler_module file)) COMPILER_FILES).
Definition closure_leb (left right : string * string) : bool := ord_leb left.1 right.1.
Definition source_closure (sources library_sources : SourceMap) : Outcome string SourceMap :=
  closure ← compiler_closure sources;
  Ok (sort_by closure_leb (closure ++ library_sources)).

(** The sources of a run: the map the resolver reads, and the closure. *)
Definition load_sources (fuel : nat) : Outcome string (SourceMap * SourceMap) :=
  sources ← compiler_sources;
  '(sources, library_sources) ← load_probe_library_modules fuel sources;
  closure ← source_closure sources library_sources;
  Ok (sources, closure).
End Sources.

Example library_path_examples :
  library_module_relative_path "mncs.text.lines.v1" = Some "text/lines.mncs" /\
  library_module_relative_path "mncs.text.v1" = None /\
  library_module_relative_path "mncs.text.lines.v" = Some "text/lines.mncs" /\
  library_module_relative_path "mncs.text..v1" = None.
Proof. split_and!; vm_compute; reflexivity. Qed.

Example imports_example :
  library_imports ("  use mncs.a.b.v1;;" +:+ newline +:+ "use other.v1;" +:+ bytes [13; 10] +:+ "use  mncs.c as d") =
  ["mncs.a.b.v1"; "mncs.c"].
Proof. vm_compute. reflexivity. Qed.
