(* ===== verification/ProbeSourcesTheorems.v ===== *)
(** Which sources a probe loads: the library modules its requests reach through
    [use], each from the first root that has it. *)

From Stdlib Require Import Ascii String.
From S2P Require Export ProbeSources.

Local Open Scope string_scope.
Local Open Scope list_scope.

Section Library.
Context (inputs : ProbeInputs) (roots : list string) (sources0 : SourceMap).

(** The text the roots have for a module. *)
Definition library_text (module : string) : option string :=
  relative ← library_module_relative_path module;
  path ← List.find (pi_is_file inputs) (map (fun root => path_join root relative) roots);
  match pi_read inputs path with inl text => Some text | inr _ => None end.

(** What the loop reads: names of library modules that are not loaded yet. *)
Definition loadable (module : string) : Prop :=
  is_Some (library_module_relative_path module) /\ bm_get module sources0 = None.

Definition imports (module imported : string) : Prop :=
  loadable module /\ exists text, library_text module = Some text /\ imported ∈ library_imports text.
Definition reached (requested : list string) (module : string) : Prop :=
  exists root, root ∈ requested /\ rtc imports root module.

Lemma reached_imports requested module imported :
  reached requested module -> imports module imported -> reached requested imported.
Proof. intros (root & ? & ?) ?. exists root. split; [done|]. by eapply rtc_r. Qed.

(** The loop is done with a module it has loaded or passes over. *)
Definition settled (st : LibraryLoad) (module : string) : Prop :=
  is_Some (bm_get module (ll_loaded st)) \/ ~ loadable module.

Record Loading (requested : list string) (st : LibraryLoad) : Prop := mkLoading {
  lo_loaded : forall module text, bm_get module (ll_loaded st) = Some text ->
    reached requested module /\ loadable module /\ library_text module = Some text;
  lo_sources : forall module, bm_get module (ll_sources st) =
    match bm_get module sources0 with Some text => Some text | None => bm_get module (ll_loaded st) end;
  lo_pending : forall module, module ∈ ll_pending st -> reached requested module;
  lo_requested : forall module, module ∈ requested -> module ∈ ll_pending st \/ settled st module;
  lo_closed : forall module text imported, bm_get module (ll_loaded st) = Some text -> imported ∈ library_imports text ->
    imported ∈ ll_pending st \/ settled st imported
}.

Lemma Loading_start requested : Loading requested (mkLibraryLoad requested sources0 []).
Proof.
  split; cbn; try done.
  - intros module. by destruct (bm_get module sources0).
  - intros module Hm. exists module. split; [done|constructor].
  - intros module Hm. by left.
Qed.

Lemma settled_put st module text pending sources m :
  settled st m -> settled (mkLibraryLoad pending sources (bm_put module text (ll_loaded st))) m.
Proof.
  intros [Hl|Hn]; [left|by right]. cbn. rewrite bm_get_put. case_decide; [by eexists|done].
Qed.

(** Reading succeeds exactly with the library's text. *)
Lemma read_library_module_spec module relative :
  library_module_relative_path module = Some relative ->
  match read_library_module inputs roots module relative with
  | Ok text => library_text module = Some text
  | Err _ => False
  | Panic message => library_text module = None /\ message <> "out of fuel"
  end.
Proof.
  intros Hp. unfold read_library_module, library_text. rewrite Hp. cbn [mbind option_bind].
  destruct (List.find _ _) as [path|]; cbn [expect mbind outcome_bind option_bind]; [|by split].
  destruct (pi_read inputs path) as [text|error]; by repeat split.
Qed.

(** One iteration. *)
Lemma load_module_spec requested module pending st :
  Loading requested st -> ll_pending st = module :: pending ->
  match load_module inputs roots module (mkLibraryLoad pending (ll_sources st) (ll_loaded st)) with
  | Ok st' => Loading requested st' /\
      (ll_loaded st' = ll_loaded st /\ ll_pending st' = pending \/
       exists text, bm_get module (ll_loaded st) = None /\ library_text module = Some text /\
         ll_loaded st' = bm_put module text (ll_loaded st) /\
         length (ll_pending st') <= length pending + length (library_imports text))
  | Err _ => False
  | Panic message => message <> "out of fuel" /\
      reached requested module /\ loadable module /\ library_text module = None
  end.
Proof.
  intros [Hl Hs Hp Hr Hc] Hpend. unfold load_module. cbn [ll_loaded ll_sources ll_pending]. unfold has_module.
  assert (Hskip : settled st module -> Loading requested (mkLibraryLoad pending (ll_sources st) (ll_loaded st))).
  { intros Hset. split; cbn; [done|done| | |].
    - intros m Hm. apply Hp. rewrite Hpend. by right.
    - intros m Hm. destruct (Hr m Hm) as [Hin|?]; [|by right]. rewrite Hpend in Hin.
      apply elem_of_cons in Hin as [->|?]; [by right|by left].
    - intros m text imported Hm Hi. destruct (Hc m text imported Hm Hi) as [Hin|?]; [|by right]. rewrite Hpend in Hin.
      apply elem_of_cons in Hin as [->|?]; [by right|by left]. }
  destruct (bm_get module (ll_loaded st)) as [old|] eqn:Hold.
  { cbn. split; [|by left]. apply Hskip. left. rewrite Hold. by eexists. }
  rewrite (bool_decide_false (is_Some None)) by (by intros []). cbn [orb].
  rewrite (Hs module), Hold. case_bool_decide as Hs0.
  { split; [|by left]. apply Hskip. right. intros [_ Hn]. rewrite Hn in Hs0. by destruct Hs0. }
  assert (bm_get module sources0 = None) as Hnone.
  { destruct (bm_get module sources0) as [t|] eqn:E; [|done]. exfalso. apply Hs0. by eexists. }
  destruct (library_module_relative_path module) as [relative|] eqn:Hpath.
  2: { split; [|by left]. apply Hskip. right. intros [[? Hx] _]. congruence. }
  assert (loadable module) as Hload by (split; [by eexists|done]).
  assert (reached requested module) as Hreach by (apply Hp; rewrite Hpend; by left).
  pose proof (read_library_module_spec module relative Hpath) as Hread.
  destruct (read_library_module inputs roots module relative) as [text|e|message]; cbn [mbind outcome_bind]; [|done|].
  2: { destruct Hread. by split_and!. }
  set (fresh imported := negb (bool_decide (is_Some (bm_get imported (bm_put module text (ll_sources st))))) &&
    negb (bool_decide (is_Some (bm_get imported (ll_loaded st))))).
  set (st' := mkLibraryLoad _ _ _).
  assert (Hpending' : forall m, m ∈ ll_pending st' <-> m ∈ List.filter fresh (library_imports text) \/ m ∈ pending).
  { intros m. cbn. rewrite elem_of_bs_extend. done. }
  assert (Hmod : settled st' module) by (left; cbn; rewrite bm_get_put, decide_True by done; by eexists).
  assert (Hold' : forall m, m ∈ ll_pending st \/ settled st m -> m ∈ ll_pending st' \/ settled st' m).
  { intros m [Hin|Hset]; [|right; by apply settled_put]. rewrite Hpend in Hin. apply elem_of_cons in Hin as [->|Hin]; [by right|].
    left. apply Hpending'. by right. }
  split.
  - split.
    + intros m t. cbn. rewrite bm_get_put. case_decide as Hm; [|apply Hl]. intros [= <-]. by subst m.
    + intros m. cbn. rewrite !bm_get_put. case_decide as Hm; [subst m; by rewrite Hnone|apply Hs].
    + intros m [Hin|Hin]%Hpending'; [|apply Hp; rewrite Hpend; by right].
      apply elem_of_filterb in Hin as [Hin _]. eapply reached_imports; [exact Hreach|]. split; [done|]. by exists text.
    + intros m Hm. apply Hold', Hr, Hm.
    + intros m t imported. cbn [ll_loaded st']. rewrite bm_get_put. case_decide as Hm; [|intros Hg Hi; apply Hold'; by eapply Hc].
      intros [= <-] Hi. destruct (fresh imported) eqn:Hf.
      * left. apply Hpending'. left. by apply elem_of_filterb.
      * right. unfold fresh in Hf. apply andb_false_iff in Hf. rewrite !negb_false_iff, !bool_decide_eq_true in Hf.
        rewrite bm_get_put in Hf. destruct (decide (imported = module)) as [->|Hne]; [done|].
        rewrite (Hs imported) in Hf. destruct (bm_get imported sources0) as [t0|] eqn:E0.
        -- right. intros [_ Hn]. congruence.
        -- left. cbn. rewrite bm_get_put, decide_False by done. tauto.
  - right. exists text. split_and!; [done|done|done|]. cbn.
    pose proof (set_length pending (List.filter fresh (library_imports text))) as Hlen.
    assert (length (List.filter fresh (library_imports text)) <= length (library_imports text)) by apply filter_length_le. 
    fold st' in Hlen. lia.
Qed.

(** The names a module can still queue. *)
Definition weight (module : string) : nat :=
  match library_text module with Some text => length (library_imports text) | None => 0 end.
Definition unloaded (loaded : SourceMap) (universe : list string) : list string :=
  filter (fun module => bm_get module loaded = None) universe.

Lemma unloaded_put universe loaded module text :
  NoDup universe -> module ∈ universe -> bm_get module loaded = None ->
  sum_list_with weight (unloaded loaded universe) = weight module + sum_list_with weight (unloaded (bm_put module text loaded) universe).
Proof.
  intros Hnd Hin Hnone. apply list_elem_of_split in Hin as (l & k & ->).
  apply NoDup_app in Hnd as (_ & Hl & [Hk _]%NoDup_cons). unfold unloaded.
  rewrite !filter_app, !filter_cons, !sum_list_with_app. rewrite decide_True by done.
  rewrite (decide_False (P := bm_get module (bm_put module text loaded) = None)) by (by rewrite bm_get_put, decide_True).
  assert (Hsame : forall ms : list string, module ∉ ms ->
    filter (fun m => bm_get m (bm_put module text loaded) = None) ms = filter (fun m => bm_get m loaded = None) ms).
  { intros ms Hms. apply filter_ext_elem. intros m Hm. rewrite bm_get_put, decide_False; [done|]. by intros ->. }
  rewrite !Hsame; [cbn; lia|done|]. intros Hm. apply (Hl module Hm). by left.
Qed.

Lemma unloaded_nil universe : unloaded [] universe = universe.
Proof. unfold unloaded. induction universe as [|m universe IH]; [done|]. by rewrite filter_cons, decide_True, IH. Qed.

Section Run.
Context (requested universe : list string) (Hnd : NoDup universe)
  (Huniverse : forall module, reached requested module -> module ∈ universe).

(** Iterations that are enough. *)
Definition library_fuel : nat := S (length requested + sum_list_with weight universe).

Lemma load_modules_spec fuel st :
  Loading requested st -> S (length (ll_pending st) + sum_list_with weight (unloaded (ll_loaded st) universe)) <= fuel ->
  match load_modules inputs fuel roots st with
  | Ok st' => Loading requested st' /\ ll_pending st' = []
  | Err _ => False
  | Panic _ => exists module, reached requested module /\ loadable module /\ library_text module = None
  end.
Proof.
  revert st. induction fuel as [|fuel IH]; intros st Hst Hfuel; [lia|]. cbn [load_modules].
  destruct (ll_pending st) as [|module pending] eqn:Hp; [by split|]. cbn in Hfuel.
  pose proof (load_module_spec requested module pending st Hst Hp) as Hstep.
  destruct (load_module inputs roots module _) as [st'|e|message]; cbn [mbind outcome_bind]; [|done|].
  - destruct Hstep as [Hst' Hmove]. apply IH; [exact Hst'|].
    destruct Hmove as [[-> ->]|(text & Hnone & Htext & -> & Hlen)]; [lia|].
    rewrite (unloaded_put universe (ll_loaded st) module text) in Hfuel; [|done| |done].
    + unfold weight at 1 in Hfuel. rewrite Htext in Hfuel. lia.
    + apply Huniverse, (lo_pending _ _ Hst). rewrite Hp. by left.
  - destruct Hstep as (_ & Hr & Hl & Ht). by exists module.
Qed.
End Run.

(** At the end everything that is reached has been looked at. *)
Lemma Loading_end requested st :
  Loading requested st -> ll_pending st = [] -> forall module, reached requested module -> loadable module ->
  exists text, bm_get module (ll_loaded st) = Some text /\ library_text module = Some text.
Proof.
  intros Hst Hp. assert (Hall : forall module, reached requested module -> settled st module).
  { intros module (root & Hroot & Hr).
    assert (settled st root) as Hset by (destruct (lo_requested _ _ Hst root Hroot) as [Hin|?]; [rewrite Hp in Hin; by apply elem_of_nil in Hin|done]).
    clear Hroot. induction Hr as [|a b c Hab _ IH]; [done|]. apply IH. destruct Hab as (Hl & text & Ht & Hi).
    destruct Hset as [[t Hg]|Hn]; [|done]. pose proof (lo_loaded _ _ Hst a t Hg) as (_ & _ & Ht'). rewrite Ht in Ht'. injection Ht' as <-.
    destruct (lo_closed _ _ Hst a text b Hg Hi) as [Hin|?]; [rewrite Hp in Hin; by apply elem_of_nil in Hin|done]. }
  intros module Hr Hl. destruct (Hall module Hr) as [[text Hg]|?]; [|done]. exists text. split; [done|].
  by apply (lo_loaded _ _ Hst) in Hg as (_ & _ & ?).
Qed.
End Library.

(** C34: which library modules a probe loads.  From requests that reach finitely
    many modules, the loop ends.  It panics only for a module that is reached
    and that no root has as a readable file; otherwise what it has loaded is
    exactly the modules reached from the requested ones through [use] lines --
    not through modules the compiler itself provides, nor through names that
    are not of a library module -- each with the text of the first root that
    has its file; and the sources are those given and these. *)
Theorem library_modules_exact inputs sources universe fuel :
  let roots := library_roots inputs in let requested := requested_modules inputs in
  NoDup universe -> (forall module, reached inputs roots sources requested module -> module ∈ universe) ->
  library_fuel inputs roots requested universe <= fuel ->
  match load_probe_library_modules inputs fuel sources with
  | Ok (sources', loaded) =>
      (forall module text, bm_get module loaded = Some text <->
        reached inputs roots sources requested module /\ loadable sources module /\ library_text inputs roots module = Some text) /\
      (forall module, bm_get module sources' =
        match bm_get module sources with Some text => Some text | None => bm_get module loaded end) /\
      (forall module, reached inputs roots sources requested module -> loadable sources module ->
        is_Some (library_text inputs roots module))
  | Err _ => False
  | Panic _ => requested <> [] /\ (roots = [] \/ exists module,
      reached inputs roots sources requested module /\ loadable sources module /\ library_text inputs roots module = None)
  end.
Proof.
  cbv zeta. intros Hnd Huniverse Hfuel. unfold load_probe_library_modules.
  case_bool_decide as Hreq.
  - assert (forall module, ~ reached inputs (library_roots inputs) sources (requested_modules inputs) module) as Hnone
      by (intros module (root & Hroot & _); rewrite Hreq in Hroot; by apply elem_of_nil in Hroot).
    split_and!; [|intros module; by destruct (bm_get module sources)|by intros module Hm%Hnone].
    intros module text. split; [done|]. by intros (Hm%Hnone & _).
  - case_bool_decide as Hroots; [by split; [|left]|].
    pose proof (load_modules_spec inputs (library_roots inputs) sources (requested_modules inputs) universe Hnd Huniverse fuel
      (mkLibraryLoad (requested_modules inputs) sources []) (Loading_start _ _ _ _)) as Hspec.
    destruct (load_modules inputs fuel _ _) as [st|e|message]; cbn [mbind outcome_bind].
    + destruct Hspec as [Hst Hp].
      { cbn [ll_pending ll_loaded]. rewrite unloaded_nil. exact Hfuel. }
      pose proof (Loading_end _ _ _ _ _ Hst Hp) as Hend. split_and!.
      * intros module text. split; [apply (lo_loaded _ _ _ _ _ Hst)|]. intros (Hr & Hl & Ht).
        destruct (Hend module Hr Hl) as (t & Hg & Ht'). congruence.
      * apply (lo_sources _ _ _ _ _ Hst).
      * intros module Hr Hl. destruct (Hend module Hr Hl) as (t & _ & Ht). by eexists.
    + apply Hspec. cbn [ll_pending ll_loaded]. rewrite unloaded_nil. exact Hfuel.
    + split; [done|right]. apply Hspec. cbn [ll_pending ll_loaded]. rewrite unloaded_nil. exact Hfuel.
Qed.
