(* ===== verification/ProbePrograms.v ===== *)
(** The programs a probe answers with: [tools/stage0-probe/src/main.rs],
    [gather_toolchain_identity], the cache reads and writes of [main], and the
    phases that load, elaborate and compile the modules.  Definitions only.

    The cache directory is a [Retention.Directory]; a phase returns its result
    and the state it leaves, a panic included.  What is printed to the trace
    and to the standard error is left out. *)

From Stdlib Require Import Ascii String.
From S2P Require Export ProbeSources Retention BackendRoots AppClosure Json.

Local Open Scope string_scope.
Local Open Scope list_scope.

(** [mncs_compiler::SourceFrontEndResult], what the probe reads of it; the
    diagnostics as JSON and printed with [{:?}]. *)
Record FrontEnd : Type := mkFrontEndResult {
  fr_is_valid : bool; fr_program : option Program; fr_module_resolutions : list ModuleResolution;
  fr_diagnostics : Value; fr_diagnostics_debug : string; fr_resolutions_value : Value
}.

(** The crates the probe calls. *)
Class ProbeCompiler := {
  ProbeEnvelope : Type;
  inline_source : string -> string -> ProbeEnvelope;
  front_end_with_resolver_and_seeds :
    ProbeEnvelope -> (string -> option ProbeEnvelope) -> list HostGenericSeedRequest -> FrontEnd;
  seeds_from_str : string -> option (list HostGenericSeedRequest);
  (** the errors of [request_for_program_with_backend], and the artifact
      [compile] emits, or its result printed with [{:?}] *)
  backend_request_error : string -> Program -> option string;
  compile_backend : string -> Program -> BackendArtifact + string;
  artifact_identity_is_valid : BackendArtifact -> bool;
  (** [serde_json] on the probe's own types *)
  toolchain_json : ToolchainIdentity -> string;
  seeds_json : list HostGenericSeedRequest -> string;
  json_strings : list string -> string;
  (** [{:?}] of a string *)
  debug_str : string -> string;
  entry_json : ProbeCacheEntry -> option string;
  read_program_entry : string -> option ProbeCacheProgramEntry;
  read_backend_entry : string -> option ProbeCacheBackendEntry;
  value_from_str : string -> option Value;
  (** the identities of the linked compiler *)
  compiler_implementation : string; pipeline_identity : string; REFERENCE_LANGUAGE_PROFILE : string;
  compiler_host : string; build_host : string;
  configuration_for_backend : string -> option string; target_for_backend : string -> option string
}.

(** What else a run depends on: failing calls, processes, times by the number
    of stores and reads made so far, and the compressed length of a text. *)
Record ProbeEnv : Type := mkProbeEnv {
  pe_inputs : ProbeInputs;
  pe_fails : IoCall -> string -> bool; pe_proc_exists : string -> bool; pe_to_string_lossy : string -> string;
  pe_usize_max : Z; pe_pid : Z;
  pe_now : nat -> Z; pe_clock1 : nat -> nat -> Z; pe_clock2 : nat -> nat -> Z;
  pe_compressed_length : string -> Z
}.

(** The cache directory, the number of cache operations, and the counters. *)
Record ProbeState : Type := mkProbeState {
  ps_dir : Directory; ps_tick : nat;
  ps_cache_hits : nat; ps_cache_misses : nat; ps_backend_artifact_cache_hits : nat;
  ps_frontend_program_cache_hits : nat
}.
Definition Probe (A : Type) : Type := ProbeState -> Outcome string A * ProbeState.
#[export] Instance probe_ret : MRet Probe := fun A a st => (Ok a, st).
#[export] Instance probe_bind : MBind Probe := fun A B f m st =>
  match m st with
  | (Ok a, st) => f a st
  | (Err e, st) => (Err e, st)
  | (Panic message, st) => (Panic message, st)
  end.
Definition settled_in {A} (o : Outcome string A) : Probe A := fun st => (o, st).
Definition on_dir (f : nat -> Directory -> Directory) : Probe unit := fun st =>
  (Ok tt, mkProbeState (f (ps_tick st) (ps_dir st)) (S (ps_tick st)) (ps_cache_hits st) (ps_cache_misses st)
     (ps_backend_artifact_cache_hits st) (ps_frontend_program_cache_hits st)).
Definition counting (hits misses backend_hits frontend_hits : nat) : Probe unit := fun st =>
  (Ok tt, mkProbeState (ps_dir st) (ps_tick st) (ps_cache_hits st + hits) (ps_cache_misses st + misses)
     (ps_backend_artifact_cache_hits st + backend_hits) (ps_frontend_program_cache_hits st + frontend_hits)).

Section Programs.
Context `{ModelCrate, ProgramCrate, ProgramFacts, ProbeCompiler}.

(** ** Toolchain identity *)

Section Toolchain.
Context (inputs : ProbeInputs).

Definition read_lock_pin (lock_path : string) : string * string :=
  match pi_read inputs lock_path with
  | inr _ => (UNKNOWN_IDENTITY_PART, UNKNOWN_IDENTITY_PART)
  | inl raw =>
      match value_from_str raw with
      | None => (UNKNOWN_IDENTITY_PART, UNKNOWN_IDENTITY_PART)
      | Some lock =>
          (default UNKNOWN_IDENTITY_PART (get_str "revision" lock),
           default UNKNOWN_IDENTITY_PART (get_str "source_profile" lock))
      end
  end.

Definition nonempty_text (text : string) : option string := if String.eqb text "" then None else Some text.
Definition read_trimmed_file (path : string) : option string :=
  match pi_read inputs path with inl text => nonempty_text (trim text) | inr _ => None end.

Definition hash_optional_file (path : string) : string :=
  match pi_bytes inputs path with Some content => sha256_hex content | None => UNKNOWN_IDENTITY_PART end.

Definition TOOLCHAIN_IDENTITY_SCHEMA : string := "probe-toolchain/1".
Definition rustc_version : string :=
  default UNKNOWN_IDENTITY_PART
    (match pi_rustc inputs with Some (true, stdout) => nonempty_text (trim stdout) | _ => None end).

Definition gather_toolchain_identity (backend_name : option string) (lock_path bootstrap_dir : string)
  : ToolchainIdentity :=
  let '(lock_revision, lock_source_profile) := read_lock_pin lock_path in {|
    ti_schema := TOOLCHAIN_IDENTITY_SCHEMA;
    ti_lock_revision := lock_revision;
    ti_lock_source_profile := lock_source_profile;
    ti_provisioned_revision := default UNKNOWN_IDENTITY_PART (read_trimmed_file (path_join bootstrap_dir "revision"));
    ti_bootstrap_tree_sha256 := hash_tree (pi_tree inputs bootstrap_dir);
    ti_bootstrap_cargo_lock_sha256 := hash_optional_file (path_join bootstrap_dir "Cargo.lock");
    ti_compiler_implementation := compiler_implementation;
    ti_pipeline_identity := pipeline_identity;
    ti_language_profile := REFERENCE_LANGUAGE_PROFILE;
    ti_backend_name := backend_name;
    ti_backend_configuration := backend_name ≫= configuration_for_backend;
    ti_target := backend_name ≫= target_for_backend;
    ti_compiler_host := compiler_host;
    ti_build_host := build_host;
    ti_rustc_version := rustc_version
  |}.
End Toolchain.

(** ** A run *)

(** What [main] computes before the first module. *)
Record ProbeRun : Type := mkRun {
  pr_execution_modules : option (list string);
  pr_generic_seeds : list HostGenericSeedRequest;
  pr_seeds_raw : string;
  pr_sources : SourceMap;
  pr_closure : SourceMap;
  pr_backend_name : option string;
  pr_backend_roots : option BackendRootSelection;
  pr_cache_dir : option string;
  pr_toolchain : option ToolchainIdentity
}.
Definition pr_frontend_identity (run : ProbeRun) : option ToolchainIdentity :=
  frontend_toolchain_identity <$> pr_toolchain run.

Definition toolchain_of (inputs : ProbeInputs) (backend_name : option string) : ToolchainIdentity :=
  let identity_root := default "." (pi_var inputs "MNCS_PROBE_TOOLCHAIN_IDENTITY_ROOT") in
  gather_toolchain_identity inputs backend_name (path_join identity_root "mncs-language.lock.json")
    (path_join identity_root ".bootstrap").

Definition generic_seeds_of (inputs : ProbeInputs) : Outcome string (list HostGenericSeedRequest) :=
  match pi_var inputs "MNCS_PROBE_GENERIC_SEEDS" with
  | Some raw => expect "valid MNCS_PROBE_GENERIC_SEEDS JSON" (seeds_from_str raw)
  | None => Ok []
  end.

Definition probe_run (inputs : ProbeInputs) (fuel : nat) : Outcome string ProbeRun :=
  generic_seeds ← generic_seeds_of inputs;
  sources ← compiler_sources inputs;
  '(sources, library_sources) ← load_probe_library_modules inputs fuel sources;
  let backend_name := pi_var inputs "MNCS_PROBE_BACKEND" in
  let backend_roots := parse_backend_root_selection (pi_var inputs "MNCS_PROBE_BACKEND_ROOTS") in
  if bool_decide (is_Some backend_roots) && negb (bool_decide (is_Some backend_name)) then
    Panic "MNCS_PROBE_BACKEND_ROOTS requires MNCS_PROBE_BACKEND"
  else
  let cache_dir := pi_var inputs "MNCS_PROBE_CACHE_DIR" ≫= nonempty_text in
  let toolchain := (fun _ => toolchain_of inputs backend_name) <$> cache_dir in
  closure ← source_closure inputs sources library_sources;
  Ok {| pr_execution_modules := comma_list <$> pi_var inputs "MNCS_PROBE_EXECUTION_MODULES";
        pr_generic_seeds := generic_seeds;
        pr_seeds_raw := default "" (pi_var inputs "MNCS_PROBE_GENERIC_SEEDS");
        pr_sources := sources;
        pr_closure := closure;
        pr_backend_name := backend_name;
        pr_backend_roots := backend_roots;
        pr_cache_dir := cache_dir;
        pr_toolchain := toolchain |}.

(** ** The resolver *)

Definition envelope (text : string) : ProbeEnvelope := inline_source "probe" text.
(** [Sources::resolve]. *)
Definition resolve_source (sources : SourceMap) (name : string) : option ProbeEnvelope := envelope <$> bm_get name sources.

Section Run.
Context (env : ProbeEnv) (run : ProbeRun).
Let inputs := pe_inputs env.

Definition GATHERED : string := "toolchain identity is gathered whenever the cache is enabled".
Definition LOADED : string := "every elaborated module belongs to the loaded source closure".

(** ** Keys *)

Definition cache_key (module : string) : Outcome string string :=
  toolchain ← expect GATHERED (pr_toolchain run);
  let base := cache_key_hex toolchain_json toolchain module (pr_closure run) (pr_seeds_raw run) in
  Ok match pr_backend_roots run with
     | Some selection => backend_root_cache_key json_strings base selection
     | None => base
     end.

Definition module_source_of (module : string) : Outcome string string :=
  row ← expect LOADED (List.find (fun row => String.eqb row.1 module) (pr_closure run)); Ok row.2.

Definition frontend_cache_key (module : string) (module_seeds : list HostGenericSeedRequest) : Outcome string string :=
  module_source ← module_source_of module;
  identity ← expect "frontend identity is gathered whenever the cache is enabled" (pr_frontend_identity run);
  Ok (frontend_cache_key_hex toolchain_json seeds_json identity module module_source module_seeds).

(** ** Reading an entry *)

Abbreviation Cached := (Program * option BackendArtifact * option FrontendCacheMetadata)%type.

(** What [gzip -dc] and the parser make of the file; the result is used when
    the child succeeded. *)
Definition cached_entry (dir : Directory) (name : string) (identity : ToolchainIdentity) (expected_backend : option string)
  : option Cached :=
  _ ← read_lease (pe_fails env) dir;
  if pe_fails env CallSpawn name || pe_fails env CallStdin name then None
  else
  e ← lookup_entry name dir;
  content ← e_content e;
  if pe_fails env CallWait name || negb (e_is_file e) then None
  else parse_cache_entry_reader artifact_identity_is_valid read_program_entry read_backend_entry content identity expected_backend.

Definition cache_load (key suffix : string) (identity : ToolchainIdentity) (expected_backend : option string)
  : Probe (option Cached) := fun st =>
  match pr_cache_dir run with
  | None => (Ok None, st)
  | Some _ =>
      match cached_entry (ps_dir st) (key +:+ suffix) identity expected_backend with
      | None => (Ok None, st)
      | Some cached =>
          (_ ← on_dir (fun tick => touch (pe_now env tick) (key +:+ suffix)); mret (Some cached)) st
      end
  end.

(** ** Writing an entry *)

(** [File::create] and the writing of a file. *)
Definition create_file (now : Z) (name : string) (dir : Directory) : option Directory :=
  if pe_fails env CallCreate name then None
  else match lookup_entry name dir with
       | Some e =>
           if e_is_file e then
             Some (map (fun e => if String.eqb (e_name e) name then mkEntry name true 0 (Some now) None else e) dir)
           else None
       | None => Some (dir ++ [mkEntry name true 0 (Some now) None])
       end.
Definition fill_file (now length : Z) (name content : string) (dir : Directory) : Directory :=
  map (fun e => if String.eqb (e_name e) name then mkEntry name true length (Some now) (Some content) else e) dir.

(** [let _ = std::fs::remove_file(..)]. *)
Definition try_remove (name : string) (dir : Directory) : Directory := (remove_file (pe_fails env) name dir).2.

Definition temporary_name (key : string) (tick : nat) : string :=
  key +:+ "." +:+ pretty (pe_pid env) +:+ "." +:+ pretty (pe_now env tick) +:+ ".json.gz.tmp".

(** The directory a store leaves. *)
Definition store_entry (key suffix : string) (entry : ProbeCacheEntry) (tick : nat) (dir : Directory) : Directory :=
  if pe_fails env CallCreateDir "." then dir
  else
  let temporary := temporary_name key tick in
  match create_file (pe_now env tick) temporary dir with
  | None => dir
  | Some dir =>
      if pe_fails env CallSpawn temporary || pe_fails env CallStdin temporary then try_remove temporary dir
      else
      match (if pe_fails env CallWrite temporary then None else entry_json entry) with
      | None => try_remove temporary dir
      | Some text =>
          if pe_fails env CallWait temporary then try_remove temporary dir
          else
          let dir := fill_file (pe_now env tick) (pe_compressed_length env text) temporary text dir in
          let '(stored, dir) :=
            if pe_fails env CallMetadata temporary then (false, dir)
            else publish (pe_fails env) (pe_proc_exists env) (pe_to_string_lossy env)
                   (configured (pi_var inputs) (pe_usize_max env)) (pe_clock1 env tick) (pe_clock2 env tick)
                   temporary (key +:+ suffix) dir in
          if (stored : bool) then dir else try_remove temporary dir
      end
  end.

Definition cache_store (key suffix : string) (identity : ToolchainIdentity) (program : Program)
  (artifact : option BackendArtifact) (frontend : option FrontendCacheMetadata) : Probe unit :=
  match pr_cache_dir run with
  | None => mret tt
  | Some _ => on_dir (store_entry key suffix (mkCacheEntry identity program artifact frontend))
  end.

(** ** One module *)

(** The projection of a cached program onto the roots, and whether the entry
    held more than that. *)
Definition project_cached (name : string) (program : Program) : Outcome string (Program * bool) :=
  match pr_backend_roots run with
  | None => Ok (program, false)
  | Some selection =>
      match backend_program_projection debug_str program selection with
      | Ok projection =>
          Ok (bp_program projection,
              Nat.ltb (List.length (bp_included_function_identities projection)) (bp_original_function_count projection))
      | Err error => Panic ("cached backend root closure for " +:+ name +:+ ": " +:+ error)
      | Panic message => Panic message
      end
  end.

(** [!Path::is_file()]. *)
Definition entry_missing (name : string) : Probe bool := fun st =>
  (Ok (negb match lookup_entry name (ps_dir st) with Some e => e_is_file e | None => false end), st).

(** An entry of the selected backend. *)
Definition backend_hit (name key : string) (identity : ToolchainIdentity) (module_seeds : list HostGenericSeedRequest)
  (cached : Cached) : Probe (Program * option BackendArtifact) :=
  let '(program, artifact, _) := cached in
  _ ← counting 1 0 (if artifact then 1 else 0) 0;
  '(program, migrate_root_cache) ← settled_in (project_cached name program);
  _ ← match (if (migrate_root_cache : bool) then artifact else None) with
      | Some artifact => cache_store key ".json.gz" identity program (Some artifact) None
      | None => mret tt
      end;
  frontend_key ← settled_in (frontend_cache_key name module_seeds);
  frontend_identity ← settled_in (expect "called `Option::unwrap()` on a `None` value" (pr_frontend_identity run));
  missing ← entry_missing (frontend_key +:+ ".program.json.gz");
  _ ← (if negb (bool_decide (is_Some (pr_backend_roots run))) && (missing : bool)
       then cache_store frontend_key ".program.json.gz" frontend_identity program None None else mret tt);
  mret (program, artifact).

(** A program of the frontend, from its own entry or from one of the whole
    closure. *)
Definition admitted_program (name module_source : string) (cached : option Cached) : option Program :=
  '(program, artifact, metadata) ← cached;
  if bool_decide (is_Some artifact)
     || negb (frontend_cache_matches module_id p_dependencies metadata name module_source program (pr_closure run))
  then None else Some program.

Definition cached_frontend (name module_source : string) (module_seeds : list HostGenericSeedRequest)
  : Probe (option Program) :=
  frontend_key ← settled_in (frontend_cache_key name module_seeds);
  frontend_identity ← settled_in (expect "called `Option::unwrap()` on a `None` value" (pr_frontend_identity run));
  cached ← cache_load frontend_key ".program.json.gz" frontend_identity None;
  match admitted_program name module_source cached with
  | Some program => mret (Some program)
  | None =>
      let legacy_key := cache_key_hex toolchain_json frontend_identity name (pr_closure run) (pr_seeds_raw run) in
      legacy ← cache_load legacy_key ".json.gz" frontend_identity None;
      match legacy with
      | Some (program, _, _) =>
          _ ← cache_store frontend_key ".program.json.gz" frontend_identity program None None;
          mret (Some program)
      | None => mret None
      end
  end.

(** What the cache has for a module. *)
Definition cached_module (name module_source : string) (module_seeds : list HostGenericSeedRequest)
  : Probe (option (Program * option BackendArtifact)) :=
  match pr_cache_dir run with
  | None => mret None
  | Some _ =>
      key ← settled_in (cache_key name);
      identity ← settled_in (expect GATHERED (pr_toolchain run));
      hit ← match pr_backend_name run with
            | Some _ => cache_load key ".json.gz" identity (pr_backend_name run)
            | None => mret None
            end;
      match hit with
      | Some cached => found ← backend_hit name key identity module_seeds cached; mret (Some found)
      | None =>
          program ← cached_frontend name module_source module_seeds;
          match program with
          | Some program => _ ← counting 1 0 0 1; mret (Some (program, None))
          | None => _ ← counting 0 1 0 0; mret None
          end
      end
  end.

(** [assert!(frontend_valid, ..)] and [result.program.unwrap()]. *)
Definition elaborated (name source : string) (module_seeds : list HostGenericSeedRequest) : Outcome string (FrontEnd * Program) :=
  let result := front_end_with_resolver_and_seeds (envelope source) (resolve_source (pr_sources run)) module_seeds in
  if negb (fr_is_valid result) then Panic (name +:+ ": " +:+ fr_diagnostics_debug result)
  else program ← expect "called `Option::unwrap()` on a `None` value" (fr_program result); Ok (result, program).

Definition elaborate_module (name source module_source : string) (module_seeds : list HostGenericSeedRequest)
  : Probe Program :=
  '(result, program) ← settled_in (elaborated name source module_seeds);
  _ ← match pr_cache_dir run with
      | None => mret tt
      | Some _ =>
          frontend_key ← settled_in (frontend_cache_key name module_seeds);
          frontend_identity ← settled_in (expect "called `Option::unwrap()` on a `None` value" (pr_frontend_identity run));
          cache_store frontend_key ".program.json.gz" frontend_identity program None
            (frontend_cache_metadata module_id p_dependencies name module_source program (fr_module_resolutions result)
               (pr_closure run))
      end;
  mret program.

Abbreviation Programs := (list (string * Program)).
Abbreviation Artifacts := (list (string * BackendArtifact)).

(** The body of the loop over the sources. *)
Definition load_program (st : Programs * Artifacts) (row : string * string) : Probe (Programs * Artifacts) :=
  let '(programs, cached_artifacts) := st in
  let '(name, source) := row in
  if match pr_execution_modules run with Some modules => negb (existsb (String.eqb name) modules) | None => false end then
    mret (programs, cached_artifacts)
  else
  let module_seeds := module_seeds_for name (pr_generic_seeds run) in
  module_source ← settled_in (module_source_of name);
  found ← cached_module name module_source module_seeds;
  match found with
  | Some (program, artifact) =>
      mret (bm_put name program programs,
            match artifact with Some artifact => bm_put name artifact cached_artifacts | None => cached_artifacts end)
  | None =>
      program ← elaborate_module name source module_source module_seeds;
      mret (bm_put name program programs, cached_artifacts)
  end.

Fixpoint load_programs (st : Programs * Artifacts) (rows : SourceMap) : Probe (Programs * Artifacts) :=
  match rows with
  | [] => mret st
  | row :: rows => st ← load_program st row; load_programs st rows
  end.

(** ** The backend *)

Definition compile_backend_program (backend module : string) (program : Program) : Outcome string BackendArtifact :=
  match backend_request_error backend program with
  | Some error => Panic (backend +:+ " request for " +:+ module +:+ ": " +:+ error)
  | None =>
      match compile_backend backend program with
      | inr result => Panic (backend +:+ " emitted no artifact for " +:+ module +:+ ": " +:+ result)
      | inl artifact =>
          match verify artifact_identity_is_valid artifact with
          | Ok artifact => Ok artifact
          | _ => Panic (backend +:+ " emitted an artifact with an invalid identity for " +:+ module)
          end
      end
  end.

(** The program that is compiled: the projection onto the roots, if any. *)
Definition backend_program (name : string) (program : Program) : Outcome string Program :=
  match pr_backend_roots run with
  | None => Ok program
  | Some selection =>
      match backend_program_projection debug_str program selection with
      | Ok projection => Ok (bp_program projection)
      | Err error => Panic ("backend root closure for " +:+ name +:+ ": " +:+ error)
      | Panic message => Panic message
      end
  end.

(** The body of the loop over the programs. *)
Definition compile_program (backend : string) (cached_artifacts : Artifacts) (st : Programs * Artifacts)
  (row : string * Program) : Probe (Programs * Artifacts) :=
  let '(programs, backend_artifacts) := st in
  let '(name, program) := row in
  match bm_get name cached_artifacts with
  | Some artifact => mret (bm_put name program programs, bm_put name artifact backend_artifacts)
  | None =>
      program ← settled_in (backend_program name program);
      artifact ← settled_in (compile_backend_program backend name program);
      _ ← match pr_cache_dir run with
          | None => mret tt
          | Some _ =>
              key ← settled_in (cache_key name);
              identity ← settled_in (expect "called `Option::unwrap()` on a `None` value" (pr_toolchain run));
              cache_store key ".json.gz" identity program (Some artifact) None
          end;
      mret (bm_put name program programs, bm_put name artifact backend_artifacts)
  end.

Fixpoint compile_programs (backend : string) (cached_artifacts : Artifacts) (st : Programs * Artifacts)
  (rows : Programs) : Probe (Programs * Artifacts) :=
  match rows with
  | [] => mret st
  | row :: rows => st ← compile_program backend cached_artifacts st row; compile_programs backend cached_artifacts st rows
  end.

(** The programs and the artifacts of a run. *)
Definition prepare : Probe (Programs * Artifacts) :=
  '(programs, cached_artifacts) ← load_programs ([], []) (pr_sources run);
  match pr_backend_name run with
  | None => mret (programs, [])
  | Some backend => compile_programs backend cached_artifacts ([], []) programs
  end.
End Run.
End Programs.
