(* ===== verification/ProbeProgramsTheorems.v ===== *)
(** The probe's caches are transparent: the sources and the closure of a run
    agree, what a run loads from an honest cache is what it would elaborate, and
    a run leaves the cache honest. *)

From Stdlib Require Import Ascii String.
From S2P Require Import ProbeCacheTheorems RetentionTheorems.
From S2P Require Export ProbeSourcesTheorems ProbePrograms.

Local Open Scope string_scope.
Local Open Scope list_scope.

(** ** Sorting rows by name *)

(** Rows of one name keep their order. *)
Lemma sort_closure_filter name (l : SourceMap) :
  filter (fun row => row.1 = name) (sort_by closure_leb l) = filter (fun row => row.1 = name) l.
Proof.
  assert (Hinsert : forall row (k : SourceMap), filter (fun row => row.1 = name) (insert_by closure_leb row k) =
    filter (fun row => row.1 = name) (row :: k)).
  { intros row k. induction k as [|other k IH]; [done|]. cbn [insert_by]. destruct (closure_leb row other) eqn:Hle; [done|].
    rewrite (filter_cons _ other (insert_by _ _ _)), IH, !filter_cons. unfold closure_leb in Hle.
    destruct (decide (other.1 = name)) as [Ho|], (decide (row.1 = name)) as [Hr|]; try done.
    rewrite Ho, Hr in Hle. unfold ord_leb in Hle. by rewrite ord_cmp_refl in Hle. }
  induction l as [|row l IH]; [done|].
  change (sort_by closure_leb (row :: l)) with (insert_by closure_leb row (sort_by closure_leb l)).
  by rewrite Hinsert, !filter_cons, IH.
Qed.

Lemma source_of_sorted name l : source_of (sort_by closure_leb l) name = source_of l name.
Proof. unfold source_of. by rewrite sort_closure_filter. Qed.

Lemma source_of_app name l k : source_of (l ++ k) name = match source_of k name with Some t => Some t | None => source_of l name end.
Proof.
  unfold source_of. rewrite filter_app, last_app. by destruct (last (filter _ k)).
Qed.

Lemma source_of_map name (m : SourceMap) : bm_ascending m -> source_of m name = bm_get name m.
Proof.
  intros Hm. unfold source_of. destruct (bm_get name m) as [text|] eqn:Hg.
  - assert (NoDup m.*1) as Hnd by by apply bm_keys_NoDup. apply bm_get_elem in Hg.
    assert (filter (fun row : string * string => row.1 = name) m = [(name, text)]) as ->; [|done].
    clear Hm. induction m as [|[k t] m IH]; [by apply elem_of_nil in Hg|]. cbn in Hnd. apply NoDup_cons in Hnd as [Hk Hnd].
    rewrite filter_cons. cbn. apply elem_of_cons in Hg as [[= -> ->]|Hg].
    + rewrite decide_True by done. f_equal. clear -Hk. induction m as [|[k' t'] m IH]; [done|]. cbn in Hk.
      rewrite filter_cons. cbn. rewrite decide_False; [apply IH; set_solver|]. intros ->. apply Hk. left.
    + rewrite decide_False; [by apply IH|]. intros ->. apply Hk, list_elem_of_fmap. by exists (name, text).
  - destruct (last (filter _ m)) as [[k t]|] eqn:El; [|done]. apply last_filter_elem in El as [Hin Hk]. cbn in Hk. subst k.
    apply bm_elem_get in Hin; [congruence|done].
Qed.

Lemma source_of_member name l text : source_of l name = Some text -> (name, text) ∈ l.
Proof.
  unfold source_of. destruct (last (filter _ l)) as [[k t]|] eqn:El; [|done]. intros [= <-].
  apply last_filter_elem in El as [Hin Hk]. cbn in Hk. by subst k.
Qed.

Lemma source_of_get name (l : SourceMap) : source_of l name = bm_get name (bm_of_list l).
Proof. symmetry. apply bm_get_of_list. Qed.

Lemma source_of_unique name (l : SourceMap) text : NoDup l.*1 -> (name, text) ∈ l -> source_of l name = Some text.
Proof. intros Hnd Hin. rewrite source_of_get. by apply bm_get_unique. Qed.

Lemma source_of_none name (l : SourceMap) : source_of l name = None -> forall text, (name, text) ∉ l.
Proof.
  unfold source_of. intros Hn text Hin. destruct (last (filter (fun row : string * string => row.1 = name) l)) as [row|] eqn:El; [done|].
  apply last_None in El. assert ((name, text) ∈ filter (fun row : string * string => row.1 = name) l) as Hf
    by (apply list_elem_of_filter; by split). rewrite El in Hf. by apply elem_of_nil in Hf.
Qed.

Section Coherence.
Context (inputs : ProbeInputs).

(** ** The loaders *)

Lemma load_modules_ok fuel roots sources0 requested st st' :
  Loading inputs roots sources0 requested st -> load_modules inputs fuel roots st = Ok st' ->
  Loading inputs roots sources0 requested st'.
Proof.
  revert st. induction fuel as [|fuel IH]; intros st Hst Hl; [done|]. cbn [load_modules] in Hl.
  destruct (ll_pending st) as [|module pending] eqn:Hp; [by injection Hl as <-|].
  pose proof (load_module_spec inputs roots sources0 requested module pending st Hst Hp) as Hstep.
  destruct (load_module inputs roots module _) as [st1|e|message]; [|done|done].
  cbn [mbind outcome_bind] in Hl. destruct Hstep as [Hst1 _]. by eapply IH.
Qed.

Definition sorted_maps (st : LibraryLoad) : Prop := bm_ascending (ll_sources st) /\ bm_ascending (ll_loaded st).

Lemma load_modules_sorted fuel roots st st' :
  sorted_maps st -> load_modules inputs fuel roots st = Ok st' -> sorted_maps st'.
Proof.
  revert st. induction fuel as [|fuel IH]; intros st [Hs Hld] Hl; [done|]. cbn [load_modules] in Hl.
  destruct (ll_pending st) as [|module pending]; [by injection Hl as <-|].
  apply outcome_bind_ok in Hl as (st1 & H1 & Hl). refine (IH st1 _ Hl). unfold load_module in H1. cbn [ll_loaded ll_sources] in H1.
  destruct (_ || _); [by injection H1 as <-|]. destruct (library_module_relative_path module); [|by injection H1 as <-].
  apply outcome_bind_ok in H1 as (text & _ & [= <-]). split; cbn; by apply bm_put_ascending.
Qed.

Lemma load_probe_ok fuel sources0 sources loaded :
  bm_ascending sources0 -> load_probe_library_modules inputs fuel sources0 = Ok (sources, loaded) ->
  bm_ascending sources /\ bm_ascending loaded /\
  (forall name, bm_get name sources = match bm_get name sources0 with Some t => Some t | None => bm_get name loaded end) /\
  (forall name, is_Some (bm_get name loaded) -> bm_get name sources0 = None /\ is_Some (library_module_relative_path name)).
Proof.
  intros Hasc. unfold load_probe_library_modules. case_bool_decide.
  { intros [= <- <-]. split_and!; [done|constructor|by intros name; destruct (bm_get name sources0)|by intros name [? ?]]. }
  case_bool_decide; [done|]. intros (st & Hl & [= <- <-])%outcome_bind_ok.
  pose proof Hl as [Hs Hld]%load_modules_sorted; [|split; [done|constructor]].
  apply load_modules_ok with (requested := requested_modules inputs) (sources0 := sources0) in Hl; [|apply Loading_start].
  split_and!; [done|done|apply (lo_sources _ _ _ _ _ Hl)|].
  intros name [text Hg]. apply (lo_loaded _ _ _ _ _ Hl) in Hg as (_ & [? ?] & _). by split.
Qed.

Lemma compiler_module_inj file file' :
  file ∈ COMPILER_FILES -> file' ∈ COMPILER_FILES -> compiler_module file = compiler_module file' -> file = file'.
Proof.
  assert (forallb (fun f => forallb (fun g => negb (String.eqb (compiler_module f) (compiler_module g)) || String.eqb f g)
    COMPILER_FILES) COMPILER_FILES = true) as Hall by (vm_compute; reflexivity).
  intros Hf%list_elem_of_In Hg%list_elem_of_In Heq. rewrite forallb_forall in Hall. specialize (Hall file Hf).
  rewrite forallb_forall in Hall. specialize (Hall file' Hg). rewrite Heq, String.eqb_refl in Hall. by apply String.eqb_eq in Hall.
Qed.

(** The text of a compiler module, by its name. *)
Definition compiler_text (name text : string) : Prop :=
  exists file, file ∈ COMPILER_FILES /\ name = compiler_module file /\ read_unwrap inputs (compiler_path file) = Ok text.

Lemma compiler_text_unique name text text' : compiler_text name text -> compiler_text name text' -> text = text'.
Proof.
  intros (file & Hf & -> & Hr) (file' & Hf' & Heq & Hr'). apply compiler_module_inj in Heq as <-; [|done..]. congruence.
Qed.

Lemma compiler_sources_ok sources :
  compiler_sources inputs = Ok sources ->
  bm_ascending sources /\ forall name text, bm_get name sources = Some text -> compiler_text name text.
Proof.
  unfold compiler_sources. intros Hf.
  apply (fold_outcome_inv _ (fun m : SourceMap => bm_ascending m /\ forall name text, bm_get name m = Some text -> compiler_text name text)) in Hf;
    [done| |split; [constructor|done]].
  intros m file m' Hfile [Hasc Hm] (text & Hread & [= <-])%outcome_bind_ok. split; [by apply bm_put_ascending|].
  intros name t. rewrite bm_get_put. case_decide as Hname; [|by apply Hm]. intros [= <-]. exists file.
  split; [by apply elem_of_filterb in Hfile as [? _]|by split].
Qed.

Lemma compiler_closure_ok sources closure :
  compiler_closure inputs sources = Ok closure ->
  forall name text, (name, text) ∈ closure <-> compiler_text name text /\ is_Some (bm_get name sources).
Proof.
  unfold compiler_closure. intros Hf%map_outcome_ok.
  assert (Hrow : forall file row, (text ← read_unwrap inputs (compiler_path file); Ok (compiler_module file, text) : Outcome string _) = Ok row ->
    row.1 = compiler_module file /\ read_unwrap inputs (compiler_path file) = Ok row.2).
  { intros file row (text & Hr & [= <-])%outcome_bind_ok. by split. }
  intros name text. split.
  - intros Hin. apply list_elem_of_lookup in Hin as [i Hi]. eapply Forall2_lookup_r in Hf as (file & Hfile & Hr); [|exact Hi].
    apply Hrow in Hr as [Hn Hr]. cbn in Hn, Hr. apply list_elem_of_lookup_2, elem_of_filterb in Hfile as [Hfile Hhas].
    split; [by exists file|]. rewrite Hn. by apply bool_decide_eq_true in Hhas.
  - intros [(file & Hfile & -> & Hr) Hs].
    assert (file ∈ List.filter (fun file => has_module sources (compiler_module file)) COMPILER_FILES) as Hin.
    { apply elem_of_filterb. split; [done|]. by apply bool_decide_eq_true. }
    apply list_elem_of_lookup in Hin as [i Hi]. eapply Forall2_lookup_l in Hf as (row & Hrow' & Hr'); [|exact Hi].
    apply Hrow in Hr' as [Hn Hr']. apply list_elem_of_lookup_2 in Hrow'. destruct row as [n t]. cbn in Hn, Hr'. subst n.
    rewrite Hr in Hr'. by injection Hr' as <-.
Qed.

(** The closure holds the sources, each under its name. *)
Lemma source_closure_agrees fuel sources0 sources loaded closure name :
  compiler_sources inputs = Ok sources0 -> load_probe_library_modules inputs fuel sources0 = Ok (sources, loaded) ->
  source_closure inputs sources loaded = Ok closure -> source_of closure name = bm_get name sources.
Proof.
  intros (Hasc & Hcomp)%compiler_sources_ok Hl Hc. apply load_probe_ok in Hl as (_ & Hld & Hs & Hnew); [|done].
  apply outcome_bind_ok in Hc as (compiler & Hc & [= <-]). rewrite source_of_sorted, source_of_app, source_of_map by done.
  pose proof (compiler_closure_ok _ _ Hc) as Hrows.
  destruct (bm_get name loaded) as [text|] eqn:El.
  { destruct (Hnew name) as [Hnone _]; [by eexists|]. by rewrite Hs, Hnone. }
  destruct (source_of compiler name) as [text|] eqn:Esrc.
  - apply source_of_member, Hrows in Esrc as [Ht [t Hg]]. rewrite Hg. f_equal. rewrite Hs, El in Hg.
    destruct (bm_get name sources0) as [t0|] eqn:E0; [|done]. injection Hg as ->. apply Hcomp in E0. by eapply compiler_text_unique.
  - destruct (bm_get name sources) as [text|] eqn:Eg; [|done]. exfalso. apply (source_of_none _ _ Esrc text), Hrows.
    split; [|by eexists]. rewrite Hs, El in Eg. destruct (bm_get name sources0) as [t0|] eqn:E0; [|done].
    injection Eg as ->. by apply Hcomp.
Qed.

(** ** Names *)

Lemma split_on_chars c a s : a ∈ list_ascii_of_string s -> a = c \/ exists part, part ∈ split_on c s /\ a ∈ list_ascii_of_string part.
Proof.
  induction s as [|b s IH]; cbn; [by intros ?%elem_of_nil|].
  destruct (split_on c s) as [|piece pieces] eqn:Es; [by destruct s; cbn in Es; repeat case_match|].
  intros [->|Hin]%elem_of_cons.
  - destruct (Ascii.eqb_spec b c) as [->|]; [by left|]. right. exists (String b piece). split; [by left|cbn; by left].
  - destruct (IH Hin) as [->|(part & Hp & Ha)]; [by left|]. right. destruct (Ascii.eqb b c).
    + exists part. split; [by right|done].
    + apply elem_of_cons in Hp as [->|Hp]; [exists (String b piece); split; [by left|cbn; by right]|exists part; split; [by right|done]].
Qed.

Lemma stripped_app prefix s rest : strip_prefix prefix s = Some rest -> s = (prefix +:+ rest)%string.
Proof.
  revert s. induction prefix as [|a prefix IH]; intros s; cbn; [by intros [= ->]|].
  destruct s as [|b s]; [done|]. destruct (Ascii.eqb_spec a b) as [->|]; [|done]. intros ->%IH. done.
Qed.

Lemma library_name_line_free name : is_Some (library_module_relative_path name) -> line_free name.
Proof.
  unfold library_module_relative_path. intros [relative Hr]. apply bind_Some in Hr as (suffix & Hsuffix & Hr).
  apply bind_Some in Hr as (version & _ & Hr). destruct (_ || _) eqn:E; [done|].
  apply orb_false_iff in E as [_ Hparts%negb_false_iff]. apply stripped_app in Hsuffix as ->. unfold line_free.
  rewrite string_chars_app, elem_of_app. intros [Hin|Hin].
  - cbn in Hin. set_solver.
  - apply (split_on_chars "."%char) in Hin as [Hd|(part & Hp & Ha)]; [done|].
    rewrite forallb_forall in Hparts. apply list_elem_of_In, Hparts, andb_true_iff in Hp as [_ Hp].
    unfold string_forallb in Hp. rewrite forallb_forall in Hp. apply list_elem_of_In, Hp in Ha. done.
Qed.

Lemma compiler_name_line_free name text : compiler_text name text -> line_free name.
Proof.
  intros (file & Hf & -> & _).
  assert (forallb (fun f => negb (existsb (Ascii.eqb "010"%char) (list_ascii_of_string (compiler_module f)))) COMPILER_FILES = true) as Hall
    by (vm_compute; reflexivity).
  rewrite forallb_forall in Hall. specialize (Hall file (proj1 (list_elem_of_In _ _) Hf)). apply negb_true_iff in Hall.
  unfold line_free. intros Hin. assert (existsb (Ascii.eqb "010"%char) (list_ascii_of_string (compiler_module file)) = true) as Ht; [|congruence].
  apply existsb_exists. exists "010"%char. split; [by apply list_elem_of_In|by apply Ascii.eqb_refl].
Qed.
End Coherence.

(** ** A run *)

Section Run.
Context `{ModelCrate, ProgramCrate, ProgramFacts, ProbeCompiler}.

(** What every run the environment describes has. *)
Record Coherent (run : ProbeRun) : Prop := mkCoherent {
  co_ascending : bm_ascending (pr_sources run);
  co_closure : forall name, source_of (pr_closure run) name = bm_get name (pr_sources run);
  co_names : forall name, is_Some (bm_get name (pr_sources run)) -> line_free name;
  co_toolchain : is_Some (pr_cache_dir run) -> exists t, pr_toolchain run = Some t /\ ti_backend_name t = pr_backend_name run
}.

Lemma probe_run_coherent inputs fuel run : probe_run inputs fuel = Ok run -> Coherent run.
Proof.
  unfold probe_run. intros (seeds & _ & Hrun)%outcome_bind_ok.
  apply outcome_bind_ok in Hrun as (sources0 & Hcs & Hrun). apply outcome_bind_ok in Hrun as ([sources loaded] & Hl & Hrun).
  destruct (_ && _); [done|]. apply outcome_bind_ok in Hrun as (closure & Hc & [= <-]).
  pose proof (compiler_sources_ok inputs sources0 Hcs) as [Hasc0 Hcomp].
  pose proof (load_probe_ok inputs fuel sources0 sources loaded Hasc0 Hl) as (Hasc & _ & Hs & Hnew). split; cbn.
  - done.
  - intros name. by eapply source_closure_agrees.
  - intros name [text Hg]. rewrite Hs in Hg. destruct (bm_get name sources0) as [t|] eqn:E0.
    + by eapply compiler_name_line_free, Hcomp.
    + apply library_name_line_free, Hnew. by eexists.
  - intros [dir ->]. cbn. eexists. split; [done|]. unfold toolchain_of, gather_toolchain_identity.
    by destruct (read_lock_pin _ _).
Qed.

(** The source of a module is in the closure. *)
Lemma module_source_found run name :
  Coherent run -> is_Some (bm_get name (pr_sources run)) ->
  exists module_source, module_source_of run name = Ok module_source /\ (name, module_source) ∈ pr_closure run.
Proof.
  intros Hco [text Hg]. rewrite <- (co_closure _ Hco) in Hg. apply source_of_member in Hg. unfold module_source_of.
  destruct (List.find _ (pr_closure run)) as [[n t]|] eqn:Ef; cbn.
  - apply find_some in Ef as [Hin Hn%String.eqb_eq]. cbn in Hn. subst n. exists t. split; [done|by apply list_elem_of_In].
  - exfalso. apply list_elem_of_In in Hg. pose proof (find_none _ _ Ef _ Hg) as Hn. cbn in Hn. by rewrite String.eqb_refl in Hn.
Qed.
End Run.

(** ** The caches *)

(** ** File names of the cache *)

Definition plain (s : string) : Prop := "."%char ∉ list_ascii_of_string s.

Lemma suffix_inj (a b suffix : string) : (a +:+ suffix = b +:+ suffix)%string -> a = b.
Proof.
  intros Heq. apply string_chars_inj. apply (f_equal list_ascii_of_string) in Heq. rewrite !string_chars_app in Heq.
  by apply (inj (fun l => l ++ _)) in Heq.
Qed.

(** Names with different ends. *)
Lemma last_char_differs (a b s t : string) :
  last (list_ascii_of_string s) <> last (list_ascii_of_string t) ->
  is_Some (last (list_ascii_of_string s)) -> is_Some (last (list_ascii_of_string t)) -> (a +:+ s <> b +:+ t)%string.
Proof.
  intros Hne [x Hx] [y Hy] Heq. apply (f_equal list_ascii_of_string) in Heq. rewrite !string_chars_app in Heq.
  apply (f_equal last) in Heq. rewrite !last_app, Hx, Hy in Heq. congruence.
Qed.

Lemma program_not_plain (a b : string) : plain b -> (a +:+ ".program.json.gz" <> b +:+ ".json.gz")%string.
Proof.
  intros Hb Heq. change ".program.json.gz" with (".program" +:+ ".json.gz")%string in Heq. rewrite <- string_app_assoc in Heq.
  apply suffix_inj in Heq as <-. apply Hb. rewrite string_chars_app. apply elem_of_app. right. left.
Qed.

Section Cache.
Context `{ModelCrate, ProgramCrate, ProgramFacts, ProbeCompiler}.

(** ** Compilers *)

(** The front end of the compiler that was built from the files of a bootstrap
    tree, for a toolchain identity without the parts of a backend. *)
Context (front_of : list (string * string) -> ToolchainIdentity ->
  ProbeEnvelope -> (string -> option ProbeEnvelope) -> list HostGenericSeedRequest -> FrontEnd).

(** The identity a probe gathers beside these files: the tree was read, and
    neither a path nor a content holds the byte its digest separates them by. *)
Definition describes (files : list (string * string)) (t : ToolchainIdentity) : Prop :=
  rows_nul_free files /\ ti_bootstrap_tree_sha256 t = sha256_hex (tree_buffer files).

(** The probe that runs is the one its bootstrap tree and its identity say. *)
Definition bootstrap_tree (inputs : ProbeInputs) : Tree :=
  pi_tree inputs (path_join (default "." (pi_var inputs "MNCS_PROBE_TOOLCHAIN_IDENTITY_ROOT")) ".bootstrap").
Definition runs_compiler (inputs : ProbeInputs) (backend_name : option string) : Prop :=
  exists files, visit_tree "" (bootstrap_tree inputs) = Some files /\ rows_nul_free files /\
    forall e resolver seeds, front_end_with_resolver_and_seeds e resolver seeds =
      front_of files (frontend_toolchain_identity (toolchain_of inputs backend_name)) e resolver seeds.

(** ** What the cache holds *)

(** An entry under a name the probe reads it by: a program with the metadata of
    the elaboration that made it, by whatever compiler, or without metadata; an
    entry of a backend; a temporary file. *)
Inductive Written : string -> string -> Prop :=
  | WrittenFrontend files t module source module_source seeds sources closure program metadata text :
      describes files t -> line_free module -> (forall name, source_of closure name = bm_get name sources) ->
      bm_get module sources = Some source ->
      let result := front_of files (frontend_toolchain_identity t) (envelope source) (resolve_source sources) seeds in
      fr_is_valid result = true -> fr_program result = Some program ->
      frontend_cache_metadata module_id p_dependencies module module_source program (fr_module_resolutions result) closure
        = Some metadata ->
      entry_json (mkCacheEntry (frontend_toolchain_identity t) program None (Some metadata)) = Some text ->
      Written (frontend_cache_key_hex toolchain_json seeds_json t module module_source seeds +:+ ".program.json.gz") text
  | WrittenProgram key t program text :
      entry_json (mkCacheEntry t program None None) = Some text -> Written (key +:+ ".program.json.gz") text
  | WrittenBackend key t program artifact text :
      plain key -> is_Some (ti_backend_name t) ->
      entry_json (mkCacheEntry t program artifact None) = Some text -> Written (key +:+ ".json.gz") text
  | WrittenTemporary stem text : Written (stem +:+ ".tmp") text.

(** A cache that was written by runs of the probe. *)
Definition Honest (dir : Directory) : Prop :=
  forall e text, e ∈ dir -> e_content e = Some text -> Written (e_name e) text.

(** ** Laws of the crates *)

Context `{!Inj (=) (=) sha256_hex, !Inj (=) (=) toolchain_json, !Inj (=) (=) seeds_json}.
Context (sha_plain : forall s, plain (sha256_hex s)).
Context (toolchain_line : forall t, line_free (toolchain_json t)) (seeds_line : forall s, line_free (seeds_json s)).
(** An entry is read as it was written. *)
Context (entry_read : forall e text, entry_json e = Some text ->
  read_program_entry text = Some (mkProgramEntry (pc_identity e) (pc_program e) (pc_frontend e))).
(** A valid elaboration depends on the modules it resolved and no others. *)
Context (front_end_local : forall files t e resolver resolver' seeds,
  let result := front_of files t e resolver seeds in
  fr_is_valid result = true ->
  (forall m, m ∈ fr_module_resolutions result -> resolver' (mr_requested_module m) = resolver (mr_requested_module m)) ->
  front_of files t e resolver' seeds = result).

(** What a run loads without a cache. *)
Definition selected_row (run : ProbeRun) (row : string * string) : bool :=
  match pr_execution_modules run with Some modules => existsb (String.eqb row.1) modules | None => true end.
Definition elaborated_programs (run : ProbeRun) (rows : SourceMap) (programs : list (string * Program))
  : Outcome string (list (string * Program)) :=
  fold_outcome (fun programs row =>
    '(_, program) ← elaborated run row.1 row.2 (module_seeds_for row.1 (pr_generic_seeds run));
    Ok (bm_put row.1 program programs)) programs (List.filter (selected_row run) rows).

Section Run.
Context (env : ProbeEnv) (run : ProbeRun) (Hco : Coherent run).
(** The compiler of the run, when it has a cache. *)
Context (Hcompiler : forall t, pr_toolchain run = Some t -> exists files, describes files t /\
  forall e resolver seeds, front_end_with_resolver_and_seeds e resolver seeds =
    front_of files (frontend_toolchain_identity t) e resolver seeds).

(** ** Reading *)

Lemma cached_entry_content dir name t backend cached :
  Honest dir -> cached_entry env dir name t backend = Some cached ->
  exists text, Written name text /\
    parse_cache_entry_reader artifact_identity_is_valid read_program_entry read_backend_entry text t backend = Some cached.
Proof.
  intros Hh Hc. unfold cached_entry in Hc. apply bind_Some in Hc as ([] & _ & Hc). destruct (_ || _); [done|].
  apply bind_Some in Hc as (e & He & Hc). apply bind_Some in Hc as (text & Ht & Hc). destruct (_ || _); [done|].
  apply lookup_entry_some in He as [He <-]. exists text. split; [by apply Hh|done].
Qed.

(** Compilers of one identity were built from the same files. *)
Lemma described_once files files' t t' :
  describes files t -> describes files' t' -> frontend_toolchain_identity t = frontend_toolchain_identity t' -> files = files'.
Proof.
  intros [Hnul Ht] [Hnul' Ht'] Heq%(f_equal ti_bootstrap_tree_sha256). cbn in Heq.
  rewrite Ht, Ht' in Heq. apply (inj sha256_hex) in Heq. by apply tree_buffer_inj.
Qed.

(** The identity an entry is read with is the one it was written with. *)
Lemma parsed_program text t program artifact metadata e :
  entry_json e = Some text ->
  parse_cache_entry_reader artifact_identity_is_valid read_program_entry read_backend_entry text t None
    = Some (program, artifact, metadata) ->
  pc_identity e = t /\ pc_program e = program /\ artifact = None /\ metadata = pc_frontend e.
Proof.
  intros He Hp. cbn in Hp. rewrite (entry_read _ _ He) in Hp. cbn in Hp. case_bool_decide as Ht; [done|].
  injection Hp as <- <- <-. split; [|done]. by destruct (decide (pc_identity e = t)).
Qed.

(** A frontend entry that is admitted holds what would be elaborated now. *)
Lemma admitted_current dir name source module_source t cached program :
  Honest dir -> pr_toolchain run = Some t -> bm_get name (pr_sources run) = Some source ->
  module_source_of run name = Ok module_source ->
  let seeds := module_seeds_for name (pr_generic_seeds run) in
  cached_entry env dir
    (frontend_cache_key_hex toolchain_json seeds_json (frontend_toolchain_identity t) name module_source seeds +:+ ".program.json.gz")
    (frontend_toolchain_identity t) None = Some cached ->
  admitted_program run name module_source (Some cached) = Some program ->
  exists result, elaborated run name source seeds = Ok (result, program).
Proof.
  cbv zeta. intros Hh Ht Hsource Hms Hc Hadm. apply (cached_entry_content _ _ _ _ _ Hh) in Hc as (text & Hw & Hp).
  destruct cached as [[p artifact] metadata]. unfold admitted_program in Hadm. cbn [mbind option_bind] in Hadm.
  destruct (_ || _) eqn:Eok; [done|]. injection Hadm as ->. apply orb_false_iff in Eok as [_ Hmatch%negb_false_iff].
  inversion Hw as [files' t' module source' module_source' seeds' sources' closure' program' md text' Hfiles' Hm Hclosure Hsrc' result Hvalid Hprog Hmd Hjson Hname
    |key t' program' text' Hjson Hname|key t' program' a text' Hplain Hback Hjson Hname|stem text' Hname]; subst text'.
  - apply suffix_inj in Hname.
    assert (line_free name) as Hline by (apply (co_names _ Hco); by eexists).
    destruct (proj1 (frontend_key_injective toolchain_json seeds_json toolchain_line seeds_line _ _ _ _ _ _ _ _ Hm Hline) Hname)
      as (Hid & -> & -> & ->).
    destruct (Hcompiler t Ht) as (files & Hfiles & Hfront).
    assert (files' = files) as -> by (eapply described_once; [exact Hfiles'|exact Hfiles|exact Hid]).
    destruct (parsed_program _ _ _ _ _ _ Hjson Hp) as (_ & Hpp & _ & ->). cbn in Hpp. subst program'.
    pose proof (proj1 (recorded_matches module_id p_dependencies _ _ _ _ _ _ _ _ _ _ _ Hmd) Hmatch)
      as (_ & _ & _ & _ & Hnd & Hres & _).
    assert (source' = module_source) as Hsame.
    { pose proof (frontend_cache_metadata_source module_id p_dependencies _ _ _ _ _ _ Hmd) as Hrec.
      rewrite <- source_of_get, Hclosure, Hsrc' in Hrec. congruence. }
    assert (source = module_source) as ->.
    { destruct (module_source_found run name Hco) as (ms & Hms' & Hin); [by eexists|]. rewrite Hms in Hms'. injection Hms' as <-.
      apply (source_of_unique _ _ _ Hnd) in Hin. rewrite (co_closure _ Hco) in Hin. congruence. }
    subst source'. assert (front_end_with_resolver_and_seeds (envelope module_source) (resolve_source (pr_sources run)) (module_seeds_for name (pr_generic_seeds run)) = result) as Hnow.
    { rewrite Hfront. subst result. change (frontend_toolchain_identity (frontend_toolchain_identity t)) with (frontend_toolchain_identity t) in Hid.
      rewrite <- Hid. apply front_end_local; [done|]. intros m Hmres. destruct (Hres m Hmres) as (txt & Hin & Hold). unfold resolve_source.
      apply (source_of_unique _ _ _ Hnd) in Hin. rewrite <- Hclosure, Hold. by rewrite <- (co_closure _ Hco), Hin. }
    exists result. unfold elaborated. rewrite Hnow, Hvalid, Hprog. done.
  - exfalso. destruct (parsed_program _ _ _ _ _ _ Hjson Hp) as (_ & _ & _ & ->). by cbn in Hmatch.
  - exfalso. by apply eq_sym, program_not_plain in Hname.
  - exfalso. by eapply last_char_differs in Hname; [done|..]; cbn.
Qed.

(** Nothing the probe writes is read under the key of a whole closure. *)
Lemma legacy_missing dir t key :
  Honest dir -> plain key -> cached_entry env dir (key +:+ ".json.gz") (frontend_toolchain_identity t) None = None.
Proof.
  intros Hh Hkey. destruct (cached_entry _ _ _ _ _) as [[[p a] md]|] eqn:Hc; [|done]. exfalso.
  apply (cached_entry_content _ _ _ _ _ Hh) in Hc as (text & Hw & Hp).
  inversion Hw as [files' t' module source' module_source' seeds' sources' closure' program' m text' Hfiles' Hm Hclosure Hsrc' result Hvalid Hprog Hmd Hjson Hname
    |key' t' program' text' Hjson Hname|key' t' program' artifact text' Hplain [b Hback] Hjson Hname|stem text' Hname]; subst text'.
  - by apply program_not_plain in Hname.
  - by apply program_not_plain in Hname.
  - destruct (parsed_program _ _ _ _ _ _ Hjson Hp) as (Hid & _). cbn in Hid. subst t'. done.
  - by eapply last_char_differs in Hname; [done|..]; cbn.
Qed.

(** ** Honesty is kept *)

Lemma Honest_subset dir dir' : dir' ⊆ dir -> Honest dir -> Honest dir'.
Proof. intros Hsub Hh e text He. by apply Hh, Hsub. Qed.

Lemma Honest_touch now name dir : Honest dir -> Honest (touch now name dir).
Proof.
  intros Hh e text (e0 & -> & He)%list_elem_of_fmap. specialize (Hh e0). destruct (_ && _); cbn; by apply Hh.
Qed.

Lemma Honest_create now name dir dir' : Honest dir -> create_file env now name dir = Some dir' -> Honest dir'.
Proof.
  intros Hh. unfold create_file. destruct (pe_fails _ _ _); [done|]. destruct (lookup_entry name dir) as [e0|].
  - destruct (e_is_file e0); [|done]. intros [= <-] e text (e1 & -> & He)%list_elem_of_fmap.
    specialize (Hh e1). destruct (String.eqb_spec (e_name e1) name); cbn; [done|by apply Hh].
  - intros [= <-] e text [He|He]%elem_of_app; [by apply Hh|]. by apply list_elem_of_singleton in He as ->.
Qed.

Lemma temporary_name_tmp key tick : exists stem, temporary_name env key tick = (stem +:+ ".tmp")%string.
Proof.
  exists (key +:+ "." +:+ pretty (pe_pid env) +:+ "." +:+ pretty (pe_now env tick) +:+ ".json.gz")%string.
  unfold temporary_name. by rewrite !string_app_assoc.
Qed.

Lemma Honest_fill now length name content dir :
  Honest dir -> Written name content -> Honest (fill_file now length name content dir) /\
  forall e text, e ∈ fill_file now length name content dir -> e_name e = name -> e_content e = Some text -> text = content.
Proof.
  intros Hh Hw. split; intros e text (e0 & -> & He)%list_elem_of_fmap;
    specialize (Hh e0); destruct (String.eqb_spec (e_name e0) name) as [Heq|Hne]; cbn.
  - intros [= <-]. done.
  - by apply Hh.
  - by intros _ [= <-].
  - done.
Qed.

Lemma Honest_store key suffix entry tick dir :
  (forall text, entry_json entry = Some text -> Written (key +:+ suffix) text) ->
  Honest dir -> Honest (store_entry env key suffix entry tick dir).
Proof.
  intros Hentry Hh. unfold store_entry. destruct (pe_fails env CallCreateDir "."); [done|].
  destruct (create_file _ _ _ dir) as [dir1|] eqn:Hc; [|done]. apply (Honest_create _ _ _ _ Hh) in Hc.
  assert (Hremove : forall d, Honest d -> Honest (try_remove env (temporary_name env key tick) d))
    by (intros d Hd; exact (Honest_subset _ _ (remove_file_subset _ (pe_proc_exists env) (pe_to_string_lossy env) _ _) Hd)).
  destruct (_ || _); [by apply Hremove|].
  destruct (if pe_fails env CallWrite _ then None else entry_json entry) as [text|] eqn:Htext; [|by apply Hremove].
  destruct (pe_fails env CallWait _); [by apply Hremove|].
  assert (entry_json entry = Some text) as Hjson by (by destruct (pe_fails env CallWrite _)).
  destruct (temporary_name_tmp key tick) as [stem Hstem].
  destruct (Honest_fill (pe_now env tick) (pe_compressed_length env text) (temporary_name env key tick) text dir1 Hc) as [Hfill Hcontent];
    [rewrite Hstem; apply WrittenTemporary|].
  destruct (pe_fails env CallMetadata _); [by apply Hremove|].
  pose proof (publish_renamed (pe_fails env) (pe_proc_exists env) (pe_to_string_lossy env)
    (configured (pi_var (pe_inputs env)) (pe_usize_max env)) (pe_clock1 env tick) (pe_clock2 env tick)
    (temporary_name env key tick) (key +:+ suffix)%string
    (fill_file (pe_now env tick) (pe_compressed_length env text) (temporary_name env key tick) text dir1)) as Hpub.
  destruct (publish _ _ _ _ _ _ _ _ _) as [stored dir2]. cbn [snd] in Hpub.
  assert (Honest dir2) as Hdir2.
  { intros e t He Ht. destruct (Hpub e He) as (e0 & He0 & Hsame & [->|[Hn ->]]).
    - apply Hfill; [done|]. by rewrite <- Hsame.
    - apply Hentry. rewrite (Hcontent e0 t He0 Hn); [done|]. by rewrite <- Hsame. }
  destruct stored; [done|by apply Hremove].
Qed.

(** A phase keeps an honest cache honest. *)
Definition keeps {A} (m : Probe A) : Prop := forall st, Honest (ps_dir st) -> Honest (ps_dir (m st).2).

Lemma keeps_ret {A} (a : A) : keeps (mret a).
Proof. by intros st. Qed.
Lemma keeps_bind {A B} (m : Probe A) (f : A -> Probe B) : keeps m -> (forall a, keeps (f a)) -> keeps (m ≫= f).
Proof.
  intros Hm Hf st Hst. unfold mbind, probe_bind. specialize (Hm st Hst). destruct (m st) as [[a|e|message] st1]; cbn in *; [by apply Hf|done|done].
Qed.
Lemma keeps_settled {A B} (o : Outcome string A) (f : A -> Probe B) :
  (forall a, o = Ok a -> keeps (f a)) -> keeps (settled_in o ≫= f).
Proof. intros Hf st Hst. unfold mbind, probe_bind, settled_in. destruct o as [a|e|message]; [by apply Hf|done|done]. Qed.
Lemma keeps_counting a b c d : keeps (counting a b c d).
Proof. by intros st. Qed.
Lemma keeps_missing name : keeps (entry_missing name).
Proof. by intros st. Qed.

Lemma cache_load_ok key suffix t backend st :
  exists found st', cache_load env run key suffix t backend st = (Ok found, st') /\
    (found = None \/ found = cached_entry env (ps_dir st) (key +:+ suffix) t backend) /\
    (Honest (ps_dir st) -> Honest (ps_dir st')).
Proof.
  unfold cache_load. destruct (pr_cache_dir run); [|by exists None, st; auto].
  destruct (cached_entry _ _ _ _ _) as [cached|] eqn:Hc; [|by exists None, st; auto].
  eexists (Some cached), _. split; [reflexivity|]. split; [by right|]. cbn. apply Honest_touch.
Qed.
Lemma keeps_load key suffix t backend : keeps (cache_load env run key suffix t backend).
Proof. intros st Hst. destruct (cache_load_ok key suffix t backend st) as (found & st' & -> & _ & Hk). by apply Hk. Qed.

Lemma keeps_store key suffix t program artifact frontend :
  (forall text, entry_json (mkCacheEntry t program artifact frontend) = Some text -> Written (key +:+ suffix) text) ->
  keeps (cache_store env run key suffix t program artifact frontend).
Proof.
  intros Hw st Hst. unfold cache_store. destruct (pr_cache_dir run); [|done]. cbn. by apply Honest_store.
Qed.

Lemma cache_key_plain name key : cache_key run name = Ok key -> plain key.
Proof.
  unfold cache_key. intros (t & _ & [= <-])%outcome_bind_ok. destruct (pr_backend_roots run); apply sha_plain.
Qed.

Lemma keeps_backend_hit name key t module_seeds cached :
  plain key -> is_Some (ti_backend_name t) -> keeps (backend_hit env run name key t module_seeds cached).
Proof.
  intros Hkey Ht. destruct cached as [[program artifact] md]. unfold backend_hit. apply keeps_bind; [apply keeps_counting|intros _].
  apply keeps_settled. intros [p migrate] _. apply keeps_bind.
  { destruct (if migrate then artifact else None); [|apply keeps_ret]. apply keeps_store. intros text. by apply WrittenBackend. }
  intros _. apply keeps_settled. intros frontend_key _. apply keeps_settled. intros identity _.
  apply keeps_bind; [apply keeps_missing|intros missing]. apply keeps_bind; [|intros _; apply keeps_ret].
  destruct (_ && _); [|apply keeps_ret]. apply keeps_store. intros text. apply WrittenProgram.
Qed.

Lemma keeps_cached_frontend name module_source seeds : keeps (cached_frontend env run name module_source seeds).
Proof.
  unfold cached_frontend. apply keeps_settled. intros key _. apply keeps_settled. intros identity _.
  apply keeps_bind; [apply keeps_load|intros cached]. destruct (admitted_program _ _ _ cached); [apply keeps_ret|].
  apply keeps_bind; [apply keeps_load|intros [[[program a] md]|]; [|apply keeps_ret]].
  apply keeps_bind; [|intros _; apply keeps_ret]. apply keeps_store. intros text. apply WrittenProgram.
Qed.

(** The identities a phase computes. *)
Lemma gathered t : pr_toolchain run = Some t -> is_Some (pr_cache_dir run) -> ti_backend_name t = pr_backend_name run.
Proof. intros Ht Hdir. destruct (co_toolchain _ Hco Hdir) as (t' & Ht' & Hb). congruence. Qed.
Lemma expected {A} message (o : option A) a : @expect string A message o = Ok a -> o = Some a.
Proof. destruct o; [by intros [= ->]|done]. Qed.

Lemma keeps_cached_module name module_source seeds : keeps (cached_module env run name module_source seeds).
Proof.
  unfold cached_module. destruct (pr_cache_dir run) as [dir|] eqn:Hdir; [|apply keeps_ret].
  apply keeps_settled. intros key Hkey%cache_key_plain. apply keeps_settled. intros identity Hid%expected.
  assert (ti_backend_name identity = pr_backend_name run) as Hback by (apply gathered; [done|by rewrite Hdir]).
  assert (Hmiss : keeps (program ← cached_frontend env run name module_source seeds;
    match program with
    | Some program => _ ← counting 1 0 0 1; mret (Some (program, None : option BackendArtifact))
    | None => _ ← counting 0 1 0 0; mret None
    end)).
  { apply keeps_bind; [apply keeps_cached_frontend|]. intros [program|]; (apply keeps_bind; [apply keeps_counting|intros _; apply keeps_ret]). }
  destruct (pr_backend_name run) as [backend|] eqn:Eb; [|exact Hmiss].
  apply keeps_bind; [apply keeps_load|intros [cached|]; [|exact Hmiss]].
  apply keeps_bind; [apply keeps_backend_hit; [done|by rewrite Hback]|intros; apply keeps_ret].
Qed.

Lemma elaborated_ok name source seeds result program :
  elaborated run name source seeds = Ok (result, program) ->
  result = front_end_with_resolver_and_seeds (envelope source) (resolve_source (pr_sources run)) seeds /\
  fr_is_valid result = true /\ fr_program result = Some program.
Proof.
  unfold elaborated. destruct (fr_is_valid _) eqn:Hv; [cbn [negb]|done].
  intros (p & Hp%expected & [= <- <-])%outcome_bind_ok. done.
Qed.

Lemma keeps_elaborate name source module_source seeds :
  bm_get name (pr_sources run) = Some source -> module_source_of run name = Ok module_source ->
  keeps (elaborate_module env run name source module_source seeds).
Proof.
  intros Hsource Hms. unfold elaborate_module. apply keeps_settled. intros [result program] Hel%elaborated_ok.
  apply keeps_bind; [|intros _; apply keeps_ret]. destruct (pr_cache_dir run) as [dir|] eqn:Hdir; [|apply keeps_ret].
  apply keeps_settled. intros key Hkey. apply keeps_settled. intros identity Hid%expected. apply keeps_store. intros text Hjson.
  unfold frontend_cache_key in Hkey. rewrite Hms in Hkey. cbn [mbind outcome_bind] in Hkey.
  apply outcome_bind_ok in Hkey as (identity' & Hid'%expected & [= <-]). rewrite Hid in Hid'. injection Hid' as <-.
  unfold pr_frontend_identity in Hid. destruct (pr_toolchain run) as [t|]; [|done]. injection Hid as <-.
  destruct (frontend_cache_metadata _ _ _ _ _ _ _) as [metadata|] eqn:Hmd; [|by eapply WrittenProgram].
  destruct Hel as (-> & Hvalid & Hprog). destruct (Hcompiler t eq_refl) as (files & Hfiles & Hfront).
  rewrite Hfront in Hvalid, Hprog, Hmd.
  assert (line_free name) as Hline by (apply (co_names _ Hco); by eexists).
  exact (WrittenFrontend files (frontend_toolchain_identity t) name source module_source seeds (pr_sources run) (pr_closure run)
    program metadata text Hfiles Hline (co_closure _ Hco) Hsource Hvalid Hprog Hmd Hjson).
Qed.

Lemma keeps_load_program st row :
  bm_get row.1 (pr_sources run) = Some row.2 -> keeps (load_program env run st row).
Proof.
  intros Hrow. destruct st as [programs artifacts], row as [name source]. cbn in Hrow. unfold load_program.
  destruct (match pr_execution_modules run with Some _ => _ | None => _ end); [apply keeps_ret|].
  apply keeps_settled. intros module_source Hms. apply keeps_bind; [apply keeps_cached_module|].
  intros [[program artifact]|]; [apply keeps_ret|]. apply keeps_bind; [by apply keeps_elaborate|intros; apply keeps_ret].
Qed.

Lemma keeps_load_programs st rows :
  (forall row, row ∈ rows -> bm_get row.1 (pr_sources run) = Some row.2) -> keeps (load_programs env run st rows).
Proof.
  revert st. induction rows as [|row rows IH]; intros st Hrows; [apply keeps_ret|]. cbn [load_programs].
  apply keeps_bind; [apply keeps_load_program, Hrows; left|]. intros st'. apply IH. intros r Hr. apply Hrows. by right.
Qed.

Lemma keeps_compile_program backend artifacts st row :
  pr_backend_name run = Some backend -> keeps (compile_program env run backend artifacts st row).
Proof.
  intros Hb. destruct st as [programs backend_artifacts], row as [name program]. unfold compile_program.
  destruct (bm_get name artifacts); [apply keeps_ret|]. apply keeps_settled. intros p _. apply keeps_settled. intros a _.
  apply keeps_bind; [|intros; apply keeps_ret]. destruct (pr_cache_dir run) as [dir|] eqn:Hdir; [|apply keeps_ret].
  apply keeps_settled. intros key Hkey%cache_key_plain. apply keeps_settled. intros t Ht%expected.
  apply keeps_store. intros text. apply WrittenBackend; [done|]. rewrite (gathered t Ht), Hb; by eexists.
Qed.

Lemma keeps_compile_programs backend artifacts st rows :
  pr_backend_name run = Some backend -> keeps (compile_programs env run backend artifacts st rows).
Proof.
  intros Hb. revert st. induction rows as [|row rows IH]; intros st; [apply keeps_ret|]. cbn [compile_programs].
  apply keeps_bind; [by apply keeps_compile_program|]. intros st'. apply IH.
Qed.

Lemma source_rows row : row ∈ pr_sources run -> bm_get row.1 (pr_sources run) = Some row.2.
Proof. destruct row as [name source]. intros Hin. apply bm_elem_get; [exact (co_ascending _ Hco)|done]. Qed.

Lemma keeps_prepare : keeps (prepare env run).
Proof.
  unfold prepare. apply keeps_bind; [apply keeps_load_programs, source_rows|]. intros [programs artifacts].
  destruct (pr_backend_name run) as [backend|] eqn:Eb; [by apply keeps_compile_programs|apply keeps_ret].
Qed.

(** ** What is loaded *)

(** A phase that answers [o] on an honest cache. *)
Definition answers {A} (m : Probe A) (o : Outcome string A) : Prop := forall st, Honest (ps_dir st) -> (m st).1 = o.

Lemma answers_bind {A B} (m : Probe A) (f : A -> Probe B) o o' :
  keeps m -> answers m o -> match o with Ok a => answers (f a) o' | Err e => o' = Err e | Panic message => o' = Panic message end ->
  answers (m ≫= f) o'.
Proof.
  intros Hk Hm Ho st Hst. specialize (Hm st Hst). specialize (Hk st Hst). unfold mbind, probe_bind.
  destruct (m st) as [r st1]. cbn in Hm, Hk. subst o. destruct r; [by apply Ho|by rewrite Ho..].
Qed.
Lemma answers_settled {A B} (o : Outcome string A) (f : A -> Probe B) o' :
  match o with Ok a => answers (f a) o' | Err e => o' = Err e | Panic message => o' = Panic message end -> answers (settled_in o ≫= f) o'.
Proof. intros Ho. apply (answers_bind (settled_in o) f o o'); [by intros st|by intros st|exact Ho]. Qed.
Lemma answers_then {A} (m : Probe unit) (f : Probe A) o :
  keeps m -> answers m (Ok tt) -> answers f o -> answers (m ≫= fun _ => f) o.
Proof. intros Hk Hm Hf. by eapply answers_bind. Qed.
Lemma answers_store key suffix t program artifact frontend : answers (cache_store env run key suffix t program artifact frontend) (Ok tt).
Proof. intros st _. unfold cache_store. by destruct (pr_cache_dir run). Qed.

Lemma frontend_cache_key_ok name module_source seeds t :
  module_source_of run name = Ok module_source -> pr_toolchain run = Some t ->
  frontend_cache_key run name seeds
    = Ok (frontend_cache_key_hex toolchain_json seeds_json (frontend_toolchain_identity t) name module_source seeds).
Proof. intros Hms Ht. unfold frontend_cache_key. rewrite Hms. unfold pr_frontend_identity. by rewrite Ht. Qed.

Lemma cached_frontend_current name source module_source t st :
  pr_toolchain run = Some t -> bm_get name (pr_sources run) = Some source -> module_source_of run name = Ok module_source ->
  Honest (ps_dir st) ->
  let seeds := module_seeds_for name (pr_generic_seeds run) in
  exists found, (cached_frontend env run name module_source seeds st).1 = Ok found /\
    forall program, found = Some program -> exists result, elaborated run name source seeds = Ok (result, program).
Proof.
  cbv zeta. intros Ht Hsource Hms Hst. unfold cached_frontend. rewrite (frontend_cache_key_ok _ _ _ _ Hms Ht).
  unfold pr_frontend_identity. rewrite Ht. unfold mbind at 1, probe_bind at 1. cbn [settled_in fmap option_fmap option_map expect].
  unfold mbind at 1, probe_bind at 1. unfold settled_in at 1.
  destruct (cache_load_ok (frontend_cache_key_hex toolchain_json seeds_json (frontend_toolchain_identity t) name module_source
    (module_seeds_for name (pr_generic_seeds run))) ".program.json.gz" (frontend_toolchain_identity t) None st)
    as (found & st1 & Hload & Hfound & Hk). unfold mbind at 1, probe_bind at 1. rewrite Hload.
  destruct (admitted_program run name module_source found) as [program|] eqn:Hadm.
  - eexists. split; [reflexivity|]. intros p [= <-]. destruct Hfound as [->|Hfound]; [done|].
    destruct found as [cached|]; [|done]. by eapply admitted_current.
  - cbv zeta. set (legacy := cache_key_hex _ _ _ _ _).
    destruct (cache_load_ok legacy ".json.gz" (frontend_toolchain_identity t) None st1) as (old & st2 & Hload' & Hold & _).
    unfold mbind at 1, probe_bind at 1. rewrite Hload'. assert (old = None) as ->; [|by exists None].
    destruct Hold as [->| ->]; [done|]. apply legacy_missing; [by apply Hk|]. apply sha_plain.
Qed.

Context (Hbackend : pr_backend_name run = None).

Lemma cached_module_current name source module_source st :
  bm_get name (pr_sources run) = Some source -> module_source_of run name = Ok module_source -> Honest (ps_dir st) ->
  let seeds := module_seeds_for name (pr_generic_seeds run) in
  exists found, (cached_module env run name module_source seeds st).1 = Ok found /\
    forall program artifact, found = Some (program, artifact) ->
      artifact = None /\ exists result, elaborated run name source seeds = Ok (result, program).
Proof.
  cbv zeta. intros Hsource Hms Hst. unfold cached_module. destruct (pr_cache_dir run) as [dir|] eqn:Hdir; [|by exists None].
  destruct (co_toolchain _ Hco) as (t & Ht & _); [by rewrite Hdir|].
  assert (exists key, cache_key run name = Ok key) as [key Hkey] by (unfold cache_key; rewrite Ht; by eexists).
  rewrite Hkey, Ht, Hbackend. unfold mbind at 1, probe_bind at 1, settled_in at 1. unfold mbind at 1, probe_bind at 1, settled_in at 1.
  cbn [expect]. unfold mbind at 1, probe_bind at 1. cbn [mret probe_ret]. unfold mbind at 1, probe_bind at 1.
  destruct (cached_frontend_current name source module_source t st Ht Hsource Hms Hst) as (found & Hf & Hcur).
  destruct (cached_frontend env run name module_source (module_seeds_for name (pr_generic_seeds run)) st) as [o st1].
  cbn in Hf. subst o. destruct found as [program|]; [|by exists None].
  exists (Some (program, None)). split; [done|]. intros p a [= <- <-]. split; [done|]. by apply Hcur.
Qed.

Lemma answers_elaborate name source module_source seeds :
  module_source_of run name = Ok module_source ->
  answers (elaborate_module env run name source module_source seeds) (snd <$> elaborated run name source seeds).
Proof.
  intros Hms. apply answers_settled. destruct (elaborated run name source seeds) as [[result program]|e|message]; [|done..].
  intros st _. cbn. destruct (pr_cache_dir run) as [dir|] eqn:Hdir; [|done].
  destruct (co_toolchain _ Hco) as (t & Ht & _); [by rewrite Hdir|]. rewrite (frontend_cache_key_ok _ _ _ _ Hms Ht).
  unfold pr_frontend_identity. rewrite Ht. unfold cache_store. rewrite Hdir. done.
Qed.

Definition put_elaborated (programs : list (string * Program)) (row : string * string) : Outcome string (list (string * Program)) :=
  '(_, program) ← elaborated run row.1 row.2 (module_seeds_for row.1 (pr_generic_seeds run));
  Ok (bm_put row.1 program programs).

Lemma answers_load_program programs row :
  bm_get row.1 (pr_sources run) = Some row.2 ->
  answers (load_program env run (programs, []) row)
    (if selected_row run row then (fun programs => (programs, [])) <$> put_elaborated programs row else Ok (programs, [])).
Proof.
  destruct row as [name source]. cbn [fst snd]. intros Hsource. unfold load_program, selected_row, put_elaborated. cbn [fst snd].
  destruct (match pr_execution_modules run with Some modules => negb _ | None => false end) eqn:Hskip.
  { intros st Hst. cbn. by destruct (pr_execution_modules run) as [modules|]; [apply negb_true_iff in Hskip as ->|]. }
  replace (match pr_execution_modules run with Some modules => _ | None => true end) with true
    by (by destruct (pr_execution_modules run) as [modules|]; [apply negb_false_iff in Hskip as ->|]).
  destruct (module_source_found run name Hco) as (module_source & Hms & _); [by eexists|]. rewrite Hms. apply answers_settled.
  intros st Hst. destruct (cached_module_current name source module_source st Hsource Hms Hst) as (found & Hf & Hcur).
  pose proof (keeps_cached_module name module_source (module_seeds_for name (pr_generic_seeds run)) st Hst) as Hst1.
  unfold mbind at 1, probe_bind at 1.
  destruct (cached_module env run name module_source (module_seeds_for name (pr_generic_seeds run)) st) as [o st1].
  cbn [fst snd] in Hf, Hst1. subst o. destruct found as [[program artifact]|].
  - destruct (Hcur program artifact eq_refl) as (-> & result & ->). done.
  - pose proof (answers_elaborate name source module_source (module_seeds_for name (pr_generic_seeds run)) Hms st1 Hst1) as Hel.
    unfold mbind at 1, probe_bind at 1. destruct (elaborate_module env run name source module_source _ st1) as [o st2].
    cbn [fst] in Hel. subst o. by destruct (elaborated run name source _) as [[result program]|e|message].
Qed.

Lemma answers_load_programs programs rows :
  (forall row, row ∈ rows -> bm_get row.1 (pr_sources run) = Some row.2) ->
  answers (load_programs env run (programs, []) rows) ((fun programs => (programs, [])) <$> elaborated_programs run rows programs).
Proof.
  revert programs. induction rows as [|row rows IH]; intros programs Hrows; [by intros st|]. cbn [load_programs].
  assert (Hrow : bm_get row.1 (pr_sources run) = Some row.2) by (apply Hrows; left).
  eapply answers_bind; [by apply keeps_load_program|by apply answers_load_program|].
  unfold elaborated_programs. cbn [List.filter]. destruct (selected_row run row).
  - cbn [fold_outcome]. fold (put_elaborated programs row). destruct (put_elaborated programs row) as [programs'|e|message]; [|done..].
    cbn [fmap outcome_fmap]. apply IH. intros r Hr. apply Hrows. by right.
  - apply IH. intros r Hr. apply Hrows. by right.
Qed.

Lemma answers_prepare :
  answers (prepare env run) ((fun programs => (programs, [])) <$> elaborated_programs run (pr_sources run) []).
Proof.
  unfold prepare. rewrite Hbackend.
  eapply answers_bind; [apply keeps_load_programs, source_rows|apply answers_load_programs, source_rows|].
  by destruct (elaborated_programs run (pr_sources run) []) as [programs|e|message].
Qed.
End Run.

(** The toolchain of a run, and the compiler it describes. *)
Lemma run_compiler inputs fuel run t :
  runs_compiler inputs (pr_backend_name run) -> probe_run inputs fuel = Ok run -> pr_toolchain run = Some t ->
  exists files, describes files t /\ forall e resolver seeds, front_end_with_resolver_and_seeds e resolver seeds =
    front_of files (frontend_toolchain_identity t) e resolver seeds.
Proof.
  intros (files & Hfiles & Hnul & Hfront) Hrun Ht. unfold probe_run in Hrun. apply outcome_bind_ok in Hrun as (seeds & _ & Hrun).
  apply outcome_bind_ok in Hrun as (sources0 & _ & Hrun). apply outcome_bind_ok in Hrun as ([sources loaded] & _ & Hrun).
  destruct (_ && _); [done|]. apply outcome_bind_ok in Hrun as (closure & _ & [= <-]). cbn in Ht, Hfront.
  apply fmap_Some in Ht as (dir & _ & ->). exists files. split; [|done]. split; [done|].
  unfold toolchain_of, gather_toolchain_identity. destruct (read_lock_pin _ _). cbn [ti_bootstrap_tree_sha256].
  unfold hash_tree. unfold bootstrap_tree in Hfiles. by rewrite Hfiles.
Qed.

(** C27: the probe's caches are transparent, though compilers of different
    toolchains share them.  Each compiler has a front end of its own, given by
    the files of the bootstrap tree it was built from and by its identity.  Take
    a cache whose entries were written by runs of any such compilers -- whatever
    their sources and seeds, and whatever was pruned, interrupted or left half
    written.  A run without a backend has exactly the programs that its own
    front end gives when every selected module is elaborated from its current
    source, a failed elaboration included, though it may have loaded any of
    them: an entry of another compiler is never one of them.  Every run, with a
    backend too, leaves such a cache.  The bootstrap trees of all these
    compilers could be read and hold no zero byte in a path or a file, for trees
    that differ only around such bytes, or that cannot be read, share one
    identity; no two texts have one SHA-256 digest or two values one JSON line;
    and a valid elaboration depends on the modules it resolved and no others. *)
Theorem cached_programs_current env fuel run st :
  probe_run (pe_inputs env) fuel = Ok run -> runs_compiler (pe_inputs env) (pr_backend_name run) -> Honest (ps_dir st) ->
  (pr_backend_name run = None ->
   (prepare env run st).1 = (fun programs => (programs, [])) <$> elaborated_programs run (pr_sources run) []) /\
  Honest (ps_dir (prepare env run st).2).
Proof.
  intros Hrun Hc Hst. pose proof (fun t => run_compiler _ _ _ t Hc Hrun) as Hcompiler. apply probe_run_coherent in Hrun as Hco.
  split; [|by apply keeps_prepare]. intros Hbackend. by apply answers_prepare.
Qed.
End Cache.
