(* ===== verification/Provider.v ===== *)
(** The provider transport: [tools/stage0-probe/src/provider.rs].  Definitions
    only.

    The frontend is a member of [ProviderCompiler]: it is lent a resolver and
    also answers which modules it asked it for, in order, for the resolver
    records what it resolves. *)

From Stdlib Require Import Ascii String.
From S2P Require Export ProbePrograms AppArtifact RunnerText.

Local Open Scope string_scope.
Local Open Scope list_scope.

(** ** Execution *)

(** A request to execute, the sessions over an admitted backend artifact and
    over a program's bodies, and their answers as JSON.  What an execution leaves
    behind in its session, behind the shared reference it is called by, is the
    session it returns; two sessions share nothing. *)
Class Execution := {
  ExecutionRequest : Type;
  request_from_value : Value -> option ExecutionRequest;
  target_module : ExecutionRequest -> string;
  OwnedSession : Type;
  new_admitted : BackendArtifact -> OwnedSession + string;
  session_reused : OwnedSession -> bool;
  session_execute : OwnedSession -> ExecutionRequest -> Value * OwnedSession;
  BodySession : Type;
  body_session : Program -> BodySession;
  body_execute : BodySession -> ExecutionRequest -> Value * BodySession
}.

(** [mncs_compiler::ModuleResolutionOutcome]. *)
Inductive ResolutionOutcome (E : Type) : Type :=
  | NotFound
  | Resolved (e : E)
  | Conflict (paths : list string).
Arguments NotFound {E}.
Arguments Resolved {E} e.
Arguments Conflict {E} paths.

Record ProviderRequest `{Execution} : Type := mkProviderRequest {
  pq_schema_version : string; pq_source : string; pq_logical_name : string;
  pq_libraries : list string; pq_seeds : list HostGenericSeedRequest;
  pq_include_tests : bool; pq_calls : list ExecutionRequest
}.

(** [SourceFrontEndResult], what the provider reads of it. *)
Record ProviderFrontEnd : Type := mkProviderFrontEnd {
  pf_is_valid : bool; pf_program : option Program; pf_diagnostics : Value;
  pf_source_map : option ExecutionSourceMap; pf_test_inventory : Value; pf_module_resolutions : Value
}.

Class ProviderCompiler `{ProbeCompiler, Execution} := {
  (** the derived [Deserialize], or the error *)
  read_request : string -> ProviderRequest + string;
  declared_module_name : string -> option string;
  module_names_compatible : string -> string -> bool;
  provider_front_end : ProbeEnvelope -> (string -> ResolutionOutcome ProbeEnvelope) -> list HostGenericSeedRequest ->
    ProviderFrontEnd * list string;
  without_tests : Program -> Program;
  source_map_value : ExecutionSourceMap -> Value;
  (** [producer.json], which the build script wrote *)
  producer_json : string
}.

(** The file system: [canonicalize], [read] and [read_to_string], or the error;
    [to_string_lossy]. *)
Record ProviderFiles : Type := mkProviderFiles {
  pv_canonicalize : string -> string + string;
  pv_bytes : string -> string + string;
  pv_text : string -> string + string;
  pv_lossy : string -> string
}.

Definition returned {A} (r : A + string) : Outcome string A :=
  match r with inl a => Ok a | inr error => Err error end.
Definition UNWRAP_NONE : string := "called `Option::unwrap()` on a `None` value".

(** [Path::join], with an absolute path too, and [Path::starts_with]. *)
Definition join_path (root path : string) : string := if is_absolute path then path else path_join root path.
Definition path_starts_with (path root : string) : bool :=
  bool_decide (fp_root (components path) = fp_root (components root))
  && bool_decide (fp_components (components root) `prefix_of` fp_components (components path)).

(** ** The resolver *)

(** [str::replace('.', "/")] and [name.rsplit('.').next().unwrap()]. *)
Fixpoint dots_to_slashes (s : string) : string :=
  match s with
  | EmptyString => EmptyString
  | String a rest => String (if Ascii.eqb a "."%char then "/"%char else a) (dots_to_slashes rest)
  end.
Definition leaf_name (name : string) : string := default "" (last (split_on "."%char name)).

(** The module, and its name without a version. *)
Definition candidate_names (module : string) : list string :=
  module :: match rsplit_once "." module with
            | Some (head, tail) =>
                match strip_prefix "v" tail with
                | Some version => if negb (String.eqb version "") && all_digits version then [head] else []
                | None => []
                end
            | None => []
            end.
Definition name_paths (root name : string) : list string :=
  [join_path root (leaf_name name +:+ ".mncs"); join_path root (dots_to_slashes name +:+ ".mncs")]
  ++ match strip_prefix "mncs." name with
     | Some name => [join_path root (dots_to_slashes name +:+ ".mncs")]
     | None => []
     end.
Definition candidates (root module : string) : list string :=
  concat (map (name_paths root) (candidate_names module)) ++ [join_path root (leaf_name module +:+ ".mncs")].

(** [module.contains("..")]. *)
Fixpoint double_dot (s : string) : bool :=
  match s with
  | String a rest => (Ascii.eqb a "."%char && bool_decide (is_Some (strip_prefix "." rest))) || double_dot rest
  | EmptyString => false
  end.
Definition malformed (module : string) : bool :=
  String.eqb module "" || double_dot module
  || negb (string_forallb (fun a => is_ascii_alphanumeric a || Ascii.eqb a "."%char || Ascii.eqb a "_"%char) module).

Section Provider.
Context `{ModelCrate, ProgramCrate, ProgramFacts, !ProbeCompiler, Execution, !ProviderCompiler}.
Context `{SerdeNumber, !NodeHasher, !Toolchain, !ArtifactCrate}.
Context (files : ProviderFiles).

(** A candidate that declares a compatible module: its text and its path. *)
Definition authority (root module path : string) : option (string * string) :=
  match pv_canonicalize files path with
  | inr _ => None
  | inl path =>
      if negb (path_starts_with path root) then None
      else
      match pv_text files path with
      | inr _ => None
      | inl text =>
          name ← declared_module_name text;
          if module_names_compatible module name then Some (text, path) else None
      end
  end.

(** The texts found, each with the first path it was found at. *)
Definition authorities (roots : list string) (module : string) : list (string * string) :=
  fold_left (fun found row => bm_or_insert row.1 row.2 found)
    (concat (map (fun root => omap (authority root module) (candidates root module)) roots)) [].

(** [resolve_detailed], and what it records. *)
Definition resolve_detailed (roots : list string) (module : string)
  : ResolutionOutcome ProbeEnvelope * list (string * string) :=
  if malformed module then (NotFound, [])
  else
  match authorities roots module with
  | [] => (NotFound, [])
  | [(text, path)] => (Resolved (inline_source module text), [(pv_lossy files path, sha256_hex text)])
  | found => (Conflict (map (pv_lossy files) (bm_values found)), [])
  end.
Definition resolve (roots : list string) (module : string) : option ProbeEnvelope :=
  match (resolve_detailed roots module).1 with Resolved e => Some e | _ => None end.

Definition observe (roots : list string) (observed : SourceMap) (module : string) : SourceMap :=
  fold_left (fun observed row => bm_put row.1 row.2 observed) (resolve_detailed roots module).2 observed.

(** ** A request *)

Definition producer : Outcome string Value := expect "producer.json" (value_from_str producer_json).

(** [producer["identity"].as_str().unwrap()]. *)
Definition producer_identity_of (producer : Value) : Outcome string string :=
  expect UNWRAP_NONE (get_str "identity" producer).

Definition provider_roots (source : string) (libraries : list string) : Outcome string (list string) :=
  parent ← expect UNWRAP_NONE (path_parent source);
  libraries ← map_outcome (fun root => returned (pv_canonicalize files root)) libraries;
  Ok (parent :: libraries).

Definition emitted_value (selected : Program) (artifact : VmArtifact) (source_map : option ExecutionSourceMap)
  (front : ProviderFrontEnd) (observed : SourceMap) (producer : Value) (results : list Value) : Value :=
  object [("status", Str "emitted"); ("module", Str (p_module selected)); ("artifact", artifact_value artifact);
    ("source_map", nullable (source_map_value <$> source_map)); ("test_inventory", pf_test_inventory front);
    ("module_resolutions", pf_module_resolutions front);
    ("callable_bindings", Array (map test_binding_value (language_owned_callable_bindings selected)));
    ("source_inputs", Object (map (fun row => (row.1, Str row.2)) observed));
    ("producer", producer); ("reference_results", Array results)].

(** The sources of a request: the text, the roots, and what is observed of the
    source itself. *)
Definition provider_sources (request : ProviderRequest) : Outcome string (string * list string * SourceMap) :=
  source ← returned (pv_canonicalize files (pq_source request));
  roots ← provider_roots source (pq_libraries request);
  text ← returned (pv_text files source);
  Ok (text, roots, bm_put (pv_lossy files source) (sha256_hex text) []).

(** The calls, in order, on one session. *)
Fixpoint reference_results (oracle : BodySession) (calls : list ExecutionRequest) : list Value :=
  match calls with
  | [] => []
  | call :: calls => let '(result, oracle) := body_execute oracle call in result :: reference_results oracle calls
  end.

Definition provider_emit (request : ProviderRequest) (front : ProviderFrontEnd) (observed : SourceMap) : Outcome string Value :=
  program ← expect UNWRAP_NONE (pf_program front);
  let selected := if pq_include_tests request then program else without_tests program in
  producer ← producer;
  identity ← producer_identity_of producer;
  '(artifact, source_map) ← emit_vm_artifact_with_source_map selected (Some identity) (pf_source_map front);
  Ok (emitted_value selected artifact source_map front observed producer
        (reference_results (body_session selected) (pq_calls request))).

Definition provider_run (path : string) : Outcome string Value :=
  content ← returned (pv_bytes files path);
  request ← returned (read_request content);
  if negb (String.eqb (pq_schema_version request) "mncs.compiler-vm-request/1") || String.eqb (pq_logical_name request) "" then
    Err "unsupported request schema or empty logical_name"
  else
  '(text, roots, observed) ← provider_sources request;
  let '(front, asked) := provider_front_end (inline_source (pq_logical_name request) text)
    (fun module => (resolve_detailed roots module).1) (pq_seeds request) in
  let observed := fold_left (observe roots) asked observed in
  if negb (pf_is_valid front) then
    Ok (object [("status", Str "invalid_source"); ("diagnostics", pf_diagnostics front)])
  else provider_emit request front observed.
End Provider.

Example candidates_example :
  candidates "/lib" "mncs.text.lines.v1" =
    ["/lib/v1.mncs"; "/lib/mncs/text/lines/v1.mncs"; "/lib/text/lines/v1.mncs";
     "/lib/lines.mncs"; "/lib/mncs/text/lines.mncs"; "/lib/text/lines.mncs"; "/lib/v1.mncs"].
Proof. vm_compute. reflexivity. Qed.
