(* ===== verification/ProviderTheorems.v ===== *)
(** How the provider resolves modules, and which inputs it reports. *)

From Stdlib Require Import Ascii String.
From S2P Require Export Provider.

Local Open Scope string_scope.
Local Open Scope list_scope.

Lemma bm_get_or_insert {V} (k k' : string) (v : V) m :
  bm_get k' (bm_or_insert k v m) = if decide (k' = k) then Some (default v (bm_get k m)) else bm_get k' m.
Proof.
  unfold bm_or_insert. destruct (bm_get k m) as [w|] eqn:E.
  - destruct (decide (k' = k)) as [Hk|]; [by rewrite Hk, E|done].
  - rewrite bm_get_put. cbn [default from_option]. repeat case_decide; congruence.
Qed.

(** Folding rows into a map keeps the first value of each key. *)
Lemma bm_get_first {V} (rows : list (string * V)) m k :
  bm_get k (fold_left (fun m row => bm_or_insert row.1 row.2 m) rows m) =
  match bm_get k m with Some v => Some v | None => snd <$> List.find (fun row => String.eqb row.1 k) rows end.
Proof.
  revert m. induction rows as [|[k0 v0] rows IH]; intros m; cbn [fold_left List.find fst snd]; [by destruct (bm_get k m)|].
  rewrite IH, bm_get_or_insert. destruct (String.eqb_spec k0 k) as [->|Hne].
  - rewrite decide_True by done. by destruct (bm_get k m).
  - rewrite decide_False by done. done.
Qed.

Lemma first_rows_ascending {V} (rows : list (string * V)) m :
  bm_ascending m -> bm_ascending (fold_left (fun m row => bm_or_insert row.1 row.2 m) rows m).
Proof.
  revert m. induction rows as [|[k v] rows IH]; intros m Hm; [done|]. cbn. apply IH. unfold bm_or_insert.
  destruct (bm_get k m); [done|by apply bm_put_ascending].
Qed.

Section Provider.
Context `{ModelCrate, ProgramCrate, ProgramFacts, !ProbeCompiler, Execution, !ProviderCompiler}.
Context `{SerdeNumber, !NodeHasher, !Toolchain, !ArtifactCrate}.
Context (files : ProviderFiles).

(** A text the roots have for a module, at a path below one of them. *)
Definition has_text (roots : list string) (module text path : string) : Prop :=
  exists root candidate name, root ∈ roots /\ candidate ∈ candidates root module /\
    pv_canonicalize files candidate = inl path /\ path_starts_with path root = true /\ pv_text files path = inl text /\
    declared_module_name text = Some name /\ module_names_compatible module name = true.

Lemma authority_some root module candidate text path :
  authority files root module candidate = Some (text, path) <->
  pv_canonicalize files candidate = inl path /\ path_starts_with path root = true /\ pv_text files path = inl text /\
  exists name, declared_module_name text = Some name /\ module_names_compatible module name = true.
Proof.
  unfold authority. split.
  - destruct (pv_canonicalize files candidate) as [p|]; [|done]. destruct (path_starts_with p root) eqn:Ep; [cbn [negb]|done].
    destruct (pv_text files p) as [t|] eqn:Et; [|done]. intros (name & Hname & Ha)%bind_Some.
    destruct (module_names_compatible module name) eqn:Em; [|done]. injection Ha as <- <-. by split_and!; [..|exists name].
  - intros (-> & -> & -> & name & Hname & Hm). cbn [negb]. rewrite Hname. cbn. by rewrite Hm.
Qed.

Definition found_rows (roots : list string) (module : string) : list (string * string) :=
  concat (map (fun root => omap (authority files root module) (candidates root module)) roots).

Lemma found_rows_elem roots module text path : (text, path) ∈ found_rows roots module <-> has_text roots module text path.
Proof.
  unfold found_rows, has_text. rewrite list_elem_of_In, in_concat. split.
  - intros (rows & (root & <- & Hroot%list_elem_of_In)%in_map_iff & Hrow%list_elem_of_In). apply list_elem_of_omap in Hrow as (candidate & Hc & Ha).
    apply authority_some in Ha as (? & ? & ? & name & ? & ?). by exists root, candidate, name.
  - intros (root & candidate & name & Hroot & Hc & ? & ? & ? & ? & ?).
    exists (omap (authority files root module) (candidates root module)). split; [by apply in_map_iff; exists root; split; [|apply list_elem_of_In]|].
    apply list_elem_of_In, list_elem_of_omap. exists candidate. split; [done|]. apply authority_some. split_and!; [done..|by exists name].
Qed.

Lemma authorities_get roots module text :
  bm_get text (authorities files roots module) = snd <$> List.find (fun row => String.eqb row.1 text) (found_rows roots module).
Proof. unfold authorities. by rewrite bm_get_first. Qed.

Lemma authorities_path roots module text path :
  (text, path) ∈ authorities files roots module -> has_text roots module text path.
Proof.
  intros Hin. apply bm_elem_get in Hin; [|apply first_rows_ascending; constructor]. rewrite authorities_get in Hin.
  apply fmap_Some in Hin as ([t p] & Hf & ->). apply find_some in Hf as [Hin Heq%String.eqb_eq]. cbn in Heq. subst t.
  by apply found_rows_elem, list_elem_of_In.
Qed.

Lemma authorities_text roots module text :
  is_Some (bm_get text (authorities files roots module)) <-> exists path, has_text roots module text path.
Proof.
  rewrite authorities_get, fmap_is_Some. split.
  - intros [[t p] Hf]. apply find_some in Hf as [Hin Heq%String.eqb_eq]. cbn in Heq. subst t. exists p.
    by apply found_rows_elem, list_elem_of_In.
  - intros [path Hp%found_rows_elem%list_elem_of_In].
    destruct (List.find _ (found_rows roots module)) as [row|] eqn:Hf; [by eexists|].
    apply (find_none _ _ Hf) in Hp. cbn in Hp. by rewrite String.eqb_refl in Hp.
Qed.

Lemma authorities_nodup roots module : NoDup (authorities files roots module).*1.
Proof. apply bm_keys_NoDup, first_rows_ascending. constructor. Qed.

(** What the roots have for a module, case by case. *)
Definition only_text (roots : list string) (module text : string) : Prop :=
  (exists path, has_text roots module text path) /\ forall text' path', has_text roots module text' path' -> text' = text.
Definition two_texts (roots : list string) (module : string) : Prop :=
  exists text path text' path', has_text roots module text path /\ has_text roots module text' path' /\ text <> text'.

(** The file a module resolves to, with its text. *)
Definition resolved_file (roots : list string) (module : string) : option (string * string) :=
  if malformed module then None
  else match authorities files roots module with [(text, path)] => Some (path, text) | _ => None end.

(** The paths a conflict lists: one file of every text. *)
Definition one_file_each (roots : list string) (module : string) (paths : list string) : Prop :=
  exists found : list (string * string), NoDup found.*1 /\ paths = map (pv_lossy files) found.*2 /\
    (forall text path, (text, path) ∈ found -> has_text roots module text path) /\
    forall text, text ∈ found.*1 <-> exists path, has_text roots module text path.

Lemma authorities_keys roots module text :
  text ∈ (authorities files roots module).*1 <-> exists path, has_text roots module text path.
Proof. rewrite <- authorities_text. symmetry. apply bm_get_keys. Qed.

Lemma resolve_cases roots module :
  match resolve_detailed files roots module with
  | (NotFound, observed) => observed = [] /\ resolved_file roots module = None /\
      (malformed module = true \/ forall text path, ~ has_text roots module text path)
  | (Resolved e, observed) => malformed module = false /\ exists text path, e = inline_source module text /\
      only_text roots module text /\ has_text roots module text path /\
      resolved_file roots module = Some (path, text) /\ observed = [(pv_lossy files path, sha256_hex text)]
  | (Conflict paths, observed) => observed = [] /\ resolved_file roots module = None /\ malformed module = false /\
      two_texts roots module /\ one_file_each roots module paths
  end.
Proof.
  unfold resolve_detailed, resolved_file. destruct (malformed module); [by split_and!; [..|left]|].
  pose proof (authorities_path roots module) as Hpath. pose proof (authorities_keys roots module) as Htext.
  pose proof (authorities_nodup roots module) as Hnd.
  destruct (authorities files roots module) as [|[text path] [|[text' path'] found]].
  - split_and!; [done..|]. right. intros text path Hp. assert (text ∈ @nil string) as ?%elem_of_nil; [|done]. apply Htext. by exists path.
  - split; [done|]. exists text, path. split; [done|]. assert (has_text roots module text path) as Hp by (apply Hpath; left).
    split_and!; [|done..]. split; [by exists path|]. intros text' path' Hp'.
    assert (text' ∈ [text]) as ?%list_elem_of_singleton; [|done]. apply Htext. by exists path'.
  - split_and!; [done..| |].
    + exists text, path, text', path'. split_and!; [apply Hpath; left|apply Hpath; right; left|].
      apply NoDup_cons in Hnd as [Hnd _]. intros ->. apply Hnd. left.
    + eexists. by split_and!; [exact Hnd|..].
Qed.

(** C35: how the provider finds a module.  A well-formed name resolves exactly
    when the files below the roots that a candidate path leads to, and that
    declare a compatible module, have one text between them -- however many
    files hold it, and in whatever order the roots are searched.  It is a
    conflict exactly when they have two different texts, and the conflict lists
    one file of every text; a name is not found exactly when it is malformed or
    no such file exists.  What is reported of a resolved module is the digest of
    its text, at a path below a root, and nothing is reported of another. *)
Theorem provider_resolve_exact roots module :
  (forall e, resolve files roots module = Some e <->
     malformed module = false /\ exists text, e = inline_source module text /\ only_text roots module text) /\
  ((exists paths, (resolve_detailed files roots module).1 = Conflict paths) <->
     malformed module = false /\ two_texts roots module) /\
  (forall paths, (resolve_detailed files roots module).1 = Conflict paths -> one_file_each roots module paths) /\
  ((resolve_detailed files roots module).1 = NotFound <->
     malformed module = true \/ forall text path, ~ has_text roots module text path) /\
  (forall e, (resolve_detailed files roots module).1 = Resolved e -> exists text path,
     e = inline_source module text /\ has_text roots module text path /\
     (resolve_detailed files roots module).2 = [(pv_lossy files path, sha256_hex text)]) /\
  ((forall e, (resolve_detailed files roots module).1 <> Resolved e) -> (resolve_detailed files roots module).2 = []).
Proof.
  pose proof (resolve_cases roots module) as Hcases. unfold resolve.
  assert (Honly_two : forall text, only_text roots module text -> ~ two_texts roots module).
  { intros text [_ Hone] (t & p & t' & p' & Hp & Hp' & Hne). by rewrite (Hone t p Hp), (Hone t' p' Hp') in Hne. }
  destruct (resolve_detailed files roots module) as [[|e|paths] observed]; cbn [fst snd].
  - destruct Hcases as (-> & _ & Hnone).
    assert (forall text path, malformed module = false -> ~ has_text roots module text path) as Hno
      by (destruct Hnone as [Hbad|Hnone]; [congruence|auto]).
    split_and!; [|split; [by intros [? [=]]|]|done|done|done|done].
    + intros e. split; [done|]. intros (Hok & text & _ & [path Hp] & _). by apply Hno in Hp.
    + intros (Hok & text & path & _ & _ & Hp & _). by apply Hno in Hp.
  - destruct Hcases as (Hok & text & path & -> & Honly & Hp & _ & ->).
    split_and!; [|split; [by intros [? [=]]|]|done|split; [done|]| |intros Hnone; by destruct (Hnone (inline_source module text))].
    + intros e. split; [intros [= <-]; split; [done|by exists text]|]. intros (_ & text' & -> & [path' Hp'] & _).
      by rewrite (proj2 Honly text' path' Hp').
    + intros (_ & Htwo). by apply (Honly_two text) in Htwo.
    + intros [Hbad|Hno]; [congruence|by apply Hno in Hp].
    + intros e [= <-]. by exists text, path.
  - destruct Hcases as (-> & _ & Hok & Htwo & Heach). split_and!; [|by split; [|exists paths]|by intros ? [= <-]|split; [done|]|done|done].
    + intros e. split; [done|]. intros (_ & text & _ & Hone). by apply (Honly_two text) in Htwo.
    + destruct Htwo as (text & path & _ & _ & Hp & _). intros [Hbad|Hno]; [congruence|by apply Hno in Hp].
Qed.

(** ** What is reported *)

Definition digest_row (file : string * string) : string * string := (pv_lossy files file.1, sha256_hex file.2).

Lemma reported_row roots module :
  (resolve_detailed files roots module).2 = map digest_row (option_list (resolved_file roots module)).
Proof.
  pose proof (resolve_cases roots module) as Hcases. destruct (resolve_detailed files roots module) as [[|e|paths] observed]; cbn [snd].
  - by destruct Hcases as (-> & -> & _).
  - destruct Hcases as (_ & text & path & _ & _ & _ & -> & ->). done.
  - by destruct Hcases as (-> & -> & _).
Qed.

Lemma resolved_file_text roots module path text :
  resolved_file roots module = Some (path, text) -> has_text roots module text path /\ only_text roots module text.
Proof.
  pose proof (resolve_cases roots module) as Hcases. destruct (resolve_detailed files roots module) as [[|e|paths] observed].
  - by destruct Hcases as (_ & -> & _).
  - destruct Hcases as (_ & t & p & _ & Ho & Hp & -> & _). by intros [= <- <-].
  - by destruct Hcases as (_ & -> & _).
Qed.

(** The report is the map of the rows of the files read, the last of a name. *)
Lemma observed_reads roots asked observed :
  fold_left (observe files roots) asked observed
  = fold_left (fun observed row => bm_put row.1 row.2 observed) (map digest_row (omap (resolved_file roots) asked)) observed.
Proof.
  revert observed. induction asked as [|module asked IH]; intros observed; [done|]. cbn [fold_left]. rewrite IH.
  unfold observe at 1. rewrite reported_row. cbn [omap list_omap].
  destruct (resolved_file roots module); done.
Qed.

(** A file system reads one text at a path. *)
Definition reads_of (source text : string) (roots asked : list string) : list (string * string) :=
  (source, text) :: omap (resolved_file roots) asked.

Lemma reads_text source text roots asked path t :
  pv_text files source = inl text -> (path, t) ∈ reads_of source text roots asked -> pv_text files path = inl t.
Proof.
  intros Hs [[= -> ->]|(module & _ & Hm)%list_elem_of_omap]%elem_of_cons; [done|].
  by apply resolved_file_text in Hm as [(root & candidate & name & _ & _ & _ & _ & Ht & _) _].
Qed.

(** What the map of the rows of [reads] says. *)
Lemma rows_report (reads : list (string * string)) :
  let rows := bm_of_list (map digest_row reads) in
  NoDup rows.*1 /\
  (forall key, key ∈ rows.*1 <-> exists file, file ∈ reads /\ key = pv_lossy files file.1) /\
  (forall row, row ∈ rows -> exists file, file ∈ reads /\ row = digest_row file) /\
  (forall file, file ∈ reads ->
     (forall file', file' ∈ reads -> pv_lossy files file'.1 = pv_lossy files file.1 -> file' = file) -> digest_row file ∈ rows).
Proof.
  cbn zeta. assert (bm_ascending (bm_of_list (map digest_row reads))) as Ha by apply bm_of_list_ascending.
  assert (Hget : forall k, bm_get k (bm_of_list (map digest_row reads)) = snd <$> last (filter (fun kv => kv.1 = k) (map digest_row reads)))
    by (intros k; apply bm_get_of_list).
  assert (Hrow : forall k v, (k, v) ∈ bm_of_list (map digest_row reads) -> exists file, file ∈ reads /\ (k, v) = digest_row file).
  { intros k v Hin%bm_elem_get; [|done]. rewrite Hget in Hin. apply fmap_Some in Hin as ([k' v'] & [Hin Hk]%last_filter_elem & ->).
    cbn in *. subst k'. apply list_elem_of_fmap in Hin as (file & -> & Hf). by exists file. }
  split_and!; [by apply bm_keys_NoDup| |by intros [k v]; apply Hrow|].
  - intros key. split.
    + intros ([k v] & -> & (file & Hf & [= -> ->])%Hrow)%list_elem_of_fmap. by exists file.
    + intros (file & Hf & ->). apply bm_get_keys. rewrite Hget, fmap_is_Some. apply last_filter_some.
      exists (digest_row file). split; [|done]. by apply list_elem_of_fmap_2.
  - intros file Hf Hone. apply bm_get_elem. rewrite Hget.
    rewrite (last_filter_unique fst (map digest_row reads) (digest_row file)); [done| |by apply list_elem_of_fmap_2].
    intros row (file' & -> & Hf')%list_elem_of_fmap Heq. f_equal. by apply Hone.
Qed.

(** C36: what the provider reports of its inputs.  The files read are the source
    and the files that the modules the frontend asked for resolved to.  The
    [source_inputs] of an emitted answer have one row for every name that a file
    read is shown under and for no other name, with the digest of a file read
    under that name; a file asked for under several module names is one row, and
    every file read whose shown name is its own has its digest there -- only
    paths that are shown alike, which takes bytes outside UTF-8, share a row.
    The artifact is the emission of the program for this producer, without its
    tests unless they were asked for. *)
Theorem provider_inputs_exact path value :
  provider_run files path = Ok value -> get_str "status" value = Some "emitted" ->
  exists content request source text roots front asked rows,
    pv_bytes files path = inl content /\ read_request content = inl request /\
    pv_canonicalize files (pq_source request) = inl source /\ pv_text files source = inl text /\
    provider_roots files source (pq_libraries request) = Ok roots /\
    provider_front_end (inline_source (pq_logical_name request) text)
      (fun module => (resolve_detailed files roots module).1) (pq_seeds request) = (front, asked) /\
    pf_is_valid front = true /\
    get "source_inputs" value = Some (Object (map (fun row => (row.1, Str row.2)) rows)) /\
    NoDup rows.*1 /\
    (forall key, key ∈ rows.*1 <-> exists file, file ∈ reads_of source text roots asked /\ key = pv_lossy files file.1) /\
    (forall row, row ∈ rows -> exists file, file ∈ reads_of source text roots asked /\ row = digest_row file) /\
    (forall file, file ∈ reads_of source text roots asked ->
       (forall file', file' ∈ reads_of source text roots asked -> pv_lossy files file'.1 = pv_lossy files file.1 -> file'.1 = file.1) ->
       digest_row file ∈ rows) /\
    exists program identity artifact source_map, pf_program front = Some program /\
      (producer ≫= producer_identity_of) = Ok identity /\
      emit_vm_artifact_with_source_map (if pq_include_tests request then program else without_tests program)
        (Some identity) (pf_source_map front) = Ok (artifact, source_map) /\
      get "artifact" value = Some (artifact_value artifact).
Proof.
  intros Hrun Hstatus. unfold provider_run in Hrun.
  apply outcome_bind_ok in Hrun as (content & Hcontent & Hrun). apply outcome_bind_ok in Hrun as (request & Hrequest & Hrun).
  destruct (_ || _); [done|]. apply outcome_bind_ok in Hrun as ([[text roots] start] & Hsources & Hrun).
  unfold provider_sources in Hsources. apply outcome_bind_ok in Hsources as (source & Hsource & Hsources).
  apply outcome_bind_ok in Hsources as (roots' & Hroots & Hsources). apply outcome_bind_ok in Hsources as (text' & Htext & [= -> -> <-]).
  destruct (provider_front_end _ _ _) as [front asked] eqn:Hfront.
  destruct (pf_is_valid front) eqn:Hvalid; cbn [negb] in Hrun; [|injection Hrun as <-; by vm_compute in Hstatus].
  unfold provider_emit in Hrun. apply outcome_bind_ok in Hrun as (program & Hprogram & Hrun).
  apply outcome_bind_ok in Hrun as (produced & Hproduced & Hrun). apply outcome_bind_ok in Hrun as (identity & Hidentity & Hrun).
  apply outcome_bind_ok in Hrun as ([artifact source_map] & Hemit & [= <-]).
  exists content, request, source, text, roots, front, asked, (fold_left (observe files roots) asked (bm_put (pv_lossy files source) (sha256_hex text) [])).
  assert (Hread : forall A (r : A + string) x, returned r = Ok x -> r = inl x) by (intros A [y|y] x Hx; [by injection Hx as ->|done]).
  assert (fold_left (observe files roots) asked (bm_put (pv_lossy files source) (sha256_hex text) [])
    = bm_of_list (map digest_row (reads_of source text roots asked))) as -> by apply observed_reads.
  destruct (rows_report (reads_of source text roots asked)) as (Hnd & Hkeys & Hrows & Hown).
  split_and!; [by apply Hread..|done|done|done|done|done|done|done| |].
  - intros [p t] Hf Hone. apply Hown; [done|]. intros [p' t'] Hf' Heq. specialize (Hone (p', t') Hf' Heq). cbn in Hone. subst p'.
    apply Hread in Htext. apply (reads_text source text) in Hf, Hf'; [congruence|done..].
  - exists program, identity, artifact, source_map. split_and!; [|by rewrite Hproduced|done|done].
    by destruct (pf_program front); cbn in Hprogram; [injection Hprogram as ->|].
Qed.
End Provider.
