(* ===== verification/BuildScript.v ===== *)
(** The producer's build receipt: [tools/stage0-probe/build.rs].  Definitions
    only.

    A [Tree] is what following symbolic links sees of a path; [None] is an I/O
    error. *)

From Stdlib Require Import Ascii String.
From S2P Require Export Provider.

Local Open Scope string_scope.
Local Open Scope list_scope.

(** What the build is given: its variables, the files below the repository, the
    texts and canonical paths of files, and what a command prints if it could
    be started, with whether it succeeded. *)
Record BuildInputs : Type := mkBuildInputs {
  bi_var : string -> option string;
  bi_tree : string -> Tree;
  bi_bytes : string -> option string;
  bi_text : string -> option string;
  bi_canonicalize : string -> option string;
  bi_command : string -> list string -> option (bool * string);
  bi_lossy : string -> string
}.

(** ** The inputs *)

(** The rows, and the lines printed for cargo. *)
Abbreviation Collected := (SourceMap * list string)%type.
Definition excluded (name : string) : bool := String.eqb name "target" || String.eqb name ".git".

Section Inputs.
Context `{ModelCrate}.
Context (inputs : BuildInputs) (root : string).

Definition rerun_if_changed (path : string) : string := "cargo:rerun-if-changed=" +:+ bi_lossy inputs path.

Definition add_input (rel content : string) (st : Collected) : Collected :=
  (bm_put (slashes (bi_lossy inputs rel)) (sha256_hex content) st.1, st.2 ++ [rerun_if_changed (path_join root rel)]).

(** [collect], for the path [rel] below the root, whose last component is
    [name]. *)
Fixpoint collect (rel name : string) (tree : Tree) (st : Collected) : Outcome string Collected :=
  match tree with
  | TreeDir entries =>
      if excluded name then Ok st
      else
      match entries with
      | None => Panic "called `Result::unwrap()` on an `Err` value"
      | Some entries =>
          fold_outcome (fun st child => child.2 st) st
            (sort_by name_leb
              ((fix children (entries : list (string * Tree)) :=
                  match entries with
                  | [] => []
                  | (name, child) :: rest => (name, collect (child_path rel name) name child) :: children rest
                  end) entries))
      end
  | TreeFile None => Panic "called `Result::unwrap()` on an `Err` value"
  | TreeFile (Some content) => Ok (add_input rel content st)
  | TreeOther _ => Ok st
  end.

Definition INPUT_PATHS : list string :=
  ["tools/stage0-probe/src"; "tools/stage0-probe/build.rs"; "tools/stage0-probe/Cargo.toml"; "tools/stage0-probe/Cargo.lock";
   "tools/vm_emit.rs"; "tools/vm-artifact-codec/src"; "tools/vm-artifact-codec/Cargo.toml"; "mncs-language.lock.json";
   ".bootstrap/crates"; ".bootstrap/Cargo.toml"; ".bootstrap/Cargo.lock"; ".bootstrap/revision";
   ".bootstrap/library/stdlib-bundle.json"].

Definition collect_inputs : Outcome string Collected :=
  fold_outcome (fun st name => collect name (default name (last (split_on "/"%char name))) (bi_tree inputs (path_join root name)) st)
    ([], []) INPUT_PATHS.
End Inputs.

(** ** The repository and the tools *)

(** [line[3..]]. *)
Definition continuation_byte (a : ascii) : bool := let n := nat_of_ascii a in Nat.leb 128 n && Nat.ltb n 192.
Fixpoint slice_from (n : nat) (s : string) : Outcome string string :=
  match n, s with
  | O, String a _ => if continuation_byte a then Panic "byte index is not a char boundary" else Ok s
  | O, EmptyString => Ok s
  | S n, String _ rest => slice_from n rest
  | S _, EmptyString => Panic "byte index is out of bounds"
  end.

(** The path a status line is about; of a rename, the new one. *)
Definition changed_path (line : string) : Outcome string (option string) :=
  if Nat.leb 4 (String.length line) then
    path ← slice_from 3 line;
    Ok (Some match rsplit_once " -> " path with Some (_, path) => path | None => path end)
  else Ok None.

Section Build.
Context `{ModelCrate, JsonCrate}.
Context (inputs : BuildInputs).

(** The output of a command that succeeded. *)
Definition successful (output : option (bool * string)) : option string :=
  '(success, stdout) ← output; if (success : bool) then Some stdout else None.

Definition resolve_executable (configured : string) : Outcome string string :=
  if Nat.ltb 1 (List.length (fp_components (components configured))) || is_absolute configured then
    expect "canonical build tool path" (bi_canonicalize inputs configured)
  else
  path ← expect "build PATH" (bi_var inputs "PATH");
  expect "resolve build tool through PATH"
    (head (omap (fun directory => bi_canonicalize inputs (join_path directory configured)) (split_on ":"%char path))).

Definition executable_identity (name : string) : Outcome string (Value * list string) :=
  configured ← expect "selected build tool path" (bi_var inputs name);
  path ← resolve_executable configured;
  content ← expect "read build tool" (bi_bytes inputs path);
  Ok (object [("configured_path", Str configured); ("resolved_path", Str (bi_lossy inputs path)); ("sha256", Str (sha256_hex content))],
      ["cargo:rerun-if-env-changed=" +:+ name; rerun_if_changed inputs path]).

Definition repository_root : Outcome string string :=
  manifest ← expect UNWRAP_NONE (bi_var inputs "CARGO_MANIFEST_DIR");
  parent ← expect UNWRAP_NONE (path_parent manifest);
  expect UNWRAP_NONE (path_parent parent).

(** The lines that make cargo watch the checked-out commit. *)
Definition head_lines (root : string) (arguments : list string) : list string :=
  match successful (bi_command inputs "git" (["-C"; root] ++ arguments)) with
  | None => []
  | Some stdout =>
      let name := trim stdout in
      let path :=
        if bool_decide (head arguments = Some "symbolic-ref") then
          default name ((fun output : bool * string => trim output.2) <$>
            bi_command inputs "git" ["-C"; root; "rev-parse"; "--git-path"; name])
        else name in
      [rerun_if_changed inputs (join_path root path)]
  end.

Definition dirty_status (root : string) : list string :=
  match successful (bi_command inputs "git" ["-C"; root; "status"; "--porcelain=v1"; "--untracked-files=all"]) with
  | Some stdout => lines stdout
  | None => []
  end.

Definition dirty_inputs (changed : list string) (rows : SourceMap) : SourceMap :=
  List.filter (fun row => existsb (String.eqb row.1) changed) rows.

Definition rows_value (rows : SourceMap) : Value := Object (map (fun row => (row.1, Str row.2)) rows).
Definition variable (name : string) : Value := nullable (Str <$> bi_var inputs name).

Definition receipt_value (revision : option string) (dirty_content_identity : string) (dirty rows : SourceMap)
  (stage0_revision compiler : string) (cargo_version : option string) (cargo_identity rustc_identity : Value) : Value :=
  object [("schema_version", Str "mncs.compiler-producer-build/1"); ("repository", Str "mncs-compiler");
    ("producer_kind", Str "stage0-bootstrap-direct-emitter"); ("source_revision", nullable (Str <$> revision));
    ("dirty_content_identity", Str dirty_content_identity); ("dirty_input_count", count (List.length dirty));
    ("source_inputs", rows_value rows); ("stage0_revision", Str stage0_revision); ("rustc", Str compiler);
    ("build_configuration", object [("profile", variable "PROFILE"); ("target", variable "TARGET");
      ("opt_level", variable "OPT_LEVEL"); ("rustflags", variable "RUSTFLAGS");
      ("cargo_version", nullable (Str <$> cargo_version));
      ("toolchain_executables", object [("cargo", cargo_identity); ("rustc", rustc_identity)])]);
    ("assurance", Str "local build observation; not independent attestation")].

(** [serde_json::to_vec(..).unwrap()]. *)
Definition json_bytes (v : Value) : Outcome string string := expect "serialize" (to_vec v).

Definition configured_path (identity : Value) : Outcome string string :=
  expect UNWRAP_NONE (get_str "configured_path" identity).

(** The receipt, the lines printed, and the rows. *)
Definition receipt : Outcome string (Value * list string) :=
  root ← repository_root;
  '(rows, printed) ← collect_inputs inputs root;
  let head := head_lines root ["rev-parse"; "--git-path"; "HEAD"] ++ head_lines root ["symbolic-ref"; "-q"; "HEAD"] in
  let revision := trim <$> successful (bi_command inputs "git" ["-C"; root; "rev-parse"; "HEAD"]) in
  changed ← map_outcome changed_path (dirty_status root);
  let dirty := dirty_inputs (omap id changed) rows in
  stage0_revision ← expect UNWRAP_NONE (bi_text inputs (path_join root ".bootstrap/revision"));
  '(rustc_identity, rustc_lines) ← executable_identity "RUSTC";
  '(cargo_identity, cargo_lines) ← executable_identity "CARGO";
  rustc ← configured_path rustc_identity;
  compiler ← expect UNWRAP_NONE (bi_command inputs rustc ["-vV"]);
  cargo ← configured_path cargo_identity;
  let cargo_version := (fun output : bool * string => trim output.2) <$> bi_command inputs cargo ["--version"] in
  dirty_bytes ← json_bytes (rows_value dirty);
  Ok (receipt_value revision (sha256_hex dirty_bytes) dirty rows (trim stage0_revision) (trim compiler.2) cargo_version
        cargo_identity rustc_identity,
      printed ++ head ++ ["cargo:rerun-if-env-changed=RUSTFLAGS"] ++ rustc_lines ++ cargo_lines).

Definition producer_value (bytes : string) (receipt : Value) : Value :=
  object [("identity", Str ("sha256:" +:+ sha256_hex bytes)); ("receipt", receipt)].

(** The path and the content of the file that is written, and what is printed. *)
Definition build_main : Outcome string (string * string * list string) :=
  '(receipt, printed) ← receipt;
  bytes ← json_bytes receipt;
  out ← expect UNWRAP_NONE (bi_var inputs "OUT_DIR");
  content ← json_bytes (producer_value bytes receipt);
  Ok (path_join out "producer.json", content, printed).
End Build.

Example changed_path_examples :
  changed_path "R  old.rs -> tools/vm_emit.rs" = Ok (Some "tools/vm_emit.rs") /\ changed_path " M x" = Ok (Some "x") /\
  changed_path "M" = Ok None.
Proof. split_and!; vm_compute; reflexivity. Qed.

(** Git encloses a path with a space in quotes, which stay in the name: such an
    input is never counted as changed. *)
Example quoted_path_kept :
  let quote := String "034" "" in
  let path := quote +:+ "tools/a b.rs" +:+ quote in
  changed_path (" M " +:+ path) = Ok (Some path) /\ dirty_inputs [path] [("tools/a b.rs", "digest")] = [].
Proof. split; vm_compute; reflexivity. Qed.
