(* ===== verification/BuildScriptTheorems.v ===== *)
(** The build receipt names every input by its content, and its identity binds
    them. *)

From Stdlib Require Import Ascii String.
From S2P Require Export BuildScript ProviderTheorems.

Local Open Scope string_scope.
Local Open Scope list_scope.

Lemma Tree_deep_ind (P : Tree -> Prop) :
  (forall content, P (TreeFile content)) -> (forall target, P (TreeOther target)) -> P (TreeDir None) ->
  (forall entries, Forall (fun e => P e.2) entries -> P (TreeDir (Some entries))) -> forall t, P t.
Proof.
  intros Hfile Hother Hnone Hdir. fix IH 1. intros [content|[entries|]|target]; [apply Hfile| |apply Hnone|apply Hother].
  apply Hdir. induction entries as [|[name child] entries IHe]; constructor; [apply IH|exact IHe].
Qed.

Lemma fold_outcome_map {E A B S} (f : S -> B -> Outcome E S) (g : A -> B) s l :
  fold_outcome f s (map g l) = fold_outcome (fun s a => f s (g a)) s l.
Proof. revert s. induction l as [|a l IH]; intros s; [done|]. cbn. destruct (f s (g a)); [apply IH|done|done]. Qed.

Section Inputs.
Context `{ModelCrate}.
Context (inputs : BuildInputs) (root : string).

(** The files that are inputs, below a path. *)
Inductive below : string -> string -> Tree -> string -> string -> Prop :=
  | below_file rel name content : below rel name (TreeFile (Some content)) rel content
  | below_dir rel name entries child rel' content :
      excluded name = false -> child ∈ entries -> below (child_path rel child.1) child.1 child.2 rel' content ->
      below rel name (TreeDir (Some entries)) rel' content.

Definition input_key (rel : string) : string := slashes (bi_lossy inputs rel).

(** A step that adds the rows of some files. *)
Record Adds (files : string -> string -> Prop) (st st' : Collected) : Prop := mkAdds {
  ad_rows : forall key digest, bm_get key st'.1 = Some digest -> bm_get key st.1 = Some digest \/
    exists rel content, files rel content /\ key = input_key rel /\ digest = sha256_hex content;
  ad_kept : forall key, is_Some (bm_get key st.1) -> is_Some (bm_get key st'.1);
  ad_files : forall rel content, files rel content -> is_Some (bm_get (input_key rel) st'.1);
  ad_lines : exists new, st'.2 = st.2 ++ new /\ forall line, line ∈ new <->
    exists rel content, files rel content /\ line = rerun_if_changed inputs (path_join root rel)
}.

Lemma Adds_none (files : string -> string -> Prop) st : (forall rel content, ~ files rel content) -> Adds files st st.
Proof.
  intros Hn. split; [by left|done|by intros rel content ?%Hn|]. exists []. rewrite app_nil_r. split; [done|].
  intros line. split; [by intros ?%elem_of_nil|by intros (rel & content & ?%Hn & _)].
Qed.

Lemma Adds_trans (files files' all : string -> string -> Prop) st st1 st2 :
  (forall rel content, all rel content <-> files rel content \/ files' rel content) ->
  Adds files st st1 -> Adds files' st1 st2 -> Adds all st st2.
Proof.
  intros Hall [Hr Hk Hf (new & Hn & Hl)] [Hr' Hk' Hf' (new' & Hn' & Hl')]. split.
  - intros key digest Hg. destruct (Hr' _ _ Hg) as [Hg1|(rel & content & ? & ? & ?)].
    + destruct (Hr _ _ Hg1) as [?|(rel & content & ? & ? & ?)]; [by left|]. right. exists rel, content. rewrite Hall. auto.
    + right. exists rel, content. rewrite Hall. auto.
  - intros key Hg. by apply Hk', Hk.
  - intros rel content [Hx|Hx]%Hall; [by eapply Hk', Hf|by eapply Hf'].
  - exists (new ++ new'). rewrite Hn', Hn, (assoc_L (++)). split; [done|]. intros line. rewrite elem_of_app, Hl, Hl'. setoid_rewrite Hall.
    naive_solver.
Qed.

Lemma collect_dir rel name entries st :
  collect inputs root rel name (TreeDir (Some entries)) st =
  if excluded name then Ok st
  else fold_outcome (fun st child => collect inputs root (child_path rel child.1) child.1 child.2 st) st (sort_by name_leb entries).
Proof.
  cbn [collect]. destruct (excluded name); [done|].
  assert (forall l : list (string * Tree), (fix children (l : list (string * Tree)) := match l with [] => []
    | (name, child) :: rest => (name, collect inputs root (child_path rel name) name child) :: children rest end) l =
    map (fun e => (e.1, (fun e : string * Tree => collect inputs root (child_path rel e.1) e.1 e.2) e)) l) as ->.
  { intros l. induction l as [|[n c] l IH]; [done|]. by rewrite IH. }
  by rewrite <- (sort_by_map _ name_leb), fold_outcome_map.
Qed.

(** A loop of such steps. *)
Lemma fold_adds {A} (step : Collected -> A -> Outcome string Collected) (files : A -> string -> string -> Prop) l st st' :
  (forall a st st', a ∈ l -> step st a = Ok st' -> Adds (files a) st st') ->
  fold_outcome step st l = Ok st' -> Adds (fun rel content => exists a, a ∈ l /\ files a rel content) st st'.
Proof.
  revert st. induction l as [|a l IH]; intros st Hstep Hf.
  - injection Hf as <-. apply Adds_none. by intros rel content (a & Ha%elem_of_nil & _).
  - cbn [fold_outcome] in Hf. apply outcome_bind_ok in Hf as (st1 & Ha & Hf).
    eapply Adds_trans; [|apply (Hstep a st st1); [left|exact Ha]|apply (IH st1); [|exact Hf]].
    + intros rel content. split.
      * intros (b & [->|Hb]%elem_of_cons & Hfiles); [by left|right; by exists b].
      * intros [Hfiles|(b & Hb & Hfiles)]; [exists a; by split; [left|]|exists b; by split; [right|]].
    + intros b s s' Hb. apply Hstep. by right.
Qed.

Lemma Adds_ext (files files' : string -> string -> Prop) st st' :
  (forall rel content, files rel content <-> files' rel content) -> Adds files st st' -> Adds files' st st'.
Proof.
  intros Hiff Ha. eapply (Adds_trans files (fun _ _ => False)); [|exact Ha|by apply Adds_none; intros ? ? []].
  intros rel content. rewrite Hiff. tauto.
Qed.

Lemma collect_adds tree : forall rel name st st',
  collect inputs root rel name tree st = Ok st' -> Adds (below rel name tree) st st'.
Proof.
  induction tree as [content|target| |entries IH] using Tree_deep_ind; intros rel name st st' Hc.
  - destruct content as [content|]; [|done]. injection Hc as <-. apply Adds_ext with (files := fun r c => r = rel /\ c = content).
    { intros r c. split; [intros [-> ->]; constructor|by inversion 1]. }
    unfold add_input. split; cbn [fst snd].
    + intros key digest. rewrite bm_get_put. case_decide as Hk; [|by left]. intros [= <-]. right. by exists rel, content.
    + intros key Hk. rewrite bm_get_put. case_decide; [by eexists|done].
    + intros r c [-> ->]. rewrite bm_get_put. rewrite decide_True by done. by eexists.
    + eexists. split; [done|]. intros line. rewrite list_elem_of_singleton. split; [intros ->; by exists rel, content|].
      by intros (r & c & [-> ->] & ->).
  - injection Hc as <-. apply Adds_none. by inversion 1.
  - cbn [collect] in Hc. destruct (excluded name); [|done]. injection Hc as <-. apply Adds_none. by inversion 1.
  - rewrite collect_dir in Hc. destruct (excluded name) eqn:Hex.
    { injection Hc as <-. apply Adds_none. intros r c Hb. inversion Hb. congruence. }
    apply (fold_adds _ (fun child => below (child_path rel child.1) child.1 child.2)) in Hc.
    + eapply Adds_ext; [|exact Hc]. intros r c. setoid_rewrite sort_by_perm. split.
      * intros (child & Hchild & Hb). by eapply below_dir.
      * inversion 1 as [|? ? ? child ? ? _ Hchild Hb]; subst. by exists child.
    + intros child s s' Hchild. rewrite sort_by_perm in Hchild. rewrite Forall_forall in IH. by apply IH.
Qed.

(** The inputs of the producer. *)
Definition input_file (rel content : string) : Prop :=
  exists path, path ∈ INPUT_PATHS /\
    below path (default path (last (split_on "/"%char path))) (bi_tree inputs (path_join root path)) rel content.

Lemma collect_inputs_adds st : collect_inputs inputs root = Ok st -> Adds input_file ([], []) st.
Proof.
  intros Hc. unfold collect_inputs in Hc.
  refine (fold_adds _ (fun path => below path (default path (last (split_on "/"%char path))) (bi_tree inputs (path_join root path)))
    _ _ _ _ Hc). intros path s s' _. apply collect_adds.
Qed.
End Inputs.

Section Receipt.
Context `{ModelCrate, JsonCrate}.

(** The rows of a receipt are the inputs. *)
Definition input_row (inputs : BuildInputs) (root key content : string) : Prop :=
  exists rel, input_file inputs root rel content /\ key = input_key inputs rel.

Lemma receipt_ok inputs value printed :
  receipt inputs = Ok (value, printed) -> exists root rows lines,
    repository_root inputs = Ok root /\ Adds inputs root (input_file inputs root) ([], []) (rows, lines) /\
    get "source_inputs" value = Some (rows_value rows) /\ lines ⊆ printed.
Proof.
  intros Hr. unfold receipt in Hr. apply outcome_bind_ok in Hr as (root & Hroot & Hr).
  apply outcome_bind_ok in Hr as ([rows lines] & Hrows & Hr). apply outcome_bind_ok in Hr as (changed & _ & Hr).
  apply outcome_bind_ok in Hr as (stage0 & _ & Hr). apply outcome_bind_ok in Hr as ([rustc rustc_lines] & _ & Hr).
  apply outcome_bind_ok in Hr as ([cargo cargo_lines] & _ & Hr). apply outcome_bind_ok in Hr as (rustc_path & _ & Hr).
  apply outcome_bind_ok in Hr as (compiler & _ & Hr). apply outcome_bind_ok in Hr as (cargo_path & _ & Hr).
  apply outcome_bind_ok in Hr as (dirty & _ & [= <- <-]). exists root, rows, lines.
  split_and!; [done|by apply collect_inputs_adds|done|]. intros line Hl. apply elem_of_app. by left.
Qed.

Lemma rows_value_inj rows rows' : rows_value rows = rows_value rows' -> rows = rows'.
Proof.
  unfold rows_value. intros [= Heq]. revert rows' Heq. induction rows as [|[k d] rows IH]; intros [|[k' d'] rows'] Heq; try done.
  cbn in Heq. injection Heq as -> -> Heq. by rewrite (IH rows').
Qed.

Context `{ProgramCrate, ProgramFacts, !ProbeCompiler}.
(** What is written is read back. *)
Context (round_trip : forall v bytes, to_vec v = Some bytes -> value_from_str bytes = Some v).

Lemma build_main_ok inputs path content printed :
  build_main inputs = Ok (path, content, printed) -> exists root rows lines value bytes,
    repository_root inputs = Ok root /\ Adds inputs root (input_file inputs root) ([], []) (rows, lines) /\ lines ⊆ printed /\
    get "source_inputs" value = Some (rows_value rows) /\ to_vec value = Some bytes /\
    value_from_str content = Some (producer_value bytes value).
Proof.
  intros Hb. unfold build_main in Hb. apply outcome_bind_ok in Hb as ([value printed'] & Hr & Hb).
  apply outcome_bind_ok in Hb as (bytes & Hbytes & Hb). apply outcome_bind_ok in Hb as (out & _ & Hb).
  apply outcome_bind_ok in Hb as (content' & Hcontent & [= _ -> ->]).
  destruct (receipt_ok _ _ _ Hr) as (root & rows & lines & Hroot & Hadds & Hsource & Hlines).
  assert (Hsome : forall v text, json_bytes v = Ok text -> to_vec v = Some text)
    by (intros v text; unfold json_bytes, expect; destruct (to_vec v); [by intros [= ->]|done]).
  exists root, rows, lines, value, bytes. split_and!; [done|done|done|done|by apply Hsome|by apply round_trip, Hsome].
Qed.

(** C37: what the build writes for the provider.  The producer's file is read
    back to an object whose identity is the digest of its receipt; the receipt's
    [source_inputs] name every file below the declared inputs -- directories
    called [target] or [.git] excepted, at any depth -- each with the digest of
    its content, and nothing else; and cargo is told to watch every one. *)
Theorem producer_receipt_exact inputs path content printed :
  build_main inputs = Ok (path, content, printed) ->
  exists root rows value bytes producer, repository_root inputs = Ok root /\
    value_from_str content = Some producer /\
    producer_identity_of producer = Ok ("sha256:" +:+ sha256_hex bytes) /\
    get "receipt" producer = Some value /\ to_vec value = Some bytes /\
    get "source_inputs" value = Some (rows_value rows) /\
    (forall key digest, bm_get key rows = Some digest -> exists content,
       input_row inputs root key content /\ digest = sha256_hex content) /\
    (forall key content, input_row inputs root key content -> is_Some (bm_get key rows)) /\
    (forall rel content, input_file inputs root rel content -> rerun_if_changed inputs (path_join root rel) ∈ printed).
Proof.
  intros (root & rows & lines & value & bytes & Hroot & Hadds & Hlines & Hsource & Hbytes & Hread)%build_main_ok.
  exists root, rows, value, bytes, (producer_value bytes value). split_and!; try done.
  - intros key digest [Hg|(rel & c & Hf & -> & ->)]%(ad_rows _ _ _ _ _ Hadds); [done|]. exists c. split; [by exists rel|done].
  - intros key c (rel & Hf & ->). by eapply (ad_files _ _ _ _ _ Hadds).
  - intros rel c Hf. apply Hlines. destruct (ad_lines _ _ _ _ _ Hadds) as (new & Hnew & Hiff). cbn in Hnew. subst lines.
    apply Hiff. by exists rel, c.
Qed.

(** The producer's identity binds its inputs.  Two builds with one identity
    were made from the same files with the same contents, while in neither two
    files share a reported name. *)
Theorem producer_identity_binds (Hsha : Inj (=) (=) sha256_hex) inputs inputs' path path' content content' printed printed' root root' :
  build_main inputs = Ok (path, content, printed) -> build_main inputs' = Ok (path', content', printed') ->
  repository_root inputs = Ok root -> repository_root inputs' = Ok root' ->
  (value_from_str content ≫= get_str "identity") = (value_from_str content' ≫= get_str "identity") ->
  (forall key c d, input_row inputs root key c -> input_row inputs root key d -> c = d) ->
  (forall key c d, input_row inputs' root' key c -> input_row inputs' root' key d -> c = d) ->
  forall key c, input_row inputs root key c <-> input_row inputs' root' key c.
Proof.
  intros (r & rows & lines & value & bytes & Hroot & Hadds & _ & Hsource & Hbytes & Hread)%build_main_ok.
  intros (r' & rows' & lines' & value' & bytes' & Hroot' & Hadds' & _ & Hsource' & Hbytes' & Hread')%build_main_ok.
  rewrite Hroot, Hroot', Hread, Hread'. intros [= <-] [= <-] [= Heq] Hone Hone'.
  apply (inj sha256_hex) in Heq. subst bytes'. apply round_trip in Hbytes, Hbytes'. rewrite Hbytes in Hbytes'. injection Hbytes' as <-.
  assert (rows_value rows = rows_value rows') as <-%rows_value_inj by congruence.
  assert (Hhalf : forall i i' s s' l l', Adds i s (input_file i s) ([], []) (rows, l) -> Adds i' s' (input_file i' s') ([], []) (rows, l') ->
    (forall key c d, input_row i s key c -> input_row i s key d -> c = d) -> forall key c, input_row i s key c -> input_row i' s' key c).
  { intros i i' s s' l l' Ha Ha' Hu key c Hc. pose proof Hc as (rel & Hf & ->). destruct (ad_files _ _ _ _ _ Ha _ _ Hf) as [digest Hg]. cbn in Hg.
    destruct (ad_rows _ _ _ _ _ Ha' _ _ Hg) as [?|(rel' & c' & Hf' & Hk' & ->)]; [done|].
    destruct (ad_rows _ _ _ _ _ Ha _ _ Hg) as [?|(rel2 & c2 & Hf2 & Hk2 & Hd%(inj sha256_hex))]; [done|]. subst c2.
    exists rel'. split; [|done]. rewrite (Hu _ c c' Hc); [done|]. by exists rel2. }
  intros key c. split; by eapply Hhalf.
Qed.
End Receipt.
