(* ===== verification/ProbeDriver.v ===== *)
(** The probe's driver: [tools/stage0-probe/src/main.rs],
    [emit_vm_artifact_for_probe] and [main] from its arguments to its request
    loops.  Definitions only.

    What is printed to the standard output is a list of lines; writing it does
    not fail.  The traces and the standard error are left out. *)

From Stdlib Require Import Ascii String.
From S2P Require Export AppBuild Provider.

Local Open Scope string_scope.
Local Open Scope list_scope.

(** The crates a request is answered with. *)
Class DriverCrate `{ProbeCompiler, Execution} := {
  (** the first value of a line, whatever follows it *)
  read_first_value : string -> option Value;
  display_value : Value -> string;
  seeds_from_value : Value -> option (list HostGenericSeedRequest);
  (** [serde_json::to_value] of what [mncs_syntax::parse] answers *)
  syntax_parse_value : ProbeEnvelope -> option Value;
  record_types_value : list RecordDeclaration -> option Value;
  finite_types_value : list FiniteDeclaration -> Value;
  home_module_value : Function -> Value;
  front_end_with_resolver : ProbeEnvelope -> FrontEnd;
  LoweredSsa : Type;
  lower_to_ssa : Program -> option LoweredSsa;
  ssa_value : LoweredSsa -> Value;
  execute_ssa_module : Program -> LoweredSsa -> ExecutionRequest -> Value
}.

Inductive Ending : Type :=
  | Returned
  | Exited (code : Z)
  | Panicked (message : string).

(** [request.get(key).is_some()]. *)
Definition has_key (key : string) (input : Value) : bool := bool_decide (is_Some (get key input)).
Definition unwrapped {A} (o : option A) : Outcome string A := expect "called `Result::unwrap()` on an `Err` value" o.

(** [f] answers or panics: an error it returns is one too. *)
Definition expect_answer {A} (message : string) (o : Outcome string A) : Outcome string A :=
  match o with Ok a => Ok a | Err error => Panic (message +:+ ": " +:+ error) | Panic m => Panic m end.

(** [BTreeMap::remove]. *)
Definition bm_remove {V} (k : string) (m : list (string * V)) : list (string * V) :=
  List.filter (fun row => negb (String.eqb row.1 k)) m.

(** A loop over the lines of the standard input: what it prints, how it ends and
    the state it leaves. *)
Section Serve.
Context `{JsonCrate, ProbeCompiler, Execution, !DriverCrate}.
Context {S : Type} (answer : Value -> S -> Outcome string Value * S).

Definition serve_line (line : string + string) (st : S) : Outcome string string * S :=
  match line with
  | inr error => (Panic error, st)
  | inl line =>
      match read_first_value line with
      | None => (Panic "called `Result::unwrap()` on an `Err` value", st)
      | Some input =>
          let '(output, st) := answer input st in (output ← output; unwrapped (to_vec output), st)
      end
  end.

Fixpoint serve (lines : list (string + string)) (st : S) : list string * Ending * S :=
  match lines with
  | [] => ([], Returned, st)
  | line :: lines =>
      match serve_line line st with
      | (Ok text, st) => let '(printed, ending, st) := serve lines st in (text :: printed, ending, st)
      | (Err message, st) | (Panic message, st) => ([], Panicked message, st)
      end
  end.
End Serve.

Section Driver.
Context `{ModelCrate, SeedCrate, JsonCrate, FactCrate, !EntryCrate, WorkCrate}.
Context `{ProgramCrate, ProgramFacts, InterfaceCrate, SerdeNumber, !NodeHasher, !Toolchain, !ArtifactCrate, !BuildCrate}.
Context `{!ProbeCompiler, Execution, !ProviderCompiler, !DriverCrate}.

Abbreviation Programs := (list (string * Program)).
Abbreviation Sessions := (list (string * OwnedSession)).

(** [BTreeMap] of the sessions over the artifacts. *)
Definition admit_sessions (artifacts : list (string * BackendArtifact)) : Outcome string Sessions :=
  map_outcome (fun row =>
    match new_admitted row.2 with
    | inl session => Ok (row.1, session)
    | inr error => Panic ("backend session for " +:+ row.1 +:+ ": " +:+ error)
    end) artifacts.

Definition emit_vm_artifact_for_probe (program : Program) (roots : option BackendRootSelection) : Outcome string Value :=
  artifact_value <$>
    match roots with
    | Some roots => exports ← executable_backend_root_exports debug_str program roots; emit_vm_artifact_with_roots program exports
    | None => emit_vm_artifact program
    end.

Section Requests.
Context (env : BuildEnv) (run : ProbeRun).

Definition execution_status (backend_sessions : Sessions) : Value :=
  object [("backend", nullable (Str <$> pr_backend_name run)); ("modules", count (List.length backend_sessions));
    ("retained_sessions", count (List.length (List.filter (fun row => session_reused row.2) backend_sessions)))].

(** ** The ordinary profile *)

Section Ordinary.
Context (programs : Programs).

Definition program_record_types (module : string) : Outcome string Value :=
  program ← expect "no entry found for key" (bm_get module programs);
  unwrapped (record_types_value (p_record_types program)).

Definition oracle_seeds (request : Value) : Outcome string (list HostGenericSeedRequest) :=
  match get "generic_seeds" request with
  | Some seeds => expect "project oracle generic seeds" (seeds_from_value seeds)
  | None => Ok []
  end.
Definition oracle_modules (request : Value) : Outcome string SourceMap :=
  modules ← expect "project modules" (get "modules" request ≫= as_object);
  fold_outcome (fun imported row => text ← expect "module source" (as_str row.2); Ok (bm_put row.1 text imported)) [] modules.

Definition oracle_call (program : option Program) (ssa : option LoweredSsa) (call : Value) : Outcome string Value :=
  call ← unwrapped (request_from_value call);
  Ok match program, ssa with
     | Some program, Some ssa => execute_ssa_module program ssa call
     | _, _ => object [("status", Str "invalid"); ("reason", Str "project oracle did not produce executable SSA")]
     end.
Definition oracle_function (program : Program) (f : Function) : Value :=
  object [("name", Str (fn_name f)); ("home_module", home_module_value f); ("identity", Str (function_identity program f));
    ("inputs", typed_values_value (fn_inputs f)); ("outputs", typed_values_value (fn_outputs f))].
Definition oracle_program (program : Program) : Outcome string Value :=
  record_types ← unwrapped (record_types_value (p_record_types program));
  Ok (object [("module", Str (p_module program)); ("dependencies", strings (p_dependencies program));
        ("functions", Array (map (oracle_function program) (p_functions program)));
        ("record_types", record_types); ("finite_types", finite_types_value (p_finite_types program))]).

Definition project_oracle (request : Value) : Outcome string Value :=
  root ← expect "project root source" (get_str "root" request);
  generic_seeds ← oracle_seeds request;
  imported ← oracle_modules request;
  let result := front_end_with_resolver_and_seeds (envelope root) (resolve_source imported) generic_seeds in
  let ssa := fr_program result ≫= lower_to_ssa in
  executions ← map_outcome (oracle_call (fr_program result) ssa) (default [] (get_array "calls" request));
  program ← match fr_program result with Some program => oracle_program program | None => Ok Null end;
  Ok (object [("valid", Bool (fr_is_valid result)); ("diagnostics", fr_diagnostics result);
        ("module_resolutions", fr_resolutions_value result); ("program", program);
        ("ssa", nullable (ssa_value <$> ssa)); ("executions", Array executions)]).

Definition emitted (module : string) (unknown : string) : Outcome string Value :=
  program ← expect (unknown +:+ module) (bm_get module programs);
  artifact ← expect_answer "direct VM emission" (emit_vm_artifact_for_probe program (pr_backend_roots run));
  Ok (object [("module", Str module); ("artifact", artifact)]).
Definition answer_emission (request : Value) : Outcome string Value :=
  module ← expect "emit_vm_artifact module" (get_str "module" request);
  emitted module "emit_vm_artifact for unknown module ".

Definition ssa_oracle (text : string) : Value :=
  let result := front_end_with_resolver (envelope text) in
  object [("diagnostics", fr_diagnostics result); ("ssa", nullable (ssa_value <$> (fr_program result ≫= lower_to_ssa)))].

(** What a request asks for. *)
Inductive Request : Type :=
  | Oracle (text : string)
  | ExecutionStatus
  | RecordTypes (module : string)
  | ProjectOracle (request : Value)
  | CompileApplication (request : Value)
  | EmitVmArtifact (request : Value)
  | Elaborate (text : string)
  | SsaOracle (text : string)
  | Execute (input : Value).

Definition request_of (input : Value) : Request :=
  match get_str "oracle" input with Some text => Oracle text | None =>
  if has_key "execution_status" input then ExecutionStatus else
  match get_str "record_types" input with Some module => RecordTypes module | None =>
  match get "project_oracle" input with Some request => ProjectOracle request | None =>
  match get "compile_application" input with Some request => CompileApplication request | None =>
  match get "emit_vm_artifact" input with Some request => EmitVmArtifact request | None =>
  match get_str "elaborate" input with Some text => Elaborate text | None =>
  match get_str "ssa" input with Some text => SsaOracle text | None => Execute input
  end end end end end end end.

(** The sessions over the artifacts, and those made so far over programs. *)
Abbreviation Executors := (Sessions * list (string * BodySession))%type.
(** With them, the state of the applications' builds. *)
Abbreviation DriverState := (BuildState * Executors)%type.

(** [sessions\[&module\].execute(&request)]. *)
Definition execute_body (module : string) (request : ExecutionRequest) (executors : Executors) : Outcome string Value * Executors :=
  let '(backend_sessions, sessions) := executors in
  match bm_get module sessions with
  | None => (Panic "no entry found for key", executors)
  | Some session =>
      let '(result, session) := body_execute session request in (Ok result, (backend_sessions, bm_put module session sessions))
  end.

Definition execute (input : Value) (executors : Executors) : Outcome string Value * Executors :=
  let '(backend_sessions, sessions) := executors in
  match request_from_value input with
  | None => (Panic "called `Result::unwrap()` on an `Err` value", executors)
  | Some request =>
      let module := target_module request in
      match bm_get module backend_sessions with
      | Some session =>
          let '(result, session) := session_execute session request in
          (Ok result, (bm_put module session backend_sessions, sessions))
      | None =>
          match bm_get module sessions with
          | Some _ => execute_body module request executors
          | None =>
              match bm_get module programs with
              | None => (Panic ("no retained backend or program for " +:+ module), executors)
              | Some program => execute_body module request (backend_sessions, bm_put module (body_session program) sessions)
              end
          end
      end
  end.

Definition answer (input : Value) (st : DriverState) : Outcome string Value * DriverState :=
  let '(build, executors) := st in
  match request_of input with
  | Oracle text => (unwrapped (syntax_parse_value (envelope text)), st)
  | ExecutionStatus => (Ok (execution_status executors.1), st)
  | RecordTypes module => (program_record_types module, st)
  | ProjectOracle request => (project_oracle request, st)
  | CompileApplication request =>
      let '(response, build) := compile_application env request build in (response, (build, executors))
  | EmitVmArtifact request => (answer_emission request, st)
  | Elaborate text => (Ok (fr_diagnostics (front_end_with_resolver (envelope text))), st)
  | SsaOracle text => (Ok (ssa_oracle text), st)
  | Execute input => let '(response, executors) := execute input executors in (response, (build, executors))
  end.
End Ordinary.

(** ** The program-release profile *)

(** The programs that are kept, the record types answered so far, and the
    sessions. *)
Abbreviation ReleaseState := ((Programs * list (string * Value)) * Sessions)%type.

Definition release_record_types (module : string) (st : ReleaseState) : Outcome string Value * ReleaseState :=
  let '((programs, record_types_cache), backend_sessions) := st in
  match bm_get module record_types_cache with
  | Some record_types => (Ok record_types, st)
  | None =>
      match bm_get module programs with
      | None => (Panic ("record_types for unknown module " +:+ module), st)
      | Some program =>
          match record_types_value (p_record_types program) with
          | None => (Panic "called `Result::unwrap()` on an `Err` value", st)
          | Some record_types =>
              (Ok record_types,
               if bool_decide (is_Some (bm_get module backend_sessions)) then
                 ((bm_remove module programs, bm_put module record_types record_types_cache), backend_sessions)
               else st)
          end
      end
  end.

Definition release_execute (input : Value) (backend_sessions : Sessions) : Outcome string Value * Sessions :=
  match request_from_value input with
  | None => (Panic "called `Result::unwrap()` on an `Err` value", backend_sessions)
  | Some request =>
      let module := target_module request in
      match bm_get module backend_sessions with
      | None => (Panic ("program-release profile requires an admitted backend for " +:+ module), backend_sessions)
      | Some session =>
          let '(result, session) := session_execute session request in (Ok result, bm_put module session backend_sessions)
      end
  end.

Definition release_answer (input : Value) (st : ReleaseState) : Outcome string Value * ReleaseState :=
  let '(kept, backend_sessions) := st in
  if has_key "execution_status" input then (Ok (execution_status backend_sessions), st)
  else
  match get_str "record_types" input with
  | Some module => release_record_types module st
  | None => let '(response, backend_sessions) := release_execute input backend_sessions in (response, (kept, backend_sessions))
  end.
End Requests.

(** ** [main] *)

(** What a process is given, and what it keeps between its phases. *)
Record MainEnv : Type := mkMainEnv {
  me_probe : ProbeEnv; me_build : BuildEnv; me_provider : ProviderFiles;
  me_stdin : list (string + string); me_fuel : nat; me_clock : nat -> Z
}.
Definition build_env (env : BuildEnv) (toolchain : option ToolchainIdentity) : BuildEnv := {|
  en_variables := en_variables env; en_toolchain := toolchain; en_executable := en_executable env;
  en_executable_sha256 := en_executable_sha256 env; en_fails := en_fails env; en_partial := en_partial env;
  en_pid := en_pid env; en_clock := en_clock env
|}.
Definition argument_value (prefix : string) (args : list string) : option string := head (omap (strip_prefix prefix) args).

Section Main.
Context (env : MainEnv).
Let inputs := pe_inputs (me_probe env).

Definition cache_maintain (dir : Directory) : list string * Ending * Directory :=
  let directory := default "" (pi_var inputs "MNCS_PROBE_CACHE_DIR") in
  if String.eqb directory "" then ([], Exited 2, dir)
  else
  match maintain (pe_fails (me_probe env)) (pe_proc_exists (me_probe env)) (pe_to_string_lossy (me_probe env))
          (configured (pi_var inputs) (pe_usize_max (me_probe env))) (me_clock env) dir with
  | (Ok _, dir) =>
      ([display_value (object [("schema_version", Str "mncs.compiler.probe-cache-maintenance/1"); ("status", Str "complete");
          ("directory", Str directory)])], Returned, dir)
  | (Err _, dir) => ([], Exited 2, dir)
  | (Panic message, dir) => ([], Panicked message, dir)
  end.

Definition ended (o : Outcome string (list string)) : list string * Ending :=
  match o with
  | Ok printed => (printed, Returned)
  | Err _ => ([], Exited 2)
  | Panic message => ([], Panicked message)
  end.

Definition release_programs (run : ProbeRun) : bool :=
  bool_decide (is_Some (pr_backend_name run))
  && bool_decide (pi_var inputs "MNCS_PROBE_RELEASE_PROGRAMS_AFTER_IDENTITIES" = Some "1").

(** The requests, once the programs are there. *)
Definition serve_requests (run : ProbeRun) (programs : Programs) (sessions : Sessions) (build : BuildState)
  : list string * Ending * BuildState :=
  match argument_value "--emit-vm-artifact=" (pi_args inputs) with
  | Some module =>
      (ended (value ← emitted run programs module "--emit-vm-artifact for unknown module "; Ok [display_value value]), build)
  | None =>
      if release_programs run then
        let '(transcript, _) := serve (release_answer run) (me_stdin env) ((programs, []), sessions) in (transcript, build)
      else
        let '(transcript, (build, _)) :=
          serve (answer (build_env (me_build env) (pr_toolchain run)) run programs) (me_stdin env) (build, (sessions, [])) in
        (transcript, build)
  end.

Definition probe_main (probe : ProbeState) (build : BuildState) : list string * Ending * (Directory * BuildState) :=
  let dir := ps_dir probe in
  if bool_decide (tail (pi_args inputs) = ["--cache-maintain"]) then
    let '(transcript, dir) := cache_maintain dir in (transcript, (dir, build))
  else if existsb (String.eqb "--producer-info") (pi_args inputs) then
    (ended (value ← producer; Ok [display_value value]), (dir, build))
  else
  match argument_value "--provider-request=" (pi_args inputs) with
  | Some path => (ended (value ← provider_run (me_provider env) path; Ok [display_value value]), (dir, build))
  | None =>
      match probe_run inputs (me_fuel env) with
      | Err message | Panic message => ([], Panicked message, (dir, build))
      | Ok run =>
          match prepare (me_probe env) run probe with
          | (Err message, probe) | (Panic message, probe) => ([], Panicked message, (ps_dir probe, build))
          | (Ok (programs, artifacts), probe) =>
              match admit_sessions artifacts with
              | Err message | Panic message => ([], Panicked message, (ps_dir probe, build))
              | Ok sessions =>
                  let '(transcript, build) := serve_requests run programs sessions build in
                  (transcript, (ps_dir probe, build))
              end
          end
      end
  end.
End Main.
End Driver.
