(* ===== verification/ProbeDriverTheorems.v ===== *)
(** What the probe answers: its memory of sessions and of released programs is
    not observable, and it runs no artifact that was not verified. *)

From Stdlib Require Import Ascii String.
From S2P Require Export ProbeDriver ProbeProgramsTheorems.

Local Open Scope string_scope.
Local Open Scope list_scope.

Lemma bm_get_remove {V} (k k' : string) (m : list (string * V)) :
  bm_get k' (bm_remove k m) = if decide (k' = k) then None else bm_get k' m.
Proof.
  unfold bm_remove. induction m as [|[k0 v0] m IH]; [by case_decide|]. cbn [List.filter fst].
  destruct (String.eqb_spec k0 k) as [->|Hne]; cbn [negb bm_get].
  - rewrite IH. by repeat case_decide.
  - rewrite IH. repeat case_decide; congruence.
Qed.

(** ** Two loops *)

Section Serve.
Context `{JsonCrate, ProbeCompiler, Execution, !DriverCrate}.

(** Loops whose answers are equal print the same and end alike. *)
Lemma serve_equal {S S'} (answer : Value -> S -> Outcome string Value * S) (answer' : Value -> S' -> Outcome string Value * S')
  (R : S -> S' -> Prop) :
  (forall input st st', R st st' -> (answer input st).1 = (answer' input st').1 /\ R (answer input st).2 (answer' input st').2) ->
  forall lines st st', R st st' ->
  (serve answer lines st).1 = (serve answer' lines st').1 /\ R (serve answer lines st).2 (serve answer' lines st').2.
Proof.
  intros Hstep lines. induction lines as [|line lines IH]; intros st st' HR; [done|]. cbn [serve].
  assert ((serve_line answer line st).1 = (serve_line answer' line st').1 /\ R (serve_line answer line st).2 (serve_line answer' line st').2)
    as [Heq HR'].
  { unfold serve_line. destruct line as [text|error]; [|done]. destruct (read_first_value text) as [input|]; [|done].
    destruct (Hstep input st st' HR) as [Ho HR1]. destruct (answer input st) as [o s1], (answer' input st') as [o' s1'].
    cbn in *. by subst o'. }
  destruct (serve_line answer line st) as [o s1], (serve_line answer' line st') as [o' s1']. cbn in Heq, HR'. subst o'.
  destruct o as [text|e|message]; [|done..]. destruct (IH s1 s1' HR') as [Hs HR2].
  destruct (serve answer lines s1) as [[p e] s2], (serve answer' lines s1') as [[p' e'] s2']. cbn in *. by injection Hs as -> ->.
Qed.

(** Loops that answer alike, up to the message of a panic, on the lines at
    hand. *)
Definition alike {A} (o o' : Outcome string A) : Prop := forall a, o = Ok a <-> o' = Ok a.
Definition line_input (line : string + string) : option Value :=
  match line with inl text => read_first_value text | inr _ => None end.

Lemma serve_alike {S S'} (answer : Value -> S -> Outcome string Value * S) (answer' : Value -> S' -> Outcome string Value * S')
  (R : S -> S' -> Prop) (allowed : Value -> Prop) :
  (forall input st st', allowed input -> R st st' ->
     alike (answer input st).1 (answer' input st').1 /\ R (answer input st).2 (answer' input st').2) ->
  forall lines st st', (forall line input, line ∈ lines -> line_input line = Some input -> allowed input) -> R st st' ->
  (serve answer lines st).1.1 = (serve answer' lines st').1.1 /\
  ((serve answer lines st).1.2 = Returned <-> (serve answer' lines st').1.2 = Returned).
Proof.
  intros Hstep lines. induction lines as [|line lines IH]; intros st st' Hlines HR; [done|]. cbn [serve].
  assert (alike (serve_line answer line st).1 (serve_line answer' line st').1 /\
    R (serve_line answer line st).2 (serve_line answer' line st').2) as [Heq HR'].
  { specialize (Hlines line). unfold line_input in Hlines. unfold serve_line. destruct line as [text|error]; [|done].
    destruct (read_first_value text) as [input|] eqn:Hi; [|done].
    destruct (Hstep input st st') as [Ho HR1]; [apply Hlines; [left|done]|done|].
    destruct (answer input st) as [o s1], (answer' input st') as [o' s1']. cbn in *. split; [|done].
    intros a. split; intros Ha; apply outcome_bind_ok in Ha as (v & Hv%Ho & Ha); by rewrite Hv. }
  destruct (serve_line answer line st) as [o s1], (serve_line answer' line st') as [o' s1']. cbn in Heq, HR'.
  destruct o as [text|e|message].
  - rewrite (proj1 (Heq text) eq_refl). assert (forall line input, line ∈ lines -> line_input line = Some input -> allowed input) as Hrest
      by (intros l i Hl; apply Hlines; by right).
    destruct (IH s1 s1' Hrest HR') as [Hp He].
    destruct (serve answer lines s1) as [[p e] s2], (serve answer' lines s1') as [[p' e'] s2']. cbn in *. by subst p'.
  - destruct o' as [text|e'|message']; [by pose proof (proj2 (Heq text) eq_refl)|done..].
  - destruct o' as [text|e'|message']; [by pose proof (proj2 (Heq text) eq_refl)|done..].
Qed.
End Serve.

(** ** What a phase of the caches returns *)

Section Prepared.
Context `{ModelCrate, ProgramCrate, ProgramFacts, ProbeCompiler}.
Context (env : ProbeEnv) (run : ProbeRun).

Definition ensures {A} (m : Probe A) (P : A -> Prop) : Prop := forall st a st', m st = (Ok a, st') -> P a.

Lemma ensures_ret {A} (a : A) (P : A -> Prop) : P a -> ensures (mret a) P.
Proof. by intros Ha st b st' [= <- _]. Qed.
Lemma ensures_bind {A B} (m : Probe A) (f : A -> Probe B) (Q : A -> Prop) (P : B -> Prop) :
  ensures m Q -> (forall a, Q a -> ensures (f a) P) -> ensures (m ≫= f) P.
Proof.
  intros Hm Hf st b st' Hb. unfold mbind, probe_bind in Hb. destruct (m st) as [[a|e|message] st1] eqn:E; [|done..].
  exact (Hf a (Hm st a st1 E) st1 b st' Hb).
Qed.
Lemma ensures_any {A} (m : Probe A) : ensures m (fun _ => True).
Proof. done. Qed.
Lemma ensures_settled {A B} (o : Outcome string A) (f : A -> Probe B) (P : B -> Prop) :
  (forall a, o = Ok a -> ensures (f a) P) -> ensures (settled_in o ≫= f) P.
Proof. intros Hf. apply (ensures_bind _ _ (fun a => o = Ok a)); [by intros st a st' [= -> _]|done]. Qed.
Lemma ensures_then {A B} (m : Probe A) (f : A -> Probe B) (P : B -> Prop) :
  (forall a, ensures (f a) P) -> ensures (m ≫= f) P.
Proof. intros Hf. by apply (ensures_bind m f (fun _ => True)). Qed.

Definition valid_artifact (artifact : BackendArtifact) : Prop := artifact_identity_is_valid artifact = true.

(** What a cache entry brings has been verified. *)
Lemma cached_artifact_valid dir name t backend program artifact metadata :
  cached_entry env dir name t backend = Some (program, Some artifact, metadata) -> valid_artifact artifact.
Proof.
  unfold cached_entry. intros ([] & _ & Hc)%bind_Some. destruct (_ || _); [done|].
  apply bind_Some in Hc as (e & _ & Hc). apply bind_Some in Hc as (text & _ & Hc). destruct (_ || _); [done|].
  unfold parse_cache_entry_reader in Hc. destruct backend.
  - apply bind_Some in Hc as (entry & _ & Hc). destruct (bool_decide _); [done|]. destruct (pb_artifact entry) as [a|]; [|done].
    unfold verify in Hc. destruct (artifact_identity_is_valid a) eqn:Hv; [|done]. by injection Hc as <- <- <-.
  - apply bind_Some in Hc as (entry & _ & Hc). by destruct (bool_decide _).
Qed.

Definition valid_found (found : option (Program * option BackendArtifact)) : Prop :=
  forall program artifact, found = Some (program, Some artifact) -> valid_artifact artifact /\ is_Some (pr_backend_name run).

Lemma cache_load_valid key suffix t backend :
  ensures (cache_load env run key suffix t backend)
    (fun found => forall program artifact metadata, found = Some (program, Some artifact, metadata) -> valid_artifact artifact).
Proof.
  intros st found st' Hl program artifact metadata ->. unfold cache_load in Hl. destruct (pr_cache_dir run); [|done].
  destruct (cached_entry _ _ _ _ _) as [[[p a] md]|] eqn:Hc; [|done]. cbn in Hl. injection Hl as -> -> -> _.
  by eapply cached_artifact_valid.
Qed.

Lemma backend_hit_artifact name key t module_seeds program artifact metadata :
  ensures (backend_hit env run name key t module_seeds (program, artifact, metadata)) (fun found => found.2 = artifact).
Proof.
  unfold backend_hit. apply ensures_then. intros _. apply ensures_settled. intros [p migrate] _. apply ensures_then. intros _.
  apply ensures_settled. intros frontend_key _. apply ensures_settled. intros identity _. apply ensures_then. intros missing.
  apply ensures_then. intros _. by apply ensures_ret.
Qed.

Lemma cached_module_valid name module_source seeds : ensures (cached_module env run name module_source seeds) valid_found.
Proof.
  unfold cached_module. destruct (pr_cache_dir run) as [dir|]; [|by apply ensures_ret].
  apply ensures_settled. intros key _. apply ensures_settled. intros t _.
  apply (ensures_bind _ _ (fun hit => forall program artifact metadata, hit = Some (program, Some artifact, metadata) ->
    valid_artifact artifact /\ is_Some (pr_backend_name run))).
  { destruct (pr_backend_name run) as [backend|] eqn:Eb; [|by apply ensures_ret]. intros st found st' Hl program artifact metadata Hf.
    split; [|by eexists]. by eapply cache_load_valid. }
  intros [[[program artifact] metadata]|] Hhit.
  - eapply ensures_bind; [apply backend_hit_artifact|]. intros [p a] Ha. cbn in Ha. subst a. apply ensures_ret.
    intros p' a' [= <- ->]. by eapply Hhit.
  - apply ensures_then. intros [program|]; (apply ensures_then; intros _; by apply ensures_ret).
Qed.

Definition valid_artifacts (artifacts : list (string * BackendArtifact)) : Prop :=
  forall name artifact, bm_get name artifacts = Some artifact -> valid_artifact artifact /\ is_Some (pr_backend_name run).

Lemma valid_put name artifact artifacts :
  valid_artifact artifact -> is_Some (pr_backend_name run) -> valid_artifacts artifacts -> valid_artifacts (bm_put name artifact artifacts).
Proof. intros Ha Hb Hall n a. rewrite bm_get_put. case_decide; [by intros [= <-]|apply Hall]. Qed.

Lemma load_programs_valid rows st :
  valid_artifacts st.2 -> ensures (load_programs env run st rows) (fun st => valid_artifacts st.2).
Proof.
  revert st. induction rows as [|[name source] rows IH]; intros [programs artifacts] Hst; [by apply ensures_ret|]. cbn [load_programs].
  apply (ensures_bind _ _ (fun st => valid_artifacts st.2)); [|intros st; apply IH]. unfold load_program.
  destruct (match pr_execution_modules run with Some _ => _ | None => _ end); [by apply ensures_ret|].
  apply ensures_settled. intros module_source _. eapply ensures_bind; [apply cached_module_valid|].
  intros [[program artifact]|] Hfound; [|apply ensures_then; intros p; by apply ensures_ret].
  apply ensures_ret. destruct artifact as [artifact|]; [|done]. destruct (Hfound program artifact eq_refl) as [Ha Hb]. by apply valid_put.
Qed.

(** The programs and the artifacts of the second loop have the same names. *)
Definition paired (st : list (string * Program) * list (string * BackendArtifact)) : Prop :=
  valid_artifacts st.2 /\ forall name, is_Some (bm_get name st.1) <-> is_Some (bm_get name st.2).

Lemma compile_valid backend module program artifact :
  compile_backend_program backend module program = Ok artifact -> valid_artifact artifact.
Proof.
  unfold compile_backend_program. destruct (backend_request_error _ _); [done|]. destruct (compile_backend _ _) as [a|]; [|done].
  unfold verify. destruct (artifact_identity_is_valid a) eqn:Hv; [by intros [= <-]|done].
Qed.

Lemma compile_programs_paired backend cached rows st :
  pr_backend_name run = Some backend -> valid_artifacts cached -> paired st ->
  ensures (compile_programs env run backend cached st rows) paired.
Proof.
  intros Hb Hcached. assert (is_Some (pr_backend_name run)) as Hsome by (rewrite Hb; by eexists).
  assert (Hput : forall name program artifact st, valid_artifact artifact -> paired st ->
    paired (bm_put name program st.1, bm_put name artifact st.2)).
  { intros name program artifact [programs artifacts] Ha [Hv Hsame]. split; [by apply valid_put|]. cbn in *. intros n. rewrite !bm_get_put.
    case_decide; [split; by eexists|apply Hsame]. }
  revert st. induction rows as [|[name program] rows IH]; intros [programs artifacts] Hst; [by apply ensures_ret|]. cbn [compile_programs].
  apply (ensures_bind _ _ paired); [|intros st; apply IH]. unfold compile_program. destruct (bm_get name cached) as [artifact|] eqn:Hc.
  - apply ensures_ret. apply (Hput name program artifact (programs, artifacts)); [by apply Hcached in Hc as [? _]|done].
  - apply ensures_settled. intros p _. apply ensures_settled. intros artifact Ha%compile_valid. apply ensures_then. intros _.
    apply ensures_ret. by apply (Hput name p artifact (programs, artifacts)).
Qed.

Lemma prepare_paired : ensures (prepare env run) (fun st => valid_artifacts st.2 /\
  forall name, is_Some (bm_get name st.2) <-> is_Some (pr_backend_name run) /\ is_Some (bm_get name st.1)).
Proof.
  unfold prepare. eapply ensures_bind; [apply load_programs_valid; by intros ? ?|]. intros [programs cached] Hcached. cbn in Hcached.
  destruct (pr_backend_name run) as [backend|] eqn:Eb.
  - intros st a st' Hc. eapply compile_programs_paired in Hc as [Hv Hsame]; [|done|done|split; [by intros ? ?|intros n; split; by intros [? ?]]].
    split; [done|]. intros name. rewrite Hsame. split; [intros ?; split; [by eexists|done]|by intros [_ ?]].
  - apply ensures_ret. split; [by intros ? ?|]. intros name. split; [by intros [? ?]|by intros [[? ?] _]].
Qed.

(** C28: no artifact is executed that was not verified, and every program has
    its own.  Whatever the cache holds and however its reads and writes fail,
    the artifacts a run ends with have valid identities; there are none without
    a backend, and with one there is exactly one for each program. *)
Theorem prepared_artifacts_valid st programs artifacts st' :
  prepare env run st = (Ok (programs, artifacts), st') ->
  (forall name artifact, bm_get name artifacts = Some artifact -> artifact_identity_is_valid artifact = true) /\
  (forall name, is_Some (bm_get name artifacts) <-> is_Some (pr_backend_name run) /\ is_Some (bm_get name programs)).
Proof.
  intros [Hv Hsame]%prepare_paired. split; [|done]. intros name artifact Ha. by apply Hv in Ha as [? _].
Qed.
End Prepared.

Section Driver.
Context `{ModelCrate, SeedCrate, JsonCrate, FactCrate, !EntryCrate, WorkCrate}.
Context `{ProgramCrate, ProgramFacts, InterfaceCrate, SerdeNumber, !NodeHasher, !Toolchain, !ArtifactCrate, !BuildCrate}.
Context `{!ProbeCompiler, Execution, !ProviderCompiler, !DriverCrate}.

(** ** Retained sessions *)

(** What executes the requests for one module. *)
Inductive Executor : Type :=
  | OfArtifact (session : OwnedSession)
  | OfProgram (session : BodySession).
Definition run_request (executor : Executor) (request : ExecutionRequest) : Value * Executor :=
  match executor with
  | OfArtifact session => prod_map id OfArtifact (session_execute session request)
  | OfProgram session => prod_map id OfProgram (body_execute session request)
  end.
(** An executor after some requests. *)
Definition replay (requests : list ExecutionRequest) (executor : Executor) : Executor :=
  fold_left (fun executor request => (run_request executor request).2) requests executor.

(** The request a line asks to execute. *)
Definition requested (input : Value) : option ExecutionRequest :=
  match request_of input with Execute input => request_from_value input | _ => None end.
Definition executed (line : string + string) : option ExecutionRequest := line_input line ≫= requested.
(** The requests for a module, in the order of their lines. *)
Definition history (module : string) (lines : list (string + string)) : list ExecutionRequest :=
  List.filter (fun request => String.eqb (target_module request) module) (omap executed lines).

Section Requests.
Context (env : BuildEnv) (run : ProbeRun) (programs : list (string * Program)).

(** The executor of a module at first: its admitted artifact, or else one made
    from its program. *)
Definition first_executor (sessions : list (string * OwnedSession)) (module : string) : option Executor :=
  match bm_get module sessions with
  | Some session => Some (OfArtifact session)
  | None => (fun program => OfProgram (body_session program)) <$> bm_get module programs
  end.
(** The line printed for a request after some lines, if the module had an
    executor of its own that saw the requests for it and nothing else. *)
Definition own_answer (sessions : list (string * OwnedSession)) (before : list (string + string)) (request : ExecutionRequest)
  : option string :=
  let module := target_module request in
  executor ← first_executor sessions module;
  to_vec (run_request (replay (history module before) executor) request).1.

(** The executor the loop's state holds for a module. *)
Definition held (executors : list (string * OwnedSession) * list (string * BodySession)) (module : string) : option Executor :=
  match bm_get module executors.1, bm_get module executors.2 with
  | Some session, _ => Some (OfArtifact session)
  | None, Some session => Some (OfProgram session)
  | None, None => (fun program => OfProgram (body_session program)) <$> bm_get module programs
  end.

Lemma execute_body_held module request backend_sessions made session :
  bm_get module backend_sessions = None -> bm_get module made = Some session ->
  (execute_body module request (backend_sessions, made)).1 = Ok (run_request (OfProgram session) request).1 /\
  forall name, held (execute_body module request (backend_sessions, made)).2 name =
    if decide (name = module) then Some (run_request (OfProgram session) request).2 else held (backend_sessions, made) name.
Proof.
  intros Hb Hm. unfold execute_body. rewrite Hm. cbn [run_request]. destruct (body_execute session request) as [result session'].
  split; [done|]. intros name. unfold held. cbn [fst snd prod_map]. rewrite bm_get_put. repeat case_decide; try congruence. subst name. by rewrite Hb.
Qed.

(** An execution answers what the executor held answers, and changes no other. *)
Lemma execute_held input request executors :
  request_from_value input = Some request ->
  match held executors (target_module request) with
  | Some executor =>
      (execute programs input executors).1 = Ok (run_request executor request).1 /\
      forall name, held (execute programs input executors).2 name =
        if decide (name = target_module request) then Some (run_request executor request).2 else held executors name
  | None => exists message, (execute programs input executors).1 = Panic message
  end.
Proof.
  intros Hr. destruct executors as [backend_sessions made]. unfold execute. rewrite Hr. unfold held at 1. cbn [fst snd].
  destruct (bm_get (target_module request) backend_sessions) as [session|] eqn:Eb.
  { cbn [run_request]. destruct (session_execute session request) as [result session']. split; [done|]. intros name. unfold held.
    cbn [fst snd prod_map]. rewrite bm_get_put. repeat case_decide; congruence. }
  destruct (bm_get (target_module request) made) as [session|] eqn:Em; [by apply execute_body_held|].
  destruct (bm_get (target_module request) programs) as [program|] eqn:Ep; cbn [fmap option_fmap option_map]; [|by eexists].
  destruct (execute_body_held (target_module request) request backend_sessions
    (bm_put (target_module request) (body_session program) made) (body_session program) Eb) as [Ho Hheld];
    [by rewrite bm_get_put, decide_True|]. split; [done|]. intros name. rewrite Hheld. case_decide as Hn; [done|]. unfold held. cbn [fst snd].
  rewrite bm_get_put. by case_decide.
Qed.

(** Every other request leaves the executors as they are. *)
Lemma answer_others input build executors : requested input = None -> (answer env run programs input (build, executors)).2.2 = executors.
Proof.
  unfold requested, answer. destruct (request_of input) as [| | | |request| | | |input']; intros Hr; try done.
  - by destruct (compile_application env request build).
  - unfold execute. destruct executors. by rewrite Hr.
Qed.

Lemma answer_execution input request build executors :
  requested input = Some request ->
  exists input', request_from_value input' = Some request /\
    answer env run programs input (build, executors) =
      let '(response, executors) := execute programs input' executors in (response, (build, executors)).
Proof. unfold requested, answer. destruct (request_of input) as [| | | | | | | |input']; intros Hr; try done. by exists input'. Qed.

(** After some lines each module has the executor it had at first, after the
    requests for it. *)
Definition in_step sessions (before : list (string + string)) (executors : list (string * OwnedSession) * list (string * BodySession)) : Prop :=
  forall module, held executors module = replay (history module before) <$> first_executor sessions module.

Lemma history_snoc module before line :
  history module (before ++ [line]) = history module before ++
    match executed line with Some request => if decide (module = target_module request) then [request] else [] | None => [] end.
Proof.
  unfold history. rewrite omap_app, List.filter_app. f_equal. cbn. destruct (executed line) as [request|]; [|done]. cbn.
  destruct (String.eqb_spec (target_module request) module); case_decide; congruence.
Qed.

Lemma line_in_step sessions before line build executors :
  in_step sessions before executors ->
  let r := serve_line (answer env run programs) line (build, executors) in
  (forall request, executed line = Some request ->
     match own_answer sessions before request with Some text => r.1 = Ok text | None => exists message, r.1 = Panic message end) /\
  (forall text, r.1 = Ok text -> in_step sessions (before ++ [line]) r.2.2).
Proof.
  intros Hstep. unfold serve_line. destruct line as [text|error]; [|by split; [intros ? [=]|]].
  assert (executed (inl text) = read_first_value text ≫= requested) as Hexecuted by done.
  destruct (read_first_value text) as [input|]; [|by rewrite Hexecuted; split]. cbn [mbind option_bind] in Hexecuted.
  destruct (requested input) as [request|] eqn:Er.
  - destruct (answer_execution input request build executors Er) as (input' & Hr & ->).
    pose proof (execute_held input' request executors Hr) as He. rewrite (Hstep (target_module request)) in He.
    destruct (execute programs input' executors) as [o executors']. cbn [fst snd] in *. rewrite Hexecuted. unfold own_answer.
    destruct (first_executor sessions (target_module request)) as [executor|] eqn:Ef; cbn [fmap option_fmap option_map] in He.
    + destruct He as [-> Hheld]. split.
      * intros request' [= <-]. rewrite Ef. cbn. by destruct (to_vec _); [|eexists].
      * intros _ _ module. rewrite Hheld, history_snoc, Hexecuted. case_decide as Hm; [|by rewrite app_nil_r, Hstep].
        rewrite Hm, Ef. cbn [fmap option_fmap option_map]. unfold replay. by rewrite fold_left_app.
    + destruct He as [message ->]. split; [|done]. intros request' [= <-]. rewrite Ef. by exists message.
  - pose proof (answer_others input build executors Er) as Hsame.
    destruct (answer env run programs input (build, executors)) as [o [build' executors']]. cbn [fst snd] in *. subst executors'.
    rewrite Hexecuted. split; [done|]. intros text' _ module. by rewrite history_snoc, Hexecuted, app_nil_r.
Qed.

Lemma in_step_start sessions : in_step sessions [] (sessions, []).
Proof.
  intros module. unfold held, first_executor. cbn. destruct (bm_get module sessions); [done|]. by destruct (bm_get module programs).
Qed.

Lemma served_in_step sessions lines before build executors i line request :
  in_step sessions before executors ->
  let served := serve (answer env run programs) lines (build, executors) in
  lines !! i = Some line -> executed line = Some request -> i <= length served.1.1 ->
  served.1.1 !! i = own_answer sessions (before ++ take i lines) request /\
  (own_answer sessions (before ++ take i lines) request = None -> exists message, served.1.2 = Panicked message).
Proof.
  revert before build executors i. induction lines as [|line0 lines IH]; intros before build executors i Hstep served Hl Hr Hi; [done|].
  subst served. cbn [serve] in *. pose proof (line_in_step sessions before line0 build executors Hstep) as [Hown Hnext].
  destruct (serve_line (answer env run programs) line0 (build, executors)) as [o [build' executors']]. cbn [fst snd] in *.
  destruct i as [|i].
  - injection Hl as ->. specialize (Hown request Hr). cbn [take]. rewrite app_nil_r.
    destruct (own_answer sessions before request) as [text|].
    + subst o. by destruct (serve _ lines _) as [[printed ending] st].
    + destruct Hown as [message ->]. split; [done|]. intros _. by exists message.
  - destruct o as [text|e|message]; [|cbn in Hi; lia..].
    specialize (IH (before ++ [line0]) build' executors' i (Hnext text eq_refl)). cbv zeta in IH.
    destruct (serve (answer env run programs) lines (build', executors')) as [[printed ending] st]. cbn [fst snd] in *.
    cbn [length take] in *. rewrite <- app_assoc in IH. cbn [app] in IH. apply IH; [done|done|lia].
Qed.

(** ** Released programs *)

(** Each program has an admitted artifact. *)
Definition covered (sessions : list (string * OwnedSession)) : Prop :=
  forall name, is_Some (bm_get name programs) -> is_Some (bm_get name sessions).

(** A request the release profile has an answer for. *)
Definition release_request (input : Value) : Prop :=
  match request_of input with ExecutionStatus | RecordTypes _ | Execute _ => True | _ => False end.

(** What is left of the programs, and what was answered of those that are not. *)
Definition released (st : list (string * Program) * list (string * Value)) : Prop :=
  forall name, match bm_get name st.2 with
    | Some record_types => exists program, bm_get name programs = Some program /\ record_types_value (p_record_types program) = Some record_types
    | None => bm_get name st.1 = bm_get name programs
    end.

(** The two loops hold the same sessions, and the ordinary one has made none
    over a program. *)
Definition released_alike (st : BuildState * (list (string * OwnedSession) * list (string * BodySession)))
  (st' : (list (string * Program) * list (string * Value)) * list (string * OwnedSession)) : Prop :=
  st.2 = (st'.2, []) /\ covered st'.2 /\ released st'.1.

Lemma alike_refl {A} (o : Outcome string A) : alike o o.
Proof. done. Qed.
Lemma alike_panic {A} message message' : alike (Panic message : Outcome string A) (Panic message').
Proof. done. Qed.

Lemma release_record_types_spec module kept sessions :
  released kept -> alike (program_record_types programs module) (release_record_types module (kept, sessions)).1 /\
  (release_record_types module (kept, sessions)).2.2 = sessions /\ released (release_record_types module (kept, sessions)).2.1.
Proof.
  destruct kept as [kept cache]. intros Hst. pose proof (Hst module) as Hm. unfold release_record_types, program_record_types. cbn [fst snd] in Hm.
  destruct (bm_get module cache) as [record_types|] eqn:Ec.
  { destruct Hm as (program & -> & Hr). cbn. rewrite Hr. split; [apply alike_refl|done]. }
  rewrite Hm. destruct (bm_get module programs) as [program|] eqn:Ep; [|split; [apply alike_panic|done]]. cbn [expect mbind outcome_bind].
  destruct (record_types_value (p_record_types program)) as [record_types|] eqn:Er; [|split; [apply alike_panic|done]].
  split; [apply alike_refl|]. cbn [snd]. destruct (bool_decide _); [|done]. split; [done|]. intros name. cbn [fst snd]. rewrite bm_get_put.
  case_decide as Hn; [subst name; by exists program|]. specialize (Hst name). cbn [fst snd] in Hst.
  destruct (bm_get name cache); [done|]. rewrite bm_get_remove. by case_decide.
Qed.

Lemma release_execute_spec input sessions :
  covered sessions -> let r := execute programs input (sessions, []) in let r' := release_execute input sessions in
  alike r.1 r'.1 /\ r.2 = (r'.2, []) /\ covered r'.2.
Proof.
  intros Hc. unfold execute, release_execute. destruct (request_from_value input) as [request|]; [|by split; [apply alike_panic|]].
  destruct (bm_get (target_module request) sessions) as [session|] eqn:Es.
  - destruct (session_execute session request) as [result session']. split; [apply alike_refl|]. split; [done|].
    intros name Hn%Hc. cbn [snd]. rewrite bm_get_put. case_decide; [by eexists|done].
  - cbn [bm_get]. destruct (bm_get (target_module request) programs) as [program|] eqn:Ep; [|by split; [apply alike_panic|]].
    destruct (Hc (target_module request)) as [session Hs]; [by eexists|]. congruence.
Qed.

Lemma release_answer_spec input st st' :
  release_request input -> released_alike st st' ->
  alike (answer env run programs input st).1 (release_answer run input st').1 /\
  released_alike (answer env run programs input st).2 (release_answer run input st').2.
Proof.
  destruct st as [build executors], st' as [kept sessions]. intros Hallowed (Heq & Hc & Hst). cbn [fst snd] in Heq, Hc, Hst. subst executors.
  unfold release_request in Hallowed. unfold release_answer, answer.
  unfold request_of in *. destruct (get_str "oracle" input); [done|].
  destruct (has_key "execution_status" input); [by split; [apply alike_refl|]|].
  destruct (get_str "record_types" input) as [module|].
  { destruct (release_record_types_spec module kept sessions Hst) as (Ha & Hs & Hr). split; [done|]. unfold released_alike. by rewrite Hs. }
  destruct (get "project_oracle" input); [done|]. destruct (get "compile_application" input); [done|].
  destruct (get "emit_vm_artifact" input); [done|]. destruct (get_str "elaborate" input); [done|]. destruct (get_str "ssa" input); [done|].
  destruct (release_execute_spec input sessions Hc) as (Ha & Hs & Hc').
  destruct (execute programs input (sessions, [])), (release_execute input sessions). by split.
Qed.
End Requests.

(** C32: retained sessions answer as their own.  A session may change with every
    execution.  Whatever the requests and in whatever order, the line the
    ordinary loop prints for the i-th request, when that is an execution, is
    what an executor of its module alone answers after exactly the earlier
    executions for that module, in order: the module's admitted session if it
    has one, or else one session made from its program.  Executions for other
    modules and requests of other kinds, builds included, leave no trace in it,
    and no session is made twice.  A module with neither, and an answer that
    cannot be written, end the loop with a panic. *)
Theorem retained_sessions_exact env run sessions programs lines build i line request :
  let served := serve (answer env run programs) lines (build, (sessions, [])) in
  lines !! i = Some line -> executed line = Some request -> i <= length served.1.1 ->
  served.1.1 !! i = own_answer programs sessions (take i lines) request /\
  (own_answer programs sessions (take i lines) request = None -> exists message, served.1.2 = Panicked message).
Proof. apply (served_in_step env run programs sessions lines [] build (sessions, []) i line request), in_step_start. Qed.

Lemma admitted_names artifacts sessions name :
  admit_sessions artifacts = Ok sessions -> is_Some (bm_get name artifacts) -> is_Some (bm_get name sessions).
Proof.
  intros Ha%map_outcome_ok. induction Ha as [|[k a] [k' session] artifacts sessions Hrow _ IH]; [by intros [? ?]|]. cbn [bm_get].
  cbn in Hrow. destruct (new_admitted a); [|done]. injection Hrow as <- <-. case_decide; [by eexists|done].
Qed.

(** C33: releasing programs is not observable.  Once a run has prepared its
    programs and admitted its artifacts, the profile that drops each program
    after its record types were asked for answers execution, status and
    record-type requests, in any order and any number, line for line like the
    ordinary loop, and it fails at a request only where that does. *)
Theorem release_profile_exact penv env run st st' programs artifacts sessions lines build :
  prepare penv run st = (Ok (programs, artifacts), st') -> is_Some (pr_backend_name run) ->
  admit_sessions artifacts = Ok sessions ->
  (forall line input, line ∈ lines -> line_input line = Some input -> release_request input) ->
  let released := serve (release_answer run) lines ((programs, []), sessions) in
  let ordinary := serve (answer env run programs) lines (build, (sessions, [])) in
  released.1.1 = ordinary.1.1 /\ (released.1.2 = Returned <-> ordinary.1.2 = Returned).
Proof.
  intros [_ Hnames]%prepare_paired Hbackend Hadmit Hlines. cbv zeta.
  assert (covered programs sessions) as Hcovered.
  { intros name Hp. eapply admitted_names; [exact Hadmit|]. apply Hnames. by split. }
  destruct (serve_alike (answer env run programs) (release_answer run) (released_alike programs) release_request)
    with (lines := lines) (st := (build, (sessions, [] : list (string * BodySession))))
      (st' := ((programs, [] : list (string * Value)), sessions))
    as [Hp He]; [|done|split_and!; [done|done|by intros name]|by rewrite <- Hp, He].
  intros input b s Hallowed Hs. by apply release_answer_spec.
Qed.
End Driver.
