(* ===== verification/ProbeSamples.v ===== *)
(** Inputs to apply the theorems of the probe, the provider and the build script
    at. *)

From Stdlib Require Import Ascii String.
From S2P Require Import ProbeCacheTheorems AppProgramTheorems AppSamples Codec EmissionTheorems AppCacheTheorems AppFlowSamples ProviderTheorems BuildScriptTheorems ProbeDriverTheorems.
From S2P Require Export ProbeProgramsTheorems.

Local Open Scope string_scope.
Local Open Scope list_scope.

(** ** A digest without dots *)

Fixpoint nibbles (s : string) : string :=
  match s with
  | EmptyString => ""
  | String (Ascii a b c d e f g h) s =>
      String (Ascii a b c d false false true false) (String (Ascii e f g h false false true false) (nibbles s))
  end.
#[export] Instance nibbles_inj : Inj (=) (=) nibbles.
Proof.
  intros s. induction s as [|[a b c d e f g h] s IH]; intros [|[a' b' c' d' e' f' g' h'] t] Heq; cbn in Heq; [done..|].
  injection Heq as -> -> -> -> -> -> -> -> Heq. by rewrite (IH t).
Qed.
Lemma nibbles_plain s : plain (nibbles s).
Proof.
  unfold plain. induction s as [|[a b c d e f g h] s IH]; cbn; [by intros ?%elem_of_nil|].
  by intros [?|[?|?]%elem_of_cons]%elem_of_cons.
Qed.

#[export] Instance probe_model : ModelCrate := {|
  sha256_hex := nibbles;
  function_id := fun namespace name => namespace +:+ "." +:+ name;
  transformation_new := @transformation_new reference_crate;
  OBLIGATION_SCHEMA_VERSION := "mncs.obligation/1";
  identity_is_valid := fun _ => true;
  fingerprint := @fingerprint reference_crate
|}.
#[export] Instance probe_facts : ProgramFacts := {|
  module_id := fun module => "module:" +:+ module;
  body_type_of := fun _ ty => TyRecord ty ty;
  SemanticIdentities := unit;
  identity_fingerprint := fun _ _ => None;
  specialization_value := fun _ => None;
  assumptions_value := Str
|}.

(** ** Two modules of the compiler *)

Definition SOURCE : string := "mncs.compiler.source.v1".
Definition LEXER : string := "mncs.compiler.lexer.v1".
Definition probe_program (name : string) (dependencies : list SemanticId) : Program :=
  mkProgram name dependencies [] [] [] [] "" "".

(** The text of the lexer is its name and what it uses; any text but [lexer]
    and [source] is refused, and the lexer without a source too. *)
Definition probe_front_end (text : string) (resolver : string -> option string) : FrontEnd :=
  let refused := mkFrontEndResult false None [] Null "refused" Null in
  if String.eqb text "source" then mkFrontEndResult true (Some (probe_program SOURCE [])) [] Null "" Null
  else if String.eqb text "lexer" then
    if bool_decide (resolver SOURCE = Some "source") then
        mkFrontEndResult true (Some (probe_program LEXER ["module:" +:+ SOURCE]))
          [mkResolution SOURCE SOURCE ("module:" +:+ SOURCE) None] Null "" Null
    else refused
  else refused.

Definition inputs_with (vars : list (string * string)) (files : list (string * string)) : ProbeInputs := {|
  pi_var := fun name => bm_get name vars;
  pi_args := [];
  pi_is_file := fun path => bool_decide (is_Some (bm_get path files));
  pi_read := fun path => match bm_get path files with Some text => inl text | None => inr "not found" end;
  pi_bytes := fun _ => None;
  pi_tree := fun _ => TreeDir (Some [("compiler.rs", TreeFile (Some "new"))]);
  pi_rustc := None
|}.
Definition probe_inputs : ProbeInputs :=
  inputs_with [("MNCS_PROBE_MODULES", "source, lexer"); ("MNCS_PROBE_CACHE_DIR", "cache")]
    [("src/compiler/source.mncs", "source"); ("src/compiler/lexer.mncs", "lexer")].

(** ** The crates, with one text an entry can have *)

Definition identity_of (inputs : ProbeInputs) : ToolchainIdentity :=
  {| ti_schema := "probe-toolchain/1"; ti_lock_revision := UNKNOWN_IDENTITY_PART; ti_lock_source_profile := UNKNOWN_IDENTITY_PART;
     ti_provisioned_revision := UNKNOWN_IDENTITY_PART; ti_bootstrap_tree_sha256 := hash_tree (pi_tree inputs "");
     ti_bootstrap_cargo_lock_sha256 := UNKNOWN_IDENTITY_PART; ti_compiler_implementation := "compiler";
     ti_pipeline_identity := "pipeline"; ti_language_profile := "0.19"; ti_backend_name := None;
     ti_backend_configuration := None; ti_target := None; ti_compiler_host := "host"; ti_build_host := "host";
     ti_rustc_version := UNKNOWN_IDENTITY_PART |}.
Definition probe_identity : ToolchainIdentity := Eval vm_compute in frontend_toolchain_identity (identity_of probe_inputs).
(** An older compiler that shares the cache. *)
Definition NEW_FILES : list (string * string) := [("compiler.rs", "new")].
Definition OLD_FILES : list (string * string) := [("compiler.rs", "old")].
Definition old_identity : ToolchainIdentity := Eval vm_compute in
  frontend_toolchain_identity (identity_of {| pi_var := pi_var probe_inputs; pi_args := []; pi_is_file := pi_is_file probe_inputs;
    pi_read := pi_read probe_inputs; pi_bytes := pi_bytes probe_inputs;
    pi_tree := fun _ => TreeDir (Some [("compiler.rs", TreeFile (Some "old"))]); pi_rustc := None |}).

Definition probe_closure : SourceMap := [(LEXER, "lexer"); (SOURCE, "source")].
Definition lexer_program : Program := probe_program LEXER ["module:" +:+ SOURCE].
(** What the older compiler makes of the lexer. *)
Definition old_lexer : Program := mkProgram LEXER ["module:" +:+ SOURCE] [] [] [] [] "old" "".
Definition lexer_metadata : FrontendCacheMetadata := {|
  fm_schema := FRONTEND_SCHEMA; fm_module := LEXER; fm_module_source_sha256 := module_source_sha256 "lexer";
  fm_dependency_semantic_ids := ["module:" +:+ SOURCE];
  fm_dependency_sources := [mkDependencySource SOURCE (module_source_sha256 "source")];
  fm_resolved_modules := [mkResolved SOURCE SOURCE ("module:" +:+ SOURCE)]
|}.
Definition lexer_entry : ProbeCacheEntry := mkCacheEntry probe_identity lexer_program None (Some lexer_metadata).
Definition old_entry : ProbeCacheEntry := mkCacheEntry old_identity old_lexer None (Some lexer_metadata).

#[local] Instance dependency_source_eq_dec : EqDecision FrontendDependencySource.
Proof. solve_decision. Defined.
#[local] Instance metadata_eq_dec : EqDecision FrontendCacheMetadata.
Proof. solve_decision. Defined.

(** Serialization fails but for the entries of the lexer. *)
Definition sample_entry_json (e : ProbeCacheEntry) : option string :=
  match e with
  | mkCacheEntry t (mkProgram name dependencies [] [] [] [] assumptions "") None (Some metadata) =>
      if bool_decide (name = LEXER) && bool_decide (dependencies = ["module:" +:+ SOURCE]) && bool_decide (metadata = lexer_metadata) then
        if bool_decide (t = probe_identity) && bool_decide (assumptions = "") then Some "entry"
        else if bool_decide (t = old_identity) && bool_decide (assumptions = "old") then Some "old entry"
        else None
      else None
  | _ => None
  end.
Lemma sample_entry_json_some e text :
  sample_entry_json e = Some text -> (e = lexer_entry /\ text = "entry") \/ (e = old_entry /\ text = "old entry").
Proof.
  destruct e as [t [name dependencies [|] [|] [|] [|] assumptions rest] [|] [metadata|]]; try done; unfold sample_entry_json;
    destruct rest; try done.
  destruct (bool_decide_reflect (name = LEXER)) as [->|]; [|done].
  destruct (bool_decide_reflect (dependencies = ["module:" +:+ SOURCE])) as [->|]; [|done].
  destruct (bool_decide_reflect (metadata = lexer_metadata)) as [->|]; [|done]. cbn [andb].
  destruct (bool_decide (t = probe_identity) && bool_decide (assumptions = "")) eqn:Hnew.
  - apply andb_true_iff in Hnew as [->%bool_decide_eq_true ->%bool_decide_eq_true]. intros [= <-]. by left.
  - destruct (bool_decide (t = old_identity) && bool_decide (assumptions = "old")) eqn:Hold; [|done].
    apply andb_true_iff in Hold as [->%bool_decide_eq_true ->%bool_decide_eq_true]. intros [= <-]. by right.
Qed.

#[export] Instance probe_compiler : ProbeCompiler := {|
  ProbeEnvelope := string;
  inline_source := fun _ text => text;
  front_end_with_resolver_and_seeds := fun text resolver _ => probe_front_end text resolver;
  seeds_from_str := fun _ => Some [];
  backend_request_error := fun _ _ => None;
  compile_backend := fun backend program => inl (mkBackendArtifact (backend +:+ ":" +:+ p_module program) "");
  artifact_identity_is_valid := fun _ => true;
  toolchain_json := sample_toolchain_json;
  seeds_json := sample_seeds_json;
  json_strings := fun names => String.concat "," names;
  debug_str := quoted;
  entry_json := sample_entry_json;
  read_program_entry := fun text =>
    if String.eqb text "entry" then Some (mkProgramEntry probe_identity lexer_program (Some lexer_metadata))
    else if String.eqb text "old entry" then Some (mkProgramEntry old_identity old_lexer (Some lexer_metadata)) else None;
  read_backend_entry := fun _ => None;
  value_from_str := parse_value;
  compiler_implementation := "compiler"; pipeline_identity := "pipeline"; REFERENCE_LANGUAGE_PROFILE := "0.19";
  compiler_host := "host"; build_host := "host";
  configuration_for_backend := fun _ => None; target_for_backend := fun _ => None
|}.

Lemma sample_entry_read e text : entry_json e = Some text ->
  read_program_entry text = Some (mkProgramEntry (pc_identity e) (pc_program e) (pc_frontend e)).
Proof. by intros [[-> ->]|[-> ->]]%sample_entry_json_some. Qed.
(** Which compiler a tree is the source of: another tree is that of one that
    refuses every module. *)
Definition compiler_front (files : list (string * string)) (t : ToolchainIdentity)
  (text : ProbeEnvelope) (resolver : string -> option ProbeEnvelope) (seeds : list HostGenericSeedRequest) : FrontEnd :=
  if bool_decide (files = NEW_FILES) then probe_front_end text resolver
  else if bool_decide (files = OLD_FILES) then
    let result := probe_front_end text resolver in
    mkFrontEndResult (fr_is_valid result) ((fun p => mkProgram (p_module p) (p_dependencies p) [] [] [] [] "old" "") <$> fr_program result)
      (fr_module_resolutions result) Null "" Null
  else mkFrontEndResult false None [] Null "refused" Null.

Lemma probe_front_end_local text resolver resolver' :
  fr_is_valid (probe_front_end text resolver) = true ->
  (forall m, m ∈ fr_module_resolutions (probe_front_end text resolver) ->
    resolver' (mr_requested_module m) = resolver (mr_requested_module m)) ->
  probe_front_end text resolver' = probe_front_end text resolver.
Proof.
  unfold probe_front_end. destruct (String.eqb text "source"); [done|]. destruct (String.eqb text "lexer"); [|done].
  case_bool_decide as Hr; [|done]. intros _ Hres. cbn in Hres.
  specialize (Hres (mkResolution SOURCE SOURCE ("module:" +:+ SOURCE) None) (list_elem_of_here _ _)). cbn in Hres.
  by rewrite bool_decide_true by congruence.
Qed.
Lemma sample_front_end_local files t (e : ProbeEnvelope) resolver resolver' seeds :
  let result := compiler_front files t e resolver seeds in
  fr_is_valid result = true ->
  (forall m, m ∈ fr_module_resolutions result -> resolver' (mr_requested_module m) = resolver (mr_requested_module m)) ->
  compiler_front files t e resolver' seeds = result.
Proof.
  cbv zeta. unfold compiler_front. destruct (bool_decide (files = NEW_FILES)); [by apply probe_front_end_local|].
  destruct (bool_decide (files = OLD_FILES)); [|done]. cbn [fr_is_valid fr_module_resolutions]. intros Hv Hres.
  by rewrite (probe_front_end_local e resolver resolver' Hv Hres).
Qed.

Definition probe_env : ProbeEnv := {|
  pe_inputs := probe_inputs;
  pe_fails := fun _ _ => false; pe_proc_exists := fun _ => false; pe_to_string_lossy := id;
  pe_usize_max := 18446744073709551615; pe_pid := 7;
  pe_now := fun tick => Z.of_nat tick; pe_clock1 := fun _ _ => 0%Z; pe_clock2 := fun _ _ => 0%Z;
  pe_compressed_length := fun text => Z.of_nat (String.length text)
|}.
Definition probe_run_sample : ProbeRun := Eval vm_compute in
  match probe_run probe_inputs 9 with Ok run => run | _ => mkRun None [] "" [] [] None None None None end.
(** The lexer is cached, by the compiler of the run and by the older one. *)
Definition lexer_key : string :=
  frontend_cache_key_hex toolchain_json seeds_json probe_identity LEXER "lexer" [] +:+ ".program.json.gz".
Definition old_key : string :=
  frontend_cache_key_hex toolchain_json seeds_json old_identity LEXER "lexer" [] +:+ ".program.json.gz".
Definition probe_state : ProbeState := mkProbeState
  [mkEntry old_key true 9 (Some 0%Z) (Some "old entry"); mkEntry lexer_key true 5 (Some 0%Z) (Some "entry");
   mkEntry "left.tmp" true 1 None (Some "?")] 0 0 0 0 0.

Lemma probe_run_sample_ok : probe_run probe_inputs 9 = Ok probe_run_sample.
Proof. vm_compute. reflexivity. Qed.
Lemma nul_free_file (name content : string) :
  forallb (fun a => negb (Ascii.eqb a "000"%char)) (list_ascii_of_string name ++ list_ascii_of_string content) = true ->
  rows_nul_free [(name, content)].
Proof.
  rewrite forallb_app, andb_true_iff, !forallb_forall. intros [Hn Hc]. repeat constructor; cbn; intros Hin%list_elem_of_In.
  - by apply Hn in Hin.
  - by apply Hc in Hin.
Qed.
Lemma new_describes : describes NEW_FILES probe_identity.
Proof. split; [by apply nul_free_file|vm_compute; reflexivity]. Qed.
Lemma old_describes : describes OLD_FILES old_identity.
Proof. split; [by apply nul_free_file|vm_compute; reflexivity]. Qed.
Lemma sample_runs_compiler : runs_compiler compiler_front probe_inputs (pr_backend_name probe_run_sample).
Proof. exists NEW_FILES. split_and!; [reflexivity|by apply nul_free_file|reflexivity]. Qed.

(** The entry of a lexer that one of the compilers elaborated. *)
Lemma lexer_written files t program text :
  describes files t ->
  compiler_front files (frontend_toolchain_identity t) "lexer" (resolve_source [(LEXER, "lexer"); (SOURCE, "source")]) []
    = mkFrontEndResult true (Some program) [mkResolution SOURCE SOURCE ("module:" +:+ SOURCE) None] Null "" Null ->
  frontend_cache_metadata module_id p_dependencies LEXER "lexer" program [mkResolution SOURCE SOURCE ("module:" +:+ SOURCE) None] probe_closure
    = Some lexer_metadata ->
  entry_json (mkCacheEntry (frontend_toolchain_identity t) program None (Some lexer_metadata)) = Some text ->
  Written compiler_front (frontend_cache_key_hex toolchain_json seeds_json t LEXER "lexer" [] +:+ ".program.json.gz") text.
Proof.
  intros Hd Hf Hmd Hj.
  apply (WrittenFrontend compiler_front files t LEXER "lexer" "lexer" [] [(LEXER, "lexer"); (SOURCE, "source")] probe_closure program lexer_metadata);
    try done.
  - unfold line_free. apply (bool_decide_unpack _). vm_compute. exact Logic.I.
  - intros name. rewrite source_of_map; [done|]. repeat constructor.
  - change (fr_is_valid (compiler_front files (frontend_toolchain_identity t) "lexer" (resolve_source [(LEXER, "lexer"); (SOURCE, "source")]) []) = true).
    by rewrite Hf.
  - change (fr_program (compiler_front files (frontend_toolchain_identity t) "lexer" (resolve_source [(LEXER, "lexer"); (SOURCE, "source")]) []) = Some program).
    by rewrite Hf.
  - change (frontend_cache_metadata module_id p_dependencies LEXER "lexer" program
      (fr_module_resolutions (compiler_front files (frontend_toolchain_identity t) "lexer" (resolve_source [(LEXER, "lexer"); (SOURCE, "source")]) [])) probe_closure
      = Some lexer_metadata). by rewrite Hf.
Qed.

Lemma probe_state_honest : Honest compiler_front (ps_dir probe_state).
Proof.
  intros e text He Ht. apply elem_of_cons in He as [->|[->|[->|He]%elem_of_cons]%elem_of_cons];
    [| |by apply (WrittenTemporary compiler_front "left")|by apply elem_of_nil in He]; injection Ht as <-.
  - apply (lexer_written OLD_FILES old_identity old_lexer "old entry" old_describes); vm_compute; reflexivity.
  - apply (lexer_written NEW_FILES probe_identity lexer_program "entry" new_describes); vm_compute; reflexivity.
Qed.

Lemma cached_programs_current_witness :
  (prepare probe_env probe_run_sample probe_state).1 =
    (fun programs => (programs, [])) <$> elaborated_programs probe_run_sample (pr_sources probe_run_sample) [].
Proof.
  apply (@cached_programs_current probe_model _ probe_facts probe_compiler compiler_front nibbles_inj sample_toolchain_json_inj sample_seeds_json_inj
    nibbles_plain (fun t => rendered_free _) (fun s => rendered_free _) sample_entry_read sample_front_end_local
    probe_env 9 probe_run_sample probe_state).
  - vm_compute. reflexivity.
  - exact sample_runs_compiler.
  - exact probe_state_honest.
  - reflexivity.
Defined.

(** ** Library modules that use each other *)

Definition library_inputs : ProbeInputs :=
  inputs_with [("MNCS_PROBE_LIBRARY_MODULES", "mncs.text.lines.v1"); ("MNCS_LIBRARY_PATH", "lib")]
    [("lib/text/lines.mncs", "use mncs.text.bytes.v1;"); ("lib/text/bytes.mncs", "use mncs.text.lines.v1;")].
Definition LINES : string := "mncs.text.lines.v1".
Definition BYTES : string := "mncs.text.bytes.v1".

Lemma sample_imports module imported :
  imports library_inputs ["lib"] [] module imported -> imported = LINES \/ imported = BYTES.
Proof.
  intros (_ & text & Htext & Himp). unfold library_text in Htext.
  apply bind_Some in Htext as (relative & _ & Htext). apply bind_Some in Htext as (path & _ & Htext).
  unfold library_inputs, inputs_with, pi_read in Htext. cbn [bm_get] in Htext.
  destruct (decide (path = "lib/text/lines.mncs")); [|destruct (decide (path = "lib/text/bytes.mncs")); [|done]];
    injection Htext as <-; vm_compute in Himp; apply elem_of_cons in Himp as [->|[]%elem_of_nil]; [by right|by left].
Qed.

Lemma sample_reached module : reached library_inputs ["lib"] [] [LINES] module -> module ∈ [LINES; BYTES].
Proof.
  intros (root & ->%list_elem_of_singleton & Hr). apply rtc_inv_r in Hr as [->|(other & _ & [->| ->]%sample_imports)]; set_solver.
Qed.

(** The cycle is loaded once around. *)
Definition cycle_fuel : nat := library_fuel library_inputs ["lib"] [LINES] [LINES; BYTES].
Definition cycle_loaded : SourceMap :=
  [(BYTES, "use mncs.text.lines.v1;"); (LINES, "use mncs.text.bytes.v1;")].
Lemma cycle_loads : load_probe_library_modules library_inputs cycle_fuel [] = Ok (cycle_loaded, cycle_loaded).
Proof. vm_cast_no_check (eq_refl (@Ok string _ (cycle_loaded, cycle_loaded))). Qed.

Lemma library_modules_exact_witness :
  bm_get BYTES cycle_loaded = Some "use mncs.text.lines.v1;" <->
  reached library_inputs ["lib"] [] [LINES] BYTES /\ loadable [] BYTES /\
  library_text library_inputs ["lib"] BYTES = Some "use mncs.text.lines.v1;".
Proof.
  pose proof (library_modules_exact library_inputs [] [LINES; BYTES] cycle_fuel) as Hexact.
  cbv zeta in Hexact. change (library_roots library_inputs) with ["lib"] in Hexact.
  change (requested_modules library_inputs) with [LINES] in Hexact. rewrite cycle_loads in Hexact.
  assert (NoDup [LINES; BYTES]) as Hnd by (apply (bool_decide_unpack _); vm_compute; exact Logic.I).
  apply (Hexact Hnd sample_reached (le_n _)).
Defined.

(** ** The provider, the build script and the driver *)

(** ** The instances *)

#[local] Existing Instances serde_Z colliding EmissionTheorems.reference_toolchain build_artifacts build_interfaces
  build_program_facts sample_fact_crate sample_entry_crate build_work build_crate probe_model probe_compiler.

#[local] Instance driver_json : JsonCrate := {| to_vec := print_value; toolchain_value := fun t => Some (Str (ti_schema t)) |}.

(** A request names its module; what executes it signs the answer and counts
    its executions. *)
#[local] Instance driver_execution : Execution := {|
  ExecutionRequest := string;
  request_from_value := get_str "module";
  target_module := id;
  OwnedSession := string * nat;
  new_admitted := fun artifact => inl (ba_identity artifact, 0);
  session_reused := fun session => Nat.ltb 0 session.2;
  session_execute := fun '(name, n) request => (Array [Str name; Str request; count n], (name, S n));
  BodySession := string * nat;
  body_session := fun program => (p_module program, 0);
  body_execute := fun '(name, n) request => (Array [Str name; Str request; count n], (name, S n))
|}.

(** ** A provider request *)

#[local] Instance sample_provider : ProviderCompiler := {|
  read_request := fun text =>
    if String.eqb text "request" then inl (mkProviderRequest _ "mncs.compiler-vm-request/1" "app.mncs" "app" ["lib"; "copy"] [] true ["m"])
    else inr "syntax";
  declared_module_name := fun text => Some text;
  module_names_compatible := String.eqb;
  provider_front_end := fun _ _ _ =>
    (mkProviderFrontEnd true (Some sample_program) Null None Null Null, ["mncs.text.lines"; "mncs.missing"; "mncs.text.lines"]);
  without_tests := id;
  source_map_value := fun _ => Null;
  producer_json := write_value (object [("identity", Str "sha256:00")])
|}.

(** Both libraries have the module, with one text. *)
Definition provider_files : ProviderFiles := {|
  pv_canonicalize := fun path =>
    match bm_get path [("app.mncs", "/src/app.mncs"); ("lib", "/lib"); ("copy", "/copy"); ("/lib/text/lines.mncs", "/lib/text/lines.mncs");
      ("/copy/lines.mncs", "/copy/lines.mncs")] with Some path => inl path | None => inr "not found" end;
  pv_bytes := fun path => if String.eqb path "in" then inl "request" else inr "not found";
  pv_text := fun path =>
    match bm_get path [("/src/app.mncs", "app"); ("/lib/text/lines.mncs", "mncs.text.lines"); ("/copy/lines.mncs", "mncs.text.lines")] with
    | Some text => inl text | None => inr "not found" end;
  pv_lossy := id
|}.

Definition provider_value : Value := Eval vm_compute in match provider_run provider_files "in" with Ok v => v | _ => Null end.
Lemma provider_value_ok : provider_run provider_files "in" = Ok provider_value.
Proof. vm_cast_no_check (eq_refl (@Ok string _ provider_value)). Qed.

Lemma provider_inputs_exact_witness :
  exists rows, get "source_inputs" provider_value = Some (Object (map (fun row => (row.1, Str row.2)) rows)) /\
    NoDup rows.*1 /\ "/src/app.mncs" ∈ rows.*1.
Proof.
  assert (get_str "status" provider_value = Some "emitted") as Hstatus by (vm_compute; reflexivity).
  destruct (provider_inputs_exact provider_files "in" provider_value provider_value_ok Hstatus)
    as (content & request & source & text & roots & front & asked & rows & Hb & Hr & Hs & Ht & _ & _ & _ & Hi & Hnd & Hkeys & _).
  exists rows. split; [exact Hi|]. split; [exact Hnd|]. apply Hkeys. exists (source, text). split; [left|].
  assert (inl "request" = (inl content : string + string)) as Hc by exact Hb. injection Hc as <-.
  cbn in Hr. injection Hr as <-. cbn in Hs. injection Hs as <-. reflexivity.
Defined.

(** Two paths whose bytes differ and that are shown alike share one row. *)
Definition alike_files : ProviderFiles := {|
  pv_canonicalize := pv_canonicalize provider_files; pv_bytes := pv_bytes provider_files; pv_text := pv_text provider_files;
  pv_lossy := fun _ => "?"
|}.
Example inputs_shown_alike :
  (get "source_inputs" <$> provider_run alike_files "in") =
  Ok (Some (Object [("?", Str (sha256_hex "mncs.text.lines"))])).
Proof. vm_compute. reflexivity. Qed.

(** ** A build *)

Lemma sample_round_trip v bytes : to_vec v = Some bytes -> value_from_str bytes = Some v.
Proof. exact (parse_print v bytes). Qed.


Definition build_inputs : BuildInputs := {|
  bi_var := fun name => bm_get name [("CARGO_MANIFEST_DIR", "/repo/tools/stage0-probe"); ("OUT_DIR", "/out"); ("RUSTC", "rustc");
    ("CARGO", "/bin/cargo"); ("PATH", "/usr/bin:/bin")];
  bi_tree := fun path => default (TreeOther None) (bm_get path
    [("/repo/tools/vm_emit.rs", TreeFile (Some "emit"));
     ("/repo/.bootstrap/crates", TreeDir (Some [("target", TreeDir (Some [("debug", TreeFile (Some "object"))]));
        ("mncs-model", TreeDir (Some [("lib.rs", TreeFile (Some "model"))]))]))]);
  bi_bytes := fun path => Some path;
  bi_text := fun path => if String.eqb path "/repo/.bootstrap/revision" then Some "r1" else None;
  bi_canonicalize := fun path => if String.eqb path "/usr/bin/rustc" then None else Some path;
  bi_command := fun command arguments =>
    if existsb (String.eqb "status") arguments then Some (true, " M tools/vm_emit.rs" +:+ newline +:+ "?? notes") else Some (true, "out");
  bi_lossy := id
|}.
Definition built : string * string * list string := Eval vm_compute in
  match build_main build_inputs with Ok built => built | _ => ("", "", []) end.
Lemma built_ok : build_main build_inputs = Ok built.
Proof. vm_cast_no_check (eq_refl (@Ok string _ built)). Qed.

Example built_rows :
  (fst <$> receipt build_inputs) ≫= (fun value => expect "" (get "source_inputs" value))
    = Ok (rows_value [(".bootstrap/crates/mncs-model/lib.rs", nibbles "model"); ("tools/vm_emit.rs", nibbles "emit")]) /\
  (fst <$> receipt build_inputs) ≫= (fun value => expect "" (get "dirty_input_count" value)) = Ok (count 1).
Proof. split; vm_compute; reflexivity. Qed.

Lemma producer_receipt_exact_witness :
  exists producer identity, value_from_str built.1.2 = Some producer /\ producer_identity_of producer = Ok identity.
Proof.
  destruct (producer_receipt_exact sample_round_trip build_inputs built.1.1 built.1.2 built.2 built_ok)
    as (root & rows & value & bytes & producer & _ & Hp & Hi & _).
  exists producer, ("sha256:" +:+ sha256_hex bytes). split; [exact Hp|exact Hi].
Defined.

(** Another build of one file, on another host. *)
Definition one_file (rustc : string) : BuildInputs := {|
  bi_var := bi_var build_inputs;
  bi_tree := fun path => if String.eqb path "/repo/tools/vm_emit.rs" then TreeFile (Some "emit") else TreeOther None;
  bi_bytes := bi_bytes build_inputs; bi_text := bi_text build_inputs;
  bi_canonicalize := fun path => if String.eqb path rustc then None else Some path;
  bi_command := bi_command build_inputs; bi_lossy := id
|}.
Definition built_one : string * string * list string := Eval vm_compute in
  match build_main (one_file "/usr/bin/rustc") with Ok built => built | _ => ("", "", []) end.
Lemma built_one_ok : build_main (one_file "/usr/bin/rustc") = Ok built_one.
Proof. vm_cast_no_check (eq_refl (@Ok string _ built_one)). Qed.

Lemma one_file_content rustc key c : input_row (one_file rustc) "/repo" key c -> c = "emit".
Proof.
  intros (rel & (path & _ & Hb) & _). unfold one_file in Hb. cbn [bi_tree] in Hb.
  destruct (String.eqb (path_join "/repo" path) "/repo/tools/vm_emit.rs"); by inversion Hb.
Qed.

Lemma producer_identity_binds_witness :
  input_row (one_file "/usr/bin/rustc") "/repo" "tools/vm_emit.rs" "emit" <->
  input_row (one_file "/usr/bin/rustc") "/repo" "tools/vm_emit.rs" "emit".
Proof.
  assert (forall key c d, input_row (one_file "/usr/bin/rustc") "/repo" key c -> input_row (one_file "/usr/bin/rustc") "/repo" key d -> c = d) as Hone
    by (intros key c d ->%one_file_content ->%one_file_content; reflexivity).
  apply (@producer_identity_binds probe_model driver_json probe_compiler sample_round_trip nibbles_inj (one_file "/usr/bin/rustc") (one_file "/usr/bin/rustc")
    built_one.1.1 built_one.1.1 built_one.1.2 built_one.1.2 built_one.2 built_one.2 "/repo" "/repo" built_one_ok built_one_ok
    eq_refl eq_refl eq_refl Hone Hone).
Defined.

(** ** A run with a backend *)

#[local] Instance sample_driver : DriverCrate := {|
  read_first_value := parse_value;
  display_value := write_value;
  seeds_from_value := fun _ => Some [];
  syntax_parse_value := fun _ => None;
  record_types_value := fun types => Some (count (List.length types));
  finite_types_value := fun _ => Null;
  home_module_value := fun _ => Null;
  front_end_with_resolver := fun text => probe_front_end text (fun _ => None);
  LoweredSsa := unit;
  lower_to_ssa := fun _ => None;
  ssa_value := fun _ => Null;
  execute_ssa_module := fun _ _ _ => Null
|}.

Definition backend_inputs : ProbeInputs :=
  inputs_with [("MNCS_PROBE_MODULES", "source"); ("MNCS_PROBE_BACKEND", "vm")] [("src/compiler/source.mncs", "source")].
Definition backend_env : ProbeEnv := {|
  pe_inputs := backend_inputs;
  pe_fails := fun _ _ => false; pe_proc_exists := fun _ => false; pe_to_string_lossy := id;
  pe_usize_max := 18446744073709551615; pe_pid := 7;
  pe_now := fun tick => Z.of_nat tick; pe_clock1 := fun _ _ => 0%Z; pe_clock2 := fun _ _ => 0%Z;
  pe_compressed_length := fun text => Z.of_nat (String.length text)
|}.
Definition backend_run : ProbeRun := Eval vm_compute in
  match probe_run backend_inputs 9 with Ok run => run | _ => mkRun None [] "" [] [] None None None None end.
Definition backend_programs : list (string * Program) := [(SOURCE, probe_program SOURCE [])].
Definition backend_artifacts : list (string * BackendArtifact) := [(SOURCE, mkBackendArtifact ("vm:" +:+ SOURCE) "")].

Lemma backend_prepared :
  prepare backend_env backend_run probe_state = (Ok (backend_programs, backend_artifacts), probe_state).
Proof. vm_compute. reflexivity. Qed.

Lemma prepared_artifacts_valid_witness :
  artifact_identity_is_valid (mkBackendArtifact ("vm:" +:+ SOURCE) "") = true.
Proof.
  apply (proj1 (prepared_artifacts_valid backend_env backend_run probe_state backend_programs backend_artifacts probe_state
    backend_prepared) SOURCE). vm_compute. reflexivity.
Defined.

(** The record types twice, then two executions, then the status. *)
Definition release_lines : list (string + string) :=
  map (fun input => inl (write_value input))
    [object [("record_types", Str SOURCE)]; object [("record_types", Str SOURCE)]; object [("module", Str SOURCE)];
     object [("module", Str SOURCE)];
     object [("execution_status", Bool true)]].
Definition backend_sessions : list (string * OwnedSession) := [(SOURCE, (("vm:" +:+ SOURCE)%string, 0))].

Example release_sample :
  (serve (release_answer backend_run) release_lines ((backend_programs, []), backend_sessions)).1 =
    (map write_value [count 0; count 0; Array [Str ("vm:" +:+ SOURCE); Str SOURCE; count 0]; Array [Str ("vm:" +:+ SOURCE); Str SOURCE; count 1];
       object [("backend", Str "vm"); ("modules", count 1); ("retained_sessions", count 1)]], Returned) /\
  (serve (release_answer backend_run) release_lines ((backend_programs, []), backend_sessions)).2.1.1 = [].
Proof. split; vm_compute; reflexivity. Qed.

Lemma release_lines_allowed line input :
  line ∈ release_lines -> line_input line = Some input -> release_request input.
Proof.
  intros Hl Hi. repeat (apply elem_of_cons in Hl as [->|Hl]; [vm_compute in Hi; injection Hi as <-; exact Logic.I|]).
  by apply elem_of_nil in Hl.
Qed.

Lemma release_profile_exact_witness :
  (serve (release_answer backend_run) release_lines ((backend_programs, []), backend_sessions)).1.1 =
  (serve (answer (AppFlowSamples.build_env 7) backend_run backend_programs) release_lines (AppFlowSamples.build_start, (backend_sessions, []))).1.1.
Proof.
  assert (is_Some (pr_backend_name backend_run)) as Hb by (eexists; reflexivity).
  assert (admit_sessions backend_artifacts = Ok backend_sessions) as Ha by reflexivity.
  exact (proj1 (release_profile_exact backend_env (AppFlowSamples.build_env 7) backend_run probe_state probe_state
    backend_programs backend_artifacts backend_sessions release_lines AppFlowSamples.build_start backend_prepared Hb Ha release_lines_allowed)).
Defined.

(** Executions for an admitted module and for one that has only a program, in
    turn, with a request for record types between them. *)
Definition session_programs : list (string * Program) := [(LEXER, probe_program LEXER []); (SOURCE, probe_program SOURCE [])].
Definition session_lines : list (string + string) :=
  map (fun input => inl (write_value input))
    [object [("module", Str LEXER)]; object [("module", Str SOURCE)]; object [("record_types", Str LEXER)];
     object [("module", Str LEXER)]; object [("module", Str SOURCE)]; object [("module", Str LEXER)]; object [("module", Str "none")]].
Definition session_served :=
  serve (answer (AppFlowSamples.build_env 7) backend_run session_programs) session_lines (AppFlowSamples.build_start, (backend_sessions, [])).

(** The third execution of the lexer is the third of its own session. *)
Lemma retained_sessions_exact_witness :
  session_served.1.1 !! 5 = Some (write_value (Array [Str LEXER; Str LEXER; count 2])).
Proof.
  assert (executed (inl (write_value (object [("module", Str LEXER)]))) = Some LEXER) as He by (vm_compute; reflexivity).
  assert (5 <= length session_served.1.1) as Hlen by (apply (bool_decide_unpack _); vm_compute; exact Logic.I).
  unfold session_served. rewrite (proj1 (retained_sessions_exact (AppFlowSamples.build_env 7) backend_run backend_sessions session_programs session_lines
    AppFlowSamples.build_start 5 (inl (write_value (object [("module", Str LEXER)]))) LEXER eq_refl He Hlen)).
  vm_compute. reflexivity.
Defined.
